(* ===== verification/_CoqProject ===== *)
-Q . S2P
Prelude.v
Slice.v
Hpack.v
Varint.v
Huffman.v
HuffmanSpec.v
Tables.v
Io.v
BufferedWriter.v
BufReader.v
BufReaderProps.v
Chunked.v
ChunkedProps.v
HpackEncode.v
HpackDecode.v
HpackSync.v
DecodeProps.v
Httpguts.v
Textproto.v
GoStrings.v
TextReader.v
TextReaderProps.v
Mime.v
MimeLex.v
MimeProps.v
QuotedPrintable.v
QuotedProps.v
Multipart.v
MultipartProps.v
EncodedWord.v
EncodedWordProps.v
HttpServer.v
GoTrack.v
Http2Types.v
Frame.v
Framer.v
FrameWire.v
FrameRead.v
FrameProps.v
FrameHeld.v
FrameDebug.v
WriteFrames.v
WriteProps.v
MetaHeaders.v
MetaProps.v
HeaderRoundtrip.v
Bits64.v
PallocSum.v
PageBits.v
PageFind.v
PageSummary.v
PageRange.v
AddrRanges.v
Regions.v
OsMem.v
OffHeap.v
PersistentProps.v
FixallocProps.v
PageAlloc.v
PageTree.v
PageAllocProps.v
PageSearch.v
PageCache.v
PageGrow.v
Spans.v
NeedsZero.v
GcBits.v
Heap.v
Hints.v
HeapGrow.v
SpanProps.v
Goroutine.v
Sched.v
SchedProps.v
Chan.v
ChanLists.v
ChanProps.v
ChanFifo.v
ChanClose.v
Select.v
