(* ===== verification/Prelude.v ===== *)
(** * A verification library for go-runtime-inside-out

    The repository re-implements parts of Go's HTTP/2 and HTTP stacks and of the
    Go runtime.  This library models the parts that have logic of their own and
    proves what makes them correct.  This header says which file models which
    source file, what is proved, and what is left out.

    ** The HTTP/2 stack

    Layers, each calling the one before: HPACK ([src/http2/hpack]), the framer
    ([src/http2/http2/frame.go]), header blocks ([readMetaFrame]), the frame
    writers ([src/http2/http2/write.go]).

    - [Hpack], [Varint], [Huffman], [Tables]: the data of HPACK, prefix
      integers, the Huffman code, the static and dynamic tables
      ([hpack.go], [encode.go], [huffman.go], [tables.go], [static_table.go]).
    - [HpackEncode], [HpackDecode]: [Encoder] and the incremental [Decoder].
      The state of the decoder is the record [Decoder]; its callback is a state
      transformer.
    - [Io]: [io.Reader] and [io.Writer] as type classes with laws, and
      [ReadAtLeast], [ReadFull] ([src/http2/io/io.go]).
    - [BufferedWriter]: the connection's [bufferedWriter] over any writer.
    - [Httpguts], [Textproto]: syntax of header names and values, canonical
      and lower-case keys, [MIMEHeader].
    - [Http2Types], [Frame], [Framer]: constants, error values, settings, frame
      types with their parsers, and the [Framer] with every [Write*] method,
      [ReadFrame] and [checkFrameOrder].
    - [FrameHeld]: the methods of frames, and [ReadFrame] on a heap: a
      [DataFrame] is a record whose data is a slice of the read buffer, and
      [lastFrame] a pointer to such a record, or another frame.
    - [FrameDebug]: frames as text ([writeDebug], [summarizeFrame]).
    - [MetaHeaders]: [readMetaFrame], with its callback as a function on the
      variables it captures.
    - [WriteFrames]: the [writeFramer] types, [splitHeaderBlock],
      [encodeHeaders].
    - [GoTrack]: goroutine locks and [parseUintBytes] ([gotrack.go]).
    - Module [Http2] of [HttpServer]: [ConfigureServer] and the connection that
      [ServeConn] makes ([src/http2/http2/server.go]).

    Theorems: [HuffmanSpec] (the coder is a bijection onto its image and
    total), [HpackSync] and [DecodeProps] (what the encoder writes the decoder
    reads, whatever way it is cut into pieces; tables stay equal; the decoder
    never panics), [Tables] (refinement of a list), [FrameWire], [FrameRead],
    [FrameProps] (what the [Write*] methods send is read back, with GOAWAY codes
    and too large windows as exceptions; frames are well formed, parsers never
    panic, limits and order are enforced, where a PUSH_PROMISE frame does not
    start a header block as the comments say), [FrameHeld] (the heap refines the
    values when a frame is returned; the next payload overwrites its data),
    [FrameDebug] (the text of a header determines it), [MetaProps] (what a
    [MetaHeadersFrame] guarantees), [WriteProps] (fields sent are valid, bounds
    on buffering), [HeaderRoundtrip] (a response without newly indexed fields,
    which the decoder would refuse, goes from the server's writer to a peer's
    reader unchanged) and [GoTrack] (numbers are parsed exactly; a
    lock passes on its own goroutine only).

    ** HTTP and MIME

    [src/http].  What these packages take from Go's standard library is in
    [BufReader] ([bufio.Reader] over any [io.Reader]) and [GoStrings]
    ([strings], [unicode], [utf8], [base64], iteration over maps).

    - [Chunked]: chunked bodies, both ways ([http/internal/chunked.go]).
    - [TextReader]: lines, folded lines and [ReadMIMEHeader]
      ([textproto/reader.go]).
    - [Mime]: media types with parameters ([mime/mediatype.go], [grammar.go]).
    - [EncodedWord]: encoded words ([mime/encodedword.go]).
    - [QuotedPrintable]: decoding reader and encoding writer
      ([mime/quotedprintable]).
    - [Multipart]: the reader of multipart bodies and its parts; the files of a
      form ([mime/multipart/multipart.go], [formdata.go]).
    - [HttpServer]: [Serve] with the listeners and connections a server keeps,
      and the names of connections that log ([http/server.go]).

    Theorems: [BufReaderProps] defines the class [Source] of readers that
    deliver a given string in pieces of any size; everything above it is proved
    for every source.  [ChunkedProps], [TextReaderProps], [MultipartProps] and
    [QuotedProps]: bodies, headers and parts are read exactly as written, and
    what follows them is left unread; the quoted-printable writer writes
    nothing.  [MimeLex], [MimeProps]: every media type of the grammar is parsed
    to the values written, parsing always returns, formatting gives up.
    [EncodedWordProps]: encoded words round trip within their length where
    [Encode] returns, and where it does not.
    [HttpServer]: what [Serve] leaves behind.

    ** The memory allocator of the runtime

    [src/memory_and_heap], from the kernel up.

    - [Bits64]: the bit counting routines of [stubs.go]; [Slice]: indexing with
      bounds checks.
    - [Regions], [OsMem]: sets of addresses, and memory from the system
      ([mem.go], [mem_linux.go]) over a kernel with the documented laws of its
      calls, given as parameters.
    - [OffHeap]: [persistentalloc], [fixalloc], [linearAlloc] ([malloc.go],
      [mfixalloc.go]).
    - [AddrRanges]: [mranges.go].
    - [PageBits], [PallocSum], [PageAlloc], [PageCache], [PageGrow]: a bitmap of
      512 pages per chunk, packed summaries, the radix tree above them, the
      cache of a P ([mpallocbits.go], [mpagealloc.go], [mpagecache.go]).
    - [Spans], [GcBits], [Heap]: spans and their layout, arenas of mark bits,
      [mallocinit], growth and arena hints ([mheap.go], [malloc.go]).

    Theorems: [PageFind], [PageRange], [PageSummary] (searching and changing a
    bitmap, its summary), [PageTree], [PageAllocProps], [PageSearch] (the tree
    summarises the pages below, allocation and search), [PersistentProps],
    [FixallocProps] (memory handed out is apart from all other), [NeedsZero],
    [SpanProps], [GcBits], [HeapGrow] (spans, mark bits and growth), [Hints]
    (address space is taken from the first hint the kernel grants).

    ** Goroutines and channels

    [src/channels_and_select].  The state is one record [world] with a heap per
    type of object (channels, sudogs, goroutines, element values), the P, the
    global scheduler state and the current goroutine; pointers are numbers.

    - [Goroutine]: the data ([runtime2.go]) and lists linked through a heap.
    - [Sched]: queues of goroutines, the run queue with its overflow, status
      changes, [gopark], [goready], [acquireSudog] ([proc.go]).
    - [Chan]: [makechan], [chansend], [chanrecv], [closechan] ([chan.go]), with
      [gopark] and [goready] of [Sched].  A call returns or parks.
    - [Select]: the poll order of [selectgo], the layout of cases of
      [reflect_rselect] ([select.go]), and their proofs.

    Theorems: [SchedProps] (the run queue), [ChanLists] (the linked
    wait queue and the circular buffer represent lists), [ChanProps] (the
    invariant [chan_inv] of a channel and what each operation does to it; when
    [goready] works and when it throws; [makechan]), [ChanFifo] (runs of a
    channel keep order; a send that meets a parked receiver loses its value),
    [ChanClose] (closing wakes one waiter, and throws with more, as [runqput]
    takes one goroutine only).  One M runs the code, the operations
    on a channel are steps, and other Ps only appear as what they steal from
    the run queue.

    ** Modelling conventions

    Bytes and machine words are [Z] with their wrap-around written out ([u64],
    [u32], ...); a byte string is a [list Z].  A call that may fail is a [res]:
    a value, an [error], or a panic; a method that changes its receiver is
    [stateful].  A [throw] of the runtime and an access to unmapped memory stop
    the program and are panics as well.  Other threads act as arbitrary changes
    between two atomic accesses.  Where a slice of a shared buffer is read while
    the buffer changes, the argument is a range of that buffer
    ([QuotedPrintable], [FrameHeld]).

    Loops that are not structural take fuel; [NoFuel] is then an outcome of its
    own and the termination and totality theorems show that the fuel is never
    used up: ten rounds for a 64-bit prefix integer, the length of the input for
    the decoders and parsers, 64 or 65 rounds for the shrinking loops on a word,
    whose shift at least grows by one each round, and for loops that wait for
    input the bound their theorems state.

    What the repository only calls is a parameter: readers and writers with
    the laws their interfaces document, the flusher of a connection, the
    payload handlers, the kernel, the table of lower-case letters
    ([UnicodeLower]), the order of iteration over a map ([RangeOrder]), the
    answers of a listener.

    ** Not modelled

    - [src/http2/http2]: serving a connection, [transport.go], [writesched.go],
      [main.go]: not written, or stubs.
    - the debug framer and the loggers: no effect on results.
    - [gen.go] and [huffman_example.go]: they print or explain tables that are
      modelled themselves.
    - [src/http/http]: reading a request and serving a connection, unfinished;
      TLS, hooks and what is logged.
    - [src/http/mime]: [nextPart] beyond the point where it makes the part,
      [readForm] (an empty loop); [mime_rfc.go] is prose.
    - the scavenger and the freeing of pages and spans: not in the source, or
      commented out; [allocSpan] as far as it is written.
    - [schedule], stack switches, the race detector and profiling: empty,
      assembly or commented out in [src/channels_and_select]; [selectgo] and
      [reflect_rselect] as far as they are written.
    - [src/scheduler], [src/netpoller], [src/sync_package],
      [src/calling_convention]: prose and fragments.
    - assembly, the wrappers of atomic accesses and system calls: parameters
      of the runtime, or single steps. *)

From stdpp Require Export base list strings gmap numbers.
From Stdlib Require Export ZArith Lia.

Local Open Scope Z_scope.

(** ** Outcomes of Go calls

    A Go function returns values, returns a non-nil [error], or panics.  When
    an [error] is returned the remaining results are not kept: no caller in the
    modelled code reads them.  [NoFuel] is the outcome of a loop whose fuel ran
    out; the termination theorems show that it never occurs. *)

Inductive res (E A : Type) : Type :=
  | Ok (a : A)
  | Err (e : E)
  | Panic (msg : string)
  | NoFuel.
Arguments Ok {E A} a.
Arguments Err {E A} e.
Arguments Panic {E A} msg.
Arguments NoFuel {E A}.

Definition res_bind {E A B} (m : res E A) (k : A -> res E B) : res E B :=
  match m with
  | Ok a => k a
  | Err e => Err e
  | Panic s => Panic s
  | NoFuel => NoFuel
  end.

Definition res_map {E A B} (f : A -> B) (m : res E A) : res E B :=
  res_bind m (fun a => Ok (f a)).

(** Calls without an error result, [res Empty_set A], inside a function that
    has one. *)
Definition no_err {E A} (m : res Empty_set A) : res E A :=
  match m with
  | Ok a => Ok a
  | Err e => match e with end
  | Panic s => Panic s
  | NoFuel => NoFuel
  end.

(** Outcome of a call together with the state it leaves behind: Go methods
    mutate their receiver also on the paths that return an error. *)
Definition stateful (St E A : Type) : Type := St -> res E A * St.

Definition st_ret {St E A} (a : A) : stateful St E A := fun s => (Ok a, s).
Definition st_err {St E A} (e : E) : stateful St E A := fun s => (Err e, s).
Definition st_bind {St E A B} (m : stateful St E A) (k : A -> stateful St E B) :
    stateful St E B :=
  fun s =>
    match m s with
    | (Ok a, s') => k a s'
    | (Err e, s') => (Err e, s')
    | (Panic msg, s') => (Panic msg, s')
    | (NoFuel, s') => (NoFuel, s')
    end.
Definition st_lift {St E A} (r : res E A) : stateful St E A := fun s => (r, s).
Definition st_get {St E} : stateful St E St := fun s => (Ok s, s).
Definition st_put {St E} (s' : St) : stateful St E unit := fun _ => (Ok tt, s').
Definition st_mod {St E} (f : St -> St) : stateful St E unit :=
  fun s => (Ok tt, f s).

Declare Scope go_scope.
Delimit Scope go_scope with go.
Notation "'let?' x := m 'in' k" := (res_bind m (fun x => k))
  (at level 10, x pattern, m at level 100, k at level 200) : go_scope.
Notation "'let*' x := m 'in' k" := (st_bind m (fun x => k))
  (at level 10, x pattern, m at level 100, k at level 200) : go_scope.
Notation "m ;;; k" := (st_bind m (fun _ => k))
  (at level 199, right associativity) : go_scope.

(** ** Machine integers and bytes

    Go's unsigned integers are kept as [Z] in their range; the functions below
    are the conversions and wrap-arounds. *)

Abbreviation bytes := (list Z).

Definition u8 (z : Z) : Z := z mod 2 ^ 8.
Definition u16 (z : Z) : Z := z mod 2 ^ 16.
Definition u32 (z : Z) : Z := z mod 2 ^ 32.
Definition u64 (z : Z) : Z := z mod 2 ^ 64.
(** [int(x)] for a 64-bit platform: reinterpretation in two's complement. *)
Definition i64 (z : Z) : Z := (z + 2 ^ 63) mod 2 ^ 64 - 2 ^ 63.

Definition is_byte (b : Z) : Prop := 0 <= b < 256.
Definition is_bytes (l : bytes) : Prop := Forall is_byte l.
Definition len {A} (l : list A) : Z := Z.of_nat (length l).

#[export] Instance is_byte_dec b : Decision (is_byte b).
Proof. unfold is_byte. apply _. Defined.
#[export] Instance is_bytes_dec l : Decision (is_bytes l).
Proof. unfold is_bytes. apply _. Defined.

(** A Go string constant as its bytes. *)
Definition str (s : string) : bytes :=
  map (fun c => Z.of_N (Ascii.N_of_ascii c)) (String.list_ascii_of_string s).

(** Big-endian value of a byte string and its inverse. *)
Fixpoint be_val (l : bytes) : Z :=
  match l with
  | [] => 0
  | b :: l => b * 2 ^ (8 * len l) + be_val l
  end.

Fixpoint be_bytes (n : nat) (v : Z) : bytes :=
  match n with
  | O => []
  | S n => u8 (v / 2 ^ (8 * Z.of_nat n)) :: be_bytes n v
  end.

(** ** Tactics *)

(** Linear arithmetic with [/] and [mod] by numerals. *)
Ltac zdiv_lia := Z.div_mod_to_equations; nia.

(** Splits the innermost [match]/[if] of the goal or of a hypothesis. *)
Ltac split_match :=
  match goal with
  | |- context [match ?x with _ => _ end] => destruct x eqn:?
  | H : context [match ?x with _ => _ end] |- _ => destruct x eqn:?
  end.

(** Turns boolean comparisons into propositions. *)
Ltac bool_to_Prop :=
  repeat match goal with
  | H : (_ && _)%bool = true |- _ => apply andb_true_iff in H; destruct H
  | H : (_ || _)%bool = false |- _ => apply orb_false_iff in H; destruct H
  | H : negb _ = true |- _ => apply negb_true_iff in H
  | H : negb _ = false |- _ => apply negb_false_iff in H
  | H : (_ <? _) = true |- _ => apply Z.ltb_lt in H
  | H : (_ <? _) = false |- _ => apply Z.ltb_ge in H
  | H : (_ <=? _) = true |- _ => apply Z.leb_le in H
  | H : (_ <=? _) = false |- _ => apply Z.leb_gt in H
  | H : (_ =? _) = true |- _ => apply Z.eqb_eq in H
  | H : (_ =? _) = false |- _ => apply Z.eqb_neq in H
  end.

(** ** Computations on a state *)

Section Compute.
Context {St E : Type}.

Lemma bind_ok {A B} (m : stateful St E A) (k : A -> stateful St E B) s a s' :
  m s = (Ok a, s') -> st_bind m k s = k a s'.
Proof. unfold st_bind. by intros ->. Qed.

Lemma bind_eq {A B} (m m' : stateful St E A) (k : A -> stateful St E B) s s' :
  m s = m' s' -> st_bind m k s = st_bind m' k s'.
Proof. unfold st_bind. by intros ->. Qed.

Lemma bind_panic {A B} (m : stateful St E A) (k : A -> stateful St E B) s msg s' :
  m s = (Panic msg, s') -> st_bind m k s = (Panic msg, s').
Proof. unfold st_bind. by intros ->. Qed.

Lemma bind_bind {A B C} (m : stateful St E A) (k : A -> stateful St E B) (k2 : B -> stateful St E C) s :
  st_bind m (fun a => st_bind (k a) k2) s = st_bind (st_bind m k) k2 s.
Proof. unfold st_bind. by destruct (m s) as [[] ?]. Qed.

(** A computation that returns was one whose steps returned. *)
Lemma bind_inv {A B} (m : stateful St E A) (k : A -> stateful St E B) s b s' :
  st_bind m k s = (Ok b, s') -> exists a s1, m s = (Ok a, s1) /\ k a s1 = (Ok b, s').
Proof. unfold st_bind. destruct (m s) as [[a| | |] s1]; try done. eauto. Qed.
Lemma lift_inv {A} (r : res E A) (s s' : St) a : st_lift r s = (Ok a, s') -> r = Ok a /\ s' = s.
Proof. unfold st_lift. by intros [= -> ->]. Qed.

(** [wp m Q s]: from [s], the computation [m] panics or returns with [Q]; it
    does not run out of fuel. *)
Definition wp {A} (m : stateful St E A) (Q : A -> St -> Prop) (s : St) : Prop :=
  match m s with (Ok a, s') => Q a s' | (Panic _, _) => True | _ => False end.

Lemma wp_bind {A B} (m : stateful St E A) (k : A -> stateful St E B) Q s :
  wp m (fun a s' => wp (k a) Q s') s -> wp (st_bind m k) Q s.
Proof. unfold wp, st_bind. by destruct (m s) as [[] ?]. Qed.
Lemma wp_ret {A} (a : A) (Q : A -> St -> Prop) s : Q a s -> wp (st_ret a) Q s.
Proof. done. Qed.
Lemma wp_panic {A} msg (Q : A -> St -> Prop) s : wp (st_lift (Panic msg)) Q s.
Proof. done. Qed.
Lemma wp_weaken {A} (m : stateful St E A) (Q Q' : A -> St -> Prop) s :
  wp m Q s -> (forall a s', Q a s' -> Q' a s') -> wp m Q' s.
Proof. unfold wp. destruct (m s) as [[] ?]; auto. Qed.
Lemma wp_ok {A} (m : stateful St E A) (Q : A -> St -> Prop) s a s' : m s = (Ok a, s') -> Q a s' -> wp m Q s.
Proof. unfold wp. by intros ->. Qed.
Lemma wp_inv {A} (m : stateful St E A) (Q : A -> St -> Prop) s :
  wp m Q s -> (exists a s', m s = (Ok a, s') /\ Q a s') \/ exists msg, fst (m s) = Panic msg.
Proof. unfold wp. destruct (m s) as [[] ?]; try done; [left; eauto|right; eauto]. Qed.

End Compute.

(** The next step of a computation whose [wp] is the goal. *)
Ltac wp_step := apply wp_bind; cbv beta.

(** One step of a computation whose first call is known. *)
Ltac step := erewrite bind_ok by reflexivity; cbn beta iota zeta delta [Z.eqb Pos.eqb negb andb orb fst snd].
Ltac step_with H := rewrite (bind_ok _ _ _ _ _ H); cbn beta iota zeta delta [Z.eqb Pos.eqb negb andb orb fst snd].

(** ** Powers of two and bit operations *)

Section Bits.

Lemma pow2_pos (n : Z) : 0 <= n -> 0 < 2 ^ n.
Proof. intros. apply Z.pow_pos_nonneg; lia. Qed.

Lemma pow2_8 (n : nat) : 2 ^ (8 * Z.of_nat (S n)) = 256 * 2 ^ (8 * Z.of_nat n).
Proof.
replace (8 * Z.of_nat (S n)) with (8 + 8 * Z.of_nat n) by lia.
rewrite Z.pow_add_r by lia. reflexivity.
Qed.

(** [a & (2^n - 1)] is the remainder. *)
Lemma land_mask (a n : Z) : 0 <= n -> Z.land a (2 ^ n - 1) = a mod 2 ^ n.
Proof.
intros. rewrite <- Z.land_ones by lia. rewrite Z.ones_equiv.
now rewrite Z.sub_1_r.
Qed.

Lemma testbit_small (a n i : Z) : 0 <= a < 2 ^ n -> n <= i -> Z.testbit a i = false.
Proof.
intros Ha Hi. destruct (Z.ltb_spec n 0).
- rewrite Z.pow_neg_r in Ha by lia. lia.
- rewrite <- (Z.mod_small a (2 ^ n)) by lia. apply Z.mod_pow2_bits_high; lia.
Qed.

Lemma lor_byte a b : is_byte a -> is_byte b -> is_byte (Z.lor a b).
Proof.
  unfold is_byte. intros [Ha Ha'] [Hb Hb']. split; [by apply Z.lor_nonneg|].
  destruct (Z.eq_dec (Z.lor a b) 0) as [->|Hne]; [done|]. change 256 with (2 ^ 8).
  assert (0 <= Z.lor a b) by (by apply Z.lor_nonneg).
  apply Z.log2_lt_pow2; [lia|]. rewrite Z.log2_lor by done.
  apply Z.max_lub_lt.
  - destruct (Z.eq_dec a 0) as [->|]; [done|]. apply Z.log2_lt_pow2; [lia|done].
  - destruct (Z.eq_dec b 0) as [->|]; [done|]. apply Z.log2_lt_pow2; [lia|done].
Qed.

(** Bits set in disjoint positions: [|] is [+]. *)
Lemma lor_disjoint (a b n : Z) :
0 <= n -> 0 <= b < 2 ^ n -> Z.lor (a * 2 ^ n) b = a * 2 ^ n + b.
Proof.
intros Hn Hb. rewrite <- Z.add_lor_land.
enough (Z.land (a * 2 ^ n) b = 0) as -> by lia.
apply Z.bits_inj'. intros i Hi. rewrite Z.land_spec, Z.bits_0.
destruct (Z.ltb_spec i n).
- rewrite Z.mul_pow2_bits_low by lia. reflexivity.
- rewrite (testbit_small b n) by lia. apply andb_false_r.
Qed.

Lemma lor_shiftl (a b n : Z) :
0 <= n -> 0 <= b < 2 ^ n -> Z.lor (Z.shiftl a n) b = a * 2 ^ n + b.
Proof. intros. rewrite Z.shiftl_mul_pow2 by lia. now apply lor_disjoint. Qed.

(** [b &^ ...] style tests of a single high bit. *)
Lemma land_pow2 (a n : Z) :
0 <= n -> Z.land a (2 ^ n) = if Z.testbit a n then 2 ^ n else 0.
Proof.
intros. apply Z.bits_inj'. intros i Hi.
rewrite Z.land_spec, Z.pow2_bits_eqb by lia.
destruct (Z.eqb_spec n i) as [->|].
- rewrite andb_true_r. destruct (Z.testbit a i) eqn:?.
  + now rewrite Z.pow2_bits_true.
  + now rewrite Z.bits_0.
- rewrite andb_false_r. destruct (Z.testbit a n).
  + now rewrite Z.pow2_bits_false.
  + now rewrite Z.bits_0.
Qed.

Lemma div_pow2_add (a b n : Z) : 0 <= n -> 0 <= b < 2 ^ n -> (a * 2 ^ n + b) / 2 ^ n = a.
Proof.
intros. rewrite Z.add_comm, Z.div_add by lia. rewrite Z.div_small by lia. lia.
Qed.

Lemma mod_pow2_add (a b n : Z) : 0 <= n -> 0 <= b < 2 ^ n -> (a * 2 ^ n + b) mod 2 ^ n = b.
Proof.
intros. rewrite Z.add_comm, Z.mod_add by lia. now apply Z.mod_small.
Qed.

(** Taking the [k] high bits of an [n]-bit field. *)
Lemma mod_pow2_mod_pow2 (a n m : Z) : 0 <= m <= n -> (a mod 2 ^ n) mod 2 ^ m = a mod 2 ^ m.
Proof.
intros. apply Z.mod_mod_divide. exists (2 ^ (n - m)).
rewrite <- Z.pow_add_r by lia. f_equal. lia.
Qed.

End Bits.

(** ** Machine integers *)

Section Words.

Lemma u8_range z : 0 <= u8 z < 256.
Proof. unfold u8. apply Z.mod_pos_bound. lia. Qed.
Lemma u32_range z : 0 <= u32 z < 2 ^ 32.
Proof. unfold u32. apply Z.mod_pos_bound. lia. Qed.
Lemma u64_range z : 0 <= u64 z < 2 ^ 64.
Proof. unfold u64. apply Z.mod_pos_bound. lia. Qed.
Lemma u8_small z : 0 <= z < 256 -> u8 z = z.
Proof. intros. unfold u8. apply Z.mod_small. lia. Qed.
Lemma u16_small z : 0 <= z < 2 ^ 16 -> u16 z = z.
Proof. intros. unfold u16. now apply Z.mod_small. Qed.
Lemma u32_small z : 0 <= z < 2 ^ 32 -> u32 z = z.
Proof. intros. unfold u32. now apply Z.mod_small. Qed.
Lemma u64_small z : 0 <= z < 2 ^ 64 -> u64 z = z.
Proof. intros. unfold u64. now apply Z.mod_small. Qed.
Lemma i64_small z : 0 <= z < 2 ^ 63 -> i64 z = z.
Proof. intros. unfold i64. rewrite Z.mod_small; lia. Qed.

End Words.

(** ** Byte strings *)

Section Bytes.

Lemma len_nonneg {A} (l : list A) : 0 <= len l.
Proof. unfold len. lia. Qed.
Lemma len_nil {A} : len (@nil A) = 0.
Proof. reflexivity. Qed.
Lemma len_cons {A} (x : A) l : len (x :: l) = 1 + len l.
Proof. unfold len. simpl. lia. Qed.
Lemma len_app {A} (l1 l2 : list A) : len (l1 ++ l2) = len l1 + len l2.
Proof. unfold len. rewrite length_app. lia. Qed.
Lemma len_0_nil {A} (l : list A) : len l = 0 -> l = [].
Proof. destruct l; [done|]. rewrite len_cons. pose proof (len_nonneg l). lia. Qed.

Lemma is_bytes_nil : is_bytes [].
Proof. constructor. Qed.
Lemma is_bytes_cons b l : is_bytes (b :: l) <-> is_byte b /\ is_bytes l.
Proof. unfold is_bytes. apply Forall_cons_iff. Qed.
Lemma is_bytes_app l1 l2 : is_bytes (l1 ++ l2) <-> is_bytes l1 /\ is_bytes l2.
Proof. unfold is_bytes. apply Forall_app. Qed.
Lemma is_bytes_take n l : is_bytes l -> is_bytes (take n l).
Proof. unfold is_bytes. apply Forall_take. Qed.
Lemma is_bytes_drop n l : is_bytes l -> is_bytes (drop n l).
Proof. unfold is_bytes. apply Forall_drop. Qed.
Lemma is_byte_u8 z : is_byte (u8 z).
Proof. apply u8_range. Qed.

(** Decision procedure for concrete byte strings. *)
Lemma bytes_check l : forallb (fun b => (0 <=? b) && (b <? 256))%bool l = true -> is_bytes l.
Proof.
induction l as [|b l IH]; [constructor|]. simpl. intros.
bool_to_Prop. apply is_bytes_cons. unfold is_byte. auto with lia.
Qed.

Lemma be_val_cons b l : be_val (b :: l) = b * 2 ^ (8 * len l) + be_val l.
Proof. reflexivity. Qed.

Lemma be_val_bound l : is_bytes l -> 0 <= be_val l < 2 ^ (8 * len l).
Proof.
induction 1 as [|b l Hb Hl IH]; [vm_compute; split; congruence|].
unfold is_byte in Hb. rewrite be_val_cons. unfold len in *.
rewrite length_cons, pow2_8. nia.
Qed.

Lemma be_val_app l1 l2 : be_val (l1 ++ l2) = be_val l1 * 2 ^ (8 * len l2) + be_val l2.
Proof.
induction l1 as [|b l1 IH]; [reflexivity|].
change ((b :: l1) ++ l2) with (b :: (l1 ++ l2)).
rewrite !be_val_cons, IH, len_app, Z.mul_add_distr_l, Z.pow_add_r
  by (pose proof (len_nonneg l1); pose proof (len_nonneg l2); lia).
lia.
Qed.

Lemma length_be_bytes n v : length (be_bytes n v) = n.
Proof. induction n; simpl; auto. Qed.

Lemma is_bytes_be_bytes n v : is_bytes (be_bytes n v).
Proof. induction n; simpl; constructor; auto using is_byte_u8. Qed.

Lemma be_val_be_bytes n v : be_val (be_bytes n v) = v mod 2 ^ (8 * Z.of_nat n).
Proof.
induction n as [|n IH].
- rewrite Z.mul_0_r, Z.pow_0_r, Z.mod_1_r. reflexivity.
- simpl be_bytes. rewrite be_val_cons. unfold len. rewrite length_be_bytes, IH.
  rewrite pow2_8, (Z.mul_comm 256), Z.rem_mul_r; [|lia|].
  + unfold u8. change (2 ^ 8) with 256. lia.
  + pose proof (pow2_pos (8 * Z.of_nat n)). lia.
Qed.

Lemma be_val_inj l1 l2 :
is_bytes l1 -> is_bytes l2 -> length l1 = length l2 -> be_val l1 = be_val l2 -> l1 = l2.
Proof.
revert l2. induction l1 as [|a l1 IH]; intros [|b l2] H1 H2 Hlen Heq; try done.
apply is_bytes_cons in H1 as [Ha H1]. apply is_bytes_cons in H2 as [Hb H2].
simpl in Hlen. injection Hlen as Hlen.
assert (Hl : len l1 = len l2) by (unfold len; lia).
rewrite !be_val_cons, Hl in Heq.
pose proof (be_val_bound l1 H1) as B1. pose proof (be_val_bound l2 H2) as B2.
rewrite Hl in B1.
assert (a = b) as -> by nia. f_equal. apply IH; auto. lia.
Qed.

Lemma be_bytes_be_val l : is_bytes l -> be_bytes (length l) (be_val l) = l.
Proof.
intros Hl. apply be_val_inj; auto using is_bytes_be_bytes, length_be_bytes.
rewrite be_val_be_bytes. apply Z.mod_small. now apply be_val_bound.
Qed.

Lemma u32_be4 v : 0 <= v < 2 ^ 32 -> be_val (be_bytes 4 v) = v.
Proof. intros. rewrite be_val_be_bytes. now apply Z.mod_small. Qed.

(** The bytes that shifts and conversions pick out of an integer. *)
Lemma be4 y :
[u8 (Z.shiftr y 24); u8 (Z.shiftr y 16); u8 (Z.shiftr y 8); u8 y] = be_bytes 4 y.
Proof.
simpl. rewrite !Z.shiftr_div_pow2 by lia. change (8 * Z.of_nat 0) with 0.
rewrite Z.pow_0_r, Z.div_1_r. reflexivity.
Qed.

Lemma be3_shifts y : [u8 (Z.shiftr y 16); u8 (Z.shiftr y 8); u8 y] = be_bytes 3 y.
Proof.
simpl. rewrite !Z.shiftr_div_pow2 by lia. change (8 * Z.of_nat 0) with 0.
rewrite Z.pow_0_r, Z.div_1_r. reflexivity.
Qed.

Lemma be2_shifts y : [u8 (Z.shiftr y 8); u8 y] = be_bytes 2 y.
Proof.
simpl. rewrite !Z.shiftr_div_pow2 by lia. change (8 * Z.of_nat 0) with 0.
rewrite Z.pow_0_r, Z.div_1_r. reflexivity.
Qed.

Lemma len_be_bytes n v : len (be_bytes n v) = Z.of_nat n.
Proof. unfold len. by rewrite length_be_bytes. Qed.

End Bytes.

(** Checking a property of an interval of integers by computation. *)
Lemma seqZ_forallb (P : Z -> bool) a n x :
  forallb P (seqZ a n) = true -> a <= x < a + n -> P x = true.
Proof.
  intros H Hx. eapply forallb_forall in H; [exact H|].
  apply list_elem_of_In, elem_of_seqZ. lia.
Qed.

(** Closes [is_bytes l] for a closed [l]. *)
Ltac solve_bytes := apply bytes_check; vm_compute; reflexivity.

(** ** Hints *)

Create HintDb go_bytes.
#[export] Hint Resolve is_bytes_nil is_bytes_take is_bytes_drop is_byte_u8
  is_bytes_be_bytes u8_range u32_range u64_range len_nonneg : go_bytes.
#[export] Hint Rewrite @len_nil @len_cons @len_app : go_len.

(** A boolean fact about a byte, by trying all of them: the goal is
    [P c = true] up to conversion, with [is_byte c] in the context. *)
Ltac check_bytes P c :=
  let H := fresh in
  assert (forallb P (seqZ 0 256) = true) as H by (vm_compute; reflexivity);
  apply (seqZ_forallb P 0 256 c H); unfold is_byte in *; lia.
