(* ===== verification/Slice.v ===== *)
(** * Slices

    Indexing and copying of Go slices, with the bounds checks. *)
From S2P Require Import Prelude.

Local Open Scope Z_scope.
Local Open Scope go_scope.

Definition out_of_range : string := "index out of range".
Definition slice_get {A} (l : list A) (i : Z) : res Empty_set A :=
  match (if 0 <=? i then l !! Z.to_nat i else None) with Some x => Ok x | None => Panic out_of_range end.
Definition slice_set {A} (l : list A) (i : Z) (x : A) : res Empty_set (list A) :=
  let? _ := slice_get l i in Ok (<[Z.to_nat i := x]> l).

(** [copy(l[to:], l[from:])] *)
Definition copy_down {A} (l : list A) (to from : nat) : list A :=
  let k := Nat.min (length l - to) (length l - from) in
  take to l ++ take k (drop from l) ++ drop (to + k) l.

Lemma slice_get_ok {A} (l : list A) i x : 0 <= i -> l !! Z.to_nat i = Some x -> slice_get l i = Ok x.
Proof. intros Hi Hx. unfold slice_get. by rewrite (proj2 (Z.leb_le 0 i) Hi), Hx. Qed.

Lemma slice_get_lt {A} (l : list A) i : 0 <= i < len l -> exists x, l !! Z.to_nat i = Some x /\ slice_get l i = Ok x.
Proof.
  intros Hi. destruct (lookup_lt_is_Some_2 l (Z.to_nat i)) as [x Hx]; [unfold len in Hi; lia|].
  exists x. split; [done|]. by apply slice_get_ok; [lia|].
Qed.

Lemma slice_get_Some {A} (l : list A) i x : slice_get l i = Ok x -> 0 <= i < len l /\ l !! Z.to_nat i = Some x.
Proof.
  unfold slice_get. destruct (Z.leb_spec 0 i) as [Hi|]; [|done]. destruct (l !! Z.to_nat i) as [y|] eqn:E; [|done].
  intros [= ->]. split; [|done]. apply lookup_lt_Some in E. unfold len. lia.
Qed.

Lemma slice_set_ok {A} (l : list A) i x : 0 <= i < len l -> slice_set l i x = Ok (<[Z.to_nat i := x]> l).
Proof. intros Hi. unfold slice_set. by destruct (slice_get_lt l i Hi) as (y & _ & ->). Qed.

Lemma slice_set_middle {A} (l r : list A) k y x : k = len l -> slice_set (l ++ y :: r) k x = Ok (l ++ x :: r).
Proof.
  intros ->. rewrite slice_set_ok by (rewrite len_app, len_cons; pose proof (len_nonneg l); pose proof (len_nonneg r); lia).
  unfold len. rewrite Nat2Z.id, <- (Nat.add_0_r (length l)). by rewrite insert_app_r.
Qed.

Lemma len_map {A B} (f : A -> B) l : len (map f l) = len l.
Proof. unfold len. by rewrite length_map. Qed.

Lemma copy_down_ok {A} (l m r : list A) :
  take (length l + length r) (copy_down (l ++ m ++ r) (length l) (length (l ++ m))) = l ++ r.
Proof.
  unfold copy_down. rewrite take_app_length.
  assert (drop (length (l ++ m)) (l ++ m ++ r) = r) as -> by (rewrite app_assoc; apply drop_app_length).
  rewrite !length_app. match goal with |- context [Nat.min ?a ?b] => replace (Nat.min a b) with (length r) by lia end.
  rewrite (take_ge r) by lia. rewrite app_assoc. rewrite take_app_le by (rewrite length_app; lia).
  apply take_ge. rewrite length_app. lia.
Qed.
