(* ===== verification/Hpack.v ===== *)
(** * HPACK data shared by encoder and decoder

    [src/http2/hpack/hpack.go]: errors, [HeaderField] and its methods. *)
From S2P Require Import Prelude.

Local Open Scope Z_scope.

(** Causes wrapped by [DecodingError{Err}]: [InvalidIndexError] or an
    [errors.New] text. *)
Inductive decoding_cause : Type :=
  | InvalidIndexError (i : Z)
  | ErrorText (s : string).

(** The errors the package returns.  [errVarintOverflow] is a
    [DecodingError] in the source; it is a value here. *)
Inductive error : Type :=
  | DecodingError (Err : decoding_cause)
  | ErrStringLength
  | errNeedMore
  | ErrInvalidHuffman.

Definition errVarintOverflow : error :=
  DecodingError (ErrorText "varint integer overflows").

#[export] Instance decoding_cause_eq_dec : EqDecision decoding_cause.
Proof. solve_decision. Defined.
#[export] Instance error_eq_dec : EqDecision error.
Proof. solve_decision. Defined.

(** A name-value pair; Go strings are byte strings. *)
Record HeaderField : Type := mkHeaderField {
  Name : bytes;
  Value : bytes;
  Sensitive : bool;
}.

#[export] Instance HeaderField_eq_dec : EqDecision HeaderField.
Proof. solve_decision. Defined.

(** The zero value [HeaderField{}]. *)
Definition zeroHeaderField : HeaderField := mkHeaderField [] [] false.

(** [hf.IsPseudo()]: [len(hf.Name) != 0 && hf.Name[0] == ':']. *)
Definition IsPseudo (hf : HeaderField) : bool :=
  match Name hf with
  | [] => false
  | c :: _ => c =? 58
  end.

(** [hf.Size()]: [uint32(len(hf.Name) + len(hf.Value) + 32)], which wraps. *)
Definition Size (hf : HeaderField) : Z :=
  u32 (len (Name hf) + len (Value hf) + 32).

(** Header fields made of bytes, the only ones Go strings can hold. *)
Definition hf_ok (hf : HeaderField) : Prop :=
  is_bytes (Name hf) /\ is_bytes (Value hf).

Lemma Size_range hf : 0 <= Size hf < 2 ^ 32.
Proof. apply u32_range. Qed.

(** The size computation is exact for fields below 4 GiB. *)
Lemma Size_exact hf :
  len (Name hf) + len (Value hf) + 32 < 2 ^ 32 ->
  Size hf = len (Name hf) + len (Value hf) + 32.
Proof.
  intros. unfold Size. apply u32_small.
  pose proof (len_nonneg (Name hf)). pose proof (len_nonneg (Value hf)). lia.
Qed.
