(* ===== verification/Varint.v ===== *)
(** * HPACK integers (RFC 7541, 5.1)

    [appendVarInt] of [src/http2/hpack/encode.go] and [readVarInt] of
    [src/http2/hpack/hpack.go], the round trip between them, the overflow
    bound and the behaviour on truncated input. *)
From S2P Require Import Prelude Hpack.

Local Open Scope Z_scope.

(** ** Operations *)

(** [for ; i >= 128; i >>= 7 { ... }] followed by the final append.  Ten
    iterations are enough for 64 bits ([appendVarInt_loop_fuel]). *)
Fixpoint appendVarInt_loop (fuel : nat) (dst : bytes) (i : Z) : bytes :=
  match fuel with
  | O => dst ++ [u8 i]
  | S fuel =>
      if 128 <=? i then
        appendVarInt_loop fuel
          (dst ++ [u8 (Z.lor 0x80 (Z.land i 0x7f))]) (Z.shiftr i 7)
      else dst ++ [u8 i]
  end.

Definition varint_fuel : nat := 10.

Definition appendVarInt (dst : bytes) (n i : Z) : bytes :=
  let k := u64 (Z.shiftl 1 n - 1) in
  if i <? k then dst ++ [u8 i]
  else appendVarInt_loop varint_fuel (dst ++ [u8 k]) (i - k).

(** The loop of [readVarInt] over the bytes after the prefix. *)
Fixpoint readVarInt_loop (p : bytes) (i m : Z) : res error (Z * bytes) :=
  match p with
  | [] => Err errNeedMore
  | b :: p =>
      let i := u64 (i + u64 (Z.shiftl (Z.land b 127) m)) in
      if Z.land b 128 =? 0 then Ok (i, p)
      else
        let m := m + 7 in
        if 63 <=? m then Err errVarintOverflow
        else readVarInt_loop p i m
  end.

Definition readVarInt (n : Z) (p : bytes) : res error (Z * bytes) :=
  if (n <? 1) || (8 <? n) then Panic "bad n"
  else
    match p with
    | [] => Err errNeedMore
    | b :: p =>
        let i := if n <? 8 then Z.land b (Z.shiftl 1 n - 1) else b in
        if i <? Z.shiftl 1 n - 1 then Ok (i, p)
        else readVarInt_loop p i 0
    end.

(** [dst[first] |= v] *)
Definition or_at (l : bytes) (first : nat) (v : Z) : bytes :=
  alter (fun b => Z.lor b v) first l.

(** ** Encoder facts *)

(** The bytes after the prefix byte. *)
Definition varint_tail (fuel : nat) (i : Z) : bytes := appendVarInt_loop fuel [] i.

Lemma shiftl1 n : 0 <= n -> Z.shiftl 1 n = 2 ^ n.
Proof. intros. rewrite Z.shiftl_mul_pow2 by lia. lia. Qed.

Lemma appendVarInt_loop_app fuel dst i :
  appendVarInt_loop fuel dst i = dst ++ varint_tail fuel i.
Proof.
  unfold varint_tail. revert dst i. induction fuel as [|fuel IH]; intros; simpl; [done|].
  case_match; [|done]. rewrite IH, (IH [_]), app_assoc. reflexivity.
Qed.

Lemma varint_tail_small fuel i : 0 <= i < 128 -> varint_tail fuel i = [i].
Proof.
  intros. unfold varint_tail.
  destruct fuel; simpl; [|destruct (Z.leb_spec 128 i); [lia|]]; now rewrite u8_small by lia.
Qed.

Lemma lor_128 x : 0 <= x < 128 -> Z.lor 128 x = 128 + x.
Proof. exact (lor_disjoint 1 x 7 ltac:(lia)). Qed.

Lemma varint_tail_step fuel i :
  128 <= i -> varint_tail (S fuel) i = (128 + i mod 128) :: varint_tail fuel (i / 128).
Proof.
  intros. unfold varint_tail at 1. simpl.
  destruct (Z.leb_spec 128 i); [|lia].
  rewrite appendVarInt_loop_app, Z.shiftr_div_pow2 by lia.
  change 0x7f with (2 ^ 7 - 1). rewrite land_mask by lia. change (2 ^ 7) with 128.
  pose proof (Z.mod_pos_bound i 128). rewrite lor_128, u8_small by lia. done.
Qed.

(** One round of the loop: the shifted value fits in one round less. *)
Lemma fuel_step fuel j :
  0 <= j < 128 * 2 ^ (7 * Z.of_nat (S fuel)) ->
  0 <= j / 128 < 128 * 2 ^ (7 * Z.of_nat fuel).
Proof.
  replace (7 * Z.of_nat (S fuel)) with (7 + 7 * Z.of_nat fuel) by lia.
  rewrite Z.pow_add_r by lia. change (2 ^ 7) with 128. intros.
  split; [apply Z.div_pos; lia|]. apply Z.div_lt_upper_bound; lia.
Qed.

Lemma div7_step m : (7 | m) -> (7 | m + 7).
Proof. intros [q ->]. exists (q + 1). lia. Qed.

(** The fuel of the model is never exhausted: on 64-bit values more fuel gives
    the same bytes. *)
Lemma appendVarInt_loop_fuel fuel extra dst i :
  0 <= i < 128 * 2 ^ (7 * Z.of_nat fuel) ->
  appendVarInt_loop (fuel + extra) dst i = appendVarInt_loop fuel dst i.
Proof.
  rewrite !appendVarInt_loop_app. intros Hi. f_equal. revert i Hi.
  induction fuel as [|fuel IH]; intros i Hi.
  - rewrite Z.mul_0_r, Z.pow_0_r in Hi. rewrite !varint_tail_small by lia. done.
  - destruct (Z.ltb_spec i 128); [rewrite !varint_tail_small by lia; done|].
    change (S fuel + extra)%nat with (S (fuel + extra)).
    rewrite !varint_tail_step by lia. f_equal. apply IH. now apply fuel_step.
Qed.

Lemma is_bytes_varint_tail fuel i : is_bytes (varint_tail fuel i).
Proof.
  unfold varint_tail. enough (forall dst, is_bytes dst -> is_bytes (appendVarInt_loop fuel dst i))
    as H by (apply H; constructor).
  revert i. induction fuel as [|fuel IH]; intros i dst Hd; simpl.
  - apply is_bytes_app. split; [done|]. repeat constructor; apply u8_range.
  - case_match; [apply IH|]; apply is_bytes_app;
      (split; [done|]); repeat constructor; apply u8_range.
Qed.

Lemma varint_tail_not_nil fuel i : varint_tail fuel i <> [].
Proof.
  unfold varint_tail. destruct fuel; simpl; [done|]. case_match; [|done].
  rewrite appendVarInt_loop_app. done.
Qed.

Lemma appendVarInt_app dst n i : appendVarInt dst n i = dst ++ appendVarInt [] n i.
Proof.
  unfold appendVarInt. case_match; [done|].
  rewrite appendVarInt_loop_app, (appendVarInt_loop_app _ ([] ++ _)), app_assoc. done.
Qed.

Lemma prefix_max n : 1 <= n <= 8 -> u64 (Z.shiftl 1 n - 1) = 2 ^ n - 1 /\ 2 ^ n - 1 < 256.
Proof.
  intros. rewrite shiftl1 by lia.
  assert (0 < 2 ^ n <= 2 ^ 8)
    by (split; [apply pow2_pos; lia | apply Z.pow_le_mono_r; lia]).
  change (2 ^ 8) with 256 in *. rewrite u64_small; lia.
Qed.

(** An encoded integer: the prefix byte and, when the prefix is full, the tail. *)
Lemma appendVarInt_small n i :
  1 <= n <= 8 -> 0 <= i < 2 ^ n - 1 -> appendVarInt [] n i = [i].
Proof.
  intros Hn Hi. unfold appendVarInt. destruct (prefix_max n Hn) as [-> Hmax].
  destruct (Z.ltb_spec i (2 ^ n - 1)); [|lia]. now rewrite u8_small by lia.
Qed.

Lemma appendVarInt_large n i :
  1 <= n <= 8 -> 2 ^ n - 1 <= i ->
  appendVarInt [] n i = (2 ^ n - 1) :: varint_tail varint_fuel (i - (2 ^ n - 1)).
Proof.
  intros Hn Hi. unfold appendVarInt. destruct (prefix_max n Hn) as [-> Hmax].
  pose proof (pow2_pos n).
  destruct (Z.ltb_spec i (2 ^ n - 1)); [lia|].
  rewrite appendVarInt_loop_app, u8_small by lia. done.
Qed.

(** Every encoding starts with a byte below [2^n], the room left for flags. *)
Lemma appendVarInt_cons n i :
  1 <= n <= 8 -> 0 <= i ->
  exists b t, appendVarInt [] n i = b :: t /\ 0 <= b < 2 ^ n /\ is_bytes t.
Proof.
  intros Hn Hi. pose proof (pow2_pos n). destruct (Z.ltb_spec i (2 ^ n - 1)).
  - exists i, []. rewrite appendVarInt_small by lia. split_and!; try done; try lia. constructor.
  - exists (2 ^ n - 1), (varint_tail varint_fuel (i - (2 ^ n - 1))).
    rewrite appendVarInt_large by lia. split_and!; try done; try lia.
    apply is_bytes_varint_tail.
Qed.

(** ** Decoder facts *)

Lemma readVarInt_loop_app t rest i m :
  match readVarInt_loop t i m with
  | Ok (v, r) => readVarInt_loop (t ++ rest) i m = Ok (v, r ++ rest)
  | Err errNeedMore => True
  | Err e => readVarInt_loop (t ++ rest) i m = Err e
  | Panic _ | NoFuel => False
  end.
Proof.
  revert i m. induction t as [|b t IH]; intros; simpl; [done|].
  destruct (Z.land b 128 =? 0); [done|]. destruct (63 <=? m + 7); [done|]. apply IH.
Qed.

(** Reading the flagged first byte gives the prefix back. *)
Lemma land_prefix n flag b :
  0 <= n -> flag mod 2 ^ n = 0 -> 0 <= b < 2 ^ n ->
  Z.land (Z.lor b flag) (2 ^ n - 1) = b.
Proof.
  intros Hn Hf Hb. rewrite land_mask by lia. pose proof (pow2_pos n Hn).
  assert (flag = flag / 2 ^ n * 2 ^ n) as ->
    by (rewrite (Z.div_mod flag (2 ^ n)) at 1; lia).
  rewrite Z.lor_comm, lor_disjoint by lia. now apply mod_pow2_add.
Qed.

Lemma readVarInt_cons n flag b p :
  1 <= n <= 8 -> flag mod 2 ^ n = 0 -> 0 <= flag < 256 -> 0 <= b < 2 ^ n ->
  readVarInt n (Z.lor b flag :: p) =
    if b <? 2 ^ n - 1 then Ok (b, p) else readVarInt_loop p b 0.
Proof.
  intros Hn Hf Hflag Hb. unfold readVarInt.
  destruct (Z.ltb_spec n 1); [lia|]. destruct (Z.ltb_spec 8 n); [lia|]. simpl.
  rewrite !shiftl1 by lia.
  assert ((if n <? 8 then Z.land (Z.lor b flag) (2 ^ n - 1) else Z.lor b flag) = b) as ->.
  { destruct (Z.ltb_spec n 8); [apply land_prefix; lia|].
    assert (n = 8) as -> by lia. change (2 ^ 8) with 256 in *.
    rewrite Z.mod_small in Hf by lia. subst. apply Z.lor_0_r. }
  done.
Qed.

Lemma cont_byte r :
  0 <= r < 128 -> Z.land (128 + r) 127 = r /\ Z.land (128 + r) 128 = 128.
Proof.
  intros Hr. change 127 with (2 ^ 7 - 1). rewrite land_mask by lia.
  change 128 with (1 * 2 ^ 7) at 1. rewrite mod_pow2_add by lia. split; [done|].
  change 128 with (2 ^ 7) at 2. rewrite land_pow2 by lia.
  replace (Z.testbit (128 + r) 7) with true; [done|]. symmetry.
  apply Z.testbit_true; [lia|]. change 128 with (1 * 2 ^ 7).
  rewrite div_pow2_add by lia. done.
Qed.

Lemma final_byte j :
  0 <= j < 128 -> Z.land j 127 = j /\ Z.land j 128 = 0.
Proof.
  intros. change 127 with (2 ^ 7 - 1). rewrite land_mask by lia.
  change 128 with (2 ^ 7) in *. rewrite Z.mod_small by lia. split; [done|].
  rewrite land_pow2 by lia. now rewrite (testbit_small j 7 7) by lia.
Qed.

(** ** Round trip *)

(** Reading a tail written from [j] with accumulator [i] and shift [m]. *)
Lemma readVarInt_loop_tail fuel j i m rest :
  0 <= j < 128 * 2 ^ (7 * Z.of_nat fuel) -> 0 <= m <= 56 -> 0 <= i ->
  j * 2 ^ m < 2 ^ 63 -> i + j * 2 ^ m < 2 ^ 64 -> (7 | m) ->
  readVarInt_loop (varint_tail fuel j ++ rest) i m = Ok (i + j * 2 ^ m, rest).
Proof.
  revert j i m. induction fuel as [|fuel IH]; intros j i m Hj Hm Hi H63 H64 Hdiv.
  all: destruct (Z.ltb_spec j 128) as [Hs|Hl].
  1,3: rewrite varint_tail_small by lia; simpl;
    destruct (final_byte j) as [-> ->]; [lia|]; simpl;
    rewrite Z.shiftl_mul_pow2, (u64_small (j * _)), u64_small by lia; done.
  - rewrite Z.mul_0_r, Z.pow_0_r in Hj. lia.
  - pose proof (pow2_pos m ltac:(lia)). pose proof (Z.mod_pos_bound j 128 ltac:(lia)).
    pose proof (Z.div_mod j 128 ltac:(lia)) as Hdm.
    rewrite varint_tail_step by lia. simpl.
    destruct (cont_byte (j mod 128)) as [-> ->]; [done|]. simpl.
    rewrite Z.shiftl_mul_pow2, (u64_small (_ * _)), u64_small by nia.
    assert (m <> 56). { intros ->. change (2 ^ 63) with (128 * 2 ^ 56) in H63. nia. }
    assert (m + 7 <= 56). { destruct Hdiv as [q ->]. lia. }
    destruct (Z.leb_spec 63 (m + 7)); [lia|].
    assert (Hpow : 2 ^ (m + 7) = 128 * 2 ^ m).
    { rewrite Z.pow_add_r by lia. change (2 ^ 7) with 128. lia. }
    rewrite IH; rewrite ?Hpow; try nia.
    + f_equal. f_equal. nia.
    + now apply fuel_step.
    + now apply div7_step.
Qed.

Lemma pow2_63_step m : 0 <= m <= 56 -> 128 * 2 ^ (63 - (m + 7)) = 2 ^ (63 - m).
Proof.
  intros. change 128 with (2 ^ 7). rewrite <- Z.pow_add_r by lia. f_equal. lia.
Qed.

(** A tail that carries more than 63 bits is refused. *)
Lemma readVarInt_loop_overflow fuel j i m rest :
  0 <= j < 128 * 2 ^ (7 * Z.of_nat fuel) -> 0 <= m <= 56 ->
  2 ^ (63 - m) <= j -> (7 | m) ->
  readVarInt_loop (varint_tail fuel j ++ rest) i m = Err errVarintOverflow.
Proof.
  revert j i m. induction fuel as [|fuel IH]; intros j i m Hj Hm H63 Hdiv.
  all: assert (2 ^ 7 <= 2 ^ (63 - m)) as H7 by (apply Z.pow_le_mono_r; lia);
    change (2 ^ 7) with 128 in H7.
  - rewrite Z.mul_0_r, Z.pow_0_r in Hj. lia.
  - rewrite varint_tail_step by lia. simpl.
    pose proof (Z.mod_pos_bound j 128 ltac:(lia)).
    destruct (cont_byte (j mod 128)) as [_ ->]; [done|]. simpl.
    destruct (Z.leb_spec 63 (m + 7)); [done|].
    assert (m + 7 <= 56) by (destruct Hdiv as [q ->]; lia).
    apply IH; try lia.
    + now apply fuel_step.
    + rewrite <- (pow2_63_step m) in H63 by lia. apply Z.div_le_lower_bound; lia.
    + now apply div7_step.
Qed.

(** A proper prefix of a tail only asks for more data. *)
Lemma readVarInt_loop_truncated fuel j i m k :
  0 <= j < 128 * 2 ^ (7 * Z.of_nat fuel) -> 0 <= m <= 56 -> j < 2 ^ (63 - m) -> (7 | m) ->
  (k < length (varint_tail fuel j))%nat ->
  readVarInt_loop (take k (varint_tail fuel j)) i m = Err errNeedMore.
Proof.
  revert j i m k. induction fuel as [|fuel IH]; intros j i m k Hj Hm H63 Hdiv Hk.
  all: destruct (Z.ltb_spec j 128) as [Hs|Hl].
  1,3: rewrite varint_tail_small in * by lia; simpl in Hk; assert (k = O) as -> by lia; done.
  - rewrite Z.mul_0_r, Z.pow_0_r in Hj. lia.
  - rewrite varint_tail_step in * by lia. destruct k as [|k]; [done|]. simpl in *.
    pose proof (Z.mod_pos_bound j 128 ltac:(lia)).
    destruct (cont_byte (j mod 128)) as [_ ->]; [done|]. simpl.
    assert (m <> 56) by (intros ->; change (2 ^ (63 - 56)) with 128 in H63; lia).
    assert (m + 7 <= 56) by (destruct Hdiv as [q ->]; lia).
    destruct (Z.leb_spec 63 (m + 7)); [lia|]. apply IH; try lia.
    + now apply fuel_step.
    + rewrite <- (pow2_63_step m) in H63 by lia. apply Z.div_lt_upper_bound; lia.
    + now apply div7_step.
Qed.

Lemma varint_tail_bound i : i < 2 ^ 64 -> i < 128 * 2 ^ (7 * Z.of_nat varint_fuel).
Proof. unfold varint_fuel. change (128 * 2 ^ (7 * Z.of_nat 10)) with (2 ^ 77). lia. Qed.

(** ** Properties *)

Lemma or_at_0 b t v : or_at (b :: t) 0 v = Z.lor b v :: t.
Proof. reflexivity. Qed.

Lemma varint_tail_len fuel k i :
  (1 <= k)%nat -> 0 <= i < 2 ^ (7 * Z.of_nat k) -> len (varint_tail fuel i) <= Z.of_nat k.
Proof.
  revert k i. induction fuel as [|fuel IH]; intros k i Hk Hi.
  - unfold varint_tail. simpl. unfold len. simpl. lia.
  - destruct (Z.ltb_spec i 128); [rewrite varint_tail_small by lia; unfold len; simpl; lia|].
    rewrite varint_tail_step by lia. rewrite len_cons.
    destruct k as [|[|k]]; [lia|simpl in Hi; lia|].
    assert (0 <= i / 128 < 2 ^ (7 * Z.of_nat (S k))) as Hd.
    { replace (7 * Z.of_nat (S (S k))) with (7 + 7 * Z.of_nat (S k)) in Hi by lia.
      rewrite Z.pow_add_r in Hi by lia. change (2 ^ 7) with 128 in Hi.
      split; [apply Z.div_pos; lia|]. apply Z.div_lt_upper_bound; lia. }
    specialize (IH (S k) _ ltac:(lia) Hd). lia.
Qed.

Lemma appendVarInt_len n k i :
  1 <= n <= 8 -> (1 <= k)%nat -> 0 <= i < 2 ^ (7 * Z.of_nat k) ->
  len (appendVarInt [] n i) <= 1 + Z.of_nat k.
Proof.
  intros Hn Hk Hi. destruct (Z.ltb_spec i (2 ^ n - 1)).
  - rewrite appendVarInt_small by lia. unfold len. simpl. lia.
  - rewrite appendVarInt_large by lia. rewrite len_cons.
    pose proof (pow2_pos n).
    pose proof (varint_tail_len varint_fuel k (i - (2 ^ n - 1)) Hk ltac:(lia)). lia.
Qed.

Lemma or_at_len l k v : len (or_at l k v) = len l.
Proof. unfold len, or_at. by rewrite length_alter. Qed.

Lemma readVarInt_append n flag i rest :
  1 <= n <= 8 -> flag mod 2 ^ n = 0 -> 0 <= flag < 256 -> 0 <= i < 2 ^ 64 ->
  readVarInt n (or_at (appendVarInt [] n i) 0 flag ++ rest) =
    if i - (2 ^ n - 1) <? 2 ^ 63 then Ok (i, rest) else Err errVarintOverflow.
Proof.
  intros Hn Hf Hflag Hi. pose proof (pow2_pos n ltac:(lia)).
  destruct (Z.ltb_spec i (2 ^ n - 1)) as [Hs|Hl].
  - rewrite appendVarInt_small, or_at_0 by lia. simpl.
    rewrite readVarInt_cons by lia.
    destruct (Z.ltb_spec i (2 ^ n - 1)); [|lia].
    destruct (Z.ltb_spec (i - (2 ^ n - 1)) (2 ^ 63)); [done|lia].
  - rewrite appendVarInt_large, or_at_0 by lia. simpl.
    rewrite readVarInt_cons, Z.ltb_irrefl by lia.
    pose proof (varint_tail_bound (i - (2 ^ n - 1)) ltac:(lia)).
    destruct (prefix_max n Hn) as [_ Hmax].
    destruct (Z.ltb_spec (i - (2 ^ n - 1)) (2 ^ 63)).
    + rewrite readVarInt_loop_tail; try lia; try apply Z.divide_0_r.
      rewrite Z.pow_0_r. f_equal. f_equal. lia.
    + apply readVarInt_loop_overflow; try lia; try apply Z.divide_0_r.
Qed.

(** An integer written by [appendVarInt] behind any flag bits is read back
    by [readVarInt], whatever follows it; the only integers refused are those
    whose part beyond the prefix needs more than 63 bits. *)
Theorem readVarInt_appendVarInt n flag i rest :
  1 <= n <= 8 -> flag mod 2 ^ n = 0 -> 0 <= flag < 256 -> 0 <= i < 2 ^ 64 ->
  readVarInt n (or_at (appendVarInt [] n i) 0 flag ++ rest) =
    if i - (2 ^ n - 1) <? 2 ^ 63 then Ok (i, rest) else Err errVarintOverflow.
Proof. apply readVarInt_append. Qed.

Lemma readVarInt_appendVarInt_witness :
  readVarInt 5 (or_at (appendVarInt [] 5 1337) 0 0x20 ++ [7]) = Ok (1337, [7]) /\
  appendVarInt [] 5 1337 = [31; 154; 10].
Proof.
  split; [|reflexivity]. rewrite (readVarInt_appendVarInt 5 0x20 1337 [7]); [reflexivity|..];
    try reflexivity; lia.
Defined.

(** [readVarInt] answers [errNeedMore] on every proper prefix of an encoded
    integer, so a header block cut inside an integer waits for more data
    instead of being misread. *)
Theorem readVarInt_truncated n flag i k :
  1 <= n <= 8 -> flag mod 2 ^ n = 0 -> 0 <= flag < 256 -> 0 <= i < 2 ^ 64 ->
  i - (2 ^ n - 1) < 2 ^ 63 -> (k < length (appendVarInt [] n i))%nat ->
  readVarInt n (take k (or_at (appendVarInt [] n i) 0 flag)) = Err errNeedMore.
Proof.
  intros Hn Hf Hflag Hi H63 Hk. pose proof (pow2_pos n ltac:(lia)).
  assert (readVarInt n [] = Err errNeedMore) as Hnil.
  { unfold readVarInt. destruct (Z.ltb_spec n 1); [lia|].
    destruct (Z.ltb_spec 8 n); [lia|]. done. }
  destruct k as [|k]; [done|].
  destruct (Z.ltb_spec i (2 ^ n - 1)) as [Hs|Hl].
  - rewrite appendVarInt_small in Hk by lia. simpl in Hk. lia.
  - rewrite appendVarInt_large in * by lia. rewrite or_at_0. simpl in *.
    rewrite readVarInt_cons, Z.ltb_irrefl by lia.
    pose proof (varint_tail_bound (i - (2 ^ n - 1)) ltac:(lia)).
    apply readVarInt_loop_truncated; try lia; try apply Z.divide_0_r.
Qed.

Lemma readVarInt_truncated_witness :
  readVarInt 5 (take 2 (or_at (appendVarInt [] 5 1337) 0 0x20)) = Err errNeedMore.
Proof.
  apply readVarInt_truncated; try reflexivity; try lia. vm_compute. lia.
Defined.

(** *** What a successful read consumed *)

Lemma land_127 b : 0 <= Z.land b 127 < 128.
Proof. change 127 with (2 ^ 7 - 1). rewrite land_mask by lia. apply Z.mod_pos_bound. lia. Qed.

Lemma readVarInt_loop_sound p i m v rest :
  readVarInt_loop p i m = Ok (v, rest) ->
  0 <= m <= 56 -> (7 | m) -> 0 <= i < 256 + 2 ^ m ->
  exists pre, p = pre ++ rest /\ (1 <= length pre)%nat /\
    7 * len pre <= 63 - m /\ 0 <= v < 256 + 2 ^ 63.
Proof.
  revert i m. induction p as [|b p IH]; intros i m H Hm Hdiv Hi; simpl in H; [done|].
  pose proof (land_127 b). pose proof (pow2_pos m ltac:(lia)).
  assert (2 ^ m <= 2 ^ 56) by (apply Z.pow_le_mono_r; lia).
  assert (Hpow : 2 ^ (m + 7) = 128 * 2 ^ m)
    by (rewrite Z.pow_add_r by lia; change (2 ^ 7) with 128; lia).
  rewrite Z.shiftl_mul_pow2, (u64_small (_ * _)), u64_small in H by nia.
  destruct (Z.land b 128 =? 0).
  - injection H as <- <-. exists [b]. cbn [length app]. unfold len. cbn [length].
    split_and!; try done; try lia; nia.
  - destruct (Z.leb_spec 63 (m + 7)); [done|].
    apply IH in H as (pre & -> & Hlen & H7 & Hv);
      [|destruct Hdiv as [q ->]; lia|now apply div7_step|nia].
    exists (b :: pre). rewrite len_cons. simpl. split_and!; try done; try lia.
Qed.

Lemma readVarInt_suffix n p i rest :
  is_bytes p -> readVarInt n p = Ok (i, rest) ->
  exists pre, p = pre ++ rest /\ (1 <= length pre <= 10)%nat /\ 0 <= i < 2 ^ 63 + 256.
Proof.
  intros Hp H. unfold readVarInt in H. destruct (Z.ltb_spec n 1); [done|].
  destruct (Z.ltb_spec 8 n); [done|]. simpl in H.
  destruct p as [|b p]; [done|]. apply is_bytes_cons in Hp as [Hb Hp].
  unfold is_byte in Hb. rewrite !shiftl1 in H by lia.
  pose proof (pow2_pos n ltac:(lia)).
  assert (0 <= (if n <? 8 then Z.land b (2 ^ n - 1) else b) < 256) as Hpre.
  { destruct (n <? 8); [|done]. rewrite land_mask by lia. split.
    - apply Z.mod_pos_bound. lia.
    - pose proof (Z.mod_le b (2 ^ n)). lia. }
  destruct (_ <? 2 ^ n - 1).
  - injection H as <- <-. exists [b]. simpl. split_and!; try done; lia.
  - apply readVarInt_loop_sound in H as (pre & -> & Hlen & H7 & Hv); try lia;
      try apply Z.divide_0_r.
    exists (b :: pre). unfold len in H7. simpl. split_and!; try done; lia.
Qed.

(** A successful [readVarInt] consumed a non-empty prefix of at most ten
    bytes and left exactly the rest; the result stays below [2^63 + 256], so it
    never wrapped around in [uint64]. *)
Theorem readVarInt_sound n p i rest :
  is_bytes p -> readVarInt n p = Ok (i, rest) ->
  exists pre, p = pre ++ rest /\ (1 <= length pre <= 10)%nat /\ 0 <= i < 2 ^ 63 + 256.
Proof. apply readVarInt_suffix. Qed.

Lemma readVarInt_sound_witness :
  exists pre, [42; 9] = pre ++ [9] /\ (1 <= length pre <= 10)%nat /\ 0 <= 10 < 2 ^ 63 + 256.
Proof.
  apply (readVarInt_sound 5). repeat constructor; unfold is_byte; lia. reflexivity.
Defined.
