(* ===== verification/Huffman.v ===== *)
(** * The HPACK Huffman code

    [src/http2/hpack/huffman.go] and the code tables of
    [src/http2/hpack/tables.go]: the batch encoder, the 256-ary decoding tree
    and the table-driven decoder.  The theorems are in [HuffmanSpec]. *)
From S2P Require Import Prelude Hpack.

Local Open Scope Z_scope.
Local Open Scope go_scope.

(** ** Tables *)

Definition huffmanCodes : list Z :=
  [
    0x1ff8; 0x7fffd8; 0xfffffe2; 0xfffffe3; 0xfffffe4; 0xfffffe5; 0xfffffe6; 0xfffffe7;
    0xfffffe8; 0xffffea; 0x3ffffffc; 0xfffffe9; 0xfffffea; 0x3ffffffd; 0xfffffeb; 0xfffffec;
    0xfffffed; 0xfffffef; 0xffffff0; 0xfffffee; 0xffffff1; 0xffffff2; 0x3ffffffe; 0xffffff3;
    0xffffff4; 0xffffff5; 0xffffff7; 0xffffff8; 0xffffff9; 0xffffffa; 0xffffff6; 0xffffffb;
    0x14; 0x3f8; 0x3f9; 0xffa; 0x1ff9; 0x15; 0xf8; 0x7fa;
    0x3fa; 0x3fb; 0xf9; 0x7fb; 0xfa; 0x16; 0x17; 0x18;
    0x0; 0x1; 0x2; 0x19; 0x1a; 0x1b; 0x1c; 0x1d;
    0x1e; 0x1f; 0x5c; 0xfb; 0x7ffc; 0x20; 0xffb; 0x3fc;
    0x1ffa; 0x21; 0x5d; 0x5e; 0x5f; 0x60; 0x61; 0x62;
    0x63; 0x64; 0x65; 0x66; 0x67; 0x68; 0x69; 0x6a;
    0x6b; 0x6c; 0x6d; 0x6e; 0x6f; 0x70; 0x71; 0x72;
    0xfc; 0x73; 0xfd; 0x1ffb; 0x7fff0; 0x1ffc; 0x3ffc; 0x22;
    0x7ffd; 0x3; 0x23; 0x4; 0x24; 0x5; 0x25; 0x26;
    0x27; 0x6; 0x74; 0x75; 0x28; 0x29; 0x2a; 0x7;
    0x2b; 0x76; 0x2c; 0x8; 0x9; 0x2d; 0x77; 0x78;
    0x79; 0x7a; 0x7b; 0x7ffe; 0x7fc; 0x3ffd; 0x1ffd; 0xffffffc;
    0xfffe6; 0x3fffd2; 0xfffe7; 0xfffe8; 0x3fffd3; 0x3fffd4; 0x3fffd5; 0x7fffd9;
    0x3fffd6; 0x7fffda; 0x7fffdb; 0x7fffdc; 0x7fffdd; 0x7fffde; 0xffffeb; 0x7fffdf;
    0xffffec; 0xffffed; 0x3fffd7; 0x7fffe0; 0xffffee; 0x7fffe1; 0x7fffe2; 0x7fffe3;
    0x7fffe4; 0x1fffdc; 0x3fffd8; 0x7fffe5; 0x3fffd9; 0x7fffe6; 0x7fffe7; 0xffffef;
    0x3fffda; 0x1fffdd; 0xfffe9; 0x3fffdb; 0x3fffdc; 0x7fffe8; 0x7fffe9; 0x1fffde;
    0x7fffea; 0x3fffdd; 0x3fffde; 0xfffff0; 0x1fffdf; 0x3fffdf; 0x7fffeb; 0x7fffec;
    0x1fffe0; 0x1fffe1; 0x3fffe0; 0x1fffe2; 0x7fffed; 0x3fffe1; 0x7fffee; 0x7fffef;
    0xfffea; 0x3fffe2; 0x3fffe3; 0x3fffe4; 0x7ffff0; 0x3fffe5; 0x3fffe6; 0x7ffff1;
    0x3ffffe0; 0x3ffffe1; 0xfffeb; 0x7fff1; 0x3fffe7; 0x7ffff2; 0x3fffe8; 0x1ffffec;
    0x3ffffe2; 0x3ffffe3; 0x3ffffe4; 0x7ffffde; 0x7ffffdf; 0x3ffffe5; 0xfffff1; 0x1ffffed;
    0x7fff2; 0x1fffe3; 0x3ffffe6; 0x7ffffe0; 0x7ffffe1; 0x3ffffe7; 0x7ffffe2; 0xfffff2;
    0x1fffe4; 0x1fffe5; 0x3ffffe8; 0x3ffffe9; 0xffffffd; 0x7ffffe3; 0x7ffffe4; 0x7ffffe5;
    0xfffec; 0xfffff3; 0xfffed; 0x1fffe6; 0x3fffe9; 0x1fffe7; 0x1fffe8; 0x7ffff3;
    0x3fffea; 0x3fffeb; 0x1ffffee; 0x1ffffef; 0xfffff4; 0xfffff5; 0x3ffffea; 0x7ffff4;
    0x3ffffeb; 0x7ffffe6; 0x3ffffec; 0x3ffffed; 0x7ffffe7; 0x7ffffe8; 0x7ffffe9; 0x7ffffea;
    0x7ffffeb; 0xffffffe; 0x7ffffec; 0x7ffffed; 0x7ffffee; 0x7ffffef; 0x7fffff0; 0x3ffffee
  ].

Definition huffmanCodeLen : list Z :=
  [
    13; 23; 28; 28; 28; 28; 28; 28; 28; 24; 30; 28; 28; 30; 28; 28;
    28; 28; 28; 28; 28; 28; 30; 28; 28; 28; 28; 28; 28; 28; 28; 28;
    6; 10; 10; 12; 13; 6; 8; 11; 10; 10; 8; 11; 8; 6; 6; 6;
    5; 5; 5; 6; 6; 6; 6; 6; 6; 6; 7; 8; 15; 6; 12; 10;
    13; 6; 7; 7; 7; 7; 7; 7; 7; 7; 7; 7; 7; 7; 7; 7;
    7; 7; 7; 7; 7; 7; 7; 7; 8; 7; 8; 13; 19; 13; 14; 6;
    15; 5; 6; 5; 6; 5; 6; 6; 6; 5; 7; 7; 6; 6; 6; 5;
    6; 7; 6; 5; 5; 6; 7; 7; 7; 7; 7; 15; 11; 14; 13; 28;
    20; 22; 20; 20; 22; 22; 22; 23; 22; 23; 23; 23; 23; 23; 24; 23;
    24; 24; 22; 23; 24; 23; 23; 23; 23; 21; 22; 23; 22; 23; 23; 24;
    22; 21; 20; 22; 22; 23; 23; 21; 23; 22; 22; 24; 21; 22; 23; 23;
    21; 21; 22; 21; 23; 22; 23; 23; 20; 22; 22; 22; 23; 22; 22; 23;
    26; 26; 20; 19; 22; 23; 22; 25; 26; 26; 26; 27; 27; 26; 24; 25;
    19; 21; 26; 27; 27; 26; 27; 24; 21; 21; 26; 26; 28; 27; 27; 27;
    20; 24; 20; 21; 22; 21; 21; 23; 22; 22; 25; 25; 24; 24; 26; 23;
    26; 27; 26; 26; 27; 27; 27; 27; 27; 28; 27; 27; 27; 27; 27; 26
  ].

Definition code (c : Z) : Z := nth (Z.to_nat c) huffmanCodes 0.
Definition clen (c : Z) : Z := nth (Z.to_nat c) huffmanCodeLen 0.

(** ** Encoder *)

(** One iteration of the loop of [AppendHuffmanString]: [(dst, x, n)] are the
    output, the bit buffer and the number of its valid bits. *)
Definition huffman_step (st : bytes * Z * Z) (c : Z) : bytes * Z * Z :=
  let '(dst, x, n) := st in
  let n := n + clen c in
  let x := u64 (Z.shiftl x (clen c mod 64)) in
  let x := Z.lor x (code c) in
  if 32 <=? n then
    let n := n mod 32 in
    let y := u32 (Z.shiftr x n) in
    (dst ++ [u8 (Z.shiftr y 24); u8 (Z.shiftr y 16); u8 (Z.shiftr y 8); u8 y], x, n)
  else (dst, x, n).

Definition eosCode : Z := 0x3fffffff.
Definition eosNBits : Z := 30.
Definition eosPadByte : Z := Z.shiftr eosCode (eosNBits - 8).

(** Padding of the last batch and its output, after the loop. *)
Definition huffman_finish (st : bytes * Z * Z) : bytes :=
  let '(dst, x, n) := st in
  let over := n mod 8 in
  let '(x, n) :=
    if 0 <? over then
      let pad := 8 - over in
      (Z.lor (u64 (Z.shiftl x pad)) (Z.shiftr eosPadByte over), n + pad)
    else (x, n) in
  match n / 8 with
  | 0 => dst
  | 1 => dst ++ [u8 x]
  | 2 => let y := u16 x in dst ++ [u8 (Z.shiftr y 8); u8 y]
  | 3 => let y := u16 (Z.shiftr x 8) in dst ++ [u8 (Z.shiftr y 8); u8 y; u8 x]
  | _ =>
      let y := u32 x in
      dst ++ [u8 (Z.shiftr y 24); u8 (Z.shiftr y 16); u8 (Z.shiftr y 8); u8 y]
  end.

Definition AppendHuffmanString (dst s : bytes) : bytes :=
  huffman_finish (fold_left huffman_step s (dst, 0, 0)).

Definition HuffmanEncodeLength (s : bytes) : Z :=
  u64 (fold_left (fun n c => u64 (n + clen c)) s 0 + 7) / 8.

(** ** Decoding tree *)

(** [children] is [nil] exactly for leaves; [codeLen] and [sym] are meaningful
    for leaves only. *)
Inductive node : Type :=
  Node (children : option (list (option node))) (codeLen sym : Z).

Definition children (n : node) : option (list (option node)) :=
  let 'Node ch _ _ := n in ch.
Definition codeLen (n : node) : Z := let 'Node _ l _ := n in l.
Definition sym (n : node) : Z := let 'Node _ _ s := n in s.

Definition newInternalNode : node := Node (Some (replicate 256 None)) 0 0.

(** [cur.children[i]]: the pointer, with the run-time panics of a [nil]
    [children] and of an index out of range. *)
Definition child (cur : node) (i : Z) : res error (option node) :=
  match children cur with
  | None => Panic "nil pointer dereference"
  | Some ch =>
      match ch !! Z.to_nat i with
      | Some p => Ok p
      | None => Panic "index out of range"
      end
  end.

(** [cur.children[i] = p] *)
Definition set_child (cur : node) (i : Z) (p : node) : res error node :=
  match cur with
  | Node None _ _ => Panic "nil pointer dereference"
  | Node (Some ch) l s =>
      if i <? len ch then Ok (Node (Some (<[Z.to_nat i := Some p]> ch)) l s)
      else Panic "index out of range"
  end.

(** The loop [for i := start; i < start+end; i++ { cur.children[i] = leaf }]. *)
Fixpoint fill_children (count : nat) (cur : node) (i : Z) (leaf : node) : res error node :=
  match count with
  | O => Ok cur
  | S count =>
      let? cur := set_child cur i leaf in
      fill_children count cur (i + 1) leaf
  end.

(** The body of the loop over [huffmanCodes] for one symbol: walk down, one
    byte of the code per level, creating internal nodes, then fill the slots of
    the last level.  The code is at most 30 bits long, so four levels are
    enough ([buildRootHuffmanNode_ok]). *)
Fixpoint insert_code (fuel : nat) (cur : node) (code codeLen sym : Z) : res error node :=
  match fuel with
  | O => NoFuel
  | S fuel =>
      if 8 <? codeLen then
        let codeLen := codeLen - 8 in
        let i := u8 (Z.shiftr code codeLen) in
        let? p := child cur i in
        let next := match p with None => newInternalNode | Some n => n end in
        let? next := insert_code fuel next code codeLen sym in
        set_child cur i next
      else
        let shift := 8 - codeLen in
        let start := u8 (Z.shiftl code shift) in
        fill_children (Z.to_nat (Z.shiftl 1 shift)) cur start (Node None codeLen sym)
  end.

Definition buildRootHuffmanNode : res error node :=
  if negb (len huffmanCodes =? 256) then Panic "unexpected size"
  else
    fold_left
      (fun root sym => let? root := root in insert_code 4 root (code sym) (clen sym) sym)
      (seqZ 0 256) (Ok newInternalNode).

(** The tree is built once ([sync.Once]) and shared by all decodings. *)
Definition getRootHuffmanNode : node :=
  match buildRootHuffmanNode with
  | Ok n => n
  | _ => newInternalNode
  end.

(** ** Decoder *)

(** The locals of [huffmanDecode]: the output buffer, the current node, the bit
    buffer, its number of valid low bits, and the number of bits of the symbol
    being decoded. *)
Record hstate : Type := mkHState {
  h_buf : bytes;
  h_n : node;
  h_cur : Z;
  h_cbits : Z;
  h_sbits : Z;
}.

(** [for cbits >= 8 { ... }] *)
Fixpoint huffman_inner (fuel : nat) (maxLen : Z) (st : hstate) : res error hstate :=
  match fuel with
  | O => NoFuel
  | S fuel =>
      let 'mkHState buf n cur cbits sbits := st in
      if cbits <? 8 then Ok st
      else
        let idx := u8 (Z.shiftr cur (cbits - 8)) in
        let? p := child n idx in
        match p with
        | None => Err ErrInvalidHuffman
        | Some n =>
            match children n with
            | None =>
                if negb (maxLen =? 0) && (len buf =? maxLen) then Err ErrStringLength
                else
                  let cbits := u8 (cbits - codeLen n) in
                  huffman_inner fuel maxLen
                    (mkHState (buf ++ [sym n]) getRootHuffmanNode cur cbits cbits)
            | Some _ =>
                huffman_inner fuel maxLen (mkHState buf n cur (u8 (cbits - 8)) sbits)
            end
        end
  end.

(** The number of valid bits is below 16 on entry and each round removes at
    least one of them. *)
Definition huffman_fuel : nat := 16.

(** [for _, b := range v { ... }] *)
Fixpoint huffman_outer (maxLen : Z) (st : hstate) (v : bytes) : res error hstate :=
  match v with
  | [] => Ok st
  | b :: v =>
      let 'mkHState buf n cur cbits sbits := st in
      let cur := Z.lor (u64 (Z.shiftl cur 8)) b in
      let? st := huffman_inner huffman_fuel maxLen
                   (mkHState buf n cur (u8 (cbits + 8)) (u8 (sbits + 8))) in
      huffman_outer maxLen st v
  end.

(** [for cbits > 0 { ... }] after the input is exhausted. *)
Fixpoint huffman_final (fuel : nat) (maxLen : Z) (st : hstate) : res error hstate :=
  match fuel with
  | O => NoFuel
  | S fuel =>
      let 'mkHState buf n cur cbits sbits := st in
      if cbits <=? 0 then Ok st
      else
        let? p := child n (u8 (Z.shiftl cur (8 - cbits))) in
        match p with
        | None => Err ErrInvalidHuffman
        | Some n =>
            if match children n with Some _ => true | None => cbits <? codeLen n end
            then Ok (mkHState buf n cur cbits sbits)
            else if negb (maxLen =? 0) && (len buf =? maxLen) then Err ErrStringLength
            else
              let cbits := u8 (cbits - codeLen n) in
              huffman_final fuel maxLen
                (mkHState (buf ++ [sym n]) getRootHuffmanNode cur cbits cbits)
        end
  end.

Definition huffmanDecode (buf : bytes) (maxLen : Z) (v : bytes) : res error bytes :=
  let? st := huffman_outer maxLen (mkHState buf getRootHuffmanNode 0 0 0) v in
  let? st := huffman_final huffman_fuel maxLen st in
  if 7 <? h_sbits st then Err ErrInvalidHuffman
  else
    let mask := u64 (Z.shiftl 1 (h_cbits st) - 1) in
    if negb (Z.land (h_cur st) mask =? mask) then Err ErrInvalidHuffman
    else Ok (h_buf st).

(** [HuffmanDecodeToString] (and [HuffmanDecode], which writes the same bytes):
    no limit on the length. *)
Definition HuffmanDecodeToString (v : bytes) : res error bytes := huffmanDecode [] 0 v.
