(* ===== verification/HuffmanSpec.v ===== *)
(** * Correctness of the HPACK Huffman coder

    The abstract specification reads an encoded string as one big number: the
    codes of its symbols side by side, followed by fewer than eight one bits.
    [AppendHuffmanString] is shown to produce exactly that string, and
    [huffmanDecode] to accept exactly the strings so produced. *)
From S2P Require Import Prelude Hpack Huffman.

Local Open Scope Z_scope.

(** ** Specification *)

(** Number of bits of the codes of [s], and their concatenation as a number. *)
Fixpoint hlen (s : bytes) : Z :=
  match s with
  | [] => 0
  | c :: s => clen c + hlen s
  end.

Fixpoint hval (s : bytes) : Z :=
  match s with
  | [] => 0
  | c :: s => code c * 2 ^ hlen s + hval s
  end.

(** [v] is the canonical encoding of [s]. *)
Definition huffman_encodes (s v : bytes) : Prop :=
  is_bytes v /\
  exists pad, 0 <= pad < 8 /\ 8 * len v = hlen s + pad /\
    be_val v = hval s * 2 ^ pad + (2 ^ pad - 1).

(** ** Facts about the tables, by computation *)

Lemma byte_forallb (P : Z -> bool) :
  forallb P (seqZ 0 256) = true -> forall c, is_byte c -> P c = true.
Proof. intros H c Hc. eapply seqZ_forallb; [exact H|]. unfold is_byte in Hc. lia. Qed.

Lemma code_bound c : is_byte c -> 5 <= clen c <= 30 /\ 0 <= code c < 2 ^ clen c.
Proof.
  intros Hc.
  assert (((5 <=? clen c) && (clen c <=? 30) && (0 <=? code c) && (code c <? 2 ^ clen c))%bool
    = true).
  { revert c Hc. apply byte_forallb. vm_compute. reflexivity. }
  bool_to_Prop. lia.
Qed.

Lemma hlen_nonneg s : is_bytes s -> 0 <= hlen s.
Proof.
  induction 1 as [|c s Hc _ IH]; simpl; [lia|]. pose proof (code_bound c Hc). lia.
Qed.

Lemma hval_bound s : is_bytes s -> 0 <= hval s < 2 ^ hlen s.
Proof.
  induction 1 as [|c s Hc Hs IH]; simpl; [vm_compute; split; congruence|].
  pose proof (code_bound c Hc) as [? ?]. pose proof (hlen_nonneg s Hs).
  rewrite Z.pow_add_r by lia. nia.
Qed.

Lemma hlen_app s1 s2 : hlen (s1 ++ s2) = hlen s1 + hlen s2.
Proof. induction s1; simpl; lia. Qed.

Lemma hval_app s1 s2 :
  is_bytes s1 -> is_bytes s2 -> hval (s1 ++ s2) = hval s1 * 2 ^ hlen s2 + hval s2.
Proof.
  intros H1 H2. induction H1 as [|c s1 Hc H1 IH]; simpl; [lia|].
  pose proof (hlen_nonneg s1 H1). pose proof (hlen_nonneg s2 H2).
  rewrite IH, hlen_app, Z.pow_add_r by lia. nia.
Qed.

Lemma hlen_bound s : is_bytes s -> 5 * len s <= hlen s <= 30 * len s.
Proof.
  induction 1 as [|c s Hc _ IH]; [done|]. rewrite len_cons. simpl.
  pose proof (code_bound c Hc). lia.
Qed.

(** Two canonical encodings of one string are equal. *)
Lemma huffman_encodes_fun s v1 v2 :
  huffman_encodes s v1 -> huffman_encodes s v2 -> v1 = v2.
Proof.
  intros (B1 & p1 & Hp1 & L1 & V1) (B2 & p2 & Hp2 & L2 & V2).
  assert (p1 = p2) as -> by lia.
  apply be_val_inj; auto; [unfold len in *; lia|congruence].
Qed.

(** ** Encoder *)

(** What the bit buffer and the output hold after the symbols of [s]. *)
Definition enc_inv (dst s : bytes) (st : bytes * Z * Z) : Prop :=
  let '(d, x, n) := st in
  exists out, d = dst ++ out /\ is_bytes out /\ 0 <= n < 32 /\ 0 <= x < 2 ^ 64 /\
    8 * len out + n = hlen s /\ be_val out * 2 ^ n + x mod 2 ^ n = hval s.

Lemma u16_high x : u8 (u16 x / 2 ^ 8) = u8 (x / 2 ^ 8).
Proof.
  unfold u8, u16. change (2 ^ 8) with 256. change (2 ^ 16) with 65536.
  Z.div_mod_to_equations. lia.
Qed.

Lemma u16_low x : u8 (u16 x) = u8 x.
Proof. unfold u8, u16. apply mod_pow2_mod_pow2. lia. Qed.

Lemma be3 x :
  [u8 (Z.shiftr (u16 (Z.shiftr x 8)) 8); u8 (u16 (Z.shiftr x 8)); u8 x] = be_bytes 3 x.
Proof.
  simpl. rewrite !Z.shiftr_div_pow2 by lia. rewrite u16_high, u16_low, Z.div_div by lia.
  change (8 * Z.of_nat 0) with 0. rewrite Z.pow_0_r, Z.div_1_r. done.
Qed.

Lemma be2 x : [u8 (Z.shiftr (u16 x) 8); u8 (u16 x)] = be_bytes 2 x.
Proof.
  simpl. rewrite !Z.shiftr_div_pow2 by lia. rewrite u16_high, u16_low by lia.
  change (8 * Z.of_nat 0) with 0. rewrite Z.pow_0_r, Z.div_1_r. done.
Qed.

(** Shifting a code into the bit buffer. *)
Lemma shift_in x n l k :
  0 <= n -> 0 <= l -> n + l < 64 -> 0 <= k < 2 ^ l -> 0 <= x ->
  let x' := Z.lor (u64 (Z.shiftl x l)) k in
  0 <= x' < 2 ^ 64 /\ x' mod 2 ^ (n + l) = (x mod 2 ^ n) * 2 ^ l + k.
Proof.
  intros Hn Hl Hnl Hk Hx. cbv zeta. rewrite Z.shiftl_mul_pow2 by lia.
  pose proof (pow2_pos l Hl). pose proof (pow2_pos n Hn).
  pose proof (pow2_pos (64 - l) ltac:(lia)).
  assert (Hu : u64 (x * 2 ^ l) = (x mod 2 ^ (64 - l)) * 2 ^ l).
  { unfold u64. replace 64 with ((64 - l) + l) at 1 by lia. rewrite Z.pow_add_r by lia.
    now rewrite Z.mul_mod_distr_r by lia. }
  rewrite Hu, lor_disjoint by lia.
  pose proof (Z.mod_pos_bound x (2 ^ (64 - l)) ltac:(lia)).
  assert (2 ^ 64 = 2 ^ (64 - l) * 2 ^ l) as -> by (rewrite <- Z.pow_add_r by lia; f_equal; lia).
  split; [nia|].
  rewrite Z.pow_add_r, (Z.mul_comm (2 ^ n)), Z.rem_mul_r by lia.
  rewrite mod_pow2_add, div_pow2_add by lia.
  rewrite mod_pow2_mod_pow2 by lia. lia.
Qed.

Lemma huffman_step_inv dst s st c :
  is_bytes s -> is_byte c -> enc_inv dst s st -> enc_inv dst (s ++ [c]) (huffman_step st c).
Proof.
  intros Hs Hc. destruct st as [[d x] n].
  intros (out & -> & Hout & Hn & Hx & Hlen & Hval).
  pose proof (code_bound c Hc) as [Hl Hk]. unfold huffman_step.
  rewrite (Z.mod_small (clen c)) by lia.
  destruct (shift_in x n (clen c) (code c)) as [Hx' Hm]; [lia..|].
  set (x' := Z.lor (u64 (Z.shiftl x (clen c))) (code c)) in *.
  assert (Hval' : be_val out * 2 ^ (n + clen c) + x' mod 2 ^ (n + clen c) = hval (s ++ [c])).
  { rewrite Hm, hval_app, <- Hval by (auto; repeat constructor; apply Hc). simpl.
    rewrite Z.add_0_r, Z.pow_0_r, Z.pow_add_r by lia. ring. }
  assert (Hlen' : 8 * len out + (n + clen c) = hlen (s ++ [c])).
  { rewrite hlen_app. simpl. lia. }
  destruct (Z.leb_spec 32 (n + clen c)) as [Hbig|Hsmall].
  - rewrite be4. set (m := (n + clen c) mod 32).
    assert (Hmeq : n + clen c = m + 32) by (subst m; zdiv_lia).
    assert (0 <= m < 32) by (subst m; apply Z.mod_pos_bound; lia).
    exists (out ++ be_bytes 4 (u32 (Z.shiftr x' m))).
    rewrite len_app, app_assoc. change (len (be_bytes 4 _)) with 4.
    split_and!; try done; try lia.
    + apply is_bytes_app. split; [done|apply is_bytes_be_bytes].
    + rewrite be_val_app. change (len (be_bytes 4 _)) with 4.
      rewrite be_val_be_bytes, Z.shiftr_div_pow2 by lia. change (8 * Z.of_nat 4) with 32.
      change (8 * 4) with 32. unfold u32. rewrite Z.mod_mod by lia.
      rewrite Hmeq, Z.pow_add_r, Z.rem_mul_r in Hval' by (pose proof (pow2_pos m); lia).
      nia.
  - exists out. split_and!; try done; lia.
Qed.

Lemma be_bytes_u32 x : be_bytes 4 (u32 x) = be_bytes 4 x.
Proof.
  apply be_val_inj; auto using is_bytes_be_bytes.
  rewrite !be_val_be_bytes. unfold u32. change (8 * Z.of_nat 4) with 32.
  now rewrite Z.mod_mod by lia.
Qed.

(** The final [switch n / 8]. *)
Lemma finish_switch dst x q :
  0 <= q <= 4 ->
  match q with
  | 0 => dst
  | 1 => dst ++ [u8 x]
  | 2 => let y := u16 x in dst ++ [u8 (Z.shiftr y 8); u8 y]
  | 3 => let y := u16 (Z.shiftr x 8) in dst ++ [u8 (Z.shiftr y 8); u8 y; u8 x]
  | _ =>
      let y := u32 x in
      dst ++ [u8 (Z.shiftr y 24); u8 (Z.shiftr y 16); u8 (Z.shiftr y 8); u8 y]
  end = dst ++ be_bytes (Z.to_nat q) x.
Proof.
  intros Hq. assert (q = 0 \/ q = 1 \/ q = 2 \/ q = 3 \/ q = 4) as Hcases by lia.
  destruct Hcases as [->|[->|[->|[->| ->]]]]; cbv zeta.
  - now rewrite app_nil_r.
  - change (be_bytes (Z.to_nat 1) x) with [u8 (x / 2 ^ 0)]. now rewrite Z.div_1_r.
  - now rewrite be2.
  - now rewrite be3.
  - now rewrite be4, be_bytes_u32.
Qed.

Lemma huffman_finish_spec dst s st :
  enc_inv dst s st ->
  exists out, huffman_finish st = dst ++ out /\ huffman_encodes s out.
Proof.
  destruct st as [[d x] n]. intros (out & -> & Hout & Hn & Hx & Hlen & Hval).
  assert (exists pad x',
    0 <= pad < 8 /\ (n + pad) mod 8 = 0 /\ 
    huffman_finish (dst ++ out, x, n) = (dst ++ out) ++ be_bytes (Z.to_nat ((n + pad) / 8)) x' /\
    x' mod 2 ^ (n + pad) = (x mod 2 ^ n) * 2 ^ pad + (2 ^ pad - 1))
    as (pad & x' & Hpad & Hn8 & -> & Hx').
  { unfold huffman_finish. pose proof (Z.mod_pos_bound n 8 ltac:(lia)) as Hov.
    destruct (Z.ltb_spec 0 (n mod 8)) as [Hpos|Hzero].
    - set (pad := 8 - n mod 8). assert (Hps : Z.shiftr eosPadByte (n mod 8) = 2 ^ pad - 1).
      { subst pad. assert (n mod 8 = 1 \/ n mod 8 = 2 \/ n mod 8 = 3 \/ n mod 8 = 4 \/
          n mod 8 = 5 \/ n mod 8 = 6 \/ n mod 8 = 7) as Hc by lia.
        repeat destruct Hc as [Hc|Hc]; rewrite Hc; reflexivity. }
      rewrite Hps. pose proof (pow2_pos pad ltac:(lia)).
      exists pad, (Z.lor (u64 (Z.shiftl x pad)) (2 ^ pad - 1)).
      assert ((n + pad) mod 8 = 0 /\ 0 <= (n + pad) / 8 <= 4) as [? ?]
        by (subst pad; clear - Hn Hpos; zdiv_lia).
      split_and!; [lia|lia|done|apply finish_switch; done|].
      apply shift_in; lia.
    - exists 0, x. rewrite !Z.add_0_r.
      assert (0 <= n / 8 <= 4) by (clear - Hn; zdiv_lia).
      split_and!; [lia|lia|lia|apply finish_switch; done|]. rewrite Z.pow_0_r. lia. }
  exists (out ++ be_bytes (Z.to_nat ((n + pad) / 8)) x'). rewrite app_assoc. split; [done|].
  assert (Hl : 8 * len (be_bytes (Z.to_nat ((n + pad) / 8)) x') = n + pad).
  { unfold len. rewrite length_be_bytes. clear - Hn Hpad Hn8. zdiv_lia. }
  split; [apply is_bytes_app; split; [done|apply is_bytes_be_bytes]|].
  exists pad. rewrite len_app, be_val_app, Hl. split_and!; try lia.
  rewrite be_val_be_bytes. unfold len in Hl. rewrite length_be_bytes in Hl.
  rewrite Hl, Hx', Z.pow_add_r, <- Hval by lia. ring.
Qed.

Lemma fold_huffman_step_inv dst s0 s st :
  is_bytes s0 -> is_bytes s -> enc_inv dst s0 st ->
  enc_inv dst (s0 ++ s) (fold_left huffman_step s st).
Proof.
  intros H0 Hs. revert s0 st H0. induction Hs as [|c s Hc Hs IH]; intros s0 st H0 Hst; simpl.
  - now rewrite app_nil_r.
  - replace (s0 ++ c :: s) with ((s0 ++ [c]) ++ s) by now rewrite <- app_assoc.
    apply IH; [|now apply huffman_step_inv].
    apply is_bytes_app. split; [done|]. repeat constructor; apply Hc.
Qed.

(** The 32-bit batch encoder produces the canonical encoding. *)
Lemma AppendHuffmanString_encodes dst s :
  is_bytes s -> exists out, AppendHuffmanString dst s = dst ++ out /\ huffman_encodes s out.
Proof.
  intros Hs. unfold AppendHuffmanString. apply huffman_finish_spec.
  change s with ([] ++ s) at 1. apply fold_huffman_step_inv; [constructor|done|].
  exists []. rewrite app_nil_r. split_and!; try done; try lia. constructor.
Qed.

Lemma AppendHuffmanString_app dst s :
  is_bytes s -> AppendHuffmanString dst s = dst ++ AppendHuffmanString [] s.
Proof.
  intros Hs. destruct (AppendHuffmanString_encodes dst s Hs) as (o1 & -> & E1).
  destruct (AppendHuffmanString_encodes [] s Hs) as (o2 & -> & E2).
  f_equal. eapply huffman_encodes_fun; eauto.
Qed.

Lemma AppendHuffmanString_nil_encodes s :
  is_bytes s -> huffman_encodes s (AppendHuffmanString [] s).
Proof.
  intros Hs. destruct (AppendHuffmanString_encodes [] s Hs) as (o & -> & E). exact E.
Qed.

(** The claimed length is the actual length. *)
Lemma HuffmanEncodeLength_hlen s :
  is_bytes s -> len s < 2 ^ 58 -> HuffmanEncodeLength s = (hlen s + 7) / 8.
Proof.
  intros Hs Hlen. pose proof (hlen_bound s Hs).
  assert (Hfold : forall acc, 0 <= acc -> acc + hlen s < 2 ^ 64 ->
    fold_left (fun n c => u64 (n + clen c)) s acc = acc + hlen s).
  { clear Hlen H. induction Hs as [|c s Hc Hs IH]; intros acc Ha Hb; simpl in *; [lia|].
    pose proof (code_bound c Hc). pose proof (hlen_nonneg s Hs).
    rewrite u64_small by lia. rewrite IH; lia. }
  unfold HuffmanEncodeLength. rewrite Hfold by lia. rewrite Z.add_0_l, u64_small by lia. done.
Qed.

(** ** Decoder: completeness

    The decoder is followed symbol by symbol.  [at_sym n r cs pad nbits val]
    says that the input still to be fed to node [n] consists of [nbits] bits of
    value [val]: the last [r] bits of the code of the first symbol of [cs], the
    codes of its other symbols, and [pad] one bits. *)

Notation root := getRootHuffmanNode.

Definition is_leaf (n : node) (r c : Z) : Prop :=
  children n = None /\ codeLen n = r /\ sym n = c.

Definition is_leafb (n : node) (r c : Z) : bool :=
  match children n with
  | None => (codeLen n =? r) && (sym n =? c)
  | Some _ => false
  end.

Definition is_internalb (n : node) : bool :=
  match children n with Some _ => true | None => false end.

(** The tree decodes the last [r] bits of the code of [c] from node [n]. *)
Fixpoint check_code (fuel : nat) (n : node) (c r : Z) : bool :=
  match fuel with
  | O => false
  | S fuel =>
      if 8 <? r then
        match child n (code c mod 2 ^ r / 2 ^ (r - 8)) with
        | Ok (Some n') => is_internalb n' && check_code fuel n' c (r - 8)
        | _ => false
        end
      else
        forallb (fun j =>
          match child n (code c mod 2 ^ r * 2 ^ (8 - r) + j) with
          | Ok (Some n') => is_leafb n' r c
          | _ => false
          end) (seqZ 0 (2 ^ (8 - r)))
  end.

Lemma root_codes c : is_byte c -> check_code 4 root c (clen c) = true.
Proof.
  revert c. apply byte_forallb.
  change (let r := root in forallb (fun c => check_code 4 r c (clen c)) (seqZ 0 256) = true).
  vm_compute. reflexivity.
Qed.

(** Padding is never mistaken for a symbol. *)
Lemma root_padding p :
  1 <= p <= 7 -> exists n', child root ((2 ^ p - 1) * 2 ^ (8 - p)) = Ok (Some n') /\
    match children n' with Some _ => true | None => p <? codeLen n' end = true.
Proof.
  intros Hp.
  assert (forallb (fun p => match child root ((2 ^ p - 1) * 2 ^ (8 - p)) with
    | Ok (Some n') => match children n' with Some _ => true | None => p <? codeLen n' end
    | _ => false end) (seqZ 1 7) = true) as H by (vm_compute; reflexivity).
  apply seqZ_forallb with (x := p) in H; [|lia].
  destruct (child root _) as [[n'|]| | |]; try done. eauto.
Qed.

#[local] Opaque getRootHuffmanNode.

Definition first_len (cs : bytes) : Z := match cs with [] => 0 | c :: _ => clen c end.
Definition used (r : Z) (cs : bytes) : Z := first_len cs - r.

Definition at_sym (n : node) (r : Z) (cs : bytes) (pad nbits val : Z) : Prop :=
  match cs with
  | [] => n = root /\ r = 0 /\ nbits = pad /\ val = 2 ^ pad - 1
  | c :: cs =>
      (exists f, check_code f n c r = true) /\ 0 < r <= clen c /\ is_byte c /\ is_bytes cs /\
      nbits = r + hlen cs + pad /\
      val = code c mod 2 ^ r * 2 ^ (hlen cs + pad) + (hval cs * 2 ^ pad + (2 ^ pad - 1))
  end.

Lemma at_sym_start cs pad :
  is_bytes cs -> 0 <= pad ->
  at_sym root (first_len cs) cs pad (hlen cs + pad) (hval cs * 2 ^ pad + (2 ^ pad - 1)).
Proof.
  intros Hcs Hpad. destruct Hcs as [|c cs Hc Hcs]; simpl; [split_and!; (done || lia)|].
  pose proof (code_bound c Hc) as [? ?]. pose proof (hlen_nonneg cs Hcs).
  split_and!; auto; try lia.
  - exists 4%nat. now apply root_codes.
  - rewrite Z.mod_small, Z.pow_add_r by lia. ring.
Qed.

(** The part of the value after the current symbol. *)
Lemma tail_bound cs pad :
  is_bytes cs -> 0 <= pad ->
  0 <= hval cs * 2 ^ pad + (2 ^ pad - 1) < 2 ^ (hlen cs + pad).
Proof.
  intros Hcs Hpad. pose proof (hval_bound cs Hcs). pose proof (hlen_nonneg cs Hcs).
  pose proof (pow2_pos pad Hpad). rewrite Z.pow_add_r by lia. nia.
Qed.

(** Splitting [a * 2^m + y], [y < 2^m], at bit [q >= m]. *)
Lemma split_high a m y q :
  0 <= m <= q -> 0 <= y < 2 ^ m ->
  (a * 2 ^ m + y) / 2 ^ q = a / 2 ^ (q - m) /\
  (a * 2 ^ m + y) mod 2 ^ q = a mod 2 ^ (q - m) * 2 ^ m + y.
Proof.
  intros Hq Hy. pose proof (pow2_pos (q - m) ltac:(lia)). pose proof (pow2_pos m ltac:(lia)).
  assert (2 ^ q = 2 ^ m * 2 ^ (q - m)) as -> by (rewrite <- Z.pow_add_r by lia; f_equal; lia).
  rewrite <- Z.div_div, div_pow2_add by lia. split; [done|].
  rewrite Z.rem_mul_r, mod_pow2_add, div_pow2_add by lia. lia.
Qed.

Lemma is_leafb_spec n r c : is_leafb n r c = true -> is_leaf n r c.
Proof. unfold is_leafb, is_leaf. destruct (children n); [done|]. intros. bool_to_Prop. auto. Qed.

(** The leaf slots: any byte starting with the last [r <= 8] bits of the code. *)
Lemma check_code_leaf f n c r j :
  check_code f n c r = true -> 0 < r <= 8 -> 0 <= j < 2 ^ (8 - r) ->
  exists n', child n (code c mod 2 ^ r * 2 ^ (8 - r) + j) = Ok (Some n') /\ is_leaf n' r c.
Proof.
  intros H Hr Hj. destruct f as [|f]; [done|]. simpl in H.
  destruct (Z.ltb_spec 8 r); [lia|].
  apply seqZ_forallb with (x := j) in H; [|lia].
  destruct (child n _) as [[n'|]| | |]; try done. eauto using is_leafb_spec.
Qed.

Lemma check_code_internal f n c r :
  check_code f n c r = true -> 8 < r ->
  exists n' f', child n (code c mod 2 ^ r / 2 ^ (r - 8)) = Ok (Some n') /\
    is_internalb n' = true /\ check_code f' n' c (r - 8) = true.
Proof.
  intros H Hr. destruct f as [|f]; [done|]. simpl in H.
  destruct (Z.ltb_spec 8 r); [|lia].
  destruct (child n _) as [[n'|]| | |]; try done. bool_to_Prop. eauto.
Qed.

(** Feeding eight bits in the middle of a code of more than eight bits. *)
Lemma at_sym_internal n r c cs pad nbits val :
  0 <= pad -> at_sym n r (c :: cs) pad nbits val -> 8 < r ->
  exists n', child n (val / 2 ^ (nbits - 8)) = Ok (Some n') /\ is_internalb n' = true /\
    at_sym n' (r - 8) (c :: cs) pad (nbits - 8) (val mod 2 ^ (nbits - 8)).
Proof.
  intros Hpad ((f & Hf) & Hr & Hc & Hcs & -> & ->) H8.
  pose proof (tail_bound cs pad Hcs Hpad) as Ht. pose proof (hlen_nonneg cs Hcs).
  destruct (check_code_internal f n c r Hf H8) as (n' & f' & Hch & Hi & Hf').
  destruct (split_high (code c mod 2 ^ r) (hlen cs + pad) _ (r + hlen cs + pad - 8)
    ltac:(lia) Ht) as [-> ->].
  replace (r + hlen cs + pad - 8 - (hlen cs + pad)) with (r - 8) by lia.
  exists n'. split_and!; try done. simpl. split_and!; eauto; try lia.
  now rewrite mod_pow2_mod_pow2 by lia.
Qed.

(** Feeding eight bits that complete a code. *)
Lemma at_sym_leaf n r c cs pad nbits val :
  0 <= pad -> at_sym n r (c :: cs) pad nbits val -> r <= 8 -> 8 <= nbits ->
  exists n', child n (val / 2 ^ (nbits - 8)) = Ok (Some n') /\ is_leaf n' r c /\
    at_sym root (first_len cs) cs pad (nbits - r) (val mod 2 ^ (nbits - r)).
Proof.
  intros Hpad ((f & Hf) & Hr & Hc & Hcs & -> & ->) H8 Hn.
  pose proof (tail_bound cs pad Hcs Hpad) as Ht. pose proof (hlen_nonneg cs Hcs).
  set (y := hval cs * 2 ^ pad + (2 ^ pad - 1)) in *. set (m := hlen cs + pad) in *.
  replace (r + hlen cs + pad) with (r + m) by (subst m; lia).
  replace (r + m - r) with m by lia. rewrite mod_pow2_add by (subst m; lia).
  assert (Hy : 0 <= y / 2 ^ (r + m - 8) < 2 ^ (8 - r)).
  { pose proof (pow2_pos (r + m - 8) ltac:(subst m; lia)).
    split; [apply Z.div_pos; lia|]. apply Z.div_lt_upper_bound; [lia|].
    rewrite <- Z.pow_add_r by (subst m; lia). replace (r + m - 8 + (8 - r)) with m by lia. lia. }
  destruct (check_code_leaf f n c r _ Hf ltac:(lia) Hy) as (n' & Hch & Hl).
  exists n'. split_and!; [|done|].
  - rewrite <- Hch. f_equal.
    replace (2 ^ m) with (2 ^ (8 - r) * 2 ^ (r + m - 8))
      by (rewrite <- Z.pow_add_r by (subst m; lia); f_equal; lia).
    rewrite Z.mul_assoc, Z.div_add_l; [done|].
    pose proof (pow2_pos (r + m - 8) ltac:(subst m; lia)). lia.
  - subst y m. now apply at_sym_start.
Qed.

(** The bits still to be fed: the valid bits of [cur] followed by [rest]. *)
Definition pend (cur cbits : Z) (rest : bytes) : Z :=
  cur mod 2 ^ cbits * 2 ^ (8 * len rest) + be_val rest.

Lemma mod_div_pow2 a n k : 0 <= k <= n -> a mod 2 ^ n / 2 ^ (n - k) = (a / 2 ^ (n - k)) mod 2 ^ k.
Proof.
  intros. pose proof (pow2_pos (n - k) ltac:(lia)). pose proof (pow2_pos k ltac:(lia)).
  replace n with ((n - k) + k) at 1 by lia.
  rewrite Z.pow_add_r, Z.rem_mul_r, Z.mul_comm, Z.add_comm by lia.
  apply div_pow2_add; [lia|]. apply Z.mod_pos_bound. lia.
Qed.

Lemma pend_drop cur cbits rest t :
  is_bytes rest -> 0 <= t <= cbits ->
  pend cur cbits rest mod 2 ^ (cbits + 8 * len rest - t) = pend cur (cbits - t) rest.
Proof.
  intros Hr Ht. unfold pend. pose proof (len_nonneg rest).
  destruct (split_high (cur mod 2 ^ cbits) (8 * len rest) (be_val rest)
    (cbits + 8 * len rest - t) ltac:(lia) (be_val_bound rest Hr)) as [_ ->].
  replace (cbits + 8 * len rest - t - 8 * len rest) with (cbits - t) by lia.
  now rewrite mod_pow2_mod_pow2 by lia.
Qed.

Lemma pend_index cur cbits rest :
  is_bytes rest -> 8 <= cbits ->
  u8 (Z.shiftr cur (cbits - 8)) = pend cur cbits rest / 2 ^ (cbits + 8 * len rest - 8).
Proof.
  intros Hr Hc. unfold pend. pose proof (len_nonneg rest).
  destruct (split_high (cur mod 2 ^ cbits) (8 * len rest) (be_val rest)
    (cbits + 8 * len rest - 8) ltac:(lia) (be_val_bound rest Hr)) as [-> _].
  replace (cbits + 8 * len rest - 8 - 8 * len rest) with (cbits - 8) by lia.
  rewrite mod_div_pow2, Z.shiftr_div_pow2 by lia. done.
Qed.

(** Reading the next input byte into [cur]. *)
Lemma pend_push cur cbits b rest :
  is_byte b -> 0 <= cbits <= 56 -> 
  pend (Z.lor (u64 (Z.shiftl cur 8)) b) (cbits + 8) rest = pend cur cbits (b :: rest).
Proof.
  intros Hb Hc. unfold pend. rewrite be_val_cons, len_cons.
  assert (Z.lor (u64 (Z.shiftl cur 8)) b mod 2 ^ (cbits + 8) = cur mod 2 ^ cbits * 2 ^ 8 + b) as ->.
  { rewrite Z.shiftl_mul_pow2 by lia.
    assert (u64 (cur * 2 ^ 8) = cur mod 2 ^ 56 * 2 ^ 8) as ->.
    { unfold u64. change (2 ^ 64) with (2 ^ 56 * 2 ^ 8). now rewrite Z.mul_mod_distr_r by lia. }
    unfold is_byte in Hb. rewrite lor_disjoint by lia.
    destruct (split_high (cur mod 2 ^ 56) 8 b (cbits + 8) ltac:(lia) ltac:(lia)) as [_ ->].
    replace (cbits + 8 - 8) with cbits by lia. now rewrite mod_pow2_mod_pow2 by lia. }
  pose proof (len_nonneg rest). replace (8 * (1 + len rest)) with (8 + 8 * len rest) by lia.
  rewrite Z.pow_add_r by lia. ring.
Qed.

(** The decoder state in the middle of the encoding of [cs0]. *)
Definition dec_inv (pad : Z) (buf0 cs0 rest : bytes) (st : hstate) : Prop :=
  exists decoded cs r, cs0 = decoded ++ cs /\ h_buf st = buf0 ++ decoded /\
    0 <= h_cbits st /\ h_sbits st = h_cbits st + used r cs /\
    at_sym (h_n st) r cs pad (h_cbits st + 8 * len rest) (pend (h_cur st) (h_cbits st) rest).

(** The limit on the output is not in the way of [s]. *)
Definition fits (maxLen : Z) (s : bytes) : Prop := maxLen = 0 \/ len s <= maxLen.

Lemma fits_not_full maxLen buf0 decoded c cs :
  fits maxLen (buf0 ++ decoded ++ c :: cs) ->
  (negb (maxLen =? 0) && (len (buf0 ++ decoded) =? maxLen))%bool = false.
Proof.
  intros [->|H]; [done|]. apply andb_false_intro2, Z.eqb_neq.
  rewrite app_assoc, len_app, len_cons in H. pose proof (len_nonneg cs). lia.
Qed.

Lemma huffman_inner_ok fuel maxLen pad buf0 cs0 rest st :
  is_bytes rest -> 0 <= pad < 8 -> fits maxLen (buf0 ++ cs0) ->
  dec_inv pad buf0 cs0 rest st -> (0 < fuel)%nat -> h_cbits st < Z.of_nat fuel + 7 -> h_cbits st < 16 ->
  exists st', huffman_inner fuel maxLen st = Ok st' /\ dec_inv pad buf0 cs0 rest st' /\
    h_cbits st' < 8.
Proof.
  intros Hrest Hpad Hfit. revert st.
  induction fuel as [|fuel IH]; intros [buf n cur cbits sbits] Hinv Hf0 Hfuel H16;
    destruct Hinv as (decoded & cs & r & -> & Hbuf & Hcb & Hsb & Hat); simpl in *; [lia|].
  subst buf. destruct (Z.ltb_spec cbits 8) as [Hlt|Hge].
  { eexists. split; [done|]. split; [exists decoded, cs, r; done|done]. }
  pose proof (len_nonneg rest).
  destruct cs as [|c cs]; [destruct Hat as (_ & _ & Hn & _); lia|].
  assert (Hfull := fits_not_full _ _ _ _ _ Hfit). rewrite (pend_index _ _ rest) by done.
  destruct (Z.ltb_spec 8 r) as [H8|H8].
  - destruct (at_sym_internal _ _ _ _ _ _ _ (proj1 Hpad) Hat H8) as (n' & Hch & Hi & Hat').
    rewrite Hch. simpl. unfold is_internalb in Hi. destruct (children n') eqn:?; [|done].
    rewrite u8_small by lia. apply IH; simpl; [|lia|lia|lia].
    rewrite pend_drop in Hat' by (done || lia).
    replace (cbits + 8 * len rest - 8) with (cbits - 8 + 8 * len rest) in Hat' by lia.
    exists decoded, (c :: cs), (r - 8). unfold used in *. split_and!; done || simpl in *; lia.
  - destruct (at_sym_leaf _ _ _ _ _ _ _ (proj1 Hpad) Hat H8 ltac:(lia))
      as (n' & Hch & (Hleaf & Hcl & Hsym) & Hat').
    destruct Hat as (_ & Hr & _). rewrite Hch. simpl. rewrite Hleaf, Hfull, Hcl, Hsym.
    rewrite u8_small by lia. apply IH; simpl; [|lia|lia|lia].
    rewrite pend_drop in Hat' by (done || lia).
    replace (cbits + 8 * len rest - r) with (cbits - r + 8 * len rest) in Hat' by lia.
    exists (decoded ++ [c]), cs, (first_len cs). unfold used in *.
    split_and!; [now rewrite <- app_assoc|now simpl; rewrite app_assoc|simpl; lia..|done].
Qed.

Lemma used_bound n r cs pad nbits val :
  at_sym n r cs pad nbits val -> 0 <= used r cs <= 30.
Proof.
  unfold used. destruct cs as [|c cs]; simpl; [intros (_ & -> & _); lia|].
  intros (_ & Hr & Hc & _). pose proof (code_bound c Hc). lia.
Qed.

Lemma huffman_outer_ok maxLen pad buf0 cs0 v st :
  is_bytes v -> 0 <= pad < 8 -> fits maxLen (buf0 ++ cs0) ->
  dec_inv pad buf0 cs0 v st -> h_cbits st < 8 ->
  exists st', huffman_outer maxLen st v = Ok st' /\ dec_inv pad buf0 cs0 [] st' /\
    h_cbits st' < 8.
Proof.
  intros Hv Hpad Hfit. revert st. induction Hv as [|b v Hb Hv IH];
    intros [buf n cur cbits sbits] Hinv H8; [eexists; split; [done|]; done|].
  destruct Hinv as (decoded & cs & r & Hcs & Hbuf & Hcb & Hsb & Hat). cbn [h_buf h_n h_cur h_cbits h_sbits] in *.
  pose proof (used_bound _ _ _ _ _ _ Hat). cbn [huffman_outer].
  destruct (huffman_inner_ok huffman_fuel maxLen pad buf0 cs0 v
    (mkHState buf n (Z.lor (u64 (Z.shiftl cur 8)) b) (u8 (cbits + 8)) (u8 (sbits + 8))))
    as (st1 & -> & Hinv1 & H81); try assumption.
  - rewrite !u8_small by lia.
    exists decoded, cs, r. cbn [h_buf h_n h_cur h_cbits h_sbits].
    rewrite pend_push by (done || lia). rewrite len_cons in Hat.
    replace (cbits + 8 + 8 * len v) with (cbits + 8 * (1 + len v)) by lia.
    split_and!; try done; lia.
  - unfold huffman_fuel. lia.
  - cbn. rewrite u8_small by lia. unfold huffman_fuel. lia.
  - cbn. rewrite u8_small by lia. lia.
  - now apply IH.
Qed.

(** The index used for the last, incomplete byte. *)
Lemma final_index cur cbits :
  0 <= cbits <= 8 -> u8 (Z.shiftl cur (8 - cbits)) = pend cur cbits [] * 2 ^ (8 - cbits).
Proof.
  intros. unfold pend, u8. change (be_val []) with 0. change (8 * len (@nil Z)) with 0.
  rewrite Z.pow_0_r, Z.mul_1_r, Z.add_0_r, Z.shiftl_mul_pow2 by lia.
  replace 8 with (cbits + (8 - cbits)) at 2 by lia.
  pose proof (pow2_pos cbits). pose proof (pow2_pos (8 - cbits)).
  now rewrite Z.pow_add_r, Z.mul_mod_distr_r by lia.
Qed.

Lemma bits_nil x : x + 8 * len (@nil Z) = x.
Proof. change (8 * len (@nil Z)) with 0. lia. Qed.

(** What the checks after the final loop need. *)
Definition dec_done (buf : bytes) (st : hstate) : Prop :=
  h_buf st = buf /\ 0 <= h_cbits st < 8 /\ h_sbits st <= 7 /\
  h_cur st mod 2 ^ h_cbits st = 2 ^ h_cbits st - 1.

Lemma pend_nil cur cbits : pend cur cbits [] = cur mod 2 ^ cbits.
Proof.
  unfold pend. change (be_val []) with 0. change (8 * len (@nil Z)) with 0.
  rewrite Z.pow_0_r. lia.
Qed.

Lemma huffman_final_ok fuel maxLen pad buf0 cs0 st :
  0 <= pad < 8 -> fits maxLen (buf0 ++ cs0) ->
  dec_inv pad buf0 cs0 [] st -> h_cbits st < Z.of_nat fuel -> h_cbits st < 8 ->
  exists st', huffman_final fuel maxLen st = Ok st' /\ dec_done (buf0 ++ cs0) st'.
Proof.
  intros Hpad Hfit. revert st.
  induction fuel as [|fuel IH]; intros [buf n cur cbits sbits] Hinv Hfuel H8;
    destruct Hinv as (decoded & cs & r & -> & Hbuf & Hcb & Hsb & Hat); simpl in *; [lia|].
  subst buf. rewrite bits_nil in Hat.
  destruct cs as [|c cs].
  - destruct Hat as (-> & -> & -> & Hval). rewrite pend_nil in Hval. rewrite app_nil_r.
    change (used 0 []) with 0 in Hsb.
    assert (forall n', dec_done (buf0 ++ decoded) (mkHState (buf0 ++ decoded) n' cur pad sbits))
      as Hdone by (intros; unfold dec_done; simpl; split_and!; auto; lia).
    destruct (Z.leb_spec pad 0); [eauto|].
    rewrite final_index, pend_nil, Hval by lia.
    destruct (root_padding pad ltac:(lia)) as (n' & -> & Hn'). simpl. rewrite Hn'. eauto.
  - assert (Hfull := fits_not_full _ _ _ _ _ Hfit).
    pose proof Hat as ((f & Hf) & Hr & Hc & Hcs & Hn & Hval).
    pose proof (tail_bound cs pad Hcs (proj1 Hpad)) as Ht. pose proof (hlen_nonneg cs Hcs).
    set (y := hval cs * 2 ^ pad + (2 ^ pad - 1)) in *.
    destruct (Z.leb_spec cbits 0); [lia|]. rewrite final_index by lia.
    assert (Hidx : pend cur cbits [] * 2 ^ (8 - cbits) =
      code c mod 2 ^ r * 2 ^ (8 - r) + y * 2 ^ (8 - cbits)).
    { rewrite Hval, Z.mul_add_distr_r, <- Z.mul_assoc, <- Z.pow_add_r by lia.
      replace (hlen cs + pad + (8 - cbits)) with (8 - r) by lia. done. }
    assert (Hj : 0 <= y * 2 ^ (8 - cbits) < 2 ^ (8 - r)).
    { pose proof (pow2_pos (8 - cbits) ltac:(lia)).
      replace (8 - r) with ((hlen cs + pad) + (8 - cbits)) by lia.
      rewrite Z.pow_add_r by lia. nia. }
    destruct (check_code_leaf f n c r _ Hf ltac:(lia) Hj) as (n' & Hch & Hleaf & Hcl & Hsym).
    rewrite Hidx, Hch. simpl. rewrite Hleaf, Hcl, Hsym, Hfull, u8_small by lia.
    destruct (Z.ltb_spec cbits r); [lia|]. apply IH; simpl; [|lia|lia].
    exists (decoded ++ [c]), cs, (first_len cs). unfold used in *.
    split_and!; [now rewrite <- app_assoc|now simpl; rewrite app_assoc|simpl; lia..|].
    cbn [h_n h_cbits h_cur]. rewrite bits_nil.
    replace (pend cur (cbits - r) []) with y; [subst y|].
    + replace (cbits - r) with (hlen cs + pad) by lia. apply at_sym_start; lia || done.
    + rewrite <- pend_drop, bits_nil, Hval by (apply is_bytes_nil || lia).
      replace (cbits - r) with (hlen cs + pad) by lia. now rewrite mod_pow2_add by lia.
Qed.

Lemma huffmanDecode_encodes buf maxLen s v :
  is_bytes s -> huffman_encodes s v -> fits maxLen (buf ++ s) ->
  huffmanDecode buf maxLen v = Ok (buf ++ s).
Proof.
  intros Hs (Hv & pad & Hpad & Hlen & Hval) Hfit. unfold huffmanDecode.
  destruct (huffman_outer_ok maxLen pad buf s v (mkHState buf root 0 0 0))
    as (st1 & Ho & Hinv1 & H81); [assumption..| |reflexivity|].
  { exists [], s, (first_len s). unfold used. simpl. rewrite app_nil_r.
    split_and!; [reflexivity..|lia|lia|].
    unfold pend. rewrite Z.mod_0_l, Z.mul_0_l, !Z.add_0_l by (cbn; lia).
    rewrite Hlen, Hval. apply at_sym_start; lia || done. }
  rewrite Ho. cbn [res_bind].
  destruct (huffman_final_ok huffman_fuel maxLen pad buf s st1)
    as (st2 & Hf & Hbuf & Hcb & Hsb & Hmask);
    [assumption..|unfold huffman_fuel; lia|assumption|].
  rewrite Hf. cbn [res_bind]. destruct (Z.ltb_spec 7 (h_sbits st2)); [lia|].
  rewrite Z.shiftl_mul_pow2, Z.mul_1_l by lia.
  assert (u64 (2 ^ h_cbits st2 - 1) = 2 ^ h_cbits st2 - 1) as ->.
  { apply u64_small. pose proof (pow2_pos (h_cbits st2) ltac:(lia)).
    assert (2 ^ h_cbits st2 <= 2 ^ 8) by (apply Z.pow_le_mono_r; lia). lia. }
  rewrite land_mask, Hmask, Z.eqb_refl, Hbuf by lia. done.
Qed.

(** ** Decoder: soundness

    Every path of the tree spells the code of the symbol at its end. *)

Fixpoint check_tree (fuel : nat) (n : node) (pre plen : Z) : bool :=
  match fuel with
  | O => false
  | S fuel =>
      forallb (fun i =>
        match child n i with
        | Ok None => true
        | Ok (Some n') =>
            if is_internalb n' then check_tree fuel n' (pre * 256 + i) (plen + 8)
            else
              let r := codeLen n' in
              let c := sym n' in
              (1 <=? r) && (r <=? 8) && (0 <=? c) && (c <? 256) &&
              (clen c =? plen + r) && (code c =? pre * 2 ^ r + i / 2 ^ (8 - r))
        | _ => false
        end) (seqZ 0 256)
  end.

Lemma buildRootHuffmanNode_ok : exists n, buildRootHuffmanNode = Ok n /\ root = n.
Proof.
  assert (match buildRootHuffmanNode with Ok _ => true | _ => false end = true) as H
    by (vm_compute; reflexivity).
  with_strategy transparent [getRootHuffmanNode] unfold getRootHuffmanNode.
  destruct buildRootHuffmanNode; try discriminate H. eauto.
Qed.

Lemma root_tree : check_tree 5 root 0 0 = true.
Proof. vm_compute. reflexivity. Qed.

(** One step from a node reached by [plen] bits of value [pre]. *)
Lemma check_tree_child f n pre plen i :
  check_tree f n pre plen = true -> 0 <= i < 256 ->
  child n i = Ok None \/
  exists n', child n i = Ok (Some n') /\
    ((exists f', f = S f' /\ is_internalb n' = true /\
        check_tree f' n' (pre * 256 + i) (plen + 8) = true) \/
     (children n' = None /\ 1 <= codeLen n' <= 8 /\ is_byte (sym n') /\
        clen (sym n') = plen + codeLen n' /\
        code (sym n') = pre * 2 ^ codeLen n' + i / 2 ^ (8 - codeLen n'))).
Proof.
  intros H Hi. destruct f as [|f]; [done|]. cbn [check_tree] in H.
  apply seqZ_forallb with (x := i) in H; [|lia].
  destruct (child n i) as [[n'|]| | |]; [right|by left|done..].
  exists n'. split; [done|]. unfold is_internalb in *. destruct (children n') eqn:Hch.
  - left. exists f. auto.
  - right. bool_to_Prop. unfold is_byte. auto with lia.
Qed.

(** Everything read so far, [u], is the codes of the output, the bits that led
    to the current node, and the valid bits of [cur]. *)
Definition read_inv (buf0 u : bytes) (st : hstate) (s : bytes) (pre plen : Z) : Prop :=
  h_buf st = buf0 ++ s /\ is_bytes s /\ 0 <= h_cbits st /\ 0 <= plen /\ (8 | plen) /\
  0 <= pre < 2 ^ plen /\ h_sbits st = plen + h_cbits st /\
  8 * len u = hlen s + plen + h_cbits st /\
  be_val u = hval s * 2 ^ (plen + h_cbits st) + (pre * 2 ^ h_cbits st + h_cur st mod 2 ^ h_cbits st).

Definition sound_inv (buf0 u : bytes) (st : hstate) : Prop :=
  exists s f pre plen, read_inv buf0 u st s pre plen /\
    check_tree f (h_n st) pre plen = true /\ 8 * Z.of_nat f + plen = 40.

(** Moving [t] bits from [cur] to a decoded prefix. *)
Lemma take_bits cur cbits t :
  0 <= t <= cbits ->
  cur mod 2 ^ cbits = cur mod 2 ^ cbits / 2 ^ (cbits - t) * 2 ^ (cbits - t) + cur mod 2 ^ (cbits - t).
Proof.
  intros. rewrite <- (mod_pow2_mod_pow2 cur cbits (cbits - t)) by lia.
  pose proof (pow2_pos (cbits - t)). rewrite (Z.mul_comm _ (2 ^ (cbits - t))).
  apply Z.div_mod. lia.
Qed.

(** A leaf of [r] bits found at index [i] completes a symbol. *)
Lemma read_inv_leaf buf0 u buf n cur cbits sbits s pre plen r c i :
  read_inv buf0 u (mkHState buf n cur cbits sbits) s pre plen ->
  is_byte c -> 1 <= r <= 8 -> r <= cbits -> cbits < 256 ->
  clen c = plen + r -> code c = pre * 2 ^ r + i / 2 ^ (8 - r) ->
  i / 2 ^ (8 - r) = cur mod 2 ^ cbits / 2 ^ (cbits - r) ->
  sound_inv buf0 u (mkHState (buf ++ [c]) root cur (u8 (cbits - r)) (u8 (cbits - r))).
Proof.
  intros (Hbuf & Hs & Hcb & Hpl & Hdiv & Hpre & Hsb & Hlen & Hval) Hc Hr Hrc Hcb8 Hcl Hcode Hi.
  cbn [h_buf h_n h_cur h_cbits h_sbits] in *. rewrite u8_small by lia.
  exists (s ++ [c]), 5%nat, 0, 0. split; [|split; [apply root_tree|lia]].
  assert (is_bytes [c]) by (repeat constructor; apply Hc).
  unfold read_inv. cbn [h_buf h_n h_cur h_cbits h_sbits].
  rewrite Hbuf, <- app_assoc, hlen_app, hval_app by done. simpl hlen. simpl hval.
  rewrite Hlen, Hval, (take_bits cur cbits r), <- Hi, Hcl, Hcode by lia.
  split_and!; try lia; [done|apply is_bytes_app; done|apply Z.divide_0_r|].
  replace (plen + cbits) with (plen + r + (cbits - r)) by lia.
  replace cbits with (r + (cbits - r)) at 2 by lia.
  rewrite !Z.pow_add_r by lia. ring.
Qed.

Lemma index_bits cur cbits :
  8 <= cbits -> u8 (Z.shiftr cur (cbits - 8)) = cur mod 2 ^ cbits / 2 ^ (cbits - 8).
Proof. intros. rewrite mod_div_pow2, Z.shiftr_div_pow2 by lia. done. Qed.

(** Outcomes a decoding loop can have: a state that satisfies [P], or one of
    the two errors. *)
Definition loop_post {A} (P : A -> Prop) (r : res error A) : Prop :=
  match r with
  | Ok a => P a
  | Err e => e = ErrInvalidHuffman \/ e = ErrStringLength
  | Panic _ | NoFuel => False
  end.

Lemma huffman_inner_sound fuel maxLen buf0 u st :
  sound_inv buf0 u st -> (0 < fuel)%nat -> h_cbits st < Z.of_nat fuel + 7 -> h_cbits st < 16 ->
  loop_post (fun st' => sound_inv buf0 u st' /\ h_cbits st' < 8) (huffman_inner fuel maxLen st).
Proof.
  revert st. induction fuel as [|fuel IH]; intros [buf n cur cbits sbits] Hinv Hf0 Hfuel H16; [lia|].
  simpl. cbn [h_cbits] in *. destruct (Z.ltb_spec cbits 8) as [Hlt|Hge]; [by split|].
  pose proof Hinv as (s & f & pre & plen & Hread & Htree & Hf). cbn [h_n] in *.
  pose proof (u8_range (Z.shiftr cur (cbits - 8))) as Hidx.
  destruct (check_tree_child f n pre plen _ Htree Hidx)
    as [->|(n' & -> & [(f' & -> & Hint & Htree')|(Hleaf & Hr & Hc & Hcl & Hcode)])]; simpl; [by left| |].
  - unfold is_internalb in Hint. destruct (children n'); [|done].
    rewrite u8_small by lia. apply IH; cbn [h_cbits]; [|lia..].
    exists s, f', (pre * 256 + u8 (Z.shiftr cur (cbits - 8))), (plen + 8).
    split; [|split; [done|lia]].
    destruct Hread as (Hbuf & Hs & Hcb & Hpl & Hdiv & Hpre & Hsb & Hlen & Hval).
    cbn [h_buf h_n h_cur h_cbits h_sbits] in *. unfold read_inv. cbn [h_buf h_cur h_cbits h_sbits].
    rewrite Z.pow_add_r by lia. change (2 ^ 8) with 256.
    split_and!; try done; try lia; [by apply Z.divide_add_r; [|exists 1]|].
    rewrite Hval, (take_bits cur cbits 8), <- index_bits by lia.
    replace (plen + 8 + (cbits - 8)) with (plen + cbits) by lia.
    replace cbits with (8 + (cbits - 8)) at 2 by lia.
    rewrite (Z.pow_add_r 2 8 (cbits - 8)) by lia. ring.
  - rewrite Hleaf. destruct (_ && _); [by right|]. apply IH; cbn [h_cbits];
      [|lia|rewrite u8_small; lia..].
    eapply read_inv_leaf; eauto; try lia.
    rewrite index_bits, Z.div_div, <- Z.pow_add_r by
      (pose proof (pow2_pos (cbits - 8)); pose proof (pow2_pos (8 - codeLen n')); lia).
    do 2 f_equal. lia.
Qed.

Lemma huffman_outer_sound maxLen buf0 u v st :
  is_bytes v -> sound_inv buf0 u st -> h_cbits st < 8 ->
  loop_post (fun st' => sound_inv buf0 (u ++ v) st' /\ h_cbits st' < 8) (huffman_outer maxLen st v).
Proof.
  intros Hv. revert u st. induction Hv as [|b v Hb Hv IH];
    intros u [buf n cur cbits sbits] Hinv H8; [by rewrite app_nil_r|].
  cbn [huffman_outer h_cbits] in *.
  assert (sound_inv buf0 (u ++ [b])
    (mkHState buf n (Z.lor (u64 (Z.shiftl cur 8)) b) (u8 (cbits + 8)) (u8 (sbits + 8)))) as Hinv1.
  { destruct Hinv as (s & f & pre & plen & Hread & Htree & Hf).
    destruct Hread as (Hbuf & Hs & Hcb & Hpl & Hdiv & Hpre & Hsb & Hlen & Hval).
    cbn [h_buf h_n h_cur h_cbits h_sbits] in *. rewrite !u8_small by lia.
    exists s, f, pre, plen. split; [|done]. unfold read_inv.
    cbn [h_buf h_n h_cur h_cbits h_sbits]. rewrite len_app, be_val_app, Hval.
    change (len [b]) with 1. split_and!; try done; try lia.
    pose proof (pend_push cur cbits b [] Hb ltac:(lia)) as Hp.
    rewrite pend_nil in Hp. rewrite Hp. unfold pend. change (len [b]) with 1.
    replace (plen + (cbits + 8)) with (plen + cbits + 8) by lia.
    rewrite (Z.pow_add_r 2 (plen + cbits)), (Z.pow_add_r 2 cbits) by lia.
    change (8 * 1) with 8. ring. }
  assert (0 <= cbits) by (destruct Hinv as (? & ? & ? & ? & (? & ? & ? & _) & _); done).
  pose proof (huffman_inner_sound huffman_fuel maxLen _ _ _ Hinv1) as Hin.
  cbn [h_cbits] in Hin. unfold huffman_fuel in *. rewrite u8_small in * by lia.
  specialize (Hin ltac:(lia) ltac:(lia) ltac:(lia)).
  destruct (huffman_inner _ _ _) as [st1|e| |]; [|done..]. destruct Hin as [Hinv2 H82].
  cbn [res_bind]. replace (u ++ b :: v) with ((u ++ [b]) ++ v) by now rewrite <- app_assoc.
  now apply IH.
Qed.

(** After the final loop the current node no longer matters. *)
Definition end_inv (buf0 u : bytes) (st : hstate) : Prop :=
  h_cbits st < 8 /\ exists s pre plen, read_inv buf0 u st s pre plen.

Lemma final_bits cur cbits :
  0 <= cbits <= 8 ->
  u8 (Z.shiftl cur (8 - cbits)) = cur mod 2 ^ cbits * 2 ^ (8 - cbits).
Proof. intros. now rewrite final_index, pend_nil. Qed.

Lemma huffman_final_sound fuel maxLen buf0 u st :
  sound_inv buf0 u st -> h_cbits st < Z.of_nat fuel -> h_cbits st < 8 ->
  loop_post (end_inv buf0 u) (huffman_final fuel maxLen st).
Proof.
  revert st. induction fuel as [|fuel IH]; intros [buf n cur cbits sbits] Hinv Hfuel H8;
    pose proof Hinv as (s & f & pre & plen & Hread & Htree & Hf); cbn [h_cbits h_n] in *.
  { destruct Hread as (_ & _ & ? & _). cbn in *. lia. }
  cbn [huffman_final]. destruct (Z.leb_spec cbits 0) as [Hz|Hpos].
  { split; [exact H8|]. exists s, pre, plen. exact Hread. }
  pose proof (u8_range (Z.shiftl cur (8 - cbits))) as Hidx.
  destruct (check_tree_child f n pre plen _ Htree Hidx)
    as [->|(n' & -> & [(f' & -> & Hint & Htree')|(Hleaf & Hr & Hc & Hcl & Hcode)])];
    cbn [res_bind]; [by left| |].
  - unfold is_internalb in Hint. destruct (children n'); [|done].
    split; [exact H8|]. exists s, pre, plen. exact Hread.
  - rewrite Hleaf. destruct (Z.ltb_spec cbits (codeLen n')).
    { split; [exact H8|]. exists s, pre, plen. exact Hread. }
    destruct (_ && _); [by right|]. apply IH; cbn [h_cbits]; [|rewrite u8_small; lia..].
    eapply read_inv_leaf; eauto; try lia. rewrite final_bits by lia.
    replace (2 ^ (8 - codeLen n')) with (2 ^ (cbits - codeLen n') * 2 ^ (8 - cbits))
      by (rewrite <- Z.pow_add_r by lia; f_equal; lia).
    pose proof (pow2_pos (8 - cbits)). pose proof (pow2_pos (cbits - codeLen n')).
    now rewrite Z.div_mul_cancel_r by lia.
Qed.

(** The decoder never panics and never runs out of fuel; when it succeeds its
    input is the canonical encoding of its output. *)
Lemma huffmanDecode_sound buf maxLen v :
  is_bytes v ->
  loop_post (fun out => exists s, out = buf ++ s /\ is_bytes s /\ huffman_encodes s v)
    (huffmanDecode buf maxLen v).
Proof.
  intros Hv. unfold huffmanDecode.
  assert (sound_inv buf [] (mkHState buf root 0 0 0)) as Hinit.
  { exists [], 5%nat, 0, 0. split; [|split; [apply root_tree|done]].
    unfold read_inv. cbn. rewrite app_nil_r.
    split_and!; try done; [apply is_bytes_nil|apply Z.divide_0_r]. }
  pose proof (huffman_outer_sound maxLen buf [] v _ Hv Hinit ltac:(reflexivity)) as Ho.
  destruct (huffman_outer maxLen _ v) as [st1|e| |]; [|exact Ho..].
  destruct Ho as [Hinv1 H81]. cbn [res_bind app].
  pose proof (huffman_final_sound huffman_fuel maxLen buf v st1 Hinv1) as Hfin.
  unfold huffman_fuel in *. specialize (Hfin ltac:(lia) H81).
  destruct (huffman_final 16 maxLen st1) as [st2|e| |]; [|exact Hfin..].
  destruct Hfin as [H82 (s & pre & plen & Hbuf & Hs & Hcb & Hpl & Hdiv & Hpre & Hsb & Hlen & Hval)].
  cbn [res_bind]. destruct (Z.ltb_spec 7 (h_sbits st2)) as [|H7]; [by left|].
  assert (plen = 0) as -> by (destruct Hdiv as [q ->]; lia).
  assert (pre = 0) as -> by (rewrite Z.pow_0_r in Hpre; lia).
  pose proof (pow2_pos (h_cbits st2) Hcb).
  rewrite Z.shiftl_mul_pow2, Z.mul_1_l by lia.
  assert (u64 (2 ^ h_cbits st2 - 1) = 2 ^ h_cbits st2 - 1) as ->.
  { apply u64_small. assert (2 ^ h_cbits st2 <= 2 ^ 8) by (apply Z.pow_le_mono_r; lia). lia. }
  rewrite land_mask by lia. destruct (Z.eqb_spec (h_cur st2 mod 2 ^ h_cbits st2) (2 ^ h_cbits st2 - 1))
    as [Hm|]; simpl; [|by left].
  exists s. split; [done|]. split; [done|]. split; [done|].
  rewrite Hm, Z.mul_0_l, !Z.add_0_l in Hval. exists (h_cbits st2). split_and!; done || lia.
Qed.

(** ** Properties *)

(** C10: Huffman coding is lossless and its decoder is exactly the inverse of its
    encoder: for byte strings, [HuffmanDecodeToString v] answers [s] if and only
    if [v] is what [AppendHuffmanString] produces for [s].  In particular no
    non-canonical encoding (wrong or overlong padding, EOS, cut symbol) is
    accepted. *)
Theorem HuffmanDecode_iff_encoded v s :
  is_bytes v -> is_bytes s ->
  HuffmanDecodeToString v = Ok s <-> AppendHuffmanString [] s = v.
Proof.
  intros Hv Hs. unfold HuffmanDecodeToString. split.
  - intros H. pose proof (huffmanDecode_sound [] 0 v Hv) as Hd. rewrite H in Hd.
    destruct Hd as (s' & -> & _ & Henc). simpl in *.
    eapply huffman_encodes_fun; [|exact Henc]. now apply AppendHuffmanString_nil_encodes.
  - intros <-. apply (huffmanDecode_encodes []); auto using AppendHuffmanString_nil_encodes.
    by left.
Qed.

Lemma HuffmanDecode_iff_encoded_witness :
  HuffmanDecodeToString [241; 227; 194; 229; 242; 58; 107; 160; 171; 144; 244; 255]
    = Ok (str "www.example.com").
Proof.
  apply HuffmanDecode_iff_encoded.
  - solve_bytes.
  - solve_bytes.
  - vm_compute. reflexivity.
Defined.

(** The decoder is total: on any bytes, with any initial buffer and length
    limit, it returns a string or one of the two declared errors; it never
    indexes outside the tree, dereferences a leaf's children, or loops. *)
Theorem huffmanDecode_total buf maxLen v :
  is_bytes v ->
  match huffmanDecode buf maxLen v with
  | Ok out => exists s, out = buf ++ s /\ is_bytes s
  | Err e => e = ErrInvalidHuffman \/ e = ErrStringLength
  | Panic _ | NoFuel => False
  end.
Proof.
  intros Hv. pose proof (huffmanDecode_sound buf maxLen v Hv) as H.
  destruct (huffmanDecode buf maxLen v); [|exact H..].
  destruct H as (s & -> & Hs & _). eauto.
Qed.

Lemma huffmanDecode_total_witness :
  huffmanDecode [] 0 [255; 255; 255; 255] = Err ErrInvalidHuffman /\
  match huffmanDecode [] 0 [255; 255; 255; 255] with
  | Ok out => exists s, out = [] ++ s /\ is_bytes s
  | Err e => e = ErrInvalidHuffman \/ e = ErrStringLength
  | Panic _ | NoFuel => False
  end.
Proof.
  split; [vm_compute; reflexivity|]. apply huffmanDecode_total.
  solve_bytes.
Defined.

(** [HuffmanEncodeLength] announces exactly the number of bytes that
    [AppendHuffmanString] appends. *)
Theorem HuffmanEncodeLength_exact dst s :
  is_bytes s -> len s < 2 ^ 58 ->
  len (AppendHuffmanString dst s) = len dst + HuffmanEncodeLength s.
Proof.
  intros Hs Hlen. rewrite AppendHuffmanString_app, len_app, HuffmanEncodeLength_hlen by done.
  destruct (AppendHuffmanString_nil_encodes s Hs) as (_ & pad & Hpad & Hl & _). zdiv_lia.
Qed.

Lemma HuffmanEncodeLength_exact_witness :
  len (AppendHuffmanString [130] (str "no-cache")) = 7.
Proof.
  rewrite HuffmanEncodeLength_exact; [vm_compute; reflexivity|solve_bytes|vm_compute; reflexivity].
Defined.
