(* ===== verification/Tables.v ===== *)
(** * HPACK header field tables

    [src/http2/hpack/tables.go], [src/http2/hpack/static_table.go] and the
    [dynamicTable] of [src/http2/hpack/hpack.go].

    [headerFieldTable] keeps the entries with two maps from a name, and from a
    name/value pair, to the unique id of its newest entry.  The invariant
    [table_wf] says that the maps are exactly the index of the entries; it is
    kept by [addEntry] and [evictOldest] and makes [search] the linear scan for
    the newest matching entry ([search_newest]).  [dynamicTable] adds the size
    accounting and eviction. *)
From S2P Require Import Prelude Hpack.

Local Open Scope Z_scope.
Local Open Scope go_scope.

(** ** [headerFieldTable] *)

Record headerFieldTable : Type := mkTable {
  ents : list HeaderField;
  evictCount : Z; (* uint64 *)
  byName : gmap bytes Z;
  byNameValue : gmap (bytes * bytes) Z;
}.

(** [t.init()] on a zero value. *)
Definition initTable : headerFieldTable := mkTable [] 0 ∅ ∅.

Definition tlen (t : headerFieldTable) : Z := len (ents t).

(** [m[k]]: the zero value when [k] is absent. *)
Definition map_get {K} `{Countable K} (m : gmap K Z) (k : K) : Z := default 0 (m !! k).

Definition addEntry (t : headerFieldTable) (f : HeaderField) : headerFieldTable :=
  let id := u64 (u64 (tlen t + evictCount t) + 1) in
  mkTable (ents t ++ [f]) (evictCount t)
    (<[Name f := id]> (byName t))
    (<[(Name f, Value f) := id]> (byNameValue t)).

(** One iteration of the first loop of [evictOldest]. *)
Definition evict_entry (evictCount : Z) (ents : list HeaderField)
    (m : gmap bytes Z * gmap (bytes * bytes) Z) (k : nat) :
    gmap bytes Z * gmap (bytes * bytes) Z :=
  match ents !! k with
  | None => m
  | Some f =>
      let id := u64 (u64 (evictCount + Z.of_nat k) + 1) in
      let names := if map_get m.1 (Name f) =? id then delete (Name f) m.1 else m.1 in
      let p := (Name f, Value f) in
      let pairs := if map_get m.2 p =? id then delete p m.2 else m.2 in
      (names, pairs)
  end.

(** [copy(t.ents, t.ents[n:])], the clearing of the last [n] slots, and
    [t.ents[:t.len()-n]]. *)
Definition shift_ents (l : list HeaderField) (n : nat) : list HeaderField :=
  let moved := drop n l ++ drop (length l - n) l in
  let cleared := take (length l - n) moved ++ replicate n zeroHeaderField in
  take (length l - n) cleared.

Definition evictOldest (t : headerFieldTable) (n : nat) : res Empty_set headerFieldTable :=
  if tlen t <? Z.of_nat n then Panic "evictOldest on table with too few entries"
  else
    let (names, pairs) :=
      fold_left (evict_entry (evictCount t) (ents t)) (seq 0 n)
        (byName t, byNameValue t) in
    let l := shift_ents (ents t) n in
    if u64 (evictCount t + Z.of_nat n) <? evictCount t then Panic "evictCount overflow"
    else Ok (mkTable l (u64 (evictCount t + Z.of_nat n)) names pairs).

(** [t.idToIndex(id)]; the test [t != staticTable] is the flag [isStatic]. *)
Definition idToIndex (isStatic : bool) (t : headerFieldTable) (id : Z) : res Empty_set Z :=
  if id <=? evictCount t then Panic "id <= evictCount"
  else
    let k := u64 (u64 (id - evictCount t) - 1) in
    if isStatic then Ok (u64 (k + 1)) else Ok (u64 (tlen t - k)).

Definition search (isStatic : bool) (t : headerFieldTable) (f : HeaderField) :
    res Empty_set (Z * bool) :=
  let by_name :=
    let id := map_get (byName t) (Name f) in
    if negb (id =? 0) then
      let? i := idToIndex isStatic t id in Ok (i, false)
    else Ok (0, false) in
  if negb (Sensitive f) then
    let id := map_get (byNameValue t) (Name f, Value f) in
    if negb (id =? 0) then
      let? i := idToIndex isStatic t id in Ok (i, true)
    else by_name
  else by_name.

(** ** The static table *)

(** The map literals, as the association lists in the source. *)
Definition static_byName : list (bytes * Z) := [
  ((str ":authority"), 1);
  ((str ":method"), 3);
  ((str ":path"), 5);
  ((str ":scheme"), 7);
  ((str ":status"), 14);
  ((str "accept-charset"), 15);
  ((str "accept-encoding"), 16);
  ((str "accept-language"), 17);
  ((str "accept-ranges"), 18);
  ((str "accept"), 19);
  ((str "access-control-allow-origin"), 20);
  ((str "age"), 21);
  ((str "allow"), 22);
  ((str "authorization"), 23);
  ((str "cache-control"), 24);
  ((str "content-disposition"), 25);
  ((str "content-encoding"), 26);
  ((str "content-language"), 27);
  ((str "content-length"), 28);
  ((str "content-location"), 29);
  ((str "content-range"), 30);
  ((str "content-type"), 31);
  ((str "cookie"), 32);
  ((str "date"), 33);
  ((str "etag"), 34);
  ((str "expect"), 35);
  ((str "expires"), 36);
  ((str "from"), 37);
  ((str "host"), 38);
  ((str "if-match"), 39);
  ((str "if-modified-since"), 40);
  ((str "if-none-match"), 41);
  ((str "if-range"), 42);
  ((str "if-unmodified-since"), 43);
  ((str "last-modified"), 44);
  ((str "link"), 45);
  ((str "location"), 46);
  ((str "max-forwards"), 47);
  ((str "proxy-authenticate"), 48);
  ((str "proxy-authorization"), 49);
  ((str "range"), 50);
  ((str "referer"), 51);
  ((str "refresh"), 52);
  ((str "retry-after"), 53);
  ((str "server"), 54);
  ((str "set-cookie"), 55);
  ((str "strict-transport-security"), 56);
  ((str "transfer-encoding"), 57);
  ((str "user-agent"), 58);
  ((str "vary"), 59);
  ((str "via"), 60);
  ((str "www-authenticate"), 61)].

Definition static_byNameValue : list ((bytes * bytes) * Z) := [
  (((str ":authority"), (str "")), 1);
  (((str ":method"), (str "GET")), 2);
  (((str ":method"), (str "POST")), 3);
  (((str ":path"), (str "/")), 4);
  (((str ":path"), (str "/index.html")), 5);
  (((str ":scheme"), (str "http")), 6);
  (((str ":scheme"), (str "https")), 7);
  (((str ":status"), (str "200")), 8);
  (((str ":status"), (str "204")), 9);
  (((str ":status"), (str "206")), 10);
  (((str ":status"), (str "304")), 11);
  (((str ":status"), (str "400")), 12);
  (((str ":status"), (str "404")), 13);
  (((str ":status"), (str "500")), 14);
  (((str "accept-charset"), (str "")), 15);
  (((str "accept-encoding"), (str "gzip, deflate")), 16);
  (((str "accept-language"), (str "")), 17);
  (((str "accept-ranges"), (str "")), 18);
  (((str "accept"), (str "")), 19);
  (((str "access-control-allow-origin"), (str "")), 20);
  (((str "age"), (str "")), 21);
  (((str "allow"), (str "")), 22);
  (((str "authorization"), (str "")), 23);
  (((str "cache-control"), (str "")), 24);
  (((str "content-disposition"), (str "")), 25);
  (((str "content-encoding"), (str "")), 26);
  (((str "content-language"), (str "")), 27);
  (((str "content-length"), (str "")), 28);
  (((str "content-location"), (str "")), 29);
  (((str "content-range"), (str "")), 30);
  (((str "content-type"), (str "")), 31);
  (((str "cookie"), (str "")), 32);
  (((str "date"), (str "")), 33);
  (((str "etag"), (str "")), 34);
  (((str "expect"), (str "")), 35);
  (((str "expires"), (str "")), 36);
  (((str "from"), (str "")), 37);
  (((str "host"), (str "")), 38);
  (((str "if-match"), (str "")), 39);
  (((str "if-modified-since"), (str "")), 40);
  (((str "if-none-match"), (str "")), 41);
  (((str "if-range"), (str "")), 42);
  (((str "if-unmodified-since"), (str "")), 43);
  (((str "last-modified"), (str "")), 44);
  (((str "link"), (str "")), 45);
  (((str "location"), (str "")), 46);
  (((str "max-forwards"), (str "")), 47);
  (((str "proxy-authenticate"), (str "")), 48);
  (((str "proxy-authorization"), (str "")), 49);
  (((str "range"), (str "")), 50);
  (((str "referer"), (str "")), 51);
  (((str "refresh"), (str "")), 52);
  (((str "retry-after"), (str "")), 53);
  (((str "server"), (str "")), 54);
  (((str "set-cookie"), (str "")), 55);
  (((str "strict-transport-security"), (str "")), 56);
  (((str "transfer-encoding"), (str "")), 57);
  (((str "user-agent"), (str "")), 58);
  (((str "vary"), (str "")), 59);
  (((str "via"), (str "")), 60);
  (((str "www-authenticate"), (str "")), 61)].

Definition static_ents : list HeaderField := [
  mkHeaderField (str ":authority") (str "") false;
  mkHeaderField (str ":method") (str "GET") false;
  mkHeaderField (str ":method") (str "POST") false;
  mkHeaderField (str ":path") (str "/") false;
  mkHeaderField (str ":path") (str "/index.html") false;
  mkHeaderField (str ":scheme") (str "http") false;
  mkHeaderField (str ":scheme") (str "https") false;
  mkHeaderField (str ":status") (str "200") false;
  mkHeaderField (str ":status") (str "204") false;
  mkHeaderField (str ":status") (str "206") false;
  mkHeaderField (str ":status") (str "304") false;
  mkHeaderField (str ":status") (str "400") false;
  mkHeaderField (str ":status") (str "404") false;
  mkHeaderField (str ":status") (str "500") false;
  mkHeaderField (str "accept-charset") (str "") false;
  mkHeaderField (str "accept-encoding") (str "gzip, deflate") false;
  mkHeaderField (str "accept-language") (str "") false;
  mkHeaderField (str "accept-ranges") (str "") false;
  mkHeaderField (str "accept") (str "") false;
  mkHeaderField (str "access-control-allow-origin") (str "") false;
  mkHeaderField (str "age") (str "") false;
  mkHeaderField (str "allow") (str "") false;
  mkHeaderField (str "authorization") (str "") false;
  mkHeaderField (str "cache-control") (str "") false;
  mkHeaderField (str "content-disposition") (str "") false;
  mkHeaderField (str "content-encoding") (str "") false;
  mkHeaderField (str "content-language") (str "") false;
  mkHeaderField (str "content-length") (str "") false;
  mkHeaderField (str "content-location") (str "") false;
  mkHeaderField (str "content-range") (str "") false;
  mkHeaderField (str "content-type") (str "") false;
  mkHeaderField (str "cookie") (str "") false;
  mkHeaderField (str "date") (str "") false;
  mkHeaderField (str "etag") (str "") false;
  mkHeaderField (str "expect") (str "") false;
  mkHeaderField (str "expires") (str "") false;
  mkHeaderField (str "from") (str "") false;
  mkHeaderField (str "host") (str "") false;
  mkHeaderField (str "if-match") (str "") false;
  mkHeaderField (str "if-modified-since") (str "") false;
  mkHeaderField (str "if-none-match") (str "") false;
  mkHeaderField (str "if-range") (str "") false;
  mkHeaderField (str "if-unmodified-since") (str "") false;
  mkHeaderField (str "last-modified") (str "") false;
  mkHeaderField (str "link") (str "") false;
  mkHeaderField (str "location") (str "") false;
  mkHeaderField (str "max-forwards") (str "") false;
  mkHeaderField (str "proxy-authenticate") (str "") false;
  mkHeaderField (str "proxy-authorization") (str "") false;
  mkHeaderField (str "range") (str "") false;
  mkHeaderField (str "referer") (str "") false;
  mkHeaderField (str "refresh") (str "") false;
  mkHeaderField (str "retry-after") (str "") false;
  mkHeaderField (str "server") (str "") false;
  mkHeaderField (str "set-cookie") (str "") false;
  mkHeaderField (str "strict-transport-security") (str "") false;
  mkHeaderField (str "transfer-encoding") (str "") false;
  mkHeaderField (str "user-agent") (str "") false;
  mkHeaderField (str "vary") (str "") false;
  mkHeaderField (str "via") (str "") false;
  mkHeaderField (str "www-authenticate") (str "") false].

Definition staticTable : headerFieldTable :=
  mkTable static_ents 0 (list_to_map static_byName) (list_to_map static_byNameValue).

(** ** [dynamicTable] *)

Record dynamicTable : Type := mkDynamicTable {
  table : headerFieldTable;
  size : Z;           (* uint32, in bytes *)
  maxSize : Z;        (* uint32 *)
  allowedMaxSize : Z; (* uint32 *)
}.

(** The loop of [evict], over the entries from index [n] on: the final [n]
    and [dt.size]. *)
Fixpoint evict_loop (l : list HeaderField) (n : nat) (size maxSize : Z) : nat * Z :=
  match l with
  | [] => (n, size)
  | f :: l =>
      if maxSize <? size then evict_loop l (S n) (u32 (size - Size f)) maxSize
      else (n, size)
  end.

Definition evict (dt : dynamicTable) : res Empty_set dynamicTable :=
  let (n, size') := evict_loop (ents (table dt)) 0 (size dt) (maxSize dt) in
  let? t := evictOldest (table dt) n in
  Ok (mkDynamicTable t size' (maxSize dt) (allowedMaxSize dt)).

Definition setMaxSize (dt : dynamicTable) (v : Z) : res Empty_set dynamicTable :=
  evict (mkDynamicTable (table dt) (size dt) v (allowedMaxSize dt)).

Definition add (dt : dynamicTable) (f : HeaderField) : dynamicTable :=
  mkDynamicTable (addEntry (table dt) f) (u32 (size dt + Size f))
    (maxSize dt) (allowedMaxSize dt).

(** ** Reference: linear scan for the newest entry *)

(** Position, from the oldest entry, of the newest entry satisfying [P]. *)
Fixpoint newest (P : HeaderField -> bool) (l : list HeaderField) : option nat :=
  match l with
  | [] => None
  | f :: l =>
      match newest P l with
      | Some k => Some (S k)
      | None => if P f then Some O else None
      end
  end.

Lemma newest_app P l f :
  newest P (l ++ [f]) = if P f then Some (length l) else newest P l.
Proof.
  induction l as [|g l IH]; simpl; [done|]. rewrite IH. by destruct (P f).
Qed.

Lemma newest_lookup P l k :
  newest P l = Some k -> exists f, l !! k = Some f /\ P f = true.
Proof.
  revert k. induction l as [|f l IH]; intros k; simpl; [done|].
  destruct (newest P l) as [m|]; [|destruct (P f) eqn:Ef]; intros [= <-]; simpl; eauto.
Qed.

Lemma newest_later P l k j f :
  newest P l = Some k -> (k < j)%nat -> l !! j = Some f -> P f = false.
Proof.
  revert k j. induction l as [|g l IH]; intros k j; simpl; [done|].
  destruct (newest P l) as [m|] eqn:E.
  - intros [= <-] Hj. destruct j as [|j]; [lia|]. apply (IH m); [done|lia].
  - destruct (P g); [|done]. intros [= <-] Hj Hf. destruct j as [|j]; [lia|]. simpl in Hf.
    destruct (P f) eqn:Ef; [|done]. clear IH. exfalso. revert j Hf Hj E.
    induction l as [|h l IH]; intros [|j] Hf Hj E; simplify_eq/=.
    + rewrite Ef in E. by destruct (newest P l).
    + destruct (newest P l); [done|]. apply (IH j Hf); [lia|done].
Qed.

Lemma newest_None P l f : newest P l = None -> f ∈ l -> P f = false.
Proof.
  induction l as [|g l IH]; simpl; intros E Hf; [by apply elem_of_nil in Hf|].
  destruct (newest P l); [done|]. destruct (P g) eqn:Eg; [done|].
  apply elem_of_cons in Hf as [->|Hf]; auto.
Qed.

Lemma newest_lt P l k : newest P l = Some k -> (k < length l)%nat.
Proof. intros (f & Hf & _)%newest_lookup. by apply lookup_lt_Some in Hf. Qed.

(** ** The index invariant *)

Section Indexes.
Context {K : Type} `{Countable K} (key : HeaderField -> K).

Definition key_is (x : K) (f : HeaderField) : bool := bool_decide (key f = x).

(** [m] maps each key to the id of its newest entry in [l], whose first
    entry has id [base + 1]. *)
Definition indexes (base : Z) (l : list HeaderField) (m : gmap K Z) : Prop :=
  forall x, m !! x = (fun k : nat => base + Z.of_nat k + 1) <$> newest (key_is x) l.

Lemma indexes_add base l m f :
  indexes base l m -> indexes base (l ++ [f]) (<[key f := base + len l + 1]> m).
Proof.
  intros Hm x. rewrite newest_app. unfold key_is at 1.
  case_bool_decide as E; [subst x; by rewrite lookup_insert_eq|].
  by rewrite lookup_insert_ne by done.
Qed.

Lemma indexes_evict base f l m :
  0 <= base -> indexes base (f :: l) m ->
  indexes (base + 1) l
    (if map_get m (key f) =? base + 1 then delete (key f) m else m).
Proof.
  intros Hb Hm x. specialize (Hm x) as Hx. specialize (Hm (key f)) as Hf.
  simpl in Hx, Hf. unfold map_get. rewrite Hf.
  unfold key_is at 2 in Hf. unfold key_is at 2. rewrite bool_decide_true by done.
  unfold key_is at 2 in Hx.
  destruct (decide (x = key f)) as [->|Hne].
  - destruct (newest (key_is (key f)) l) as [k|]; simpl in *.
    + rewrite (proj2 (Z.eqb_neq _ _)) by lia. rewrite Hf. f_equal. lia.
    + rewrite (proj2 (Z.eqb_eq _ _)) by lia. by rewrite lookup_delete_eq.
  - assert (m !! x = (fun k : nat => base + 1 + Z.of_nat k + 1) <$> newest (key_is x) l) as Hr.
    { rewrite Hx. destruct (newest (key_is x) l); simpl; [f_equal; lia|].
      rewrite bool_decide_false by congruence. done. }
    destruct (_ =? _); [by rewrite lookup_delete_ne by congruence|done].
Qed.
End Indexes.

Definition pair_of (f : HeaderField) : bytes * bytes := (Name f, Value f).

(** Representation invariant of [headerFieldTable].  The bound on ids is the
    no-overflow assumption that the source's comment on [evictCount] states,
    with room for the index arithmetic on 64-bit [int]s. *)
Record table_wf (t : headerFieldTable) : Prop := {
  wf_count : 0 <= evictCount t;
  wf_bound : evictCount t + tlen t + 1 < 2 ^ 62;
  wf_names : indexes Name (evictCount t) (ents t) (byName t);
  wf_pairs : indexes pair_of (evictCount t) (ents t) (byNameValue t);
}.

Lemma initTable_wf : table_wf initTable.
Proof. split; [done|done| |]; intros x; apply lookup_empty. Qed.

(** Adding an entry keeps the maps the index of the entries: afterwards
    every name and pair leads to its newest entry, including the new one. *)
Lemma addEntry_wf t f :
  table_wf t -> evictCount t + tlen t + 2 < 2 ^ 62 -> table_wf (addEntry t f).
Proof.
  intros [Hc Hb Hn Hp] Hroom. pose proof (len_nonneg (ents t)).
  unfold addEntry. unfold tlen in *.
  rewrite (u64_small (len _ + _)), u64_small by lia.
  replace (len (ents t) + evictCount t + 1) with (evictCount t + len (ents t) + 1) by lia.
  split; unfold tlen; simpl; autorewrite with go_len; [lia|lia| |].
  - by apply (indexes_add Name).
  - by apply (indexes_add pair_of).
Qed.

Lemma shift_ents_drop l n : (n <= length l)%nat -> shift_ents l n = drop n l.
Proof.
  intros. unfold shift_ents. rewrite (take_app_le (drop n l)) by (rewrite length_drop; lia).
  rewrite (take_ge (drop n l)) by (rewrite length_drop; lia).
  rewrite take_app_le by (rewrite length_drop; lia).
  by rewrite take_ge by (rewrite length_drop; lia).
Qed.

Lemma evict_entries_wf base l n m :
  0 <= base -> base + len l + 1 < 2 ^ 62 -> (n <= length l)%nat ->
  indexes Name base l m.1 -> indexes pair_of base l m.2 ->
  let m' := fold_left (evict_entry base l) (seq 0 n) m in
  indexes Name (base + Z.of_nat n) (drop n l) m'.1 /\
  indexes pair_of (base + Z.of_nat n) (drop n l) m'.2.
Proof.
  intros Hb Hbound Hn Hnames Hpairs. induction n as [|n IH].
  - simpl. rewrite Z.add_0_r, drop_0. done.
  - rewrite seq_S, fold_left_app. simpl.
    destruct IH as [IH1 IH2]; [lia|].
    destruct (lookup_lt_is_Some_2 l n) as [f Hf]; [lia|].
    rewrite (drop_S l f n Hf) in IH1, IH2.
    unfold evict_entry at 1 3. rewrite Hf. cbn [fst snd].
    unfold len in Hbound. rewrite (u64_small (base + _)), u64_small by lia.
    replace (base + Z.of_nat (S n)) with (base + Z.of_nat n + 1) by lia.
    split; [apply (indexes_evict Name)|apply (indexes_evict pair_of)]; auto with lia.
Qed.

(** Evicting the [n] oldest entries removes exactly them, moves
    [evictCount] on by [n], keeps both maps the index of the remaining
    entries, and does not panic when the table has at least [n] entries. *)
Lemma evictOldest_wf t n :
  table_wf t -> (n <= length (ents t))%nat ->
  exists t', evictOldest t n = Ok t' /\ table_wf t' /\
    ents t' = drop n (ents t) /\ evictCount t' = evictCount t + Z.of_nat n.
Proof.
  intros [Hc Hb Hn Hp] Hle. unfold tlen in Hb.
  pose proof (evict_entries_wf _ _ n (byName t, byNameValue t) Hc Hb Hle Hn Hp) as Hm.
  unfold evictOldest, tlen, len in *. rewrite (proj2 (Z.ltb_ge _ _)) by lia.
  destruct (fold_left _ _ _) as [names pairs]. simpl in Hm. destruct Hm as [Hm1 Hm2].
  rewrite u64_small by lia. rewrite (proj2 (Z.ltb_ge _ _)) by lia.
  rewrite shift_ents_drop by done. eexists. split; [done|].
  split; [|done]. split; unfold tlen, len; simpl; rewrite ?length_drop; done || lia.
Qed.

(** ** [search] is the linear scan *)

(** HPACK index of the entry at position [k]. *)
Definition table_index (isStatic : bool) (t : headerFieldTable) (k : nat) : Z :=
  if isStatic then Z.of_nat k + 1 else tlen t - Z.of_nat k.

(** What [search] promises: prefer the newest entry with the same name and
    value, unless the field is sensitive; otherwise the newest with the name. *)
Definition search_spec (isStatic : bool) (t : headerFieldTable) (f : HeaderField) : Z * bool :=
  let scan {K} `{Countable K} (key : HeaderField -> K) :=
    table_index isStatic t <$> newest (key_is key (key f)) (ents t) in
  match (if Sensitive f then None else scan pair_of), scan Name with
  | Some i, _ => (i, true)
  | None, Some i => (i, false)
  | None, None => (0, false)
  end.

Lemma idToIndex_id isStatic t k :
  table_wf t -> (k < length (ents t))%nat ->
  idToIndex isStatic t (evictCount t + Z.of_nat k + 1) = Ok (table_index isStatic t k).
Proof.
  intros [Hc Hb _ _] Hk. unfold idToIndex, table_index, tlen, len in *.
  rewrite (proj2 (Z.leb_gt _ _)) by lia.
  rewrite (u64_small (_ - evictCount t)), (u64_small (_ - 1)) by lia.
  destruct isStatic; rewrite u64_small by lia; f_equal; lia.
Qed.

(** On a well-formed table [search] never panics and returns what a
    linear scan for the newest matching entry finds. *)
Lemma search_newest isStatic t f :
  table_wf t -> search isStatic t f = Ok (search_spec isStatic t f).
Proof.
  intros Hwf. pose proof (wf_count t Hwf). unfold search, search_spec, map_get.
  change (Name f, Value f) with (pair_of f).
  rewrite (wf_names t Hwf (Name f)), (wf_pairs t Hwf (pair_of f)).
  destruct (newest (key_is Name _) _) as [k|] eqn:Ek;
    destruct (newest (key_is pair_of _) _) as [j|] eqn:Ej; simpl;
    try apply newest_lt in Ek; try apply newest_lt in Ej;
    rewrite ?(proj2 (Z.eqb_neq _ _)) by lia; simpl;
    rewrite ?idToIndex_id by done; by destruct (Sensitive f).
Qed.

Lemma newest_Some_key {K} `{Countable K} (key : HeaderField -> K) l x k :
  newest (key_is key x) l = Some k -> exists g, l !! k = Some g /\ key g = x.
Proof. intros (g & Hg & Hx%bool_decide_eq_true)%newest_lookup. eauto. Qed.

Lemma newest_None_key {K} `{Countable K} (key : HeaderField -> K) l x g :
  newest (key_is key x) l = None -> g ∈ l -> key g <> x.
Proof. intros Hn Hg. by apply (newest_None _ _ _ Hn), bool_decide_eq_false in Hg. Qed.

(** What the result of [search] says about the entries. *)
Lemma search_spec_facts isStatic t f i m :
  search_spec isStatic t f = (i, m) ->
  (m = true <-> Sensitive f = false /\ exists g, g ∈ ents t /\ pair_of g = pair_of f) /\
  (i = 0 <-> forall g, g ∈ ents t -> Name g <> Name f) /\
  (i <> 0 -> exists k g, i = table_index isStatic t k /\ ents t !! k = Some g /\
     Name g = Name f /\ (m = true -> Value g = Value f)).
Proof.
  assert (forall k g, ents t !! k = Some g -> table_index isStatic t k <> 0) as Hpos.
  { intros k g Hk%lookup_lt_Some. unfold table_index, tlen, len. destruct isStatic; lia. }
  unfold search_spec.
  destruct (newest (key_is Name (Name f)) (ents t)) as [k|] eqn:En;
    destruct (newest (key_is pair_of (pair_of f)) (ents t)) as [j|] eqn:Ep;
    try (apply newest_Some_key in En as (g & Hg & Hname));
    try (apply newest_Some_key in Ep as (g' & Hg' & [= Hn' Hv']));
    try pose proof (list_elem_of_lookup_2 _ _ _ Hg);
    try pose proof (list_elem_of_lookup_2 _ _ _ Hg');
    try pose proof (newest_None_key _ _ _ g' En);
    try pose proof (Hpos _ _ Hg); try pose proof (Hpos _ _ Hg').
  - destruct (Sensitive f) eqn:Es; simpl; intros [= <- <-].
    + split_and!; [naive_solver|split; [done|]; intros Hno; by destruct (Hno g)|naive_solver].
    + split_and!; [|split; [done|]; intros Hno; by destruct (Hno g)|naive_solver].
      split; [|done]. intros _. split; [done|]. exists g'. split; [done|]. unfold pair_of. congruence.
  - assert (forall h, h ∈ ents t -> pair_of h <> pair_of f) as Hnone
      by (intros h Hh; by apply (newest_None_key _ _ _ h Ep Hh)).
    destruct (Sensitive f) eqn:Es; simpl; intros [= <- <-];
      (split_and!; [|split; [done|]; intros Hno; by destruct (Hno g)|naive_solver]);
      (split; [done|]); intros [_ (h & Hh & Heq)]; by destruct (Hnone h).
  - exfalso. by apply (newest_None_key _ _ _ g' En).
  - assert (forall g, g ∈ ents t -> Name g <> Name f) as Hnone
      by (intros h Hh; by apply (newest_None_key _ _ _ h En Hh)).
    destruct (Sensitive f) eqn:Es; simpl; intros [= <- <-];
      (split_and!; [|done|done]); (split; [done|]); intros [? (h & Hh & [= Heq _])];
      by destruct (Hnone h Hh).
Qed.

(** A literal map indexes a table when its keys are distinct, each leads to
    its newest entry, and no entry's key is missing: three executable checks. *)
Section StaticIndex.
Context {K : Type} `{Countable K} (key : HeaderField -> K).

Definition ids_newest (l : list HeaderField) (kv : list (K * Z)) : bool :=
  forallb (fun p =>
    match newest (key_is key p.1) l with
    | Some k => p.2 =? Z.of_nat k + 1
    | None => false
    end) kv.

Definition keys_present (l : list HeaderField) (kv : list (K * Z)) : bool :=
  forallb (fun f => existsb (fun p => bool_decide (key f = p.1)) kv) l.

Fixpoint keys_distinct (kv : list (K * Z)) : bool :=
  match kv with
  | [] => true
  | p :: kv => forallb (fun p' => negb (bool_decide (p.1 = p'.1))) kv && keys_distinct kv
  end.

Lemma keys_distinct_NoDup kv : keys_distinct kv = true -> NoDup kv.*1.
Proof.
  induction kv as [|p kv IH]; simpl; [constructor|].
  intros [Hp Hkv]%andb_true_iff. constructor; [|auto].
  intros (p' & Hpp' & Hin)%list_elem_of_fmap. rewrite forallb_forall in Hp.
  specialize (Hp p'). rewrite <- list_elem_of_In, negb_true_iff, bool_decide_eq_false in Hp.
  by apply Hp.
Qed.

Lemma indexes_literal l kv :
  (keys_distinct kv && ids_newest l kv && keys_present l kv)%bool = true ->
  indexes key 0 l (list_to_map kv).
Proof.
  intros [[Hd%keys_distinct_NoDup Hids]%andb_true_iff Hkeys]%andb_true_iff.
  unfold ids_newest in Hids. rewrite forallb_forall in Hids.
  unfold keys_present in Hkeys. rewrite forallb_forall in Hkeys. intros x.
  destruct (list_to_map kv !! x) as [i|] eqn:E.
  - apply elem_of_list_to_map_2, list_elem_of_In, Hids in E. simpl in E.
    destruct (newest _ l) as [k|]; [|done]. bool_to_Prop. simpl. f_equal. lia.
  - destruct (newest (key_is key x) l) as [k|] eqn:Ek; [|done]. exfalso.
    apply newest_lookup in Ek as (f & Hf & Hx%bool_decide_eq_true). subst x.
    apply list_elem_of_lookup_2, list_elem_of_In, Hkeys, existsb_exists in Hf as (p & Hp & Hkey).
    apply bool_decide_eq_true in Hkey.
    apply not_elem_of_list_to_map_2 in E. apply E. rewrite Hkey.
    apply list_elem_of_fmap_2. by apply list_elem_of_In.
Qed.
End StaticIndex.

Lemma staticTable_wf : table_wf staticTable.
Proof.
  split; [done|vm_compute; reflexivity| |]; apply indexes_literal; vm_compute; reflexivity.
Qed.

(** Searching the generated static table returns the HPACK index of the
    last of its 61 entries with the field's name and value, else of the last
    one with its name: the maps of static_table.go index its entries. *)
Theorem static_search f :
  search true staticTable f = Ok (search_spec true staticTable f) /\ tlen staticTable = 61.
Proof. split; [apply search_newest, staticTable_wf|reflexivity]. Qed.

(** ** Size accounting and eviction *)

Fixpoint sizes (l : list HeaderField) : Z :=
  match l with
  | [] => 0
  | f :: l => Size f + sizes l
  end.

Lemma sizes_nonneg l : 0 <= sizes l.
Proof. induction l as [|f l IH]; simpl; [lia|]. pose proof (Size_range f). lia. Qed.

Lemma sizes_app l1 l2 : sizes (l1 ++ l2) = sizes l1 + sizes l2.
Proof. induction l1; simpl; lia. Qed.

Lemma sizes_drop n l : sizes (drop n l) <= sizes l.
Proof.
  rewrite <- (take_drop n l) at 2. rewrite sizes_app. pose proof (sizes_nonneg (take n l)). lia.
Qed.

(** The 32-bit counter [size] is the sum of the sizes of the entries. *)
Record dynamicTable_wf (dt : dynamicTable) : Prop := {
  dt_table : table_wf (table dt);
  dt_size : size dt = sizes (ents (table dt));
  dt_size_max : size dt < 2 ^ 32;
  dt_max : 0 <= maxSize dt < 2 ^ 32;
  dt_allowed : 0 <= allowedMaxSize dt < 2 ^ 32;
}.

(** [n] is the least number of oldest entries whose eviction makes the rest
    fit [m]. *)
Definition least_eviction (l : list HeaderField) (m : Z) (n : nat) : Prop :=
  (n <= length l)%nat /\ sizes (drop n l) <= m /\
  forall k, (k < n)%nat -> m < sizes (drop k l).

Lemma evict_loop_spec l n0 m :
  0 <= m -> sizes l < 2 ^ 32 ->
  exists n, evict_loop l n0 (sizes l) m = ((n0 + n)%nat, sizes (drop n l)) /\
    least_eviction l m n.
Proof.
  intros Hm. revert n0. induction l as [|f l IH]; intros n0 Hl; simpl.
  - exists O. rewrite Nat.add_0_r. split; [done|]. split; [done|]. simpl. split; [lia|]. intros; lia.
  - simpl in Hl. pose proof (Size_range f). pose proof (sizes_nonneg l).
    destruct (Z.ltb_spec m (Size f + sizes l)) as [Hlt|Hge].
    + replace (Size f + sizes l - Size f) with (sizes l) by lia.
      rewrite u32_small by lia. destruct (IH (S n0)) as (n & -> & Hn & Hfit & Hleast); [lia|].
      exists (S n). split; [f_equal; lia|]. split; [simpl; lia|]. split; [done|].
      intros [|k] Hk; simpl; [lia|]. apply Hleast. lia.
    + exists O. rewrite Nat.add_0_r. split; [done|]. split; [simpl; lia|]. simpl.
      split; [lia|]. intros; lia.
Qed.

(** [evict] on a well-formed table does not panic, removes the least
    number of oldest entries that brings the size within [maxSize], and leaves
    the size counter equal to the sum of the remaining sizes. *)
Lemma evict_least dt :
  dynamicTable_wf dt ->
  exists dt' n, evict dt = Ok dt' /\ dynamicTable_wf dt' /\ size dt' <= maxSize dt' /\
    maxSize dt' = maxSize dt /\ allowedMaxSize dt' = allowedMaxSize dt /\
    ents (table dt') = drop n (ents (table dt)) /\
    least_eviction (ents (table dt)) (maxSize dt) n.
Proof.
  intros [Ht Hs Hs32 Hm Ha]. unfold evict. rewrite Hs in *.
  destruct (evict_loop_spec (ents (table dt)) 0 (maxSize dt)) as (n & -> & Hn); [lia|done|].
  destruct (evictOldest_wf (table dt) n Ht) as (t' & He & Ht' & Hents & Hcount); [apply Hn|].
  simpl. rewrite He. pose proof (sizes_drop n (ents (table dt))).
  eexists _, n. split; [done|]. simpl. split; [|by destruct Hn as (? & ? & ?)].
  split; simpl; rewrite ?Hents; done || lia.
Qed.

(** [setMaxSize] is [evict] at the new bound: it removes the least number of
    oldest entries that makes the rest fit. *)
Lemma setMaxSize_least dt v :
  dynamicTable_wf dt -> 0 <= v < 2 ^ 32 ->
  exists dt' n, setMaxSize dt v = Ok dt' /\ dynamicTable_wf dt' /\ size dt' <= v /\
    maxSize dt' = v /\ allowedMaxSize dt' = allowedMaxSize dt /\
    ents (table dt') = drop n (ents (table dt)) /\
    least_eviction (ents (table dt)) v n.
Proof.
  intros [Ht Hs Hs32 Hm Ha] Hv.
  destruct (evict_least (mkDynamicTable (table dt) (size dt) v (allowedMaxSize dt)))
    as (dt' & n & He & Hwf & Hle & Hmax & Hall & Hents & Hleast); [by split|].
  simpl in *. exists dt', n. rewrite Hmax in Hle. by split_and!.
Qed.

Lemma add_wf dt f :
  dynamicTable_wf dt -> sizes (ents (table dt)) + Size f < 2 ^ 32 ->
  evictCount (table dt) + tlen (table dt) + 2 < 2 ^ 62 -> dynamicTable_wf (add dt f).
Proof.
  intros [Ht Hs Hs32 Hm Ha] Hsize Hroom. pose proof (Size_range f).
  pose proof (sizes_nonneg (ents (table dt))).
  split; simpl; [by apply addEntry_wf| | |done|done]; rewrite u32_small by lia; [|lia].
  rewrite sizes_app. simpl. lia.
Qed.

(** [add] keeps every entry whatever [maxSize] is: it never evicts, so the
    size of the table may exceed its maximum until the next [setMaxSize]. *)
Theorem add_never_evicts dt l :
  ents (table (fold_left add l dt)) = ents (table dt) ++ l /\
  maxSize (fold_left add l dt) = maxSize dt /\
  (exists dt0 f, dynamicTable_wf dt0 /\ Size f <= maxSize dt0 /\ size dt0 <= maxSize dt0 /\
     maxSize dt0 < size (add dt0 f)).
Proof.
  split; [|split].
  - revert dt. induction l as [|f l IH]; intros dt; simpl; [by rewrite app_nil_r|].
    rewrite IH. simpl. by rewrite <- app_assoc.
  - revert dt. induction l as [|f l IH]; intros dt; simpl; [done|]. by rewrite IH.
  - pose (f := mkHeaderField (str "a") (str "b") false).
    exists (add (mkDynamicTable initTable 0 50 4096) f), f.
    split; [|vm_compute; split_and!; congruence].
    apply add_wf; [|done|done]. split; [apply initTable_wf|..]; done.
Qed.

(** ** Eviction without the size invariant

    [add] can take the 32-bit size counter past its range, so the decoder's
    safety does not rest on it: whatever the counter holds, eviction never
    asks for more entries than there are. *)
Lemma evict_loop_le l n size m : (n <= (evict_loop l n size m).1 <= n + length l)%nat.
Proof.
  revert n size. induction l as [|f l IH]; intros n size; simpl; [lia|].
  destruct (m <? size); simpl; [|lia]. pose proof (IH (S n) (u32 (size - Size f))). lia.
Qed.

Lemma setMaxSize_safe dt v :
  table_wf (table dt) ->
  exists dt' n, setMaxSize dt v = Ok dt' /\ table_wf (table dt') /\
    evict_loop (ents (table dt)) 0 (size dt) v = (n, size dt') /\
    ents (table dt') = drop n (ents (table dt)) /\
    evictCount (table dt') + tlen (table dt') = evictCount (table dt) + tlen (table dt) /\
    maxSize dt' = v /\ allowedMaxSize dt' = allowedMaxSize dt.
Proof.
  intros Hwf. unfold setMaxSize, evict. simpl.
  pose proof (evict_loop_le (ents (table dt)) 0 (size dt) v) as Hle.
  destruct (evict_loop _ _ _ _) as [n sz]. simpl in Hle.
  destruct (evictOldest_wf (table dt) n Hwf) as (t' & He & Ht' & Hents & Hcount); [lia|].
  simpl. rewrite He. eexists _, n. split_and!; try done. simpl. unfold tlen, len.
  rewrite Hents, length_drop. lia.
Qed.

(** ** Refinement

    Abstractly the dynamic table is the list of its fields, oldest first:
    adding appends, and lowering the maximum keeps the longest run of newest
    fields that fits. *)
Inductive table_op : Type :=
| OpAdd (f : HeaderField)
| OpSetMax (v : Z).

Definition table_step (dt : dynamicTable) (op : table_op) : res Empty_set dynamicTable :=
  match op with
  | OpAdd f => Ok (add dt f)
  | OpSetMax v => setMaxSize dt v
  end.

Fixpoint table_run (dt : dynamicTable) (ops : list table_op) : res Empty_set dynamicTable :=
  match ops with
  | [] => Ok dt
  | op :: ops => let? dt := table_step dt op in table_run dt ops
  end.

Fixpoint longest_fit (m : Z) (l : list HeaderField) : list HeaderField :=
  match l with
  | [] => []
  | _ :: l' => if sizes l <=? m then l else longest_fit m l'
  end.

Definition spec_step (l : list HeaderField) (op : table_op) : list HeaderField :=
  match op with
  | OpAdd f => l ++ [f]
  | OpSetMax v => longest_fit v l
  end.

Definition spec_max (m : Z) (op : table_op) : Z :=
  match op with OpAdd _ => m | OpSetMax v => v end.

Definition op_ok (op : table_op) : Prop :=
  match op with OpAdd _ => True | OpSetMax v => 0 <= v < 2 ^ 32 end.

Definition op_size (op : table_op) : Z :=
  match op with OpAdd f => Size f | OpSetMax _ => 0 end.

Definition ops_size (ops : list table_op) : Z := fold_right (fun op n => op_size op + n) 0 ops.

(** What a client of the table sees. *)
Definition table_models (dt : dynamicTable) (l : list HeaderField) : Prop :=
  dynamicTable_wf dt /\ ents (table dt) = l.

Lemma least_eviction_fit l m n : least_eviction l m n -> drop n l = longest_fit m l.
Proof.
  revert n. induction l as [|f l IH]; intros n (Hn & Hfit & Hleast); [by rewrite drop_nil|].
  cbn [longest_fit]. destruct n as [|n].
  - rewrite drop_0 in Hfit |- *. by rewrite (proj2 (Z.leb_le _ _)).
  - pose proof (Hleast O ltac:(lia)) as H0. rewrite drop_0 in H0.
    rewrite (proj2 (Z.leb_gt _ _)) by lia. cbn [drop]. apply IH.
    split; [simpl in Hn; lia|]. split; [done|]. intros k Hk. apply (Hleast (S k)). lia.
Qed.

Lemma longest_fit_drop m l : exists n, longest_fit m l = drop n l.
Proof.
  induction l as [|f l [n IH]]; [by exists O|]. cbn [longest_fit].
  destruct (_ <=? m); [by exists O|by exists (S n)].
Qed.

Lemma table_step_refines dt l op :
  table_models dt l -> op_ok op -> sizes l + op_size op < 2 ^ 32 ->
  evictCount (table dt) + tlen (table dt) + 2 < 2 ^ 62 ->
  exists dt', table_step dt op = Ok dt' /\ table_models dt' (spec_step l op) /\
    evictCount (table dt') + tlen (table dt') <= evictCount (table dt) + tlen (table dt) + 1 /\
    sizes (spec_step l op) <= sizes l + op_size op /\
    maxSize dt' = spec_max (maxSize dt) op.
Proof.
  intros [Hwf <-] Hop Hs Hc. destruct op as [f|v]; cbn [table_step spec_step op_size op_ok] in *.
  - eexists. split; [done|]. split; [split; [by apply add_wf|done]|].
    rewrite sizes_app. unfold tlen. simpl. rewrite len_app. unfold len. simpl. split_and!; lia || done.
  - destruct (setMaxSize_least dt v Hwf Hop) as (dt' & n & He & Hwf' & Hle & Hmax & _ & Hents & Hl).
    destruct (setMaxSize_safe dt v (dt_table _ Hwf)) as (dt2 & k & He2 & _ & _ & _ & Hk & _).
    rewrite He in He2. injection He2 as <-. exists dt'. split; [done|].
    rewrite <- (least_eviction_fit _ _ _ Hl), <- Hents. split; [by split|].
    split; [lia|]. split; [rewrite Hents; pose proof (sizes_drop n (ents (table dt))); lia|]. exact Hmax.
Qed.

Lemma table_run_refines ops dt l :
  table_models dt l -> Forall op_ok ops -> sizes l + ops_size ops < 2 ^ 32 ->
  evictCount (table dt) + tlen (table dt) + len ops + 1 < 2 ^ 62 ->
  exists dt', table_run dt ops = Ok dt' /\ table_models dt' (fold_left spec_step ops l) /\
    maxSize dt' = fold_left spec_max ops (maxSize dt).
Proof.
  revert dt l. induction ops as [|op ops IH]; intros dt l Hm Hops Hs Hc; [by exists dt|].
  apply Forall_cons_iff in Hops as [Hop Hops]. rewrite len_cons in Hc. pose proof (len_nonneg ops).
  assert (0 <= op_size op) as Hpos.
  { destruct op as [f|v]; simpl; [pose proof (Size_range f)|]; lia. }
  assert (0 <= ops_size ops) as Hposs.
  { clear. induction ops as [|op ops IH]; simpl; [lia|].
    destruct op as [f|v]; simpl; [pose proof (Size_range f)|]; lia. }
  cbn [ops_size fold_right] in Hs. fold (ops_size ops) in Hs.
  destruct (table_step_refines dt l op Hm Hop) as (dt' & He & Hm' & Hc' & Hs' & Hmax); [lia|lia|].
  cbn [table_run fold_left]. rewrite He, <- Hmax. cbn [res_bind]. apply IH; done || lia.
Qed.

(** C11: the dynamic table, with its offset ids, maps and eviction, refines a
    plain list: after any sequence of [add] and [setMaxSize] its entries are
    those of the list, its size counter is their size, and [search] answers
    the index a linear scan of the list for the newest match gives. *)
Theorem dynamicTable_refines dt l ops :
  table_models dt l -> Forall op_ok ops -> sizes l + ops_size ops < 2 ^ 32 ->
  evictCount (table dt) + tlen (table dt) + len ops + 1 < 2 ^ 62 ->
  exists dt', table_run dt ops = Ok dt' /\
    ents (table dt') = fold_left spec_step ops l /\
    size dt' = sizes (fold_left spec_step ops l) /\
    maxSize dt' = fold_left spec_max ops (maxSize dt) /\
    forall f, search false (table dt') f = Ok (search_spec false (table dt') f).
Proof.
  intros Hm Hops Hs Hc. destruct (table_run_refines ops dt l Hm Hops Hs Hc) as (dt' & He & [Hwf Hl] & Hmax).
  exists dt'. split; [done|]. split; [done|]. rewrite <- Hl. split; [apply Hwf|]. split; [done|].
  intros f. apply search_newest, Hwf.
Qed.

Lemma dynamicTable_refines_witness :
  let f := mkHeaderField (str "a") (str "b") false in
  let g := mkHeaderField (str "a") (str "c") false in
  let dt := mkDynamicTable initTable 0 4096 4096 in
  let ops := [OpAdd f; OpAdd g; OpSetMax 40; OpAdd f] in
  fold_left spec_step ops [] = [g; f] /\
  exists dt', table_run dt ops = Ok dt' /\
    ents (table dt') = fold_left spec_step ops [] /\
    size dt' = sizes (fold_left spec_step ops []) /\
    maxSize dt' = 40 /\
    forall f, search false (table dt') f = Ok (search_spec false (table dt') f).
Proof.
  intros f g dt ops. split; [reflexivity|].
  apply (dynamicTable_refines dt [] ops); [|repeat constructor; done|done|done].
  split; [|done]. split; [apply initTable_wf|..]; done.
Defined.
