(* ===== verification/Io.v ===== *)
(** * Package io of the HTTP/2 code

    [src/http2/io/io.go]: the [Reader] and [Writer] interfaces as type
    classes, [ReadAtLeast] and [ReadFull] with the buffer they fill.

    A [Read] call gets the buffer's contents and gives back the number of
    bytes, the error and the new contents of the whole buffer (the interface
    lets it use all of the buffer as scratch space), together with the reader's
    next state. *)
From S2P Require Import Prelude.

Local Open Scope Z_scope.

(** The package's error values, and the errors [E] of a concrete reader or
    writer. *)
Inductive io_error (E : Type) : Type :=
  | ErrShortWrite
  | ErrShortBuffer
  | EOF
  | ErrUnexpectedEOF
  | OtherError (e : E).
Arguments ErrShortWrite {E}.
Arguments ErrShortBuffer {E}.
Arguments EOF {E}.
Arguments ErrUnexpectedEOF {E}.
Arguments OtherError {E} e.

#[export] Instance io_error_eq_dec {E} `{EqDecision E} : EqDecision (io_error E).
Proof. solve_decision. Defined.

(** The result of [Read(p)]: [n], [err], [p] after the call. *)
Record read_result (E : Type) : Type := mkRead {
  rd_n : Z;
  rd_err : option (io_error E);
  rd_buf : bytes;
}.
Arguments mkRead {E} _ _ _.
Arguments rd_n {E} _.
Arguments rd_err {E} _.
Arguments rd_buf {E} _.

Class Reader (R E : Type) := Read : R -> bytes -> read_result E * R.

(** The documented contract of [Read] that callers may rely on. *)
Class ReaderLaws (R E : Type) `{Reader R E} := {
  Read_count : forall r p, 0 <= rd_n (Read r p).1 <= len p;
  Read_length : forall r p, length (rd_buf (Read r p).1) = length p;
}.

Class Writer (W E : Type) := WriteTo : W -> bytes -> (Z * option (io_error E)) * W.

(** The documented contract of [Write]: an error whenever it writes less. *)
Class WriterLaws (W E : Type) `{Writer W E} := {
  Write_count : forall w p, 0 <= (WriteTo w p).1.1 <= len p;
  Write_short : forall w p, (WriteTo w p).1.1 < len p -> (WriteTo w p).1.2 <> None;
}.

(** ** [ReadAtLeast] and [ReadFull] *)

Section ReadFull.
Context {R E : Type} {RD : Reader R E} {ED : EqDecision E}.

(** [for n < min && err == nil { nn, err = r.Read(buf); n += nn }].  Every
    iteration passes the same [buf].  [None] is running out of fuel. *)
Fixpoint ReadAtLeast_loop (fuel : nat) (r : R) (buf : bytes) (min n : Z)
    (err : option (io_error E)) : option (read_result E * R) :=
  if (n <? min) && bool_decide (err = None) then
    match fuel with
    | O => None
    | S fuel =>
        let (res, r) := Read r buf in
        ReadAtLeast_loop fuel r (rd_buf res) min (n + rd_n res) (rd_err res)
    end
  else Some (mkRead n err buf, r).

Definition ReadAtLeast (fuel : nat) (r : R) (buf : bytes) (min : Z) :
    option (read_result E * R) :=
  if len buf <? min then Some (mkRead 0 (Some ErrShortBuffer) buf, r)
  else
    match ReadAtLeast_loop fuel r buf min 0 None with
    | None => None
    | Some (res, r) =>
        let err :=
          if min <=? rd_n res then None
          else if (0 <? rd_n res) && bool_decide (rd_err res = Some EOF)
            then Some ErrUnexpectedEOF
          else rd_err res in
        Some (mkRead (rd_n res) err (rd_buf res), r)
    end.

Definition ReadFull (fuel : nat) (r : R) (buf : bytes) : option (read_result E * R) :=
  ReadAtLeast fuel r buf (len buf).

Context {RL : ReaderLaws R E}.

Lemma ReadAtLeast_loop_post fuel r buf min n err res r' :
  0 <= n -> ReadAtLeast_loop fuel r buf min n err = Some (res, r') ->
  n <= rd_n res /\ length (rd_buf res) = length buf /\
  (rd_n res < min -> rd_err res <> None).
Proof.
  revert r buf n err. induction fuel as [|fuel IH]; intros r buf n err Hn; simpl;
    destruct (Z.ltb_spec n min); try case_bool_decide; simpl; intros Hr; simplify_eq/=;
    try (split_and!; done || lia).
  pose proof (Read_count r buf). pose proof (Read_length r buf) as Hlen.
  destruct (Read r buf) as [rr r1]. simpl in *.
  apply IH in Hr as (H1 & H2 & H3); [|lia]. split_and!; [lia|congruence|done].
Qed.

(** A reader makes progress on [p] when it returns a byte or an error. *)
Definition progress : Prop :=
  forall (r : R) p, p <> [] -> 0 < rd_n (Read r p).1 \/ rd_err (Read r p).1 <> None.

Lemma ReadAtLeast_loop_total fuel r buf min n err :
  progress -> 0 <= n -> min <= len buf -> min - n <= Z.of_nat fuel ->
  exists res, ReadAtLeast_loop fuel r buf min n err = Some res.
Proof.
  intros Hprog. revert r buf n err.
  induction fuel as [|fuel IH]; intros r buf n err Hn Hmin Hfuel; simpl;
    destruct (Z.ltb_spec n min); try (eexists; done); try lia.
  case_bool_decide; simpl; [|eauto].
  assert (buf <> []) as Hne by (intros ->; rewrite len_nil in Hmin; lia).
  pose proof (Read_length r buf) as Hlen. pose proof (Read_count r buf) as Hcount.
  pose proof (Hprog r buf Hne) as Hp. destruct (Read r buf) as [rr r1]. simpl in *.
  destruct (decide (rd_err rr = None)) as [He|Herr].
  - destruct Hp as [Hp|]; [|done]. apply IH; unfold len in *; lia.
  - destruct fuel; simpl; rewrite (bool_decide_false (rd_err rr = None)) by done;
      rewrite andb_false_r; eauto.
Qed.

(** The contract of [ReadAtLeast] about its results. *)
Lemma ReadAtLeast_post fuel r buf min res r' :
  0 <= min -> ReadAtLeast fuel r buf min = Some (res, r') ->
  (rd_err res = None <-> min <= rd_n res) /\
  (rd_err res = Some EOF -> rd_n res = 0) /\
  (len buf < min -> rd_err res = Some ErrShortBuffer) /\
  0 <= rd_n res /\ length (rd_buf res) = length buf.
Proof.
  intros Hmin. unfold ReadAtLeast. destruct (Z.ltb_spec (len buf) min) as [Hs|Hs].
  { intros [= <- <-]. simpl. pose proof (len_nonneg buf). split_and!; try done. split; [done|lia]. }
  destruct (ReadAtLeast_loop _ _ _ _ _ _) as [[rr r1]|] eqn:E1; [|done].
  intros [= <- <-]. simpl. apply ReadAtLeast_loop_post in E1 as (H1 & H2 & H3); [|lia].
  destruct (Z.leb_spec min (rd_n rr)) as [Hge|Hlt].
  { split_and!; done || lia. }
  specialize (H3 Hlt). destruct (Z.ltb_spec 0 (rd_n rr)); simpl;
    [case_bool_decide as He|]; (split; [split; [done|lia]|]);
    split_and!; try done; intros; lia.
Qed.

(** Whatever the reader, as long as it respects [io.Reader] and never
    answers [0, nil], [ReadFull] returns; the error is nil exactly when the
    count reached the buffer's length, and [EOF] only when no byte was
    read. *)
Theorem ReadFull_contract r buf :
  progress ->
  exists res r', ReadFull (length buf) r buf = Some (res, r') /\
    (rd_err res = None <-> len buf <= rd_n res) /\
    (rd_err res = Some EOF -> rd_n res = 0) /\
    length (rd_buf res) = length buf.
Proof.
  intros Hp. unfold ReadFull.
  destruct (ReadAtLeast (length buf) r buf (len buf)) as [[res r']|] eqn:E1.
  - exists res, r'. split; [done|].
    apply ReadAtLeast_post in E1 as (? & ? & _ & _ & ?); [done|apply len_nonneg].
  - exfalso. unfold ReadAtLeast in E1. rewrite Z.ltb_irrefl in E1.
    destruct (ReadAtLeast_loop_total (length buf) r buf (len buf) 0 None Hp)
      as [[res r'] Hr]; [lia|lia|unfold len; lia|]. by rewrite Hr in E1.
Qed.

(** A [Read] that fills the buffer at once ends [ReadFull] after one call. *)
Lemma ReadFull_filled fuel r buf r' buf' err :
  buf <> [] -> Read r buf = (mkRead (len buf) err buf', r') ->
  ReadFull (S fuel) r buf = Some (mkRead (len buf) None buf', r').
Proof.
  intros Hne Hr. unfold ReadFull, ReadAtLeast. rewrite Z.ltb_irrefl. simpl.
  assert (0 < len buf) as Hpos.
  { destruct buf; [done|]. rewrite len_cons. pose proof (len_nonneg buf). lia. }
  rewrite (proj2 (Z.ltb_lt _ _)) by done. simpl. rewrite Hr. cbn [rd_n rd_err rd_buf].
  rewrite Z.add_0_l.
  destruct fuel; cbn [ReadAtLeast_loop]; rewrite Z.ltb_irrefl; cbn;
    by rewrite Z.leb_refl.
Qed.
End ReadFull.

(** ** Two concrete readers

    [stream]: all bytes are available, as from a [bytes.Reader]; [EOF] at the
    end.  [chunks]: the given pieces arrive one per call, as from a network
    connection. *)

Record stream : Type := mkStream { unread : bytes }.

#[export] Instance stream_Reader : Reader stream Empty_set := fun r p =>
  match unread r with
  | [] => (mkRead 0 (Some EOF) p, r)
  | s =>
      let n := Nat.min (length s) (length p) in
      (mkRead (Z.of_nat n) None (take n s ++ drop n p), mkStream (drop n s))
  end.

#[export] Instance stream_ReaderLaws : ReaderLaws stream Empty_set.
Proof.
  split; intros [[|b s]] p; unfold Read, stream_Reader, len; cbn [unread rd_n rd_buf fst];
    rewrite ?length_app, ?length_take, ?length_drop; lia.
Qed.

Lemma stream_progress : progress (R := stream) (E := Empty_set).
Proof.
  intros [[|b s]] p Hp; [by right|left]. destruct p; [done|]. unfold Read, stream_Reader. cbn. lia.
Qed.

Lemma ReadFull_stream fuel s rest buf :
  buf <> [] -> length s = length buf ->
  ReadFull (S fuel) (mkStream (s ++ rest)) buf = Some (mkRead (len buf) None s, mkStream rest).
Proof.
  intros Hne Hlen. apply ReadFull_filled with (err := None); [done|].
  unfold Read, stream_Reader. cbn [unread].
  destruct (s ++ rest) as [|b l] eqn:E.
  { apply app_eq_nil in E as [-> _]. destruct buf; done. }
  rewrite <- E. rewrite Nat.min_r by (rewrite length_app; lia).
  rewrite <- Hlen, take_app_length, drop_app_length, Hlen, drop_all, app_nil_r. done.
Qed.

Definition chunks := list bytes.

#[export] Instance chunks_Reader : Reader chunks Empty_set := fun r p =>
  match r with
  | [] => (mkRead 0 (Some EOF) p, [])
  | c :: r =>
      let n := Nat.min (length c) (length p) in
      (mkRead (Z.of_nat n) None (take n c ++ drop n p),
       if decide (drop n c = []) then r else drop n c :: r)
  end.

Lemma ReadFull_contract_witness :
  exists res r', ReadFull 9 (mkStream [1; 2; 3; 4]) (replicate 9 0) = Some (res, r') /\
    (rd_err res = None <-> 9 <= rd_n res) /\
    (rd_err res = Some EOF -> rd_n res = 0) /\
    length (rd_buf res) = 9%nat.
Proof.
  apply (ReadFull_contract (mkStream [1; 2; 3; 4]) (replicate 9 0)). apply stream_progress.
Defined.

(** [ReadFull] passes [buf], not [buf[n:]], to every [Read]: when a frame
    header arrives in two pieces the second overwrites the first, and the call
    still reports success. *)
Theorem ReadFull_short_reads_overwrite (a b : bytes) :
  a <> [] -> b <> [] ->
  ReadFull (length (a ++ b)) ([a; b] : chunks) (replicate (length (a ++ b)) 0) =
    Some (mkRead (len (a ++ b)) None
      (b ++ drop (length b) (a ++ replicate (length b) 0)), []).
Proof.
  intros Ha Hb. unfold ReadFull, ReadAtLeast.
  assert (len (replicate (length (a ++ b)) 0) = len a + len b) as Hlen.
  { unfold len. rewrite length_replicate, length_app. lia. }
  rewrite Hlen, Z.ltb_irrefl.
  assert (0 < len a /\ 0 < len b) as [Hla Hlb].
  { destruct a, b; try done; unfold len; simpl; lia. }
  assert (exists k, length (a ++ b) = S (S k)) as [k Hk].
  { exists (length (a ++ b) - 2)%nat. unfold len in *. rewrite length_app in *. lia. }
  rewrite Hk. cbn [ReadAtLeast_loop]. rewrite <- Hk.
  rewrite (proj2 (Z.ltb_lt 0 _)) by lia. simpl andb. cbv iota.
  unfold Read at 1, chunks_Reader at 1.
  rewrite length_replicate.
  rewrite (Nat.min_l (length a)) by (rewrite length_app; lia).
  rewrite drop_all, take_ge by done. rewrite decide_True by done.
  rewrite drop_replicate. cbn [rd_buf rd_n rd_err].
  replace (length (a ++ b) - length a)%nat with (length b) by (rewrite length_app; lia).
  rewrite (proj2 (Z.ltb_lt _ _)) by (unfold len in *; lia). simpl andb. cbv iota.
  unfold Read at 1, chunks_Reader at 1.
  rewrite (Nat.min_l (length b)) by (rewrite length_app, length_replicate; lia).
  rewrite drop_all, take_ge by done. rewrite decide_True by done.
  cbn [rd_buf rd_n rd_err].
  destruct k; cbn [ReadAtLeast_loop];
    rewrite (proj2 (Z.ltb_ge _ _)) by (unfold len in *; lia); simpl;
    rewrite (proj2 (Z.leb_le _ _)) by (unfold len in *; lia);
    rewrite len_app; unfold len; do 3 f_equal; lia.
Qed.

Lemma ReadFull_short_reads_overwrite_witness :
  ReadFull 9 ([[0; 0; 4; 8]; [0; 0; 0; 0; 0]] : chunks) (replicate 9 0) =
    Some (mkRead 9 None [0; 0; 0; 0; 0; 0; 0; 0; 0], []).
Proof. apply (ReadFull_short_reads_overwrite [0; 0; 4; 8] [0; 0; 0; 0; 0]); done. Defined.

(** ** A concrete writer

    [bytes.Buffer]: it keeps everything and never fails. *)
#[export] Instance buffer_Writer : Writer bytes Empty_set :=
  fun w p => ((len p, None), w ++ p).

#[export] Instance buffer_WriterLaws : WriterLaws bytes Empty_set.
Proof. split; intros w p; simpl; pose proof (len_nonneg p); lia. Qed.
