(* ===== verification/BufferedWriter.v ===== *)
(** * The connection's buffered writer

    [bufferedWriter] of [src/http2/http2/http2.go]: a [bufio.Writer] of 4096
    bytes that exists only while data is buffered.  The first section is the
    part of [bufio.Writer] it uses (Go's standard library): its state is the
    buffered bytes and the sticky error; taking it from the pool and [Reset]
    clear both. *)
From S2P Require Import Prelude Io.

Local Open Scope Z_scope.
Local Open Scope go_scope.

Definition bufWriterPoolBufferSize : Z := 2 ^ 12.

Section Bufio.
Context {W E : Type} {WR : Writer W E}.

Record bufio : Type := mkBufio {
  b_wr : W;
  b_buf : bytes;                 (* b.buf[:b.n] *)
  b_err : option (io_error E);
}.

Definition bufio_Available (b : bufio) : Z := bufWriterPoolBufferSize - len (b_buf b).

(** [bufio.Writer.Flush] *)
Definition bufio_Flush (b : bufio) : option (io_error E) * bufio :=
  match b_err b with
  | Some e => (Some e, b)
  | None =>
      match b_buf b with
      | [] => (None, b)
      | _ =>
          let '((n, err), wr) := WriteTo (b_wr b) (b_buf b) in
          let err := match err with
                     | None => if n <? len (b_buf b) then Some ErrShortWrite else None
                     | e => e
                     end in
          match err with
          | Some e => (Some e, mkBufio wr (drop (Z.to_nat n) (b_buf b)) (Some e))
          | None => (None, mkBufio wr [] None)
          end
      end
  end.

(** The loop of [bufio.Writer.Write]: [nn] and [p] when it ends. *)
Fixpoint bufio_Write_loop (fuel : nat) (b : bufio) (p : bytes) (nn : Z) :
    res Empty_set (bufio * bytes * Z) :=
  if (bufio_Available b <? len p) && negb (bool_decide (is_Some (b_err b))) then
    match fuel with
    | O => NoFuel
    | S fuel =>
        match b_buf b with
        | [] =>
            let '((n, err), wr) := WriteTo (b_wr b) p in
            if (n <? 0) || (len p <? n) then Panic "slice bounds out of range"
            else bufio_Write_loop fuel (mkBufio wr [] err) (drop (Z.to_nat n) p) (nn + n)
        | _ =>
            let n := Z.to_nat (bufio_Available b) in
            let b := mkBufio (b_wr b) (b_buf b ++ take n p) (b_err b) in
            let (_, b) := bufio_Flush b in
            bufio_Write_loop fuel b (drop n p) (nn + Z.of_nat n)
        end
    end
  else Ok (b, p, nn).

(** Two turns of the loop are enough over a lawful writer
    ([bufio_Write_facts]): one to fill and flush, one to write the rest. *)
Definition bufio_Write (b : bufio) (p : bytes) :
    res Empty_set ((Z * option (io_error E)) * bufio) :=
  let? (b, p, nn) := bufio_Write_loop 2 b p 0 in
  match b_err b with
  | Some e => Ok ((nn, Some e), b)
  | None => Ok ((nn + len p, None), mkBufio (b_wr b) (b_buf b ++ p) None)
  end.

(** ** [bufferedWriter] *)

Record bufferedWriter : Type := mkBufferedWriter {
  bw_w : W;
  bw : option (bytes * option (io_error E)); (* nil when nothing is buffered *)
}.

Definition newBufferedWriter (w : W) : bufferedWriter := mkBufferedWriter w None.

(** The [bufio.Writer] in use, on the connection's writer. *)
Definition bufio_of (w : bufferedWriter) : bufio :=
  let (buf, err) := default ([], None) (bw w) in mkBufio (bw_w w) buf err.

Definition Available (w : bufferedWriter) : Z :=
  match bw w with
  | None => bufWriterPoolBufferSize
  | Some _ => bufio_Available (bufio_of w)
  end.

Definition bufferedWriter_Write (w : bufferedWriter) (p : bytes) :
    res Empty_set ((Z * option (io_error E)) * bufferedWriter) :=
  let? (r, b) := bufio_Write (bufio_of w) p in
  Ok (r, mkBufferedWriter (b_wr b) (Some (b_buf b, b_err b))).

Definition bufferedWriter_Flush (w : bufferedWriter) : option (io_error E) * bufferedWriter :=
  match bw w with
  | None => (None, w)
  | Some _ =>
      let (err, b) := bufio_Flush (bufio_of w) in (err, mkBufferedWriter (b_wr b) None)
  end.
End Bufio.
Arguments bufio W E : clear implicits.
Arguments bufferedWriter W E : clear implicits.

(** A writer whose output can be inspected: [Write] appends the bytes it
    reports. *)
Class WriterLog (W E : Type) `{Writer W E} := {
  written : W -> bytes;
  Write_log : forall w p,
    written (WriteTo w p).2 = written w ++ take (Z.to_nat (WriteTo w p).1.1) p;
}.

#[export] Instance buffer_WriterLog : WriterLog bytes Empty_set.
Proof.
  refine {| written := fun w => w |}. intros w p. simpl. unfold len. by rewrite Nat2Z.id, firstn_all.
Defined.

Section Props.
Context {W E : Type} {WR : Writer W E} {LAWS : WriterLaws W E} {LOG : WriterLog W E}.

(** What has been accepted and not lost: sent or still buffered. *)
Definition accepted (b : bufio W E) : bytes := written (b_wr b) ++ b_buf b.

Definition bufio_ok (b : bufio W E) : Prop := len (b_buf b) <= bufWriterPoolBufferSize.

(** One write to a lawful writer. *)
Lemma WriteTo_facts (w : W) p n err w' :
  WriteTo w p = ((n, err), w') ->
  0 <= n <= len p /\ (err = None -> n = len p) /\ written w' = written w ++ take (Z.to_nat n) p.
Proof.
  intros H. pose proof (Write_count w p) as Hc. pose proof (Write_short w p) as Hs.
  pose proof (Write_log w p) as Hl. rewrite H in Hc, Hs, Hl. simpl in *.
  split; [done|]. split; [|done]. intros ->. destruct (Z.lt_ge_cases n (len p)); [|lia].
  by destruct Hs.
Qed.

Lemma take_len {A} (l : list A) : take (Z.to_nat (len l)) l = l.
Proof. unfold len. by rewrite Nat2Z.id, firstn_all. Qed.

Lemma bufio_Flush_facts b err b' :
  bufio_Flush b = (err, b') -> bufio_ok b ->
  bufio_ok b' /\ err = b_err b' /\ accepted b' = accepted b /\
  (err = None -> b_buf b' = []).
Proof.
  intros H Hok. unfold bufio_Flush in H. destruct (b_err b) eqn:Ee; [by injection H as <- <-|].
  destruct (b_buf b) as [|c buf] eqn:Eb; [by injection H as <- <-|]. rewrite <- Eb in H.
  destruct (WriteTo (b_wr b) (b_buf b)) as [[n e] wr] eqn:Ew.
  destruct (WriteTo_facts _ _ _ _ _ Ew) as (Hn & Hfull & Hlog).
  destruct e as [e|].
  - injection H as <- <-. unfold accepted, bufio_ok in *. simpl.
    split; [rewrite Eb in *; unfold len in *; rewrite length_drop; lia|].
    split; [done|]. split; [|done]. by rewrite Hlog, <- app_assoc, take_drop.
  - rewrite (Hfull eq_refl), Z.ltb_irrefl in H. injection H as <- <-.
    unfold accepted, bufio_ok. simpl. rewrite app_nil_r, Hlog, (Hfull eq_refl), take_len. done.
Qed.

(** How the loop ends: [p1] is what is left of [p], [k] bytes were taken. *)
Definition loop_done (b : bufio W E) (p : bytes) (b1 : bufio W E) (p1 : bytes) (k : Z) : Prop :=
  0 <= k <= len p /\ p1 = drop (Z.to_nat k) p /\ bufio_ok b1 /\
  accepted b1 = accepted b ++ take (Z.to_nat k) p /\
  (b_err b1 = None -> len p1 <= bufio_Available b1).

Lemma loop_stop fuel b p nn :
  bufio_ok b -> (b_err b = None -> len p <= bufio_Available b) ->
  bufio_Write_loop fuel b p nn = Ok (b, p, nn) /\ loop_done b p b p 0.
Proof.
  intros Hok Hfit. pose proof (len_nonneg p). split.
  - assert ((bufio_Available b <? len p) && negb (bool_decide (is_Some (b_err b))) = false) as Hc.
    { destruct (b_err b); [by rewrite andb_false_r|]. rewrite (proj2 (Z.ltb_ge _ _)); auto. }
    destruct fuel; cbn [bufio_Write_loop]; by rewrite Hc.
  - split; [lia|]. split; [done|]. split; [done|]. split; [by rewrite app_nil_r|done].
Qed.

Lemma loop_direct fuel b p nn :
  b_buf b = [] -> bufio_ok b ->
  exists b1 p1 k, bufio_Write_loop (S fuel) b p nn = Ok (b1, p1, nn + k) /\ loop_done b p b1 p1 k.
Proof.
  intros Hb Hok.
  destruct ((bufio_Available b <? len p) && negb (bool_decide (is_Some (b_err b)))) eqn:Hc.
  - cbn [bufio_Write_loop]. rewrite Hc, Hb.
    destruct (WriteTo (b_wr b) p) as [[n e] wr] eqn:Ew.
    destruct (WriteTo_facts _ _ _ _ _ Ew) as (Hn & Hfull & Hlog).
    rewrite (proj2 (Z.ltb_ge n 0)), (proj2 (Z.ltb_ge (len p) n)) by lia. cbn [orb].
    assert (bufio_ok (mkBufio wr [] e)) as Hok' by (unfold bufio_ok, bufWriterPoolBufferSize, len; simpl; lia).
    assert (e = None -> len (drop (Z.to_nat n) p) <= bufio_Available (mkBufio wr [] e)) as Hfit.
    { intros ->. rewrite (Hfull eq_refl). unfold bufio_Available, len.
      rewrite length_drop, Nat2Z.id. cbn [b_buf length]. unfold bufWriterPoolBufferSize. lia. }
    destruct (loop_stop fuel (mkBufio wr [] e) (drop (Z.to_nat n) p) (nn + n) Hok' Hfit) as [-> _].
    eexists _, _, n. split; [done|]. split; [lia|]. split; [done|]. split; [done|]. split; [|done].
    unfold accepted. simpl. by rewrite Hb, !app_nil_r.
  - assert (b_err b = None -> len p <= bufio_Available b) as Hfit.
    { intros He. rewrite He in Hc. rewrite bool_decide_false in Hc by (by intros []).
      rewrite andb_true_r in Hc. by apply Z.ltb_ge. }
    destruct (loop_stop (S fuel) b p nn Hok Hfit) as [Hl Hd].
    exists b, p, 0. by rewrite Z.add_0_r.
Qed.

Lemma loop_fill fuel b p nn :
  b_buf b <> [] -> bufio_ok b ->
  exists b1 p1 k, bufio_Write_loop (S (S fuel)) b p nn = Ok (b1, p1, nn + k) /\ loop_done b p b1 p1 k.
Proof.
  intros Hb Hok.
  destruct ((bufio_Available b <? len p) && negb (bool_decide (is_Some (b_err b)))) eqn:Hc.
  - remember (S fuel) as fuel1 eqn:Hfuel. cbn [bufio_Write_loop]. rewrite Hc.
    destruct (b_buf b) as [|c buf] eqn:Eb; [done|]. rewrite <- Eb.
    apply andb_true_iff in Hc as [Hlt%Z.ltb_lt _].
    assert (0 <= bufio_Available b) as Ha by (unfold bufio_Available, bufio_ok in *; lia).
    set (n := Z.to_nat (bufio_Available b)) in *.
    assert (Z.of_nat n = bufio_Available b) as Hn by (unfold n; lia).
    set (b0 := mkBufio (b_wr b) (b_buf b ++ take n p) (b_err b)).
    assert (length (take n p) = n) as Htake by (rewrite length_take; unfold len in *; lia).
    assert (bufio_ok b0) as Hok0.
    { unfold bufio_ok, b0. cbn [b_buf]. rewrite len_app. unfold len at 2. rewrite Htake, Hn.
      unfold bufio_Available. lia. }
    destruct (bufio_Flush b0) as [err b1] eqn:Ef.
    destruct (bufio_Flush_facts b0 err b1 Ef Hok0) as (Hok1 & Herr & Hacc & Hempty).
    assert (accepted b1 = accepted b ++ take n p) as Hacc1.
    { rewrite Hacc. unfold accepted, b0. cbn [b_wr b_buf]. by rewrite app_assoc. }
    assert (exists b2 p2 k, bufio_Write_loop fuel1 b1 (drop n p) (nn + Z.of_nat n) =
      Ok (b2, p2, nn + Z.of_nat n + k) /\ loop_done b1 (drop n p) b2 p2 k)
      as (b2 & p2 & k & -> & Hk & Hp2 & Hok2 & Hacc2 & Hfit2).
    { destruct err as [e|].
      - destruct (loop_stop fuel1 b1 (drop n p) (nn + Z.of_nat n) Hok1) as [-> Hd];
          [intros He; congruence|]. exists b1, (drop n p), 0. by rewrite Z.add_0_r.
      - subst fuel1. apply loop_direct; [by apply Hempty|done]. }
    exists b2, p2, (Z.of_nat n + k). rewrite Z.add_assoc. split; [done|].
    unfold len in Hk. rewrite length_drop in Hk.
    unfold loop_done. rewrite Z2Nat.inj_add, Nat2Z.id by lia.
    split; [unfold len in *; lia|]. split; [by rewrite Hp2, drop_drop|]. split; [done|]. split; [|done].
    rewrite Hacc2, Hacc1, <- app_assoc. f_equal. rewrite <- (take_drop n p) at 3.
    rewrite take_app, Htake, take_take, Nat.min_r by lia. f_equal. f_equal. lia.
  - assert (b_err b = None -> len p <= bufio_Available b) as Hfit.
    { intros He. rewrite He in Hc. rewrite bool_decide_false in Hc by (by intros []).
      rewrite andb_true_r in Hc. by apply Z.ltb_ge. }
    destruct (loop_stop (S (S fuel)) b p nn Hok Hfit) as [Hl Hd].
    exists b, p, 0. by rewrite Z.add_0_r.
Qed.

Lemma bufio_Write_facts b p :
  bufio_ok b ->
  exists nn err b', bufio_Write b p = Ok ((nn, err), b') /\ bufio_ok b' /\ err = b_err b' /\
    0 <= nn <= len p /\ accepted b' = accepted b ++ take (Z.to_nat nn) p /\
    (err = None -> nn = len p) /\
    (b_err b = None -> len p <= bufio_Available b -> err = None /\ b_wr b' = b_wr b).
Proof.
  intros Hok.
  assert (exists b1 p1 k, bufio_Write_loop 2 b p 0 = Ok (b1, p1, k) /\ loop_done b p b1 p1 k)
    as (b1 & p1 & k & Hl & Hk & Hp1 & Hok1 & Hacc & Hfit).
  { destruct (b_buf b) eqn:Eb; [destruct (loop_direct 1 b p 0 Eb Hok) as (b1 & p1 & k & H)
      |destruct (loop_fill 0 b p 0 ltac:(by rewrite Eb) Hok) as (b1 & p1 & k & H)];
      exists b1, p1, k; exact H. }
  assert (b_err b = None -> len p <= bufio_Available b -> b1 = b) as Hstay.
  { intros He Hf. destruct (loop_stop 2 b p 0 Hok (fun _ => Hf)) as [Hl' _]. congruence. }
  unfold bufio_Write. rewrite Hl. cbn [res_bind]. destruct (b_err b1) as [e|] eqn:Ee.
  - eexists k, (Some e), b1. split; [done|]. split; [done|]. split; [done|]. split; [done|].
    split; [done|]. split; [done|]. intros He Hf. rewrite (Hstay He Hf) in Ee. congruence.
  - assert (len p1 = len p - k) as Hlen by (rewrite Hp1; unfold len in *; rewrite length_drop; lia).
    eexists (k + len p1), None, _. split; [done|]. specialize (Hfit eq_refl).
    split; [unfold bufio_ok, bufio_Available in *; cbn [b_buf]; rewrite len_app; lia|].
    split; [done|]. split; [lia|]. rewrite Hlen. replace (k + (len p - k)) with (len p) by lia.
    split; [|split; [done|]].
    + unfold accepted in *. cbn [b_wr b_buf]. rewrite app_assoc, Hacc, <- app_assoc, Hp1.
      by rewrite take_drop, take_len.
    + intros He Hf. by rewrite (Hstay He Hf).
Qed.

(** ** Refinement

    Abstractly the writer is the bytes accepted so far. *)
Definition bw_ok (w : bufferedWriter W E) : Prop := bufio_ok (bufio_of w).

Definition bw_accepted (w : bufferedWriter W E) : bytes := accepted (bufio_of w).

(** C34: [bufferedWriter] loses, reorders and duplicates nothing: a [Write]
    without error appends exactly [p] to what was accepted, one that fails
    reports how many bytes of [p] it took; while [p] fits [Available], the
    connection is not touched; and after a [Flush] without error everything
    accepted has reached the connection, in order, and the buffer is gone. *)
Theorem bufferedWriter_refines w p :
  bw_ok w ->
  (exists nn err w', bufferedWriter_Write w p = Ok ((nn, err), w') /\ bw_ok w' /\
     bw_accepted w' = bw_accepted w ++ take (Z.to_nat nn) p /\ 0 <= nn <= len p /\
     (err = None -> nn = len p) /\
     (b_err (bufio_of w) = None -> len p <= Available w ->
        err = None /\ written (bw_w w') = written (bw_w w))) /\
  (let (err, w') := bufferedWriter_Flush w in
   bw w' = None /\ bw_ok w' /\
   (err = None -> written (bw_w w') = bw_accepted w)).
Proof.
  intros Hok. split.
  - destruct (bufio_Write_facts (bufio_of w) p Hok) as (nn & err & b' & Hw & Hok' & He & Hn & Hacc & Hfull & Hstay).
    unfold bufferedWriter_Write. rewrite Hw. eexists nn, err, _. split; [done|].
    assert (forall wr buf e, bufio_of (mkBufferedWriter (W:=W) (E:=E) wr (Some (buf, e))) = mkBufio wr buf e) as Hof by done.
    unfold bw_ok, bw_accepted. rewrite Hof. destruct b' as [wr buf e]. cbn [b_wr b_buf b_err] in *.
    split_and!; try done; try lia. intros Hnone Hf.
    destruct (Hstay Hnone) as [-> Hwr].
    { unfold Available in Hf. destruct (bw w) as [[buf0 e0]|] eqn:Eb; [done|].
      unfold bufio_of. rewrite Eb. unfold bufio_Available, len in *. simpl. lia. }
    split; [done|]. simpl. rewrite Hwr. unfold bufio_of. by destruct (default _ (bw w)).
  - unfold bufferedWriter_Flush. unfold bw_ok, bw_accepted in *.
    destruct (bw w) as [[buf e]|] eqn:Eb.
    + destruct (bufio_Flush (bufio_of w)) as [err b] eqn:Ef.
      destruct (bufio_Flush_facts _ _ _ Ef Hok) as (_ & _ & Hacc & Hempty).
      split; [done|]. split; [unfold bufio_ok, bufio_of; unfold bufWriterPoolBufferSize, len; simpl; lia|].
      intros Hnone. rewrite <- Hacc. unfold accepted. by rewrite (Hempty Hnone), app_nil_r.
    + split; [done|]. split; [done|]. intros _. unfold accepted, bufio_of. rewrite Eb. simpl.
      by rewrite app_nil_r.
Qed.

End Props.

Lemma bufferedWriter_refines_witness :
  exists nn err w', bufferedWriter_Write (newBufferedWriter ([7] : bytes)) [1; 2] = Ok ((nn, err), w') /\
    bw_accepted w' = [7; 1; 2] /\ written (bw_w w') = [7].
Proof.
  destruct (bufferedWriter_refines (newBufferedWriter ([7] : bytes)) [1; 2]) as [(nn & err & w' & H1 & _ & H2 & _ & H3 & H4) _].
  { vm_compute. discriminate. }
  exists nn, err, w'. split; [exact H1|].
  destruct (H4 eq_refl) as [-> ->]; [vm_compute; discriminate|].
  rewrite H2, (H3 eq_refl). split; reflexivity.
Defined.
