(* ===== verification/BufReader.v ===== *)
(** * [bufio.Reader]

    The part of Go's [bufio.Reader] that [src/http] uses, over any
    [io.Reader]: its state is the bytes buffered and the pending error.  The
    free space of the buffer is passed to the reader as zeros; a reader that
    claims more bytes than it was given room for is not covered. *)
From S2P Require Import Prelude Io.

Local Open Scope Z_scope.
Local Open Scope go_scope.

Inductive bufio_error (E : Type) : Type :=
  | IoErr (e : io_error E)
  | ErrNoProgress
  | ErrBufferFull.
Arguments IoErr {E} e.
Arguments ErrNoProgress {E}.
Arguments ErrBufferFull {E}.

#[export] Instance bufio_error_eq_dec {E} `{EqDecision E} : EqDecision (bufio_error E).
Proof. solve_decision. Defined.

(** The size of the buffer that [bufio.NewReader] makes. *)
Definition defaultBufSize : nat := 4096.
Definition maxConsecutiveEmptyReads : nat := 100.

Section BufReader.
Context {R E : Type} {RD : Reader R E}.

Record bufReader : Type := mkBufReader {
  br_rd : R;
  br_buf : bytes;                      (* b.buf[b.r:b.w] *)
  br_err : option (bufio_error E) }.

#[local] Abbreviation M := (stateful bufReader Empty_set).

Definition bufio_NewReader (r : R) : bufReader := mkBufReader r [] None.
Definition Buffered : M Z := fun b => (Ok (len (br_buf b)), b).
Definition readErr : M (option (bufio_error E)) := fun b => (Ok (br_err b), mkBufReader (br_rd b) (br_buf b) None).

(** The loop of [fill]. *)
Fixpoint fill_loop (i : nat) : M unit :=
  match i with
  | O => fun b => (Ok tt, mkBufReader (br_rd b) (br_buf b) (Some ErrNoProgress))
  | S i => fun b =>
      let '(res, r) := Read (br_rd b) (replicate (defaultBufSize - length (br_buf b)) 0) in
      if rd_n res <? 0 then (Panic "bufio: reader returned negative count from Read", b)
      else
        let b := mkBufReader r (br_buf b ++ take (Z.to_nat (rd_n res)) (rd_buf res)) (br_err b) in
        match rd_err res with
        | Some e => (Ok tt, mkBufReader (br_rd b) (br_buf b) (Some (IoErr e)))
        | None => if 0 <? rd_n res then (Ok tt, b) else fill_loop i b
        end
  end.

Definition fill : M unit := fun b =>
  if (defaultBufSize <=? length (br_buf b))%nat then (Panic "bufio: tried to fill full buffer", b)
  else fill_loop maxConsecutiveEmptyReads b.

(** [Peek(n)]: the next bytes, at most [n], and the error when they are fewer. *)
Fixpoint Peek_loop (fuel : nat) (n : Z) : M unit := fun b =>
  if (len (br_buf b) <? n) && (length (br_buf b) <? defaultBufSize)%nat && match br_err b with None => true | Some _ => false end then
    match fuel with
    | O => (NoFuel, b)
    | S fuel => (fill ;;; Peek_loop fuel n) b
    end
  else (Ok tt, b).
Definition Peek (n : Z) : M (bytes * option (bufio_error E)) :=
  Peek_loop (S defaultBufSize) n ;;;
  let* b := st_get in
  if Z.of_nat defaultBufSize <? n then st_ret (br_buf b, Some ErrBufferFull)
  else if len (br_buf b) <? n then
    let* err := readErr in
    st_ret (br_buf b, match err with Some e => Some e | None => Some ErrBufferFull end)
  else st_ret (take (Z.to_nat n) (br_buf b), None).

(** The index of the first [c]. *)
Fixpoint IndexByte (l : bytes) (c : Z) : option nat :=
  match l with
  | [] => None
  | x :: l => if x =? c then Some 0%nat else S <$> IndexByte l c
  end.

(** [ReadSlice(delim)]: the line and the error. *)
Fixpoint ReadSlice_loop (fuel : nat) (delim : Z) : M (bytes * option (bufio_error E)) := fun b =>
  match IndexByte (br_buf b) delim with
  | Some i => (Ok (take (S i) (br_buf b), None), mkBufReader (br_rd b) (drop (S i) (br_buf b)) (br_err b))
  | None =>
      match br_err b with
      | Some e => (Ok (br_buf b, Some e), mkBufReader (br_rd b) [] None)
      | None =>
          if (defaultBufSize <=? length (br_buf b))%nat
          then (Ok (br_buf b, Some ErrBufferFull), mkBufReader (br_rd b) [] None)
          else
            match fuel with
            | O => (NoFuel, b)
            | S fuel => (fill ;;; ReadSlice_loop fuel delim) b
            end
      end
  end.
Definition ReadSlice (delim : Z) : M (bytes * option (bufio_error E)) := ReadSlice_loop (S defaultBufSize) delim.

(** [ReadLine()]: the line without its end, [isPrefix] and the error. *)
Definition ReadLine : M (bytes * bool * option (bufio_error E)) :=
  let* (line, err) := ReadSlice 10 in
  match err with
  | Some ErrBufferFull =>
      match rev line with
      | 13 :: l => fun b => (Ok (rev l, true, None), mkBufReader (br_rd b) (13 :: br_buf b) (br_err b))
      | _ => st_ret (line, true, None)
      end
  | _ =>
      match line with
      | [] => st_ret ([], false, err)
      | _ =>
          st_ret (match rev line with
                  | 10 :: 13 :: l => rev l
                  | 10 :: l => rev l
                  | _ => line
                  end, false, None)
      end
  end.

(** [ReadByte()], and the [UnreadByte()] that follows it. *)
Fixpoint ReadByte_loop (fuel : nat) : M (Z * option (bufio_error E)) := fun b =>
  match br_buf b with
  | c :: buf => (Ok (c, None), mkBufReader (br_rd b) buf (br_err b))
  | [] =>
      match br_err b with
      | Some _ => (let* e := readErr in st_ret (0, e)) b
      | None => match fuel with O => (NoFuel, b) | S fuel => (fill ;;; ReadByte_loop fuel) b end
      end
  end.
Definition ReadByte : M (Z * option (bufio_error E)) := ReadByte_loop 2.
Definition UnreadByte (c : Z) : M unit := fun b => (Ok tt, mkBufReader (br_rd b) (c :: br_buf b) (br_err b)).

(** [Read(p)]: the count, the error and [p] after the call. *)
Definition bufio_Read (p : bytes) : M (Z * option (bufio_error E) * bytes) := fun b =>
  let copy b :=
    let n := Nat.min (length p) (length (br_buf b)) in
    (Ok (Z.of_nat n, None, take n (br_buf b) ++ drop n p), mkBufReader (br_rd b) (drop n (br_buf b)) (br_err b)) in
  match p, br_buf b with
  | [], [] => (let* e := readErr in st_ret (0, e, p)) b
  | [], _ => (Ok (0, None, p), b)
  | _, [] =>
      match br_err b with
      | Some _ => (let* e := readErr in st_ret (0, e, p)) b
      | None =>
          let direct := (defaultBufSize <=? length p)%nat in
          let '(res, r) := Read (br_rd b) (if direct then p else replicate defaultBufSize 0) in
          if rd_n res <? 0 then (Panic "bufio: reader returned negative count from Read", b)
          else
            let err := match rd_err res with Some e => Some (IoErr e) | None => None end in
            if direct then (Ok (rd_n res, err, rd_buf res), mkBufReader r [] None)
            else if rd_n res =? 0 then (Ok (0, err, p), mkBufReader r [] None)
            else copy (mkBufReader r (take (Z.to_nat (rd_n res)) (rd_buf res)) err)
      end
  | _, _ => copy b
  end.

(** [io.ReadFull] of the standard library on a [bufio.Reader]: every [Read] gets
    the part of the buffer that is still free. *)
Fixpoint io_ReadFull_loop (fuel : nat) (n : Z) (buf : bytes) (done : bytes) : M (Z * option (bufio_error E) * bytes) :=
  match buf with
  | [] => st_ret (n, None, done)
  | _ =>
      match fuel with
      | O => st_lift NoFuel
      | S fuel =>
          let* (nn, err, buf) := bufio_Read buf in
          let n' := n + nn in
          let done' := done ++ take (Z.to_nat nn) buf in
          let buf' := drop (Z.to_nat nn) buf in
          match err with
          | None => io_ReadFull_loop fuel n' buf' done'
          | Some e =>
              st_ret (n', match buf' with
                          | [] => None
                          | _ => if (0 <? n') && match e with IoErr EOF => true | _ => false end then Some (IoErr ErrUnexpectedEOF) else Some e
                          end, done' ++ buf')
          end
      end
  end.
Definition io_ReadFull (fuel : nat) (buf : bytes) : M (Z * option (bufio_error E) * bytes) := io_ReadFull_loop fuel 0 buf [].

End BufReader.
Arguments bufReader R E : clear implicits.
