(* ===== verification/BufReaderProps.v ===== *)
(** * A [bufio.Reader] delivers what its source holds

    [Source] says that a reader delivers a byte string, in pieces of any size,
    and then [EOF]; everything that [bufio.Reader] returns is the next part of
    that string. *)
From S2P Require Import Prelude Io BufReader.

Local Open Scope Z_scope.
Local Open Scope go_scope.

Class Source (R E : Type) `{Reader R E} := {
  holds : R -> bytes -> Prop;
  source_eof : forall r p, holds r [] -> p <> [] -> exists r', Read r p = (mkRead 0 (Some EOF) p, r') /\ holds r' [];
  source_data : forall r s p, holds r s -> s <> [] -> p <> [] ->
    exists n r', (0 < n <= length s)%nat /\ (n <= length p)%nat /\
      Read r p = (mkRead (Z.of_nat n) None (take n s ++ drop n p), r') /\ holds r' (drop n s) }.

#[export] Instance stream_Source : Source stream Empty_set.
Proof.
  refine {| holds r s := unread r = s |}.
  - intros [s] p H Hp. cbn in H. subst s. by eexists.
  - intros [s] s' p H Hs Hp. cbn in H. subst s'. destruct s as [|x s]; [done|]. exists (Nat.min (length (x :: s)) (length p)).
    eexists. destruct p as [|y p]; [done|]. cbn [length]. split; [lia|]. split; [lia|]. split; [reflexivity|done].
Defined.

(** Pieces as they arrive, none of them empty. *)
#[export] Instance chunks_Source : Source chunks Empty_set.
Proof.
  refine {| holds r s := Forall (fun c => c <> []) r /\ concat r = s |}.
  - intros r p [Hr Hc] Hp. destruct r as [|c r]; [by eexists|]. apply Forall_cons_iff in Hr as [Hc0 _]. by destruct c.
  - intros r s p [Hr <-] Hs Hp. destruct r as [|c r]; [done|]. apply Forall_cons_iff in Hr as [Hc Hr].
    exists (Nat.min (length c) (length p)). cbn [concat]. set (n := Nat.min _ _).
    assert (0 < n)%nat by (destruct c, p; [done..|]; unfold n; cbn; lia).
    eexists. split; [rewrite length_app; lia|]. split; [lia|]. split.
    + unfold Read, chunks_Reader. fold n. rewrite take_app_le by lia. reflexivity.
    + rewrite drop_app_le by lia. destruct (decide (drop n c = [])) as [E|E]; [by rewrite E|]. split; [by constructor|done].
Defined.

Section BufReader.
Context {R E : Type} {RD : Reader R E} {SR : Source R E}.
Implicit Types (b : bufReader R E) (s : bytes).

Lemma buf_size : (32 < defaultBufSize)%nat.
Proof. unfold defaultBufSize. lia. Qed.

#[local] Opaque defaultBufSize.

Lemma replicate_ne {A} n (x : A) : (0 < n)%nat -> replicate n x <> [].
Proof. destruct n; [lia|done]. Qed.

(** A look at what is buffered changes nothing. *)
Lemma Peek_buffered n b : n <= len (br_buf b) -> exists p e, Peek n b = (Ok (p, e), b).
Proof.
  intros Hn. unfold Peek. assert (Peek_loop (S defaultBufSize) n b = (Ok tt, b)) as E1.
  { cbn [Peek_loop]. by rewrite (proj2 (Z.ltb_ge (len (br_buf b)) n)) by exact Hn. }
  rewrite (bind_ok _ _ _ _ _ E1). erewrite bind_ok by reflexivity.
  destruct (Z.of_nat defaultBufSize <? n); [do 2 eexists; reflexivity|]. rewrite (proj2 (Z.ltb_ge (len (br_buf b)) n)) by exact Hn. do 2 eexists. reflexivity.
Qed.

(** What is still to come from [b] is [s]. *)
Definition br_holds b s : Prop :=
  (length (br_buf b) <= defaultBufSize)%nat /\
  exists s', s = br_buf b ++ s' /\ holds (br_rd b) s' /\ (br_err b = None \/ br_err b = Some (IoErr EOF) /\ s' = []).

Lemma NewReader_holds r s : holds r s -> br_holds (bufio_NewReader r) s.
Proof. intros H. split; [apply Nat.le_0_l|]. exists s. split; [done|]. split; [done|]. by left. Qed.

Lemma IndexByte_found c l s : c ∉ l -> IndexByte (l ++ c :: s) c = Some (length l).
Proof.
  induction l as [|x l IH]; cbn [IndexByte app length]; [by rewrite Z.eqb_refl|]. intros [Hx Hl]%not_elem_of_cons.
  destruct (Z.eqb_spec x c); [done|]. by rewrite IH.
Qed.

Lemma IndexByte_none c l : c ∉ l -> IndexByte l c = None.
Proof.
  induction l as [|x l IH]; cbn [IndexByte]; [done|]. intros [Hx Hl]%not_elem_of_cons. destruct (Z.eqb_spec x c); [done|]. by rewrite IH.
Qed.

(** More of the source comes into the buffer. *)
Lemma fill_data b s s' : s = br_buf b ++ s' -> s' <> [] -> holds (br_rd b) s' -> br_err b = None -> (length (br_buf b) < defaultBufSize)%nat ->
  exists b' n, fill b = (Ok tt, b') /\ (0 < n <= length s')%nat /\ br_buf b' = br_buf b ++ take n s' /\ br_err b' = None /\
    holds (br_rd b') (drop n s') /\ (length (br_buf b') <= defaultBufSize)%nat.
Proof.
  intros -> Hs Hh He Hlen. unfold fill. rewrite (proj2 (Nat.leb_gt _ _)) by done. change maxConsecutiveEmptyReads with (S 99). generalize 99%nat. intros m. cbn [fill_loop].
  set (p := replicate _ 0). assert (p <> []) as Hp. { unfold p. apply replicate_ne. clear - Hlen. lia. }
  destruct (source_data _ _ p Hh Hs Hp) as (n & r' & Hn & Hnp & -> & Hh'). cbn [rd_n rd_err rd_buf].
  destruct (Z.ltb_spec (Z.of_nat n) 0); [lia|]. destruct (Z.ltb_spec 0 (Z.of_nat n)); [|lia].
  do 2 eexists. split; [reflexivity|]. split; [exact Hn|]. cbn [br_buf br_err br_rd]. rewrite Nat2Z.id, take_app_le by (rewrite length_take; lia).
  rewrite take_take, Nat.min_id. split; [done|]. split; [done|]. split; [done|]. unfold p in Hnp. rewrite length_replicate in Hnp.
  rewrite length_app, length_take. lia.
Qed.

(** The end of the source. *)
Lemma fill_eof b : holds (br_rd b) [] -> br_err b = None -> (length (br_buf b) < defaultBufSize)%nat ->
  exists b', fill b = (Ok tt, b') /\ br_buf b' = br_buf b /\ br_err b' = Some (IoErr EOF) /\ holds (br_rd b') [].
Proof.
  intros Hh He Hlen. unfold fill. rewrite (proj2 (Nat.leb_gt _ _)) by done. change maxConsecutiveEmptyReads with (S 99). generalize 99%nat. intros m. cbn [fill_loop].
  set (p := replicate _ 0). assert (p <> []) as Hp. { unfold p. apply replicate_ne. clear - Hlen. lia. }
  destruct (source_eof _ p Hh Hp) as (r' & -> & Hh'). cbn [rd_n rd_err rd_buf]. eexists. split; [reflexivity|].
  cbn [br_buf br_err br_rd]. by rewrite app_nil_r.
Qed.

(** [ReadSlice] returns: a line, or what is left, or a full buffer. *)
Lemma ReadSlice_total b s c : br_holds b s ->
  exists l e b' s', ReadSlice c b = (Ok (l, e), b') /\ s = l ++ s' /\ br_holds b' s' /\ (e = None -> l <> []).
Proof.
  unfold ReadSlice. assert (defaultBufSize - length (br_buf b) < S defaultBufSize)%nat as Hf by lia. revert Hf. generalize (S defaultBufSize). intros fuel.
  revert b. induction fuel as [|fuel IH]; intros b Hf; [lia|]. intros (Hlen & s' & -> & Hh & He). cbn [ReadSlice_loop].
  destruct (IndexByte (br_buf b) c) as [i|] eqn:Ei.
  { exists (take (S i) (br_buf b)), None. do 2 eexists. split; [reflexivity|]. cbn [br_buf br_rd br_err].
    rewrite <- (take_drop (S i) (br_buf b)) at 1. rewrite <- app_assoc. split; [reflexivity|]. split.
    - split; [cbn [br_buf]; rewrite length_drop; lia|]. by exists s'.
    - intros _. destruct (br_buf b); done. }
  destruct He as [He|[He ->]]; rewrite He.
  2: { do 4 eexists. split; [reflexivity|]. split; [reflexivity|]. split; [|done]. split; [apply Nat.le_0_l|]. exists []. split; [done|]. split; [done|]. by left. }
  destruct (Nat.leb_spec defaultBufSize (length (br_buf b))) as [Hge|Hlt].
  { do 4 eexists. split; [reflexivity|]. split; [reflexivity|]. split; [|done]. split; [apply Nat.le_0_l|]. exists s'. split; [done|]. split; [done|]. by left. }
  destruct (decide (s' = [])) as [->|Hs].
  - destruct (fill_eof b Hh He Hlt) as (b1 & E1 & Eb & Ee & Hh1). rewrite (bind_ok _ _ _ _ _ E1).
    destruct fuel as [|fuel]; [lia|]. cbn [ReadSlice_loop]. rewrite Eb, Ei, Ee. exists (br_buf b), (Some (IoErr EOF)). eexists. exists []. split; [reflexivity|].
    split; [done|]. split; [|done]. split; [apply Nat.le_0_l|]. exists []. split; [done|]. split; [done|]. by left.
  - destruct (fill_data b _ s' eq_refl Hs Hh He Hlt) as (b1 & n & E1 & Hn & Eb & Ee & Hh1 & Hlen1). rewrite (bind_ok _ _ _ _ _ E1).
    destruct (IH b1) as (l & e & b' & s2 & Er & Es & Hb' & Hl).
    + rewrite Eb, length_app, length_take. lia.
    + split; [done|]. exists (drop n s'). rewrite Eb, <- app_assoc, take_drop. split; [reflexivity|]. split; [done|]. by left.
    + by exists l, e, b', s2.
Qed.

(** A line that fits into the buffer is returned whole. *)
Lemma ReadSlice_line b l s : br_holds b (l ++ 10 :: s) -> 10 ∉ l -> (length l < defaultBufSize)%nat ->
  exists b', ReadSlice 10 b = (Ok (l ++ [10], None), b') /\ br_holds b' s.
Proof.
  unfold ReadSlice. assert (defaultBufSize - length (br_buf b) < S defaultBufSize)%nat as Hf by lia. revert Hf. generalize (S defaultBufSize). intros fuel.
  revert b. induction fuel as [|fuel IH]; intros b Hf; [lia|]. intros (Hlen & s' & Es & Hh & He) Hl Hll. cbn [ReadSlice_loop].
  destruct (decide (length l < length (br_buf b))%nat) as [Hlong|Hshort].
  - assert (br_buf b = l ++ 10 :: take (length (br_buf b) - S (length l)) s) as Eb.
    { apply (f_equal (take (length (br_buf b)))) in Es. rewrite take_app_length in Es. etrans; [symmetry; exact Es|]. rewrite take_app_ge by lia. f_equal.
      destruct (length (br_buf b) - length l)%nat as [|k] eqn:Ek; [lia|]. cbn [take]. do 2 f_equal. lia. }
    assert (IndexByte (br_buf b) 10 = Some (length l)) as -> by (rewrite Eb; by apply IndexByte_found).
    assert (take (S (length l)) (br_buf b) = l ++ [10]) as ->.
    { rewrite Eb, take_app_ge by lia. by replace (S (length l) - length l)%nat with 1%nat by lia. }
    eexists. split; [reflexivity|].
    split; [cbn [br_buf]; rewrite length_drop; lia|]. exists s'. cbn [br_buf br_rd br_err]. split; [|done].
    apply (f_equal (drop (S (length l)))) in Es. rewrite (drop_app_le _ s') in Es by lia. rewrite <- Es.
    rewrite (drop_app_ge l) by lia. by replace (S (length l) - length l)%nat with 1%nat by lia.
  - assert (IndexByte (br_buf b) 10 = None) as ->.
    { apply IndexByte_none. intros Hin. apply (f_equal (take (length (br_buf b)))) in Es. rewrite take_app_length, take_app_le in Es by lia.
      rewrite <- Es in Hin. apply Hl. eapply elem_of_subseteq; [|exact Hin]. apply subseteq_take || (intros x Hx; by apply elem_of_take in Hx as (? & ? & _)). }
    destruct He as [He|[He ->]].
    2: { apply (f_equal length) in Es. rewrite app_nil_r, length_app in Es. cbn in Es. lia. }
    rewrite He. destruct (Nat.leb_spec defaultBufSize (length (br_buf b))) as [Hge|Hlt]; [lia|].
    assert (s' <> []) as Hs by (intros ->; apply (f_equal length) in Es; rewrite app_nil_r, length_app in Es; cbn in Es; lia).
    destruct (fill_data b _ s' eq_refl Hs Hh He Hlt) as (b1 & n & E1 & Hn & Eb & Ee & Hh1 & Hlen1). rewrite (bind_ok _ _ _ _ _ E1).
    apply IH; [rewrite Eb, length_app, length_take; lia| |done|done].
    split; [done|]. exists (drop n s'). rewrite Es, Eb, <- app_assoc, take_drop. split; [done|]. split; [done|]. by left.
Qed.

(** ** [Read] *)

Lemma bufio_Read_data b s p : br_holds b s -> s <> [] -> p <> [] ->
  exists n b', (0 < n <= length s)%nat /\ (n <= length p)%nat /\
    bufio_Read p b = (Ok (Z.of_nat n, None, take n s ++ drop n p), b') /\ br_holds b' (drop n s).
Proof.
  intros (Hlen & s' & -> & Hh & He) Hs Hp. unfold bufio_Read. destruct p as [|x p]; [done|]. destruct (br_buf b) as [|y buf] eqn:Eb.
  - cbn [app] in *. destruct He as [He|[He ->]]; [|done]. rewrite He.
    destruct (Nat.leb_spec defaultBufSize (length (x :: p))) as [Hd|Hd].
    + destruct (source_data _ _ (x :: p) Hh Hs Hp) as (n & r' & Hn & Hnp & -> & Hh'). cbn [rd_n rd_err rd_buf].
      destruct (Z.ltb_spec (Z.of_nat n) 0); [lia|]. exists n. eexists. split; [done|]. split; [done|]. split; [reflexivity|].
      split; [apply Nat.le_0_l|]. exists (drop n s'). split; [done|]. split; [done|]. by left.
    + destruct (source_data _ _ (replicate defaultBufSize 0) Hh Hs ltac:(apply replicate_ne; cbn in Hd; lia)) as (n & r' & Hn & Hnp & -> & Hh').
      rewrite length_replicate in Hnp. cbn [rd_n rd_err rd_buf]. destruct (Z.ltb_spec (Z.of_nat n) 0); [lia|]. destruct (Z.eqb_spec (Z.of_nat n) 0); [lia|].
      rewrite Nat2Z.id, take_app_le, take_take, Nat.min_id by (rewrite length_take; lia). cbn [br_buf br_rd br_err].
      rewrite length_take, (Nat.min_l n (length s')) by lia. set (k := Nat.min (length (x :: p)) n). exists k. eexists.
      assert (0 < k <= n)%nat as Hk by (unfold k; cbn [length]; lia). split; [lia|]. split; [unfold k; lia|]. split.
      * rewrite take_take, Nat.min_l by lia. reflexivity.
      * split; [cbn [br_buf]; rewrite length_drop, length_take; lia|]. exists (drop n s'). cbn [br_buf br_rd br_err].
        split; [|by split; [|left]]. rewrite <- (take_drop n s') at 1. rewrite drop_app_le by (rewrite length_take; lia). done.
  - set (k := Nat.min _ _). exists k. eexists. assert (0 < k)%nat by (unfold k; cbn [length]; lia).
    assert (k <= length (y :: buf))%nat as Hk by (unfold k; lia). split; [rewrite length_app; lia|]. split; [unfold k; lia|].
    rewrite take_app_le by done. split; [reflexivity|]. split; [cbn [br_buf]; rewrite length_drop; lia|]. exists s'. cbn [br_buf br_rd br_err].
    rewrite drop_app_le by done. by split.
Qed.

Lemma bufio_Read_eof b p : br_holds b [] -> p <> [] -> exists b', bufio_Read p b = (Ok (0, Some (IoErr EOF), p), b') /\ br_holds b' [].
Proof.
  intros (Hlen & s' & Es & Hh & He) Hp. symmetry in Es. apply app_eq_nil in Es as [Eb ->]. unfold bufio_Read. rewrite Eb.
  assert (forall r, holds r [] -> br_holds (mkBufReader r [] None) []) as Hnil.
  { intros r Hr. split; [apply Nat.le_0_l|]. exists []. split; [done|]. split; [done|]. by left. }
  destruct p as [|x p]; [done|]. destruct He as [He|[He _]]; rewrite He.
  - destruct (Nat.leb_spec defaultBufSize (length (x :: p))) as [Hd|Hd].
    + destruct (source_eof _ (x :: p) Hh Hp) as (r' & -> & Hh'). cbn [rd_n rd_err rd_buf]. eexists. split; [reflexivity|]. by apply Hnil.
    + destruct (source_eof _ (replicate defaultBufSize 0) Hh ltac:(apply replicate_ne; cbn in Hd; lia)) as (r' & -> & Hh').
      cbn [rd_n rd_err rd_buf]. eexists. split; [reflexivity|]. by apply Hnil.
  - eexists. split; [unfold st_bind, readErr; rewrite He; reflexivity|]. rewrite Eb. by apply Hnil.
Qed.

(** [io.ReadFull]: the whole buffer when there is enough. *)
Lemma io_ReadFull_data t : forall fuel n done b s, br_holds b (t ++ s) -> (length t <= fuel)%nat ->
  forall buf, length buf = length t ->
  exists b', io_ReadFull_loop fuel n buf done b = (Ok (n + len t, None, done ++ t), b') /\ br_holds b' s.
Proof.
  intros fuel. revert t. induction fuel as [|fuel IH]; intros t n done b s Hb Hf buf Hl.
  - destruct t; [|cbn in Hf; lia]. destruct buf; [|done]. exists b. cbn. rewrite Z.add_0_r, app_nil_r. by split.
  - destruct buf as [|x buf].
    { destruct t; [|done]. exists b. cbn. rewrite Z.add_0_r, app_nil_r. by split. }
    cbn [io_ReadFull_loop]. assert (t <> []) as Ht by (by destruct t).
    destruct (bufio_Read_data b (t ++ s) (x :: buf) Hb) as (k & b1 & Hk & Hkp & Er & Hb1); [by destruct t|done|].
    rewrite (bind_ok _ _ _ _ _ Er). rewrite Hl in Hkp. rewrite take_app_le, drop_app_le in * by lia. rewrite Nat2Z.id.
    assert (length (take k t) = k) as Elk by (rewrite length_take; lia).
    assert (take k (take k t ++ drop k (x :: buf)) = take k t) as -> by (rewrite <- Elk at 1; apply take_app_length).
    assert (drop k (take k t ++ drop k (x :: buf)) = drop k (x :: buf)) as -> by (rewrite <- Elk at 1; apply drop_app_length).
    destruct (IH (drop k t) (n + Z.of_nat k) (done ++ take k t) b1 s Hb1) with (buf := drop k (x :: buf)) as (b' & E' & Hb').
    { rewrite length_drop. lia. }
    { rewrite !length_drop. lia. }
    exists b'. rewrite E'. split; [|done]. rewrite <- app_assoc, take_drop. assert (n + Z.of_nat k + len (drop k t) = n + len t) as -> by (unfold len; rewrite length_drop; lia). done.
Qed.


(** ** [Peek], [ReadByte], lines longer than the buffer *)

Lemma Peek_loop_ok fuel : forall b s n, br_holds b s -> (defaultBufSize - length (br_buf b) < fuel)%nat ->
  exists b', Peek_loop fuel n b = (Ok tt, b') /\ br_holds b' s /\ (n <= len (br_buf b') \/ br_buf b' = s \/ (defaultBufSize <= length (br_buf b'))%nat).
Proof.
  induction fuel as [|fuel IH]; intros b s n Hb Hf; [lia|]. cbn [Peek_loop].
  destruct Hb as (Hlen & s' & -> & Hh & He). assert (br_holds b (br_buf b ++ s')) as Hb by (split; [done|by exists s']).
  destruct (Z.ltb_spec (len (br_buf b)) n) as [Hn|Hn]; [|exists b; split; [done|split; [done|by left]]].
  destruct (Nat.ltb_spec (length (br_buf b)) defaultBufSize) as [Hlt|Hge]; [|exists b; split; [done|split; [done|right; by right]]].
  destruct He as [He|[He ->]]; rewrite He; cbn [andb]; [|exists b; split; [done|split; [done|right; left; by rewrite app_nil_r]]].
  destruct (decide (s' = [])) as [->|Hs].
  - destruct (fill_eof b Hh He Hlt) as (b1 & E1 & Eb & Ee & Hh1). rewrite (bind_ok _ _ _ _ _ E1). exists b1. split; [|split].
    + destruct fuel; cbn [Peek_loop]; rewrite Ee; by rewrite andb_false_r.
    + split; [by rewrite Eb|]. exists []. rewrite Eb. split; [done|]. split; [done|]. by right.
    + right. left. by rewrite Eb, app_nil_r.
  - destruct (fill_data b _ s' eq_refl Hs Hh He Hlt) as (b1 & k & E1 & Hk & Eb & Ee & Hh1 & Hlen1). rewrite (bind_ok _ _ _ _ _ E1).
    assert (br_holds b1 (br_buf b ++ s')) as Hb1.
    { split; [done|]. exists (drop k s'). rewrite Eb, <- app_assoc, take_drop. split; [done|]. split; [done|]. by left. }
    apply IH; [done|]. rewrite Eb, length_app, length_take. lia.
Qed.

(** [Peek] takes nothing; a single byte is seen when there is one. *)
Lemma Peek_ok n b s : br_holds b s ->
  exists p e b', Peek n b = (Ok (p, e), b') /\ br_holds b' s /\ (n = 1 -> match s with c :: _ => p = [c] /\ e = None | [] => e <> None end).
Proof.
  intros Hb. destruct (Peek_loop_ok (S defaultBufSize) b s n Hb) as (b1 & E1 & Hb1 & Hcase); [lia|]. unfold Peek. rewrite (bind_ok _ _ _ _ _ E1). erewrite bind_ok by reflexivity.
  pose proof buf_size as Hsize. destruct Hb1 as (Hlen & s' & -> & Hh & He). assert (forall e0, br_err b1 = e0 -> e0 = None \/ e0 = Some (IoErr EOF)) as Herr by (intros e0 <-; destruct He as [?|[? _]]; [by left|by right]).
  destruct (Z.ltb_spec (Z.of_nat defaultBufSize) n) as [Hbig|Hbig]; [|destruct (Z.ltb_spec (len (br_buf b1)) n) as [Hn|Hn]].
  - do 3 eexists. split; [reflexivity|]. split; [split; [done|by exists s']|]. intros ->. lia.
  - erewrite bind_ok by reflexivity. do 3 eexists. split; [reflexivity|]. split.
    + split; [done|]. exists s'. split; [done|]. split; [done|]. by left.
    + intros ->. assert (br_buf b1 = []) as Eb by (destruct (br_buf b1); [done|rewrite len_cons in Hn; pose proof (len_nonneg l); lia]).
      destruct Hcase as [Hc|[Hc|Hc]]; [lia| |rewrite Eb in Hc; cbn in Hc; lia]. rewrite Eb in *. cbn [app] in *. subst s'. by destruct (br_err b1).
  - do 3 eexists. split; [reflexivity|]. split; [split; [done|by exists s']|]. intros ->. destruct (br_buf b1) as [|c buf]; [done|]. by rewrite take_S_r || done.
Qed.

Lemma ReadByte_data b c s : br_holds b (c :: s) -> exists b', ReadByte b = (Ok (c, None), b') /\ br_holds b' s /\ (length (br_buf b') < defaultBufSize)%nat.
Proof.
  unfold ReadByte. intros (Hlen & s' & Es & Hh & He). cbn [ReadByte_loop]. destruct (br_buf b) as [|x buf] eqn:Eb.
  - cbn [app] in Es. subst s'. destruct He as [He|[_ ?]]; [|done]. rewrite He. pose proof buf_size.
    destruct (fill_data b (c :: s) (c :: s)) as (b1 & n & E1 & Hn & Eb1 & Ee1 & Hh1 & Hlen1); [by rewrite Eb|done|done|done|rewrite Eb; cbn; lia|].
    rewrite (bind_ok _ _ _ _ _ E1). cbn [ReadByte_loop]. rewrite Eb1, Eb. destruct n as [|n]; [lia|]. cbn [app take]. eexists. split; [reflexivity|]. cbn [br_buf].
    rewrite Eb1, Eb in Hlen1. cbn [app take length] in Hlen1. split; [|lia]. split; [cbn; lia|]. exists (drop n s). cbn [br_buf br_rd br_err]. rewrite take_drop. split; [done|]. split; [done|]. by left.
  - injection Es as <- ->. eexists. split; [reflexivity|]. cbn [length br_buf] in *. split; [|lia]. split; [cbn; lia|]. by exists s'.
Qed.
Lemma UnreadByte_ok b c s : br_holds b s -> (length (br_buf b) < defaultBufSize)%nat -> exists b', UnreadByte c b = (Ok tt, b') /\ br_holds b' (c :: s).
Proof. intros (_ & s' & -> & Hh & He) Hl. eexists. split; [reflexivity|]. split; [cbn; lia|]. by exists s'. Qed.

(** More than the buffer holds without a line end. *)
Lemma ReadSlice_full b s c : br_holds b s -> (defaultBufSize < length s)%nat -> c ∉ take defaultBufSize s ->
  exists b', ReadSlice c b = (Ok (take defaultBufSize s, Some ErrBufferFull), b') /\ br_holds b' (drop defaultBufSize s) /\ br_buf b' = [].
Proof.
  unfold ReadSlice. assert (defaultBufSize - length (br_buf b) < S defaultBufSize)%nat as Hf by lia. revert Hf. generalize (S defaultBufSize). intros fuel.
  revert b. induction fuel as [|fuel IH]; intros b Hf; [lia|]. intros (Hlen & s' & Es & Hh & He) Hs Hc. cbn [ReadSlice_loop].
  assert (take (length (br_buf b)) s = br_buf b) as Et by (rewrite Es; apply take_app_length).
  assert (IndexByte (br_buf b) c = None) as ->.
  { apply IndexByte_none. intros Hin. apply Hc. rewrite <- Et in Hin. apply elem_of_take in Hin as (i & Hi & Hlt). apply elem_of_take. exists i. split; [done|lia]. }
  destruct He as [He|[He ->]].
  2: { rewrite Es, app_nil_r in Hs. lia. }
  rewrite He. destruct (Nat.leb_spec defaultBufSize (length (br_buf b))) as [Hge|Hlt].
  - assert (length (br_buf b) = defaultBufSize) as El by lia. rewrite El in Et. rewrite Et. eexists. split; [reflexivity|]. split; [|done].
    split; [apply Nat.le_0_l|]. exists s'. split; [|split; [done|by left]]. cbn [br_buf app]. rewrite Es. by rewrite <- El, drop_app_length.
  - assert (s' <> []) as Hs' by (intros ->; rewrite Es, app_nil_r in Hs; lia).
    destruct (fill_data b _ s' eq_refl Hs' Hh He Hlt) as (b1 & k & E1 & Hk & Eb & Ee & Hh1 & Hlen1). rewrite (bind_ok _ _ _ _ _ E1).
    apply IH; [rewrite Eb, length_app, length_take; lia| |done|done]. split; [done|]. exists (drop k s'). rewrite Es, Eb, <- app_assoc, take_drop. split; [done|]. split; [done|]. by left.
Qed.

(** What is left when the source ends before the delimiter. *)
Lemma ReadSlice_end b s c : br_holds b s -> c ∉ s -> (length s < defaultBufSize)%nat ->
  exists b', ReadSlice c b = (Ok (s, Some (IoErr EOF)), b') /\ br_holds b' [].
Proof.
  unfold ReadSlice. assert (defaultBufSize - length (br_buf b) < S defaultBufSize)%nat as Hf by lia. revert Hf. generalize (S defaultBufSize). intros fuel.
  revert b. induction fuel as [|fuel IH]; intros b Hf; [lia|]. intros (Hlen & s' & Es & Hh & He) Hc Hs. cbn [ReadSlice_loop].
  assert (IndexByte (br_buf b) c = None) as Hnone by (apply IndexByte_none; intros Hin; apply Hc; rewrite Es; apply elem_of_app; by left). rewrite Hnone.
  assert (forall r, holds r [] -> br_holds (mkBufReader r [] None) []) as Hnil.
  { intros r Hr. split; [apply Nat.le_0_l|]. exists []. split; [done|]. split; [done|]. by left. }
  destruct He as [He|[He ->]]; rewrite He.
  2: { rewrite app_nil_r in Es. rewrite Es. eexists. split; [reflexivity|]. by apply Hnil. }
  assert (length (br_buf b) < defaultBufSize)%nat as Hlt by (apply (f_equal length) in Es; rewrite length_app in Es; lia).
  destruct (Nat.leb_spec defaultBufSize (length (br_buf b))) as [|_]; [lia|]. destruct (decide (s' = [])) as [->|Hs'].
  - destruct (fill_eof b Hh He Hlt) as (b1 & E1 & Eb & Ee & Hh1). rewrite (bind_ok _ _ _ _ _ E1). destruct fuel as [|fuel]; [lia|]. cbn [ReadSlice_loop].
    rewrite Eb, Hnone, Ee. rewrite app_nil_r in Es. rewrite Es. eexists. split; [reflexivity|]. by apply Hnil.
  - destruct (fill_data b _ s' eq_refl Hs' Hh He Hlt) as (b1 & k & E1 & Hk & Eb & Ee & Hh1 & Hlen1). rewrite (bind_ok _ _ _ _ _ E1).
    apply IH; [rewrite Eb, length_app, length_take; lia| |done|done]. split; [done|]. exists (drop k s'). rewrite Es, Eb, <- app_assoc, take_drop. split; [done|]. split; [done|]. by left.
Qed.

(** ** [ReadLine] *)

(** A line that ends in CR LF comes whole, or its next part does. *)
Lemma ReadLine_ok b l s : br_holds b (l ++ [13; 10] ++ s) -> 10 ∉ l ->
  (exists b', ReadLine b = (Ok (l, false, None), b') /\ br_holds b' s) \/
  exists l1 l2 b', l = l1 ++ l2 /\ l1 <> [] /\ ReadLine b = (Ok (l1, true, None), b') /\ br_holds b' (l2 ++ [13; 10] ++ s).
Proof.
  intros Hb Hl. pose proof buf_size as Hsize. unfold ReadLine. destruct (decide (length l + 1 < defaultBufSize)%nat) as [Hshort|Hlong].
  - left. destruct (ReadSlice_line b (l ++ [13]) s) as (b' & Er & Hb'); [by rewrite <- app_assoc|by intros [?|?%list_elem_of_singleton]%elem_of_app|rewrite length_app; cbn; lia|].
    exists b'. split; [|done]. rewrite (bind_ok _ _ _ _ _ Er). rewrite <- app_assoc. cbn [app]. rewrite rev_app_distr. cbn [rev app].
    destruct (l ++ [13; 10]) eqn:El2; [by destruct l|]. by rewrite rev_involutive.
  - right. set (n := defaultBufSize) in *. assert (10 ∉ take n (l ++ [13; 10] ++ s)) as Hn.
    { intros Hin. assert (take n (l ++ [13; 10] ++ s) = take n (l ++ [13])) as Et.
      { rewrite (app_assoc l [13] (10 :: s) : l ++ [13; 10] ++ s = (l ++ [13]) ++ 10 :: s). apply take_app_le. rewrite length_app. cbn. lia. }
      rewrite Et in Hin. apply elem_of_take in Hin as (i & Hi & _). apply list_elem_of_lookup_2 in Hi. by apply elem_of_app in Hi as [?|?%list_elem_of_singleton]. }
    destruct (ReadSlice_full b (l ++ [13; 10] ++ s) 10 Hb) as (b' & Er & Hb' & Eb); [rewrite !length_app; cbn; lia|done|]. rewrite (bind_ok _ _ _ _ _ Er). fold n in Er, Hb' |- *.
    destruct (decide (n <= length l)%nat) as [Hle|Hgt].
    + rewrite (take_app_le l) in * by done. rewrite (drop_app_le l) in Hb' by done. destruct (rev (take n l)) as [|c r] eqn:Erev.
      { apply (f_equal length) in Erev. rewrite length_rev, length_take in Erev. cbn in Erev. lia. }
      assert (take n l = rev r ++ [c]) as Et by (rewrite <- (rev_involutive (take n l)), Erev; done).
      destruct (Z.eq_dec c 13) as [->|Hc].
      * exists (rev r), (13 :: drop n l), (mkBufReader (br_rd b') (13 :: br_buf b') (br_err b')). split; [|split; [|split; [reflexivity|]]].
        -- rewrite <- (take_drop n l) at 1. by rewrite Et, <- app_assoc.
        -- intros Ez. apply (f_equal length) in Et. rewrite Ez, length_take in Et. cbn in Et. lia.
        -- destruct Hb' as (_ & s' & E' & Hh & He). split; [rewrite Eb; cbn; lia|]. exists s'. split; [|done]. cbn [br_buf app]. rewrite <- E'. done.
      * exists (take n l), (drop n l), b'. split; [by rewrite take_drop|]. split; [|split; [|done]].
        -- intros Ez. apply (f_equal length) in Ez. rewrite length_take in Ez. cbn in Ez. lia.
        -- clear - Hc. repeat (destruct c as [|c|c]; try done).
    + assert (n = S (length l)) as En by lia. assert (take n (l ++ [13; 10] ++ s) = l ++ [13]) as Et.
      { rewrite (app_assoc l [13] (10 :: s) : l ++ [13; 10] ++ s = (l ++ [13]) ++ 10 :: s). rewrite take_app_le by (rewrite length_app; cbn; lia). apply take_ge. rewrite length_app. cbn. lia. }
      assert (drop n (l ++ [13; 10] ++ s) = 10 :: s) as Ed.
      { rewrite drop_app_ge by lia. by replace (n - length l)%nat with 1%nat by lia. }
      rewrite Et in *. rewrite Ed in Hb'. rewrite rev_app_distr. cbn [rev app].
      exists l, [], (mkBufReader (br_rd b') (13 :: br_buf b') (br_err b')). split; [by rewrite app_nil_r|]. split; [intros ->; cbn in *; lia|].
      split; [by rewrite rev_involutive|]. destruct Hb' as (_ & s' & E' & Hh & He). split; [rewrite Eb; cbn; lia|]. exists s'. split; [|done]. cbn [br_buf app]. by rewrite <- E'.
Qed.
End BufReader.
