(* ===== verification/Chunked.v ===== *)
(** * Chunked transfer coding

    [src/http/http/internal/chunked.go]: the reader over a [bufio.Reader] and
    the writer.  A [Read] call gets the contents of the user's buffer and gives
    back the count, the error and the contents after the call. *)
From S2P Require Import Prelude Io BufReader.

Local Open Scope Z_scope.
Local Open Scope go_scope.

Definition maxLineLength : Z := 4096.

Inductive chunk_error (E : Type) : Type :=
  | BufErr (e : bufio_error E)
  | ErrLineTooLong
  | MalformedEncoding
  | InvalidLengthByte
  | LengthTooLarge.
Arguments BufErr {E} e.
Arguments ErrLineTooLong {E}.
Arguments MalformedEncoding {E}.
Arguments InvalidLengthByte {E}.
Arguments LengthTooLarge {E}.

#[export] Instance chunk_error_eq_dec {E} `{EqDecision E} : EqDecision (chunk_error E).
Proof. solve_decision. Defined.

(** ** Lines *)

Definition isASCIISpace (b : Z) : bool := (b =? 32) || (b =? 9) || (b =? 10) || (b =? 13).

(** The loop looks at the last byte: [rev b] is consumed from its head. *)
Fixpoint trim_loop (rb : bytes) : bytes :=
  match rb with
  | b :: rb' => if isASCIISpace b then trim_loop rb' else rb
  | [] => []
  end.
Definition trimTrailingWhitespace (b : bytes) : bytes := rev (trim_loop (rev b)).

(** [bytes.Cut(p, ";")], the part before. *)
Fixpoint cut_before (c : Z) (p : bytes) : bytes :=
  match p with
  | [] => []
  | b :: p => if b =? c then [] else b :: cut_before c p
  end.
Definition removeChunkExtension (p : bytes) : bytes := cut_before 59 p.

(** [b] as a nibble. *)
Definition hex_nibble (b : Z) : option Z :=
  if (48 <=? b) && (b <=? 57) then Some (b - 48)
  else if (97 <=? b) && (b <=? 102) then Some (b - 97 + 10)
  else if (65 <=? b) && (b <=? 70) then Some (b - 65 + 10)
  else None.

(** The loop of [parseHexUint] from index [i] on. *)
Fixpoint parseHexUint_loop {E} (i : nat) (v : bytes) (n : Z) : res (chunk_error E) Z :=
  match v with
  | [] => Ok n
  | b :: v =>
      match hex_nibble b with
      | None => Err InvalidLengthByte
      | Some b => if (i =? 16)%nat then Err LengthTooLarge else parseHexUint_loop (S i) v (Z.lor (u64 (Z.shiftl n 4)) b)
      end
  end.
Definition parseHexUint {E} (v : bytes) : res (chunk_error E) Z := parseHexUint_loop 0 v 0.

Section Chunked.
Context {R E : Type} {RD : Reader R E}.

(** [b.ReadSlice('\n')] and what is made of the line. *)
Definition readChunkLine : stateful (bufReader R E) Empty_set (bytes + chunk_error E) :=
  let* (p, err) := ReadSlice 10 in
  match err with
  | Some (IoErr EOF) => st_ret (inr (BufErr (IoErr ErrUnexpectedEOF)))
  | Some ErrBufferFull => st_ret (inr ErrLineTooLong)
  | Some e => st_ret (inr (BufErr e))
  | None =>
      if maxLineLength <=? len p then st_ret (inr ErrLineTooLong)
      else st_ret (inl (removeChunkExtension (trimTrailingWhitespace p)))
  end.

Record chunkedReader : Type := mkChunkedReader {
  cr_r : bufReader R E;
  cr_n : Z;
  cr_err : option (chunk_error E);
  cr_buf : bytes;
  checkEnd : bool }.
Definition set_cr_r (v : bufReader R E) (c : chunkedReader) : chunkedReader := mkChunkedReader v (cr_n c) (cr_err c) (cr_buf c) (checkEnd c).
Definition set_cr_n (v : Z) (c : chunkedReader) : chunkedReader := mkChunkedReader (cr_r c) v (cr_err c) (cr_buf c) (checkEnd c).
Definition set_cr_err (v : option (chunk_error E)) (c : chunkedReader) : chunkedReader := mkChunkedReader (cr_r c) (cr_n c) v (cr_buf c) (checkEnd c).
Definition set_cr_buf (v : bytes) (c : chunkedReader) : chunkedReader := mkChunkedReader (cr_r c) (cr_n c) (cr_err c) v (checkEnd c).
Definition set_checkEnd (v : bool) (c : chunkedReader) : chunkedReader := mkChunkedReader (cr_r c) (cr_n c) (cr_err c) (cr_buf c) v.

#[local] Abbreviation M := (stateful chunkedReader Empty_set).

(** The [io.Reader] a caller passes: a [*bufio.Reader], or another one. *)
Inductive ioReader : Type := isBufio (br : bufReader R E) | notBufio (r : R).

(** [br, ok := r.( *bufio.Reader)] *)
Definition NewChunkedReader (r : ioReader) : chunkedReader :=
  let br := match r with isBufio br => br | notBufio r => bufio_NewReader r end in
  mkChunkedReader br 0 None [0; 0] false.

Definition on_r {A} (m : stateful (bufReader R E) Empty_set A) : M A :=
  fun c => let '(x, b) := m (cr_r c) in (x, set_cr_r b c).

Definition beginChunk : M unit :=
  let* line := on_r readChunkLine in
  match line with
  | inr e => st_mod (set_cr_err (Some e))
  | inl line =>
      match parseHexUint line with
      | Ok n =>
          st_mod (set_cr_n n) ;;; st_mod (set_cr_err None) ;;;
          if n =? 0 then st_mod (set_cr_err (Some (BufErr (IoErr EOF)))) else st_ret tt
      | Err e => st_mod (set_cr_n 0) ;;; st_mod (set_cr_err (Some e))
      | Panic s => st_lift (Panic s)
      | NoFuel => st_lift NoFuel
      end
  end.

Definition chunkHeaderAvailable : M bool :=
  let* n := on_r Buffered in
  if 0 <? n then let* (peek, _) := on_r (Peek n) in st_ret (match IndexByte peek 10 with Some _ => true | None => false end)
  else st_ret false.

(** What the loop does before data can be read: [true] is [break]. *)
Definition check_footer (n : Z) : M bool :=
  let* c := st_get in
  if checkEnd c then
    let* k := on_r Buffered in
    if (0 <? n) && (k <? 2) then st_ret true
    else
      let* (_, err, buf) := on_r (io_ReadFull 3 (cr_buf c)) in
      st_mod (set_cr_buf buf) ;;;
      match err with
      | None =>
          if bool_decide (buf = [13; 10]) then st_mod (set_checkEnd false) ;;; st_ret false
          else st_mod (set_cr_err (Some MalformedEncoding)) ;;; st_ret true
      | Some _ =>
          let* c := st_get in
          (match cr_err c with Some (BufErr (IoErr EOF)) => st_mod (set_cr_err (Some (BufErr (IoErr ErrUnexpectedEOF)))) | _ => st_ret tt end) ;;;
          st_ret true
      end
  else st_ret false.

(** The loop of [Read]: [done] is what was read into the user's buffer, [b] the
    rest of it. *)
Fixpoint Read_loop (fuel : nat) (done b : bytes) : M (Z * option (chunk_error E) * bytes) :=
  let result : M (Z * option (chunk_error E) * bytes) :=
    let* c := st_get in
    st_ret (len done, cr_err c, done ++ b) in
  let* c := st_get in
  match cr_err c with
  | Some _ => result
  | None =>
      match fuel with
      | O => st_lift NoFuel
      | S fuel =>
          let* stop := check_footer (len done) in
          if stop : bool then result
          else
            let* c := st_get in
            if cr_n c =? 0 then
              let* wait := (if 0 <? len done then let* a := chunkHeaderAvailable in st_ret (negb a) else st_ret false) in
              if wait : bool then result else beginChunk ;;; Read_loop fuel done b
            else
              match b with
              | [] => result
              | _ =>
                  let k := if cr_n c <? len b then Z.to_nat (cr_n c) else length b in
                  let* (n0, err, rbuf) := on_r (bufio_Read (take k b)) in
                  let b := rbuf ++ drop k b in
                  let done := done ++ take (Z.to_nat n0) b in
                  let b := drop (Z.to_nat n0) b in
                  st_mod (set_cr_n (u64 (cr_n c - n0))) ;;;
                  st_mod (set_cr_err (option_map BufErr err)) ;;;
                  (if (u64 (cr_n c - n0) =? 0) && match err with None => true | Some _ => false end then st_mod (set_checkEnd true)
                   else if match err with Some (IoErr EOF) => true | _ => false end
                   then st_mod (set_cr_err (Some (BufErr (IoErr ErrUnexpectedEOF))))
                   else st_ret tt) ;;;
                  Read_loop fuel done b
              end
      end
  end.

Definition chunked_Read (fuel : nat) (b : bytes) : M (Z * option (chunk_error E) * bytes) := Read_loop fuel [] b.

End Chunked.
Arguments chunkedReader R E : clear implicits.
Arguments ioReader R E : clear implicits.

(** ** The writer *)

(** [fmt]'s verb [%x] of a count. *)
Definition hex_digit (d : Z) : Z := if d <? 10 then d + 48 else d - 10 + 97.
Fixpoint hex_digits (fuel : nat) (n : Z) (acc : bytes) : bytes :=
  match fuel with
  | O => acc
  | S fuel => let acc := hex_digit (n mod 16) :: acc in if n / 16 =? 0 then acc else hex_digits fuel (n / 16) acc
  end.
Definition format_hex (n : Z) : bytes := hex_digits 16 n [].

Section Writer.
Context {W E : Type} {WR : Writer W E}.
(** The [Flush] of the writer, when it is a [FlushAfterChunkWriter]. *)
Variable flush : option (W -> option (io_error E) * W).

Definition io_WriteString (s : bytes) : stateful W Empty_set (option (io_error E)) :=
  fun w => let '((_, err), w) := WriteTo w s in (Ok err, w).

Definition chunkedWriter_Write (data : bytes) : stateful W Empty_set (Z * option (io_error E)) :=
  match data with
  | [] => st_ret (0, None)
  | _ =>
      let* err := io_WriteString (format_hex (len data) ++ [13; 10]) in
      match err with
      | Some e => st_ret (0, Some e)
      | None =>
          let* (n, err) := (fun w => let '(r, w) := WriteTo w data in (Ok r, w)) in
          match err with
          | Some e => st_ret (n, Some e)
          | None =>
              if negb (n =? len data) then st_ret (n, Some ErrShortWrite)
              else
                let* err := io_WriteString [13; 10] in
                match err with
                | Some e => st_ret (n, Some e)
                | None =>
                    match flush with
                    | Some f => let* err := (fun w => let '(err, w) := f w in (Ok err, w)) in st_ret (n, err)
                    | None => st_ret (n, None)
                    end
                end
          end
      end
  end.

Definition chunkedWriter_Close : stateful W Empty_set (option (io_error E)) := io_WriteString (str "0" ++ [13; 10]).

End Writer.
