(* ===== verification/ChunkedProps.v ===== *)
(** * Chunked bodies round trip

    What [chunkedWriter] writes, a [chunkedReader] delivers unchanged, however
    the bytes arrive and whatever buffers the user passes; on any input at all
    a [Read] returns. *)
From S2P Require Import Prelude Io BufferedWriter BufReader BufReaderProps Chunked.

Local Open Scope Z_scope.
Local Open Scope go_scope.

#[local] Opaque defaultBufSize.

(** ** Hexadecimal numbers *)

Definition is_hex (b : Z) : Prop := is_Some (hex_nibble b).
(** The value of hexadecimal digits after [n]. *)
Fixpoint hex_value (n : Z) (v : bytes) : Z :=
  match v with [] => n | b :: v => hex_value (n * 16 + default 0 (hex_nibble b)) v end.

Lemma nibble_range b d : hex_nibble b = Some d -> 0 <= d < 16.
Proof. unfold hex_nibble. repeat case_match; intros; simplify_eq; bool_to_Prop; lia. Qed.

Lemma hex_value_bound v : forall n, 0 <= n -> n * 16 ^ len v <= hex_value n v < (n + 1) * 16 ^ len v.
Proof.
  induction v as [|b v IH]; intros n Hn; cbn [hex_value]; [unfold len; cbn; lia|].
  assert (0 <= default 0 (hex_nibble b) < 16) as Hd by (destruct (hex_nibble b) eqn:Hb; [by eapply nibble_range|cbn; lia]).
  specialize (IH (n * 16 + default 0 (hex_nibble b)) ltac:(lia)). rewrite len_cons, Z.pow_add_r by (pose proof (len_nonneg v); lia).
  pose proof (Z.pow_pos_nonneg 16 (len v) ltac:(lia) (len_nonneg v)). set (d := default 0 _) in *. clearbody d. nia.
Qed.

(** Shifting a nibble in below 2^60. *)
Lemma shift_nibble n d : 0 <= n < 2 ^ 60 -> 0 <= d < 16 -> Z.lor (u64 (Z.shiftl n 4)) d = n * 16 + d.
Proof.
  intros Hn Hd. rewrite Z.shiftl_mul_pow2 by lia. rewrite u64_small by lia. by apply lor_disjoint.
Qed.

(** [parseHexUint] returns the value of at most 16 hexadecimal digits, and an
    error for everything else. *)
Lemma parse_loop {E} v : forall i n, (i + length v <= 16)%nat -> 0 <= n < 16 ^ Z.of_nat i -> Forall is_hex v ->
  @parseHexUint_loop E i v n = Ok (hex_value n v).
Proof.
  induction v as [|b v IH]; intros i n Hi Hn Hv; cbn [parseHexUint_loop hex_value]; [done|].
  apply Forall_cons_iff in Hv as [[d Hd] Hv]. rewrite Hd. change (default 0 (Some d)) with d. cbn [length] in Hi. destruct (Nat.eqb_spec i 16); [lia|].
  pose proof (nibble_range _ _ Hd) as Hr.
  assert (n < 2 ^ 60) as Hb.
  { change (2 ^ 60) with (16 ^ 15). pose proof (Z.pow_le_mono_r 16 (Z.of_nat i) 15 ltac:(lia) ltac:(lia)). lia. }
  rewrite shift_nibble by lia. apply IH; [lia| |done].
  rewrite Nat2Z.inj_succ, Z.pow_succ_r by lia. lia.
Qed.

Lemma parse_loop_err {E} v : forall i n, (i <= 16)%nat -> ~ (Forall is_hex v /\ (i + length v <= 16)%nat) ->
  exists e, @parseHexUint_loop E i v n = Err e.
Proof.
  induction v as [|b v IH]; intros i n Hi H; cbn [parseHexUint_loop].
  - exfalso. apply H. split; [constructor|cbn; lia].
  - destruct (hex_nibble b) as [d|] eqn:Hd; [|by eexists]. destruct (Nat.eqb_spec i 16); [by eexists|].
    apply IH; [lia|]. intros [Hv Hl]. apply H. split; [constructor; [by eexists|done]|cbn [length]; lia].
Qed.

(** The digits of [%x]. *)
Lemma hex_digit_ok d : 0 <= d < 16 -> hex_nibble (hex_digit d) = Some d /\ hex_digit d <> 10 /\ hex_digit d <> 59 /\ isASCIISpace (hex_digit d) = false.
Proof.
  intros Hd. assert (forallb (fun d => match hex_nibble (hex_digit d) with Some e => (e =? d) && negb (hex_digit d =? 10) && negb (hex_digit d =? 59) && negb (isASCIISpace (hex_digit d)) | None => false end)
    (map Z.of_nat (seq 0 16)) = true) as H by (vm_compute; reflexivity).
  rewrite forallb_forall in H. specialize (H d ltac:(apply in_map_iff; exists (Z.to_nat d); rewrite in_seq; lia)).
  destruct (hex_nibble (hex_digit d)) as [e|]; [|done]. bool_to_Prop. subst e. done.
Qed.

Definition hex_char (b : Z) : Prop := is_hex b /\ b <> 10 /\ b <> 59 /\ isASCIISpace b = false.

Lemma hex_value_app v1 v2 n : hex_value n (v1 ++ v2) = hex_value (hex_value n v1) v2.
Proof. revert n. induction v1; intros n; cbn [hex_value app]; [done|]. auto. Qed.

Lemma hex_digits_ok fuel : forall n acc, 0 <= n < 16 ^ Z.of_nat fuel -> (0 < fuel)%nat ->
  exists v, hex_digits fuel n acc = v ++ acc /\ Forall hex_char v /\ v <> [] /\ (length v <= fuel)%nat /\ hex_value 0 v = n.
Proof.
  induction fuel as [|fuel IH]; intros n acc Hn Hf; [lia|]. cbn [hex_digits].
  pose proof (Z.div_mod n 16 ltac:(lia)) as Hdm. pose proof (Z.mod_pos_bound n 16 ltac:(lia)) as Hm.
  destruct (hex_digit_ok (n mod 16) Hm) as (Hnib & H10 & H59 & Hsp).
  assert (hex_char (hex_digit (n mod 16))) as Hc by (split; [by eexists|done]).
  assert (forall k, hex_value k [hex_digit (n mod 16)] = k * 16 + n mod 16) as Hval by (intros k; cbn [hex_value]; by rewrite Hnib).
  destruct (Z.eqb_spec (n / 16) 0) as [H0|H0].
  - exists [hex_digit (n mod 16)]. split; [done|]. split; [by constructor|]. split; [done|]. split; [cbn; lia|]. rewrite Hval. lia.
  - rewrite Nat2Z.inj_succ, Z.pow_succ_r in Hn by lia. pose proof (Z.div_pos n 16 ltac:(lia) ltac:(lia)).
    destruct (IH (n / 16) (hex_digit (n mod 16) :: acc)) as (v & -> & Hv & Hne & Hl & Hval').
    + split; [lia|]. apply Z.div_lt_upper_bound; lia.
    + destruct fuel; [|lia]. cbn in Hn. exfalso. apply H0. apply Z.div_small. lia.
    + exists (v ++ [hex_digit (n mod 16)]). rewrite <- app_assoc. split; [done|]. split; [apply Forall_app; split; [done|by constructor]|].
      split; [by destruct v|]. split; [rewrite length_app; cbn; lia|]. rewrite hex_value_app, Hval', Hval. lia.
Qed.

Lemma format_hex_ok n : 0 <= n < 2 ^ 64 ->
  Forall hex_char (format_hex n) /\ format_hex n <> [] /\ (length (format_hex n) <= 16)%nat /\ hex_value 0 (format_hex n) = n.
Proof.
  intros Hn. destruct (hex_digits_ok 16 n []) as (v & E & H); [by change (16 ^ Z.of_nat 16) with (2 ^ 64)|lia|].
  unfold format_hex. rewrite E, app_nil_r. done.
Qed.

(** ** Lines *)

Lemma cut_none c p : c ∉ p -> cut_before c p = p.
Proof.
  induction p as [|b p IH]; cbn [cut_before]; [done|]. intros [Hb Hp]%not_elem_of_cons. destruct (Z.eqb_spec b c); [done|]. by rewrite IH.
Qed.

Lemma trim_line v : v <> [] -> Forall hex_char v -> trimTrailingWhitespace (v ++ [13; 10]) = v.
Proof.
  intros Hne Hv. unfold trimTrailingWhitespace. rewrite rev_app_distr. cbn [rev app trim_loop isASCIISpace]. 
  destruct (rev v) as [|x r] eqn:Er.
  { apply (f_equal (@rev Z)) in Er. by rewrite rev_involutive in Er. }
  cbn. assert (hex_char x) as (_ & _ & _ & Hx).
  { rewrite Forall_forall in Hv. apply Hv. rewrite <- (rev_involutive v), Er. cbn [rev]. apply in_app_iff. right. by left. }
  rewrite Hx, <- Er. apply rev_involutive.
Qed.

Section Chunked.
Context {R E : Type} {RD : Reader R E} {SR : Source R E}.
Implicit Types c : chunkedReader R E.

Lemma readChunkLine_ok b v s : v <> [] -> Forall hex_char v -> (length v <= 16)%nat -> br_holds b (v ++ [13; 10] ++ s) ->
  exists b', readChunkLine b = (Ok (inl v), b') /\ br_holds b' s.
Proof.
  intros Hne Hv Hl Hb. pose proof buf_size as Hsize.
  destruct (ReadSlice_line b (v ++ [13]) s) as (b' & Er & Hb').
  - by rewrite <- app_assoc.
  - intros [Hin|Hin]%elem_of_app; [|by apply list_elem_of_singleton in Hin]. rewrite Forall_forall in Hv. apply list_elem_of_In in Hin. by destruct (Hv 10 Hin) as (_ & ? & _).
  - rewrite length_app. cbn. lia.
  - exists b'. split; [|done]. unfold readChunkLine. rewrite (bind_ok _ _ _ _ _ Er). rewrite <- app_assoc. cbn [app].
    destruct (Z.leb_spec maxLineLength (len (v ++ [13; 10]))) as [Hbig|_]; [unfold maxLineLength in Hbig; rewrite len_app in Hbig; unfold len in Hbig; cbn in Hbig; lia|].
    rewrite trim_line by done. unfold removeChunkExtension. rewrite cut_none; [done|]. intros Hin. rewrite Forall_forall in Hv. apply list_elem_of_In in Hin. by destruct (Hv 59 Hin) as (_ & _ & ? & _).
Qed.

(** ** Encoded bodies *)

Definition chunk (d : bytes) : bytes := format_hex (len d) ++ [13; 10] ++ d ++ [13; 10].
Definition encode (ds : list bytes) : bytes := concat (map chunk ds).
Definition ending : bytes := [48; 13; 10].
Definition good_chunk (d : bytes) : Prop := d <> [] /\ len d < 2 ^ 63.

(** The reader has still to deliver [d], and will then stop before [rest]. *)
Inductive decoding (rest : bytes) : chunkedReader R E -> bytes -> Prop :=
  | in_chunk c d ds : cr_err c = None -> checkEnd c = false -> cr_n c = len d -> good_chunk d -> Forall good_chunk ds -> length (cr_buf c) = 2%nat ->
      br_holds (cr_r c) (d ++ [13; 10] ++ encode ds ++ ending ++ rest) -> decoding rest c (d ++ concat ds)
  | at_footer c ds : cr_err c = None -> checkEnd c = true -> cr_n c = 0 -> Forall good_chunk ds -> length (cr_buf c) = 2%nat ->
      br_holds (cr_r c) ([13; 10] ++ encode ds ++ ending ++ rest) -> decoding rest c (concat ds)
  | at_header c ds : cr_err c = None -> checkEnd c = false -> cr_n c = 0 -> Forall good_chunk ds -> length (cr_buf c) = 2%nat ->
      br_holds (cr_r c) (encode ds ++ ending ++ rest) -> decoding rest c (concat ds).

Definition finished (rest : bytes) c : Prop := cr_err c = Some (BufErr (IoErr EOF)) /\ br_holds (cr_r c) rest.

Lemma on_r_ok {A} (m : stateful (bufReader R E) Empty_set A) c r b' : m (cr_r c) = (r, b') -> on_r m c = (r, set_cr_r b' c).
Proof. intros Er. unfold on_r. by rewrite Er. Qed.

(** The header of the next chunk, or of the end. *)
Lemma beginChunk_ok c ds rest : cr_err c = None -> checkEnd c = false -> Forall good_chunk ds -> length (cr_buf c) = 2%nat ->
  br_holds (cr_r c) (encode ds ++ ending ++ rest) ->
  exists c', beginChunk c = (Ok tt, c') /\
    (ds = [] /\ finished rest c' \/ exists d ds', ds = d :: ds' /\ decoding rest c' (concat ds) /\ cr_n c' = len d /\ cr_err c' = None).
Proof.
  intros He Hce Hds Hl2 Hb. unfold beginChunk. destruct ds as [|d ds].
  - destruct (readChunkLine_ok (cr_r c) [48] rest) as (b' & Er & Hb'); [done| |cbn; lia|exact Hb|].
    { constructor; [|done]. split; [by vm_compute; eexists|]. by vm_compute. }
    rewrite (bind_ok _ _ _ _ _ (on_r_ok _ _ _ _ Er)). eexists. split; [reflexivity|]. left. split; [done|]. by split.
  - apply Forall_cons_iff in Hds as [[Hd Hd63] Hds]. pose proof (len_nonneg d).
    destruct (format_hex_ok (len d) ltac:(lia)) as (Hhex & Hne & Hlen & Hval).
    destruct (readChunkLine_ok (cr_r c) (format_hex (len d)) (d ++ [13; 10] ++ encode ds ++ ending ++ rest)) as (b' & Er & Hb'); [done|done|done| |].
    { unfold encode in Hb. cbn [map concat] in Hb. unfold chunk at 1 in Hb. rewrite <- !app_assoc in Hb. exact Hb. }
    rewrite (bind_ok _ _ _ _ _ (on_r_ok _ _ _ _ Er)).
    unfold parseHexUint. rewrite parse_loop; [|lia|done|eapply List.Forall_impl; [|exact Hhex]; by intros x [? _]]. rewrite Hval.
    erewrite bind_ok by reflexivity. assert (len d <> 0) as Hd0 by (destruct d; [done|rewrite len_cons; pose proof (len_nonneg d); lia]).
    destruct (Z.eqb_spec (len d) 0); [done|]. eexists. split; [reflexivity|]. right. exists d, ds. split; [done|].
    split; [|done]. cbn [concat]. by apply in_chunk.
Qed.

Lemma check_footer_none n c : checkEnd c = false -> check_footer n c = (Ok false, c).
Proof. intros H. unfold check_footer. erewrite bind_ok by reflexivity. by rewrite H. Qed.

(** The two bytes after a chunk, unless the call has data and they are not there
    yet. *)
Lemma check_footer_ok n c s : checkEnd c = true -> cr_err c = None -> length (cr_buf c) = 2%nat -> br_holds (cr_r c) ([13; 10] ++ s) ->
  exists stop c', check_footer n c = (Ok stop, c') /\ (stop = true /\ c' = c /\ 0 < n \/
    stop = false /\ checkEnd c' = false /\ cr_n c' = cr_n c /\ cr_err c' = None /\ length (cr_buf c') = 2%nat /\ br_holds (cr_r c') s).
Proof.
  intros Hce He Hl Hb. unfold check_footer. erewrite bind_ok by reflexivity. rewrite Hce.
  erewrite bind_ok by reflexivity. destruct ((0 <? n) && _) eqn:Hw.
  - exists true, c. split; [by destruct c|]. left. apply andb_true_iff in Hw as [Hw _]. apply Z.ltb_lt in Hw. done.
  - replace (set_cr_r _ c) with c by (by destruct c).
    destruct (io_ReadFull_data [13; 10] 3 0 [] (cr_r c) s Hb ltac:(cbn; lia) (cr_buf c) ltac:(done)) as (b' & Er & Hb').
    rewrite (bind_ok _ _ _ _ _ (on_r_ok (io_ReadFull 3 (cr_buf c)) c _ _ Er)). erewrite bind_ok by reflexivity. cbn [app].
    rewrite bool_decide_true by done. eexists. eexists. split; [reflexivity|]. right. done.
Qed.

(** ** [Read] *)

(** Before the header of a chunk. *)
Definition header_state (rest : bytes) c (ds : list bytes) : Prop :=
  cr_err c = None /\ checkEnd c = false /\ cr_n c = 0 /\ Forall good_chunk ds /\ length (cr_buf c) = 2%nat /\
  br_holds (cr_r c) (encode ds ++ ending ++ rest).

Lemma footer_cases rest c d n : decoding rest c d ->
  (exists d1 ds, d = d1 ++ concat ds /\ cr_err c = None /\ checkEnd c = false /\ cr_n c = len d1 /\ good_chunk d1 /\ Forall good_chunk ds /\
     length (cr_buf c) = 2%nat /\ br_holds (cr_r c) (d1 ++ [13; 10] ++ encode ds ++ ending ++ rest)) \/
  cr_n c = 0 /\ exists stop c1, check_footer n c = (Ok stop, c1) /\
    (stop = true /\ c1 = c /\ 0 < n \/ exists ds, stop = false /\ d = concat ds /\ header_state rest c1 ds).
Proof.
  intros [c' d1 ds He Hce Hn Hd Hds Hl Hb|c' ds He Hce Hn Hds Hl Hb|c' ds He Hce Hn Hds Hl Hb].
  - left. by exists d1, ds.
  - right. split; [done|]. destruct (check_footer_ok n c' _ Hce He Hl Hb) as (stop & c1 & Ef & [(-> & -> & ?)|(-> & ? & Hn1 & ? & ? & ?)]).
    + exists true, c'. split; [done|]. by left.
    + exists false, c1. split; [done|]. right. exists ds. split; [done|]. split; [done|]. unfold header_state. rewrite Hn1. done.
  - right. split; [done|]. exists false, c'. rewrite check_footer_none by done. split; [done|]. right. exists ds. done.
Qed.

Lemma decoding_err rest c d : decoding rest c d -> cr_err c = None.
Proof. by intros []. Qed.

Lemma Read_loop_end fuel done b c e : cr_err c = Some e -> Read_loop fuel done b c = (Ok (len done, Some e, done ++ b), c).
Proof. intros He. destruct fuel; cbn [Read_loop]; unfold st_bind, st_get, st_ret; cbv beta iota zeta; rewrite He; by rewrite He. Qed.

Lemma chunkHeaderAvailable_same c : exists a, chunkHeaderAvailable c = (Ok a, c).
Proof.
  unfold chunkHeaderAvailable. erewrite bind_ok by reflexivity. assert (set_cr_r (cr_r c) c = c) as E1 by (by destruct c). cbn [fst snd]. rewrite E1.
  destruct (0 <? _); [|by eexists]. destruct (Peek_buffered (len (br_buf (cr_r c))) (cr_r c)) as (p & e & Ep); [lia|].
  rewrite (bind_ok _ _ _ _ _ (on_r_ok _ _ _ _ Ep)), E1. by eexists.
Qed.

Definition need c (b : bytes) : nat := 2 * length b + (if cr_n c =? 0 then 2 else 1).

(** What a [Read] with the rest [b] of the user's buffer gives. *)
Definition delivered (rest : bytes) c (d done b : bytes) (r : res Empty_set (Z * option (chunk_error E) * bytes)) c' : Prop :=
  exists k err, r = Ok (len done + Z.of_nat k, err, done ++ take k d ++ drop k b) /\ (k <= length b)%nat /\ (k <= length d)%nat /\
    (err = None /\ decoding rest c' (drop k d) /\ ((0 < k)%nat \/ done <> [] \/ b = []) \/
     err = Some (BufErr (IoErr EOF)) /\ k = length d /\ finished rest c').

Lemma delivered_now rest c d done b : decoding rest c d -> done <> [] \/ b = [] ->
  delivered rest c d done b (Ok (len done, cr_err c, done ++ b)) c.
Proof.
  intros Hd Hw. exists 0%nat, None. rewrite (decoding_err _ _ _ Hd), Z.add_0_r. split; [done|]. split; [lia|]. split; [lia|].
  left. split; [done|]. split; [done|]. by right.
Qed.

Lemma Read_loop_ok rest fuel : forall c d done b, decoding rest c d -> (need c b <= fuel)%nat ->
  delivered rest c d done b (fst (Read_loop fuel done b c)) (snd (Read_loop fuel done b c)).
Proof.
  induction fuel as [|fuel IH]; intros c d done b Hdec Hf; [unfold need in Hf; destruct (cr_n c =? 0); lia|].
  cbn [Read_loop]. erewrite bind_ok by reflexivity. rewrite (decoding_err _ _ _ Hdec).
  destruct (footer_cases rest c d (len done) Hdec) as [(d1 & ds & -> & He & Hce & Hn & Hd & Hds & Hl & Hb)|(Hn & stop & c1 & Ef & Hcase)].
  - rewrite (bind_ok _ _ _ _ _ (check_footer_none _ c Hce)). erewrite bind_ok by reflexivity.
    destruct Hd as [Hd1 Hd63]. assert (0 < len d1) as Hpos by (destruct d1; [done|rewrite len_cons; pose proof (len_nonneg d1); lia]).
    destruct (Z.eqb_spec (cr_n c) 0) as [|_]; [lia|]. destruct b as [|x b].
    { erewrite bind_ok by reflexivity. apply delivered_now; [done|by right]. }
    set (k := if cr_n c <? len (x :: b) then _ else _).
    assert (0 < k)%nat as Hk by (unfold k; destruct (_ <? _); cbn [length]; lia).
    assert (k <= length (x :: b))%nat as Hkb by (unfold k; destruct (Z.ltb_spec (cr_n c) (len (x :: b))); unfold len in *; lia).
    assert (k <= length d1)%nat as Hkd by (unfold k; destruct (Z.ltb_spec (cr_n c) (len (x :: b))); unfold len in *; lia).
    clearbody k. set (bb := x :: b) in *. clearbody bb.
    destruct (bufio_Read_data (cr_r c) _ (take k bb) Hb) as (n & b' & Hns & Hnp & Er & Hb'); [by destruct d1|destruct k; [lia|]; destruct bb; [cbn in Hkb; lia|done]|].
    assert (length (take k bb) = k) as Elk by (rewrite length_take; lia). rewrite Elk in Hnp.
    rewrite (bind_ok _ _ _ _ _ (on_r_ok _ _ _ _ Er)). cbv beta zeta.
    erewrite bind_ok by reflexivity. erewrite bind_ok by reflexivity. cbn [option_map].
    rewrite (take_app_le _ _ n) by lia. rewrite Nat2Z.id.
    assert ((take n d1 ++ drop n (take k bb)) ++ drop k bb = take n d1 ++ drop n bb) as ->.
    { rewrite <- app_assoc. f_equal. rewrite <- (take_drop k bb) at 3. by rewrite drop_app_le by lia. }
    assert (length (take n d1) = n) as Eln by (rewrite length_take; lia).
    assert (take n (take n d1 ++ drop n bb) = take n d1) as -> by (rewrite <- Eln at 1; apply take_app_length).
    assert (drop n (take n d1 ++ drop n bb) = drop n bb) as -> by (rewrite <- Eln at 1; apply drop_app_length).
    assert (u64 (cr_n c - Z.of_nat n) = len (drop n d1)) as -> by (rewrite Hn, u64_small; unfold len in *; rewrite ?length_drop; lia).
    rewrite drop_app_le in Hb' by lia.
    match goal with |- context [st_bind _ _ ?c0] => set (c2 := c0) end.
    assert (exists c3, (if (len (drop n d1) =? 0) && true then st_mod (E:=Empty_set) (set_checkEnd true) else st_ret tt) c2 = (Ok tt, c3) /\
      decoding rest c3 (drop n d1 ++ concat ds) /\ cr_n c3 = len (drop n d1)) as (c3 & E3 & Hdec3 & Hn3).
    { rewrite andb_true_r. destruct (Z.eqb_spec (len (drop n d1)) 0) as [E0|E0].
      - assert (drop n d1 = []) as E0' by (destruct (drop n d1); [done|rewrite len_cons in E0; pose proof (len_nonneg l); lia]).
        eexists. split; [reflexivity|]. rewrite E0' in Hb' |- *. split; [|done]. by apply at_footer.
      - eexists. split; [reflexivity|]. split; [|done]. apply in_chunk; try done. split; [by intros E0'; rewrite E0' in E0|].
        unfold len in *. rewrite length_drop. lia. }
    cbv iota. rewrite (bind_ok _ _ _ _ _ E3).
    destruct (IH c3 _ (done ++ take n d1) (drop n bb) Hdec3) as (j & err & Er' & Hj & Hjd & Hend).
    { unfold need in *. rewrite length_drop. destruct (cr_n c3 =? 0); destruct (Z.eqb_spec (cr_n c) 0); lia. }
    exists (n + j)%nat, err. rewrite Er'. split; [|split; [rewrite length_drop in Hj; lia|split; [rewrite length_app, length_drop in *; lia|]]].
    + rewrite len_app. unfold len at 2. rewrite Eln. rewrite <- !app_assoc, drop_drop. 
      assert (take (n + j) (d1 ++ concat ds) = take n d1 ++ take j (drop n d1 ++ concat ds)) as ->.
      { rewrite <- (take_drop n d1) at 1. rewrite <- app_assoc, take_app_ge by lia. rewrite Eln. f_equal. f_equal. lia. }
      rewrite <- app_assoc. do 3 f_equal. lia.
    + assert (drop (n + j) (d1 ++ concat ds) = drop j (drop n d1 ++ concat ds)) as ->.
      { rewrite <- drop_drop. by rewrite drop_app_le by lia. }
      destruct Hend as [(-> & ? & _)|(-> & -> & ?)]; [left; split; [done|]; split; [done|]; left; lia|right].
      split; [done|]. split; [|done]. rewrite !length_app, length_drop. lia.
  - rewrite (bind_ok _ _ _ _ _ Ef). destruct Hcase as [(-> & -> & Hpos)|(ds & -> & -> & Hh)].
    { erewrite bind_ok by reflexivity. apply delivered_now; [done|]. left. intros ->. by unfold len in Hpos. }
    destruct Hh as (He1 & Hce1 & Hn1 & Hds & Hl1 & Hb1). erewrite bind_ok by reflexivity. rewrite Hn1. cbn [Z.eqb].
    assert (decoding rest c1 (concat ds)) as Hdec1 by (by apply at_header).
    assert (exists w, (if 0 <? len done then let* a := chunkHeaderAvailable in st_ret (negb a) else st_ret (E:=Empty_set) false) c1 = (Ok w, c1) /\ (w = true -> done <> [])) as (w & Ew & Hw).
    { destruct (Z.ltb_spec 0 (len done)); [|by exists false]. destruct (chunkHeaderAvailable_same c1) as [a Ea]. exists (negb a). rewrite (bind_ok _ _ _ _ _ Ea).
      split; [done|]. intros _ ->. by unfold len in *. }
    rewrite (bind_ok _ _ _ _ _ Ew). destruct w.
    { erewrite bind_ok by reflexivity. apply delivered_now; [done|]. left. by apply Hw. }
    destruct (beginChunk_ok c1 ds rest He1 Hce1 Hds Hl1 Hb1) as (c2 & E2 & [[-> Hfin]|(d & ds' & -> & Hdec2 & Hn2 & _)]); rewrite (bind_ok _ _ _ _ _ E2).
    + rewrite (Read_loop_end _ _ _ _ _ (proj1 Hfin)). cbn [fst snd]. exists 0%nat, (Some (BufErr (IoErr EOF))). rewrite Z.add_0_r.
      split; [done|]. split; [lia|]. split; [cbn; lia|]. right. by split.
    + apply IH; [done|]. unfold need in *. rewrite Hn2. rewrite Hn in Hf. cbn [Z.eqb] in Hf. apply Forall_cons_iff in Hds as [[Hd _] _].
      destruct (Z.eqb_spec (len d) 0) as [E0|]; [destruct d; [done|rewrite len_cons in E0; pose proof (len_nonneg d); lia]|]. lia.
Qed.
(** ** Runs of [Read] *)

(** Calls of [Read] with these buffers, until one returns an error: the data
    read, and that error. *)
Fixpoint read_calls (bs : list bytes) c : res Empty_set (bytes * option (chunk_error E)) * chunkedReader R E :=
  match bs with
  | [] => (Ok ([], None), c)
  | b :: bs =>
      match chunked_Read (2 * length b + 2) b c with
      | (Ok (n, None, b), c) =>
          match read_calls bs c with
          | (Ok (d, err), c) => (Ok (take (Z.to_nat n) b ++ d, err), c)
          | r => r
          end
      | (Ok (n, Some e, b), c) => (Ok (take (Z.to_nat n) b, Some e), c)
      | (Err e, c) => (Err e, c)
      | (Panic s, c) => (Panic s, c)
      | (NoFuel, c) => (NoFuel, c)
      end
  end.

Lemma read_calls_ok rest bs : forall c d, decoding rest c d -> Forall (fun b => b <> []) bs ->
  exists d' err, fst (read_calls bs c) = Ok (d', err) /\
    (err = None /\ decoding rest (snd (read_calls bs c)) (drop (length d') d) /\ d' = take (length d') d /\ (length bs <= length d' <= length d)%nat \/
     err = Some (BufErr (IoErr EOF)) /\ d' = d /\ finished rest (snd (read_calls bs c))).
Proof.
  induction bs as [|b bs IH]; intros c d Hd Hbs; cbn [read_calls].
  { exists [], None. split; [done|]. left. split; [done|]. split; [done|]. cbn. split; [done|]. lia. }
  apply Forall_cons_iff in Hbs as [Hb Hbs].
  destruct (Read_loop_ok rest (2 * length b + 2) c d [] b Hd) as (k & err & Er & Hk & Hkd & Hcase); [unfold need; destruct (_ =? _); lia|].
  unfold chunked_Read. destruct (Read_loop _ [] b c) as [r c1]. cbn [fst snd] in Er, Hcase. subst r. cbn [app].
  rewrite len_nil, Z.add_0_l, Nat2Z.id. assert (length (take k d) = k) as Elk by (rewrite length_take; lia).
  assert (take k (take k d ++ drop k b) = take k d) as Etk by (rewrite <- Elk at 1; apply take_app_length).
  destruct Hcase as [(-> & Hd1 & Hprog)|(-> & -> & Hfin)]; rewrite Etk.
  - destruct (IH c1 _ Hd1 Hbs) as (d' & err & Er & Hcase). destruct (read_calls bs c1) as [r c2]. cbn [fst snd] in *. subst r.
    exists (take k d ++ d'), err. split; [done|]. rewrite length_app, Elk. destruct Hcase as [(-> & Hd2 & Ed' & Hl)|(-> & -> & Hfin)].
    + left. rewrite length_drop in Hl. rewrite drop_drop in Hd2. split; [done|]. split; [done|]. split.
      * rewrite Ed' at 1. by rewrite take_take_drop.
      * cbn [length]. destruct Hprog as [?|[?|?]]; [lia|done..].
    + right. split; [done|]. by rewrite take_drop.
  - exists (take (length d) d), (Some (BufErr (IoErr EOF))). split; [done|]. right. rewrite take_ge by lia. done.
Qed.

(** What there is to read from an argument of [NewChunkedReader]. *)
Definition arg_holds (r : ioReader R E) (s : bytes) : Prop := match r with isBufio br => br_holds br s | notBufio r => holds r s end.

Lemma new_reader_decoding r ds rest : Forall good_chunk ds -> arg_holds r (encode ds ++ ending ++ rest) -> decoding rest (NewChunkedReader r) (concat ds).
Proof. intros Hds Hr. apply at_header; try done. destruct r; [exact Hr|by apply NewReader_holds]. Qed.
(** ** [Read] on any input *)

Definition ready c : Prop := 0 <= cr_n c /\ length (cr_buf c) = 2%nat /\ exists s, br_holds (cr_r c) s.
Lemma ready_intro c s : 0 <= cr_n c -> length (cr_buf c) = 2%nat -> br_holds (cr_r c) s -> ready c.
Proof. intros H1 H2 H3. split; [done|]. split; [done|]. by exists s. Qed.

Lemma io_ReadFull_total fuel : forall n buf done b s, br_holds b s -> (length buf <= fuel)%nat ->
  exists k err buf' b' s', io_ReadFull_loop fuel n buf done b = (Ok (k, err, buf'), b') /\ br_holds b' s' /\ length buf' = (length done + length buf)%nat.
Proof.
  induction fuel as [|fuel IH]; intros n buf done b s Hb Hf.
  { destruct buf; [|cbn in Hf; lia]. do 5 eexists. split; [reflexivity|]. split; [exact Hb|cbn; lia]. }
  destruct buf as [|x buf]; [do 5 eexists; split; [reflexivity|]; split; [exact Hb|cbn; lia]|]. cbn [io_ReadFull_loop].
  destruct (decide (s = [])) as [->|Hs].
  - destruct (bufio_Read_eof b (x :: buf) Hb ltac:(done)) as (b' & Er & Hb'). rewrite (bind_ok _ _ _ _ _ Er). cbv beta iota.
    do 5 eexists. split; [reflexivity|]. split; [exact Hb'|]. rewrite !length_app, length_drop, length_take. cbn [Z.to_nat]. lia.
  - destruct (bufio_Read_data b s (x :: buf) Hb Hs ltac:(done)) as (k & b' & Hk & Hkp & Er & Hb'). rewrite (bind_ok _ _ _ _ _ Er). cbv beta iota. rewrite Nat2Z.id.
    destruct (IH (n + Z.of_nat k) (drop k (take k s ++ drop k (x :: buf))) (done ++ take k (take k s ++ drop k (x :: buf))) b' _ Hb') as (k' & err & buf' & b2 & s2 & -> & Hb2 & Hl).
    { rewrite length_drop, length_app, length_drop, length_take. cbn [length] in *. lia. }
    do 5 eexists. split; [reflexivity|]. split; [exact Hb2|]. rewrite Hl, length_app, length_take, length_drop, length_app, length_drop, length_take. lia.
Qed.

Lemma readChunkLine_total b s : br_holds b s -> exists x b' s', readChunkLine b = (Ok x, b') /\ br_holds b' s'.
Proof.
  intros Hb. destruct (ReadSlice_total b s 10 Hb) as (l & e & b' & s' & Er & _ & Hb' & _). unfold readChunkLine. rewrite (bind_ok _ _ _ _ _ Er).
  assert (forall x : (bytes + chunk_error E)%type, exists x' b2 s2, st_ret (E := Empty_set) x b' = (Ok x', b2) /\ br_holds b2 s2) as Hret by (intros x; by exists x, b', s').
  destruct e as [[[]| |]|]; [..|destruct (_ <=? _)]; apply Hret.
Qed.

Lemma beginChunk_total c : ready c -> exists c', beginChunk c = (Ok tt, c') /\ ready c' /\ (cr_err c' = None -> 0 < cr_n c').
Proof.
  intros (Hn0 & Hl & s & Hb). destruct (readChunkLine_total _ _ Hb) as (x & b' & s' & Er & Hb'). unfold beginChunk. rewrite (bind_ok _ _ _ _ _ (on_r_ok _ _ _ _ Er)).
  destruct x as [line|e]; [|eexists; split; [reflexivity|]; split; [by eapply ready_intro|done]].
  unfold parseHexUint. assert ((exists n, @parseHexUint_loop E 0 line 0 = Ok n /\ 0 <= n) \/ exists e, @parseHexUint_loop E 0 line 0 = Err e) as [(n & -> & Hn)|[e ->]].
  { destruct (decide (Forall is_hex line)) as [Hv|Hv]; [destruct (decide (length line <= 16)%nat) as [Hn|Hn]|].
    - left. exists (hex_value 0 line). split; [by apply parse_loop|]. pose proof (hex_value_bound line 0 ltac:(lia)). lia.
    - right. apply parse_loop_err; [lia|]. by intros [_ ?].
    - right. apply parse_loop_err; [lia|]. by intros [? _]. }
  - destruct (Z.eqb_spec n 0) as [->|Hne]; eexists; (split; [unfold st_bind, st_mod; try (destruct (Z.eqb_spec n 0); [done|]); reflexivity|]); (split; [by eapply ready_intro|]); cbn; [done|lia].
  - eexists. split; [reflexivity|]. split; [by eapply ready_intro|done].
Qed.

Lemma check_footer_total n c : ready c -> exists stop c', check_footer n c = (Ok stop, c') /\ ready c' /\ (stop = false -> cr_n c' = cr_n c /\ cr_err c' = cr_err c).
Proof.
  intros (Hn & Hl & s & Hb). destruct (checkEnd c) eqn:Hce.
  2: { exists false, c. split; [by apply check_footer_none|]. split; [by eapply ready_intro|done]. }
  unfold check_footer. erewrite bind_ok by reflexivity. rewrite Hce. erewrite bind_ok by reflexivity. replace (set_cr_r _ c) with c by (by destruct c).
  destruct (_ && _); [exists true, c; split; [done|]; split; [by eapply ready_intro|done]|].
  destruct (io_ReadFull_total 3 0 (cr_buf c) [] (cr_r c) s Hb ltac:(lia)) as (k & err & buf & b' & s' & Er & Hb' & Hl').
  rewrite (bind_ok _ _ _ _ _ (on_r_ok (io_ReadFull 3 (cr_buf c)) c _ _ Er)). erewrite bind_ok by reflexivity. cbn [length plus] in Hl'. rewrite Hl in Hl'.
  destruct err as [e|]; [|case_bool_decide].
  - destruct (cr_err c) as [[[[]| |]| | | |]|] eqn:Ec; unfold st_bind, st_get, st_mod, st_ret; cbn; rewrite ?Ec; do 2 eexists; (split; [reflexivity|]); (split; [by eapply ready_intro|done]).
  - do 2 eexists. split; [reflexivity|]. split; [by eapply ready_intro|done].
  - do 2 eexists. split; [reflexivity|]. split; [by eapply ready_intro|done].
Qed.

(** A call that [reads]: the count and the buffer are in range. *)
Definition reads (done b : bytes) (r : res Empty_set (Z * option (chunk_error E) * bytes)) c' : Prop :=
  exists n err buf, r = Ok (n, err, buf) /\ ready c' /\ len done <= n <= len done + len b /\ length buf = (length done + length b)%nat.

Lemma reads_now c done b : ready c -> reads done b (Ok (len done, cr_err c, done ++ b)) c.
Proof. intros Hc. do 3 eexists. split; [reflexivity|]. split; [done|]. pose proof (len_nonneg b). split; [lia|]. apply length_app. Qed.

Lemma reads_step done b n buf r c' : (n <= length b)%nat -> length buf = length b ->
  reads (done ++ take n buf) (drop n buf) r c' -> reads done b r c'.
Proof.
  intros Hn Hl (m & err & buf' & -> & Hc & Hm & Hb). exists m, err, buf'. split; [done|]. split; [done|].
  rewrite length_app, length_take, length_drop in Hb. rewrite len_app in Hm. unfold len in *. rewrite length_take, length_drop in Hm. split; lia.
Qed.

(** One [Read] of the underlying reader. *)
Lemma bufio_Read_step b s p : br_holds b s -> p <> [] ->
  exists n err buf b' s', bufio_Read p b = (Ok (Z.of_nat n, err, buf), b') /\ br_holds b' s' /\ (n <= length p)%nat /\ length buf = length p /\
    (err = None /\ (0 < n)%nat \/ err = Some (IoErr EOF)).
Proof.
  intros Hb Hp. destruct (decide (s = [])) as [->|Hs].
  - destruct (bufio_Read_eof b p Hb Hp) as (b' & Er & Hb'). exists 0%nat. do 4 eexists. split; [exact Er|]. split; [exact Hb'|]. split; [lia|]. split; [done|]. by right.
  - destruct (bufio_Read_data b s p Hb Hs Hp) as (n & b' & Hn & Hnp & Er & Hb'). do 5 eexists. split; [exact Er|]. split; [exact Hb'|]. split; [done|].
    split; [rewrite length_app, length_take, length_drop; lia|]. left. split; [done|lia].
Qed.

Lemma Read_loop_total fuel : forall c done b, ready c -> (need c b <= fuel)%nat ->
  reads done b (fst (Read_loop fuel done b c)) (snd (Read_loop fuel done b c)).
Proof.
  induction fuel as [|fuel IH]; intros c done b Hc Hf; [unfold need in Hf; destruct (cr_n c =? 0); lia|].
  destruct (cr_err c) as [e|] eqn:He; [rewrite (Read_loop_end _ _ _ _ e) by done; rewrite <- He; by apply reads_now|].
  cbn [Read_loop]. erewrite bind_ok by reflexivity. rewrite He.
  destruct (check_footer_total (len done) c Hc) as (stop & c1 & Ef & Hc1 & Hsame). rewrite (bind_ok _ _ _ _ _ Ef).
  destruct stop; [erewrite bind_ok by reflexivity; by apply reads_now|]. destruct (Hsame eq_refl) as [En Ee].
  erewrite bind_ok by reflexivity. unfold need in Hf. rewrite <- En in Hf. clear Hsame En. destruct (Z.eqb_spec (cr_n c1) 0) as [Hn|Hn].
  - assert (exists w, (if 0 <? len done then let* a := chunkHeaderAvailable in st_ret (negb a) else st_ret (E:=Empty_set) false) c1 = (Ok w, c1)) as (w & Ew).
    { destruct (Z.ltb_spec 0 (len done)); [|by exists false]. destruct (chunkHeaderAvailable_same c1) as [a Ea]. exists (negb a). by rewrite (bind_ok _ _ _ _ _ Ea). }
    rewrite (bind_ok _ _ _ _ _ Ew). destruct w; [erewrite bind_ok by reflexivity; by apply reads_now|].
    destruct (beginChunk_total c1 Hc1) as (c2 & E2 & Hc2 & Hpos). rewrite (bind_ok _ _ _ _ _ E2).
    destruct (cr_err c2) as [er|] eqn:He2; [rewrite (Read_loop_end _ _ _ _ er) by done; rewrite <- He2; by apply reads_now|].
    apply IH; [done|]. unfold need. destruct (Z.eqb_spec (cr_n c2) 0); [specialize (Hpos eq_refl); lia|lia].
  - destruct b as [|x b]; [erewrite bind_ok by reflexivity; by apply reads_now|]. destruct Hc1 as (Hn0 & Hl & s & Hb).
    set (k := if cr_n c1 <? len (x :: b) then _ else _).
    assert (0 < k <= length (x :: b))%nat as Hk by (unfold k; destruct (Z.ltb_spec (cr_n c1) (len (x :: b))); unfold len in *; cbn [length] in *; lia).
    clearbody k. set (bb := x :: b) in *. clearbody bb.
    destruct (bufio_Read_step (cr_r c1) s (take k bb) Hb) as (n & err & buf & b' & s' & Er & Hb' & Hnp & Hlb & Herr); [destruct k; [lia|]; destruct bb; [cbn in Hk; lia|done]|].
    rewrite length_take in Hnp, Hlb. rewrite (bind_ok _ _ _ _ _ (on_r_ok _ _ _ _ Er)). cbv beta zeta.
    erewrite bind_ok by reflexivity. erewrite bind_ok by reflexivity. rewrite Nat2Z.id.
    match goal with |- context [st_bind _ _ ?c0] => set (c2 := c0) end.
    assert (exists c3, (if (u64 (cr_n c1 - Z.of_nat n) =? 0) && match err with None => true | Some _ => false end then st_mod (E:=Empty_set) (set_checkEnd true)
       else if match err with Some (IoErr EOF) => true | _ => false end then st_mod (set_cr_err (Some (BufErr (IoErr ErrUnexpectedEOF)))) else st_ret tt) c2 = (Ok tt, c3) /\
       ready c3 /\ (cr_err c3 = None -> (0 < n)%nat)) as (c3 & E3 & Hc3 & Hprog).
    { assert (0 <= u64 (cr_n c1 - Z.of_nat n)) by (unfold u64; apply Z.mod_pos_bound; lia).
      destruct Herr as [[-> Hn1]| ->]; [destruct (_ && _)|rewrite andb_false_r]; eexists; (split; [reflexivity|]); (split; [by eapply ready_intro|done]). }
    rewrite (bind_ok _ _ _ _ _ E3). apply (reads_step done bb n (buf ++ drop k bb)); [lia|rewrite length_app, length_drop; lia|].
    destruct (cr_err c3) as [er|] eqn:He3; [rewrite (Read_loop_end _ _ _ _ er) by done; rewrite <- He3; by apply reads_now|].
    apply IH; [done|]. unfold need. rewrite length_drop, length_app, length_drop. specialize (Hprog eq_refl). destruct (cr_n c3 =? 0); lia.
Qed.
End Chunked.

(** ** What the writer writes *)

Section Writer.
Context {W E : Type} {WR : Writer W E} {WL : WriterLaws W E} {LOG : WriterLog W E}.
(** A flush passes on what was written, and writes nothing. *)
Variable flush : option (W -> option (io_error E) * W).
Hypothesis flush_log : forall f w, flush = Some f -> written (snd (f w)) = written w.

(** [Write] for each of [ds], and [Close]. *)
Fixpoint write_body (ds : list bytes) : stateful W Empty_set (list (Z * option (io_error E))) :=
  match ds with
  | [] => let* err := chunkedWriter_Close in st_ret [(0, err)]
  | d :: ds => let* r := chunkedWriter_Write flush d in let* rs := write_body ds in st_ret (r :: rs)
  end.

Lemma written_all w p : snd (fst (WriteTo w p)) = None -> fst (fst (WriteTo w p)) = len p /\ written (snd (WriteTo w p)) = written w ++ p.
Proof.
  intros He. pose proof (Write_count w p) as Hc. pose proof (Write_short w p) as Hs.
  assert (fst (fst (WriteTo w p)) = len p) as En by (destruct (Z.lt_ge_cases (fst (fst (WriteTo w p))) (len p)); [by apply Hs in He|lia]).
  split; [done|]. rewrite Write_log, En. unfold len. by rewrite Nat2Z.id, take_ge.
Qed.

Lemma io_WriteString_log s w w' : io_WriteString s w = (Ok None, w') -> written w' = written w ++ s.
Proof.
  unfold io_WriteString. pose proof (written_all w s) as H. destruct (WriteTo w s) as [[n err] w1]. intros [= -> <-]. by apply H.
Qed.

(** A non-empty piece becomes one chunk, an empty one nothing. *)
Lemma Write_chunk d w n w' : chunkedWriter_Write flush d w = (Ok (n, None), w') ->
  n = len d /\ written w' = written w ++ encode (filter (fun d => d <> []) [d]).
Proof.
  unfold chunkedWriter_Write. destruct d as [|x d]; [intros [= <- <-]; cbn; by rewrite app_nil_r|]. set (dd := x :: d).
  rewrite filter_cons_True by done. unfold encode. cbn [filter list_filter map concat]. unfold chunk. rewrite app_nil_r.
  intros H. apply bind_inv in H as (err & w1 & H1 & H). destruct err; [done|]. apply io_WriteString_log in H1. apply bind_inv in H as (r & w2 & H2 & H). destruct r as [n1 err].
  pose proof (written_all w1 dd) as Hd. destruct (WriteTo w1 dd) as [[n2 err2] w3]. injection H2 as -> -> ->. destruct err; [done|].
  destruct (Hd eq_refl) as [En Ew]. cbn [fst snd] in En, Ew. subst n1. rewrite Z.eqb_refl in H. cbn [negb] in H.
  apply bind_inv in H as (err & w3 & H3 & H). destruct err; [done|]. apply io_WriteString_log in H3.
  assert (written w3 = written w ++ format_hex (len dd) ++ [13; 10] ++ dd ++ [13; 10]) as E3.
  { rewrite H3, Ew, H1, <- !app_assoc. done. }
  destruct flush as [f|] eqn:Ef.
  - apply bind_inv in H as (err & w4 & H4 & H). pose proof (flush_log f w3 eq_refl) as Hf. destruct (f w3) as [err4 w5]. injection H4 as -> ->. injection H as <- -> ->. cbn in Hf. by rewrite Hf.
  - injection H as <- <-. done.
Qed.

Lemma write_body_log ds : forall w rs w', write_body ds w = (Ok rs, w') -> Forall (fun r => snd r = None) rs ->
  map fst rs = map len ds ++ [0] /\ written w' = written w ++ encode (filter (fun d => d <> []) ds) ++ ending.
Proof.
  induction ds as [|d ds IH]; intros w rs w' H Hrs; cbn [write_body] in H.
  - apply bind_inv in H as (err & w1 & H1 & H). injection H as <- <-. apply Forall_cons_iff in Hrs as [He _]. cbn in He. subst err. split; [done|]. by apply io_WriteString_log in H1.
  - apply bind_inv in H as (r & w1 & H1 & H). apply bind_inv in H as (rs1 & w2 & H2 & H). injection H as <- <-. apply Forall_cons_iff in Hrs as [He Hrs]. destruct r as [n err]. cbn in He. subst err.
    apply Write_chunk in H1 as [-> E1]. destruct (IH _ _ _ H2 Hrs) as [En E2]. split; [cbn [map app fst]; by rewrite En|].
    rewrite E2, E1, <- app_assoc. f_equal. change (d :: ds) with ([d] ++ ds). rewrite list.filter_app. unfold encode. by rewrite map_app, concat_app, <- app_assoc.
Qed.
End Writer.

Lemma concat_filter (ds : list bytes) : concat (filter (fun d => d <> []) ds) = concat ds.
Proof.
  induction ds as [|d ds IH]; [done|]. destruct (decide (d = [])) as [->|Hd].
  - rewrite filter_cons_False by (by intros []). done.
  - rewrite filter_cons_True by done. cbn [concat]. by rewrite IH.
Qed.

Lemma filter_good ds : Forall (fun d => len d < 2 ^ 63) ds -> Forall good_chunk (filter (fun d => d <> []) ds).
Proof.
  induction 1 as [|d ds Hd _ IH]; [done|]. destruct (decide (d = [])) as [->|Hne].
  - rewrite filter_cons_False by (by intros []). done.
  - rewrite filter_cons_True by done. constructor; [by split|done].
Qed.

(** C7: Whatever pieces a body is written in through a [chunkedWriter], over a
    writer that reports no error (with a flush after every chunk or without
    one), a [chunkedReader] delivers exactly the body, whatever the source
    hands over at a time, whether it is a [*bufio.Reader] already or gets one,
    and whatever non-empty buffers its [Read] gets; every [Read] before the end delivers at least one byte, the end is [EOF], and the
    bytes after the body are left unread. *)
Theorem chunked_roundtrip {W EW R Er} {WR : Writer W EW} {WL : WriterLaws W EW} {LOG : WriterLog W EW}
    {RD : Reader R Er} {SR : Source R Er} flush ds (w w' : W) rs (r : ioReader R Er) s rest bs :
  (forall f w, flush = Some f -> written (snd (f w)) = written w) ->
  Forall (fun d => len d < 2 ^ 63) ds ->
  write_body flush ds w = (Ok rs, w') -> Forall (fun x => snd x = None) rs ->
  written w' = written w ++ s -> arg_holds r (s ++ rest) -> Forall (fun b => b <> []) bs ->
  exists d err c, read_calls bs (NewChunkedReader r) = (Ok (d, err), c) /\
    (err = None /\ d = take (length d) (concat ds) /\ (length bs <= length d)%nat \/
     err = Some (BufErr (IoErr EOF)) /\ d = concat ds /\ br_holds (cr_r c) rest).
Proof.
  intros Hf Hds Hw Hrs Es Hr Hbs. apply write_body_log in Hw as [_ Ew]; [|done|done]. rewrite Es in Ew. apply app_inv_head in Ew. subst s.
  rewrite <- app_assoc in Hr. pose proof (new_reader_decoding r _ rest (filter_good _ Hds) Hr) as Hdec. rewrite concat_filter in Hdec.
  destruct (read_calls_ok rest bs _ _ Hdec Hbs) as (d & err & Er' & Hcase). destruct (read_calls bs _) as [x c]. cbn [fst snd] in *. subst x.
  exists d, err, c. split; [done|]. destruct Hcase as [(-> & _ & Ed & Hl & _)|(-> & -> & Hfin)]; [by left|right]. split; [done|]. split; [done|]. by destruct Hfin.
Qed.

(** [parseHexUint] returns the number that at most sixteen hexadecimal
    digits denote, which fits into 64 bits, and reports an error for every
    other line: nothing overflows. *)
Theorem parseHexUint_exact {E} v :
  (Forall is_hex v /\ (length v <= 16)%nat -> @parseHexUint E v = Ok (hex_value 0 v) /\ 0 <= hex_value 0 v < 2 ^ 64) /\
  (~ (Forall is_hex v /\ (length v <= 16)%nat) -> exists e, @parseHexUint E v = Err e).
Proof.
  split.
  - intros [Hv Hl]. split; [by apply parse_loop|]. pose proof (hex_value_bound v 0 ltac:(lia)) as Hb.
    pose proof (Z.pow_le_mono_r 16 (len v) 16 ltac:(lia) ltac:(unfold len; lia)). change (2 ^ 64) with (16 ^ 16). lia.
  - intros H. apply parse_loop_err; [lia|done].
Qed.

(** A body of two pieces and an empty one, arriving in three parts. *)
Lemma chunked_roundtrip_witness :
  exists d err c,
    read_calls [[0; 0; 0]; [0]; [0; 0; 0; 0]] (NewChunkedReader (R := chunks) (notBufio [[53; 13]; [10; 104; 101; 108; 108; 111; 13; 10; 49]; [13; 10; 33; 13; 10; 48; 13; 10; 7]]))
      = (Ok (d, err), c) /\
    (err = None /\ d = take (length d) (concat [[104; 101; 108; 108; 111]; []; [33]]) /\ (3 <= length d)%nat \/
     err = Some (BufErr (IoErr EOF)) /\ d = concat [[104; 101; 108; 108; 111]; []; [33]] /\ br_holds (cr_r c) [7]).
Proof.
  eapply (chunked_roundtrip (W := bytes) (R := chunks) None [[104; 101; 108; 108; 111]; []; [33]] [] _ _ _
    [53; 13; 10; 104; 101; 108; 108; 111; 13; 10; 49; 13; 10; 33; 13; 10; 48; 13; 10] [7] [[0; 0; 0]; [0]; [0; 0; 0; 0]]).
  - done.
  - repeat constructor.
  - vm_compute. reflexivity.
  - repeat constructor.
  - reflexivity.
  - split; [|reflexivity]. by repeat constructor.
  - by repeat constructor.
Defined.

Lemma parseHexUint_exact_witness :
  (@parseHexUint Empty_set [49; 102; 65] = Ok 506 /\ 0 <= 506 < 2 ^ 64) /\
  exists e, @parseHexUint Empty_set (replicate 17 48) = Err e.
Proof.
  split.
  - apply (proj1 (parseHexUint_exact [49; 102; 65])). split; [|cbn; lia]. repeat constructor; by eexists.
  - apply (proj2 (parseHexUint_exact (replicate 17 48))). intros [_ H]. cbn in H. lia.
Defined.

(** C31: Whatever bytes a source delivers, well-formed or not, a [Read] of a
    [chunkedReader] returns: it does not panic, [2 * len(b) + 2] rounds of its
    loop are enough, the count it returns lies within the buffer, and it leaves
    a state from which the same holds. *)
Theorem Read_returns {R Er} {RD : Reader R Er} {SR : Source R Er} (c : chunkedReader R Er) b :
  ready c -> exists n err buf c', chunked_Read (2 * length b + 2) b c = (Ok (n, err, buf), c') /\
    ready c' /\ 0 <= n <= len b /\ length buf = length b.
Proof.
  intros Hc. destruct (Read_loop_total (2 * length b + 2) c [] b Hc) as (n & err & buf & Er' & Hc' & Hn & Hl); [unfold need; destruct (_ =? _); lia|].
  unfold chunked_Read. destruct (Read_loop _ [] b c) as [x c']. cbn [fst snd] in *. subst x. by exists n, err, buf, c'.
Qed.

Lemma Read_returns_witness :
  exists n err buf c', chunked_Read (2 * 1 + 2) [0] (NewChunkedReader (notBufio (mkStream [120]))) = (Ok (n, err, buf), c') /\
    ready c' /\ 0 <= n <= len [0] /\ length buf = length [0].
Proof.
  apply (Read_returns (NewChunkedReader (notBufio (mkStream [120]))) [0]). apply (ready_intro _ [120]); [done|done|]. by apply NewReader_holds.
Defined.

(** ** A body that is cut off *)

(** The data of a chunk was read, and the source is at its end. *)
Definition cut_off {R Er} {RD : Reader R Er} {SR : Source R Er} (c : chunkedReader R Er) : Prop :=
  cr_err c = None /\ checkEnd c = true /\ length (cr_buf c) = 2%nat /\ br_holds (cr_r c) [].

Lemma cut_off_Read {R Er} {RD : Reader R Er} {SR : Source R Er} fuel (c : chunkedReader R Er) b :
  cut_off c -> exists c', chunked_Read (S fuel) b c = (Ok (0, None, b), c') /\ cut_off c'.
Proof.
  intros (He & Hce & Hl & Hb). unfold chunked_Read. cbn [Read_loop]. erewrite bind_ok by reflexivity. rewrite He.
  assert (exists c', check_footer (len (A:=Z) []) c = (Ok true, c') /\ cut_off c') as (c' & Ef & Hc').
  { unfold check_footer. erewrite bind_ok by reflexivity. rewrite Hce. erewrite bind_ok by reflexivity. cbn [andb]. replace (set_cr_r _ c) with c by (by destruct c).
    rewrite (len_nil (A := Z)). cbn [Z.ltb Z.compare andb].
    destruct (bufio_Read_eof (cr_r c) (cr_buf c) Hb) as (b' & Er' & Hb'); [by destruct (cr_buf c)|].
    assert (io_ReadFull 3 (cr_buf c) (cr_r c) = (Ok (0, Some (IoErr EOF), cr_buf c), b')) as Ef.
    { unfold io_ReadFull. cbn [io_ReadFull_loop]. destruct (cr_buf c) as [|x buf] eqn:Ebuf; [done|]. rewrite (bind_ok _ _ _ _ _ Er'). reflexivity. }
    rewrite (bind_ok _ _ _ _ _ (on_r_ok _ _ _ _ Ef)). erewrite bind_ok by reflexivity. unfold st_bind, st_get. cbn. rewrite He.
    eexists. split; [reflexivity|]. by split. }
  rewrite (bind_ok _ _ _ _ _ Ef). destruct Hc' as (He' & Hc'). exists c'. split; [|by split]. unfold st_bind, st_get, st_ret. by rewrite He'.
Qed.

(** When the source ends right after the data of a chunk, where the line
    break and the last chunk are missing, no [Read] ever reports it: however
    often it is called it returns no bytes and no error, since the result of
    [io.ReadFull] is kept in a variable of its own and [cr.err] stays [nil]. *)
Theorem truncated_body_not_reported {R Er} {RD : Reader R Er} {SR : Source R Er} bs (c : chunkedReader R Er) :
  cut_off c -> exists c', read_calls bs c = (Ok ([], None), c') /\ cut_off c'.
Proof.
  revert c. induction bs as [|b bs IH]; intros c Hc; cbn [read_calls]; [by exists c|].
  rewrite Nat.add_comm. destruct (cut_off_Read (S (2 * length b)) c b Hc) as (c1 & Er' & Hc1). change (2 + 2 * length b)%nat with (S (S (2 * length b))). rewrite Er'.
  destruct (IH c1 Hc1) as (c' & -> & Hc'). exists c'. by split.
Qed.

(** The state after [1 CR LF x] was read. *)
Lemma truncated_body_not_reported_witness :
  exists c c', read_calls [[0]] (NewChunkedReader (notBufio (mkStream [49; 13; 10; 120]))) = (Ok ([120], None), c) /\
    read_calls [[0]; [0]; [0]] c = (Ok ([], None), c') /\ cut_off c'.
Proof.
  set (r := read_calls [[0]] (NewChunkedReader (notBufio (mkStream [49; 13; 10; 120])))). set (c := snd r).
  assert (cut_off c) as Hc.
  { split; [by vm_compute|]. split; [by vm_compute|]. split; [by vm_compute|]. split; [vm_compute; lia|].
    exists []. split; [by vm_compute|]. split; [by vm_compute|]. left. by vm_compute. }
  destruct (truncated_body_not_reported [[0]; [0]; [0]] c Hc) as (c' & E1 & E2). exists c, c'. split; [by vm_compute|]. by split.
Defined.
