(* ===== verification/HpackEncode.v ===== *)
(** * HPACK encoder

    [src/http2/hpack/encode.go]: the representations of RFC 7541, section 6,
    and the [Encoder].  The writer of an encoder is any [Writer]; its state is
    a component of the encoder's.  Lengths are never negative, so the conversion
    [uint64(len(s))] is [len s]. *)
From S2P Require Import Prelude Hpack Varint Huffman HuffmanSpec Tables Io.

Local Open Scope Z_scope.
Local Open Scope go_scope.

(** ** Representations *)

Definition encodeTypeByte (indexing sensitive : bool) : Z :=
  if sensitive then 0x10 else if indexing then 0x40 else 0.

Definition appendIndexed (dst : bytes) (i : Z) : bytes :=
  let first := length dst in
  let dst := appendVarInt dst 7 i in
  or_at dst first 0x80.

Definition appendHpackString (dst s : bytes) : bytes :=
  let huffmanLength := HuffmanEncodeLength s in
  if huffmanLength <? len s then
    let first := length dst in
    let dst := appendVarInt dst 7 huffmanLength in
    let dst := AppendHuffmanString dst s in
    or_at dst first 0x80
  else
    let dst := appendVarInt dst 7 (len s) in
    dst ++ s.

Definition appendNewName (dst : bytes) (f : HeaderField) (indexing : bool) : bytes :=
  let dst := dst ++ [encodeTypeByte indexing (Sensitive f)] in
  let dst := appendHpackString dst (Name f) in
  appendHpackString dst (Value f).

Definition appendIndexedName (dst : bytes) (f : HeaderField) (i : Z) (indexing : bool) : bytes :=
  let first := length dst in
  let n := if indexing then 6 else 4 in
  let dst := appendVarInt dst n i in
  let dst := or_at dst first (encodeTypeByte indexing (Sensitive f)) in
  appendHpackString dst (Value f).

Definition appendTableSize (dst : bytes) (v : Z) : bytes :=
  let first := length dst in
  let dst := appendVarInt dst 5 v in
  or_at dst first 0x20.

(** ** [Encoder] *)

Definition uint32Max : Z := 2 ^ 32 - 1.
Definition initialHeaderTableSize : Z := 4096.

Section Encoder.
Context {W E : Type} {WR : Writer W E}.

Record Encoder : Type := mkEncoder {
  dynTab : dynamicTable;
  minSize : Z;       (* uint32 *)
  maxSizeLimit : Z;  (* uint32 *)
  tableSizeUpdate : bool;
  w : W;
  buf : bytes;
}.

Definition with_dynTab (e : Encoder) (dt : dynamicTable) : Encoder :=
  mkEncoder dt (minSize e) (maxSizeLimit e) (tableSizeUpdate e) (w e) (buf e).
Definition with_buf (e : Encoder) (b : bytes) : Encoder :=
  mkEncoder (dynTab e) (minSize e) (maxSizeLimit e) (tableSizeUpdate e) (w e) b.

Definition zeroDynamicTable : dynamicTable := mkDynamicTable initTable 0 0 0.

Definition NewEncoder (w : W) : res Empty_set Encoder :=
  let? dt := setMaxSize zeroDynamicTable initialHeaderTableSize in
  Ok (mkEncoder dt uint32Max initialHeaderTableSize false w []).

(** The first part of [WriteField]: the pending table size updates. *)
Definition flushTableSize (e : Encoder) : Encoder :=
  if tableSizeUpdate e then
    let b := if minSize e <? maxSize (dynTab e)
             then appendTableSize (buf e) (minSize e) else buf e in
    mkEncoder (dynTab e) uint32Max (maxSizeLimit e) false (w e)
      (appendTableSize b (maxSize (dynTab e)))
  else e.

Definition searchTable (e : Encoder) (f : HeaderField) : res Empty_set (Z * bool) :=
  let? (i, nameValueMatch) := search true staticTable f in
  if nameValueMatch : bool then Ok (i, true)
  else
    let? (j, nameValueMatch) := search false (table (dynTab e)) f in
    if nameValueMatch || ((i =? 0) && negb (j =? 0)) then
      Ok (u64 (j + tlen staticTable), nameValueMatch)
    else Ok (i, false).

Definition shouldIndex (e : Encoder) (f : HeaderField) : bool :=
  negb (Sensitive f) && (Size f <=? maxSize (dynTab e)).

(** The part of [WriteField] that appends the representation of [f]. *)
Definition encodeField (e : Encoder) (f : HeaderField) : res Empty_set Encoder :=
  let? (idx, nameValueMatch) := searchTable e f in
  if nameValueMatch : bool then Ok (with_buf e (appendIndexed (buf e) idx))
  else
    let indexing := shouldIndex e f in
    let e := if indexing then with_dynTab e (add (dynTab e) f) else e in
    if idx =? 0 then Ok (with_buf e (appendNewName (buf e) f indexing))
    else Ok (with_buf e (appendIndexedName (buf e) f idx indexing)).

Definition WriteField (f : HeaderField) : stateful Encoder (io_error E) unit := fun e =>
  let e := flushTableSize (with_buf e []) in
  match encodeField e f with
  | Ok e =>
      let '((n, err), w') := WriteTo (w e) (buf e) in
      let e' := mkEncoder (dynTab e) (minSize e) (maxSizeLimit e)
                  (tableSizeUpdate e) w' (buf e) in
      match err with
      | None => if negb (n =? len (buf e)) then (Err ErrShortWrite, e') else (Ok tt, e')
      | Some err => (Err err, e')
      end
  | Err x => match x with end
  | Panic s => (Panic s, e)
  | NoFuel => (NoFuel, e)
  end.

Definition SetMaxDynamicTableSize (e : Encoder) (v : Z) : res Empty_set Encoder :=
  let v := if maxSizeLimit e <? v then maxSizeLimit e else v in
  let m := if v <? minSize e then v else minSize e in
  let? dt := setMaxSize (dynTab e) v in
  Ok (mkEncoder dt m (maxSizeLimit e) true (w e) (buf e)).

Definition MaxDynamicTableSize (e : Encoder) : Z := maxSize (dynTab e).

Definition SetMaxDynamicTableSizeLimit (e : Encoder) (v : Z) : res Empty_set Encoder :=
  let e := mkEncoder (dynTab e) (minSize e) v (tableSizeUpdate e) (w e) (buf e) in
  if v <? maxSize (dynTab e) then
    let? dt := setMaxSize (dynTab e) v in
    Ok (mkEncoder dt (minSize e) (maxSizeLimit e) true (w e) (buf e))
  else Ok e.
End Encoder.
Arguments Encoder W : clear implicits.
