(* ===== verification/HpackDecode.v ===== *)
(** * HPACK decoder

    [src/http2/hpack/hpack.go]: the incremental [Decoder].

    The callback of a decoder is a Go closure: it can change the variables it
    captured and can call [SetEmitEnabled] on the decoder (readMetaFrame's
    does).  It is a function [emit f (s, enabled)] on the captured state [s]
    and the decoder's [emitEnabled]; the decoder's operations run on the pair
    of the decoder and the captured state.  The field [emit] itself is an
    argument of the operations.  Lengths of slices are never negative, so
    [uint64(len(p))] is [len p]. *)
From S2P Require Import Prelude Hpack Varint Huffman Tables.

Local Open Scope Z_scope.
Local Open Scope go_scope.

Inductive indexType : Type := indexedTrue | indexedFalse | indexedNever.
Definition indexed (v : indexType) : bool :=
  match v with indexedTrue => true | _ => false end.
Definition sensitive (v : indexType) : bool :=
  match v with indexedNever => true | _ => false end.

Record unencodedString : Type := mkUnencoded { isHuff : bool; ub : bytes }.

Record Decoder : Type := mkDecoder {
  dynTab : dynamicTable;
  emitEnabled : bool;
  maxStrLen : Z; (* int *)
  buf : bytes;
  saveBuf : bytes;
  firstField : bool;
}.

Definition set_dynTab (d : Decoder) (v : dynamicTable) : Decoder :=
  mkDecoder v (emitEnabled d) (maxStrLen d) (buf d) (saveBuf d) (firstField d).
Definition SetEmitEnabled (d : Decoder) (v : bool) : Decoder :=
  mkDecoder (dynTab d) v (maxStrLen d) (buf d) (saveBuf d) (firstField d).
Definition SetMaxStringLength (d : Decoder) (n : Z) : Decoder :=
  mkDecoder (dynTab d) (emitEnabled d) n (buf d) (saveBuf d) (firstField d).
Definition set_buf (d : Decoder) (v : bytes) : Decoder :=
  mkDecoder (dynTab d) (emitEnabled d) (maxStrLen d) v (saveBuf d) (firstField d).
Definition set_saveBuf (d : Decoder) (v : bytes) : Decoder :=
  mkDecoder (dynTab d) (emitEnabled d) (maxStrLen d) (buf d) v (firstField d).
Definition set_firstField (d : Decoder) (v : bool) : Decoder :=
  mkDecoder (dynTab d) (emitEnabled d) (maxStrLen d) (buf d) (saveBuf d) v.

Definition NewDecoder (maxDynamicTableSize : Z) : res Empty_set Decoder :=
  let dt := mkDynamicTable initTable 0 0 maxDynamicTableSize in
  let? dt := setMaxSize dt maxDynamicTableSize in
  Ok (mkDecoder dt true 0 [] [] true).

Definition SetMaxDynamicTableSize (d : Decoder) (v : Z) : res Empty_set Decoder :=
  let? dt := setMaxSize (dynTab d) v in Ok (set_dynTab d dt).

Definition SetAllowedMaxDynamicTableSize (d : Decoder) (v : Z) : Decoder :=
  set_dynTab d (mkDynamicTable (table (dynTab d)) (size (dynTab d)) (maxSize (dynTab d)) v).

Definition maxTableIndex (d : Decoder) : Z := tlen (table (dynTab d)) + tlen staticTable.

(** [d.at(i)]; a slice index out of range panics. *)
Definition Decoder_at (d : Decoder) (i : Z) : res error (option HeaderField) :=
  let index (l : list HeaderField) (k : Z) :=
    match (if k <? 0 then None else l !! Z.to_nat k) with
    | Some hf => Ok (Some hf)
    | None => Panic "index out of range"
    end in
  if i =? 0 then Ok None
  else if i <=? tlen staticTable then index (ents staticTable) (i - 1)
  else if maxTableIndex d <? i then Ok None
  else
    let dt := table (dynTab d) in
    index (ents dt) (tlen dt - (i64 i - tlen staticTable)).

Definition readString (maxStrLen : Z) (p : bytes) : res error (unencodedString * bytes) :=
  match p with
  | [] => Err errNeedMore
  | b :: _ =>
      let isHuff := negb (Z.land b 128 =? 0) in
      let? (strLen, p) := readVarInt 7 p in
      if negb (maxStrLen =? 0) && (u64 maxStrLen <? strLen) then Err ErrStringLength
      else if len p <? strLen then Err errNeedMore
      else Ok (mkUnencoded isHuff (take (Z.to_nat strLen) p), drop (Z.to_nat strLen) p)
  end.

(** The error of [huffmanDecode] is not returned: [return s, nil]. *)
Definition decodeString (maxStrLen : Z) (u : unencodedString) : res error bytes :=
  if negb (isHuff u) then Ok (ub u)
  else
    match huffmanDecode [] maxStrLen (ub u) with
    | Ok s => Ok s
    | Err _ => Ok []
    | Panic m => Panic m
    | NoFuel => NoFuel
    end.

Section Decoder.
Context {S : Type} (emit : HeaderField -> S * bool -> S * bool).

Notation M := (stateful (Decoder * S) error).

Definition get_d : M Decoder := fun st => (Ok st.1, st).
Definition mod_d (f : Decoder -> Decoder) : M unit := fun st => (Ok tt, (f st.1, st.2)).

Definition callEmit (hf : HeaderField) : M unit := fun '(d, s) =>
  if negb (maxStrLen d =? 0) &&
     ((maxStrLen d <? len (Name hf)) || (maxStrLen d <? len (Value hf)))
  then (Err ErrStringLength, (d, s))
  else if emitEnabled d then
    let (s, enabled) := emit hf (s, true) in
    (Ok tt, (SetEmitEnabled d enabled, s))
  else (Ok tt, (d, s)).

Definition parseFieldIndexed : M unit :=
  let* d := get_d in
  let* (idx, buf) := st_lift (readVarInt 7 (buf d)) in
  let* hf := st_lift (Decoder_at d idx) in
  match hf with
  | None => st_err (DecodingError (InvalidIndexError (i64 idx)))
  | Some hf =>
      mod_d (fun d => set_buf d buf) ;;;
      callEmit (mkHeaderField (Name hf) (Value hf) false)
  end.

(** The name of a literal: from the table, or a string literal. *)
Definition literal_name (d : Decoder) (nameIdx : Z) (buf : bytes) :
    res error (bytes * unencodedString * bytes) :=
  if 0 <? nameIdx then
    let? ihf := Decoder_at d nameIdx in
    match ihf with
    | None => Err (DecodingError (InvalidIndexError (i64 nameIdx)))
    | Some ihf => Ok (Name ihf, mkUnencoded false [], buf)
    end
  else
    let? (u, buf) := readString (maxStrLen d) buf in Ok ([], u, buf).

Definition parseFieldLiteral (n : Z) (it : indexType) : M unit :=
  let* d := get_d in
  let* (nameIdx, buf) := st_lift (readVarInt n (buf d)) in
  let wantStr := emitEnabled d || indexed it in
  let* (tableName, undecodedName, buf) := st_lift (literal_name d nameIdx buf) in
  let* (undecodedValue, buf) := st_lift (readString (maxStrLen d) buf) in
  let* (name, value) := st_lift (
    if wantStr then
      let? name := if nameIdx <=? 0 then decodeString (maxStrLen d) undecodedName
                   else Ok tableName in
      let? value := decodeString (maxStrLen d) undecodedValue in
      Ok (name, value)
    else Ok (tableName, [])) in
  mod_d (fun d => set_buf d buf) ;;;
  (if indexed it then
     mod_d (fun d => set_dynTab d (add (dynTab d) (mkHeaderField name value false)))
   else st_ret tt) ;;;
  callEmit (mkHeaderField name value (sensitive it)).

Definition parseDynamicTableSizeUpdate : M unit :=
  let* d := get_d in
  if negb (firstField d) && (0 <? size (dynTab d)) then
    st_err (DecodingError (ErrorText
      "dynamic table size update MUST occur at the beginning of a header block"))
  else
    let* (size, buf) := st_lift (readVarInt 5 (buf d)) in
    if allowedMaxSize (dynTab d) <? size then
      st_err (DecodingError (ErrorText "dynamic table size update too large"))
    else
      let* dt := st_lift (no_err (setMaxSize (dynTab d) (u32 size))) in
      mod_d (fun d => set_buf (set_dynTab d dt) buf).

Definition invalidEncoding : error := DecodingError (ErrorText "invalid encoding").

(** A call whose error result is ignored; a panic still propagates. *)
Definition discard (m : M unit) : M unit := fun st =>
  match m st with
  | (Err _, st) => (Ok tt, st)
  | r => r
  end.

(** The second case has no [return]: the result of [parseFieldLiteral] is
    dropped and control reaches the final [return]. *)
Definition parseHeaderFieldRepr : M unit :=
  let* d := get_d in
  match buf d with
  | [] => st_lift (Panic "index out of range")
  | b :: _ =>
      if negb (Z.land b 128 =? 0) then parseFieldIndexed
      else if Z.land b 192 =? 64 then
        (discard (parseFieldLiteral 6 indexedTrue) ;;; st_err invalidEncoding)
      else if Z.land b 240 =? 0 then parseFieldLiteral 4 indexedFalse
      else if Z.land b 240 =? 16 then parseFieldLiteral 4 indexedNever
      else if Z.land b 224 =? 32 then parseDynamicTableSizeUpdate
      else st_err invalidEncoding
  end.

(** The loop of [Write].  A field takes at least one byte, so [len(d.buf)]
    iterations are enough ([Write_total]). *)
Fixpoint Write_loop (fuel : nat) : M unit := fun st =>
  match buf st.1 with
  | [] => (Ok tt, st)
  | _ =>
      match fuel with
      | O => (NoFuel, st)
      | Datatypes.S fuel =>
          match parseHeaderFieldRepr st with
          | (Err errNeedMore, (d, s)) =>
              if negb (maxStrLen d =? 0) &&
                 (i64 (2 * i64 (maxStrLen d + 8)) <? len (buf d))
              then (Err ErrStringLength, (d, s))
              else (Ok tt, (set_saveBuf d (saveBuf d ++ buf d), s))
          | (Ok _, (d, s)) => Write_loop fuel (set_firstField d false, s)
          | (Err e, (d, s)) => (Err e, (set_firstField d false, s))
          | (Panic m, st) => (Panic m, st)
          | (NoFuel, st) => (NoFuel, st)
          end
      end
  end.

Definition Write (p : bytes) : M Z := fun '(d, s) =>
  match p with
  | [] => (Ok 0, (d, s))
  | _ =>
      let d :=
        match saveBuf d with
        | [] => set_buf d p
        | saved => set_saveBuf (set_buf d (saved ++ p)) []
        end in
      match Write_loop (length (buf d)) (d, s) with
      | (Ok _, st) => (Ok (len p), st)
      | (Err e, st) => (Err e, st)
      | (Panic m, st) => (Panic m, st)
      | (NoFuel, st) => (NoFuel, st)
      end
  end.

Definition Close : M unit := fun '(d, s) =>
  if 0 <? len (saveBuf d) then
    (Err (DecodingError (ErrorText "truncated headers")), (set_saveBuf d [], s))
  else (Ok tt, (set_firstField d true, s)).
End Decoder.

(** [DecodeFull] replaces the callback by one that appends to [hf] and puts
    the old one back when it returns. *)
Definition append_emit (f : HeaderField) (st : list HeaderField * bool) :
    list HeaderField * bool := (st.1 ++ [f], st.2).

Definition DecodeFull (p : bytes) : stateful Decoder error (list HeaderField) := fun d =>
  match Write append_emit p (d, []) with
  | (Ok _, st) =>
      match Close st with
      | (Ok _, (d, hf)) => (Ok hf, d)
      | (Err e, (d, _)) => (Err e, d)
      | (Panic m, (d, _)) => (Panic m, d)
      | (NoFuel, (d, _)) => (NoFuel, d)
      end
  | (Err e, (d, _)) => (Err e, d)
  | (Panic m, (d, _)) => (Panic m, d)
  | (NoFuel, (d, _)) => (NoFuel, d)
  end.
