(* ===== verification/HpackSync.v ===== *)
(** * Encoder and decoder together

    What [Encoder.WriteField] writes, [Decoder.Write] reads: strings, every
    field representation, whole header blocks, and the two dynamic tables
    staying equal.  A literal with incremental indexing is the exception: the
    decoder updates its table and emits the field, but ends with an error. *)
From S2P Require Import Prelude Hpack Varint Huffman HuffmanSpec Tables Io HpackEncode HpackDecode.

Local Open Scope Z_scope.
Local Open Scope go_scope.

#[local] Opaque getRootHuffmanNode huffmanDecode AppendHuffmanString.

(** ** Encoded integers in front of other data *)

Lemma or_at_app l1 b l2 v : or_at (l1 ++ b :: l2) (length l1) v = l1 ++ Z.lor b v :: l2.
Proof.
  unfold or_at. induction l1 as [|c l1 IH]; [done|]. simpl. f_equal. exact IH.
Qed.

(** A flagged integer: the prefix byte is the flag or-ed with the prefix. *)
Lemma flagged_varint dst n flag i rest :
  1 <= n <= 8 -> 0 <= i ->
  or_at (appendVarInt dst n i ++ rest) (length dst) flag =
    dst ++ or_at (appendVarInt [] n i) 0 flag ++ rest.
Proof.
  intros Hn Hi. rewrite appendVarInt_app.
  destruct (appendVarInt_cons n i Hn Hi) as (b & t & -> & _). rewrite or_at_0, <- app_assoc.
  apply or_at_app.
Qed.

Lemma flagged_varint_nil dst n flag i :
  1 <= n <= 8 -> 0 <= i ->
  or_at (appendVarInt dst n i) (length dst) flag = dst ++ or_at (appendVarInt [] n i) 0 flag.
Proof.
  intros. rewrite <- (app_nil_r (appendVarInt dst n i)), flagged_varint by done.
  by rewrite app_nil_r.
Qed.

Lemma flagged_varint_cons n flag i :
  1 <= n <= 8 -> 0 <= i ->
  exists b t, or_at (appendVarInt [] n i) 0 flag = Z.lor b flag :: t /\ 0 <= b < 2 ^ n.
Proof.
  intros Hn Hi. destruct (appendVarInt_cons n i Hn Hi) as (b & t & -> & Hb & _). eauto.
Qed.

Lemma or_at_none l : or_at l 0 0 = l.
Proof. destruct l; [done|]. by rewrite or_at_0, Z.lor_0_r. Qed.

(** ** Strings *)

(** A string the encoder can send: bytes, of a length that fits memory. *)
Definition str_ok (s : bytes) : Prop := is_bytes s /\ len s < 2 ^ 58.

(** The encoding of [s] with its flag and payload. *)
Definition string_payload (s : bytes) : bool * bytes :=
  if HuffmanEncodeLength s <? len s then (true, AppendHuffmanString [] s) else (false, s).

Lemma string_payload_len s :
  str_ok s ->
  len (string_payload s).2 =
    (if HuffmanEncodeLength s <? len s then HuffmanEncodeLength s else len s) /\
  len (string_payload s).2 <= len s.
Proof.
  intros [Hb Hl]. pose proof (len_nonneg s). unfold string_payload.
  destruct (Z.ltb_spec (HuffmanEncodeLength s) (len s)); [|done].
  pose proof (HuffmanEncodeLength_hlen s Hb Hl) as Hh. simpl.
  destruct (AppendHuffmanString_nil_encodes s Hb) as (_ & pad & Hpad & Hlen & _).
  assert (len (AppendHuffmanString [] s) = HuffmanEncodeLength s) by zdiv_lia. lia.
Qed.

Lemma appendHpackString_payload dst s :
  str_ok s ->
  let '(h, b) := string_payload s in
  appendHpackString dst s =
    dst ++ or_at (appendVarInt [] 7 (len b)) 0 (if h then 0x80 else 0) ++ b.
Proof.
  intros Hok. destruct (string_payload_len s Hok) as [Hlen _]. destruct Hok as [Hb Hl].
  pose proof (len_nonneg s). unfold string_payload, appendHpackString in *.
  destruct (Z.ltb_spec (HuffmanEncodeLength s) (len s)); simpl in Hlen |- *.
  - rewrite AppendHuffmanString_app, <- Hlen by done. apply flagged_varint; [lia|apply len_nonneg].
  - by rewrite or_at_none, appendVarInt_app, <- app_assoc.
Qed.

Lemma appendHpackString_app dst s :
  str_ok s -> appendHpackString dst s = dst ++ appendHpackString [] s.
Proof.
  intros Hok. pose proof (appendHpackString_payload dst s Hok) as H1.
  pose proof (appendHpackString_payload [] s Hok) as H2.
  destruct (string_payload s). by rewrite H1, H2.
Qed.

(** The length limit of a decoder admits [s]. *)
Definition limit_ok (maxStrLen : Z) (s : bytes) : Prop :=
  maxStrLen = 0 \/ (len s <= maxStrLen /\ maxStrLen < 2 ^ 63).

Lemma land_flag b : 0 <= b < 128 ->
  Z.land (Z.lor b 0x80) 128 = 128 /\ Z.land (Z.lor b 0) 128 = 0.
Proof.
  intros Hb.
  assert (((Z.land (Z.lor b 0x80) 128 =? 128) && (Z.land (Z.lor b 0) 128 =? 0))%bool = true) as H.
  { apply (seqZ_forallb (fun b =>
      ((Z.land (Z.lor b 0x80) 128 =? 128) && (Z.land (Z.lor b 0) 128 =? 0))%bool) 0 128 b); [vm_compute; reflexivity|lia]. }
  by bool_to_Prop.
Qed.

Lemma readString_append m s rest :
  str_ok s -> limit_ok m s ->
  let '(h, b) := string_payload s in
  readString m (appendHpackString [] s ++ rest) = Ok (mkUnencoded h b, rest).
Proof.
  intros Hok Hm. pose proof (appendHpackString_payload [] s Hok) as Henc.
  destruct (string_payload_len s Hok) as [_ Hle].
  destruct (string_payload s) as [h b] eqn:Ep. rewrite Henc. simpl in Hle. simpl app at 1.
  pose proof (len_nonneg b). destruct Hok as [_ Hl].
  set (flag := if h then 0x80 else 0).
  assert (flag mod 2 ^ 7 = 0 /\ 0 <= flag < 256) as [Hf1 Hf2] by (unfold flag; destruct h; split; done).
  pose proof (readVarInt_append 7 flag (len b) (b ++ rest) ltac:(lia) Hf1 Hf2 ltac:(lia)) as Hr.
  destruct (flagged_varint_cons 7 flag (len b)) as (c & t & Hc & Hc7); [lia|lia|].
  rewrite <- app_assoc. rewrite Hc in Hr |- *. simpl app in Hr |- *.
  unfold readString. rewrite Hr.
  destruct (Z.ltb_spec (len b - (2 ^ 7 - 1)) (2 ^ 63)); [|lia]. simpl.
  assert ((negb (m =? 0) && (u64 m <? len b))%bool = false) as ->.
  { destruct Hm as [->|[Hm1 Hm2]]; [done|]. rewrite u64_small by lia.
    rewrite (proj2 (Z.ltb_ge _ _)) by lia. apply andb_false_r. }
  rewrite len_app. pose proof (len_nonneg rest).
  rewrite (proj2 (Z.ltb_ge _ _)) by lia. unfold len at 1 2. rewrite Nat2Z.id.
  rewrite take_app_length, drop_app_length.
  destruct (land_flag c Hc7) as [Hset Hclear]. unfold flag in *.
  destruct h; by rewrite ?Hset, ?Hclear.
Qed.

Lemma string_payload_decode m s :
  str_ok s -> limit_ok m s ->
  let '(h, b) := string_payload s in decodeString m (mkUnencoded h b) = Ok s.
Proof.
  intros [Hb Hl] Hm. unfold string_payload, decodeString.
  destruct (HuffmanEncodeLength s <? len s); simpl; [|done].
  rewrite (huffmanDecode_encodes [] m s); [done..| |].
  - by apply AppendHuffmanString_nil_encodes.
  - destruct Hm as [->|[? _]]; [by left|by right].
Qed.

(** ** The common index space *)

Lemma static_len : tlen staticTable = 61.
Proof. reflexivity. Qed.
Lemma static_length : length (ents staticTable) = 61%nat.
Proof. reflexivity. Qed.
#[local] Opaque staticTable.

(** The entry with HPACK index [i], over the entries [dyn] of a dynamic
    table, oldest first. *)
Definition entry_at (dyn : list HeaderField) (i : Z) : option HeaderField :=
  if (i <=? 0) || (61 + len dyn <? i) then None
  else if i <=? 61 then ents staticTable !! Z.to_nat (i - 1)
  else dyn !! Z.to_nat (len dyn - (i - 61)).

Lemma table_wf_small t : table_wf t -> 0 <= tlen t < 2 ^ 62.
Proof. intros [Hc Hb _ _]. pose proof (len_nonneg (ents t)). unfold tlen in *. lia. Qed.

(** [at] is total: it never indexes out of range. *)
Lemma Decoder_at_entry d i :
  0 <= i -> table_wf (table (HpackDecode.dynTab d)) ->
  Decoder_at d i = Ok (entry_at (ents (table (HpackDecode.dynTab d))) i).
Proof.
  intros Hi Hwf. pose proof (table_wf_small _ Hwf). unfold Decoder_at, entry_at, maxTableIndex.
  rewrite static_len. unfold tlen in *. set (l := ents (table _)) in *.
  destruct (Z.eqb_spec i 0) as [->|]; [done|].
  rewrite (proj2 (Z.leb_gt i 0)) by lia. simpl orb.
  assert (forall (l : list HeaderField) k, 0 <= k < len l -> exists hf, l !! Z.to_nat k = Some hf) as Hin.
  { intros l' k Hk. apply lookup_lt_is_Some_2. unfold len in Hk. lia. }
  destruct (Z.leb_spec i 61).
  - rewrite (proj2 (Z.ltb_ge _ i)) by lia. rewrite (proj2 (Z.ltb_ge (i - 1) 0)) by lia.
    destruct (Hin (ents staticTable) (i - 1)) as [hf ->]; [|done].
    pose proof static_len as Hs. unfold tlen in Hs. lia.
  - rewrite (Z.add_comm (len l)). destruct (Z.ltb_spec (61 + len l) i); [done|].
    rewrite i64_small by lia. rewrite (proj2 (Z.ltb_ge (_ - _) 0)) by lia.
    destruct (Hin l (len l - (i - 61))) as [hf ->]; [lia|done].
Qed.

Lemma entry_at_table dyn i hf : entry_at dyn i = Some hf -> 1 <= i <= 61 + len dyn.
Proof.
  unfold entry_at. destruct (Z.leb_spec i 0); simpl; [done|].
  destruct (Z.ltb_spec (61 + len dyn) i); [done|]. lia.
Qed.

Section Search.
Context {W E : Type} {WR : Writer W E}.

Definition dyn_ents (e : Encoder W) : list HeaderField := ents (table (HpackEncode.dynTab e)).

(** All entries a field can be found among. *)
Definition all_entries (e : Encoder W) : list HeaderField := ents staticTable ++ dyn_ents e.

Lemma searchTable_facts e f :
  table_wf (table (HpackEncode.dynTab e)) ->
  exists i m, searchTable e f = Ok (i, m) /\ 0 <= i < 2 ^ 63 /\
    (m = true <-> Sensitive f = false /\ exists g, g ∈ all_entries e /\ pair_of g = pair_of f) /\
    (i = 0 <-> forall g, g ∈ all_entries e -> Name g <> Name f) /\
    (i <> 0 -> exists g, entry_at (dyn_ents e) i = Some g /\ Name g = Name f /\
       (m = true -> Value g = Value f)).
Proof.
  intros Hwf. pose proof (table_wf_small _ Hwf) as Hsmall.
  unfold searchTable, all_entries, dyn_ents. set (t := table _) in *.
  rewrite (search_newest true staticTable f staticTable_wf), (search_newest false t f Hwf).
  destruct (search_spec true staticTable f) as [i m] eqn:Es.
  destruct (search_spec false t f) as [j m'] eqn:Ed.
  apply search_spec_facts in Es as (Sm & Si & Se).
  apply search_spec_facts in Ed as (Dm & Di & De).
  assert (i <> 0 -> 1 <= i <= 61 /\ exists g, entry_at (ents t) i = Some g /\
    Name g = Name f /\ (m = true -> Value g = Value f)) as Hs.
  { intros Hi. destruct (Se Hi) as (k & g & -> & Hg & ?). unfold table_index.
    pose proof (lookup_lt_Some _ _ _ Hg). rewrite ?static_length in *.
    split; [lia|]. exists g. split; [|done]. unfold entry_at. pose proof (len_nonneg (ents t)).
    rewrite (proj2 (Z.leb_gt _ 0)), (proj2 (Z.ltb_ge _ _)), (proj2 (Z.leb_le _ 61)) by lia.
    simpl. by replace (Z.to_nat (Z.of_nat k + 1 - 1)) with k by lia. }
  assert (j <> 0 -> u64 (j + tlen staticTable) = j + 61 /\ 1 <= j <= tlen t /\
    exists g, entry_at (ents t) (j + 61) = Some g /\
    Name g = Name f /\ (m' = true -> Value g = Value f)) as Hd.
  { intros Hj. destruct (De Hj) as (k & g & -> & Hg & ?). rewrite static_len.
    unfold table_index, tlen, len in *. pose proof (lookup_lt_Some _ _ _ Hg).
    rewrite ?static_length in *.
    rewrite u64_small by lia. split_and!; [lia|lia|lia|]. exists g. split; [|done].
    unfold entry_at, len.
    rewrite (proj2 (Z.leb_gt _ 0)), (proj2 (Z.ltb_ge _ _)), (proj2 (Z.leb_gt _ 61)) by lia.
    simpl. by replace (Z.to_nat _) with k by lia. }
  assert (forall st t', (exists g, g ∈ ents t' /\ pair_of g = pair_of f) ->
    (st = 0 <-> forall g, g ∈ ents t' -> Name g <> Name f) -> st <> 0) as Hpair.
  { intros st t' (g & Hg & [= Hn Hv]) Hst Hz. by apply (proj1 Hst Hz g). }
  destruct m; simpl.
  - destruct (proj1 Sm eq_refl) as [Hsens Hex]. pose proof (Hpair i _ Hex Si) as Hi.
    destruct (Hs Hi) as [Hrange Hent]. exists i, true. split_and!; [done|lia|lia| | |done].
    + split; [intros _|done]. split; [done|]. destruct Hex as (g & Hg & ?).
      exists g. rewrite elem_of_app. auto.
    + split; [done|]. intros Hno. exfalso. destruct Hex as (g & Hg & [= ? ?]).
      apply (Hno g); [rewrite elem_of_app; auto|done].
  - assert (forall g, g ∈ ents staticTable -> Sensitive f = false -> pair_of g <> pair_of f) as Hns.
    { intros g Hg Hsens Heq. enough (false = true) by done. apply Sm. eauto. }
    destruct (m' || ((i =? 0) && negb (j =? 0)))%bool eqn:Em.
    + assert (j <> 0) as Hj.
      { destruct m'; simpl in Em.
        - destruct (proj1 Dm eq_refl) as [_ Hex]. exact (Hpair j _ Hex Di).
        - bool_to_Prop. done. }
      destruct (Hd Hj) as (Hu & Hrange & Hent). rewrite Hu. exists (j + 61), m'.
      split_and!; [done|lia|lia| | |done].
      * rewrite Dm. setoid_rewrite elem_of_app. split.
        { intros (Hsens & g & Hg & Heq). split; [done|]. exists g. auto. }
        intros (Hsens & g & [Hg|Hg] & Heq); [by destruct (Hns g)|eauto].
      * split; [lia|]. intros Hno. exfalso. apply Hj, Di. intros g Hg.
        apply Hno. rewrite elem_of_app. auto.
    + apply orb_false_iff in Em as [-> Em]. exists i, false.
      assert (forall g, g ∈ ents t -> Sensitive f = false -> pair_of g <> pair_of f) as Hnd.
      { intros g Hg Hsens Heq. enough (false = true) by done. apply Dm. eauto. }
      split_and!; [done|..].
      * destruct (Z.eq_dec i 0) as [->|Hi]; [done|]. destruct (Hs Hi). lia.
      * destruct (Z.eq_dec i 0) as [->|Hi]; [done|]. destruct (Hs Hi). lia.
      * split; [done|]. intros (Hsens & g & [Hg|Hg]%elem_of_app & Heq);
          [by destruct (Hns g)|by destruct (Hnd g)].
      * split.
        -- intros Hi. subst i. simpl in Em. bool_to_Prop. intros g [Hg|Hg]%elem_of_app;
             [by apply Si|by apply Di].
        -- intros Hno. apply Si. intros g Hg. apply Hno. rewrite elem_of_app. auto.
      * intros Hi. by apply Hs.
Qed.
End Search.

#[local] Arguments callEmit : simpl never.
#[local] Arguments or_at : simpl never.
#[local] Arguments appendVarInt : simpl never.
#[local] Arguments appendHpackString : simpl never.

(** ** Decoding one representation *)

Section Fields.
Context {S : Type} (emit : HeaderField -> S * bool -> S * bool).

(** The decoder's length limit admits the field. *)
Definition hf_fits (m : Z) (hf : HeaderField) : Prop :=
  limit_ok m (Name hf) /\ limit_ok m (Value hf).

Lemma hf_fits_0 hf : hf_fits 0 hf.
Proof. split; by left. Qed.

(** The effect of [callEmit] when the length limit admits the field. *)
Definition emitted (d : Decoder) (s : S) (hf : HeaderField) : Decoder * S :=
  if emitEnabled d then
    let (s, enabled) := emit hf (s, true) in (SetEmitEnabled d enabled, s)
  else (d, s).

Lemma callEmit_fits d s hf :
  hf_fits (maxStrLen d) hf -> callEmit emit hf (d, s) = (Ok tt, emitted d s hf).
Proof.
  intros [Hn Hv]. unfold callEmit, emitted.
  replace (negb (maxStrLen d =? 0) && _)%bool with false.
  - destruct (emitEnabled d); [|done]. by destruct (emit hf (s, true)).
  - destruct Hn as [->|[Hn _]]; [done|]. destruct Hv as [->|[Hv _]]; [done|].
    rewrite !(proj2 (Z.ltb_ge (maxStrLen d) _)) by lia. by rewrite andb_false_r.
Qed.

Lemma parseFieldIndexed_ok d s i rest g :
  hf_fits (maxStrLen d) g -> table_wf (table (dynTab d)) ->
  readVarInt 7 (buf d) = Ok (i, rest) -> 0 <= i ->
  entry_at (ents (table (dynTab d))) i = Some g ->
  parseFieldIndexed emit (d, s) =
    (Ok tt, emitted (set_buf d rest) s (mkHeaderField (Name g) (Value g) false)).
Proof.
  intros H0 Hwf Hr Hi Hg. unfold parseFieldIndexed, st_bind, st_lift, get_d, mod_d. simpl.
  rewrite Hr, Decoder_at_entry, Hg by done. simpl. by apply callEmit_fits.
Qed.

(** What follows the prefix of a literal: an indexed name or a string. *)
Definition name_part (dyn : list HeaderField) (idx : Z) (name after rest : bytes) : Prop :=
  (idx = 0 /\ after = appendHpackString [] name ++ rest) \/
  (0 < idx /\ after = rest /\ exists g, entry_at dyn idx = Some g /\ Name g = name).

Lemma parseFieldLiteral_ok d s n it idx after name value rest :
  limit_ok (maxStrLen d) name -> limit_ok (maxStrLen d) value ->
  emitEnabled d = true -> table_wf (table (dynTab d)) ->
  readVarInt n (buf d) = Ok (idx, after) ->
  name_part (ents (table (dynTab d))) idx name after (appendHpackString [] value ++ rest) ->
  str_ok name -> str_ok value ->
  parseFieldLiteral emit n it (d, s) =
    (Ok tt, emitted
      (let d := set_buf d rest in
       if indexed it then set_dynTab d (add (dynTab d) (mkHeaderField name value false)) else d)
      s (mkHeaderField name value (sensitive it))).
Proof.
  intros Ln Lv Hemit Hwf Hr Hname Hokn Hokv.
  pose proof (readString_append _ name (appendHpackString [] value ++ rest) Hokn Ln) as Rn.
  pose proof (readString_append _ value rest Hokv Lv) as Rv.
  pose proof (string_payload_decode _ name Hokn Ln) as Dn.
  pose proof (string_payload_decode _ value Hokv Lv) as Dv.
  destruct (string_payload name) as [hn bn], (string_payload value) as [hv bv].
  unfold parseFieldLiteral, literal_name, st_bind, st_lift, get_d, mod_d, st_ret.
  cbn [fst snd]. rewrite Hr. cbn [fst snd]. rewrite Hemit. cbn [orb].
  destruct Hname as [[-> ->]|(Hi & -> & g & Hg & <-)].
  - simpl. rewrite Rn. simpl. rewrite Rv. simpl. rewrite Dn. simpl. rewrite Dv. simpl.
    destruct (indexed it); simpl; by apply callEmit_fits.
  - rewrite (proj2 (Z.ltb_lt 0 idx)) by done. simpl.
    rewrite Decoder_at_entry, Hg by (done || lia). simpl. rewrite Rv. simpl.
    rewrite (proj2 (Z.leb_gt idx 0)) by done. simpl. rewrite Dv. simpl.
    destruct (indexed it); simpl; by apply callEmit_fits.
Qed.

(** The first byte selects the representation. *)
Definition kind (b : Z) : Z :=
  if negb (Z.land b 128 =? 0) then 128
  else if Z.land b 192 =? 64 then 64
  else if Z.land b 240 =? 0 then 0
  else if Z.land b 240 =? 16 then 16
  else if Z.land b 224 =? 32 then 32 else -1.

Lemma kind_flag b n flag :
  In (n, flag) [(7, 128); (6, 64); (4, 0); (4, 16); (5, 32)] -> 0 <= b < 2 ^ n ->
  kind (Z.lor b flag) = flag /\ 1 <= n <= 8 /\ flag mod 2 ^ n = 0 /\ 0 <= flag < 256.
Proof.
  intros Hin Hb. split.
  - assert (forallb (fun p => forallb (fun b => kind (Z.lor b p.2) =? p.2) (seqZ 0 (2 ^ p.1)))
      [(7, 128); (6, 64); (4, 0); (4, 16); (5, 32)] = true) as H by (vm_compute; reflexivity).
    rewrite forallb_forall in H. specialize (H _ Hin).
    apply (seqZ_forallb _ _ _ b) in H; [|simpl; lia]. simpl in H. by bool_to_Prop.
  - clear Hb. simpl in Hin. destruct_or! Hin; try done; injection Hin as <- <-; done.
Qed.

(** The handler that each kind selects, from the source's [switch]. *)
Definition handler (k : Z) : stateful (Decoder * S) error unit :=
  if k =? 128 then parseFieldIndexed emit
  else if k =? 64 then
    (discard (parseFieldLiteral emit 6 indexedTrue) ;;; st_err invalidEncoding)
  else if k =? 0 then parseFieldLiteral emit 4 indexedFalse
  else if k =? 16 then parseFieldLiteral emit 4 indexedNever
  else if k =? 32 then parseDynamicTableSizeUpdate
  else st_err invalidEncoding.

Lemma parseHeaderFieldRepr_kind d s b p :
  buf d = b :: p -> parseHeaderFieldRepr emit (d, s) = handler (kind b) (d, s).
Proof.
  intros Hb. unfold parseHeaderFieldRepr, st_bind, get_d, handler, kind. simpl. rewrite Hb.
  repeat (destruct (_ =? _); simpl; [try done|]); try done.
Qed.

(** A flagged integer at the front of the buffer. *)
Lemma parse_flagged d s n flag i rest :
  In (n, flag) [(7, 128); (6, 64); (4, 0); (4, 16); (5, 32)] -> 0 <= i < 2 ^ 63 ->
  buf d = or_at (appendVarInt [] n i) 0 flag ++ rest ->
  parseHeaderFieldRepr emit (d, s) = handler flag (d, s) /\
  readVarInt n (buf d) = Ok (i, rest).
Proof.
  intros Hin Hi Hb.
  assert (1 <= n <= 8) as Hn.
  { clear -Hin. simpl in Hin. destruct_or! Hin; try done; injection Hin as <- <-; done. }
  destruct (flagged_varint_cons n flag i) as (b & t & Hc & Hb2); [done|lia|].
  destruct (kind_flag b n flag Hin Hb2) as (Hk & _ & Hmod & Hflag).
  rewrite Hb. split.
  - rewrite Hc in Hb. simpl in Hb. by rewrite (parseHeaderFieldRepr_kind d s _ _ Hb), Hk.
  - rewrite readVarInt_append by (done || lia).
    destruct (Z.ltb_spec (i - (2 ^ n - 1)) (2 ^ 63)); [done|].
    pose proof (pow2_pos n). lia.
Qed.
End Fields.

(** ** [encodeField] in one equation *)

Section Encode.
Context {W E : Type} {WR : Writer W E}.

(** Prefix length and type bits of the representation chosen for [f]. *)
Definition prefix_of (f : HeaderField) (m indexing : bool) : Z * Z :=
  if m then (7, 0x80)
  else (if indexing then 6 else 4, encodeTypeByte indexing (Sensitive f)).

Definition repr_payload (f : HeaderField) (i : Z) (m : bool) : bytes :=
  if m then []
  else (if i =? 0 then appendHpackString [] (Name f) else []) ++ appendHpackString [] (Value f).

Definition repr (f : HeaderField) (i : Z) (m indexing : bool) : bytes :=
  let (n, flag) := prefix_of f m indexing in
  or_at (appendVarInt [] n i) 0 flag ++ repr_payload f i m.

(** A field whose name and value the encoder can send. *)
Definition field_ok (f : HeaderField) : Prop := str_ok (Name f) /\ str_ok (Value f).

Lemma appendNewName_repr dst f indexing :
  field_ok f -> appendNewName dst f indexing = dst ++ repr f 0 false indexing.
Proof.
  intros [Hn Hv]. unfold appendNewName, repr, repr_payload. simpl.
  rewrite (appendHpackString_app (dst ++ _) (Name f)) by done.
  rewrite (appendHpackString_app (_ ++ _) (Value f)) by done.
  replace (or_at (appendVarInt [] _ 0) 0 _) with [encodeTypeByte indexing (Sensitive f)].
  - by rewrite <- !app_assoc.
  - destruct indexing; rewrite appendVarInt_small by lia; by rewrite or_at_0.
Qed.

Lemma appendIndexedName_repr dst f i indexing :
  field_ok f -> 0 < i ->
  appendIndexedName dst f i indexing = dst ++ repr f i false indexing.
Proof.
  intros [Hn Hv] Hi. unfold appendIndexedName, repr, repr_payload.
  rewrite (appendHpackString_app (or_at _ _ _)) by done. simpl.
  rewrite (proj2 (Z.eqb_neq i 0)) by lia.
  rewrite flagged_varint_nil by (destruct indexing; lia). by rewrite <- app_assoc.
Qed.

Lemma appendIndexed_repr dst f i indexing :
  0 <= i -> appendIndexed dst i = dst ++ repr f i true indexing.
Proof.
  intros. unfold appendIndexed, repr, repr_payload. simpl.
  by rewrite app_nil_r, flagged_varint_nil by lia.
Qed.

(** A representation is not empty and never longer than the size accounted
    for the field. *)
Definition raw_size (f : HeaderField) : Z := len (Name f) + len (Value f) + 32.
Fixpoint raw_sizes (l : list HeaderField) : Z :=
  match l with [] => 0 | f :: l => raw_size f + raw_sizes l end.

Lemma flagged_varint_bytes n flag i :
  1 <= n <= 8 -> is_byte flag -> 0 <= i < 2 ^ 63 ->
  let b := or_at (appendVarInt [] n i) 0 flag in (0 < length b)%nat /\ len b <= 10 /\ is_bytes b.
Proof.
  intros Hn Hf Hi b. split_and!.
  - unfold b. destruct (flagged_varint_cons n flag i) as (c & t & -> & _); [lia..|]. simpl. lia.
  - unfold b. rewrite or_at_len.
    pose proof (appendVarInt_len n 9 i Hn ltac:(lia) ltac:(simpl; lia)). lia.
  - unfold b. destruct (appendVarInt_cons n i Hn ltac:(lia)) as (c & t & -> & Hc & Ht).
    rewrite or_at_0. constructor; [|exact Ht].
    assert (2 ^ n <= 2 ^ 8) by (apply Z.pow_le_mono_r; lia). by apply lor_byte; [unfold is_byte; lia|].
Qed.

Lemma appendHpackString_bytes s :
  str_ok s -> len (appendHpackString [] s) <= len s + 10 /\ is_bytes (appendHpackString [] s).
Proof.
  intros Hok. pose proof (appendHpackString_payload [] s Hok) as Hp.
  destruct (string_payload_len s Hok) as [_ Hle].
  assert (is_bytes (string_payload s).2) as Hb.
  { destruct Hok as [Hb _]. unfold string_payload. destruct (_ <? _); [|done]. simpl.
    by apply (AppendHuffmanString_nil_encodes s Hb). }
  destruct (string_payload s) as [h b]. rewrite Hp. simpl app. simpl in Hle, Hb.
  pose proof (len_nonneg b). destruct Hok as [_ Hl].
  destruct (flagged_varint_bytes 7 (if h then 0x80 else 0) (len b)) as (_ & H1 & H2);
    [lia|by destruct h|lia|].
  rewrite len_app. split; [lia|]. by apply is_bytes_app.
Qed.

Lemma repr_bytes f i m indexing :
  field_ok f -> 0 <= i < 2 ^ 63 ->
  (0 < length (repr f i m indexing))%nat /\ len (repr f i m indexing) <= raw_size f /\
  is_bytes (repr f i m indexing).
Proof.
  intros [Hn Hv] Hi. unfold repr, raw_size. destruct (prefix_of f m indexing) as [n flag] eqn:Ep.
  destruct (flagged_varint_bytes n flag i) as (H0 & H1 & H2); [| |done|].
  { unfold prefix_of in Ep. destruct m; [|destruct indexing]; injection Ep; lia. }
  { unfold prefix_of, encodeTypeByte in Ep.
    destruct m; [|destruct (Sensitive f), indexing]; injection Ep as _ <-; done. }
  pose proof (len_nonneg (Name f)). pose proof (len_nonneg (Value f)).
  destruct (appendHpackString_bytes _ Hn) as [Hn1 Hn2], (appendHpackString_bytes _ Hv) as [Hv1 Hv2].
  rewrite length_app, len_app. unfold repr_payload. destruct m; [|destruct (i =? 0)].
  - change (len (@nil Z)) with 0. rewrite app_nil_r. split; [lia|]. by split; [lia|].
  - rewrite len_app. split; [lia|]. split; [lia|]. apply is_bytes_app. split; [done|].
    by apply is_bytes_app.
  - change (len ([] ++ ?x)) with (len x). rewrite app_nil_l. split; [lia|]. split; [lia|].
    by apply is_bytes_app.
Qed.

(** The table after sending [f]: a new literal is added to it. *)
Definition sent_table (e : Encoder W) (f : HeaderField) (m : bool) : dynamicTable :=
  if negb m && shouldIndex e f then add (HpackEncode.dynTab e) f else HpackEncode.dynTab e.

Lemma encodeField_repr e f i m :
  field_ok f -> 0 <= i -> searchTable e f = Ok (i, m) ->
  encodeField e f = Ok (with_buf (with_dynTab e (sent_table e f m))
    (HpackEncode.buf e ++ repr f i m (shouldIndex e f))).
Proof.
  intros Hok Hi Hs. unfold encodeField, sent_table. rewrite Hs. simpl.
  destruct m; [by rewrite (appendIndexed_repr _ f i (shouldIndex e f)) by done|]. simpl.
  destruct (shouldIndex e f); simpl.
  - destruct (Z.eqb_spec i 0) as [->|]; [by rewrite appendNewName_repr|].
    by rewrite appendIndexedName_repr by (done || lia).
  - destruct (Z.eqb_spec i 0) as [->|]; [by rewrite appendNewName_repr|].
    by rewrite appendIndexedName_repr by (done || lia).
Qed.
End Encode.

(** ** One field through both sides *)

Section Field.
Context {W E : Type} {WR : Writer W E} {S : Type} (emit : HeaderField -> S * bool -> S * bool).

(** The two dynamic tables hold the same entries and count the same size. *)
Definition synced (e : Encoder W) (d : Decoder) : Prop :=
  ents (table (HpackEncode.dynTab e)) = ents (table (dynTab d)) /\
  size (HpackEncode.dynTab e) = size (dynTab d).

Definition tables_wf (e : Encoder W) (d : Decoder) : Prop :=
  table_wf (table (HpackEncode.dynTab e)) /\ table_wf (table (dynTab d)).

(** [f] will be a literal with incremental indexing. *)
Definition incremental (e : Encoder W) (f : HeaderField) : bool :=
  match searchTable e f with
  | Ok (_, m) => negb m && shouldIndex e f
  | _ => false
  end.

Lemma encodeField_decoded e f d s e' rest :
  tables_wf e d -> synced e d -> field_ok f -> hf_fits (maxStrLen d) f -> emitEnabled d = true ->
  HpackEncode.buf e = [] -> encodeField e f = Ok e' ->
  buf d = HpackEncode.buf e' ++ rest ->
  let d' := set_buf d rest in
  if incremental e f then
    parseHeaderFieldRepr emit (d, s) =
      (Err invalidEncoding, emitted emit (set_dynTab d' (add (dynTab d) f)) s f) /\
    HpackEncode.dynTab e' = add (HpackEncode.dynTab e) f
  else
    parseHeaderFieldRepr emit (d, s) = (Ok tt, emitted emit d' s f) /\
    HpackEncode.dynTab e' = HpackEncode.dynTab e.
Proof.
  intros [Hwe Hwd] [Hents _] Hok H0 Hemit Hbuf He Hd d'.
  destruct (searchTable_facts e f Hwe) as (i & m & Hs & Hi & Hm & Hi0 & Hent).
  rewrite (encodeField_repr e f i m Hok ltac:(lia) Hs) in He. injection He as <-.
  simpl in Hd. rewrite Hbuf in Hd. simpl in Hd. unfold dyn_ents in Hent. rewrite Hents in Hent.
  unfold incremental. rewrite Hs. unfold sent_table. simpl.
  destruct m; simpl.
  - split; [|done]. destruct (proj1 Hm eq_refl) as [Hsens (g0 & Hg0 & [= Hg0n _])].
    assert (i <> 0) as Hne by (intros ->; by apply (proj1 Hi0 eq_refl g0)).
    destruct (Hent Hne) as (g & Hg & Hgn & Hgv).
    unfold repr in Hd. simpl in Hd. rewrite app_nil_r in Hd.
    destruct (parse_flagged emit d s 7 128 i rest) as [-> Hr]; [simpl; auto|lia|done|].
    change (parseFieldIndexed emit (d, s) = (Ok tt, emitted emit d' s f)).
    rewrite (parseFieldIndexed_ok emit d s i rest g); [|unfold hf_fits; by rewrite Hgn, Hgv|done || lia..].
    rewrite Hgn, Hgv by done. destruct f; simpl in *. by rewrite Hsens.
  - assert (forall n flag it, prefix_of f false (shouldIndex e f) = (n, flag) ->
      sensitive it = Sensitive f ->
      In (n, flag) [(7, 128); (6, 64); (4, 0); (4, 16); (5, 32)] ->
      parseHeaderFieldRepr emit (d, s) = handler emit flag (d, s) /\
      parseFieldLiteral emit n it (d, s) = (Ok tt, emitted emit
        (if indexed it then set_dynTab d' (add (dynTab d) (mkHeaderField (Name f) (Value f) false))
         else d') s f)) as Hlit.
    { intros n flag it Hp Hsens Hin. unfold repr in Hd. rewrite Hp in Hd.
      rewrite <- app_assoc in Hd.
      destruct (parse_flagged emit d s n flag i (repr_payload f i false ++ rest)) as [-> Hr];
        [done|lia|done|]. split; [done|].
      destruct Hok as [Hokn Hokv].
      rewrite (parseFieldLiteral_ok emit d s n it i _ (Name f) (Value f) rest (proj1 H0) (proj2 H0)
        Hemit Hwd Hr); [|..|done|done].
      - simpl. rewrite Hsens. destruct f; done.
      - unfold repr_payload, name_part. rewrite <- app_assoc.
        destruct (Z.eqb_spec i 0) as [->|Hne]; [by left|right].
        destruct (Hent Hne) as (g & Hg & Hgn & _). split_and!; [lia|done|eauto]. }
    unfold prefix_of, encodeTypeByte in Hlit.
    destruct (shouldIndex e f) eqn:Ei; simpl.
    + assert (Sensitive f = false) as Es.
      { unfold shouldIndex in Ei. by destruct (Sensitive f). }
      rewrite Es in Hlit. split; [|done].
      destruct (Hlit 6 64 indexedTrue) as [-> Hl]; [done..|simpl; auto|].
      unfold handler. cbn [Z.eqb Pos.eqb].
      unfold st_bind, discard. rewrite Hl. simpl. destruct f; simpl in *. by rewrite Es.
    + split; [|done]. destruct (Sensitive f) eqn:Es.
      * destruct (Hlit 4 16 indexedNever) as [-> Hl]; [done..|simpl; auto 6|exact Hl].
      * destruct (Hlit 4 0 indexedFalse) as [-> Hl]; [done..|simpl; auto|exact Hl].
Qed.
End Field.

(** ** Header blocks *)

(** Several fields in a row, as the writers of header blocks do. *)
Fixpoint WriteFields {W E} `{Writer W E} (fs : list HeaderField) :
    stateful (Encoder W) (io_error E) unit :=
  match fs with
  | [] => st_ret tt
  | f :: fs => WriteField f ;;; WriteFields fs
  end.

(** The callback accepts the fields one after the other, staying enabled. *)
Fixpoint emits {S} (emit : HeaderField -> S * bool -> S * bool) (s : S) (fs : list HeaderField)
    (s' : S) : Prop :=
  match fs with
  | [] => s' = s
  | f :: fs => exists s1, emit f (s, true) = (s1, true) /\ emits emit s1 fs s'
  end.

Lemma append_emits hf fs : emits append_emit hf fs (hf ++ fs).
Proof.
  revert hf. induction fs as [|f fs IH]; intros hf; [by rewrite app_nil_r|].
  exists (hf ++ [f]). split; [done|]. pose proof (IH (hf ++ [f])) as H.
  by rewrite <- app_assoc in H.
Qed.

Section Blocks.
Notation Enc := (Encoder bytes).

(** [encodeField] depends on the tables only. *)
Lemma incremental_dynTab (e e' : Enc) f :
  HpackEncode.dynTab e = HpackEncode.dynTab e' -> incremental e f = incremental e' f.
Proof. intros Heq. unfold incremental, searchTable, shouldIndex. by rewrite Heq. Qed.

Definition after_write (e : Enc) (b : bytes) : Enc :=
  mkEncoder (HpackEncode.dynTab e) (minSize e) (maxSizeLimit e) (tableSizeUpdate e)
    (w e ++ b) b.

(** One call of [WriteField] with no update pending, into a buffer. *)
Lemma WriteField_repr (e : Enc) f :
  table_wf (table (HpackEncode.dynTab e)) -> field_ok f -> tableSizeUpdate e = false ->
  exists b t, encodeField (with_buf e []) f = Ok (with_buf (with_dynTab e t) b) /\
    (0 < length b)%nat /\ len b <= raw_size f /\ is_bytes b /\
    WriteField f e = (Ok tt, after_write (with_dynTab e t) b).
Proof.
  intros Hwf Hok Hupd.
  destruct (searchTable_facts (with_buf e []) f Hwf) as (i & m & Hs & Hi & _).
  pose proof (encodeField_repr (with_buf e []) f i m Hok ltac:(lia) Hs) as He.
  simpl app in He. eexists _, _. split; [exact He|].
  destruct (repr_bytes f i m (shouldIndex (with_buf e []) f) Hok Hi) as (Hlen & Hle & Hb).
  split_and!; [exact Hlen|exact Hle|exact Hb|].
  - unfold WriteField, flushTableSize. simpl. rewrite Hupd, He. simpl. by rewrite Z.eqb_refl.
Qed.

Lemma WriteFields_block fs (e : Enc) :
  table_wf (table (HpackEncode.dynTab e)) -> tableSizeUpdate e = false ->
  Forall (fun f => field_ok f /\ incremental e f = false) fs ->
  exists e' block, WriteFields fs e = (Ok tt, e') /\ w e' = w e ++ block /\
    HpackEncode.dynTab e' = HpackEncode.dynTab e /\
    tableSizeUpdate e' = false /\ len block <= raw_sizes fs /\ is_bytes block /\ (fs <> [] -> block <> []) /\
    forall S (emit : HeaderField -> S * bool -> S * bool) d s s' fuel,
      table_wf (table (dynTab d)) ->
      ents (table (HpackEncode.dynTab e)) = ents (table (dynTab d)) ->
      size (HpackEncode.dynTab e) = size (dynTab d) ->
      Forall (hf_fits (maxStrLen d)) fs -> emits emit s fs s' ->
      emitEnabled d = true -> buf d = block -> (length block <= fuel)%nat ->
      exists d', Write_loop emit fuel (d, s) = (Ok tt, (d', s')) /\
        dynTab d' = dynTab d /\ saveBuf d' = saveBuf d.
Proof.
  intros Hwf Hupd Hfs. revert e Hwf Hupd Hfs. induction fs as [|f fs IH]; intros e Hwf Hupd Hfs.
  - exists e, []. rewrite app_nil_r. split_and!; try done; [by constructor|].
    intros S emit d s s' fuel _ _ _ _ -> _ Hbuf _. exists d.
    destruct fuel; simpl; by rewrite Hbuf.
  - apply Forall_cons_iff in Hfs as [[Hok Hinc] Hfs].
    destruct (WriteField_repr e f Hwf Hok Hupd) as (b & t & He & Hb & Hbl & Hbb & Hw).
    assert (t = HpackEncode.dynTab e) as ->.
    { destruct (searchTable_facts (with_buf e []) f Hwf) as (i & m & Hs & Hi & _).
      rewrite (encodeField_repr (with_buf e []) f i m Hok ltac:(lia) Hs) in He.
      injection He as Ht _. rewrite <- Ht. unfold sent_table. simpl.
      rewrite (incremental_dynTab e (with_buf e [])) in Hinc by done.
      unfold incremental in Hinc. rewrite Hs in Hinc. by rewrite Hinc. }
    destruct (IH (after_write (with_dynTab e (HpackEncode.dynTab e)) b))
      as (e' & block & Hws & Hwe & Hdt & Hupd' & Hlen & Hbytes & _ & Hdec); [done|done| |].
    { revert Hfs. apply Forall_impl. intros g [? Hg]. split; [done|].
      rewrite <- Hg. by apply incremental_dynTab. }
    exists e', (b ++ block). split_and!.
    + simpl. unfold st_bind. by rewrite Hw.
    + by rewrite Hwe, app_assoc.
    + done.
    + done.
    + rewrite len_app. simpl. lia.
    + by apply is_bytes_app.
    + intros _. destruct b; [simpl in Hb; lia|done].
    + intros S emit d s s' fuel Hwd Hents Hsize Hfits Hemits Hemit Hbuf Hfuel.
      rewrite length_app in Hfuel. apply Forall_cons_iff in Hfits as [Hfit Hfits].
      destruct Hemits as (s1 & Hs1 & Hemits).
      destruct fuel as [|fuel]; [lia|].
      pose proof (encodeField_decoded emit (with_buf e []) f d s
        (with_buf (with_dynTab e (HpackEncode.dynTab e)) b) block (conj Hwf Hwd)
        (conj Hents Hsize) Hok Hfit Hemit eq_refl He Hbuf) as Hp.
      rewrite (incremental_dynTab (with_buf e []) e), Hinc in Hp by done.
      destruct Hp as [Hp _]. cbn [Write_loop]. unfold fst at 1.
      destruct (buf d) eqn:Eb; [destruct b; simpl in *; [lia|done]|]. rewrite Hp.
      unfold emitted. cbn [set_buf emitEnabled]. rewrite Hemit, Hs1. cbn [fst snd].
      destruct (Hdec S emit (set_firstField (SetEmitEnabled (set_buf d block) true) false) s1 s' fuel)
        as (d' & Hl & Hd1 & Hd2); try done; [lia|].
      by exists d'.
Qed.

(** C1: a header block written by [Encoder.WriteField] for fields that are not
    newly indexed (sensitive ones, ones already in a table, ones too big for
    it) is decoded by [DecodeFull] to exactly those fields, sensitivity
    included, when they are within the decoder's length limit, and leaves both
    dynamic tables equal. *)
Theorem DecodeFull_WriteFields fs (e : Enc) d :
  table_wf (table (HpackEncode.dynTab e)) -> table_wf (table (dynTab d)) -> synced e d ->
  tableSizeUpdate e = false -> emitEnabled d = true -> saveBuf d = [] ->
  Forall (fun f => field_ok f /\ incremental e f = false) fs ->
  Forall (hf_fits (maxStrLen d)) fs ->
  exists e' block d', WriteFields fs e = (Ok tt, e') /\ w e' = w e ++ block /\
    DecodeFull block d = (Ok fs, d') /\ synced e' d'.
Proof.
  intros Hwe Hwd [Hents Hsize] Hupd Hemit Hsave Hfs Hfit.
  destruct (WriteFields_block fs e Hwe Hupd Hfs) as (e' & block & Hw & Hwb & Hdt & _ & _ & _ & _ & Hdec).
  exists e', block. unfold DecodeFull, Write. rewrite Hsave.
  assert (forall d' : Decoder, dynTab d' = dynTab d -> synced e' d') as Hsync.
  { intros d' Hd'. unfold synced. by rewrite Hdt, Hd'. }
  destruct (Hdec _ append_emit (set_buf d block) [] fs (length block)) as (d' & Hl & Hd1 & Hd2);
    try done; [apply (append_emits [] fs)|].
  destruct block as [|c block].
  - eexists. split_and!; [done|done|..].
    + assert (fs = []) as ->; [|unfold Close; simpl; by rewrite Hsave].
      simpl in Hl. by injection Hl.
    + by apply Hsync.
  - eexists. split_and!; [done|done|..].
    + cbn [set_buf buf]. rewrite Hl. unfold Close. rewrite Hd2. cbn [set_buf saveBuf].
      by rewrite Hsave.
    + by apply Hsync.
Qed.
End Blocks.

(** ** Newly indexed fields *)

Section Incremental.
Context {S : Type} (emit : HeaderField -> S * bool -> S * bool).

(** A field the encoder newly indexes reaches the callback and both
    dynamic tables get it, yet [Decoder.Write] reports a decoding error: the
    case for literals with incremental indexing lacks its [return]. *)
Theorem incremental_literal_error (e : Encoder bytes) f d s :
  tables_wf e d -> synced e d -> field_ok f -> tableSizeUpdate e = false ->
  maxStrLen d = 0 -> emitEnabled d = true -> saveBuf d = [] -> incremental e f = true ->
  exists e' b d', WriteField f e = (Ok tt, e') /\ w e' = w e ++ b /\
    Write emit b (d, s) = (Err invalidEncoding, (d', (emit f (s, true)).1)) /\
    synced e' d' /\ ents (table (dynTab d')) = ents (table (dynTab d)) ++ [f].
Proof.
  intros [Hwe Hwd] [Hents Hsize] Hok Hupd H0 Hemit Hsave Hinc.
  destruct (WriteField_repr e f Hwe Hok Hupd) as (b & t & He & Hb & _ & _ & Hw).
  pose proof (encodeField_decoded emit (with_buf e []) f (set_buf d b) s
    (with_buf (with_dynTab e t) b) [] (conj Hwe Hwd) (conj Hents Hsize) Hok
    ltac:(simpl; rewrite H0; apply hf_fits_0) Hemit eq_refl He (eq_sym (app_nil_r b))) as Hp.
  rewrite (incremental_dynTab (with_buf e []) e), Hinc in Hp by done.
  destruct Hp as [Hp Ht]. simpl in Ht. subst t.
  destruct b as [|c b]; [simpl in Hb; lia|].
  eexists _, (c :: b), (set_firstField (SetEmitEnabled (set_dynTab (set_buf d [])
    (add (dynTab d) f)) (emit f (s, true)).2) false).
  split_and!; [exact Hw|done| | |].
  - unfold Write. rewrite Hsave. cbn [set_buf buf length Write_loop fst].
    cbn [set_buf] in Hp. rewrite Hp. unfold emitted. cbn [set_buf set_dynTab emitEnabled].
    rewrite Hemit. destruct (emit f (s, true)) as [s' en]. done.
  - unfold synced. simpl. by rewrite Hents, Hsize.
  - done.
Qed.

(** ** Table size updates *)

(** After [Encoder.SetMaxDynamicTableSize] the update that precedes the
    next field makes the decoder evict the same entries: both tables stay
    equal and end with the same maximum size. *)
Theorem table_size_update_synced (e : Encoder bytes) d s v rest :
  tables_wf e d -> synced e d -> 0 <= v < 2 ^ 32 -> 0 <= maxSizeLimit e < 2 ^ 32 ->
  minSize e = uint32Max -> Z.min v (maxSizeLimit e) <= allowedMaxSize (dynTab d) ->
  firstField d = true \/ size (dynTab d) = 0 ->
  exists e1, HpackEncode.SetMaxDynamicTableSize e v = Ok e1 /\
    let e2 := flushTableSize (with_buf e1 []) in
    tableSizeUpdate e2 = false /\
    exists d', parseHeaderFieldRepr emit (set_buf d (HpackEncode.buf e2 ++ rest), s) =
        (Ok tt, (d', s)) /\
      buf d' = rest /\ tables_wf e2 d' /\ synced e2 d' /\
      maxSize (dynTab d') = Z.min v (maxSizeLimit e) /\
      maxSize (HpackEncode.dynTab e2) = Z.min v (maxSizeLimit e).
Proof.
  intros [Hwe Hwd] [Hents Hsize] Hv Hlim Hmin Hallow Hfirst.
  unfold HpackEncode.SetMaxDynamicTableSize. rewrite Hmin.
  set (v' := if maxSizeLimit e <? v then maxSizeLimit e else v).
  assert (v' = Z.min v (maxSizeLimit e)) as Hv'.
  { unfold v'. destruct (Z.ltb_spec (maxSizeLimit e) v); lia. }
  rewrite <- Hv' in *. clearbody v'.
  destruct (setMaxSize_safe (HpackEncode.dynTab e) v' Hwe)
    as (dt1 & n1 & E1 & W1 & L1 & D1 & _ & M1 & _).
  destruct (setMaxSize_safe (dynTab d) v' Hwd) as (dt2 & n2 & E2 & W2 & L2 & D2 & _ & M2 & _).
  rewrite E1. eexists. split; [reflexivity|].
  unfold flushTableSize, with_buf.
  cbn [tableSizeUpdate HpackEncode.dynTab minSize HpackEncode.buf]. rewrite M1. split; [done|].
  assert ((if v' <? uint32Max then v' else uint32Max) <? v' = false) as ->.
  { unfold uint32Max. apply Z.ltb_ge. destruct (Z.ltb_spec v' (2 ^ 32 - 1)); lia. }
  exists (set_buf (set_dynTab d dt2) rest). split_and!; try done.
  - unfold appendTableSize. rewrite flagged_varint_nil by lia. rewrite app_nil_l.
    destruct (parse_flagged emit (set_buf d (or_at (appendVarInt [] 5 v') 0 0x20 ++ rest)) s
      5 32 v' rest) as [-> Hr]; [simpl; auto 6|lia|done|].
    unfold handler. cbn [Z.eqb Pos.eqb]. unfold parseDynamicTableSizeUpdate, st_bind, get_d.
    cbn [set_buf fst firstField dynTab buf] in *.
    assert ((negb (firstField d) && (0 <? size (dynTab d)))%bool = false) as ->.
    { destruct Hfirst as [->| ->]; [done|]. by rewrite andb_false_r. }
    unfold st_lift, mod_d. rewrite Hr. rewrite (proj2 (Z.ltb_ge _ _)) by lia.
    rewrite u32_small, E2 by lia. done.
  - split; simpl; [|congruence]. rewrite D1, D2, Hents. congruence.
Qed.
End Incremental.

(** ** Concrete instances *)

(** The states [NewEncoder] and [NewDecoder] make. *)
Definition enc0 : Encoder bytes :=
  mkEncoder (mkDynamicTable initTable 0 4096 0) uint32Max 4096 false [] [].
Definition dec0 : Decoder :=
  mkDecoder (mkDynamicTable initTable 0 4096 4096) true 0 [] [] true.

Lemma NewEncoder_enc0 : NewEncoder ([] : bytes) = Ok enc0.
Proof. reflexivity. Qed.
Lemma NewDecoder_dec0 : NewDecoder 4096 = Ok dec0.
Proof. reflexivity. Qed.

Lemma wf0 : tables_wf enc0 dec0.
Proof. split; apply initTable_wf. Qed.

Lemma field_ok_check f :
  (forallb (fun b => (0 <=? b) && (b <? 256)) (Name f ++ Value f) &&
   (len (Name f) <? 2 ^ 58) && (len (Value f) <? 2 ^ 58))%bool = true -> field_ok f.
Proof.
  intros H. apply andb_true_iff in H as [[Hb%bytes_check Hn]%andb_true_iff Hv].
  bool_to_Prop. by apply is_bytes_app in Hb as [? ?].
Qed.

Lemma DecodeFull_WriteFields_witness :
  let fs := [mkHeaderField (str ":method") (str "GET") false;
             mkHeaderField (str "authorization") (str "Basic QUxBRA==") true] in
  exists e' block d', WriteFields fs enc0 = (Ok tt, e') /\ w e' = w enc0 ++ block /\
    DecodeFull block dec0 = (Ok fs, d') /\ synced e' d'.
Proof.
  intros fs. apply (DecodeFull_WriteFields fs enc0 dec0); try reflexivity; try apply wf0.
  - split; reflexivity.
  - apply Forall_cons_iff. split; [|apply Forall_singleton];
      (split; [apply field_ok_check|]; vm_compute; reflexivity).
  - apply Forall_cons_iff. split; [|apply Forall_singleton]; apply hf_fits_0.
Defined.

Lemma incremental_literal_error_witness :
  let f := mkHeaderField (str "x-id") (str "7") false in
  exists e' b d', WriteField f enc0 = (Ok tt, e') /\ w e' = w enc0 ++ b /\
    Write append_emit b (dec0, []) = (Err invalidEncoding, (d', [f])) /\
    synced e' d' /\ ents (table (dynTab d')) = [f].
Proof.
  intros f. apply (incremental_literal_error append_emit enc0 f dec0 []); try reflexivity.
  - apply wf0.
  - split; reflexivity.
  - apply field_ok_check. vm_compute. reflexivity.
Defined.

Lemma table_size_update_synced_witness :
  exists e1, HpackEncode.SetMaxDynamicTableSize enc0 100 = Ok e1 /\
    let e2 := flushTableSize (with_buf e1 []) in
    tableSizeUpdate e2 = false /\
    exists d', parseHeaderFieldRepr append_emit (set_buf dec0 (HpackEncode.buf e2 ++ []), []) =
        (Ok tt, (d', [])) /\
      buf d' = [] /\ tables_wf e2 d' /\ synced e2 d' /\
      maxSize (dynTab d') = Z.min 100 (maxSizeLimit enc0) /\
      maxSize (HpackEncode.dynTab e2) = Z.min 100 (maxSizeLimit enc0).
Proof.
  apply (table_size_update_synced append_emit enc0 dec0 [] 100 []); try (simpl; lia).
  - apply wf0.
  - split; reflexivity.
Defined.
