(* ===== verification/DecodeProps.v ===== *)
(** * Safety and incrementality of the HPACK decoder

    [Decoder.Write] always terminates and never panics, whatever bytes it is
    given; and cutting a header block into pieces does not change what is
    decoded. *)
From S2P Require Import Prelude Hpack Varint Huffman HuffmanSpec Tables Io HpackEncode HpackDecode HpackSync.

Local Open Scope Z_scope.
Local Open Scope go_scope.

#[local] Opaque getRootHuffmanNode huffmanDecode.

(** ** Reading consumes *)

(** [r] is what is left of [p] after reading at least one byte. *)
Definition consumes (p r : bytes) : Prop := exists pre, pre <> [] /\ p = pre ++ r.

Lemma consumes_bytes p r : is_bytes p -> consumes p r -> is_bytes r.
Proof. intros Hp (pre & _ & ->). by apply is_bytes_app in Hp as [_ ?]. Qed.

Lemma consumes_len p r : consumes p r -> (length r < length p)%nat.
Proof. intros (pre & Hne & ->). rewrite length_app. destruct pre; [done|simpl; lia]. Qed.

Lemma consumes_trans p q r : consumes p q -> consumes q r -> consumes p r.
Proof.
  intros (a & Ha & ->) (b & Hb & ->). exists (a ++ b). rewrite <- app_assoc.
  split; [|done]. by destruct a.
Qed.

Lemma readVarInt_loop_no_panic p i m :
  match readVarInt_loop p i m with Ok _ | Err _ => True | Panic _ | NoFuel => False end.
Proof.
  revert i m. induction p as [|b p IH]; intros i m; simpl; [done|].
  destruct (_ =? 0); [done|]. destruct (63 <=? m + 7); [done|]. apply IH.
Qed.

Lemma readVarInt_safe n p :
  1 <= n <= 8 -> is_bytes p ->
  match readVarInt n p with
  | Ok (i, r) => 0 <= i < 2 ^ 64 /\ consumes p r
  | Err _ => True
  | Panic _ | NoFuel => False
  end.
Proof.
  intros Hn Hp. destruct (readVarInt n p) as [[i r]|e|x|] eqn:E; try done.
  - destruct (readVarInt_suffix n p i r Hp E) as (pre & Heq & Hlen & Hi).
    split; [lia|]. exists pre. split; [|done]. destruct pre; [simpl in Hlen; lia|done].
  - unfold readVarInt in E. rewrite (proj2 (Z.ltb_ge n 1)), (proj2 (Z.ltb_ge 8 n)) in E by lia.
    simpl in E. destruct p as [|b p]; [done|].
    destruct (_ <? Z.shiftl 1 n - 1); [done|].
    pose proof (readVarInt_loop_no_panic p (if n <? 8 then Z.land b (Z.shiftl 1 n - 1) else b) 0)
      as H. by rewrite E in H.
  - unfold readVarInt in E. rewrite (proj2 (Z.ltb_ge n 1)), (proj2 (Z.ltb_ge 8 n)) in E by lia.
    simpl in E. destruct p as [|b p]; [done|].
    destruct (_ <? Z.shiftl 1 n - 1); [done|].
    pose proof (readVarInt_loop_no_panic p (if n <? 8 then Z.land b (Z.shiftl 1 n - 1) else b) 0)
      as H. by rewrite E in H.
Qed.

Lemma readString_safe m p :
  is_bytes p ->
  match readString m p with
  | Ok (u, r) => is_bytes (ub u) /\ consumes p r
  | Err _ => True
  | Panic _ | NoFuel => False
  end.
Proof.
  intros Hp. unfold readString. destruct p as [|b p']; [done|]. set (p := b :: p') in *.
  pose proof (readVarInt_safe 7 p ltac:(lia) Hp) as Hv.
  destruct (readVarInt 7 p) as [[n r]|e|x|]; try done. destruct Hv as [Hn Hc]. cbn [res_bind].
  destruct (_ && _); [done|]. destruct (Z.ltb_spec (len r) n); [done|]. simpl.
  split; [apply is_bytes_take; by eapply consumes_bytes|].
  destruct Hc as (pre & Hpre & Hp2). exists (pre ++ take (Z.to_nat n) r).
  split; [by destruct pre|]. by rewrite <- app_assoc, take_drop.
Qed.

Lemma decodeString_safe m u : is_bytes (ub u) -> exists s, decodeString m u = Ok s.
Proof.
  intros Hu. unfold decodeString. destruct (isHuff u); simpl; [|eauto].
  pose proof (huffmanDecode_sound [] m (ub u) Hu) as H.
  destruct (huffmanDecode [] m (ub u)); simpl in H; try done; eauto.
Qed.

(** ** One field *)

(** Number of entries ever added to the dynamic table. *)
Definition added (d : Decoder) : Z := evictCount (table (dynTab d)) + tlen (table (dynTab d)).

Section Safety.
Context {S : Type} (emit : HeaderField -> S * bool -> S * bool).

(** [m], run on [d], neither panics nor runs out of fuel; it adds at most
    one entry, and consumes input when it succeeds. *)
Definition safe_step (d : Decoder) (m : res error unit * (Decoder * S)) : Prop :=
  let '(r, (d', _)) := m in
  table_wf (table (dynTab d')) /\ added d <= added d' <= added d + 1 /\
  saveBuf d' = saveBuf d /\ maxStrLen d' = maxStrLen d /\
  match r with
  | Ok _ => consumes (buf d) (buf d')
  | Err _ => True
  | Panic _ | NoFuel => False
  end.

Lemma safe_err d s e :
  table_wf (table (dynTab d)) -> safe_step d (Err e, (d, s)).
Proof. intros. simpl. split_and!; try done; lia. Qed.

Lemma safe_callEmit d d0 hf s :
  table_wf (table (dynTab d)) -> added d0 <= added d <= added d0 + 1 ->
  saveBuf d = saveBuf d0 -> maxStrLen d = maxStrLen d0 -> consumes (buf d0) (buf d) ->
  safe_step d0 (callEmit emit hf (d, s)).
Proof.
  intros Hwf Hadd Hs Hm Hc. unfold callEmit.
  destruct (_ && _); [|destruct (emitEnabled d); [destruct (emit hf (s, true))|]];
    (split_and!; [exact Hwf|apply Hadd|apply Hadd|exact Hs|exact Hm|first [exact I|exact Hc]]).
Qed.

Context (d : Decoder) (s : S).
Context (Hwf : table_wf (table (dynTab d))) (Hroom : added d + 2 < 2 ^ 62).
Context (Hbuf : is_bytes (buf d)).

Lemma safe_indexed : safe_step d (parseFieldIndexed emit (d, s)).
Proof.
  unfold parseFieldIndexed, st_bind, get_d, st_lift, mod_d, st_err. cbn [fst snd].
  pose proof (readVarInt_safe 7 (buf d) ltac:(lia) Hbuf) as Hv.
  destruct (readVarInt 7 (buf d)) as [[i r]|e|x|]; try done; [|by apply safe_err].
  destruct Hv as [Hi Hc]. rewrite Decoder_at_entry by (done || lia).
  destruct (entry_at _ i); [|by apply safe_err].
  apply safe_callEmit; simpl; try done. unfold added. simpl. lia.
Qed.

Lemma safe_add f :
  let d' := add (dynTab d) f in
  table_wf (table d') /\ evictCount (table d') + tlen (table d') = added d + 1.
Proof.
  split; [apply addEntry_wf; [done|unfold added in Hroom; lia]|].
  unfold added, tlen. simpl. rewrite len_app. unfold len. simpl. lia.
Qed.

Lemma literal_name_safe i p :
  0 <= i -> is_bytes p ->
  match literal_name d i p with
  | Ok (_, u, r) => is_bytes (ub u) /\ is_bytes r /\ (r = p \/ consumes p r)
  | Err _ => True
  | Panic _ | NoFuel => False
  end.
Proof.
  intros Hi Hp. unfold literal_name. destruct (Z.ltb_spec 0 i).
  - rewrite Decoder_at_entry by (done || lia). simpl. destruct (entry_at _ i); [|done].
    split_and!; [constructor|done|by left].
  - pose proof (readString_safe (maxStrLen d) p Hp) as Hr.
    destruct (readString _ p) as [[u r]|e|x|]; try done. destruct Hr as [Hu Hc]. simpl.
    split_and!; [done|exact (consumes_bytes _ _ Hp Hc)|by right].
Qed.

Lemma safe_literal n it : 1 <= n <= 8 -> safe_step d (parseFieldLiteral emit n it (d, s)).
Proof.
  intros Hn. unfold parseFieldLiteral, st_bind, get_d, st_lift, mod_d, st_ret. cbn [fst snd].
  pose proof (readVarInt_safe n (buf d) Hn Hbuf) as Hv.
  destruct (readVarInt n (buf d)) as [[i p1]|e|x|]; try done; [|by apply safe_err].
  destruct Hv as [Hi Hc1]. pose proof (consumes_bytes _ _ Hbuf Hc1) as Hp1.
  pose proof (literal_name_safe i p1 ltac:(lia) Hp1) as Hname.
  destruct (literal_name d i p1) as [[[tn u] p2]|e|x|]; try done; [|by apply safe_err].
  destruct Hname as (Hu & Hp2 & Hc2).
  pose proof (readString_safe (maxStrLen d) p2 Hp2) as Hval.
  destruct (readString _ p2) as [[v p3]|e|x|]; try done; [|by apply safe_err].
  destruct Hval as [Hv Hc3].
  assert (consumes (buf d) p3) as Hc.
  { destruct Hc2 as [->|Hc2]; eauto using consumes_trans. }
  assert (exists nm vl, (if emitEnabled d || indexed it then
      let? name := if i <=? 0 then decodeString (maxStrLen d) u else Ok tn in
      let? value := decodeString (maxStrLen d) v in Ok (name, value)
    else Ok (tn, [])) = Ok (nm, vl)) as (nm & vl & ->).
  { destruct (decodeString_safe (maxStrLen d) u Hu) as [s1 ->].
    destruct (decodeString_safe (maxStrLen d) v Hv) as [s2 ->].
    destruct (emitEnabled d || indexed it), (i <=? 0); simpl; eauto. }
  destruct (indexed it); cbn [fst snd]; apply safe_callEmit; simpl; try done.
  - apply safe_add.
  - match goal with |- context [added (set_dynTab _ (add _ ?f))] =>
      pose proof (proj2 (safe_add f)) as Ha end.
    unfold added in *. simpl in *. lia.
  - unfold added. simpl. lia.
Qed.

Lemma safe_size_update : safe_step d (parseDynamicTableSizeUpdate (d, s)).
Proof.
  unfold parseDynamicTableSizeUpdate, st_bind, get_d, st_lift, mod_d, st_err. cbn [fst snd].
  destruct (_ && _); [by apply safe_err|].
  pose proof (readVarInt_safe 5 (buf d) ltac:(lia) Hbuf) as Hv.
  destruct (readVarInt 5 (buf d)) as [[i r]|e|x|]; try done; [|by apply safe_err].
  destruct Hv as [Hi Hc]. destruct (_ <? i); [by apply safe_err|].
  destruct (setMaxSize_safe (dynTab d) (u32 i) Hwf) as (dt & k & -> & Hwf' & _ & _ & Hk & _).
  simpl. split_and!; try done; unfold added; simpl; lia.
Qed.

Lemma safe_parse : buf d <> [] -> safe_step d (parseHeaderFieldRepr emit (d, s)).
Proof.
  intros Hne. assert (exists b p, buf d = b :: p) as (b & p & Eb).
  { clear Hbuf. destruct (buf d); eauto; done. }
  rewrite (parseHeaderFieldRepr_kind emit d s b p Eb). unfold handler.
  destruct (_ =? 128); [apply safe_indexed|].
  destruct (_ =? 64).
  { unfold st_bind, discard. pose proof (safe_literal 6 indexedTrue ltac:(lia)) as Hl.
    destruct (parseFieldLiteral emit 6 indexedTrue (d, s)) as [[u|e|x|] [d' s']]; try done;
      simpl in Hl |- *; tauto. }
  destruct (_ =? 0); [apply safe_literal; lia|].
  destruct (_ =? 16); [apply safe_literal; lia|].
  destruct (_ =? 32); [apply safe_size_update|]. by apply safe_err.
Qed.
End Safety.

(** ** [Write] *)

Section Write.
Context {S : Type} (emit : HeaderField -> S * bool -> S * bool).

Definition finished {A} (r : res error A) : Prop :=
  match r with Ok _ | Err _ => True | Panic _ | NoFuel => False end.

Lemma Write_loop_safe fuel d s :
  table_wf (table (dynTab d)) -> is_bytes (buf d) -> (length (buf d) <= fuel)%nat ->
  added d + len (buf d) + 1 < 2 ^ 62 ->
  finished (Write_loop emit fuel (d, s)).1 /\
  table_wf (table (dynTab (Write_loop emit fuel (d, s)).2.1)).
Proof.
  revert d s. induction fuel as [|fuel IH]; intros d s Hwf Hbuf Hfuel Hroom; simpl.
  - destruct (buf d) eqn:Eb; [done|simpl in Hfuel; lia].
  - destruct (buf d) as [|b p] eqn:Eb; [done|].
    assert (buf d <> []) as Hne by (by rewrite Eb).
    rewrite len_cons in Hroom. pose proof (len_nonneg p). rewrite <- Eb in Hbuf.
    pose proof (safe_parse emit d s Hwf ltac:(lia) Hbuf Hne) as Hstep.
    destruct (parseHeaderFieldRepr emit (d, s)) as [[u|e|x|] [d' s']]; simpl in Hstep;
      destruct Hstep as (Hwf' & Hadd & _ & _ & Hc); try done.
    + pose proof (consumes_bytes _ _ Hbuf Hc). apply consumes_len in Hc.
      rewrite Eb in Hc. simpl in Hc, Hfuel.
      apply (IH (set_firstField d' false) s'); simpl; try done; [lia|].
      change (added (set_firstField d' false)) with (added d'). unfold len in *. lia.
    + destruct e; try done. by destruct (_ && _).
Qed.

(** C6: [Decoder.Write] terminates and never panics or indexes out of range,
    on any bytes, in any state whose table is well formed; the table stays
    well formed, so this holds of every later call too. *)
Theorem Write_total d s p :
  table_wf (table (dynTab d)) -> is_bytes (saveBuf d) -> is_bytes p ->
  added d + len (saveBuf d) + len p + 1 < 2 ^ 62 ->
  finished (Write emit p (d, s)).1 /\ table_wf (table (dynTab (Write emit p (d, s)).2.1)).
Proof.
  intros Hwf Hsave Hp Hroom. unfold Write. destruct p as [|b p]; [done|].
  set (d1 := match saveBuf d with [] => _ | _ => _ end).
  assert (table_wf (table (dynTab d1)) /\ is_bytes (buf d1) /\
    added d1 + len (buf d1) + 1 < 2 ^ 62) as (H1 & H2 & H3).
  { unfold d1. destruct (saveBuf d) as [|c sv] eqn:Es.
    - split_and!; [done|done|]. change (added (set_buf d (b :: p))) with (added d).
      simpl buf. rewrite len_nil in Hroom. lia.
    - split_and!; [done|apply (is_bytes_app (c :: sv) (b :: p)); done|].
      match goal with |- added ?d' + _ + _ < _ => change (added d') with (added d) end.
      cbn [buf set_saveBuf set_buf]. rewrite len_app. lia. }
  pose proof (Write_loop_safe (length (buf d1)) d1 s H1 H2 ltac:(lia) H3) as [Hf Ht].
  by destruct (Write_loop emit _ (d1, s)) as [[n|e|x|] [d' s']].
Qed.
End Write.

Lemma Write_total_witness :
  finished (Write append_emit [64; 10; 200; 13] (dec0, [])).1 /\
  table_wf (table (dynTab (Write append_emit [64; 10; 200; 13] (dec0, [])).2.1)).
Proof. apply Write_total; [apply wf0|constructor|solve_bytes|vm_compute; reflexivity]. Defined.

(** ** Incrementality

    A result that is not [errNeedMore] does not change when more input
    follows; [errNeedMore] leaves the state alone. *)
Section Extends.
(** [m'] is [m] with [q] after the input. *)
Definition extends {A} (q : bytes) (m m' : res error (A * bytes)) : Prop :=
  match m with
  | Ok (a, r) => m' = Ok (a, r ++ q)
  | Err errNeedMore => True
  | Err e => m' = Err e
  | Panic x => m' = Panic x
  | NoFuel => m' = NoFuel
  end.

Lemma readVarInt_extends n p q : extends q (readVarInt n p) (readVarInt n (p ++ q)).
Proof.
  unfold readVarInt. destruct (_ || _); [done|]. destruct p as [|b p]; [done|]. cbn [app].
  destruct (_ <? Z.shiftl 1 n - 1); [done|].
  match goal with |- extends _ (readVarInt_loop p ?i 0) _ =>
    pose proof (readVarInt_loop_app p q i 0) as H; destruct (readVarInt_loop p i 0) as [[v r]|e|x|] end;
    try done.
Qed.

Lemma readString_extends m p q : extends q (readString m p) (readString m (p ++ q)).
Proof.
  unfold readString. destruct p as [|b p]; [done|]. cbn [app].
  pose proof (readVarInt_extends 7 (b :: p) q) as Hv. cbn [app] in Hv.
  destruct (readVarInt 7 (b :: p)) as [[n r]|e|x|]; cbn [extends] in Hv;
    [|by destruct e; cbn [res_bind extends]; rewrite ?Hv|by rewrite Hv|by rewrite Hv].
  rewrite Hv. cbn [res_bind]. destruct (_ && _); [done|].
  destruct (Z.ltb_spec (len r) n) as [|Hle]; [done|].
  rewrite len_app. pose proof (len_nonneg q). rewrite (proj2 (Z.ltb_ge _ _)) by lia.
  cbn [extends]. rewrite take_app_le, drop_app_le by (unfold len in Hle; lia). done.
Qed.

Lemma literal_name_extends d i p q :
  extends q (literal_name d i p) (literal_name d i (p ++ q)).
Proof.
  unfold literal_name. destruct (0 <? i).
  - destruct (Decoder_at d i) as [[hf|]|e|x|]; try done. by destruct e.
  - pose proof (readString_extends (maxStrLen d) p q) as Hs.
    destruct (readString _ p) as [[u r]|e|x|]; cbn [extends] in Hs; [by rewrite Hs|..|by rewrite Hs|by rewrite Hs].
    destruct e; try done; by rewrite Hs.
Qed.
End Extends.

Section Split.
Context {S : Type} (emit : HeaderField -> S * bool -> S * bool).

Notation M := (stateful (Decoder * S) error).

Definition more (q : bytes) (st : Decoder * S) : Decoder * S :=
  (set_buf st.1 (buf st.1 ++ q), st.2).

(** [m'], run with [q] after the input, does what [m] does. *)
Definition step_extends (q : bytes) (m m' : M unit) (st : Decoder * S) : Prop :=
  match m st with
  | (Err errNeedMore, st') => st' = st
  | (r, st') => m' (more q st) = (r, more q st')
  end.

Lemma get_extends q (k k' : Decoder -> M unit) st :
  step_extends q (k st.1) (k' (more q st).1) st ->
  step_extends q (st_bind get_d k) (st_bind get_d k') st.
Proof. done. Qed.

Lemma read_extends {A} q (x x' : res error (A * bytes)) (k k' : A * bytes -> M unit) st :
  extends q x x' ->
  (forall a r, x = Ok (a, r) -> step_extends q (k (a, r)) (k' (a, r ++ q)) st) ->
  step_extends q (st_bind (st_lift x) k) (st_bind (st_lift x') k') st.
Proof.
  unfold step_extends, st_bind, st_lift. intros Hx Hk.
  destruct x as [[a r]|e|x|]; cbn [extends] in Hx; rewrite ?Hx; cbv beta iota; try done.
  - by apply Hk.
  - destruct e; try done; by rewrite Hx.
Qed.

Lemma lift_extends {A} q (x : res error A) (k k' : A -> M unit) st :
  x <> Err errNeedMore -> (forall a, x = Ok a -> step_extends q (k a) (k' a) st) ->
  step_extends q (st_bind (st_lift x) k) (st_bind (st_lift x) k') st.
Proof.
  unfold step_extends, st_bind, st_lift. intros Hx Hk.
  destruct x as [a|e|x|]; try done; [by apply Hk|by destruct e].
Qed.

Lemma callEmit_extends q hf (m m' : M unit) st st1 :
  m st = callEmit emit hf st1 -> m' (more q st) = callEmit emit hf (more q st1) ->
  step_extends q m m' st.
Proof.
  intros H1 H2. unfold step_extends. rewrite H1, H2. clear H1 H2. destruct st1 as [d s].
  unfold callEmit, more. cbn [fst snd maxStrLen set_buf emitEnabled].
  destruct (_ && _); [done|]. destruct (emitEnabled d); [|done]. by destruct (emit hf (s, true)).
Qed.

Lemma Decoder_at_not_more d i : Decoder_at d i <> Err errNeedMore.
Proof.
  unfold Decoder_at. repeat (destruct (_ =? _) || destruct (_ <=? _) || destruct (_ <? _));
    try done; by destruct (_ !! _).
Qed.

Lemma decodeString_not_more m u : decodeString m u <> Err errNeedMore.
Proof. unfold decodeString. destruct (isHuff u); simpl; [by destruct (huffmanDecode _ _ _)|done]. Qed.

Lemma indexed_extends q st : step_extends q (parseFieldIndexed emit) (parseFieldIndexed emit) st.
Proof.
  destruct st as [d s]. apply get_extends, read_extends; [apply readVarInt_extends|].
  intros i r _. apply lift_extends; [apply Decoder_at_not_more|]. intros [hf|] _; [|done].
  by apply (callEmit_extends q (mkHeaderField (Name hf) (Value hf) false) _ _ _ (set_buf d r, s)).
Qed.

Lemma literal_extends q n it st :
  step_extends q (parseFieldLiteral emit n it) (parseFieldLiteral emit n it) st.
Proof.
  destruct st as [d s]. apply get_extends, read_extends; [apply readVarInt_extends|].
  intros i r1 _. apply read_extends; [exact (literal_name_extends d i r1 q)|].
  intros [tn u] r2 _. apply read_extends; [exact (readString_extends (maxStrLen d) r2 q)|].
  intros v r3 _. apply lift_extends.
  - pose proof (decodeString_not_more (maxStrLen d)) as Hd. cbn [more fst emitEnabled set_buf maxStrLen].
    destruct (emitEnabled d || indexed it), (i <=? 0); cbn [res_bind]; try done;
      repeat match goal with |- context [decodeString ?m ?x] =>
        pose proof (Hd x); destruct (decodeString m x); cbn [res_bind]; try done end; congruence.
  - intros [nm vl] _.
    set (hf := mkHeaderField nm vl false).
    apply (callEmit_extends q (mkHeaderField nm vl (sensitive it)) _ _ _
      ((if indexed it then set_dynTab (set_buf d r3) (add (dynTab d) hf) else set_buf d r3), s));
      by destruct (indexed it).
Qed.

Lemma size_update_extends q st :
  step_extends q parseDynamicTableSizeUpdate parseDynamicTableSizeUpdate st.
Proof.
  destruct st as [d s]. apply get_extends. cbn [fst more firstField dynTab set_buf].
  destruct (_ && _); [done|]. apply read_extends; [apply readVarInt_extends|].
  intros i r _. destruct (_ <? i); [done|]. apply lift_extends; [|done].
  by destruct (setMaxSize _ _).
Qed.

Lemma parse_extends q d s b p :
  buf d = b :: p -> kind b <> 64 ->
  step_extends q (parseHeaderFieldRepr emit) (parseHeaderFieldRepr emit) (d, s).
Proof.
  intros Hb Hk. unfold step_extends. rewrite (parseHeaderFieldRepr_kind emit d s b p Hb).
  assert (parseHeaderFieldRepr emit (more q (d, s)) = handler emit (kind b) (more q (d, s))) as ->.
  { apply (parseHeaderFieldRepr_kind emit _ s b (p ++ q)). simpl. by rewrite Hb. }
  change (step_extends q (handler emit (kind b)) (handler emit (kind b)) (d, s)).
  unfold handler. destruct (_ =? 128); [apply indexed_extends|].
  rewrite (proj2 (Z.eqb_neq _ _)) by done.
  destruct (_ =? 0); [apply literal_extends|]. destruct (_ =? 16); [apply literal_extends|].
  destruct (_ =? 32); [apply size_update_extends|done].
Qed.

Lemma parse_incremental_fails d s b p :
  buf d = b :: p -> kind b = 64 ->
  forall r st', parseHeaderFieldRepr emit (d, s) = (r, st') -> ~ finished r \/ r = Err invalidEncoding.
Proof.
  intros Hb Hk r st'. rewrite (parseHeaderFieldRepr_kind emit d s b p Hb), Hk.
  unfold handler, st_bind, discard. simpl.
  destruct (parseFieldLiteral emit 6 indexedTrue (d, s)) as [[u|e|x|] st1]; intros [= <- <-];
    (by right) || (by left; intros []).
Qed.

Lemma Write_loop_mono f1 f2 st :
  (f1 <= f2)%nat -> (Write_loop emit f1 st).1 <> NoFuel ->
  Write_loop emit f2 st = Write_loop emit f1 st.
Proof.
  revert f2 st. induction f1 as [|f1 IH]; intros [|f2] [d s] Hle Hne; try lia; try done.
  - simpl in *. by destruct (buf d).
  - simpl in *. destruct (buf d); [done|].
    destruct (parseHeaderFieldRepr emit (d, s)) as [[u|e|x|] [d' s']]; try done.
    apply IH; [lia|done].
Qed.

Lemma Write_loop_det f1 f2 st :
  finished (Write_loop emit f1 st).1 -> finished (Write_loop emit f2 st).1 ->
  Write_loop emit f1 st = Write_loop emit f2 st.
Proof.
  intros H1 H2. assert (forall r : res error unit, finished r -> r <> NoFuel) as Hf by (by intros []).
  destruct (Nat.le_ge_cases f1 f2); [symmetry|]; apply Write_loop_mono; auto.
Qed.

Lemma Write_loop_S fuel st b p :
  buf st.1 = b :: p ->
  Write_loop emit (Datatypes.S fuel) st =
    match parseHeaderFieldRepr emit st with
    | (Err errNeedMore, (d, s)) =>
        if negb (maxStrLen d =? 0) && (i64 (2 * i64 (maxStrLen d + 8)) <? len (buf d))
        then (Err ErrStringLength, (d, s))
        else (Ok tt, (set_saveBuf d (saveBuf d ++ buf d), s))
    | (Ok _, (d, s)) => Write_loop emit fuel (set_firstField d false, s)
    | (Err e, (d, s)) => (Err e, (set_firstField d false, s))
    | (Panic m, st) => (Panic m, st)
    | (NoFuel, st) => (NoFuel, st)
    end.
Proof. intros Hb. simpl. by rewrite Hb. Qed.

(** The last-resort limit on the saved input admits [n] bytes. *)
Definition save_fits (m n : Z) : Prop :=
  m = 0 \/ (0 <= m < 2 ^ 61 /\ n <= 2 * (m + 8)).

Lemma save_fits_check m n :
  save_fits m n -> negb (m =? 0) && (i64 (2 * i64 (m + 8)) <? n) = false.
Proof.
  intros [->|[Hm Hn]]; [done|]. rewrite (i64_small (m + 8)), i64_small by lia.
  by rewrite (proj2 (Z.ltb_ge _ _)), andb_false_r by lia.
Qed.

Lemma save_fits_le m n n' : save_fits m n -> n' <= n -> save_fits m n'.
Proof. intros [->|[? ?]] ?; [by left|right; lia]. Qed.

(** If the loop accepts the input followed by [q], it accepts the input
    alone and stops at a state from which the rest goes on as before. *)
Lemma Write_loop_split fuel d s q st' :
  table_wf (table (dynTab d)) -> is_bytes (buf d) -> added d + len (buf d) + 1 < 2 ^ 62 ->
  save_fits (maxStrLen d) (len (buf d)) ->
  Write_loop emit fuel (more q (d, s)) = (Ok tt, st') ->
  exists d0 s0, Write_loop emit fuel (d, s) =
      (Ok tt, (set_saveBuf d0 (saveBuf d0 ++ buf d0), s0)) /\
    saveBuf d0 = saveBuf d /\ table_wf (table (dynTab d0)) /\ is_bytes (buf d0) /\
    added d0 + len (buf d0) <= added d + len (buf d) /\
    len (buf d0) <= len (buf d) /\ maxStrLen d0 = maxStrLen d /\
    exists f, Write_loop emit f (more q (d0, s0)) = (Ok tt, st').
Proof.
  revert d s. induction fuel as [|fuel IH]; intros d s Hwf Hbuf Hroom Hmax Hw.
  all: destruct (buf d) as [|b p] eqn:Eb.
  1,3: exists d, s; rewrite Eb, app_nil_r; split_and!; try done; [|by eexists].
  1,2: simpl; rewrite Eb; f_equal; f_equal; by destruct d.
  1: by simpl in Hw; rewrite Eb in Hw.
  assert (buf (more q (d, s)).1 = b :: p ++ q) as Eb' by (simpl; by rewrite Eb).
  rewrite (Write_loop_S _ _ _ _ Eb') in Hw.
  rewrite (Write_loop_S _ (d, s) _ _ Eb).
  assert (buf d <> []) as Hne by (by rewrite Eb). rewrite len_cons in Hroom.
  pose proof (len_nonneg p). rewrite <- Eb in Hbuf.
  pose proof (safe_parse emit d s Hwf ltac:(lia) Hbuf Hne) as Hsafe.
  destruct (Z.eq_dec (kind b) 64) as [Hk|Hk].
  - exfalso. destruct (parseHeaderFieldRepr emit (more q (d, s))) as [r st1] eqn:Ep.
    destruct (parse_incremental_fails _ s b (p ++ q) Eb' Hk r st1 Ep) as [Hr| ->];
      [|by destruct st1]. destruct r as [u|e|x|]; try (by destruct Hr); by destruct st1.
  - pose proof (parse_extends q d s b p Eb Hk) as Hext. unfold step_extends in Hext.
    destruct (parseHeaderFieldRepr emit (d, s)) as [r [d' s']] eqn:Ep.
    destruct Hsafe as (Hwf' & Hadd & Hsave & Hmax' & Hc).
    destruct r as [[]|e|x|]; [| |done|done].
    + rewrite Hext in Hw. pose proof (consumes_bytes _ _ Hbuf Hc) as Hbuf'.
      apply consumes_len in Hc. rewrite Eb in Hc.
      assert (len (buf d') < len (b :: p)) as Hlen by (unfold len; lia). rewrite len_cons in Hlen.
      destruct (IH (set_firstField d' false) s' Hwf' Hbuf') as (d0 & s0 & H1 & H2 & H3 & H4 & H5 & H6 & H7 & H8);
        [cbn [buf set_firstField]; change (added (set_firstField d' false)) with (added d'); lia
        |simpl; rewrite Hmax'; rewrite len_cons in Hmax; eapply save_fits_le; [exact Hmax|lia]|exact Hw|].
      exists d0, s0. change (added (set_firstField d' false)) with (added d') in H5.
      cbn [buf set_firstField saveBuf maxStrLen] in *. rewrite len_cons.
      split_and!; done || lia || congruence.
    + destruct e; try (rewrite Hext in Hw; by destruct (more q (d', s'))).
      injection Hext as -> ->. exists d, s. rewrite Eb, (save_fits_check _ _ Hmax).
      split_and!; try done; [by rewrite <- Eb|].
      exists (Datatypes.S fuel). by rewrite (Write_loop_S _ _ _ _ Eb').
Qed.

(** If the loop accepts some input, then with [q] behind it it ends as it does
    from where it stopped. *)
Lemma Write_loop_join fuel d s q stA :
  table_wf (table (dynTab d)) -> is_bytes (buf d) -> added d + len (buf d) + 1 < 2 ^ 62 ->
  save_fits (maxStrLen d) (len (buf d)) ->
  Write_loop emit fuel (d, s) = (Ok tt, stA) ->
  exists d0 s0, stA = (set_saveBuf d0 (saveBuf d0 ++ buf d0), s0) /\
    saveBuf d0 = saveBuf d /\ table_wf (table (dynTab d0)) /\ is_bytes (buf d0) /\
    added d0 + len (buf d0) <= added d + len (buf d) /\
    len (buf d0) <= len (buf d) /\ maxStrLen d0 = maxStrLen d /\
    forall f r st', Write_loop emit f (more q (d0, s0)) = (r, st') ->
      exists f', Write_loop emit f' (more q (d, s)) = (r, st').
Proof.
  revert d s. induction fuel as [|fuel IH]; intros d s Hwf Hbuf Hroom Hmax Hw.
  all: destruct (buf d) as [|b p] eqn:Eb.
  1,3: exists d, s; rewrite Eb, app_nil_r; split_and!; try done; [|by intros f; exists f].
  1,2: simpl in Hw; rewrite Eb in Hw; injection Hw as <-; f_equal; by destruct d.
  1: by simpl in Hw; rewrite Eb in Hw.
  assert (buf (more q (d, s)).1 = b :: p ++ q) as Eb' by (simpl; by rewrite Eb).
  rewrite (Write_loop_S _ (d, s) _ _ Eb) in Hw.
  assert (buf d <> []) as Hne by (by rewrite Eb). rewrite len_cons in Hroom.
  pose proof (len_nonneg p). rewrite <- Eb in Hbuf.
  pose proof (safe_parse emit d s Hwf ltac:(lia) Hbuf Hne) as Hsafe.
  destruct (Z.eq_dec (kind b) 64) as [Hk|Hk].
  - exfalso. destruct (parseHeaderFieldRepr emit (d, s)) as [r st1] eqn:Ep.
    destruct (parse_incremental_fails d s b p Eb Hk r st1 Ep) as [Hr| ->];
      [|by destruct st1]. destruct r as [u|e|x|]; try (by destruct Hr); by destruct st1.
  - pose proof (parse_extends q d s b p Eb Hk) as Hext. unfold step_extends in Hext.
    destruct (parseHeaderFieldRepr emit (d, s)) as [r [d' s']] eqn:Ep.
    destruct Hsafe as (Hwf' & Hadd & Hsave & Hmax' & Hc).
    destruct r as [[]|e|x|]; [| |done|done].
    + pose proof (consumes_bytes _ _ Hbuf Hc) as Hbuf'.
      apply consumes_len in Hc. rewrite Eb in Hc.
      assert (len (buf d') < len (b :: p)) as Hlen by (unfold len; lia). rewrite len_cons in Hlen.
      destruct (IH (set_firstField d' false) s' Hwf' Hbuf') as (d0 & s0 & H1 & H2 & H3 & H4 & H5 & H6 & H7 & H8);
        [cbn [buf set_firstField]; change (added (set_firstField d' false)) with (added d'); lia
        |simpl; rewrite Hmax'; rewrite len_cons in Hmax; eapply save_fits_le; [exact Hmax|lia]|exact Hw|].
      exists d0, s0. change (added (set_firstField d' false)) with (added d') in H5.
      cbn [buf set_firstField saveBuf maxStrLen] in *. rewrite len_cons.
      split_and!; try (done || lia || congruence).
      intros f r st' Hf. destruct (H8 f r st' Hf) as [f' Hf']. exists (Datatypes.S f').
      rewrite (Write_loop_S _ _ _ _ Eb'), Hext. exact Hf'.
    + destruct e; try done. injection Hext as -> ->. rewrite Eb, (save_fits_check _ _ Hmax) in Hw. injection Hw as <-.
      exists d, s. rewrite Eb. split_and!; try done; [by rewrite <- Eb|]. by intros f; exists f.
Qed.

(** The decoder with its input set, as [Write] starts. *)
Definition loaded (d : Decoder) (p : bytes) : Decoder :=
  match saveBuf d with
  | [] => set_buf d p
  | saved => set_saveBuf (set_buf d (saved ++ p)) []
  end.

Lemma Write_loaded d s p :
  p <> [] ->
  Write emit p (d, s) =
    match Write_loop emit (length (buf (loaded d p))) (loaded d p, s) with
    | (Ok _, st) => (Ok (len p), st)
    | (Err e, st) => (Err e, st)
    | (Panic m, st) => (Panic m, st)
    | (NoFuel, st) => (NoFuel, st)
    end.
Proof. by destruct p. Qed.

Lemma Write_count p st n st' : Write emit p st = (Ok n, st') -> n = len p.
Proof.
  destruct st as [d s]. destruct (decide (p = [])) as [->|Hp]; [by intros [= <- _]|].
  rewrite Write_loaded by done.
  destruct (Write_loop _ _ _) as [[[]|e|x|] stw]; intros H; try done. by injection H.
Qed.

Lemma loaded_facts d p :
  is_bytes (saveBuf d) -> is_bytes p ->
  saveBuf (loaded d p) = [] /\ dynTab (loaded d p) = dynTab d /\
  maxStrLen (loaded d p) = maxStrLen d /\ is_bytes (buf (loaded d p)) /\
  len (buf (loaded d p)) = len (saveBuf d) + len p.
Proof.
  intros Hs Hp. unfold loaded. destruct (saveBuf d) as [|b sv] eqn:E; [done|].
  split_and!; try done; [by apply (is_bytes_app (b :: sv) p)|apply (len_app (b :: sv) p)].
Qed.

Lemma loaded_app d p q s : (loaded d (p ++ q), s) = more q (loaded d p, s).
Proof.
  unfold loaded, more. destruct (saveBuf d) as [|b sv]; [done|]. cbn [fst snd buf set_buf set_saveBuf].
  by rewrite app_assoc.
Qed.

(** Saving the unread input and loading more resumes where it stopped. *)
Lemma resume d q :
  saveBuf d = [] ->
  loaded (set_saveBuf d (saveBuf d ++ buf d)) q = set_buf d (buf d ++ q).
Proof.
  intros H. unfold loaded. simpl. rewrite H. destruct d as [dt ee msl bf sv ff]. simpl in *. subst.
  by destruct bf.
Qed.

(** What [Write] needs of a decoder that is going to be given [n] more
    bytes. *)
Record dec_ok (d : Decoder) (n : Z) : Prop := {
  ok_table : table_wf (table (dynTab d));
  ok_save : is_bytes (saveBuf d);
  ok_room : added d + len (saveBuf d) + n + 1 < 2 ^ 62;
  ok_limit : save_fits (maxStrLen d) (len (saveBuf d) + n);
}.

Lemma Write_two d s p1 p2 n st' :
  dec_ok d (len p1 + len p2) -> is_bytes p1 -> is_bytes p2 ->
  Write emit (p1 ++ p2) (d, s) = (Ok n, st') ->
  exists d1 s1, Write emit p1 (d, s) = (Ok (len p1), (d1, s1)) /\ dec_ok d1 (len p2) /\
    Write emit p2 (d1, s1) = (Ok (len p2), st').
Proof.
  intros [Hwf Hsave Hroom Hmax] Hp1 Hp2 Hw. pose proof (len_nonneg p2).
  destruct (decide (p1 = [])) as [->|Hne1].
  { exists d, s. split; [done|]. split; [by split|]. rewrite app_nil_l in Hw. rewrite Hw.
    by rewrite (Write_count _ _ _ _ Hw). }
  rewrite Write_loaded in Hw by (by destruct p1). rewrite Write_loaded by done.
  destruct (loaded_facts d p1 Hsave Hp1) as (Hs1 & Ht1 & Hm1 & Hb1 & Hl1).
  unfold added in Hroom. rewrite <- Ht1 in *. rewrite <- Hm1 in Hmax.
  assert (len (saveBuf d) + (len p1 + len p2) = len (buf (loaded d p1)) + len p2) as Hlen by lia.
  rewrite Hlen in Hmax.
  rewrite loaded_app in Hw. set (d0 := loaded d p1) in *. fold (added d0) in Hroom.
  destruct (Write_loop emit _ (more p2 (d0, s))) as [[[]|e|x|] stw] eqn:Hloop; try done.
  injection Hw as <- ->.
  destruct (Write_loop_split _ d0 s p2 st' Hwf Hb1 ltac:(lia) ltac:(eapply save_fits_le; [exact Hmax|lia]) Hloop)
    as (d1 & s1 & Hfst & Hsv & Hwf1 & Hb2 & Hl2 & Hl3 & Hm2 & f & Hf).
  pose proof (Write_loop_safe emit (length (buf d0)) d0 s Hwf Hb1 ltac:(lia) ltac:(lia)) as [Hfin _].
  rewrite (Write_loop_det _ (length (buf (loaded d (p1 ++ p2)))) _ Hfin) by (by rewrite Hfst).
  rewrite Hfst. rewrite Hs1 in Hsv. eexists _, s1. split; [done|]. split.
  { rewrite Hsv. split; simpl; [done|done| |rewrite Hm2; eapply save_fits_le; [exact Hmax|lia]].
    change (added d1 + len (buf d1) + len p2 + 1 < 2 ^ 62). lia. }
  destruct (decide (p2 = [])) as [->|Hne2].
  { assert (more [] (d0, s) = (d0, s)) as Hm by (unfold more; simpl; rewrite app_nil_r; by destruct d0).
    rewrite Hm in Hloop. rewrite Hfst in Hloop. by injection Hloop as <-. }
  rewrite Write_loaded by done.
  rewrite (resume d1 p2 Hsv). change (set_buf d1 (buf d1 ++ p2)) with (more p2 (d1, s1)).1.
  destruct (Write_loop_safe emit (length (buf (more p2 (d1, s1)).1)) (more p2 (d1, s1)).1 s1 Hwf1)
    as [Hfin2 _].
  { simpl. by apply is_bytes_app. }
  { done. }
  { change (added d1 + len (buf d1 ++ p2) + 1 < 2 ^ 62). rewrite len_app. lia. }
  change ((more p2 (d1, s1)).1, s1) with (more p2 (d1, s1)) in *.
  rewrite (Write_loop_det _ f _ Hfin2) by (by rewrite Hf). by rewrite Hf.
Qed.

(** And back: when the first part is accepted, the whole does what the second
    part does after it. *)
Lemma Write_join d s p1 p2 n1 d1 s1 :
  dec_ok d (len p1 + len p2) -> is_bytes p1 -> is_bytes p2 ->
  Write emit p1 (d, s) = (Ok n1, (d1, s1)) ->
  dec_ok d1 (len p2) /\ forall n2 st', Write emit p2 (d1, s1) = (Ok n2, st') ->
    Write emit (p1 ++ p2) (d, s) = (Ok (len p1 + len p2), st').
Proof.
  intros [Hwf Hsave Hroom Hmax] Hp1 Hp2 H1. pose proof (len_nonneg p2).
  destruct (decide (p1 = [])) as [->|Hne1].
  { injection H1 as _ <- <-. split; [by split|]. intros n2 st' H2. rewrite app_nil_l, H2. by rewrite (Write_count _ _ _ _ H2). }
  pose proof (Write_count _ _ _ _ H1) as ->. pose proof H1 as H1'. rewrite Write_loaded in H1 by done.
  destruct (loaded_facts d p1 Hsave Hp1) as (Hs1 & Ht1 & Hm1 & Hb1 & Hl1).
  unfold added in Hroom. rewrite <- Ht1 in *. rewrite <- Hm1 in Hmax.
  assert (len (saveBuf d) + (len p1 + len p2) = len (buf (loaded d p1)) + len p2) as Hlen by lia.
  rewrite Hlen in Hmax. set (d0 := loaded d p1) in *. fold (added d0) in Hroom.
  destruct (Write_loop emit (length (buf d0)) (d0, s)) as [[[]|e|x|] stw] eqn:Hloop; try done.
  injection H1 as ->.
  destruct (Write_loop_join _ d0 s p2 (d1, s1) Hwf Hb1 ltac:(lia) ltac:(eapply save_fits_le; [exact Hmax|lia]) Hloop)
    as (d2 & s2 & E & Hsv & Hwf1 & Hb2 & Hl2 & Hl3 & Hm2 & Hjoin). injection E as -> ->.
  rewrite Hs1 in Hsv. split.
  { rewrite Hsv. split; simpl; [done|done| |rewrite Hm2; eapply save_fits_le; [exact Hmax|lia]].
    change (added d2 + len (buf d2) + len p2 + 1 < 2 ^ 62). lia. }
  intros n2 st' H2. destruct (decide (p2 = [])) as [->|Hne2].
  { injection H2 as _ <-. rewrite app_nil_r, H1'. do 2 f_equal. rewrite len_nil. lia. }
  rewrite Write_loaded, (resume d2 p2 Hsv) in H2 by done.
  destruct (Write_loop emit _ (set_buf d2 (buf d2 ++ p2), s2)) as [[[]|e|x|] stw] eqn:El; try done.
  injection H2 as _ ->. destruct (Hjoin _ _ _ El) as [f' Hf'].
  rewrite Write_loaded by (by destruct p1). rewrite len_app, loaded_app. fold d0.
  destruct (Write_loop_safe emit (length (buf (loaded d (p1 ++ p2)))) (more p2 (d0, s)).1 s Hwf) as [Hfin _].
  { simpl. by apply is_bytes_app. }
  { pose proof (f_equal (fun x => length (buf x.1)) (loaded_app d p1 p2 s)) as E. cbn [fst] in E. by rewrite E. }
  { change (added d0 + len (buf d0 ++ p2) + 1 < 2 ^ 62). rewrite len_app. lia. }
  change ((more p2 (d0, s)).1, s) with (more p2 (d0, s)) in Hfin.
  rewrite (Write_loop_det _ f' _ Hfin) by (by rewrite Hf'). by rewrite Hf'.
Qed.

(** The pieces of a block, written one after the other. *)
Fixpoint Write_pieces (ps : list bytes) : M unit :=
  match ps with
  | [] => st_ret tt
  | p :: ps => (let* _ := Write emit p in Write_pieces ps)
  end.

End Split.


(** A string literal whose Huffman data is not the coding of any string is
    not refused: [decodeString] drops the error and answers the empty string,
    so the field is emitted, and indexed, with a name or value nobody sent. *)
Theorem invalid_huffman_is_empty u :
  is_bytes (ub u) -> isHuff u = true ->
  (forall s, is_bytes s -> AppendHuffmanString [] s <> ub u) ->
  decodeString 0 u = Ok [].
Proof.
  intros Hu Hh Hno. unfold decodeString. rewrite Hh. simpl.
  pose proof (huffmanDecode_sound [] 0 (ub u) Hu) as H.
  destruct (huffmanDecode [] 0 (ub u)) as [out|e|x|] eqn:E; try done.
  destruct H as (s & _ & Hs & Henc). destruct (Hno s Hs).
  eapply huffman_encodes_fun; [|exact Henc]. by apply AppendHuffmanString_nil_encodes.
Qed.

Lemma invalid_huffman_is_empty_witness :
  decodeString 0 (mkUnencoded true [255]) = Ok [] /\
  (Write append_emit [0x0f; 0x0d; 0x81; 0xff] (dec0, [])).2.2 =
    [mkHeaderField (str "content-length") [] false].
Proof.
  split; [|vm_compute; reflexivity].
  apply invalid_huffman_is_empty; [solve_bytes|reflexivity|].
  intros s Hs Heq. cbn [ub] in Heq.
  pose proof (huffmanDecode_encodes [] 0 s [255] Hs) as Hd. simpl in Hd.
  rewrite <- Heq in Hd. specialize (Hd (AppendHuffmanString_nil_encodes s Hs) (or_introl eq_refl)).
  rewrite Heq in Hd. vm_compute in Hd. discriminate.
Defined.
