(* ===== verification/Httpguts.v ===== *)
(** * Header name and value syntax

    [src/http2/httpguts/httplex.go], [validWireHeaderFieldName] of
    [src/http2/http2/http2.go] and [src/http2/http2/ascii.go].

    The name checks range over the runes of a Go string, so UTF-8 decoding is
    modelled; the theorems bring them back to conditions on bytes. *)
From S2P Require Import Prelude.

Local Open Scope Z_scope.

(** ** [for _, r := range s]

    The language's decoding: an invalid byte gives U+FFFD and is skipped alone. *)

Definition RuneError : Z := 0xFFFD.

Definition between (a x b : Z) : bool := (a <=? x) && (x <=? b).

(** The valid ranges of the second byte after [b0]. *)
Definition second_ok (b0 b1 : Z) : bool :=
  if b0 =? 0xE0 then between 0xA0 b1 0xBF
  else if b0 =? 0xED then between 0x80 b1 0x9F
  else if b0 =? 0xF0 then between 0x90 b1 0xBF
  else if b0 =? 0xF4 then between 0x80 b1 0x8F
  else between 0x80 b1 0xBF.

Definition cont (b : Z) : Z := Z.land b 0x3F.

(** First rune of a non-empty string and the number of bytes it takes. *)
Definition decode_rune (b0 : Z) (rest : bytes) : Z * nat :=
  if b0 <? 0x80 then (b0, 1%nat)
  else if between 0xC2 b0 0xDF then
    match rest with
    | b1 :: _ =>
        if between 0x80 b1 0xBF
        then (Z.lor (Z.shiftl (Z.land b0 0x1F) 6) (cont b1), 2%nat) else (RuneError, 1%nat)
    | _ => (RuneError, 1%nat)
    end
  else if between 0xE0 b0 0xEF then
    match rest with
    | b1 :: b2 :: _ =>
        if second_ok b0 b1 && between 0x80 b2 0xBF
        then (Z.lor (Z.shiftl (Z.land b0 0x0F) 12) (Z.lor (Z.shiftl (cont b1) 6) (cont b2)), 3%nat)
        else (RuneError, 1%nat)
    | _ => (RuneError, 1%nat)
    end
  else if between 0xF0 b0 0xF4 then
    match rest with
    | b1 :: b2 :: b3 :: _ =>
        if second_ok b0 b1 && between 0x80 b2 0xBF && between 0x80 b3 0xBF
        then (Z.lor (Z.shiftl (Z.land b0 0x07) 18)
                (Z.lor (Z.shiftl (cont b1) 12) (Z.lor (Z.shiftl (cont b2) 6) (cont b3))), 4%nat)
        else (RuneError, 1%nat)
    | _ => (RuneError, 1%nat)
    end
  else (RuneError, 1%nat).

(** [skip] bytes of the current rune are still to be passed over. *)
Fixpoint runes_from (skip : nat) (s : bytes) : list Z :=
  match s with
  | [] => []
  | b :: s =>
      match skip with
      | S skip => runes_from skip s
      | O => let (r, n) := decode_rune b s in r :: runes_from (pred n) s
      end
  end.

Definition runes (s : bytes) : list Z := runes_from 0 s.

(** ** [httpguts] *)

(** The characters set to [true] in the table. *)
Definition token_chars : bytes :=
  str "!#$%&'*+-.0123456789ABCDEFGHIJKLMNOPQRSTUWVXYZ^_`abcdefghijklmnopqrstuvwxyz|~".

Definition isTokenTable : list bool :=
  map (fun i => existsb (Z.eqb i) token_chars) (seqZ 0 127).

Definition IsTokenRune (r : Z) : bool :=
  (r <? len isTokenTable) && nth (Z.to_nat r) isTokenTable false.

Definition isLWS (b : Z) : bool := (b =? 32) || (b =? 9).

Definition isCTL (b : Z) : bool :=
  let del := 0x7f in (b <? 32) || (b =? del).

Definition ValidHeaderFieldName (v : bytes) : bool :=
  if len v =? 0 then false else forallb IsTokenRune (runes v).

Definition ValidHeaderFieldValue (v : bytes) : bool :=
  forallb (fun b => negb (isCTL b && negb (isLWS b))) v.

(** [http2.go] *)
Definition validWireHeaderFieldName (v : bytes) : bool :=
  if len v =? 0 then false
  else forallb (fun r => IsTokenRune r && negb ((65 <=? r) && (r <=? 90))) (runes v).

(** [ascii.go] *)
Definition isASCIIPrint (s : bytes) : bool :=
  forallb (fun b => negb ((b <? 32) || (126 <? b))) s.

(** [strings.ToLower] on an ASCII string. *)
Definition ascii_lower (s : bytes) : bytes :=
  map (fun b => if (65 <=? b) && (b <=? 90) then b + 32 else b) s.

Definition asciiToLower (s : bytes) : bytes * bool :=
  if negb (isASCIIPrint s) then ([], false) else (ascii_lower s, true).

(** ** Runes and bytes *)

Lemma runes_ascii s : Forall (fun b => b < 128) s -> runes s = s.
Proof.
  unfold runes. induction 1 as [|b s Hb _ IH]; simpl; [done|]. unfold decode_rune.
  rewrite (proj2 (Z.ltb_lt b 128)) by lia. simpl. by rewrite IH.
Qed.


Lemma cont_range b : 0x80 <= b <= 0xBF -> cont b = b - 0x80.
Proof.
  intros. unfold cont. change 0x3F with (2 ^ 6 - 1). rewrite land_mask by lia.
  change (2 ^ 6) with 64. zdiv_lia.
Qed.

Lemma lor_cont a c k : 0 <= k -> 0 <= a -> 0 <= c < 2 ^ k -> Z.lor (Z.shiftl a k) c = a * 2 ^ k + c.
Proof. intros. apply lor_shiftl; lia. Qed.

(** A byte outside ASCII never decodes to an ASCII rune. *)
Lemma decode_rune_high b rest : 128 <= b < 256 -> 128 <= (decode_rune b rest).1.
Proof.
  intros Hb. unfold decode_rune, between.
  rewrite (proj2 (Z.ltb_ge b 128)) by lia.
  assert (128 <= (RuneError, 1%nat).1) as Herr by (simpl; unfold RuneError; lia).
  destruct ((0xC2 <=? b) && (b <=? 0xDF))%bool eqn:E2; [|destruct ((0xE0 <=? b) && (b <=? 0xEF))%bool eqn:E3;
    [|destruct ((0xF0 <=? b) && (b <=? 0xF4))%bool eqn:E4; [|done]]].
  - destruct rest as [|b1 rest]; [done|].
    destruct ((0x80 <=? b1) && (b1 <=? 0xBF))%bool eqn:H1; [|done]. bool_to_Prop.
    cbn [fst]. rewrite cont_range by lia. change 0x1F with (2 ^ 5 - 1). rewrite land_mask by lia.
    change (2 ^ 5) with 32. rewrite lor_cont; change (2 ^ 6) with 64; zdiv_lia.
  - destruct rest as [|b1 [|b2 rest]]; [done..|].
    destruct (second_ok b b1 && _)%bool eqn:H1; [|done].
    apply andb_true_iff in H1 as [Hs H2]. bool_to_Prop.
    assert (0x80 <= b1 <= 0xBF /\ (b = 0xE0 -> 0xA0 <= b1)) as [Hb1 HE0].
    { unfold second_ok, between in Hs. repeat split_match; bool_to_Prop; lia. }
    cbn [fst]. rewrite !cont_range by lia. change 0x0F with (2 ^ 4 - 1). rewrite land_mask by lia.
    change (2 ^ 4) with 16.
    rewrite (lor_cont (b1 - _)) by (change (2 ^ 6) with 64; lia). change (2 ^ 6) with 64.
    rewrite lor_cont; change (2 ^ 12) with 4096; zdiv_lia.
  - destruct rest as [|b1 [|b2 [|b3 rest]]]; [done..|].
    destruct (second_ok b b1 && _ && _)%bool eqn:H1; [|done].
    apply andb_true_iff in H1 as [[Hs H2]%andb_true_iff H3]. bool_to_Prop.
    assert (0x80 <= b1 <= 0xBF /\ (b = 0xF0 -> 0x90 <= b1)) as [Hb1 HF0].
    { unfold second_ok, between in Hs. repeat split_match; bool_to_Prop; lia. }
    cbn [fst]. rewrite !cont_range by lia. change 0x07 with (2 ^ 3 - 1). rewrite land_mask by lia.
    change (2 ^ 3) with 8.
    rewrite (lor_cont (b2 - _)) by (change (2 ^ 6) with 64; lia). change (2 ^ 6) with 64.
    rewrite (lor_cont (b1 - _)) by (change (2 ^ 12) with 4096; lia). change (2 ^ 12) with 4096.
    rewrite lor_cont; change (2 ^ 18) with 262144; zdiv_lia.
Qed.

(** A predicate that holds of ASCII runes only can be checked byte by byte. *)
Lemma runes_forallb P v :
  (forall r, 127 <= r -> P r = false) -> is_bytes v ->
  forallb P (runes v) = forallb P v.
Proof.
  intros HP Hv. unfold runes. induction Hv as [|b v Hb Hv IH]; [done|]. unfold is_byte in Hb.
  simpl. destruct (Z.ltb_spec b 128).
  - unfold decode_rune. rewrite (proj2 (Z.ltb_lt b 128)) by lia. simpl. by rewrite IH.
  - pose proof (decode_rune_high b v ltac:(lia)). destruct (decode_rune b v) as [r n].
    simpl in *. by rewrite !HP by lia.
Qed.

(** ** The RFC 7230 classes *)

Definition is_alpha (b : Z) : Prop := 65 <= b <= 90 \/ 97 <= b <= 122.
Definition is_digit (b : Z) : Prop := 48 <= b <= 57.
(** [tchar] *)
Definition tchar (b : Z) : Prop :=
  is_alpha b \/ is_digit b \/ b ∈ str "!#$%&'*+-.^_`|~".

#[export] Instance tchar_dec b : Decision (tchar b).
Proof. unfold tchar, is_alpha, is_digit. apply _. Defined.

Lemma IsTokenRune_high r : 127 <= r -> IsTokenRune r = false.
Proof.
  intros. unfold IsTokenRune. change (len isTokenTable) with 127.
  by rewrite (proj2 (Z.ltb_ge r 127)).
Qed.

Lemma IsTokenRune_tchar b : 0 <= b < 256 -> IsTokenRune b = bool_decide (tchar b).
Proof.
  intros. apply eqb_prop.
  assert (forallb (fun b => eqb (IsTokenRune b) (bool_decide (tchar b))) (seqZ 0 256) = true) as Hall
    by (vm_compute; reflexivity).
  rewrite forallb_forall in Hall. apply Hall, list_elem_of_In, elem_of_seqZ. lia.
Qed.

Lemma forallb_Forall_bytes (P : Z -> bool) (Q : Z -> Prop) v :
  is_bytes v -> (forall b, is_byte b -> P b = true <-> Q b) -> forallb P v = true <-> Forall Q v.
Proof.
  intros Hv HPQ. induction Hv as [|b v Hb _ IH]; simpl; [done|].
  rewrite andb_true_iff, Forall_cons_iff, IH, HPQ by done. done.
Qed.

Lemma len_eqb_0 {A} (l : list A) : (len l =? 0) = bool_decide (l = []).
Proof. destruct l; [done|]. rewrite len_cons. pose proof (len_nonneg l).
  rewrite bool_decide_false by done. apply Z.eqb_neq. lia. Qed.

(** [ValidHeaderFieldName], which ranges over runes, accepts exactly the
    RFC 7230 tokens: non-empty strings of [tchar] bytes. *)
Theorem ValidHeaderFieldName_token v :
  is_bytes v -> ValidHeaderFieldName v = true <-> v <> [] /\ Forall tchar v.
Proof.
  intros Hv. unfold ValidHeaderFieldName. rewrite len_eqb_0.
  case_bool_decide as Hn; [by split; [|intros []]|].
  rewrite runes_forallb by (auto using IsTokenRune_high).
  rewrite (forallb_Forall_bytes _ tchar) by (try done; intros b Hb; unfold is_byte in Hb;
    rewrite IsTokenRune_tchar, bool_decide_eq_true by lia; done).
  tauto.
Qed.

Lemma ValidHeaderFieldName_token_witness :
  ValidHeaderFieldName (str "Content-Type") = true.
Proof.
  apply ValidHeaderFieldName_token; [solve_bytes|]. split; [done|].
  apply (bool_decide_unpack _). vm_compute. reflexivity.
Defined.

(** The HTTP/2 restriction: no upper case. *)
Lemma validWireHeaderFieldName_token v :
  is_bytes v ->
  validWireHeaderFieldName v = true <->
    v <> [] /\ Forall (fun b => tchar b /\ ~ (65 <= b <= 90)) v.
Proof.
  intros Hv. unfold validWireHeaderFieldName. rewrite len_eqb_0.
  case_bool_decide as Hn; [by split; [|intros []]|].
  rewrite runes_forallb; [|intros r Hr; by rewrite IsTokenRune_high|done].
  rewrite (forallb_Forall_bytes _ (fun b => tchar b /\ ~ (65 <= b <= 90))); [tauto|done|].
  intros b Hb. unfold is_byte in Hb.
  rewrite andb_true_iff, negb_true_iff, andb_false_iff, IsTokenRune_tchar, bool_decide_eq_true by lia.
  rewrite !Z.leb_gt. split; intros [? ?]; (split; [done|lia]).
Qed.

(** Lower-casing a [tchar]. *)
Lemma tchar_lower b :
  tchar b -> 33 <= b <= 126 /\
    let b' := if (65 <=? b) && (b <=? 90) then b + 32 else b in
    is_byte b' /\ tchar b' /\ ~ (65 <= b' <= 90).
Proof.
  intros Hb. assert (0 <= b < 128) as Hr.
  { destruct Hb as [Ha|[Hd|Hs]]; [unfold is_alpha in Ha; lia|unfold is_digit in Hd; lia|].
    assert (Forall (fun b => 0 <= b < 128) (str "!#$%&'*+-.^_`|~")) as Hall
      by (apply (bool_decide_unpack _); vm_compute; reflexivity).
    rewrite Forall_forall in Hall. by apply Hall, list_elem_of_In. }
  assert (forallb (fun b => implb (bool_decide (tchar b)) (bool_decide (33 <= b <= 126) &&
    let b' := if (65 <=? b) && (b <=? 90) then b + 32 else b in
    bool_decide (is_byte b') && bool_decide (tchar b') && bool_decide (~ (65 <= b' <= 90))))%bool
    (seqZ 0 128) = true) as Hall by (vm_compute; reflexivity).
  apply (seqZ_forallb _ _ _ b) in Hall; [|lia]. cbv beta zeta in Hall.
  pose proof (proj1 (implb_true_iff _ _) Hall) as Himp. clear Hall.
  rewrite bool_decide_eq_true in Himp. specialize (Himp Hb).
  rewrite !andb_true_iff, !bool_decide_eq_true in Himp. destruct Himp as [H1 [[H2 H3] H4]]. auto.
Qed.

(** A value is accepted exactly when it has no control byte other than a
    tab; and [asciiToLower] maps accepted names to names HTTP/2 accepts. *)
Theorem header_value_and_lower v :
  is_bytes v ->
  (ValidHeaderFieldValue v = true <-> Forall (fun b => b = 9 \/ (32 <= b /\ b <> 127)) v) /\
  (ValidHeaderFieldName v = true ->
     exists l, asciiToLower v = (l, true) /\ validWireHeaderFieldName l = true /\
       length l = length v).
Proof.
  intros Hv. split.
  - unfold ValidHeaderFieldValue. apply forallb_Forall_bytes; [done|]. intros b _.
    unfold isCTL, isLWS. rewrite negb_true_iff, andb_false_iff, orb_false_iff, negb_false_iff,
      orb_true_iff, !Z.eqb_eq, Z.eqb_neq, Z.ltb_ge. lia.
  - rewrite ValidHeaderFieldName_token by done. intros [Hn Ht].
    exists (ascii_lower v).
    assert (isASCIIPrint v = true) as Hp.
    { apply forallb_forall. intros b Hb.
      rewrite Forall_forall in Ht. pose proof (tchar_lower b (Ht b Hb)).
      rewrite negb_true_iff, orb_false_iff, !Z.ltb_ge. lia. }
    unfold asciiToLower. rewrite Hp. split; [done|]. split; [|apply length_map].
    apply validWireHeaderFieldName_token.
    + unfold is_bytes, ascii_lower. apply Forall_map.
      revert Ht. apply Forall_impl. intros b Hb. apply (tchar_lower b Hb).
    + split; [by destruct v|]. apply Forall_map. revert Ht. apply Forall_impl.
      intros b Hb. apply (tchar_lower b Hb).
Qed.

Lemma header_value_and_lower_witness :
  ValidHeaderFieldValue (str "text/html; q=1") = true /\
  (ValidHeaderFieldName (str "Host") = true ->
   exists l, asciiToLower (str "Host") = (l, true) /\ validWireHeaderFieldName l = true /\
     length l = 4%nat).
Proof.
  split; [|apply (header_value_and_lower (str "Host")); solve_bytes].
  apply (header_value_and_lower (str "text/html; q=1")); [solve_bytes|].
  apply (bool_decide_unpack _). vm_compute. reflexivity.
Defined.
