(* ===== verification/Textproto.v ===== *)
(** * Header keys: canonical MIME form and lower case

    [src/http/textproto/reader.go] (canonical keys, byte classes),
    [src/http/textproto/header.go] ([MIMEHeader]) and
    [src/http2/http2/headermap.go] (the caches of common header names).  The
    HTTP/2 package reaches [CanonicalMIMEHeaderKey] through
    [http.CanonicalHeaderKey], which only calls it.

    A [MIMEHeader] is a Go map: [None] is the nil map.  Its slices are never
    shared with callers in the modelled code, so values are lists. *)
From S2P Require Import Prelude Httpguts.

Local Open Scope Z_scope.
Local Open Scope go_scope.

(** ** Byte classes *)

(** [uint64(1) << c] *)
Definition bit64 (c : Z) : Z := u64 (Z.shiftl 1 c).

Definition header_name_mask : Z :=
  let ones n := 2 ^ n - 1 in
  fold_left Z.lor
    (map (Z.shiftl 1) (str "!#$%&'*+-.^_`|~"))
    (Z.lor (Z.lor (Z.shiftl (ones 10) 48) (Z.shiftl (ones 26) 97)) (Z.shiftl (ones 26) 65)).

Definition validHeaderFieldByte (c : Z) : bool :=
  negb (Z.lor (Z.land (bit64 c) (Z.land header_name_mask (2 ^ 64 - 1)))
          (Z.land (bit64 (u8 (c - 64))) (Z.shiftr header_name_mask 64)) =? 0).

Definition header_value_mask : Z :=
  Z.lor (Z.lor (Z.shiftl (2 ^ (0x7f - 0x21) - 1) 0x21) (Z.shiftl 1 0x20)) (Z.shiftl 1 0x09).

(** [x &^ y] is [Z.ldiff x y]. *)
Definition validHeaderValueByte (c : Z) : bool :=
  Z.lor (Z.ldiff (bit64 c) (Z.land header_value_mask (2 ^ 64 - 1)))
    (Z.ldiff (bit64 (u8 (c - 64))) (Z.shiftr header_value_mask 64)) =? 0.

(** ** Canonical keys *)

Definition toLower : Z := 97 - 65.

(** The loop that rewrites the key. *)
Fixpoint canon_loop (upper : bool) (a : bytes) : bytes :=
  match a with
  | [] => []
  | c :: a =>
      let c :=
        if upper && (97 <=? c) && (c <=? 122) then c - toLower
        else if negb upper && (65 <=? c) && (c <=? 90) then c + toLower else c in
      c :: canon_loop (c =? 45) a
  end.

Definition commonHeader : gmap bytes bytes :=
  list_to_map (map (fun v => (str v, str v))
    ["Accept"; "Accept-Charset"; "Accept-Encoding"; "Accept-Language"; "Accept-Ranges";
     "Cache-Control"; "Cc"; "Connection"; "Content-Id"; "Content-Language"; "Content-Length";
     "Content-Transfer-Encoding"; "Content-Type"; "Cookie"; "Date"; "Dkim-Signature"; "Etag";
     "Expires"; "From"; "Host"; "If-Modified-Since"; "If-None-Match"; "In-Reply-To";
     "Last-Modified"; "Location"; "Message-Id"; "Mime-Version"; "Pragma"; "Received";
     "Return-Path"; "Server"; "Set-Cookie"; "Subject"; "To"; "User-Agent"; "Via";
     "X-Forwarded-For"; "X-Imforwards"; "X-Powered-By"])%string.

(** The scan for invalid bytes: [None] is a byte that stops it, [Some b] tells
    whether a space was seen ([noCanon]). *)
Fixpoint scan_key (noCanon : bool) (a : bytes) : option bool :=
  match a with
  | [] => Some noCanon
  | c :: a =>
      if validHeaderFieldByte c then scan_key noCanon a
      else if c =? 32 then scan_key true a
      else None
  end.

Definition canonicalMIMEHeaderKey (a : bytes) : bytes * bool :=
  match scan_key false a with
  | None => (a, false)
  | Some true => (a, true)
  | Some false =>
      let a := canon_loop true a in
      match commonHeader !! a with
      | Some ((_ :: _) as v) => (v, true)
      | _ => (a, true)
      end
  end.

(** The loop of [CanonicalMIMEHeaderKey] over the rest of [s]. *)
Fixpoint quick_loop (s : bytes) (upper : bool) (rest : bytes) : bytes :=
  match rest with
  | [] => s
  | c :: rest =>
      if negb (validHeaderFieldByte c) then s
      else if upper && (97 <=? c) && (c <=? 122) then (canonicalMIMEHeaderKey s).1
      else if negb upper && (65 <=? c) && (c <=? 90) then (canonicalMIMEHeaderKey s).1
      else quick_loop s (c =? 45) rest
  end.

Definition CanonicalMIMEHeaderKey (s : bytes) : bytes := quick_loop s true s.

(** ** [MIMEHeader] *)

Definition MIMEHeader : Type := option (gmap bytes (list bytes)).

(** [h[k]]: the nil slice when [k] is absent. *)
Definition values_at (m : gmap bytes (list bytes)) (k : bytes) : list bytes :=
  default [] (m !! k).

Definition nil_map_write {A} : res Empty_set A := Panic "assignment to entry in nil map".

Definition Add (h : MIMEHeader) (key value : bytes) : res Empty_set MIMEHeader :=
  let key := CanonicalMIMEHeaderKey key in
  match h with
  | None => nil_map_write
  | Some m => Ok (Some (<[key := values_at m key ++ [value]]> m))
  end.

Definition Set_ (h : MIMEHeader) (key value : bytes) : res Empty_set MIMEHeader :=
  match h with
  | None => nil_map_write
  | Some m => Ok (Some (<[CanonicalMIMEHeaderKey key := [value]]> m))
  end.

Definition Values (h : MIMEHeader) (key : bytes) : list bytes :=
  match h with
  | None => []
  | Some m => values_at m (CanonicalMIMEHeaderKey key)
  end.

Definition Get (h : MIMEHeader) (key : bytes) : bytes :=
  match h with
  | None => []
  | Some m =>
      match values_at m (CanonicalMIMEHeaderKey key) with
      | [] => []
      | v :: _ => v
      end
  end.

Definition Del (h : MIMEHeader) (key : bytes) : MIMEHeader :=
  match h with
  | None => None
  | Some m => Some (delete (CanonicalMIMEHeaderKey key) m)
  end.

(** ** Common header names ([headermap.go]) *)

Definition common : list bytes := map str
  ["accept"; "accept-charset"; "accept-encoding"; "accept-language"; "accept-ranges"; "age";
   "access-control-allow-credentials"; "access-control-allow-headers";
   "access-control-allow-methods"; "access-control-allow-origin";
   "access-control-expose-headers"; "access-control-max-age";
   "access-control-request-headers"; "access-control-request-method"; "allow";
   "authorization"; "cache-control"; "content-disposition"; "content-encoding";
   "content-language"; "content-length"; "content-location"; "content-range"; "content-type";
   "cookie"; "date"; "etag"; "expect"; "expires"; "from"; "host"; "if-match";
   "if-modified-since"; "if-none-match"; "if-unmodified-since"; "last-modified"; "link";
   "location"; "max-forwards"; "origin"; "proxy-authenticate"; "proxy-authorization"; "range";
   "referer"; "refresh"; "retry-after"; "server"; "set-cookie"; "strict-transport-security";
   "trailer"; "transfer-encoding"; "user-agent"; "vary"; "via"; "www-authenticate";
   "x-forwarded-for"; "x-forwarded-proto"]%string.

(** [buildCommonHeaderMaps]: both maps after the loop over [common]. *)
Definition buildCommonHeaderMaps : gmap bytes bytes * gmap bytes bytes :=
  fold_left (fun '(lower, canon) v =>
    let chk := CanonicalMIMEHeaderKey v in (<[chk := v]> lower, <[v := chk]> canon))
    common (∅, ∅).

Definition commonLowerHeader : gmap bytes bytes := buildCommonHeaderMaps.1.
Definition commonCanonHeader : gmap bytes bytes := buildCommonHeaderMaps.2.

Definition lowerHeader (v : bytes) : bytes * bool :=
  match commonLowerHeader !! v with
  | Some s => (s, true)
  | None => asciiToLower v
  end.

Definition canonicalHeader (v : bytes) : bytes :=
  match commonCanonHeader !! v with
  | Some s => s
  | None => CanonicalMIMEHeaderKey v
  end.

(** ** Facts on the byte classes *)

Lemma validHeaderFieldByte_tchar c :
  is_byte c -> validHeaderFieldByte c = bool_decide (tchar c).
Proof.
  intros Hc. apply eqb_prop.
  check_bytes (fun c => eqb (validHeaderFieldByte c) (bool_decide (tchar c))) c.
Qed.

Lemma validHeaderValueByte_spec c :
  is_byte c -> validHeaderValueByte c = (c =? 9) || ((32 <=? c) && negb (c =? 127)).
Proof.
  intros Hc. apply eqb_prop.
  check_bytes (fun c => eqb (validHeaderValueByte c)
    ((c =? 9) || ((32 <=? c) && negb (c =? 127)))) c.
Qed.

Definition lower_byte (b : Z) : Z := if (65 <=? b) && (b <=? 90) then b + 32 else b.

Lemma ascii_lower_map s : ascii_lower s = map lower_byte s.
Proof. done. Qed.

Lemma validHeaderFieldByte_lower c :
  is_byte c -> validHeaderFieldByte (lower_byte c) = validHeaderFieldByte c.
Proof.
  intros Hc. apply eqb_prop.
  check_bytes (fun c => eqb (validHeaderFieldByte (lower_byte c)) (validHeaderFieldByte c)) c.
Qed.

(** ** Facts on canonical keys *)

(** Case analysis on the remaining comparisons. *)
Ltac split_leb :=
  repeat match goal with |- context [?a <=? ?b] => destruct (Z.leb_spec a b); cbn [andb] end.

Definition is_token (s : bytes) : bool := forallb validHeaderFieldByte s.

Lemma canon_loop_lower u s : canon_loop u (ascii_lower s) = canon_loop u s.
Proof.
  revert u. induction s as [|c s IH]; intros u; [done|].
  rewrite ascii_lower_map. cbn [map canon_loop]. rewrite <- ascii_lower_map, IH.
  match goal with |- ?x :: _ = ?y :: _ => assert (x = y) as ->; [|done] end.
  unfold lower_byte, toLower. destruct u; cbn [andb negb];
    destruct (Z.leb_spec 65 c), (Z.leb_spec c 90), (Z.leb_spec 97 c), (Z.leb_spec c 122);
    cbn [andb]; split_leb; lia.
Qed.

Lemma lower_canon_loop u s : ascii_lower (canon_loop u s) = ascii_lower s.
Proof.
  revert u. induction s as [|c s IH]; intros u; [done|].
  unfold ascii_lower in *. cbn [map canon_loop]. rewrite IH. f_equal.
  unfold toLower. destruct u; cbn [andb negb];
    destruct (Z.leb_spec 65 c), (Z.leb_spec c 90), (Z.leb_spec 97 c), (Z.leb_spec c 122);
    cbn [andb]; split_leb; lia.
Qed.

Lemma canon_loop_bytes u s : is_bytes s -> is_bytes (canon_loop u s).
Proof.
  intros Hs. revert u. induction Hs as [|c s Hc _ IH]; intros u; [constructor|].
  constructor; [|apply IH]. unfold is_byte, toLower in *. destruct u; cbn [andb negb]; split_leb; lia.
Qed.

Lemma canon_loop_print u s : isASCIIPrint (canon_loop u s) = isASCIIPrint s.
Proof.
  unfold isASCIIPrint. revert u. induction s as [|c s IH]; intros u; [done|].
  cbn [canon_loop forallb]. rewrite IH. f_equal. unfold toLower.
  destruct u; cbn [andb negb]; split_leb; try done;
    repeat match goal with |- context [?a <? ?b] => destruct (Z.ltb_spec a b) end; done || lia.
Qed.

Lemma commonHeader_identity a v : commonHeader !! a = Some v -> v = a.
Proof.
  unfold commonHeader. intros H%elem_of_list_to_map_2.
  apply list_elem_of_fmap in H as (s & [= -> ->] & _). done.
Qed.

Lemma scan_key_token b a :
  scan_key b a = Some false -> b = false /\ is_token a = true.
Proof.
  revert b. induction a as [|c a IH]; intros b; simpl; [by intros [= ->]|].
  destruct (validHeaderFieldByte c); [apply IH|]. destruct (c =? 32); [|done].
  by intros [? _]%IH.
Qed.

Lemma token_scan_key a : is_token a = true -> scan_key false a = Some false.
Proof.
  induction a as [|c a IH]; simpl; [done|]. by intros [-> ?]%andb_true_iff; auto.
Qed.

Lemma canonicalMIMEHeaderKey_spec a :
  (canonicalMIMEHeaderKey a).1 = if is_token a then canon_loop true a else a.
Proof.
  unfold canonicalMIMEHeaderKey. destruct (is_token a) eqn:Et.
  - rewrite token_scan_key by done. destruct (commonHeader !! _) as [[|b v]|] eqn:Ec; try done.
    apply commonHeader_identity in Ec. by rewrite Ec.
  - destruct (scan_key false a) as [[]|] eqn:Es; try done.
    apply scan_key_token in Es as [_ Es]. congruence.
Qed.

(** The quick check does what the full conversion does. *)
Lemma quick_loop_spec s pre upper rest :
  s = pre ++ rest -> is_token pre = true -> canon_loop true s = pre ++ canon_loop upper rest ->
  quick_loop s upper rest = if is_token s then canon_loop true s else s.
Proof.
  revert pre upper. induction rest as [|c rest IH]; intros pre upper Hs Hp Hc; cbn [quick_loop].
  - rewrite Hc, Hs, app_nil_r. simpl. rewrite app_nil_r. by destruct (is_token pre).
  - destruct (validHeaderFieldByte c) eqn:Ev; cbn [negb].
    + rewrite canonicalMIMEHeaderKey_spec.
      destruct (upper && (97 <=? c) && (c <=? 122)) eqn:E1; [done|].
      destruct (negb upper && (65 <=? c) && (c <=? 90)) eqn:E2; [done|].
      apply (IH (pre ++ [c])).
      * by rewrite <- app_assoc.
      * unfold is_token in *. rewrite forallb_app, Hp. simpl. by rewrite Ev.
      * rewrite Hc. cbn [canon_loop]. by rewrite E1, E2, <- app_assoc.
    + replace (is_token s) with false; [done|]. rewrite Hs. unfold is_token.
      rewrite forallb_app. simpl. by rewrite Ev, andb_false_r.
Qed.

Lemma CanonicalMIMEHeaderKey_spec s :
  CanonicalMIMEHeaderKey s = if is_token s then canon_loop true s else s.
Proof. by apply (quick_loop_spec s []). Qed.

Lemma is_token_lower s : is_bytes s -> is_token (ascii_lower s) = is_token s.
Proof.
  rewrite ascii_lower_map. unfold is_token. induction 1 as [|c s Hc _ IH]; [done|].
  cbn [map forallb]. by rewrite IH, validHeaderFieldByte_lower.
Qed.

Lemma canonical_eq k k' :
  is_token k = true -> is_token k' = true ->
  CanonicalMIMEHeaderKey k = CanonicalMIMEHeaderKey k' <-> ascii_lower k = ascii_lower k'.
Proof.
  intros Hk Hk'. rewrite !CanonicalMIMEHeaderKey_spec, Hk, Hk'. split; intros H.
  - by rewrite <- (lower_canon_loop true k), <- (lower_canon_loop true k'), H.
  - by rewrite <- (canon_loop_lower true k), <- (canon_loop_lower true k'), H.
Qed.

(** ** [MIMEHeader] is case-insensitive *)

(** [MIMEHeader] treats token keys that differ only in case as one key and
    all others as different: reading after [Set], [Add] or [Del] through any
    spelling sees the change, and other keys keep their values. *)
Theorem MIMEHeader_case_insensitive m k k' v :
  is_token k = true -> is_token k' = true ->
  let same := bool_decide (ascii_lower k = ascii_lower k') in
  (exists h, Set_ (Some m) k v = Ok h /\
     Values h k' = (if same then [v] else Values (Some m) k') /\
     Get h k' = (if same then v else Get (Some m) k')) /\
  (exists h, Add (Some m) k v = Ok h /\
     Values h k' = (if same then Values (Some m) k' ++ [v] else Values (Some m) k')) /\
  Values (Del (Some m) k) k' = (if same then [] else Values (Some m) k').
Proof.
  intros Hk Hk' same. pose proof (canonical_eq k k' Hk Hk') as Heq.
  unfold Set_, Add, Del, Values, Get, values_at, same.
  destruct (bool_decide_reflect (ascii_lower k = ascii_lower k')) as [Hs|Hs].
  - apply Heq in Hs. rewrite Hs.
    split; [|split]; [eexists; split; [done|]|eexists; split; [done|]|]; cbv beta iota;
      by rewrite ?lookup_insert_eq, ?lookup_delete_eq.
  - assert (CanonicalMIMEHeaderKey k <> CanonicalMIMEHeaderKey k') as Hne by (by rewrite Heq).
    split; [|split]; [eexists; split; [done|]|eexists; split; [done|]|]; cbv beta iota;
      by rewrite ?lookup_insert_ne, ?lookup_delete_ne.
Qed.

Lemma MIMEHeader_case_insensitive_witness :
  Get (Some {[str "Content-Type" := [str "text/html"]]}) (str "cOnTent-tyPe") = str "text/html" /\
  exists h, Add (Some {[str "Content-Type" := [str "text/html"]]}) (str "CONTENT-TYPE") (str "x") = Ok h /\
    Values h (str "content-type") = [str "text/html"; str "x"].
Proof.
  split; [vm_compute; reflexivity|].
  destruct (MIMEHeader_case_insensitive {[str "Content-Type" := [str "text/html"]]}
    (str "CONTENT-TYPE") (str "content-type") (str "x")) as (_ & (h & Hh & Hv) & _);
    [vm_compute; reflexivity|vm_compute; reflexivity|].
  exists h. split; [exact Hh|]. rewrite Hv. vm_compute. reflexivity.
Defined.

(** [CanonicalMIMEHeaderKey] capitalizes the first letter and every letter
    after a dash of a token and lowers the others, whichever of its two paths
    it takes; other strings are returned as they are; it is idempotent. *)
Theorem CanonicalMIMEHeaderKey_canonical s :
  is_bytes s ->
  CanonicalMIMEHeaderKey s = (if bool_decide (Forall tchar s) then canon_loop true s else s) /\
  CanonicalMIMEHeaderKey (CanonicalMIMEHeaderKey s) = CanonicalMIMEHeaderKey s.
Proof.
  intros Hs.
  assert (is_token s = bool_decide (Forall tchar s)) as Ht.
  { apply eq_bool_prop_intro. rewrite !Is_true_true, bool_decide_eq_true. unfold is_token.
    apply forallb_Forall_bytes; [done|]. intros b Hb.
    by rewrite validHeaderFieldByte_tchar, bool_decide_eq_true. }
  rewrite <- Ht. split; [apply CanonicalMIMEHeaderKey_spec|].
  rewrite (CanonicalMIMEHeaderKey_spec s). destruct (is_token s) eqn:Es.
  - assert (is_bytes (canon_loop true s)) as Hcb by (by apply canon_loop_bytes).
    rewrite CanonicalMIMEHeaderKey_spec.
    rewrite <- (is_token_lower _ Hcb), lower_canon_loop, is_token_lower, Es by done.
    by rewrite <- canon_loop_lower, lower_canon_loop, canon_loop_lower.
  - by rewrite CanonicalMIMEHeaderKey_spec, Es.
Qed.

Lemma CanonicalMIMEHeaderKey_canonical_witness :
  CanonicalMIMEHeaderKey (str "x-fORWARDED-for") = str "X-Forwarded-For".
Proof.
  rewrite (proj1 (CanonicalMIMEHeaderKey_canonical (str "x-fORWARDED-for") ltac:(solve_bytes))).
  vm_compute. reflexivity.
Defined.

(** ** The caches of common names *)

Lemma commonLowerHeader_lower v s :
  commonLowerHeader !! v = Some s -> asciiToLower v = (s, true).
Proof.
  intros H. apply elem_of_map_to_list in H.
  assert (forallb (fun '(v, s) => bool_decide (asciiToLower v = (s, true)))
    (map_to_list commonLowerHeader) = true) as Hall by (vm_compute; reflexivity).
  rewrite forallb_forall in Hall. apply list_elem_of_In, Hall in H. by apply bool_decide_eq_true in H.
Qed.

Lemma commonCanonHeader_canon v s :
  commonCanonHeader !! v = Some s -> CanonicalMIMEHeaderKey v = s.
Proof.
  intros H. apply elem_of_map_to_list in H.
  assert (forallb (fun '(v, s) => bool_decide (CanonicalMIMEHeaderKey v = s))
    (map_to_list commonCanonHeader) = true) as Hall by (vm_compute; reflexivity).
  rewrite forallb_forall in Hall. apply list_elem_of_In, Hall in H. by apply bool_decide_eq_true in H.
Qed.

Lemma header_caches_eq v :
  lowerHeader v = asciiToLower v /\ canonicalHeader v = CanonicalMIMEHeaderKey v.
Proof.
  unfold lowerHeader, canonicalHeader. split.
  - destruct (commonLowerHeader !! v) eqn:E; [|done]. by rewrite (commonLowerHeader_lower v _ E).
  - destruct (commonCanonHeader !! v) eqn:E; [|done]. by rewrite (commonCanonHeader_canon v _ E).
Qed.

(** The caches of common header names change nothing: [lowerHeader] is
    [asciiToLower] and [canonicalHeader] is [CanonicalMIMEHeaderKey] on every
    string, and both agree on token names up to case. *)
Theorem header_caches_transparent v :
  lowerHeader v = asciiToLower v /\ canonicalHeader v = CanonicalMIMEHeaderKey v /\
  lowerHeader (canonicalHeader v) = lowerHeader v.
Proof.
  destruct (header_caches_eq v) as [Hl Hc]. split; [done|]. split; [done|].
  rewrite Hc. rewrite (proj1 (header_caches_eq _)), Hl. rewrite CanonicalMIMEHeaderKey_spec.
  destruct (is_token v); [|done]. unfold asciiToLower. by rewrite canon_loop_print, lower_canon_loop.
Qed.

(** The 128-bit masks of [textproto] denote the RFC 7230 classes: a name
    byte is a [tchar], a value byte is a tab or any byte from the space up
    except DEL. *)
Theorem textproto_byte_classes c :
  is_byte c ->
  validHeaderFieldByte c = bool_decide (tchar c) /\
  validHeaderValueByte c = ((c =? 9) || ((32 <=? c) && negb (c =? 127))).
Proof. intros Hc. by rewrite validHeaderFieldByte_tchar, validHeaderValueByte_spec. Qed.

Lemma textproto_byte_classes_witness :
  validHeaderFieldByte 58 = false /\ validHeaderValueByte 127 = false.
Proof.
  destruct (textproto_byte_classes 58 ltac:(split; reflexivity || discriminate)) as [-> _].
  destruct (textproto_byte_classes 127 ltac:(split; reflexivity || discriminate)) as [_ ->].
  split; vm_compute; reflexivity.
Defined.
