(* ===== verification/GoStrings.v ===== *)
(** * Strings of Go

    What [src/http] uses of the packages [strings], [unicode], [unicode/utf8]
    and [encoding/base64], on strings as lists of bytes, and the iteration over
    a map in an unspecified order.  The table of letters outside ASCII with a
    lower case is a parameter. *)
From S2P Require Import Prelude Httpguts.

Local Open Scope Z_scope.

(** ** Searching and cutting *)

(** [strings.Cut(s, sep)] for a separator of one byte. *)
Fixpoint Cut (c : Z) (s : bytes) : bytes * bytes * bool :=
  match s with
  | [] => ([], [], false)
  | b :: s => if b =? c then ([], s, true) else let '(before, after, found) := Cut c s in (b :: before, after, found)
  end.

Fixpoint HasPrefix (s p : bytes) {struct p} : bool :=
  match p, s with
  | [], _ => true
  | b :: p, c :: s => (c =? b) && HasPrefix s p
  | _, [] => false
  end.
Definition HasSuffix (s p : bytes) : bool := HasPrefix (rev s) (rev p).

(** [strings.IndexFunc]: the first rune with [f]; [skip] bytes of the current
    rune are still to be passed over. *)
Fixpoint IndexFunc_from (f : Z -> bool) (skip i : nat) (s : bytes) : option nat :=
  match s with
  | [] => None
  | b :: s =>
      match skip with
      | S skip => IndexFunc_from f skip (S i) s
      | O => let (r, n) := decode_rune b s in if f r then Some i else IndexFunc_from f (pred n) (S i) s
      end
  end.
Definition IndexFunc (f : Z -> bool) (s : bytes) : option nat := IndexFunc_from f 0 0 s.

Definition TrimLeftFunc (f : Z -> bool) (s : bytes) : bytes :=
  match IndexFunc (fun r => negb (f r)) s with Some i => drop i s | None => [] end.

(** [utf8.DecodeLastRuneInString] of a non-empty string: the byte [k] from the
    end on is the first, going backwards, that can start a rune. *)
Definition RuneStart (b : Z) : bool := negb (Z.land b 0xC0 =? 0x80).
Fixpoint decode_last_from (tries k : nat) (s : bytes) : Z * nat :=
  match tries with
  | O => (RuneError, 1%nat)
  | S tries =>
      match drop (length s - k) s with
      | b :: rest =>
          if (k <=? length s)%nat then
            if RuneStart b then let '(r, n) := decode_rune b rest in if (n =? k)%nat then (r, n) else (RuneError, 1%nat)
            else decode_last_from tries (S k) s
          else (RuneError, 1%nat)
      | [] => (RuneError, 1%nat)
      end
  end.
Definition decode_last_rune (s : bytes) : Z * nat :=
  let c := List.last s 0 in if c <? 0x80 then (c, 1%nat) else decode_last_from 3 2 s.

Fixpoint TrimRightFunc_loop (fuel : nat) (f : Z -> bool) (s : bytes) : bytes :=
  match fuel, s with
  | S fuel, _ :: _ => let '(r, n) := decode_last_rune s in if f r then TrimRightFunc_loop fuel f (take (length s - n) s) else s
  | _, _ => s
  end.
Definition TrimRightFunc (f : Z -> bool) (s : bytes) : bytes := TrimRightFunc_loop (length s) f s.

(** [unicode.IsSpace] *)
Definition IsSpace (r : Z) : bool :=
  if r <? 256 then existsb (Z.eqb r) [9; 10; 11; 12; 13; 32; 0x85; 0xA0]
  else existsb (Z.eqb r) [0x1680; 0x2028; 0x2029; 0x202f; 0x205f; 0x3000] || between 0x2000 r 0x200a.

Definition TrimSpace (s : bytes) : bytes := TrimRightFunc IsSpace (TrimLeftFunc IsSpace s).

(** ** Lower case *)

(** [unicode.ToLower] outside ASCII: never an upper-case ASCII letter. *)
Class UnicodeLower := {
  unicode_ToLower : Z -> Z;
  unicode_ToLower_lower : forall r, ~ (65 <= unicode_ToLower r <= 90) }.

(** [utf8.AppendRune] *)
Definition encode_rune (r : Z) : bytes :=
  let enc r :=
    if r <? 0x80 then [r]
    else if r <? 0x800 then [Z.lor 0xC0 (Z.shiftr r 6); Z.lor 0x80 (Z.land r 0x3F)]
    else if r <? 0x10000 then [Z.lor 0xE0 (Z.shiftr r 12); Z.lor 0x80 (Z.land (Z.shiftr r 6) 0x3F); Z.lor 0x80 (Z.land r 0x3F)]
    else [Z.lor 0xF0 (Z.shiftr r 18); Z.lor 0x80 (Z.land (Z.shiftr r 12) 0x3F); Z.lor 0x80 (Z.land (Z.shiftr r 6) 0x3F); Z.lor 0x80 (Z.land r 0x3F)] in
  if (r <? 0) || (0x10FFFF <? r) || between 0xD800 r 0xDFFF then enc RuneError else enc r.

Definition is_ascii (s : bytes) : bool := forallb (fun b => b <? 0x80) s.

Section Lower.
Context `{UnicodeLower}.
Definition rune_lower (r : Z) : Z := if r <? 0x80 then (if (65 <=? r) && (r <=? 90) then r + 32 else r) else unicode_ToLower r.
Definition ToLower (s : bytes) : bytes :=
  if is_ascii s then ascii_lower s else concat (map (fun r => encode_rune (rune_lower r)) (runes s)).
End Lower.

(** [strings.Index] and [strings.Count] of one byte. *)
Fixpoint Index (s sub : bytes) : option nat :=
  if HasPrefix s sub then Some 0%nat else match s with [] => None | _ :: s => S <$> Index s sub end.
Definition Count (s : bytes) (c : Z) : Z := len (List.filter (Z.eqb c) s).
(** [strings.EqualFold] with an ASCII string: only two runes outside ASCII
    fold to ASCII letters. *)
Definition fold_rune (r : Z) : Z :=
  if (65 <=? r) && (r <=? 90) then r + 32 else if r =? 0x17F then 115 else if r =? 0x212A then 107 else r.
Definition EqualFold (s t : bytes) : bool := bool_decide (map fold_rune (runes s) = map fold_rune (runes t)).
(** [utf8.DecodeRuneInString]: the number of bytes of the first rune. *)
Definition rune_len (s : bytes) : nat := match s with [] => 0%nat | b :: s => snd (decode_rune b s) end.

(** ** Maps *)

(** [for k, v := range m]: every entry once, in any order. *)
Class RangeOrder := {
  range : forall {A}, gmap bytes A -> list (bytes * A);
  range_perm : forall A (m : gmap bytes A), range m ≡ₚ map_to_list m }.

(** [sort.Strings] *)
Fixpoint string_le (s t : bytes) : bool :=
  match s, t with
  | [], _ => true
  | _, [] => false
  | b :: s, c :: t => if b =? c then string_le s t else b <? c
  end.
Fixpoint insert_string (s : bytes) (l : list bytes) : list bytes :=
  match l with
  | [] => [s]
  | t :: l' => if string_le s t then s :: l else t :: insert_string s l'
  end.
Definition sort_strings (l : list bytes) : list bytes := fold_right insert_string [] l.

(** The decimal digits of [%d]. *)
Fixpoint decimal_loop (fuel : nat) (n : Z) (acc : bytes) : bytes :=
  match fuel with
  | O => acc
  | S fuel => let acc := n mod 10 + 48 :: acc in if n / 10 =? 0 then acc else decimal_loop fuel (n / 10) acc
  end.
Definition decimal (n : nat) : bytes := decimal_loop (S n) (Z.of_nat n) [].

(** ** Lemmas *)

Lemma Cut_found c p s : c ∉ p -> Cut c (p ++ c :: s) = (p, s, true).
Proof.
  induction p as [|b p IH]; cbn [Cut app]; [by rewrite Z.eqb_refl|]. intros [Hb Hp]%not_elem_of_cons.
  destruct (Z.eqb_spec b c); [done|]. by rewrite IH.
Qed.
Lemma Cut_none c s : c ∉ s -> Cut c s = (s, [], false).
Proof.
  induction s as [|b s IH]; cbn [Cut]; [done|]. intros [Hb Hs]%not_elem_of_cons. destruct (Z.eqb_spec b c); [done|]. by rewrite IH.
Qed.
Lemma Cut_inv c s b a f : Cut c s = (b, a, f) -> c ∉ b /\ s = b ++ (if f then c :: a else []) /\ (f = false -> a = []).
Proof.
  revert b a f. induction s as [|x s IH]; cbn [Cut]; intros b a f H.
  - injection H as <- <- <-. split; [by apply not_elem_of_nil|done].
  - destruct (Z.eqb_spec x c) as [->|Hx].
    + injection H as <- <- <-. split; [by apply not_elem_of_nil|done].
    + destruct (Cut c s) as [[b' a'] f'] eqn:E. injection H as <- <- <-. destruct (IH _ _ _ eq_refl) as (Hb & -> & Hf).
      split; [by apply not_elem_of_cons|done].
Qed.

(** When [f] holds outside ASCII, the runes may be read byte by byte. *)
Fixpoint first_index (f : Z -> bool) (i : nat) (s : bytes) : option nat :=
  match s with [] => None | b :: s => if f b then Some i else first_index f (S i) s end.

Lemma IndexFunc_bytes f s : (forall r, 128 <= r -> f r = true) -> is_bytes s -> IndexFunc f s = first_index f 0 s.
Proof.
  intros Hf. unfold IndexFunc. generalize 0%nat at 2 3. induction s as [|b s IH]; intros i Hs; [done|].
  apply is_bytes_cons in Hs as [Hb Hs]. unfold is_byte in Hb. cbn [IndexFunc_from first_index]. destruct (Z.ltb_spec b 128) as [Hl|Hl].
  - unfold decode_rune. rewrite (proj2 (Z.ltb_lt b 0x80)) by lia. destruct (f b); [done|]. by apply IH.
  - pose proof (decode_rune_high b s ltac:(lia)) as Hr. destruct (decode_rune b s) as [r n]. cbn [fst] in Hr. by rewrite !Hf by lia.
Qed.

Lemma first_index_app f p s i : forallb (fun b => negb (f b)) p = true -> first_index f i (p ++ s) = first_index f (i + length p) s.
Proof.
  revert i. induction p as [|b p IH]; intros i; cbn [first_index app forallb length]; [intros _; f_equal; lia|].
  intros [Hb Hp]%andb_true_iff. apply negb_true_iff in Hb. rewrite Hb, IH by done. f_equal. lia.
Qed.
Lemma first_index_none f s i : first_index f i s = None <-> forallb (fun b => negb (f b)) s = true.
Proof.
  revert i. induction s as [|b s IH]; intros i; cbn [first_index forallb]; [done|]. destruct (f b); [done|]. apply IH.
Qed.
Lemma first_index_some f s i k : first_index f i s = Some k ->
  exists p c s', s = p ++ c :: s' /\ k = (i + length p)%nat /\ f c = true /\ forallb (fun b => negb (f b)) p = true.
Proof.
  revert i. induction s as [|b s IH]; intros i; cbn [first_index]; [done|]. destruct (f b) eqn:Hb.
  - intros [= <-]. exists [], b, s. split; [done|]. split; [cbn; lia|]. done.
  - intros H. destruct (IH _ H) as (p & c & s' & -> & -> & Hc & Hp). exists (b :: p), c, s'. split; [done|]. split; [cbn; lia|].
    split; [done|]. cbn. by rewrite Hb.
Qed.

Lemma IndexFunc_ascii_head f b s : b < 128 -> f b = true -> IndexFunc f (b :: s) = Some 0%nat.
Proof. intros Hb Hf. unfold IndexFunc. cbn [IndexFunc_from]. unfold decode_rune. rewrite (proj2 (Z.ltb_lt b 0x80)) by lia. by rewrite Hf. Qed.

Lemma TrimLeftFunc_keep f b s : b < 128 -> f b = false -> TrimLeftFunc f (b :: s) = b :: s.
Proof. intros Hb Hf. unfold TrimLeftFunc. rewrite IndexFunc_ascii_head; [done|done|by rewrite Hf]. Qed.
Lemma IndexFunc_shift f s : forall skip i, IndexFunc_from f skip (S i) s = S <$> IndexFunc_from f skip i s.
Proof.
  induction s as [|b s IH]; intros skip i; cbn [IndexFunc_from]; [done|]. destruct skip; [|apply IH]. destruct (decode_rune b s) as [r n].
  destruct (f r); [done|apply IH].
Qed.
Lemma TrimLeftFunc_skip f b s : b < 128 -> f b = true -> TrimLeftFunc f (b :: s) = TrimLeftFunc f s.
Proof.
  intros Hb Hf. unfold TrimLeftFunc, IndexFunc. cbn [IndexFunc_from]. unfold decode_rune. rewrite (proj2 (Z.ltb_lt b 0x80)) by lia.
  rewrite Hf. cbn [negb pred]. rewrite IndexFunc_shift. by destruct (IndexFunc_from _ 0 0 s).
Qed.
Lemma length_TrimLeftFunc f s : (length (TrimLeftFunc f s) <= length s)%nat.
Proof. unfold TrimLeftFunc. destruct (IndexFunc _ s); [rewrite length_drop|cbn]; lia. Qed.

Lemma TrimRightFunc_strip f s ws : (s = [] \/ exists l b, s = l ++ [b] /\ b < 128 /\ f b = false) -> Forall (fun b => b < 128 /\ f b = true) ws ->
  TrimRightFunc f (s ++ ws) = s.
Proof.
  intros Hs Hws. unfold TrimRightFunc. rewrite length_app. assert (forall n, TrimRightFunc_loop n f s = s) as Hstop.
  { intros n. destruct n as [|n]; [done|]. cbn [TrimRightFunc_loop]. destruct Hs as [->|(l & b & -> & Hb & Hf)]; [done|]. destruct (l ++ [b]) as [|x l'] eqn:El; [done|].
    rewrite <- El. unfold decode_last_rune. rewrite List.last_last. destruct (Z.ltb_spec b 128); [|lia]. by rewrite Hf. }
  assert (forall n, (length ws <= n)%nat -> TrimRightFunc_loop n f (s ++ ws) = s) as Hloop; [|apply Hloop; lia].
  induction ws as [|w ws IH] using rev_ind; intros n Hn; [by rewrite app_nil_r|]. apply Forall_app in Hws as [Hws [Hw _]%List.Forall_cons_iff]. rewrite length_app in Hn. cbn [length] in Hn.
  destruct n as [|n]; [lia|]. rewrite app_assoc. cbn [TrimRightFunc_loop]. destruct ((s ++ ws) ++ [w]) as [|x l'] eqn:El; [by destruct (s ++ ws)|]. rewrite <- El.
  unfold decode_last_rune. rewrite List.last_last. destruct Hw as [Hw1 Hw2]. destruct (Z.ltb_spec w 128); [|lia]. rewrite Hw2, (length_app (s ++ ws)). cbn [length].
  rewrite take_app_le by lia. rewrite take_ge by lia. apply IH; [done|lia].
Qed.
Lemma TrimRightFunc_keep f s b : b < 128 -> f b = false -> TrimRightFunc f (s ++ [b]) = s ++ [b].
Proof.
  intros Hb Hf. unfold TrimRightFunc. destruct (length (s ++ [b])) as [|n] eqn:El; [done|]. cbn [TrimRightFunc_loop].
  destruct (s ++ [b]) as [|x l] eqn:E; [done|]. rewrite <- E. unfold decode_last_rune. rewrite List.last_last.
  rewrite (proj2 (Z.ltb_lt b 0x80)) by lia. by rewrite Hf.
Qed.

Lemma ToLower_ascii `{UnicodeLower} s : is_ascii s = true -> ToLower s = ascii_lower s.
Proof. unfold ToLower. by intros ->. Qed.

(** *** Sorting *)

Lemma insert_string_perm s l : insert_string s l ≡ₚ s :: l.
Proof.
  induction l as [|t l IH]; cbn [insert_string]; [done|]. destruct (string_le s t); [done|]. rewrite IH. by rewrite Permutation_swap.
Qed.
Lemma sort_strings_perm l : sort_strings l ≡ₚ l.
Proof. induction l as [|s l IH]; cbn; [done|]. by rewrite insert_string_perm, IH. Qed.

(** *** Decimal numbers *)

Fixpoint decimal_value (n : Z) (s : bytes) : Z :=
  match s with [] => n | b :: s => decimal_value (n * 10 + (b - 48)) s end.

Lemma decimal_value_app s1 s2 n : decimal_value n (s1 ++ s2) = decimal_value (decimal_value n s1) s2.
Proof. revert n. induction s1; intros n; cbn [decimal_value app]; auto. Qed.

Lemma decimal_loop_app fuel : forall n acc, decimal_loop fuel n acc = decimal_loop fuel n [] ++ acc.
Proof.
  induction fuel as [|fuel IH]; intros n acc; cbn [decimal_loop]; [done|]. destruct (n / 10 =? 0); [done|].
  rewrite IH, (IH _ [_]), <- app_assoc. done.
Qed.

Lemma decimal_loop_value fuel : forall n, 0 <= n < Z.of_nat fuel -> decimal_value 0 (decimal_loop fuel n []) = n.
Proof.
  induction fuel as [|fuel IH]; intros n Hn; [lia|]. cbn [decimal_loop]. destruct (Z.eqb_spec (n / 10) 0) as [H0|H0].
  - cbn [decimal_value]. zdiv_lia.
  - rewrite decimal_loop_app, decimal_value_app, IH; [cbn [decimal_value]; zdiv_lia|]. zdiv_lia.
Qed.

Lemma decimal_inj n m : decimal n = decimal m -> n = m.
Proof.
  intros H. apply (f_equal (decimal_value 0)) in H. unfold decimal in H. rewrite !decimal_loop_value in H by lia. lia.
Qed.

(** No letters outside ASCII, and the order in which a map is stored. *)
Definition ascii_letters : UnicodeLower.
Proof. refine {| unicode_ToLower r := if (65 <=? r) && (r <=? 90) then r + 32 else r |}. intros r. destruct (_ && _) eqn:Hr; [|intros []; rewrite !(proj2 (Z.leb_le _ _)) in Hr by lia; done]. bool_to_Prop. lia. Defined.
Definition storage_order : RangeOrder.
Proof. refine {| range A m := map_to_list m |}. done. Defined.

Lemma decimal_digits n : Forall (fun b => 48 <= b <= 57) (decimal n).
Proof.
  unfold decimal. assert (forall fuel n acc, 0 <= n -> Forall (fun b => 48 <= b <= 57) acc -> Forall (fun b => 48 <= b <= 57) (decimal_loop fuel n acc)) as H.
  { induction fuel as [|fuel IH]; intros m acc Hm Hacc; cbn [decimal_loop]; [done|]. assert (Forall (fun b => 48 <= b <= 57) (m mod 10 + 48 :: acc)) by (constructor; [zdiv_lia|done]).
    destruct (m / 10 =? 0); [done|]. apply IH; [zdiv_lia|done]. }
  apply H; [lia|constructor].
Qed.

(** ** Base64 *)

Definition base64_alphabet : bytes := str "ABCDEFGHIJKLMNOPQRSTUVWXYZabcdefghijklmnopqrstuvwxyz0123456789+/".
Definition base64_digit (i : Z) : Z := nth (Z.to_nat i) base64_alphabet 0.
(** [StdEncoding.EncodeToString] *)
Fixpoint base64_encode (s : bytes) : bytes :=
  match s with
  | a :: b :: c :: s =>
      [base64_digit (Z.shiftr a 2); base64_digit (Z.lor (Z.shiftl (Z.land a 3) 4) (Z.shiftr b 4));
       base64_digit (Z.lor (Z.shiftl (Z.land b 15) 2) (Z.shiftr c 6)); base64_digit (Z.land c 63)] ++ base64_encode s
  | [a; b] => [base64_digit (Z.shiftr a 2); base64_digit (Z.lor (Z.shiftl (Z.land a 3) 4) (Z.shiftr b 4)); base64_digit (Z.shiftl (Z.land b 15) 2); 61]
  | [a] => [base64_digit (Z.shiftr a 2); base64_digit (Z.shiftl (Z.land a 3) 4); 61; 61]
  | [] => []
  end.
Definition base64_EncodedLen (n : Z) : Z := (n + 2) / 3 * 4.
Definition base64_DecodedLen (n : Z) : Z := n / 4 * 3.

Definition base64_value (b : Z) : option Z :=
  if between 65 b 90 then Some (b - 65) else if between 97 b 122 then Some (b - 97 + 26)
  else if between 48 b 57 then Some (b - 48 + 52) else if b =? 43 then Some 62 else if b =? 47 then Some 63 else None.
(** [StdEncoding.DecodeString] without line breaks, which it skips. *)
Fixpoint base64_quanta (s : bytes) : option bytes :=
  match s with
  | [] => Some []
  | a :: b :: c :: d :: s =>
      match base64_value a, base64_value b, base64_value c, base64_value d with
      | Some a, Some b, Some c, Some d =>
          match base64_quanta s with
          | Some r => Some ([u8 (Z.lor (Z.shiftl a 2) (Z.shiftr b 4)); u8 (Z.lor (Z.shiftl b 4) (Z.shiftr c 2)); u8 (Z.lor (Z.shiftl c 6) d)] ++ r)
          | None => None
          end
      | Some a, Some b, Some c, None =>
          if (d =? 61) && bool_decide (s = []) then Some [u8 (Z.lor (Z.shiftl a 2) (Z.shiftr b 4)); u8 (Z.lor (Z.shiftl b 4) (Z.shiftr c 2))] else None
      | Some a, Some b, None, None =>
          if (c =? 61) && (d =? 61) && bool_decide (s = []) then Some [u8 (Z.lor (Z.shiftl a 2) (Z.shiftr b 4))] else None
      | _, _, _, _ => None
      end
  | _ => None
  end.
Definition base64_decode (s : bytes) : option bytes := base64_quanta (List.filter (fun b => negb ((b =? 10) || (b =? 13))) s).

(** ** Decoding undoes encoding *)

Lemma base64_value_digit i : 0 <= i < 64 -> base64_value (base64_digit i) = Some i.
Proof.
  intros Hi. assert (forallb (fun i => bool_decide (base64_value (base64_digit i) = Some i)) (seqZ 0 64) = true) as H by (vm_compute; reflexivity).
  pose proof (seqZ_forallb _ 0 64 i H Hi) as H1. by apply bool_decide_eq_true in H1.
Qed.

(** Three bytes as four numbers below 64, and back. *)
Lemma quantum a b c : is_byte a -> is_byte b -> is_byte c ->
  let s1 := Z.shiftr a 2 in let s2 := Z.lor (Z.shiftl (Z.land a 3) 4) (Z.shiftr b 4) in
  let s3 := Z.lor (Z.shiftl (Z.land b 15) 2) (Z.shiftr c 6) in let s4 := Z.land c 63 in
  (0 <= s1 < 64 /\ 0 <= s2 < 64 /\ 0 <= s3 < 64 /\ 0 <= s4 < 64) /\
  u8 (Z.lor (Z.shiftl s1 2) (Z.shiftr s2 4)) = a /\ u8 (Z.lor (Z.shiftl s2 4) (Z.shiftr s3 2)) = b /\ u8 (Z.lor (Z.shiftl s3 6) s4) = c.
Proof.
  intros Ha Hb Hc s1 s2 s3 s4. unfold is_byte in Ha, Hb, Hc |- *.
  assert (s1 = a / 4) as E1 by (unfold s1; by rewrite Z.shiftr_div_pow2).
  assert (s4 = c mod 64) as E4 by (unfold s4; change 63 with (2 ^ 6 - 1); by rewrite land_mask).
  assert (s2 = (a mod 4) * 16 + b / 16) as E2.
  { unfold s2. change 3 with (2 ^ 2 - 1). rewrite land_mask, Z.shiftr_div_pow2 by lia. apply lor_shiftl; [lia|]. change (2 ^ 4) with 16. zdiv_lia. }
  assert (s3 = (b mod 16) * 4 + c / 64) as E3.
  { unfold s3. change 15 with (2 ^ 4 - 1). rewrite land_mask, Z.shiftr_div_pow2 by lia. apply lor_shiftl; [lia|]. change (2 ^ 2) with 4. change (2 ^ 6) with 64. zdiv_lia. }
  clearbody s1 s2 s3 s4. assert (0 <= s1 < 64 /\ 0 <= s2 < 64 /\ 0 <= s3 < 64 /\ 0 <= s4 < 64) as Hs by (subst; zdiv_lia). split; [done|].
  rewrite !(Z.shiftr_div_pow2 s2), !(Z.shiftr_div_pow2 s3) by lia. rewrite !lor_shiftl by (lia || (change (2 ^ 4) with 16; change (2 ^ 2) with 4; zdiv_lia)).
  unfold u8. change (2 ^ 2) with 4. change (2 ^ 4) with 16. change (2 ^ 6) with 64. change (2 ^ 8) with 256. subst.
  split; [clear - Ha Hb|split; [clear - Ha Hb Hc|clear - Hb Hc]]; zdiv_lia.
Qed.

Lemma base64_value_pad : base64_value 61 = None.
Proof. reflexivity. Qed.

Lemma base64_quanta_encode n : forall s, (length s <= n)%nat -> is_bytes s -> base64_quanta (base64_encode s) = Some s.
Proof.
  assert (is_byte 0) as H0 by (unfold is_byte; lia).
  induction n as [|n IH]; intros s Hn Hs; [by destruct s; [|cbn in Hn; lia]|]. destruct s as [|a s]; [done|]. apply is_bytes_cons in Hs as [Ha Hs].
  destruct s as [|b s]; [|apply is_bytes_cons in Hs as [Hb Hs]; destruct s as [|c s]; [|apply is_bytes_cons in Hs as [Hc Hs]]].
  - destruct (quantum a 0 0 Ha H0 H0) as ((H1 & H2 & _) & E1 & _). rewrite Z.shiftr_0_l, Z.lor_0_r in *.
    cbn [base64_encode base64_quanta]. rewrite !base64_value_digit, base64_value_pad by done. cbn [Z.eqb Pos.eqb andb]. rewrite bool_decide_true by done. by rewrite E1.
  - destruct (quantum a b 0 Ha Hb H0) as ((H1 & H2 & H3 & _) & E1 & E2 & _). rewrite Z.shiftr_0_l, Z.lor_0_r in *.
    cbn [base64_encode base64_quanta]. rewrite !base64_value_digit, base64_value_pad by done. cbn [Z.eqb Pos.eqb andb]. rewrite bool_decide_true by done. by rewrite E1, E2.
  - destruct (quantum a b c Ha Hb Hc) as ((H1 & H2 & H3 & H4) & E1 & E2 & E3). cbn [base64_encode base64_quanta app]. rewrite !base64_value_digit by done.
    rewrite IH by (done || (cbn in Hn; lia)). by rewrite E1, E2, E3.
Qed.

(** The bytes of encoded text. *)
Definition text_char (b : Z) : bool := (32 <? b) && (b <? 127) && negb (b =? 63).

Lemma base64_digit_char i : text_char (base64_digit i) = true \/ base64_digit i = 0.
Proof.
  unfold base64_digit. destruct (nth_in_or_default (Z.to_nat i) base64_alphabet 0) as [Hin| ->]; [left|by right].
  assert (forallb text_char base64_alphabet = true) as H by (vm_compute; reflexivity). rewrite forallb_forall in H. by apply H.
Qed.
Lemma digit_char i : 0 <= i < 64 -> text_char (base64_digit i) = true.
Proof. intros Hi. destruct (base64_digit_char i) as [|E]; [done|]. apply base64_value_digit in Hi. by rewrite E in Hi. Qed.

Lemma base64_text n : forall s, (length s <= n)%nat -> is_bytes s -> forallb text_char (base64_encode s) = true.
Proof.
  assert (is_byte 0) as H0 by (unfold is_byte; lia).
  induction n as [|n IH]; intros s Hn Hs; [by destruct s; [|cbn in Hn; lia]|]. destruct s as [|a s]; [done|]. apply is_bytes_cons in Hs as [Ha Hs].
  destruct s as [|b s]; [|apply is_bytes_cons in Hs as [Hb Hs]; destruct s as [|c s]; [|apply is_bytes_cons in Hs as [Hc Hs]]]; cbn [base64_encode forallb app].
  - destruct (quantum a 0 0 Ha H0 H0) as ((H1 & H2 & _) & _). rewrite Z.shiftr_0_l, Z.lor_0_r in *. by rewrite !digit_char.
  - destruct (quantum a b 0 Ha Hb H0) as ((H1 & H2 & H3 & _) & _). rewrite Z.shiftr_0_l, Z.lor_0_r in *. by rewrite !digit_char.
  - destruct (quantum a b c Ha Hb Hc) as ((H1 & H2 & H3 & H4) & _). rewrite !digit_char by done. cbn [andb]. apply IH; [cbn in Hn; lia|done].
Qed.

Lemma filter_newlines s : forallb text_char s = true -> List.filter (fun b => negb ((b =? 10) || (b =? 13))) s = s.
Proof.
  induction s as [|b s IH]; cbn [forallb List.filter]; [done|]. intros [Hb Hs]%andb_true_iff. unfold text_char in Hb. bool_to_Prop.
  rewrite (proj2 (Z.eqb_neq b 10)), (proj2 (Z.eqb_neq b 13)) by lia. cbn [orb negb]. by rewrite IH.
Qed.

Lemma base64_decode_encode s : is_bytes s -> base64_decode (base64_encode s) = Some s.
Proof.
  intros Hs. unfold base64_decode. rewrite filter_newlines by by apply (base64_text (length s)). by apply (base64_quanta_encode (length s)).
Qed.
Lemma base64_length n : forall s, (length s <= n)%nat -> len (base64_encode s) = base64_EncodedLen (len s).
Proof.
  unfold base64_EncodedLen. induction n as [|n IH]; intros s Hn; [by destruct s; [|cbn in Hn; lia]|]. destruct s as [|a [|b [|c s]]]; [done..|].
  cbn [base64_encode]. rewrite len_app, IH by (cbn in Hn; lia). change (len [_; _; _; _]) with 4. rewrite !len_cons. zdiv_lia.
Qed.
