(* ===== verification/TextReader.v ===== *)
(** * The text protocol reader

    [Reader] of [src/http/textproto/reader.go]: lines, continued lines and
    [ReadMIMEHeader] over a [bufio.Reader].  The loops that wait for input get
    [fuel] turns. *)
From S2P Require Import Prelude Io BufReader GoStrings Textproto.

Local Open Scope Z_scope.
Local Open Scope go_scope.

(** [textproto.go]: the message of a [ProtocolError], with the line it shows. *)
Inductive protocol_error : Type :=
  | MalformedInitialLine (line : bytes)
  | MissingColon (line : bytes)
  | MalformedHeaderLine (line : bytes).
Inductive text_error (E : Type) : Type :=
  | ReadError (e : bufio_error E)
  | ProtocolError (p : protocol_error)
  | MissingValidate.
Arguments ReadError {E} e.
Arguments ProtocolError {E} p.
Arguments MissingValidate {E}.

Definition isASCIILetter (b : Z) : bool := let b := Z.lor b 0x20 in (97 <=? b) && (b <=? 122).

Definition is_blank (b : Z) : bool := (b =? 32) || (b =? 9).
(** Blanks at the left end, as the first loop of [trim] passes over them. *)
Fixpoint skip_blanks (s : bytes) : bytes :=
  match s with
  | b :: s' => if is_blank b then skip_blanks s' else s
  | [] => []
  end.
(** The second loop runs from the right end. *)
Definition trim (s : bytes) : bytes := rev (skip_blanks (rev (skip_blanks s))).

Definition mustHaveFieldNameColon {E} (line : bytes) : option (text_error E) :=
  match IndexByte line 58 with None => Some (ProtocolError (MissingColon line)) | Some _ => None end.

Section TextReader.
Context {R E : Type} {RD : Reader R E}.
Variable fuel : nat.

(** A [dotReader] is kept by its state; nothing in the source makes one. *)
Record textReader : Type := mkTextReader {
  tr_R : bufReader R E;
  dot : option Z;
  tr_buf : bytes }.
Definition NewReader (r : bufReader R E) : textReader := mkTextReader r None [].

#[local] Abbreviation M := (stateful textReader Empty_set).
Definition on_R {A} (m : stateful (bufReader R E) Empty_set A) : M A :=
  fun t => let '(x, b) := m (tr_R t) in (x, mkTextReader b (dot t) (tr_buf t)).
Definition set_buf (v : bytes) (t : textReader) : textReader := mkTextReader (tr_R t) (dot t) v.

Definition closeDot : M unit :=
  let* t := st_get in
  match dot t with None => st_ret tt | Some _ => st_ret tt end.

(** The loop of [readLineSlice]. *)
Fixpoint line_loop (fuel : nat) (line : bytes) : M (bytes * option (bufio_error E)) :=
  match fuel with
  | O => st_lift NoFuel
  | S fuel =>
      let* (l, more, err) := on_R ReadLine in
      match err with
      | Some e => st_ret ([], Some e)
      | None =>
          if bool_decide (line = []) && negb more then st_ret (l, None)
          else
            let line := line ++ l in
            if more : bool then line_loop fuel line else st_ret (line, None)
      end
  end.
Definition readLineSlice : M (bytes * option (bufio_error E)) := closeDot ;;; line_loop fuel [].

(** The loop of [skipSpace]. *)
Fixpoint space_loop (fuel : nat) (n : nat) : M nat :=
  match fuel with
  | O => st_lift NoFuel
  | S fuel =>
      let* (c, err) := on_R ReadByte in
      match err with
      | Some _ => st_ret n
      | None => if negb (is_blank c) then on_R (UnreadByte c) ;;; st_ret n else space_loop fuel (S n)
      end
  end.
Definition skipSpace : M nat := space_loop fuel 0.

(** The loop over continuation lines. *)
Fixpoint continuation_loop (turns : nat) : M unit :=
  match turns with
  | O => st_lift NoFuel
  | S turns =>
      let* n := skipSpace in
      if (0 <? n)%nat then
        let* (line, err) := readLineSlice in
        match err with
        | Some _ => st_ret tt
        | None => st_mod (fun t => set_buf (tr_buf t ++ [32]) t) ;;; st_mod (fun t => set_buf (tr_buf t ++ trim line) t) ;;; continuation_loop turns
        end
      else st_ret tt
  end.

Definition readContinuedLineSlice (validateFirstLine : option (bytes -> option (text_error E))) : M (bytes * option (text_error E)) :=
  match validateFirstLine with
  | None => st_ret ([], Some MissingValidate)
  | Some validate =>
      let* (line, err) := readLineSlice in
      match err with
      | Some e => st_ret ([], Some (ReadError e))
      | None =>
          match line with
          | [] => st_ret (line, None)
          | _ =>
              match validate line with
              | Some e => st_ret ([], Some e)
              | None =>
                  let* n := on_R Buffered in
                  (if 1 <? n then
                     let* (peek, _) := on_R (Peek 2) in
                     (* the body of the [if] is empty *)
                     if (0 <? len peek) && (isASCIILetter (nth 0 peek 0) || (nth 0 peek 0 =? 10)) || (len peek =? 2) && (nth 0 peek 0 =? 13) && (nth 1 peek 0 =? 10)
                     then st_ret tt else st_ret tt
                   else st_ret tt) ;;;
                  st_mod (set_buf (trim line)) ;;;
                  continuation_loop fuel ;;;
                  let* t := st_get in st_ret (tr_buf t, None)
              end
          end
      end
  end.

Definition upcomingHeaderNewlines : M Z :=
  on_R (Peek 1) ;;;
  let* s := on_R Buffered in
  if s =? 0 then st_ret 0
  else
    let* (peek, _) := on_R (Peek s) in
    st_ret (len (List.filter (Z.eqb 10) peek)).

#[local] Abbreviation Header := (gmap bytes (list bytes)).

(** What the loop of [ReadMIMEHeader] does with the line [kv]; [strs] strings are
    still preallocated.  [k] is a slice of [kv], so the line an error shows has
    the key as [canonicalMIMEHeaderKey] left it.  [true] is [continue]. *)
Definition header_line (m : Header) (strs : Z) (kv : bytes) : text_error E + Header * Z * bool :=
  let '(k, v, ok) := Cut 58 kv in
  if negb ok then inl (ProtocolError (MalformedHeaderLine kv))
  else
    let '(key, ok) := canonicalMIMEHeaderKey k in
    if negb ok then inl (ProtocolError (MalformedHeaderLine kv))
    else if negb (forallb validHeaderValueByte v) then inl (ProtocolError (MalformedHeaderLine (key ++ [58] ++ v)))
    else
      match key with
      | [] => inr (m, strs, true)
      | _ =>
          let value := skip_blanks v in
          match m !! key with
          | None => if 0 <? strs then inr (<[key := [value]]> m, strs - 1, false) else inr (<[key := [value]]> m, strs, false)
          | Some vv => inr (<[key := vv ++ [value]]> m, strs, false)
          end
      end.

Fixpoint header_loop (turns : nat) (m : Header) (strs : Z) : M (Header * option (text_error E)) :=
  match turns with
  | O => st_lift NoFuel
  | S turns =>
      let* (kv, err) := readContinuedLineSlice (Some mustHaveFieldNameColon) in
      match kv with
      | [] => st_ret (m, err)
      | _ =>
          match header_line m strs kv with
          | inl e => st_ret (m, Some e)
          | inr (m, strs, skip) =>
              if skip : bool then header_loop turns m strs
              else match err with Some e => st_ret (m, Some e) | None => header_loop turns m strs end
          end
      end
  end.

Definition ReadMIMEHeader : M (Header * option (text_error E)) :=
  let* hint := upcomingHeaderNewlines in
  let* (buf, err) := on_R (Peek 1) in
  match err, buf with
  | None, b :: _ =>
      if is_blank b then
        let* (line, err) := readLineSlice in
        match err with
        | Some e => st_ret (∅, Some (ReadError e))
        | None => st_ret (∅, Some (ProtocolError (MalformedInitialLine line)))
        end
      else header_loop fuel ∅ hint
  | _, _ => header_loop fuel ∅ hint
  end.

End TextReader.
Arguments textReader R E : clear implicits.
