(* ===== verification/TextReaderProps.v ===== *)
(** * Headers on the wire

    [ReadMIMEHeader] on a header with folded lines, over any source: the map it
    returns, and what it leaves unread. *)
From S2P Require Import Prelude Io BufReader BufReaderProps GoStrings Textproto TextReader.

Local Open Scope Z_scope.
Local Open Scope go_scope.

#[local] Opaque defaultBufSize.

(** ** Blanks *)

Definition blanks (ws : bytes) : Prop := Forall (fun b => is_blank b = true) ws.
Definition starts_solid (s : bytes) : Prop := match s with b :: _ => is_blank b = false | [] => False end.

Lemma skip_blanks_app ws s : blanks ws -> starts_solid s -> skip_blanks (ws ++ s) = s.
Proof.
  intros Hws Hs. induction Hws as [|b ws Hb _ IH]; cbn [app skip_blanks]; [|by rewrite Hb]. destruct s as [|b s]; [done|]. cbn in *. by rewrite Hs.
Qed.
Lemma skip_blanks_solid s : starts_solid s -> skip_blanks s = s.
Proof. intros Hs. by apply (skip_blanks_app []); [constructor|]. Qed.

(** Text without blanks at its ends. *)
Definition solid (s : bytes) : Prop := starts_solid s /\ starts_solid (rev s).
Lemma trim_solid s : solid s -> trim s = s.
Proof. intros [H1 H2]. unfold trim. rewrite (skip_blanks_solid s H1), (skip_blanks_solid _ H2). apply rev_involutive. Qed.
Lemma solid_app p q : starts_solid p -> starts_solid (rev q) -> solid (p ++ q).
Proof. intros Hp Hq. split; [by destruct p|]. rewrite rev_app_distr. revert Hq. by destruct (rev q). Qed.

(** ** Header fields *)

(** A line of a value: the blanks before it, and its text. *)
Abbreviation segment := (list Z * list Z)%type.
Definition good_value (v : bytes) : Prop := solid v /\ forallb validHeaderValueByte v = true.
(** The key, the first line of the value, the lines it is continued on. *)
Record field : Type := mkField { f_key : bytes; f_first : segment; f_more : list segment }.
Definition good_field (f : field) : Prop :=
  f_key f <> [] /\ is_token (f_key f) = true /\ is_bytes (f_key f) /\
  blanks (fst (f_first f)) /\ good_value (snd (f_first f)) /\
  Forall (fun '(ws, v) => ws <> [] /\ blanks ws /\ good_value v) (f_more f).

Definition wire_segments (l : list segment) : bytes := concat (map (fun '(ws, v) => ws ++ v ++ [13; 10]) l).
Definition wire_field (f : field) : bytes := f_key f ++ 58 :: wire_segments (f_first f :: f_more f).
Definition wire_header (fs : list field) : bytes := concat (map wire_field fs) ++ [13; 10].

(** The value, with one space for every fold. *)
Definition field_value (f : field) : bytes := snd (f_first f) ++ concat (map (fun '(_, v) => 32 :: v) (f_more f)).

Fixpoint add_all (fs : list field) (h : MIMEHeader) : res Empty_set MIMEHeader :=
  match fs with
  | [] => Ok h
  | f :: fs => let? h := Add h (f_key f) (field_value f) in add_all fs h
  end.

Lemma validHeaderValueByte_no c : validHeaderValueByte c = true -> c <> 10 /\ c <> 13.
Proof. intros H. split; intros ->; vm_compute in H; done. Qed.
Lemma value_no_newline v : forallb validHeaderValueByte v = true -> 10 ∉ v.
Proof. rewrite forallb_forall. intros H Hin%list_elem_of_In. by apply H, validHeaderValueByte_no in Hin as [? _]. Qed.
Lemma blank_no_newline ws : blanks ws -> 10 ∉ ws.
Proof. unfold blanks. rewrite Forall_forall. intros H Hin%list_elem_of_In. by specialize (H _ Hin). Qed.

Lemma token_char b : is_byte b -> validHeaderFieldByte b = true -> is_blank b = false /\ b <> 10 /\ b <> 58.
Proof.
  intros Hb Hv. assert (implb (validHeaderFieldByte b) (negb (is_blank b) && negb (b =? 10) && negb (b =? 58)) = true) as H.
  { check_bytes (fun b => implb (validHeaderFieldByte b) (negb (is_blank b) && negb (b =? 10) && negb (b =? 58))) b. }
  rewrite Hv in H. cbn [implb] in H. bool_to_Prop. done.
Qed.
Lemma key_chars k : is_bytes k -> is_token k = true -> 10 ∉ k /\ 58 ∉ k.
Proof.
  intros Hk Ht. unfold is_token in Ht. rewrite forallb_forall in Ht. unfold is_bytes in Hk. rewrite Forall_forall in Hk.
  split; intros Hin%list_elem_of_In; destruct (token_char _ (Hk _ Hin) (Ht _ Hin)) as (? & ? & ?); done.
Qed.
Lemma key_starts_solid k : k <> [] -> is_bytes k -> is_token k = true -> starts_solid k.
Proof.
  intros Hne Hk Ht. destruct k as [|b k]; [done|]. cbn in *. apply andb_true_iff in Ht as [Hb _]. apply is_bytes_cons in Hk as [Hbb _]. by apply token_char.
Qed.

Section TextReader.
Context {R Er : Type} {RD : Reader R Er} {SR : Source R Er}.
Implicit Types t : textReader R Er.
Variable fuel : nat.

Definition holds_text t s : Prop := br_holds (tr_R t) s.
Lemma on_R_ok {A} (m : stateful (bufReader R Er) Empty_set A) t r b : m (tr_R t) = (r, b) -> on_R m t = (r, mkTextReader b (dot t) (tr_buf t)).
Proof. intros H. unfold on_R. by rewrite H. Qed.

(** ** Lines and blanks from the wire *)

Lemma line_loop_ok n : forall l line t s, holds_text t (l ++ [13; 10] ++ s) -> 10 ∉ l -> (length l < n)%nat ->
  exists t', line_loop n line t = (Ok (line ++ l, None), t') /\ holds_text t' s /\ tr_buf t' = tr_buf t.
Proof.
  induction n as [|n IH]; intros l line t s Ht Hl Hn; [lia|]. cbn [line_loop].
  destruct (ReadLine_ok (tr_R t) l s Ht Hl) as [(b' & Eq & Hb')|(l1 & l2 & b' & -> & Hne & Eq & Hb')]; rewrite (bind_ok _ _ _ _ _ (on_R_ok _ _ _ _ Eq)); cbv iota beta.
  - case_bool_decide as Hline; cbn [negb andb]; [subst line|]; eexists; split; try reflexivity; by split.
  - rewrite andb_false_r. apply not_elem_of_app in Hl as [_ Hl]. rewrite length_app in Hn.
    destruct (IH l2 (line ++ l1) (mkTextReader b' (dot t) (tr_buf t)) s Hb' Hl) as (t' & Eq' & Ht' & Hbuf); [destruct l1; [done|cbn in Hn; lia]|].
    exists t'. by rewrite Eq', <- app_assoc.
Qed.

Lemma readLineSlice_ok l t s : holds_text t (l ++ [13; 10] ++ s) -> 10 ∉ l -> (length l < fuel)%nat ->
  exists t', readLineSlice fuel t = (Ok (l, None), t') /\ holds_text t' s /\ tr_buf t' = tr_buf t.
Proof.
  intros Ht Hl Hf. unfold readLineSlice. rewrite (bind_ok _ _ _ tt t); [|unfold closeDot; erewrite bind_ok by reflexivity; by destruct (dot t)].
  by apply (line_loop_ok fuel l []).
Qed.

Lemma space_loop_ok n : forall ws k t s, holds_text t (ws ++ s) -> blanks ws -> starts_solid s -> (length ws < n)%nat ->
  exists t', space_loop n k t = (Ok (k + length ws)%nat, t') /\ holds_text t' s /\ tr_buf t' = tr_buf t.
Proof.
  induction n as [|n IH]; intros ws k t s Ht Hws Hs Hn; [lia|]. cbn [space_loop]. destruct ws as [|b ws].
  - destruct s as [|c s]; [done|]. cbn [starts_solid app] in *. destruct (ReadByte_data _ _ _ Ht) as (b1 & Eq & Hb1 & Hl). rewrite (bind_ok _ _ _ _ _ (on_R_ok _ _ _ _ Eq)).
    cbv iota beta. rewrite Hs. cbn [negb]. destruct (UnreadByte_ok b1 c s Hb1 Hl) as (b2 & Eq2 & Hb2).
    rewrite (bind_ok _ _ _ _ _ (on_R_ok (UnreadByte c) (mkTextReader b1 (dot t) (tr_buf t)) _ _ Eq2)). eexists. split; [cbn [length]; rewrite Nat.add_0_r; reflexivity|]. by split.
  - cbn [app] in Ht. apply List.Forall_cons_iff in Hws as [Hb Hws]. destruct (ReadByte_data _ _ _ Ht) as (b1 & Eq & Hb1 & _). rewrite (bind_ok _ _ _ _ _ (on_R_ok _ _ _ _ Eq)).
    cbv iota beta. rewrite Hb. cbn [negb]. destruct (IH ws (S k) (mkTextReader b1 (dot t) (tr_buf t)) s Hb1 Hws Hs) as (t' & Eq' & Ht' & Hbuf); [cbn in Hn; lia|].
    exists t'. rewrite Eq'. split; [do 2 f_equal; cbn; lia|]. by split.
Qed.

(** The lines a value is continued on are appended, trimmed. *)
Lemma continuation_loop_ok turns : forall more t s, holds_text t (wire_segments more ++ s) -> starts_solid s ->
  Forall (fun '(ws, v) => ws <> [] /\ blanks ws /\ good_value v) more -> (length (wire_segments more) < fuel)%nat -> (length more < turns)%nat ->
  exists t', continuation_loop fuel turns t = (Ok tt, t') /\ holds_text t' s /\ tr_buf t' = tr_buf t ++ concat (map (fun '(_, v) => 32 :: v) more).
Proof.
  induction turns as [|turns IH]; intros more t s Ht Hs Hmore Hf Hturns; [lia|]. cbn [continuation_loop]. destruct more as [|[ws v] more].
  - cbn [wire_segments map concat app] in Ht. destruct (space_loop_ok fuel [] 0 t s Ht) as (t1 & Eq & Ht1 & Hbuf); [constructor|done|cbn in *; lia|].
    unfold skipSpace. rewrite (bind_ok _ _ _ _ _ Eq). exists t1. split; [done|]. split; [done|]. cbn. by rewrite app_nil_r.
  - apply List.Forall_cons_iff in Hmore as [(Hne & Hws & Hv & Hvalid) Hmore]. assert (wire_segments ((ws, v) :: more) = ws ++ v ++ [13; 10] ++ wire_segments more) as Ew.
    { unfold wire_segments. cbn [map concat]. by rewrite <- !app_assoc. }
    rewrite Ew in Ht, Hf. rewrite !length_app in Hf. cbn [length] in Hf, Hturns. rewrite <- !app_assoc in Ht.
    destruct (space_loop_ok fuel ws 0 t _ Ht) as (t1 & Eq & Ht1 & Hbuf); [done|destruct Hv as [Hv _]; by destruct v|lia|].
    unfold skipSpace. rewrite (bind_ok _ _ _ _ _ Eq). destruct (Nat.ltb_spec 0 (0 + length ws)); [|destruct ws; [done|cbn in *; lia]].
    destruct (readLineSlice_ok v t1 (wire_segments more ++ s) Ht1) as (t2 & Eq2 & Ht2 & Hbuf2); [by apply value_no_newline|lia|].
    rewrite (bind_ok _ _ _ _ _ Eq2). cbv iota beta. erewrite bind_ok by reflexivity. erewrite bind_ok by reflexivity.
    match goal with |- context [continuation_loop _ _ ?t0] => set (t3 := t0) end. destruct (IH more t3 s) as (t' & Eq' & Ht' & Hbuf'); [exact Ht2|done|done|lia|lia|].
    exists t'. split; [done|]. split; [done|]. rewrite Hbuf'. unfold t3. cbn [tr_buf set_buf]. rewrite Hbuf2, Hbuf, trim_solid by done. cbn [map concat]. by rewrite <- !app_assoc.
Qed.

(** ** One field *)

Definition field_line (f : field) : bytes := f_key f ++ 58 :: fst (f_first f) ++ field_value f.

Lemma look_ahead t s : holds_text t s -> exists t' : textReader R Er,
  (let* n := on_R Buffered in
   if 1 <? n then
     let* (peek, _) := on_R (Peek 2) in
     if (0 <? len peek) && (isASCIILetter (nth 0 peek 0) || (nth 0 peek 0 =? 10)) || (len peek =? 2) && (nth 0 peek 0 =? 13) && (nth 1 peek 0 =? 10)
     then st_ret tt else st_ret tt
   else st_ret tt) t = (Ok tt, t') /\ holds_text t' s.
Proof.
  intros Ht. erewrite bind_ok by reflexivity. cbv beta. assert (mkTextReader (tr_R t) (dot t) (tr_buf t) = t) as -> by (by destruct t).
  destruct (1 <? _); [|by exists t]. destruct (Peek_ok 2 _ _ Ht) as (p & e & b' & Eq & Hb' & _). rewrite (bind_ok _ _ _ _ _ (on_R_ok _ _ _ _ Eq)). cbv iota beta.
  exists (mkTextReader b' (dot t) (tr_buf t)). by destruct (_ || _).
Qed.

Lemma readContinuedLineSlice_field f t s : holds_text t (wire_field f ++ s) -> starts_solid s -> good_field f -> (length (wire_field f) < fuel)%nat ->
  exists t', readContinuedLineSlice fuel (Some mustHaveFieldNameColon) t = (Ok (field_line f, None), t') /\ holds_text t' s.
Proof.
  intros Ht Hs (Hne & Htok & Hk & Hws & [Hv Hvalid] & Hmore) Hf. destruct f as [key [ws v] more]. cbn [f_key f_first f_more fst snd] in *.
  set (line := key ++ 58 :: ws ++ v). assert (wire_field (mkField key (ws, v) more) = line ++ [13; 10] ++ wire_segments more) as Ew.
  { unfold wire_field, wire_segments, line. cbn [f_key f_first f_more map concat]. rewrite <- !app_assoc. cbn [app]. by rewrite <- ?app_assoc. }
  rewrite Ew in Ht, Hf. rewrite <- !app_assoc in Ht. rewrite !length_app in Hf. destruct (key_chars key Hk Htok) as [Hk10 Hk58].
  assert (10 ∉ line) as H10.
  { unfold line. intros [?|[?|[?|?]%elem_of_app]%elem_of_cons]%elem_of_app; [done|done|by apply (blank_no_newline ws)|by apply (value_no_newline v)]. }
  destruct (readLineSlice_ok line t _ Ht H10) as (t1 & Eq1 & Ht1 & _); [lia|]. unfold readContinuedLineSlice. rewrite (bind_ok _ _ _ _ _ Eq1). cbv iota beta.
  assert (solid line) as Hsolid.
  { unfold line. rewrite (app_assoc key (58 :: ws) v : key ++ 58 :: ws ++ v = (key ++ 58 :: ws) ++ v). apply solid_app; [|by destruct Hv].
    pose proof (key_starts_solid key Hne Hk Htok). by destruct key. }
  destruct line as [|c line'] eqn:El; [by destruct Hsolid|]. rewrite <- El in *. unfold mustHaveFieldNameColon.
  assert (IndexByte line 58 = Some (length key)) as -> by (by apply IndexByte_found).
  destruct (look_ahead t1 _ Ht1) as (t2 & Eq2 & Ht2). rewrite bind_bind, (bind_ok _ _ _ _ _ Eq2). erewrite bind_ok by reflexivity.
  match goal with |- context [st_bind _ _ ?t0] => set (t3 := t0) end.
  destruct (continuation_loop_ok fuel more t3 s Ht2 Hs Hmore) as (t4 & Eq4 & Ht4 & Hbuf); [lia| |].
  { assert (length more <= length (wire_segments more))%nat; [|cbn in Hf; lia]. clear. induction more as [|[ws v] more IH]; [done|]. unfold wire_segments in *. cbn [map concat length]. rewrite !length_app. cbn [length]. lia. }
  rewrite (bind_ok _ _ _ _ _ Eq4). exists t4. split; [|done]. unfold st_bind, st_get, st_ret. rewrite Hbuf. unfold t3. cbn [tr_buf set_buf].
  rewrite trim_solid by done. do 3 f_equal. unfold field_line, field_value, line. cbn [f_key f_first f_more fst snd]. rewrite <- !app_assoc. cbn [app]. by rewrite <- ?app_assoc.
Qed.

Lemma length_canon_loop u a : length (canon_loop u a) = length a.
Proof. revert u. induction a as [|c a IH]; intros u; cbn [canon_loop length]; [done|]. by rewrite IH. Qed.

Lemma canonical_token k : is_token k = true -> canonicalMIMEHeaderKey k = (CanonicalMIMEHeaderKey k, true).
Proof.
  intros Hk. pose proof (canonicalMIMEHeaderKey_spec k) as E1. rewrite CanonicalMIMEHeaderKey_spec. rewrite Hk in *. rewrite <- E1.
  unfold canonicalMIMEHeaderKey. rewrite token_scan_key by done. by destruct (commonHeader !! _) as [[]|].
Qed.

Lemma header_line_field f m strs : good_field f -> exists strs', @header_line Er m strs (field_line f) =
  inr (<[CanonicalMIMEHeaderKey (f_key f) := values_at m (CanonicalMIMEHeaderKey (f_key f)) ++ [field_value f]]> m, strs', false).
Proof.
  intros (Hne & Htok & Hk & Hws & [Hv Hvalid] & Hmore). destruct (key_chars _ Hk Htok) as [_ H58]. unfold header_line, field_line. rewrite Cut_found by done. cbn [negb].
  rewrite canonical_token by done. cbn [negb].
  assert (forallb validHeaderValueByte (fst (f_first f) ++ field_value f) = true) as ->.
  { unfold field_value. rewrite !forallb_app, Hvalid. assert (forall ws, blanks ws -> forallb validHeaderValueByte ws = true) as Hblank.
    { intros ws Hb. apply forallb_forall. intros b Hin. unfold blanks in Hb. rewrite Forall_forall in Hb. specialize (Hb _ Hin). unfold is_blank in Hb.
      apply orb_true_iff in Hb as [Hb|Hb]; apply Z.eqb_eq in Hb; by subst b. }
    rewrite Hblank by done. cbn [andb]. induction Hmore as [|[ws v] more (_ & _ & _ & Hv') _ IH]; [done|]. cbn [map concat]. rewrite forallb_app, IH, andb_true_r. cbn [forallb]. by rewrite Hv'. }
  cbn [negb]. rewrite skip_blanks_app; [|done|].
  2: { unfold field_value. destruct Hv as [Hv _]. by destruct (snd (f_first f)). }
  assert (CanonicalMIMEHeaderKey (f_key f) <> []) as Hc.
  { rewrite CanonicalMIMEHeaderKey_spec, Htok. intros Hz. apply (f_equal length) in Hz. rewrite length_canon_loop in Hz. by destruct (f_key f). }
  destruct (CanonicalMIMEHeaderKey (f_key f)) as [|b k] eqn:Ek; [done|]. unfold values_at. destruct (m !! (b :: k)); [by eexists|]. destruct (0 <? strs); by eexists.
Qed.

(** ** The header *)

Lemma wire_field_starts f : good_field f -> exists b s, wire_field f = b :: s /\ is_blank b = false.
Proof.
  intros (Hne & Htok & Hk & _). pose proof (key_starts_solid _ Hne Hk Htok) as Hs. unfold wire_field. destruct (f_key f) as [|b k]; [done|]. by exists b, (k ++ 58 :: wire_segments (f_first f :: f_more f)).
Qed.
Lemma wire_header_cons f fs : wire_header (f :: fs) = wire_field f ++ wire_header fs.
Proof. unfold wire_header. cbn [map concat]. by rewrite <- app_assoc. Qed.
Lemma wire_header_starts fs rest : Forall good_field fs -> starts_solid (wire_header fs ++ rest).
Proof.
  intros Hfs. destruct fs as [|f fs]; [done|]. apply List.Forall_cons_iff in Hfs as [Hf _]. rewrite wire_header_cons. destruct (wire_field_starts f Hf) as (b & s & -> & Hb). done.
Qed.

Lemma header_loop_ok turns rest : forall fs m strs t, holds_text t (wire_header fs ++ rest) -> Forall good_field fs -> (length (wire_header fs) < fuel)%nat -> (length fs < turns)%nat ->
  exists m' t', header_loop fuel turns m strs t = (Ok (m', None), t') /\ holds_text t' rest /\ add_all fs (Some m) = Ok (Some m').
Proof.
  induction turns as [|turns IH]; intros fs m strs t Ht Hfs Hf Hn; [lia|]. cbn [header_loop]. destruct fs as [|f fs].
  - destruct (readLineSlice_ok [] t rest Ht) as (t1 & Eq1 & Ht1 & _); [apply not_elem_of_nil|cbn in *; lia|].
    assert (readContinuedLineSlice fuel (Some mustHaveFieldNameColon) t = (Ok ([], None), t1)) as Eq by (unfold readContinuedLineSlice; by rewrite (bind_ok _ _ _ _ _ Eq1)).
    rewrite (bind_ok _ _ _ _ _ Eq). by exists m, t1.
  - apply List.Forall_cons_iff in Hfs as [Hgood Hfs]. rewrite wire_header_cons in Ht, Hf. rewrite <- app_assoc in Ht. rewrite length_app in Hf. cbn [length] in Hn.
    destruct (readContinuedLineSlice_field f t _ Ht) as (t1 & Eq & Ht1); [by apply wire_header_starts|done|lia|]. rewrite (bind_ok _ _ _ _ _ Eq). cbv iota beta.
    destruct (header_line_field f m strs Hgood) as (strs' & El). rewrite El. destruct (field_line f) as [|c l] eqn:Ec.
    { unfold field_line in Ec. by destruct (f_key f). }
    destruct (IH fs (<[CanonicalMIMEHeaderKey (f_key f) := values_at m (CanonicalMIMEHeaderKey (f_key f)) ++ [field_value f]]> m) strs' t1 Ht1 Hfs) as (m' & t' & Eq' & Ht' & Hadd); [lia|lia|].
    exists m', t'. split; [done|]. split; [done|]. cbn [add_all]. exact Hadd.
Qed.

Lemma upcoming_ok t s : holds_text t s -> exists n t', upcomingHeaderNewlines t = (Ok n, t') /\ holds_text t' s.
Proof.
  intros Ht. unfold upcomingHeaderNewlines. destruct (Peek_ok 1 _ _ Ht) as (p & e & b' & Eq & Hb' & _). rewrite (bind_ok _ _ _ _ _ (on_R_ok _ _ _ _ Eq)). cbv beta iota.
  erewrite bind_ok by reflexivity. destruct (_ =? 0); [by exists 0; eexists|].
  match goal with |- context [st_bind _ _ ?t0] => set (t1 := t0) end. destruct (Peek_ok (len (br_buf b')) (tr_R t1) s Hb') as (p2 & e2 & b2 & Eq2 & Hb2 & _).
  rewrite (bind_ok _ _ _ _ _ (on_R_ok (Peek (len (br_buf b'))) t1 _ _ Eq2)). cbv iota beta. by do 2 eexists.
Qed.

Lemma ReadMIMEHeader_ok fs rest t : holds_text t (wire_header fs ++ rest) -> Forall good_field fs -> (length (wire_header fs) < fuel)%nat ->
  exists m t', ReadMIMEHeader fuel t = (Ok (m, None), t') /\ holds_text t' rest /\ add_all fs (Some ∅) = Ok (Some m).
Proof.
  intros Ht Hfs Hf. unfold ReadMIMEHeader. destruct (upcoming_ok t _ Ht) as (n & t1 & Eq1 & Ht1). rewrite (bind_ok _ _ _ _ _ Eq1).
  destruct (Peek_ok 1 _ _ Ht1) as (p & e & b' & Eq & Hb' & Hp). specialize (Hp eq_refl). rewrite (bind_ok _ _ _ _ _ (on_R_ok _ _ _ _ Eq)). cbv iota beta.
  pose proof (wire_header_starts fs rest Hfs) as Hs. destruct (wire_header fs ++ rest) as [|b s] eqn:Ew; [done|]. destruct Hp as [-> ->]. cbn in Hs. rewrite Hs.
  apply (header_loop_ok fuel rest); [by rewrite Ew|done|done|].
  assert (length fs <= length (wire_header fs))%nat; [|lia]. clear. induction fs as [|f fs IH]; [cbn; lia|]. rewrite wire_header_cons, length_app. unfold wire_field. rewrite length_app. cbn [length]. lia.
Qed.
End TextReader.

(** C8: A header written as lines [Key: value] (values folded onto further lines
    as often as one likes) and ended by an empty line is read by
    [ReadMIMEHeader], from any source and with lines of any length, as the map
    that [Add] of every field to an empty one gives: keys in canonical form,
    values in order, each fold one space; what follows is left unread. *)
Theorem ReadMIMEHeader_reads {R Er} {RD : Reader R Er} {SR : Source R Er} (r : R) fs rest fuel :
  holds r (wire_header fs ++ rest) -> Forall good_field fs -> (length (wire_header fs) < fuel)%nat ->
  exists m t, ReadMIMEHeader fuel (NewReader (bufio_NewReader r)) = (Ok (m, None), t) /\ br_holds (tr_R t) rest /\
    add_all fs (Some ∅) = Ok (Some m).
Proof. intros Hr Hfs Hf. apply ReadMIMEHeader_ok; [by apply NewReader_holds|done|done]. Qed.

(** The example of the comment on [ReadMIMEHeader]. *)
Definition sample_fields : list field :=
  [mkField (str "My-Key") ([32], str "Value 1") []; mkField (str "Long-Key") ([32], str "Even") [([32; 32; 9], str "Longer Value")]; mkField (str "my-key") ([], str "Value 2") []].

Lemma ReadMIMEHeader_reads_witness :
  exists m t, ReadMIMEHeader 100 (NewReader (bufio_NewReader (mkStream (wire_header sample_fields ++ [1; 2])))) = (Ok (m, None), t) /\ br_holds (tr_R t) [1; 2] /\
    add_all sample_fields (Some ∅) = Ok (Some m).
Proof.
  apply (ReadMIMEHeader_reads (mkStream (wire_header sample_fields ++ [1; 2]))); [done| |vm_compute; lia].
  assert (forall v, solid v -> forallb validHeaderValueByte v = true -> good_value v) as Hg by (by split).
  repeat constructor; cbn [f_key f_first f_more fst snd]; try done; try solve_bytes; try (by vm_compute).
Defined.
