(* ===== verification/Mime.v ===== *)
(** * Media types

    [src/http/mime/grammar.go] and [src/http/mime/mediatype.go]: tokens,
    [FormatMediaType] and [ParseMediaType] with RFC 2231 continuations. *)
From S2P Require Import Prelude Httpguts GoStrings.

Local Open Scope Z_scope.
Local Open Scope go_scope.

Abbreviation Params := (gmap bytes bytes).
(** From a base name to the parameters with an asterisk. *)
Abbreviation Continuation := (gmap bytes (gmap bytes bytes)).

(** ** Grammar *)

(** The parentheses to the equals sign of the Go string; 34 is the double
    quote. *)
Definition tspecials : bytes := str "()<>@,;:\" ++ [34] ++ str "/[]?=".
Definition isTSpecial (r : Z) : bool := existsb (Z.eqb r) tspecials.
Definition isTokenChar (r : Z) : bool := (0x20 <? r) && (r <? 0x7f) && negb (isTSpecial r).
Definition isToken (s : bytes) : bool :=
  match s with
  | [] => false
  | _ => match IndexFunc isTokenChar s with Some _ => false | None => true end
  end.
Definition isNotTokenChar (r : Z) : bool := negb (isTokenChar r).

(** [encodedword.go] *)
Definition needsEncoding (s : bytes) : bool := existsb (fun b => ((b <? 32) || (126 <? b)) && negb (b =? 9)) (runes s).
Definition upperhex : bytes := str "0123456789ABCDEF".
Definition upperhex_at (i : Z) : Z := nth (Z.to_nat i) upperhex 0.

(** ** Serializing *)

(** The loop over a value that needs encoding; [run] is
    [value\[offset:index\]]. *)
Definition needs_percent (ch : Z) : bool :=
  (ch <=? 32) || (0x7F <=? ch) || (ch =? 42) || (ch =? 39) || (ch =? 37) || isTSpecial ch.
Fixpoint percent_loop (run value : bytes) : bytes :=
  match value with
  | [] => run
  | ch :: value =>
      if needs_percent ch then run ++ [37; upperhex_at (Z.shiftr ch 4); upperhex_at (Z.land ch 0x0F)] ++ percent_loop [] value
      else percent_loop (run ++ [ch]) value
  end.

(** The loop over a value in quotes: the escaped character begins the next
    run. *)
Fixpoint quote_loop (run value : bytes) : bytes :=
  match value with
  | [] => run
  | ch :: value => if (ch =? 34) || (ch =? 92) then run ++ [92] ++ quote_loop [ch] value else quote_loop (run ++ [ch]) value
  end.

Section Mime.
Context {UL : UnicodeLower} {RO : RangeOrder}.

Definition format_type (t : bytes) : option bytes :=
  let '(major, sub, ok) := Cut 47 t in
  if negb ok then (if negb (isToken t) then None else Some (ToLower t))
  else if negb (isToken major) || negb (isToken sub) then None
  else Some (ToLower major ++ [47] ++ ToLower sub).

Definition format_param (attribute value : bytes) : option bytes :=
  if negb (isToken attribute) then None
  else
    let needEnc := needsEncoding value in
    let b := [59; 32] ++ ToLower attribute ++ (if needEnc then [42] else []) ++ [61] in
    if needEnc then Some (b ++ str "utf-8''" ++ percent_loop [] value)
    else if isToken value then Some (b ++ value)
    else Some (b ++ [34] ++ quote_loop [] value ++ [34]).

Fixpoint format_params (param : gmap bytes bytes) (attrs : list bytes) : option bytes :=
  match attrs with
  | [] => Some []
  | attribute :: attrs =>
      match format_param attribute (default [] (param !! attribute)) with
      | None => None
      | Some b => match format_params param attrs with None => None | Some b' => Some (b ++ b') end
      end
  end.

Definition FormatMediaType (t : bytes) (param : gmap bytes bytes) : bytes :=
  match format_type t with
  | None => []
  | Some b =>
      let attrs := sort_strings (map fst (range param)) in
      match format_params param attrs with None => [] | Some b' => b ++ b' end
  end.
(** ** Parsing *)

Inductive mime_error : Type :=
  | NoMediaType
  | ExpectedSlash
  | ExpectedTokenAfterSlash
  | UnexpectedContent
  | ErrInvalidMediaParameter
  | DuplicateParameter.

Definition consumeToken (v : bytes) : bytes * bytes :=
  match IndexFunc isNotTokenChar v with
  | None => (v, [])
  | Some O => ([], v)
  | Some notPos => (take notPos v, drop notPos v)
  end.

Definition checkMediaTypeDisposition (s : bytes) : option mime_error :=
  let '(typ, rest) := consumeToken s in
  match typ, rest with
  | [], _ => Some NoMediaType
  | _, [] => None
  | _, c :: rest =>
      if negb (c =? 47) then Some ExpectedSlash
      else
        let '(subtype, rest) := consumeToken rest in
        match subtype, rest with
        | [], _ => Some ExpectedTokenAfterSlash
        | _, _ :: _ => Some UnexpectedContent
        | _, [] => None
        end
  end.

(** The loop over a quoted string; [None] when the end quote is missing or a
    line break comes first. *)
Fixpoint quoted_loop (buffer v : bytes) : option (bytes * bytes) :=
  match v with
  | [] => None
  | r :: v =>
      if r =? 34 then Some (buffer, v)
      else
        match v with
        | c :: v' =>
            if (r =? 92) && isTSpecial c then quoted_loop (buffer ++ [c]) v'
            else if (r =? 13) || (r =? 10) then None else quoted_loop (buffer ++ [r]) v
        | [] => if (r =? 13) || (r =? 10) then None else quoted_loop (buffer ++ [r]) v
        end
  end.

Definition consumeValue (v : bytes) : bytes * bytes :=
  match v with
  | [] => ([], [])
  | c :: s =>
      if negb (c =? 34) then consumeToken v
      else match quoted_loop [] s with Some p => p | None => ([], v) end
  end.

Definition consumeMediaParam (v : bytes) : bytes * bytes * bytes :=
  let rest := TrimLeftFunc IsSpace v in
  match rest with
  | 59 :: rest =>
      let rest := TrimLeftFunc IsSpace rest in
      let '(param, rest) := consumeToken rest in
      let param := ToLower param in
      match param with
      | [] => ([], [], v)
      | _ =>
          let rest := TrimLeftFunc IsSpace rest in
          match rest with
          | 61 :: rest =>
              let rest := TrimLeftFunc IsSpace rest in
              let '(value, rest2) := consumeValue rest in
              if bool_decide (value = []) && bool_decide (rest2 = rest) then ([], [], v) else (param, value, rest2)
          | _ => ([], [], v)
          end
      end
  | _ => ([], [], rest)
  end.

Definition ishex (c : Z) : bool := between 48 c 57 || between 97 c 102 || between 65 c 70.
Definition unhex (c : Z) : Z :=
  if between 48 c 57 then c - 48 else if between 97 c 102 then c - 97 + 10 else if between 65 c 70 then c - 65 + 10 else 0.

(** The first loop: the number of escapes, or the bytes the error shows. *)
Fixpoint count_percents (s : bytes) (percents : nat) : nat + bytes :=
  match s with
  | [] => inl percents
  | c :: s' =>
      if negb (c =? 37) then count_percents s' percents
      else
        match s' with
        | a :: b :: s'' => if negb (ishex a) || negb (ishex b) then inr (take 3 s) else count_percents s'' (S percents)
        | _ => inr (take 3 s)
        end
  end.
(** The second loop. *)
Fixpoint unescape_loop (s : bytes) : bytes :=
  match s with
  | [] => []
  | c :: s' =>
      match c =? 37, s' with
      | true, a :: b :: s'' => Z.lor (u8 (Z.shiftl (unhex a) 4)) (unhex b) :: unescape_loop s''
      | _, _ => c :: unescape_loop s'
      end
  end.
Definition percentHexUnescape (s : bytes) : bytes + bytes :=
  match count_percents s 0 with
  | inr e => inr e
  | inl O => inl s
  | inl _ => inl (unescape_loop s)
  end.

Definition decode2231Enc (v : bytes) : option bytes :=
  let '(charset, rest, ok1) := Cut 39 v in
  let '(_, encoded, ok2) := Cut 39 rest in
  if negb (ok1 && ok2) then None
  else
    let charset := ToLower charset in
    if bool_decide (charset = []) then None
    else if negb (bool_decide (charset = str "us-ascii")) && negb (bool_decide (charset = str "utf-8")) then None
    else match percentHexUnescape encoded with inl encv => Some encv | inr _ => None end.


(** The loop over the parameters: [inr] is a return inside of it. *)
Fixpoint param_loop (fuel : nat) (mediatype : bytes) (params : Params) (continuation : Continuation) (v : bytes) :
    res Empty_set (Params * Continuation + bytes * option Params * option mime_error) :=
  match v with
  | [] => Ok (inl (params, continuation))
  | _ =>
      match fuel with
      | O => NoFuel
      | S fuel =>
          let v := TrimLeftFunc IsSpace v in
          match v with
          | [] => Ok (inl (params, continuation))
          | _ =>
              let '(key, value, rest) := consumeMediaParam v in
              match key with
              | [] =>
                  if bool_decide (TrimSpace rest = [59]) then Ok (inl (params, continuation))
                  else Ok (inr (mediatype, None, Some ErrInvalidMediaParameter))
              | _ =>
                  let '(baseName, _, star) := Cut 42 key in
                  let pmap := if star then default ∅ (continuation !! baseName) else params in
                  match pmap !! key with
                  | Some v' =>
                      if negb (bool_decide (v' = value)) then Ok (inr ([], None, Some DuplicateParameter))
                      else if star then param_loop fuel mediatype params (<[baseName := <[key := value]> pmap]> continuation) rest
                      else param_loop fuel mediatype (<[key := value]> pmap) continuation rest
                  | None =>
                      if star then param_loop fuel mediatype params (<[baseName := <[key := value]> pmap]> continuation) rest
                      else param_loop fuel mediatype (<[key := value]> pmap) continuation rest
                  end
              end
          end
      end
  end.

(** The parts [key*n], from [n] on. *)
Fixpoint parts_loop (fuel n : nat) (key : bytes) (pieceMap : Params) (buf : bytes) (valid : bool) : res Empty_set (bytes * bool) :=
  match fuel with
  | O => NoFuel
  | S fuel =>
      let simplePart := key ++ [42] ++ decimal n in
      match pieceMap !! simplePart with
      | Some v => parts_loop fuel (S n) key pieceMap (buf ++ v) true
      | None =>
          let encodedPart := simplePart ++ [42] in
          match pieceMap !! encodedPart with
          | None => Ok (buf, valid)
          | Some v =>
              let decv :=
                if (n =? 0)%nat then default [] (decode2231Enc v)
                else match percentHexUnescape v with inl d => d | inr _ => [] end in
              parts_loop fuel (S n) key pieceMap (buf ++ decv) true
          end
      end
  end.

Definition stitch (key : bytes) (pieceMap : Params) (params : Params) : res Empty_set Params :=
  match pieceMap !! (key ++ [42]) with
  | Some v => match decode2231Enc v with Some decv => Ok (<[key := decv]> params) | None => Ok params end
  | None =>
      let? (buf, valid) := parts_loop (S (size pieceMap)) 0 key pieceMap [] false in
      if valid : bool then Ok (<[key := buf]> params) else Ok params
  end.

Fixpoint stitch_all (l : list (bytes * Params)) (params : Params) : res Empty_set Params :=
  match l with
  | [] => Ok params
  | (key, pieceMap) :: l => let? params := stitch key pieceMap params in stitch_all l params
  end.

Definition ParseMediaType (v : bytes) : res Empty_set (bytes * option Params * option mime_error) :=
  let '(base, _, _) := Cut 59 v in
  let mediatype := TrimSpace (ToLower base) in
  match checkMediaTypeDisposition mediatype with
  | Some err => Ok ([], None, Some err)
  | None =>
      let? r := param_loop (length v) mediatype ∅ ∅ (drop (length base) v) in
      match r with
      | inr early => Ok early
      | inl (params, continuation) =>
          let? params := stitch_all (range continuation) params in
          Ok (mediatype, Some params, None)
      end
  end.

End Mime.
