(* ===== verification/MimeLex.v ===== *)
(** * Tokens, quoted strings and escapes

    How [consumeToken], [consumeValue], [percentHexUnescape] and
    [decode2231Enc] read the texts of the grammar: tokens, strings in quotes
    with quoted pairs, and extended values with percent escapes; and that
    [quote_loop] and [percent_loop] write such texts. *)
From S2P Require Import Prelude Httpguts Textproto GoStrings Mime.

Local Open Scope Z_scope.

(** ** Tokens *)

(** What [isToken] is meant to test. *)
Definition all_token (s : bytes) : bool := forallb isTokenChar s.
Definition token_ok (s : bytes) : bool := match s with [] => false | _ => all_token s end.

Lemma isTokenChar_range b : isTokenChar b = true -> 32 < b < 127.
Proof. unfold isTokenChar. intros H. bool_to_Prop. lia. Qed.
Lemma isTokenChar_not b c : isTokenChar b = true -> isTSpecial c = true -> b <> c.
Proof. unfold isTokenChar. intros H Hc ->. bool_to_Prop. congruence. Qed.
Lemma all_token_not s c : all_token s = true -> isTSpecial c = true -> c ∉ s.
Proof.
  unfold all_token. rewrite forallb_forall. intros H Hc Hin. apply list_elem_of_In in Hin. by apply (isTokenChar_not c c (H _ Hin) Hc).
Qed.
Lemma all_token_app s1 s2 : all_token (s1 ++ s2) = all_token s1 && all_token s2.
Proof. apply forallb_app. Qed.
Lemma all_token_ascii s : all_token s = true -> is_ascii s = true.
Proof.
  unfold all_token, is_ascii. rewrite !forallb_forall. intros H b Hb. specialize (H b Hb). apply isTokenChar_range in H. apply Z.ltb_lt. lia.
Qed.
Lemma isTokenChar_lower b : isTokenChar b = true -> isTokenChar (lower_byte b) = true.
Proof.
  intros H. pose proof (isTokenChar_range b H). assert (is_byte b) as Hb by (unfold is_byte; lia). revert H.
  apply implb_true_iff. check_bytes (fun b => implb (isTokenChar b) (isTokenChar (lower_byte b))) b.
Qed.
Lemma all_token_lower s : all_token s = true -> all_token (ascii_lower s) = true.
Proof.
  rewrite ascii_lower_map. unfold all_token. induction s as [|b s IH]; cbn [map forallb]; [done|]. intros [Hb Hs]%andb_true_iff.
  by rewrite isTokenChar_lower, IH.
Qed.
Lemma token_not_space b : isTokenChar b = true -> IsSpace b = false.
Proof.
  intros H. pose proof (isTokenChar_range b H). assert (is_byte b) as Hb by (unfold is_byte; lia). apply negb_true_iff.
  revert H. apply implb_true_iff. check_bytes (fun b => implb (isTokenChar b) (negb (IsSpace b))) b.
Qed.

Lemma IndexFunc_ascii_app f p c s : forallb (fun b => (b <? 128) && negb (f b)) p = true -> c < 128 -> f c = true ->
  IndexFunc f (p ++ c :: s) = Some (length p).
Proof.
  intros Hp Hc Hf. unfold IndexFunc. assert (forall i, IndexFunc_from f 0 i (p ++ c :: s) = Some (i + length p)%nat) as H; [|by rewrite H].
  induction p as [|b p IH]; intros i; cbn [app IndexFunc_from length]; unfold decode_rune.
  - rewrite (proj2 (Z.ltb_lt c 0x80)) by lia. rewrite Hf. f_equal. lia.
  - cbn [forallb] in Hp. apply andb_true_iff in Hp as [[Hb Hfb]%andb_true_iff Hp]. apply Z.ltb_lt in Hb. apply negb_true_iff in Hfb.
    rewrite (proj2 (Z.ltb_lt b 0x80)) by lia. rewrite Hfb. cbn [pred]. rewrite IH by done. f_equal. lia.
Qed.
Lemma IndexFunc_ascii_none f p : forallb (fun b => (b <? 128) && negb (f b)) p = true -> IndexFunc f p = None.
Proof.
  intros Hp. unfold IndexFunc. generalize 0%nat at 2. induction p as [|b p IH]; intros i; [done|]. cbn [IndexFunc_from]. unfold decode_rune.
  cbn [forallb] in Hp. apply andb_true_iff in Hp as [[Hb Hfb]%andb_true_iff Hp]. apply Z.ltb_lt in Hb. apply negb_true_iff in Hfb.
  rewrite (proj2 (Z.ltb_lt b 0x80)) by lia. rewrite Hfb. by apply IH.
Qed.

Lemma all_token_index s : all_token s = true -> forallb (fun b => (b <? 128) && negb (isNotTokenChar b)) s = true.
Proof.
  unfold all_token. rewrite !forallb_forall. intros H b Hb. specialize (H b Hb). pose proof (isTokenChar_range b H).
  unfold isNotTokenChar. rewrite H. apply andb_true_iff. split; [apply Z.ltb_lt; lia|done].
Qed.

(** The token at the beginning. *)
Definition token_ends (s : bytes) : Prop := match s with [] => True | c :: _ => c < 128 /\ isTokenChar c = false end.

Lemma consumeToken_app t s : token_ok t = true -> token_ends s -> consumeToken (t ++ s) = (t, s).
Proof.
  unfold token_ok. intros Ht Hs. unfold consumeToken. destruct s as [|c s].
  - rewrite app_nil_r, IndexFunc_ascii_none; [done|]. apply all_token_index. by destruct t.
  - destruct Hs as [Hc Hn]. rewrite IndexFunc_ascii_app; [|apply all_token_index; by destruct t|done|unfold isNotTokenChar; by rewrite Hn].
    destruct t as [|b t]; [done|]. by rewrite take_app_length, drop_app_length.
Qed.

(** What [consumeToken] takes is a token. *)
Lemma IndexFunc_not_token v : is_bytes v -> IndexFunc isNotTokenChar v = first_index isNotTokenChar 0 v.
Proof.
  intros Hv. apply IndexFunc_bytes; [|done]. intros r Hr. unfold isNotTokenChar. apply negb_true_iff. unfold isTokenChar.
  rewrite (proj2 (Z.ltb_ge r 0x7f)) by lia. by rewrite andb_false_r.
Qed.
Lemma negb_not_token p : forallb (fun b => negb (isNotTokenChar b)) p = all_token p.
Proof. unfold all_token, isNotTokenChar. induction p as [|b p IH]; cbn; [done|]. by rewrite negb_involutive, IH. Qed.

Lemma consumeToken_inv v t s : is_bytes v -> consumeToken v = (t, s) ->
  v = t ++ s /\ all_token t = true /\ (s = [] \/ exists c s', s = c :: s' /\ isTokenChar c = false).
Proof.
  intros Hv. unfold consumeToken. rewrite IndexFunc_not_token by done. destruct (first_index isNotTokenChar 0 v) as [k|] eqn:E.
  - apply first_index_some in E as (p & c & s' & -> & -> & Hc & Hp). cbn [plus]. rewrite negb_not_token in Hp. unfold isNotTokenChar in Hc. apply negb_true_iff in Hc.
    destruct p as [|b p].
    + cbn. intros [= <- <-]. split; [done|]. split; [done|]. right. by exists c, s'.
    + cbn [length]. change (S (length p)) with (length (b :: p)). rewrite take_app_length, drop_app_length. intros [= <- <-].
      split; [done|]. split; [done|]. right. by exists c, s'.
  - intros [= <- <-]. rewrite app_nil_r. apply first_index_none in E. rewrite negb_not_token in E. split; [done|]. split; [done|]. by left.
Qed.

(** ** Values in quotes *)

(** The content of a string in quotes: characters, with a backslash before them
    or without. *)
Abbreviation qchar := (bool * Z)%type.
Definition qtext (l : list qchar) : bytes := concat (map (fun '(esc, b) => if esc : bool then [92; b] else [b]) l).
Definition qchar_ok (x : qchar) : Prop :=
  if x.1 then isTSpecial x.2 = true else x.2 <> 34 /\ x.2 <> 92 /\ x.2 <> 13 /\ x.2 <> 10.

Lemma quoted_loop_qtext l rest : forall buf, Forall qchar_ok l ->
  quoted_loop buf (qtext l ++ 34 :: rest) = Some (buf ++ map snd l, rest).
Proof.
  induction l as [|[esc b] l IH]; intros buf Hl; [cbn; by rewrite app_nil_r|]. apply Forall_cons_iff in Hl as [Hb Hl].
  change (qtext ((esc, b) :: l)) with ((if esc then [92; b] else [b]) ++ qtext l). unfold qchar_ok in Hb. cbn [fst snd] in Hb.
  destruct esc; cbn [app quoted_loop].
  - rewrite Hb. cbn [Z.eqb Pos.eqb andb]. rewrite IH by done. by rewrite <- app_assoc.
  - destruct Hb as (H34 & H92 & H13 & H10).
    rewrite (proj2 (Z.eqb_neq b 34)), (proj2 (Z.eqb_neq b 92)), (proj2 (Z.eqb_neq b 13)), (proj2 (Z.eqb_neq b 10)) by done. cbn [andb orb].
    rewrite IH by done. destruct (qtext l ++ 34 :: rest) eqn:E; [by destruct (qtext l)|]. by rewrite <- app_assoc.
Qed.

(** What [FormatMediaType] writes between the quotes. *)
Lemma quote_loop_qtext v : forall run, quote_loop run v = run ++ qtext (map (fun b => ((b =? 34) || (b =? 92), b)) v).
Proof.
  induction v as [|b v IH]; intros run; cbn [quote_loop map]; [by rewrite app_nil_r|].
  change (qtext ((?e, b) :: ?l)) with ((if e : bool then [92; b] else [b]) ++ qtext l).
  destruct (_ || _); rewrite IH; [done|by rewrite <- app_assoc].
Qed.

(** ** Escaped values *)

(** The text of an extended value: characters as they are, and bytes as two
    hexadecimal digits of either case. *)
Inductive pchar : Type := Raw (b : Z) | Hex (h l : Z) (upper_h upper_l : bool).

Definition pct_digit (upper : bool) (n : Z) : Z := if n <? 10 then 48 + n else if upper then 55 + n else 87 + n.
Definition pchar_text (x : pchar) : bytes := match x with Raw b => [b] | Hex h l uh ul => [37; pct_digit uh h; pct_digit ul l] end.
Definition pchar_byte (x : pchar) : Z := match x with Raw b => b | Hex h l _ _ => 16 * h + l end.
Definition ptext (l : list pchar) : bytes := concat (map pchar_text l).
Definition pchar_ok (x : pchar) : Prop :=
  match x with Raw b => isTokenChar b = true /\ b <> 37 | Hex h l _ _ => 0 <= h < 16 /\ 0 <= l < 16 end.

Lemma ptext_cons x l : ptext (x :: l) = pchar_text x ++ ptext l.
Proof. done. Qed.

Lemma pct_digit_ok u n : 0 <= n < 16 -> ishex (pct_digit u n) = true /\ unhex (pct_digit u n) = n /\ isTokenChar (pct_digit u n) = true.
Proof.
  intros Hn. assert (is_byte n) as Hb by (unfold is_byte; lia).
  assert (implb (n <? 16) (ishex (pct_digit u n) && (unhex (pct_digit u n) =? n) && isTokenChar (pct_digit u n)) = true) as H.
  { destruct u; [check_bytes (fun n => implb (n <? 16) (ishex (pct_digit true n) && (unhex (pct_digit true n) =? n) && isTokenChar (pct_digit true n))) n|
      check_bytes (fun n => implb (n <? 16) (ishex (pct_digit false n) && (unhex (pct_digit false n) =? n) && isTokenChar (pct_digit false n))) n]. }
  rewrite (proj2 (Z.ltb_lt n 16)) in H by lia. cbn [implb] in H. bool_to_Prop. done.
Qed.

Lemma hex_pair h l : 0 <= h < 16 -> 0 <= l < 16 -> Z.lor (u8 (Z.shiftl h 4)) l = 16 * h + l.
Proof.
  intros Hh Hl. rewrite Z.shiftl_mul_pow2 by lia. rewrite u8_small by lia. rewrite lor_disjoint by lia. lia.
Qed.

Lemma count_percents_ptext l : Forall pchar_ok l -> forall n, exists k, count_percents (ptext l) n = inl (n + k)%nat /\ (k = 0%nat -> ptext l = map pchar_byte l).
Proof.
  induction 1 as [|x l Hx _ IH]; intros n; [exists 0%nat; split; [cbn; f_equal; lia|done]|]. rewrite ptext_cons.
  destruct x as [b|h lo uh ul]; cbn [pchar_text app count_percents].
  - destruct Hx as [_ H37]. rewrite (proj2 (Z.eqb_neq b 37)) by done. cbn [negb]. destruct (IH n) as (k & E & Hk). exists k. split; [done|].
    intros H0. cbn [map pchar_byte]. by rewrite Hk.
  - destruct Hx as [Hh Hl]. destruct (pct_digit_ok uh h Hh) as (-> & _), (pct_digit_ok ul lo Hl) as (-> & _). cbn [Z.eqb Pos.eqb negb orb].
    destruct (IH (S n)) as (k & E & _). exists (S k). split; [rewrite E; f_equal; lia|done].
Qed.
Lemma unescape_ptext l : Forall pchar_ok l -> unescape_loop (ptext l) = map pchar_byte l.
Proof.
  induction 1 as [|x l Hx _ IH]; [done|]. rewrite ptext_cons. destruct x as [b|h lo uh ul]; cbn [pchar_text app unescape_loop map pchar_byte].
  - destruct Hx as [_ H37]. rewrite (proj2 (Z.eqb_neq b 37)) by done. by rewrite IH.
  - destruct Hx as [Hh Hl]. destruct (pct_digit_ok uh h Hh) as (_ & -> & _), (pct_digit_ok ul lo Hl) as (_ & -> & _). cbn [Z.eqb Pos.eqb].
    by rewrite hex_pair, IH.
Qed.
Lemma percentHexUnescape_ptext l : Forall pchar_ok l -> percentHexUnescape (ptext l) = inl (map pchar_byte l).
Proof.
  intros Hl. unfold percentHexUnescape. destruct (count_percents_ptext l Hl 0) as (k & -> & Hk). cbn [plus].
  destruct k; [by rewrite Hk|]. by rewrite unescape_ptext.
Qed.

Lemma ptext_token l : Forall pchar_ok l -> all_token (ptext l) = true.
Proof.
  induction 1 as [|x l Hx _ IH]; [done|]. rewrite ptext_cons, all_token_app, IH, andb_true_r. destruct x as [b|h lo uh ul].
  - destruct Hx as [Hb _]. cbn. by rewrite Hb.
  - destruct Hx as [Hh Hl]. destruct (pct_digit_ok uh h Hh) as (_ & _ & E1), (pct_digit_ok ul lo Hl) as (_ & _ & E2). cbn. by rewrite E1, E2.
Qed.

(** What [FormatMediaType] writes behind the charset. *)
Lemma percent_loop_ptext v : is_bytes v -> forall run,
  let l := map (fun b => if needs_percent b then Hex (b / 16) (b mod 16) true true else Raw b) v in
  percent_loop run v = run ++ ptext l /\ Forall pchar_ok l /\ map pchar_byte l = v.
Proof.
  intros Hv. induction v as [|b v IH]; intros run; cbn [percent_loop map]; [rewrite app_nil_r; split_and!; [done|constructor|done]|].
  apply is_bytes_cons in Hv as [Hb Hv]. rewrite ptext_cons. destruct (needs_percent b) eqn:Hp.
  - destruct (IH Hv []) as (-> & Hok & ->). split; [|split].
    + cbn [pchar_text app]. assert ((upperhex_at (Z.shiftr b 4) =? pct_digit true (b / 16)) && (upperhex_at (Z.land b 0x0F) =? pct_digit true (b mod 16)) = true) as H.
      { check_bytes (fun b => (upperhex_at (Z.shiftr b 4) =? pct_digit true (b / 16)) && (upperhex_at (Z.land b 0x0F) =? pct_digit true (b mod 16))) b. }
      apply andb_true_iff in H as [->%Z.eqb_eq ->%Z.eqb_eq]. done.
    + constructor; [|done]. unfold is_byte in Hb. cbn. zdiv_lia.
    + f_equal. cbn [pchar_byte]. pose proof (Z.div_mod b 16). lia.
  - destruct (IH Hv (run ++ [b])) as (-> & Hok & ->). split; [by rewrite <- app_assoc|]. split; [|done]. constructor; [|done].
    assert (implb (negb (needs_percent b)) (isTokenChar b && negb (b =? 37)) = true) as H.
    { check_bytes (fun b => implb (negb (needs_percent b)) (isTokenChar b && negb (b =? 37))) b. }
    rewrite Hp in H. cbn [negb implb] in H. bool_to_Prop. done.
Qed.

(** An extended value: charset, language and text. *)
Definition charset_ok (c : bytes) : Prop := ascii_lower c = str "us-ascii" \/ ascii_lower c = str "utf-8".

Lemma charset_ascii c : charset_ok c -> is_ascii c = true /\ c <> [] /\ 39 ∉ c.
Proof.
  intros Hc. assert (is_ascii (ascii_lower c) = true /\ 39 ∉ ascii_lower c /\ ascii_lower c <> []) as (Ha & H39 & Hne).
  { destruct Hc as [-> | ->]; (split; [done|]; split; [|done]); rewrite list_elem_of_In; cbn; intuition discriminate. }
  split; [|split].
  - revert Ha. unfold is_ascii, ascii_lower. rewrite !forallb_forall. intros Ha b Hb. apply Z.ltb_lt.
    specialize (Ha _ (in_map _ _ _ Hb)). apply Z.ltb_lt in Ha. destruct ((65 <=? b) && (b <=? 90)); lia.
  - intros ->. done.
  - intros Hin. apply H39. rewrite list_elem_of_In in *. unfold ascii_lower. apply in_map_iff. by exists 39.
Qed.

Lemma decode2231Enc_ptext `{UnicodeLower} c lang l : charset_ok c -> 39 ∉ lang -> Forall pchar_ok l ->
  decode2231Enc (c ++ 39 :: lang ++ 39 :: ptext l) = Some (map pchar_byte l).
Proof.
  intros Hc Hlang Hl. destruct (charset_ascii c Hc) as (Ha & Hne & H39). unfold decode2231Enc. rewrite !Cut_found by done. cbn [negb andb].
  rewrite ToLower_ascii by done. rewrite (percentHexUnescape_ptext l Hl). by destruct Hc as [-> | ->].
Qed.
