(* ===== verification/MimeProps.v ===== *)
(** * Media types

    [FormatMediaType] as it is gives up; [ParseMediaType] reads every media type
    of the grammar of RFC 2045 with the extended values of RFC 2231, and returns
    for every string. *)
From S2P Require Import Prelude Httpguts Textproto GoStrings Mime MimeLex.

Local Open Scope Z_scope.
Local Open Scope go_scope.

(** ** Valid media types *)

(** [s] is a token, or two with a slash between. *)
Definition media_type (s : bytes) : Prop :=
  token_ok s = true \/ exists major sub, s = major ++ 47 :: sub /\ token_ok major = true /\ token_ok sub = true.

Lemma token_ok_all s : token_ok s = true -> all_token s = true /\ s <> [].
Proof. unfold token_ok. by destruct s. Qed.
Lemma token_ok_intro s : all_token s = true -> s <> [] -> token_ok s = true.
Proof. unfold token_ok. by destruct s. Qed.
Lemma ends_with c s : c < 128 -> isTokenChar c = false -> token_ends (c :: s).
Proof. by split. Qed.
#[local] Hint Resolve ends_with : core.

Lemma check_media_type s : media_type s -> checkMediaTypeDisposition s = None.
Proof.
  intros [Hs|(major & sub & -> & Hm & Hs)]; unfold checkMediaTypeDisposition.
  - rewrite <- (app_nil_r s), consumeToken_app by done. apply token_ok_all in Hs as [_ Hs]. by destruct s.
  - rewrite consumeToken_app by (done || by apply ends_with). apply token_ok_all in Hm as [_ Hm]. destruct major; [done|]. cbn [Z.eqb Pos.eqb negb].
    rewrite <- (app_nil_r sub), consumeToken_app by done. apply token_ok_all in Hs as [_ Hs]. by destruct sub.
Qed.

Lemma check_media_type_inv s : is_bytes s -> checkMediaTypeDisposition s = None -> media_type s.
Proof.
  intros Hs. unfold checkMediaTypeDisposition. destruct (consumeToken s) as [typ rest] eqn:E1. apply consumeToken_inv in E1 as (-> & Ht & _); [|done].
  apply is_bytes_app in Hs as [_ Hs]. destruct typ as [|b typ]; [done|]. destruct rest as [|c rest].
  { intros _. rewrite app_nil_r. by left. }
  destruct (Z.eqb_spec c 47) as [->|]; [|done]. cbn [negb]. apply is_bytes_cons in Hs as [_ Hs].
  destruct (consumeToken rest) as [sub rest2] eqn:E2. apply consumeToken_inv in E2 as (-> & Ht2 & _); [|done].
  destruct sub as [|b2 sub]; [done|]. destruct rest2; [|done]. intros _. right. exists (b :: typ), (b2 :: sub). by rewrite app_nil_r.
Qed.

(** ** [FormatMediaType] with [isToken] *)

Lemma isToken_ok s : token_ok s = true -> isToken s = false.
Proof.
  intros [Hs Hne]%token_ok_all. unfold isToken. destruct s as [|b s]; [done|]. cbn in Hs. apply andb_true_iff in Hs as [Hb _].
  rewrite IndexFunc_ascii_head; [done| |done]. apply isTokenChar_range in Hb. lia.
Qed.

Lemma token_ok_no_slash s : token_ok s = true -> 47 ∉ s.
Proof. intros [Hs _]%token_ok_all. by apply all_token_not. Qed.

(** [FormatMediaType] returns the empty string for every media type that is
    valid, with whatever parameters: [isToken] answers true for strings
    without any token character. *)
Theorem FormatMediaType_gives_up `{UnicodeLower, RangeOrder} t param :
  is_bytes t -> checkMediaTypeDisposition t = None -> FormatMediaType t param = [].
Proof.
  intros Ht Hc. apply check_media_type_inv in Hc; [|done]. unfold FormatMediaType, format_type.
  destruct Hc as [Hs|(major & sub & -> & Hm & Hs)].
  - rewrite Cut_none by by apply token_ok_no_slash. cbn [negb]. by rewrite isToken_ok.
  - rewrite Cut_found by by apply token_ok_no_slash. cbn [negb]. by rewrite isToken_ok.
Qed.

(** ** Reading media types *)

(** The forms of a value: a token, a string in quotes, or charset, language and
    text of an extended value. *)
Inductive form : Type :=
  | Plain (v : bytes)
  | Quoted (l : list qchar)
  | Extended (charset lang : bytes) (l : list pchar).

Definition form_text (f : form) : bytes :=
  match f with
  | Plain v => v
  | Quoted l => 34 :: qtext l ++ [34]
  | Extended c lang l => c ++ 39 :: lang ++ 39 :: ptext l
  end.
Definition form_value (f : form) : bytes :=
  match f with Plain v => v | Quoted l => map snd l | Extended _ _ l => map pchar_byte l end.
Definition form_ok (f : form) : Prop :=
  match f with
  | Plain v => token_ok v = true
  | Quoted l => Forall qchar_ok l
  | Extended c lang l => charset_ok c /\ token_ok c = true /\ all_token lang = true /\ 39 ∉ lang /\ Forall pchar_ok l
  end.
Definition is_extended (f : form) : bool := match f with Extended _ _ _ => true | _ => false end.

(** A parameter, with white space before and after the semicolon and before and
    after the equals sign. *)
Record wparam : Type := mkWparam { w_name : bytes; w_form : form; w_s1 : bytes; w_s2 : bytes; w_s3 : bytes; w_s4 : bytes }.

Definition spaces (s : bytes) : Prop := Forall (fun b => b < 128 /\ IsSpace b = true) s.

Definition wire_name (w : wparam) : bytes := w_name w ++ (if is_extended (w_form w) then [42] else []).
Definition wparam_text (w : wparam) : bytes :=
  w_s1 w ++ 59 :: w_s2 w ++ wire_name w ++ w_s3 w ++ 61 :: w_s4 w ++ form_text (w_form w).
Definition wparam_ok (w : wparam) : Prop :=
  token_ok (w_name w) = true /\ 42 ∉ w_name w /\ form_ok (w_form w) /\
  spaces (w_s1 w) /\ spaces (w_s2 w) /\ spaces (w_s3 w) /\ spaces (w_s4 w).
Definition wparam_key (w : wparam) : bytes := ascii_lower (w_name w).

(** What may follow the parameters: white space, and one more semicolon. *)
Definition trailer_ok (s : bytes) : Prop := spaces s \/ exists s1 s2, s = s1 ++ 59 :: s2 /\ spaces s1 /\ spaces s2.

Section Reading.
Context {UL : UnicodeLower} {RO : RangeOrder}.

Lemma ToLower_token k : all_token k = true -> ToLower k = ascii_lower k.
Proof. intros Hk. by apply ToLower_ascii, all_token_ascii. Qed.

Lemma TrimLeft_head s b t : s = b :: t -> b < 128 -> IsSpace b = false -> TrimLeftFunc IsSpace s = s.
Proof. intros -> Hb Hs. by apply TrimLeftFunc_keep. Qed.

Lemma TrimLeft_spaces s t : spaces s -> TrimLeftFunc IsSpace (s ++ t) = TrimLeftFunc IsSpace t.
Proof. induction 1 as [|b s [Hb Hs] _ IH]; [done|]. cbn [app]. by rewrite TrimLeftFunc_skip. Qed.

Lemma TrimLeft_nil s : spaces s -> TrimLeftFunc IsSpace s = [].
Proof. intros Hs. rewrite <- (app_nil_r s), TrimLeft_spaces by done. done. Qed.

(** White space and the characters of the syntax end a token. *)
Lemma space_ends b s : b < 128 -> IsSpace b = true -> token_ends (b :: s).
Proof.
  intros Hb Hs. split; [done|]. destruct (isTokenChar b) eqn:E; [|done]. apply token_not_space in E. congruence.
Qed.
Lemma spaces_ends s t : spaces s -> token_ends t -> token_ends (s ++ t).
Proof. intros Hs Ht. destruct Hs as [|b s [Hb Hs] _]; [done|]. by apply space_ends. Qed.

(** The next parameter, or the trailer. *)
Definition param_ends (s : bytes) : Prop := token_ends s.

Lemma token_head t : token_ok t = true -> exists b t', t = b :: t' /\ b < 128 /\ IsSpace b = false /\ b <> 34.
Proof.
  intros [Ha Hne]%token_ok_all. destruct t as [|b t]; [done|]. cbn in Ha. apply andb_true_iff in Ha as [Hb _]. exists b, t. split; [done|].
  pose proof (isTokenChar_range b Hb). split; [lia|]. split; [by apply token_not_space|]. by apply isTokenChar_not.
Qed.

Lemma consumeValue_token v rest : token_ok v = true -> param_ends rest -> consumeValue (v ++ rest) = (v, rest).
Proof.
  intros Ht Hrest. pose proof (consumeToken_app _ rest Ht Hrest) as Ec. destruct (token_head _ Ht) as (b & v' & -> & _ & _ & H34).
  cbn [app consumeValue] in *. by rewrite (proj2 (Z.eqb_neq b 34)).
Qed.

Lemma extended_token c lang l : form_ok (Extended c lang l) -> token_ok (c ++ 39 :: lang ++ 39 :: ptext l) = true.
Proof.
  intros (_ & Hc & Hlang & _ & Hl). apply token_ok_all in Hc as [Hc Hne]. apply token_ok_intro; [|by destruct c].
  change (39 :: lang ++ 39 :: ptext l) with ([39] ++ lang ++ [39] ++ ptext l). rewrite !all_token_app, Hc, Hlang, (ptext_token l Hl). done.
Qed.

(** What [consumeValue] makes of a value. *)
Definition form_raw (f : form) : bytes := match f with Extended _ _ _ => form_text f | _ => form_value f end.

Lemma consumeValue_form f rest : form_ok f -> param_ends rest -> consumeValue (form_text f ++ rest) = (form_raw f, rest).
Proof.
  intros Hf Hrest. destruct f as [v|l|c lang l]; cbn [form_text form_raw form_value].
  - by apply consumeValue_token.
  - cbn [app consumeValue Z.eqb Pos.eqb negb]. rewrite <- app_assoc. cbn [app]. by rewrite quoted_loop_qtext.
  - apply consumeValue_token; [|done]. by apply extended_token.
Qed.

Lemma form_head f : form_ok f -> exists b s, form_text f = b :: s /\ b < 128 /\ IsSpace b = false.
Proof.
  intros Hf. destruct f as [v|l|c lang l]; cbn [form_text].
  - destruct (token_head v Hf) as (b & s & -> & ? & ? & _). by exists b, s.
  - by exists 34, (qtext l ++ [34]).
  - destruct (token_head _ (extended_token _ _ _ Hf)) as (b & s & -> & ? & ? & _). by exists b, s.
Qed.

Lemma wire_name_ok w : wparam_ok w -> token_ok (wire_name w) = true /\
  ToLower (wire_name w) = wparam_key w ++ (if is_extended (w_form w) then [42] else []) /\ wparam_key w <> [] /\ 42 ∉ wparam_key w.
Proof.
  intros (Hn & H42 & _). apply token_ok_all in Hn as [Ha Hne]. unfold wire_name, wparam_key.
  assert (all_token (w_name w ++ (if is_extended (w_form w) then [42] else [])) = true) as Hall.
  { rewrite all_token_app, Ha. by destruct (is_extended _). }
  split; [apply token_ok_intro; [done|by destruct (w_name w)]|]. split.
  - rewrite ToLower_token by done. unfold ascii_lower. rewrite map_app. by destruct (is_extended _).
  - split; [by destruct (w_name w)|]. unfold ascii_lower. rewrite list_elem_of_In, in_map_iff. intros (b & Hb & Hin).
    apply H42. rewrite list_elem_of_In. destruct ((65 <=? b) && (b <=? 90)) eqn:E; [bool_to_Prop; lia|by subst b].
Qed.

Lemma consumeMediaParam_wire w rest : wparam_ok w -> param_ends rest ->
  consumeMediaParam (59 :: w_s2 w ++ wire_name w ++ w_s3 w ++ 61 :: w_s4 w ++ form_text (w_form w) ++ rest) =
    (ToLower (wire_name w), form_raw (w_form w), rest).
Proof.
  intros Hw Hrest. destruct (wire_name_ok w Hw) as (Hn & Hl & Hne & _). destruct Hw as (_ & _ & Hf & _ & H2 & H3 & H4).
  unfold consumeMediaParam. rewrite (TrimLeftFunc_keep _ 59) by done. cbv iota zeta. rewrite TrimLeft_spaces by done.
  destruct (token_head _ Hn) as (b & n & En & Hb & Hsp & _).
  rewrite (TrimLeft_head (wire_name w ++ _) b (n ++ w_s3 w ++ 61 :: w_s4 w ++ form_text (w_form w) ++ rest)) by (try rewrite En; done).
  rewrite consumeToken_app; [|done|apply spaces_ends; [done|by apply ends_with]].
  destruct (ToLower (wire_name w)) as [|x key] eqn:Ek; [by destruct (wparam_key w)|]. rewrite <- Ek.
  rewrite TrimLeft_spaces, (TrimLeftFunc_keep _ 61), TrimLeft_spaces by done.
  destruct (form_head _ Hf) as (c & s & Ec & Hc & Hcs). rewrite (TrimLeft_head (form_text (w_form w) ++ rest) c (s ++ rest)) by (try rewrite Ec; done).
  rewrite consumeValue_form by done. rewrite (bool_decide_false (rest = _)); [by rewrite andb_false_r|].
  intros E. apply (f_equal length) in E. rewrite Ec, length_app in E. cbn in E. lia.
Qed.

(** *** The loop over the parameters *)

(** The parameters that are read, and those that still have an asterisk. *)
Fixpoint after_params (l : list wparam) (P : Params) (C : Continuation) : Params * Continuation :=
  match l with
  | [] => (P, C)
  | w :: l =>
      if is_extended (w_form w) then after_params l P (<[wparam_key w := <[wparam_key w ++ [42] := form_raw (w_form w)]> ∅]> C)
      else after_params l (<[wparam_key w := form_value (w_form w)]> P) C
  end.

Definition wire_params (l : list wparam) : bytes := concat (map wparam_text l).

Lemma trailer_token s : trailer_ok s -> token_ends s.
Proof.
  intros [Hs|(s1 & s2 & -> & Hs & _)]; [rewrite <- (app_nil_r s)|]; by apply spaces_ends.
Qed.
Lemma wire_params_ends l s : Forall wparam_ok l -> trailer_ok s -> param_ends (wire_params l ++ s).
Proof.
  intros Hl Hs. destruct Hl as [|w l Hw _]; [by apply trailer_token|]. unfold wire_params, wparam_text. cbn [map concat].
  rewrite <- !app_assoc. apply spaces_ends; [apply Hw|by apply ends_with].
Qed.
Lemma length_wparam_text w : (1 <= length (wparam_text w))%nat.
Proof. unfold wparam_text. rewrite length_app. cbn [length]. lia. Qed.

(** The loop ends at the trailer. *)
Lemma param_loop_trailer mt s fuel P C : trailer_ok s -> (length s <= fuel)%nat ->
  param_loop fuel mt P C s = Ok (inl (P, C)).
Proof.
  intros Hs Hf. destruct s as [|b s]; [by destruct fuel|]. destruct fuel as [|fuel]; [cbn in Hf; lia|]. cbn [param_loop].
  destruct Hs as [Hs|(s1 & s2 & E & H1 & H2)]; [by rewrite TrimLeft_nil|].
  rewrite E, TrimLeft_spaces, (TrimLeftFunc_keep _ 59) by done. cbv iota.
  assert (consumeMediaParam (59 :: s2) = ([], [], 59 :: s2)) as ->.
  { unfold consumeMediaParam. rewrite (TrimLeftFunc_keep _ 59) by done. cbv iota zeta. by rewrite TrimLeft_nil. }
  rewrite bool_decide_true; [done|]. unfold TrimSpace. rewrite (TrimLeftFunc_keep _ 59) by done. apply (TrimRightFunc_strip _ [59]); [right; by exists [], 59|done].
Qed.

Lemma param_loop_trim mt u r fuel P C : spaces u -> (length (u ++ r) <= fuel)%nat ->
  param_loop fuel mt P C (u ++ r) = param_loop fuel mt P C r.
Proof.
  intros Hu Hf. destruct (u ++ r) as [|b x] eqn:E; [by apply app_eq_nil in E as [_ ->]|]. destruct fuel as [|fuel]; [cbn in Hf; lia|].
  cbn [param_loop]. rewrite <- E, TrimLeft_spaces by done. by destruct r.
Qed.

Lemma param_loop_wire mt l s : trailer_ok s -> forall fuel P C, (length (wire_params l ++ s) <= fuel)%nat ->
  Forall wparam_ok l -> NoDup (map wparam_key l) ->
  (forall w, w ∈ l -> P !! wparam_key w = None /\ C !! wparam_key w = None) ->
  param_loop fuel mt P C (wire_params l ++ s) = Ok (inl (after_params l P C)).
Proof.
  intros Hs. induction l as [|w l IH]; intros fuel P C Hf Hok Hnd Hl; [by apply param_loop_trailer|].
  apply Forall_cons_iff in Hok as [Hw Hok]. cbn [map] in Hnd. apply list.NoDup_cons in Hnd as [Hk Hnd].
  destruct (Hl w ltac:(by left)) as [HP HC].
  assert (forall w', w' ∈ l -> wparam_key w' <> wparam_key w) as Hne.
  { intros w' Hin E. apply Hk. rewrite <- E, list_elem_of_In. apply in_map. by apply list_elem_of_In. }
  change (wire_params (w :: l)) with (wparam_text w ++ wire_params l) in *. unfold wparam_text in *. rewrite <- !app_assoc in *.
  rewrite param_loop_trim by (done || apply Hw). rewrite length_app in Hf. cbn [app] in *. rewrite <- ?app_assoc in *. cbn [app] in *. rewrite <- ?app_assoc in *.
  destruct fuel as [|fuel]; [cbn [length] in Hf; lia|]. cbn [param_loop]. rewrite (TrimLeftFunc_keep _ 59) by done. cbv iota.
  rewrite consumeMediaParam_wire by (done || by apply wire_params_ends).
  destruct (wire_name_ok w Hw) as (_ & -> & Hkne & H42).
  assert ((length (wire_params l ++ s) <= fuel)%nat) as Hf'.
  { cbn [length] in Hf. rewrite !length_app in Hf. cbn [length] in Hf. rewrite !length_app in Hf. rewrite !length_app. lia. }
  destruct (wparam_key w ++ (if is_extended (w_form w) then [42] else [])) as [|x key] eqn:Ek; [by destruct (wparam_key w)|]. rewrite <- Ek. clear x key Ek.
  cbn [after_params]. destruct (is_extended (w_form w)) eqn:He.
  - rewrite Cut_found by done. rewrite HC. cbn [default from_option id]. rewrite lookup_empty. apply IH; try done.
    intros w' Hin. destruct (Hl w' ltac:(by right)) as [? ?]. split; [done|]. rewrite lookup_insert_ne; [done|]. intros E. by apply (Hne w' Hin).
  - rewrite app_nil_r, Cut_none by done. rewrite HP. assert (form_raw (w_form w) = form_value (w_form w)) as -> by by destruct (w_form w).
    apply IH; try done.
    intros w' Hin. destruct (Hl w' ltac:(by right)) as [? ?]. split; [|done]. rewrite lookup_insert_ne; [done|]. intros E. by apply (Hne w' Hin).
Qed.

(** *** Putting extended values together *)

Lemma stitch_wire k f P : is_extended f = true -> form_ok f -> stitch k (<[k ++ [42] := form_raw f]> ∅) P = Ok (<[k := form_value f]> P).
Proof.
  intros He Hf. unfold stitch. rewrite lookup_insert_eq. destruct f as [| |c lang l]; [done..|]. destruct Hf as (Hc & _ & _ & Hlang & Hl).
  cbn [form_raw form_text form_value]. by rewrite decode2231Enc_ptext.
Qed.

(** Where each parameter is after the loop. *)
Lemma after_params_lookup l : forall P C k, NoDup (map wparam_key l) ->
  let '(P', C') := after_params l P C in
  match list_find (fun w => wparam_key w = k) l with
  | Some (_, w) =>
      if is_extended (w_form w) then P' !! k = P !! k /\ C' !! k = Some (<[k ++ [42] := form_raw (w_form w)]> ∅)
      else P' !! k = Some (form_value (w_form w)) /\ C' !! k = C !! k
  | None => P' !! k = P !! k /\ C' !! k = C !! k
  end.
Proof.
  induction l as [|w l IH]; intros P C k Hnd; cbn [after_params list_find]; [done|].
  cbn [map] in Hnd. apply list.NoDup_cons in Hnd as [Hk Hnd].
  assert (list_find (fun w' => wparam_key w' = wparam_key w) l = None) as Hno.
  { apply list_find_None. apply Forall_forall. intros w' Hin E. apply Hk. rewrite <- E, list_elem_of_In. by apply in_map. }
  set (f := form_raw (w_form w)) in *. set (v := form_value (w_form w)).
  destruct (decide (wparam_key w = k)) as [<-|Hne].
  - destruct (is_extended (w_form w));
      [specialize (IH P (<[wparam_key w := <[wparam_key w ++ [42] := f]> ∅]> C) (wparam_key w) Hnd)|specialize (IH (<[wparam_key w := v]> P) C (wparam_key w) Hnd)];
      destruct (after_params l _ _) as [P' C']; rewrite Hno in IH; destruct IH as [-> ->]; rewrite ?lookup_insert_eq; done.
  - destruct (is_extended (w_form w));
      [specialize (IH P (<[wparam_key w := <[wparam_key w ++ [42] := f]> ∅]> C) k Hnd)|specialize (IH (<[wparam_key w := v]> P) C k Hnd)];
      destruct (after_params l _ _) as [P' C']; rewrite lookup_insert_ne in IH by done; destruct (list_find _ l) as [[i w1]|]; cbn; done.
Qed.

(** The parameters a reader should get. *)
Definition values (l : list wparam) : Params := list_to_map (map (fun w => (wparam_key w, form_value (w_form w))) l).

Lemma values_lookup l k : values l !! k = (fun x => form_value (w_form x.2)) <$> list_find (fun w => wparam_key w = k) l.
Proof.
  induction l as [|w l IH]; [apply lookup_empty|]. unfold values in *. cbn [map list_to_map foldr list_find fst snd].
  destruct (decide (wparam_key w = k)) as [->|Hne]; [by rewrite lookup_insert_eq|]. rewrite lookup_insert_ne by done.
  rewrite IH. by destruct (list_find _ l) as [[i w1]|].
Qed.

(** Every entry is put together into one parameter of [param]. *)
Lemma stitch_all_ok (param : Params) (l : list (bytes * Params)) : forall P : Params, NoDup l.*1 ->
  (forall k pm, (k, pm) ∈ l -> exists f, param !! k = Some (form_value f) /\ is_extended f = true /\ form_ok f /\ pm = <[k ++ [42] := form_raw f]> ∅) ->
  exists P', stitch_all l P = Ok P' /\ forall k, P' !! k = if decide (k ∈ l.*1) then param !! k else P !! k.
Proof.
  induction l as [|[k pm] l IH]; intros P Hnd Hl; cbn [stitch_all].
  { exists P. split; [done|]. intros k. by rewrite decide_False by (by apply not_elem_of_nil). }
  destruct (Hl k pm ltac:(by left)) as (f & Hk & He & Hf & ->). rewrite stitch_wire by done. cbn [res_bind].
  cbn [fmap list_fmap fst] in *. inversion Hnd as [|? ? Hkl Hnd']; subst.
  destruct (IH (<[k := form_value f]> P) Hnd') as (P' & E & HP'); [intros k' pm' Hin; apply Hl; by right|]. exists P'. split; [done|]. intros k'. rewrite HP'.
  destruct (decide (k' = k)) as [->|Hne].
  - rewrite decide_False by done. rewrite (decide_True (P := k ∈ k :: l.*1)) by (by left). by rewrite lookup_insert_eq.
  - rewrite lookup_insert_ne by done. destruct (decide (k' ∈ l.*1)); [rewrite decide_True by (by right); done|]. rewrite decide_False; [done|]. by intros [->|?]%elem_of_cons.
Qed.

(** What the loop leaves, put together. *)
Lemma stitched l : Forall wparam_ok l -> NoDup (map wparam_key l) ->
  let '(P, C) := after_params l ∅ ∅ in stitch_all (range C) P = Ok (values l).
Proof.
  intros Hok Hnd. pose proof (fun k => after_params_lookup l ∅ ∅ k Hnd) as H. destruct (after_params _ _ _) as [P C].
  destruct (stitch_all_ok (values l) (range C) P) as (P' & E & HP').
  - rewrite range_perm. apply NoDup_fst_map_to_list.
  - intros k pm Hin. rewrite range_perm in Hin. apply elem_of_map_to_list in Hin. specialize (H k). rewrite values_lookup.
    destruct (list_find _ l) as [[i w]|] eqn:E; [|by destruct H; rewrite lookup_empty in *; congruence].
    apply list_find_Some in E as (Hi & _ & _). rewrite Forall_lookup in Hok. destruct (Hok i w Hi) as (_ & _ & Hf & _).
    destruct (is_extended (w_form w)) eqn:He; [|by destruct H; rewrite lookup_empty in *; congruence].
    destruct H as [_ HC]. rewrite HC in Hin. injection Hin as <-. by exists (w_form w).
  - rewrite E. f_equal. apply map_eq. intros k. rewrite HP'. destruct (decide (k ∈ (range C).*1)) as [Hin|Hin]; [done|].
    assert (C !! k = None) as HC.
    { destruct (C !! k) as [pm|] eqn:Ec; [|done]. exfalso. apply Hin. rewrite range_perm. apply list_elem_of_fmap. exists (k, pm). split; [done|]. by apply elem_of_map_to_list. }
    specialize (H k). rewrite values_lookup. destruct (list_find _ l) as [[i w]|]; cbn [fmap option_fmap option_map]; [|by destruct H as [-> _]].
    destruct (is_extended _); destruct H as [-> H]; [congruence|done].
Qed.

(** *** The type *)

Lemma token_ok_lower s : token_ok s = true -> token_ok (ascii_lower s) = true.
Proof. intros [Ha Hne]%token_ok_all. apply token_ok_intro; [by apply all_token_lower|by destruct s]. Qed.
Lemma ascii_lower_app s1 s2 : ascii_lower (s1 ++ s2) = ascii_lower s1 ++ ascii_lower s2.
Proof. apply map_app. Qed.

(** A media type starts and ends with a token character, and has no
    semicolon. *)
Lemma media_type_ends s : media_type s ->
  (exists b s', s = b :: s' /\ isTokenChar b = true) /\ (exists s' b, s = s' ++ [b] /\ isTokenChar b = true) /\ 59 ∉ s /\ is_ascii s = true.
Proof.
  assert (forall t, token_ok t = true -> (exists b s', t = b :: s' /\ isTokenChar b = true) /\ (exists s' b, t = s' ++ [b] /\ isTokenChar b = true) /\ 59 ∉ t /\ is_ascii t = true) as Htok.
  { intros t [Ha Hne]%token_ok_all. split; [|split; [|split; [by apply all_token_not|by apply all_token_ascii]]].
    - destruct t as [|b t]; [done|]. cbn in Ha. apply andb_true_iff in Ha as [Hb _]. by exists b, t.
    - destruct (exists_last Hne) as (s' & b & ->). exists s', b. split; [done|]. rewrite all_token_app in Ha. apply andb_true_iff in Ha as [_ Hb]. cbn in Hb. by rewrite andb_true_r in Hb. }
  intros [Hs|(major & sub & -> & Hm & Hs)]; [by apply Htok|]. destruct (Htok _ Hm) as ((b & s1 & -> & Hb) & _ & H59 & Ham). destruct (Htok _ Hs) as (_ & (s2 & b2 & -> & Hb2) & H59' & Has).
  split; [by exists b, (s1 ++ 47 :: s2 ++ [b2])|]. split; [exists ((b :: s1) ++ 47 :: s2), b2; by rewrite <- app_assoc|]. split.
  - intros [?|[?|?]%elem_of_cons]%elem_of_app; done.
  - unfold is_ascii in *. rewrite forallb_app. cbn [forallb] in *. by rewrite Ham, Has.
Qed.

Lemma spaces_lower s : spaces s -> ascii_lower s = s /\ is_ascii s = true /\ 59 ∉ s.
Proof.
  induction 1 as [|b s [Hb Hs] _ (IH1 & IH2 & IH3)]; [split_and!; [done|done|by apply not_elem_of_nil]|].
  assert (~ (65 <= b <= 90) /\ b <> 59) as [Hu H59].
  { destruct (decide (is_byte b)) as [Hbyte|Hbyte].
    - assert (implb (IsSpace b) (negb ((65 <=? b) && (b <=? 90)) && negb (b =? 59)) = true) as H by check_bytes (fun b => implb (IsSpace b) (negb ((65 <=? b) && (b <=? 90)) && negb (b =? 59))) b.
      rewrite Hs in H. cbn [implb] in H. bool_to_Prop. lia.
    - unfold is_byte in Hbyte. lia. }
  split; [|split].
  - unfold ascii_lower in *. cbn [map]. rewrite IH1. f_equal. destruct ((65 <=? b) && (b <=? 90)) eqn:E; [bool_to_Prop; lia|done].
  - unfold is_ascii in *. cbn [forallb]. rewrite IH2. by rewrite (proj2 (Z.ltb_lt b 128)).
  - intros [?|?]%elem_of_cons; [congruence|done].
Qed.

Lemma TrimSpace_media_type u s v : spaces u -> media_type s -> spaces v -> TrimSpace (u ++ s ++ v) = s.
Proof.
  intros Hu Hs Hv. destruct (media_type_ends s Hs) as ((b & s1 & E1 & Hb) & (s2 & c & E2 & Hc) & _). unfold TrimSpace.
  pose proof (isTokenChar_range b Hb). pose proof (isTokenChar_range c Hc).
  rewrite TrimLeft_spaces by done. rewrite (TrimLeft_head (s ++ v) b (s1 ++ v)) by (by rewrite ?E1 || lia || by apply token_not_space).
  apply TrimRightFunc_strip; [|done]. right. exists s2, c. split; [done|]. split; [lia|by apply token_not_space].
Qed.

Lemma media_type_lower s : media_type s -> media_type (ascii_lower s).
Proof.
  intros [Hs|(major & sub & -> & Hm & Hs)]; [left; by apply token_ok_lower|right].
  exists (ascii_lower major), (ascii_lower sub). split; [by rewrite ascii_lower_app|]. split; by apply token_ok_lower.
Qed.

(** Up to the first semicolon there is white space only. *)
Lemma rest_cut l s : Forall wparam_ok l -> trailer_ok s ->
  exists u r, wire_params l ++ s = u ++ r /\ spaces u /\ (r = [] \/ exists r', r = 59 :: r').
Proof.
  intros Hl Hs. destruct Hl as [|w l Hw _].
  - destruct Hs as [Hs|(s1 & s2 & -> & H1 & _)]; [exists s, []; rewrite app_nil_r; split_and!; [done|done|by left]|].
    exists s1, (59 :: s2). split_and!; [done|done|right; by eexists].
  - unfold wire_params. cbn [map concat]. unfold wparam_text at 1. rewrite <- !app_assoc. eexists (w_s1 w), _. split; [reflexivity|].
    split; [apply Hw|right; by eexists].
Qed.

End Reading.

(** A type and three parameters, one of each form. *)
Definition sample_params : list wparam :=
  [mkWparam (str "Title") (Extended (str "UTF-8") (str "en") [Hex 12 3 false false; Raw 65; Hex 2 8 true true]) [32] [32] [] [];
   mkWparam (str "q") (Quoted [(false, 97); (true, 34); (false, 98)]) [] [32] [] [32];
   mkWparam (str "x") (Plain (str "1")) [] [9] [32] []].


Lemma FormatMediaType_gives_up_witness :
  let UL := ascii_letters in let RO := storage_order in FormatMediaType (str "text/html") (values sample_params) = [].
Proof. intros UL RO. apply FormatMediaType_gives_up; [solve_bytes|by vm_compute]. Defined.

(** ** [ParseMediaType] returns *)

Lemma consumeToken_split v t s : consumeToken v = (t, s) -> v = t ++ s.
Proof.
  unfold consumeToken. destruct (IndexFunc isNotTokenChar v) as [[|k]|]; intros [= <- <-]; [done|by rewrite take_drop|by rewrite app_nil_r].
Qed.
Lemma quoted_loop_length : forall n v buf a s, (length v <= n)%nat -> quoted_loop buf v = Some (a, s) -> (length s <= length v)%nat.
Proof.
  induction n as [|n IH]; intros v buf a s Hn; (destruct v as [|r v]; [done|]); cbn [length] in *; [lia|]. cbn [quoted_loop].
  destruct (r =? 34); [intros [= <- <-]; lia|]. destruct v as [|c v].
  - destruct (_ || _); [done|]. cbn. done.
  - destruct (_ && _).
    + intros H. apply IH in H; [cbn [length] in *; lia|cbn [length] in *; lia].
    + destruct (_ || _); [done|]. intros H. apply IH in H; [lia|lia].
Qed.
Lemma consumeValue_length v a s : consumeValue v = (a, s) -> (length s <= length v)%nat.
Proof.
  unfold consumeValue. destruct v as [|c v]; [by intros [= <- <-]|]. destruct (negb _).
  - intros H%consumeToken_split. rewrite H, length_app. lia.
  - destruct (quoted_loop [] v) as [[a' s']|] eqn:E.
    + intros [= <- <-]. apply (quoted_loop_length (length v)) in E; cbn; lia.
    + intros [= <- <-]. lia.
Qed.

Section Total.
Context {UL : UnicodeLower} {RO : RangeOrder}.

Lemma consumeMediaParam_length v k a s : consumeMediaParam v = (k, a, s) -> k <> [] -> (length s < length v)%nat.
Proof.
  unfold consumeMediaParam. pose proof (length_TrimLeftFunc IsSpace v) as Hl. destruct (TrimLeftFunc IsSpace v) as [|c r] eqn:E1; [by intros [= <- _ _]|].
  destruct (Z.eqb_spec c 59) as [->|Hc].
  2: { intros H Hk. exfalso. apply Hk. repeat (destruct c as [|c|c]; try (by injection H as <- _ _); try done). }
  cbn [length] in Hl. pose proof (length_TrimLeftFunc IsSpace r) as H2. destruct (consumeToken (TrimLeftFunc IsSpace r)) as [p r2] eqn:E2. apply consumeToken_split in E2.
  rewrite E2, length_app in H2. destruct (ToLower p) as [|b p']; [by intros [= <- _ _]|].
  pose proof (length_TrimLeftFunc IsSpace r2) as H3. destruct (TrimLeftFunc IsSpace r2) as [|c r3]; [by intros [= <- _ _]|].
  destruct (Z.eqb_spec c 61) as [->|Hc].
  2: { intros H Hk. exfalso. apply Hk. repeat (destruct c as [|c|c]; try (by injection H as <- _ _); try done). }
  cbn [length] in H3. pose proof (length_TrimLeftFunc IsSpace r3) as H4. destruct (consumeValue (TrimLeftFunc IsSpace r3)) as [w r4] eqn:E3. apply consumeValue_length in E3.
  destruct (_ && _); [by intros [= <- _ _]|]. intros [= _ _ <-] _. lia.
Qed.

Lemma param_loop_total mt fuel : forall P C v, (length v <= fuel)%nat -> exists r, param_loop fuel mt P C v = Ok r.
Proof.
  induction fuel as [|fuel IH]; intros P C v Hf; (destruct v as [|b v]; [by eexists|]); cbn [length] in Hf; [lia|]. cbn [param_loop].
  pose proof (length_TrimLeftFunc IsSpace (b :: v)) as Hl. destruct (TrimLeftFunc IsSpace (b :: v)) as [|c w]; [by eexists|].
  destruct (consumeMediaParam (c :: w)) as [[key value] rest] eqn:E. destruct key as [|x key]; [destruct (bool_decide _); by eexists|].
  apply consumeMediaParam_length in E; [|done]. cbn [length] in *. destruct (Cut 42 (x :: key)) as [[base ?] star].
  destruct (_ !! _); [destruct (negb _); [by eexists|]|]; destruct star; apply IH; lia.
Qed.

(** The part with number [m], and the name it goes by. *)
Definition part_name (key : bytes) (m : nat) (encoded : bool) : bytes := key ++ [42] ++ decimal m ++ (if encoded then [42] else []).
Lemma part_name_inj key m m' e e' : part_name key m e = part_name key m' e' -> m = m'.
Proof.
  unfold part_name. intros H. apply app_inv_head, (app_inv_head [42]) in H. apply decimal_inj.
  assert (forall n, 42 ∉ decimal n) as Hd.
  { intros n Hin. pose proof (decimal_digits n) as Hf. rewrite Forall_forall in Hf. apply list_elem_of_In in Hin. apply Hf in Hin. lia. }
  destruct e, e'; rewrite ?app_nil_r in H.
  - by apply app_inv_tail in H.
  - exfalso. apply (Hd m'). rewrite <- H. apply elem_of_app. right. by left.
  - exfalso. apply (Hd m). rewrite H. apply elem_of_app. right. by left.
  - done.
Qed.

(** The parts before [n] are different entries of the map. *)
Definition parts_before (key : bytes) (n : nat) (pieceMap : Params) : Prop :=
  exists X : gset bytes, X ⊆ dom pieceMap /\ size X = n /\ forall x, x ∈ X -> exists m e, (m < n)%nat /\ x = part_name key m e.

Lemma parts_before_next key n e pieceMap v : parts_before key n pieceMap -> pieceMap !! part_name key n e = Some v -> parts_before key (S n) pieceMap.
Proof.
  intros (X & Hsub & Hsize & HX) Hv. exists ({[part_name key n e]} ∪ X). split; [apply union_subseteq; split; [apply singleton_subseteq_l; by apply elem_of_dom_2 in Hv|done]|]. split.
  - rewrite size_union, size_singleton, Hsize; [done|]. apply disjoint_singleton_l. intros Hin. destruct (HX _ Hin) as (m & e' & Hm & E). apply part_name_inj in E. lia.
  - intros x [->%elem_of_singleton|Hin]%elem_of_union; [exists n, e; split; [lia|done]|]. destruct (HX _ Hin) as (m & e' & Hm & ->). exists m, e'. split; [lia|done].
Qed.

Lemma parts_loop_total key pieceMap fuel : forall n buf valid, (size pieceMap < n + fuel)%nat -> parts_before key n pieceMap ->
  exists r, parts_loop fuel n key pieceMap buf valid = Ok r.
Proof.
  assert (forall n, parts_before key n pieceMap -> (n <= size pieceMap)%nat) as Hle.
  { intros n (X & Hsub & <- & _). rewrite <- size_dom. by apply subseteq_size. }
  induction fuel as [|fuel IH]; intros n buf valid Hf Hb; [specialize (Hle n Hb); lia|]. cbn [parts_loop].
  destruct (pieceMap !! (key ++ [42] ++ decimal n)) as [v|] eqn:E1.
  - apply IH; [lia|]. apply (parts_before_next key n false _ v Hb). unfold part_name. by rewrite app_nil_r.
  - destruct (pieceMap !! ((key ++ [42] ++ decimal n) ++ [42])) as [v|] eqn:E2; [|by eexists].
    apply IH; [lia|]. apply (parts_before_next key n true _ v Hb). unfold part_name. by rewrite <- E2, <- !app_assoc.
Qed.

Lemma stitch_total key pieceMap P : exists P', stitch key pieceMap P = Ok P'.
Proof.
  unfold stitch. destruct (pieceMap !! _) as [v|]; [destruct (decode2231Enc v); by eexists|].
  destruct (parts_loop_total key pieceMap (S (size pieceMap)) 0 [] false) as [[buf valid] ->]; [lia| |cbn; destruct valid; by eexists].
  exists ∅. split; [apply empty_subseteq|]. split; [apply size_empty|]. by intros x ?%elem_of_empty.
Qed.
Lemma stitch_all_total l : forall P, exists P', stitch_all l P = Ok P'.
Proof.
  induction l as [|[k pm] l IH]; intros P; cbn [stitch_all]; [by eexists|]. destruct (stitch_total k pm P) as [P' ->]. apply IH.
Qed.

Lemma ParseMediaType_total v :
  exists mt params err, ParseMediaType v = Ok (mt, params, err) /\
    match err with
    | None => checkMediaTypeDisposition mt = None /\ params <> None
    | Some ErrInvalidMediaParameter => checkMediaTypeDisposition mt = None /\ params = None
    | Some _ => mt = [] /\ params = None
    end.
Proof.
  unfold ParseMediaType. destruct (Cut 59 v) as [[base ?] ?]. set (mt := TrimSpace (ToLower base)). destruct (checkMediaTypeDisposition mt) as [err|] eqn:Ec.
  { exists [], None, (Some err). split; [done|]. revert Ec. unfold checkMediaTypeDisposition. repeat case_match; intros [=]; subst; done. }
  destruct (param_loop_total mt (length v) ∅ ∅ (drop (length base) v)) as [r Er]; [rewrite length_drop; lia|]. rewrite Er. cbn [res_bind].
  assert (forall fuel P C w x, param_loop fuel mt P C w = Ok (inr x) -> x = (mt, None, Some ErrInvalidMediaParameter) \/ x = ([], None, Some DuplicateParameter)) as Hinr.
  { clear. induction fuel as [|fuel IH]; intros P C w x; (destruct w as [|b w]; [done|]); cbn [param_loop]; [done|].
    repeat case_match; intros Hx; try done; try (by eapply IH); injection Hx as <-; by (left + right). }
  destruct r as [[P C]|x].
  - destruct (stitch_all_total (range C) P) as [P' ->]. cbn [res_bind]. by eexists _, _, _.
  - apply Hinr in Er as [-> | ->]; by eexists _, _, _.
Qed.

(** C21: [ParseMediaType] returns for every string: it does not panic, and
    neither the loop over the parameters nor the one that puts continuations
    together runs forever.  A result without an error has a valid media type,
    and an error other than [ErrInvalidMediaParameter] comes without one. *)
Theorem ParseMediaType_returns v :
  exists mt params err, ParseMediaType v = Ok (mt, params, err) /\
    match err with
    | None => checkMediaTypeDisposition mt = None /\ params <> None
    | Some ErrInvalidMediaParameter => checkMediaTypeDisposition mt = None /\ params = None
    | Some _ => mt = [] /\ params = None
    end.
Proof. apply ParseMediaType_total. Qed.
End Total.
