(* ===== verification/QuotedPrintable.v ===== *)
(** * Quoted-printable

    [src/http/mime/quotedprintable]: the decoding [Reader] ([reader.go]) and the
    encoding [Writer] ([writer.go]).  The writer's methods take slices of its own
    line buffer, so what they read may change below them: an argument is a
    string of the caller or the range of the buffer it is. *)
From S2P Require Import Prelude Io BufReader GoStrings.

Local Open Scope Z_scope.
Local Open Scope go_scope.

(** ** Decoding *)

Inductive qp_error (E : Type) : Type :=
  | QPRead (e : bufio_error E)
  | InvalidBytesAfter (s : bytes)
  | QPInvalidHexByte (b : Z)
  | InvalidUnescapedByte (b : Z).
Arguments QPRead {E} e.
Arguments InvalidBytesAfter {E} s.
Arguments QPInvalidHexByte {E} b.
Arguments InvalidUnescapedByte {E} b.

Definition fromHex {E} (b : Z) : res (qp_error E) Z :=
  if (48 <=? b) && (b <=? 57) then Ok (b - 48)
  else if (65 <=? b) && (b <=? 70) then Ok (b - 65 + 10)
  else if (97 <=? b) && (b <=? 102) then Ok (b - 97 + 10)
  else Err (QPInvalidHexByte b).

Definition readHexByte {E} (v : bytes) : res (qp_error E) Z :=
  match v with
  | a :: b :: _ => let? hb := fromHex a in let? lb := fromHex b in Ok (Z.lor (u8 (Z.shiftl hb 4)) lb)
  | _ => Err (QPRead (IoErr ErrUnexpectedEOF))
  end.

Definition isQPDiscardWhitespace (r : Z) : bool := (r =? 10) || (r =? 13) || (r =? 32) || (r =? 9).

Definition crlf : bytes := [13; 10].
Definition lf : bytes := [10].
Definition softSuffix : bytes := [61].

(** The byte that the line starts with, what is left of the line, or the error. *)
Definition decode_byte {E} (b : Z) (rest : bytes) : res (qp_error E) (Z * bytes) :=
  if b =? 61 then
    match readHexByte rest with
    | Ok b => Ok (b, drop 2 rest)
    | Err e =>
        match rest with
        | c :: _ => if negb (c =? 13) && negb (c =? 10) then Ok (61, rest) else Err e
        | [] => Err e
        end
    | Panic s => Panic s
    | NoFuel => NoFuel
    end
  else if (b =? 9) || (b =? 13) || (b =? 10) then Ok (b, rest)
  else if 0x80 <=? b then Ok (b, rest)
  else if (b <? 32) || (126 <? b) then Err (InvalidUnescapedByte b)
  else Ok (b, rest).

Section Reader.
Context {R E : Type} {RD : Reader R E}.

Record qpReader : Type := mkQpReader {
  br : bufReader R E;
  rerr : option (qp_error E);
  line : bytes }.
Definition NewReader (r : R) : qpReader := mkQpReader (bufio_NewReader r) None [].

#[local] Abbreviation M := (stateful qpReader Empty_set).

(** What is made of the line [wholeLine] that came with [err]: the line to
    decode, and the error that is kept. *)
Definition strip_line (wholeLine : bytes) (err : option (qp_error E)) : bytes * option (qp_error E) :=
  let hasLF := HasSuffix wholeLine lf in
  let hasCR := HasSuffix wholeLine crlf in
  let l := TrimRightFunc isQPDiscardWhitespace wholeLine in
  if HasSuffix l softSuffix then
    let rightStripped := drop (length l) wholeLine in
    let l := take (length l - 1) l in
    (l, if negb (HasPrefix rightStripped lf) && negb (HasPrefix rightStripped crlf) &&
           negb ((len rightStripped =? 0) && (0 <? len l) && match err with Some (QPRead (IoErr EOF)) => true | _ => false end)
        then Some (InvalidBytesAfter rightStripped) else err)
  else if hasLF then (if hasCR then l ++ [13; 10] else l ++ [10], err)
  else (l, err).

Definition read_line : M unit := fun r =>
  let '(x, b) := ReadSlice 10 (br r) in
  match x with
  | Ok (wholeLine, err) =>
      let '(l, e) := strip_line wholeLine (match err with Some e => Some (QPRead e) | None => None end) in
      (Ok tt, mkQpReader b e l)
  | Err e => match e with end
  | Panic s => (Panic s, mkQpReader b (rerr r) (line r))
  | NoFuel => (NoFuel, mkQpReader b (rerr r) (line r))
  end.

(** The loop of [Read]: [done] is what was written to the user's buffer, [p] the
    rest of it. *)
Fixpoint Read_loop (fuel : nat) (done p : bytes) : M (Z * option (qp_error E) * bytes) :=
  match p with
  | [] => st_ret (len done, None, done)
  | _ :: p' =>
      match fuel with
      | O => st_lift NoFuel
      | S fuel =>
          let* r := st_get in
          match line r with
          | [] =>
              match rerr r with
              | Some e => st_ret (len done, Some e, done ++ p)
              | None => read_line ;;; Read_loop fuel done p
              end
          | b :: rest =>
              match decode_byte b rest with
              | Ok (b, rest) => st_put (mkQpReader (br r) (rerr r) rest) ;;; Read_loop fuel (done ++ [b]) p'
              | Err e => st_ret (len done, Some e, done ++ p)
              | Panic s => st_lift (Panic s)
              | NoFuel => st_lift NoFuel
              end
          end
      end
  end.
Definition qp_Read (fuel : nat) (p : bytes) : M (Z * option (qp_error E) * bytes) := Read_loop fuel [] p.

End Reader.
Arguments qpReader R E : clear implicits.

(** ** Encoding *)

Definition lineMaxLen : Z := 76.
Definition isWhitespace (b : Z) : bool := (b =? 32) || (b =? 9).
Definition upperhex : bytes := str "0123456789ABCDEF".

Section Writer.
(** [w] is the underlying writer. *)
Context {W E : Type}.

Record qpWriter : Type := mkQpWriter {
  Binary : bool;
  qp_w : W;
  qp_i : nat;
  qp_line : bytes;                 (* [78]byte *)
  qp_cr : bool }.
Definition NewWriter (w : W) : qpWriter := mkQpWriter false w 0 (replicate 78 0) false.
Definition set_i (v : nat) (w : qpWriter) : qpWriter := mkQpWriter (Binary w) (qp_w w) v (qp_line w) (qp_cr w).
Definition set_line (v : bytes) (w : qpWriter) : qpWriter := mkQpWriter (Binary w) (qp_w w) (qp_i w) v (qp_cr w).
Definition set_cr (v : bool) (w : qpWriter) : qpWriter := mkQpWriter (Binary w) (qp_w w) (qp_i w) (qp_line w) v.

#[local] Abbreviation M := (stateful qpWriter Empty_set).
Abbreviation werror := (option (io_error E)).

(** A string of the caller, or [w.line[:n]]. *)
Inductive source : Type := Caller (p : bytes) | Own (n : nat).
Definition source_len (p : source) : nat := match p with Caller p => length p | Own n => n end.
Definition source_at (p : source) (i : nat) : M Z := fun w => (Ok (nth i (match p with Caller p => p | Own _ => qp_line w end) 0), w).

(** [w.line[i] = b] *)
Definition store (i : nat) (b : Z) : M unit := fun w =>
  if (i <? length (qp_line w))%nat then (Ok tt, set_line (<[i := b]> (qp_line w)) w) else (Panic "index out of range", w).

(** Every line is passed on with [flush]. *)
Section Flush.
Variable flush : M werror.

Definition insertCRLF : M werror :=
  let* w := st_get in
  store (qp_i w) 13 ;;;
  store (qp_i w + 1) 10 ;;;
  st_mod (fun w => set_i (qp_i w + 2) w) ;;;
  flush.

Definition insertSoftLineBreak : M werror :=
  let* w := st_get in
  store (qp_i w) 61 ;;;
  st_mod (fun w => set_i (qp_i w + 1) w) ;;;
  insertCRLF.

(** A call whose error ends the caller. *)
Definition try_err (m k : M werror) : M werror :=
  let* err := m in
  match err with Some e => st_ret (Some e) | None => k end.

Definition encode (b : Z) : M werror :=
  let* w := st_get in
  try_err (if lineMaxLen - 1 - Z.of_nat (qp_i w) <? 3 then insertSoftLineBreak else st_ret None)
    (let* w := st_get in
     store (qp_i w) 61 ;;;
     store (qp_i w + 1) (nth (Z.to_nat (Z.shiftr b 4)) upperhex 0) ;;;
     store (qp_i w + 2) (nth (Z.to_nat (Z.land b 0x0f)) upperhex 0) ;;;
     st_mod (fun w => set_i (qp_i w + 3) w) ;;;
     st_ret None).

Definition checkLastByte : M werror :=
  let* w := st_get in
  if (qp_i w =? 0)%nat then st_ret None
  else
    let b := nth (qp_i w - 1) (qp_line w) 0 in
    if isWhitespace b then st_mod (fun w => set_i (qp_i w - 1) w) ;;; encode b
    else st_ret None.

(** [write(p[lo:hi])]: [k] bytes are left. *)
Fixpoint write_loop (k : nat) (p : source) (lo : nat) : M werror :=
  match k with
  | O => st_ret None
  | S k =>
      let* b := source_at p lo in
      if (b =? 10) || (b =? 13) then
        let* w := st_get in
        if qp_cr w && (b =? 10) then st_mod (set_cr false) ;;; write_loop k p (S lo)
        else
          (if b =? 13 then st_mod (set_cr true) else st_ret tt) ;;;
          try_err checkLastByte (try_err insertCRLF (write_loop k p (S lo)))
      else
        let* w := st_get in
        try_err (if Z.of_nat (qp_i w) =? lineMaxLen - 1 then insertSoftLineBreak else st_ret None)
          (let* w := st_get in
           store (qp_i w) b ;;;
           st_mod (fun w => set_i (qp_i w + 1) w) ;;;
           st_mod (set_cr false) ;;;
           write_loop k p (S lo))
  end.
Definition write (p : source) (lo hi : nat) : M werror := write_loop (hi - lo) p lo.

(** Bytes that are left for the next [write]. *)
Definition plain (binary : bool) (b : Z) : bool :=
  (33 <=? b) && (b <=? 126) && negb (b =? 61) || isWhitespace b || negb binary && ((b =? 10) || (b =? 13)).

(** The loop of [Write]: index [i], [k] bytes left, [n] are done. *)
Fixpoint Write_loop (k : nat) (p : source) (i n : nat) : M (Z * werror) :=
  match k with
  | O =>
      if (n =? source_len p)%nat then st_ret (Z.of_nat n, None)
      else
        let* err := write p n (source_len p) in
        match err with Some e => st_ret (Z.of_nat n, Some e) | None => st_ret (Z.of_nat (source_len p), None) end
  | S k =>
      let* b := source_at p i in
      let* w := st_get in
      if plain (Binary w) b then Write_loop k p (S i) n
      else
        let* err := (if (n <? i)%nat then write p n i else st_ret None) in
        match err with
        | Some e => st_ret (Z.of_nat n, Some e)
        | None =>
            let n := if (n <? i)%nat then i else n in
            let* err := encode b in
            match err with
            | Some e => st_ret (Z.of_nat n, Some e)
            | None => Write_loop k p (S i) (S n)
            end
        end
  end.
Definition Write_with (p : source) : M (Z * werror) := Write_loop (source_len p) p 0 0.

End Flush.

(** [flush] calls the writer's own [Write] with its line. *)
Fixpoint flush (fuel : nat) : M werror :=
  match fuel with
  | O => st_lift NoFuel
  | S fuel =>
      let* w := st_get in
      let* (_, err) := Write_with (flush fuel) (Own (qp_i w)) in
      match err with
      | Some e => st_ret (Some e)
      | None => st_mod (set_i 0) ;;; st_ret None
      end
  end.

Definition qp_Write (fuel : nat) (p : bytes) : M (Z * werror) := Write_with (flush fuel) (Caller p).
Definition Close (fuel : nat) : M werror := try_err (checkLastByte (flush fuel)) (flush fuel).

End Writer.
Arguments qpWriter W : clear implicits.
