(* ===== verification/QuotedProps.v ===== *)
(** * Quoted-printable text

    Every text in the quoted-printable encoding is decoded by [Read], whatever
    its lines, breaks and padding, and whatever the source hands over at a time.
    Nothing comes out of the [Writer]: its [flush] hands the line to the writer
    itself, and the first line break never ends well. *)
From S2P Require Import Prelude Io BufReader BufReaderProps GoStrings QuotedPrintable.

Local Open Scope Z_scope.
Local Open Scope go_scope.

#[local] Opaque defaultBufSize.

(** ** Encoded text *)

Inductive qp_item := Lit (b : Z) | Esc (hi lo : Z).
Definition wire_item (i : qp_item) : bytes := match i with Lit b => [b] | Esc hi lo => [61; hi; lo] end.

Definition hexdigit (h : Z) : bool := (48 <=? h) && (h <=? 57) || (65 <=? h) && (h <=? 70) || (97 <=? h) && (h <=? 102).
Definition nibble (h : Z) : Z := if h <=? 57 then h - 48 else if h <=? 70 then h - 55 else h - 87.
Definition item_value (i : qp_item) : Z := match i with Lit b => b | Esc hi lo => 16 * nibble hi + nibble lo end.
(** A byte stands for itself when it is printable and no equals sign, a tab, or
    outside ASCII. *)
Definition good_item (i : qp_item) : Prop :=
  match i with
  | Lit b => (32 <= b <= 126 /\ b <> 61) \/ b = 9 \/ 128 <= b < 256
  | Esc hi lo => hexdigit hi = true /\ hexdigit lo = true
  end.
(** What a line may end with: no blank, which is deleted there. *)
Definition visible (i : qp_item) : Prop := match i with Lit b => 33 <= b <= 126 | Esc _ _ => True end.
Definition visible_end (its : list qp_item) : Prop := its = [] \/ exists l i, its = l ++ [i] /\ visible i.

Definition nl_of (cr : bool) : bytes := if cr then [13; 10] else [10].
Definition padding (ws : bytes) : Prop := Forall (fun b => b = 32 \/ b = 9) ws.
(** A line break, after blanks somebody has added, or one that is no part of
    the text. *)
Inductive qp_break := Hard (pad : bytes) (cr : bool) | Soft (cr : bool).
Definition wire_break (b : qp_break) : bytes := match b with Hard pad cr => pad ++ nl_of cr | Soft cr => 61 :: nl_of cr end.
Definition break_value (b : qp_break) : bytes := match b with Hard _ cr => nl_of cr | Soft _ => [] end.
(** The end of the text, where a soft line break may also stand. *)
Inductive qp_end := Padded (pad : bytes) | SoftEnd.

Definition wire_items (its : list qp_item) : bytes := concat (map wire_item its).
Definition wire_line '((its, b) : list qp_item * qp_break) : bytes := wire_items its ++ wire_break b.
Definition wire_last '((its, e) : list qp_item * qp_end) : bytes := wire_items its ++ match e with Padded pad => pad | SoftEnd => [61] end.
Definition wire_text (ls : list (list qp_item * qp_break)) fin : bytes := concat (map wire_line ls) ++ wire_last fin.
Definition line_value '((its, b) : list qp_item * qp_break) : bytes := map item_value its ++ break_value b.
Definition text_value (ls : list (list qp_item * qp_break)) (fin : list qp_item * qp_end) : bytes := concat (map line_value ls) ++ map item_value (fst fin).

Definition good_line (l : list qp_item * qp_break) : Prop :=
  Forall good_item (fst l) /\ (length (wire_line l) <= defaultBufSize)%nat /\
  match snd l with Hard pad _ => visible_end (fst l) /\ padding pad | Soft _ => True end.
Definition good_last (l : list qp_item * qp_end) : Prop :=
  Forall good_item (fst l) /\ (length (wire_last l) < defaultBufSize)%nat /\
  match snd l with Padded pad => visible_end (fst l) /\ padding pad | SoftEnd => fst l <> [] end.

(** ** Decoding a line *)

Inductive decodes {E} : bytes -> bytes -> Prop :=
  | decodes_nil : decodes [] []
  | decodes_cons b w c w' v : @decode_byte E b w = Ok (c, w') -> decodes w' v -> decodes (b :: w) (c :: v).

Lemma fromHex_nibble {E} h : hexdigit h = true -> @fromHex E h = Ok (nibble h) /\ 0 <= nibble h < 16.
Proof.
  unfold hexdigit, fromHex, nibble. intros H. rewrite !orb_true_iff, !andb_true_iff, !Z.leb_le in H.
  destruct (Z.leb_spec 48 h), (Z.leb_spec h 57), (Z.leb_spec 65 h), (Z.leb_spec h 70), (Z.leb_spec 97 h), (Z.leb_spec h 102); cbn [andb]; try lia; (split; [f_equal; lia|lia]).
Qed.
Lemma nibbles_value a b : 0 <= a < 16 -> 0 <= b < 16 -> Z.lor (u8 (Z.shiftl a 4)) b = 16 * a + b.
Proof.
  intros Ha Hb. assert (forallb (fun a => forallb (fun b => Z.lor (u8 (Z.shiftl a 4)) b =? 16 * a + b) (seqZ 0 16)) (seqZ 0 16) = true) as H by by vm_compute.
  rewrite forallb_forall in H. specialize (H a). rewrite forallb_forall in H. apply Z.eqb_eq, H; apply list_elem_of_In, elem_of_seqZ; lia.
Qed.

Lemma decode_items {E} its w v : Forall good_item its -> @decodes E w v -> @decodes E (wire_items its ++ w) (map item_value its ++ v).
Proof.
  intros Hits Hw. induction Hits as [|i its Hi _ IH]; [done|]. unfold wire_items in *. cbn [map concat]. rewrite <- app_assoc. destruct i as [b|hi lo]; cbn [wire_item item_value app].
  - eapply decodes_cons; [|exact IH]. unfold decode_byte. cbn [good_item] in Hi.
    destruct (Z.eqb_spec b 61), ((b =? 9) || (b =? 13) || (b =? 10)) eqn:?, (Z.leb_spec 128 b), ((b <? 32) || (126 <? b)) eqn:Eb; try done; try lia.
  - destruct Hi as [Hh Hl]. destruct (@fromHex_nibble E hi Hh) as [Eh ?], (@fromHex_nibble E lo Hl) as [El ?]. eapply decodes_cons; [|exact IH].
    unfold decode_byte. cbn [Z.eqb Pos.eqb readHexByte]. rewrite Eh, El. cbn [res_bind]. rewrite nibbles_value by done. done.
Qed.
Lemma decode_nl {E} cr : @decodes E (nl_of cr) (nl_of cr).
Proof. destruct cr; repeat (eapply decodes_cons; [reflexivity|]); constructor. Qed.

(** ** Stripping a line *)

Lemma hexdigit_range h : hexdigit h = true -> 48 <= h <= 102 /\ h <> 61.
Proof. unfold hexdigit. rewrite !orb_true_iff, !andb_true_iff, !Z.leb_le. lia. Qed.
Lemma wire_items_no_newline its : Forall good_item its -> 10 ∉ wire_items its.
Proof.
  intros Hits. induction Hits as [|i its Hi _ IH]; [apply not_elem_of_nil|]. unfold wire_items. cbn [map concat]. intros [Hin|Hin]%elem_of_app; [|done].
  destruct i as [b|hi lo]; cbn [wire_item] in Hin.
  - apply list_elem_of_singleton in Hin as <-. cbn [good_item] in Hi. lia.
  - destruct Hi as [?%hexdigit_range ?%hexdigit_range]. set_solver by lia.
Qed.
(** The last byte of a line is seen. *)
Lemma wire_items_last its : Forall good_item its -> visible_end its ->
  wire_items its = [] \/ exists l b, wire_items its = l ++ [b] /\ 33 <= b <= 126 /\ b <> 61.
Proof.
  intros Hits [->|(l & i & -> & Hi)]; [by left|right]. apply Forall_app in Hits as [_ [Hg _]%List.Forall_cons_iff]. unfold wire_items. rewrite map_app, concat_app. cbn [map concat]. rewrite app_nil_r.
  destruct i as [b|hi lo]; cbn [wire_item good_item visible] in *.
  - eexists _, b. split; [done|]. lia.
  - exists (concat (map wire_item l) ++ [61; hi]), lo. split; [by rewrite <- app_assoc|]. destruct Hg as [_ ?%hexdigit_range]. lia.
Qed.
Lemma discard_spec ws : Forall (fun b => b = 32 \/ b = 9 \/ b = 13 \/ b = 10) ws -> Forall (fun b => b < 128 /\ isQPDiscardWhitespace b = true) ws.
Proof. apply Forall_impl. by intros b [->|[->|[->| ->]]]. Qed.
Lemma visible_strip l ws : (l = [] \/ exists l' b, l = l' ++ [b] /\ 33 <= b <= 126) -> Forall (fun b => b = 32 \/ b = 9 \/ b = 13 \/ b = 10) ws ->
  TrimRightFunc isQPDiscardWhitespace (l ++ ws) = l.
Proof.
  intros Hl Hws. apply TrimRightFunc_strip; [|by apply discard_spec]. destruct Hl as [->|(l' & b & -> & Hb)]; [by left|right]. exists l', b. split; [done|]. split; [lia|].
  unfold isQPDiscardWhitespace. repeat (rewrite (proj2 (Z.eqb_neq _ _)) by lia). done.
Qed.
Lemma HasSuffix_last l b c : HasSuffix (l ++ [b]) [c] = (b =? c).
Proof. unfold HasSuffix. rewrite rev_app_distr. cbn [rev app HasPrefix]. by destruct (rev l); rewrite andb_true_r. Qed.
Lemma nl_blank cr : Forall (fun b => b = 32 \/ b = 9 \/ b = 13 \/ b = 10) (nl_of cr).
Proof. destruct cr; repeat constructor; lia. Qed.
Lemma padding_blank pad : padding pad -> Forall (fun b => b = 32 \/ b = 9 \/ b = 13 \/ b = 10) pad.
Proof. apply Forall_impl. intros b [-> | ->]; [by left|right; by left]. Qed.

Lemma HasSuffix_notin l c : c ∉ l -> HasSuffix l [c] = false.
Proof.
  intros Hc. destruct l as [|b l _] using rev_ind; [done|]. rewrite HasSuffix_last. apply Z.eqb_neq. intros ->. apply Hc. apply elem_of_app. right. by apply list_elem_of_singleton.
Qed.
Lemma HasSuffix_crlf l : 13 ∉ l -> HasSuffix (l ++ [10]) crlf = false.
Proof.
  intros Hc. unfold HasSuffix. rewrite rev_app_distr. cbn [rev app crlf HasPrefix]. destruct l as [|b l _] using rev_ind; [done|]. rewrite rev_app_distr. cbn [rev app].
  destruct (Z.eqb_spec b 13) as [->|]; [|by destruct (rev l)]. exfalso. apply Hc. apply elem_of_app. right. by apply list_elem_of_singleton.
Qed.
Lemma wire_items_no_return its : Forall good_item its -> 13 ∉ wire_items its.
Proof.
  intros Hits. induction Hits as [|i its Hi _ IH]; [apply not_elem_of_nil|]. unfold wire_items. cbn [map concat]. intros [Hin|Hin]%elem_of_app; [|done].
  destruct i as [b|hi lo]; cbn [wire_item] in Hin.
  - apply list_elem_of_singleton in Hin as <-. cbn [good_item] in Hi. lia.
  - destruct Hi as [?%hexdigit_range ?%hexdigit_range]. set_solver by lia.
Qed.
Lemma padding_no b pad : b <> 32 -> b <> 9 -> padding pad -> b ∉ pad.
Proof. intros H1 H2 Hp Hin. unfold padding in Hp. rewrite Forall_forall in Hp. apply list_elem_of_In, Hp in Hin. lia. Qed.

Lemma items_no_soft its : Forall good_item its -> visible_end its -> HasSuffix (wire_items its) softSuffix = false.
Proof.
  intros Hits Hv. destruct (wire_items_last its Hits Hv) as [->|(l & b & -> & _ & Hb)]; [done|]. unfold softSuffix. rewrite HasSuffix_last. by apply Z.eqb_neq.
Qed.
Lemma items_strip its ws : Forall good_item its -> visible_end its -> Forall (fun b => b = 32 \/ b = 9 \/ b = 13 \/ b = 10) ws ->
  TrimRightFunc isQPDiscardWhitespace (wire_items its ++ ws) = wire_items its.
Proof.
  intros Hits Hv Hws. apply visible_strip; [|done]. destruct (wire_items_last its Hits Hv) as [?|(l & b & ? & ? & _)]; [by left|right]. by exists l, b.
Qed.

Lemma strip_hard {E} its pad cr (err : option (qp_error E)) : Forall good_item its -> visible_end its -> padding pad ->
  strip_line (wire_line (its, Hard pad cr)) err = (wire_items its ++ nl_of cr, err).
Proof.
  intros Hits Hv Hpad. unfold strip_line, wire_line, wire_break. rewrite items_strip; [|done|done|apply Forall_app; split; [by apply padding_blank|apply nl_blank]].
  rewrite items_no_soft by done. destruct cr; cbn [nl_of].
  - assert (wire_items its ++ pad ++ [13; 10] = (wire_items its ++ pad ++ [13]) ++ [10]) as -> by (by rewrite <- !app_assoc). unfold lf. rewrite HasSuffix_last, Z.eqb_refl.
    rewrite <- app_assoc. cbn [app]. rewrite <- !app_assoc. assert (HasSuffix (wire_items its ++ pad ++ [13] ++ [10]) crlf = true) as ->; [|done].
    unfold HasSuffix. rewrite !rev_app_distr. cbn [rev app]. by destruct (rev pad ++ rev (wire_items its)).
  - rewrite (app_assoc (wire_items its)). unfold lf. rewrite HasSuffix_last, Z.eqb_refl, HasSuffix_crlf; [done|].
    intros [Hin|Hin]%elem_of_app; [by apply (wire_items_no_return its)|by apply (padding_no 13 pad)].
Qed.
Lemma drop_len_app {A} (p q : list A) : drop (length p) (p ++ q) = q.
Proof. apply drop_app_length. Qed.
Lemma soft_strip its ws : Forall good_item its -> Forall (fun b => b = 32 \/ b = 9 \/ b = 13 \/ b = 10) ws ->
  TrimRightFunc isQPDiscardWhitespace (wire_items its ++ 61 :: ws) = wire_items its ++ [61].
Proof.
  intros Hits Hws. rewrite (app_assoc (wire_items its) [61] ws : wire_items its ++ 61 :: ws = (wire_items its ++ [61]) ++ ws). apply visible_strip; [|done]. right. exists (wire_items its), 61. split; [done|lia].
Qed.
Lemma strip_soft {E} its cr (err : option (qp_error E)) : Forall good_item its -> strip_line (wire_line (its, Soft cr)) err = (wire_items its, err).
Proof.
  intros Hits. unfold strip_line, wire_line, wire_break. rewrite soft_strip by (done || apply nl_blank). unfold softSuffix. rewrite HasSuffix_last, Z.eqb_refl.
  rewrite (app_assoc (wire_items its) [61] (nl_of cr) : wire_items its ++ 61 :: nl_of cr = (wire_items its ++ [61]) ++ nl_of cr), drop_app_length.
  rewrite length_app. cbn [length]. rewrite Nat.add_sub, take_app_length. by destruct cr.
Qed.
Lemma strip_last {E} its e : good_last (its, e) -> @strip_line E (wire_last (its, e)) (Some (QPRead (IoErr EOF))) = (wire_items its, Some (QPRead (IoErr EOF))).
Proof.
  intros (Hits & _ & He). cbn [fst snd] in *. unfold strip_line, wire_last. destruct e as [pad|].
  - destruct He as [Hv Hpad]. rewrite items_strip by (done || by apply padding_blank). rewrite items_no_soft by done. unfold lf. rewrite HasSuffix_notin; [done|].
    intros [Hin|Hin]%elem_of_app; [by apply (wire_items_no_newline its)|by apply (padding_no 10 pad)].
  - rewrite soft_strip by (done || constructor). unfold softSuffix. rewrite HasSuffix_last, Z.eqb_refl, drop_all, length_app. cbn [length]. rewrite Nat.add_sub, take_app_length.
    assert (0 < len (wire_items its)) as Hl.
    { destruct its as [|i its]; [done|]. unfold wire_items. cbn [map concat]. unfold len. rewrite length_app. destruct i; cbn [wire_item length]; lia. }
    rewrite (proj2 (Z.ltb_lt _ _) Hl). done.
Qed.

(** ** [Read] *)

Section Read.
Context {R E : Type} {RD : Reader R E} {SR : Source R E}.
Implicit Types (r : qpReader R E).

(** [s] is still to be delivered; [n] lines have not been read. *)
Definition decoding r (s : bytes) (n : nat) : Prop :=
  rerr r = Some (QPRead (IoErr EOF)) /\ n = 0%nat /\ @decodes E (line r) s \/
  rerr r = None /\ exists v ls fin, n = S (length ls) /\ @decodes E (line r) v /\ s = v ++ text_value ls fin /\
    Forall good_line ls /\ good_last fin /\ br_holds (br r) (wire_text ls fin).

Lemma read_line_ok r s n : decoding r s (S n) -> line r = [] -> exists r', read_line r = (Ok tt, r') /\ decoding r' s n.
Proof.
  intros [(_ & ? & _)|(Hre & v & ls & fin & [= Hn] & Hv & -> & Hls & Hfin & Hb)] Hl; [done|]. rewrite Hl in Hv. inversion Hv; subst v. cbn [app]. unfold read_line. destruct ls as [|[its b] ls].
  - unfold wire_text in Hb. cbn [map concat app] in Hb. destruct fin as [its e]. pose proof Hfin as (Hits & Hlen & He). destruct (ReadSlice_end (br r) _ 10 Hb) as (b' & Er & Hb'); [|done|].
    { unfold wire_last. intros [Hin|Hin]%elem_of_app; [by apply (wire_items_no_newline its)|]. destruct e as [pad|]; [|set_solver]. destruct He as [_ Hpad]. by apply (padding_no 10 pad). }
    rewrite Er, strip_last by done. eexists. split; [reflexivity|]. left. split; [done|]. split; [cbn in Hn; lia|]. cbn [line text_value map concat app fst].
    rewrite <- (app_nil_r (wire_items its)), <- (app_nil_r (map item_value its)). apply decode_items; [done|constructor].
  - apply List.Forall_cons_iff in Hls as [(Hits & Hlen & Hbk) Hls]. cbn [fst snd] in *. unfold wire_text in Hb. cbn [map concat] in Hb. rewrite <- app_assoc in Hb.
    assert (exists p, wire_line (its, b) = p ++ [10] /\ 10 ∉ p) as (p & Ep & Hp).
    { pose proof (wire_items_no_newline its Hits) as H10. unfold wire_line, wire_break. destruct b as [pad cr|cr].
      - destruct Hbk as [_ Hpad]. exists (wire_items its ++ pad ++ (if cr then [13] else [])). split; [destruct cr; cbn [nl_of]; rewrite <- !app_assoc; done|].
        intros [Hin|[Hin|Hin]%elem_of_app]%elem_of_app; [done|by apply (padding_no 10 pad)|destruct cr; set_solver].
      - exists (wire_items its ++ 61 :: (if cr then [13] else [])). split; [destruct cr; cbn [nl_of]; rewrite <- !app_assoc; done|]. intros [Hin|Hin]%elem_of_app; [done|destruct cr; set_solver]. }
    rewrite Ep, <- app_assoc in Hb. rewrite Ep, length_app in Hlen. cbn [length] in Hlen. destruct (ReadSlice_line (br r) p _ Hb Hp) as (b' & Er & Hb'); [lia|]. rewrite Er, <- Ep.
    assert (@strip_line E (wire_line (its, b)) None = (wire_items its ++ break_value b, None)) as ->.
    { destruct b as [pad cr|cr]; [destruct Hbk; by apply strip_hard|]. rewrite strip_soft by done. cbn [break_value]. by rewrite app_nil_r. }
    eexists. split; [reflexivity|]. right. split; [done|]. exists (line_value (its, b)), ls, fin. split; [cbn in Hn; lia|]. split.
    { cbn [line line_value]. apply decode_items; [done|]. destruct b; [apply decode_nl|constructor]. }
    split; [unfold text_value; cbn [map concat]; by rewrite <- app_assoc|]. done.
Qed.

Lemma qp_Read_loop_ok fuel : forall done p r s n, decoding r s n -> (length p + n < fuel)%nat ->
  exists r', Read_loop fuel done p r =
    (Ok (len (done ++ take (length p) s), if (length s <? length p)%nat then Some (QPRead (IoErr EOF)) else None, done ++ take (length p) s ++ drop (length s) p), r') /\
    exists n', (n' <= n)%nat /\ decoding r' (drop (length p) s) n'.
Proof.
  induction fuel as [|fuel IH]; intros done p r s n Hd Hf; [lia|]. cbn [Read_loop]. destruct p as [|x p].
  { exists r. split; [|by exists n; split]. cbn [length take app]. rewrite drop_nil, take_0, ?app_nil_r. done. }
  step. destruct (line r) as [|b rest] eqn:El.
  - destruct (rerr r) as [e|] eqn:Ee.
    + destruct Hd as [(Hre & -> & Hd)|(Hre & _)]; [|by rewrite Hre in Ee]. rewrite Ee in Hre. injection Hre as ->. rewrite El in Hd. inversion Hd; subst s. exists r. cbn [length take drop app Nat.ltb Nat.leb].
      rewrite app_nil_r. split; [done|]. exists 0%nat. split; [done|]. left. rewrite El. by split.
    + destruct n as [|n]. { destruct Hd as [(Hre & _)|(_ & v & ls & fin & ? & _)]; [by rewrite Hre in Ee|done]. }
      destruct (read_line_ok r s n Hd El) as (r1 & Er & Hd1). rewrite (bind_ok _ _ _ _ _ Er). destruct (IH done (x :: p) r1 s n Hd1) as (r2 & Er2 & n2 & Hn2 & Hd2); [cbn [length] in *; lia|]. exists r2. split; [exact Er2|]. exists n2. split; [lia|done].
  - assert (exists c w' s', @decode_byte E b rest = Ok (c, w') /\ s = c :: s' /\ decoding (mkQpReader (br r) (rerr r) w') s' n) as (c & w' & s' & Ed & -> & Hd').
    { destruct Hd as [(Hre & Hn & Hd)|(Hre & v & ls & fin & Hn & Hv & -> & Hrest)].
      - rewrite El in Hd. inversion Hd as [|? ? c w' v Ec Hv E1 E2]; subst. exists c, w', v. split; [done|]. split; [done|]. left. done.
      - rewrite El in Hv. inversion Hv as [|? ? c w' v' Ec Hv' E1 E2]; subst. exists c, w', (v' ++ text_value ls fin). split; [done|]. split; [done|]. right. split; [done|]. exists v', ls, fin. done. }
    rewrite Ed. step. destruct (IH (done ++ [c]) p _ s' n Hd') as (r' & Er & Hn'); [cbn [length] in *; lia|]. exists r'. rewrite Er. split; [|done].
    cbn [length take drop]. change (S (length s') <? S (length p))%nat with (length s' <? length p)%nat. rewrite <- !app_assoc. cbn [app]. done.
Qed.

(** Calls of [Read] with these buffers, until one returns an error: the data
    read, and that error. *)
Fixpoint qp_reads (fuel : nat) (ps : list bytes) : stateful (qpReader R E) Empty_set (bytes * option (qp_error E)) :=
  match ps with
  | [] => st_ret ([], None)
  | p :: ps =>
      let* (n, err, buf) := qp_Read fuel p in
      match err with
      | Some e => st_ret (take (Z.to_nat n) buf, Some e)
      | None => let* (d, err) := qp_reads fuel ps in st_ret (take (Z.to_nat n) buf ++ d, err)
      end
  end.

Lemma qp_reads_ok fuel ps : forall r s n, decoding r s n -> (length (concat ps) + n < fuel)%nat ->
  exists r', qp_reads fuel ps r = (Ok (take (length (concat ps)) s, if (length s <? length (concat ps))%nat then Some (QPRead (IoErr EOF)) else None), r').
Proof.
  induction ps as [|p ps IH]; intros r s n Hd Hf; cbn [qp_reads concat].
  { exists r. by rewrite take_0. }
  cbn [concat] in Hf. rewrite length_app in *. destruct (qp_Read_loop_ok fuel [] p r s n Hd) as (r1 & Er & n1 & Hn1 & Hd1); [lia|]. unfold qp_Read. rewrite (bind_ok _ _ _ _ _ Er). cbn [app].
  unfold len. rewrite Nat2Z.id, take_app_length. destruct (Nat.ltb_spec (length s) (length p)) as [Hl|Hl].
  - exists r1. rewrite !take_ge by lia. by destruct (Nat.ltb_spec (length s) (length p + length (concat ps))); [|lia].
  - destruct (IH r1 _ n1 Hd1) as (r2 & Er2); [lia|]. rewrite (bind_ok _ _ _ _ _ Er2). exists r2. rewrite take_take_drop, length_drop.
    destruct (Nat.ltb_spec (length s - length p) (length (concat ps))), (Nat.ltb_spec (length s) (length p + length (concat ps))); done || lia.
Qed.
End Read.

(** C19: [Read] decodes every quoted-printable text, whatever source it comes
    from: lines of up to 4096 bytes with literal bytes and escapes (upper or
    lower case), hard and soft line breaks in either style, blanks added at the
    ends of lines, a last line with or without a soft break.  Each call fills
    its buffer with the next bytes of the decoded text, until a call that has
    too few delivers the last of them with [EOF]. *)
Theorem Read_decodes {R Er} {RD : Reader R Er} {SR : Source R Er} (r : R) ls fin ps fuel :
  Forall good_line ls -> good_last fin -> holds r (wire_text ls fin) -> (length (concat ps) + length ls + 1 < fuel)%nat ->
  exists r', qp_reads fuel ps (NewReader r) =
    (Ok (take (length (concat ps)) (text_value ls fin),
         if (length (text_value ls fin) <? length (concat ps))%nat then Some (QPRead (IoErr EOF)) else None), r').
Proof.
  intros Hls Hfin Hr Hf. apply (qp_reads_ok fuel ps (NewReader r) _ (S (length ls))); [|lia]. right. split; [done|]. exists [], ls, fin.
  split; [done|]. split; [constructor|]. split; [done|]. split; [done|]. split; [done|]. by apply NewReader_holds.
Qed.

(** "a=20", a tab, "=", then "B" and two blanks added before the break. *)
Definition sample_lines : list (list qp_item * qp_break) := [([Lit 97; Esc 50 48; Lit 9], Soft true); ([Esc 99 51; Lit 66], Hard [32; 32] false)].

Lemma Read_decodes_witness : exists r',
  qp_reads 20 [[0; 0]; []; [0; 0; 0; 0; 0; 0; 0]] (NewReader (R := chunks) [[97; 61]; [50; 48; 9; 61; 13]; [10; 61; 99; 51; 66; 32; 32; 10; 33; 61]]) =
    (Ok ([97; 32; 9; 195; 66; 10; 33], Some (QPRead (IoErr EOF))), r').
Proof.
  apply (Read_decodes (R := chunks) [[97; 61]; [50; 48; 9; 61; 13]; [10; 61; 99; 51; 66; 32; 32; 10; 33; 61]] sample_lines ([Lit 33], SoftEnd) [[0; 0]; []; [0; 0; 0; 0; 0; 0; 0]] 20).
  - pose proof buf_size as Hb. constructor; [|constructor; [|constructor]]; (split; [|split; [cbn; lia|]]); cbn [fst snd].
    + constructor; [cbn; lia|]. constructor; [done|]. constructor; [cbn; lia|constructor].
    + done.
    + constructor; [done|]. constructor; [cbn; lia|constructor].
    + split; [right; exists [Esc 99 51], (Lit 66); split; [done|cbn; lia]|]. by repeat (constructor; [by left|]).
  - pose proof buf_size as Hb. split; [constructor; [cbn; lia|constructor]|]. split; [cbn; lia|done].
  - split; [by repeat constructor|reflexivity].
  - cbn. lia.
Defined.

(** ** The quoted-printable writer *)

Section Writer.
Context {W E : Type}.
#[local] Abbreviation M := (stateful (qpWriter W) Empty_set).
Implicit Types (s : qpWriter W).

(** ** The writer below is never called *)

Definition keeps_w {A} (m : M A) : Prop := forall s, qp_w (snd (m s)) = qp_w s.

Lemma keepsw_bind {A B} (m : M A) (k : A -> M B) : keeps_w m -> (forall a, keeps_w (k a)) -> keeps_w (st_bind m k).
Proof.
  intros Hm Hk s. specialize (Hm s). unfold st_bind. destruct (m s) as [[a|[]|msg|] s']; cbn [snd] in *; [|done..]. by rewrite Hk.
Qed.
Lemma keepsw_ret {A} (a : A) : keeps_w (st_ret a : M A).
Proof. done. Qed.
Lemma keepsw_get : keeps_w (st_get : M _).
Proof. done. Qed.
Lemma keepsw_mod (f : qpWriter W -> qpWriter W) : (forall s, qp_w (f s) = qp_w s) -> keeps_w (st_mod f).
Proof. intros H s. apply H. Qed.
Lemma keeps_store i b : keeps_w (store i b : M unit).
Proof. intros s. unfold store. by destruct (_ <? _)%nat. Qed.
Lemma keeps_at p i : keeps_w (source_at p i : M Z).
Proof. done. Qed.
Lemma keeps_if {A} (c : bool) (m1 m2 : M A) : keeps_w m1 -> keeps_w m2 -> keeps_w (if c then m1 else m2).
Proof. by destruct c. Qed.
Lemma keeps_opt {A B} (o : option A) (k : A -> M B) (m : M B) : (forall a, keeps_w (k a)) -> keeps_w m -> keeps_w (match o with Some a => k a | None => m end).
Proof. by destruct o. Qed.
Create HintDb keeps discriminated.
#[local] Hint Resolve keepsw_bind keepsw_ret keepsw_get keepsw_mod keeps_store keeps_at keeps_if keeps_opt : keeps.
#[local] Hint Extern 1 (qp_w _ = qp_w _) => reflexivity : keeps.
#[local] Hint Extern 2 => (match goal with |- forall _, _ => intro end) : keeps.

Section Flush.
Variable flush : M (option (io_error E)).
Hypothesis flush_keeps : keeps_w flush.
#[local] Hint Resolve flush_keeps : keeps.

Ltac keeps := solve [auto 30 with keeps].

Lemma insertCRLF_keeps : keeps_w (insertCRLF flush).
Proof. unfold insertCRLF. keeps. Qed.
#[local] Hint Resolve insertCRLF_keeps : keeps.
Lemma insertSoftLineBreak_keeps : keeps_w (insertSoftLineBreak flush).
Proof. unfold insertSoftLineBreak. keeps. Qed.
#[local] Hint Resolve insertSoftLineBreak_keeps : keeps.
Lemma try_err_keeps (m k : M (option (io_error E))) : keeps_w m -> keeps_w k -> keeps_w (try_err m k).
Proof. intros. unfold try_err. keeps. Qed.
#[local] Hint Resolve try_err_keeps : keeps.
Lemma encode_keeps b : keeps_w (encode flush b).
Proof. unfold encode. keeps. Qed.
#[local] Hint Resolve encode_keeps : keeps.
Lemma checkLastByte_keeps : keeps_w (checkLastByte flush).
Proof. unfold checkLastByte. keeps. Qed.
#[local] Hint Resolve checkLastByte_keeps : keeps.
Lemma write_loop_keeps k p lo : keeps_w (write_loop flush k p lo).
Proof. revert lo. induction k as [|k IH]; intros lo; cbn [write_loop]; keeps. Qed.
#[local] Hint Resolve write_loop_keeps : keeps.
Lemma Write_loop_keeps k p i n : keeps_w (Write_loop flush k p i n).
Proof. revert i n. induction k as [|k IH]; intros i n; cbn [Write_loop]; unfold write; keeps. Qed.
End Flush.

Lemma flush_keeps fuel : keeps_w (flush (E := E) fuel : M _).
Proof.
  induction fuel as [|fuel IH]; [done|]. cbn [flush]. apply keepsw_bind; [apply keepsw_get|]. intros s. apply keepsw_bind; [by apply Write_loop_keeps|]. intros [n err]. by destruct err.
Qed.

(** ** A line break ends in an index out of range *)

Definition panics {A} (m : M A) s : Prop := exists msg s', m s = (Panic msg, s').
(** It panics, or it returns in a state with [Q]. *)
Definition runs {A} (m : M A) s (Q : A -> qpWriter W -> Prop) : Prop := panics m s \/ exists a s', m s = (Ok a, s') /\ Q a s'.

Lemma runs_bind {A B} (m : M A) (k : A -> M B) s Q Q' : runs m s Q -> (forall a s', Q a s' -> runs (k a) s' Q') -> runs (st_bind m k) s Q'.
Proof.
  intros [(msg & s' & Er)|(a & s' & Er & Hq)] Hk.
  - left. exists msg, s'. by rewrite (bind_panic _ _ _ _ _ Er).
  - destruct (Hk a s' Hq) as [(msg & s2 & E2)|(b & s2 & E2 & H2)]; [left; exists msg, s2|right; exists b, s2; split; [|done]]; by rewrite (bind_ok _ _ _ _ _ Er).
Qed.
Lemma runs_ret {A} (a : A) s (Q : A -> qpWriter W -> Prop) : Q a s -> runs (st_ret a) s Q.
Proof. intros H. right. by exists a, s. Qed.
Lemma panics_runs {A} (m : M A) s Q : panics m s -> runs m s Q.
Proof. by left. Qed.
Lemma runs_impl {A} (m : M A) s (Q Q' : A -> qpWriter W -> Prop) : runs m s Q -> (forall a s', Q a s' -> Q' a s') -> runs m s Q'.
Proof. intros [?|(a & s' & Er & Hq)] Himp; [by left|right; eauto]. Qed.
Lemma runs_false {A} (m : M A) s : runs m s (fun _ _ => False) -> panics m s.
Proof. by intros [?|(? & ? & _ & [])]. Qed.

Lemma runs_get {A} (k : qpWriter W -> M A) s Q : runs (k s) s Q -> runs (st_bind st_get k) s Q.
Proof. done. Qed.

Definition wf s : Prop := length (qp_line s) = 78%nat /\ Binary s = false.
(** The line has grown; what it had is still there. *)
Definition ext s s' : Prop :=
  wf s' /\ (qp_i s <= qp_i s')%nat /\ (forall j, (j < qp_i s)%nat -> nth j (qp_line s') 0 = nth j (qp_line s) 0) /\ (qp_cr s = false -> qp_cr s' = false).
Lemma ext_refl s : wf s -> ext s s.
Proof. intros Hw. split; [done|]. split; [lia|]. done. Qed.
Lemma ext_trans s1 s2 s3 : ext s1 s2 -> ext s2 s3 -> ext s1 s3.
Proof. intros (_ & H1 & H2 & H3) (H4 & H5 & H6 & H7). split; [done|]. split; [lia|]. split; [intros j Hj; rewrite H6 by lia; by apply H2|auto]. Qed.

Lemma store_runs i b s : wf s -> (qp_i s <= i)%nat -> runs (store i b) s (fun _ s' => ext s s' /\ qp_i s' = qp_i s /\ qp_cr s' = qp_cr s /\ qp_line s' = <[i := b]> (qp_line s) /\ (i < 78)%nat).
Proof.
  intros [Hl Hb] Hi. unfold store. destruct (i <? length (qp_line s))%nat eqn:Hlt; [right|left; eexists _, _; by rewrite Hlt].
  eexists _, _. rewrite Hlt. split; [reflexivity|]. apply Nat.ltb_lt in Hlt. rewrite Hl in Hlt. split; [|done]. split; [split; [cbn; by rewrite length_insert|done]|]. split; [done|]. split; [|done].
  intros j Hj. cbn [qp_line set_line]. rewrite !nth_lookup. by rewrite list_lookup_insert_ne by lia.
Qed.
Lemma mod_i_runs n s : wf s -> runs (st_mod (fun w => set_i (qp_i w + n) w)) s (fun _ s' => ext s s' /\ qp_i s' = (qp_i s + n)%nat /\ qp_cr s' = qp_cr s).
Proof. intros Hw. right. eexists _, _. split; [reflexivity|]. split; [|done]. split; [done|]. split; [cbn; lia|]. done. Qed.

Section Flush.
Variables (flush : M (option (io_error E))) (bound : nat).
(** From [bound] on every line break panics. *)
Hypothesis breaks : forall s, wf s -> (bound <= qp_i s)%nat -> panics (insertCRLF flush) s.


Lemma insertCRLF_runs s Q : wf s -> (bound <= qp_i s)%nat -> runs (insertCRLF flush) s Q.
Proof. intros Hw Hi. left. by apply breaks. Qed.
Lemma soft_break_runs s Q : wf s -> (bound <= qp_i s + 1)%nat -> runs (insertSoftLineBreak flush) s Q.
Proof.
  intros Hw Hi. unfold insertSoftLineBreak. apply runs_get. eapply runs_bind; [apply (store_runs (qp_i s)); [done|lia]|]. intros _ s1 (He1 & Ei1 & _).
  eapply runs_bind; [apply (mod_i_runs 1); apply He1|]. intros _ s2 (He2 & Ei2 & _). apply insertCRLF_runs; [apply He2|lia].
Qed.
Lemma try_err_runs m k s Q Q' : runs m s Q -> (forall a s', Q a s' -> a = None /\ runs k s' Q') -> runs (@try_err W E m k) s Q'.
Proof. intros Hm Hk. eapply runs_bind; [exact Hm|]. intros a s' Hq. by destruct (Hk a s' Hq) as [-> Hr]. Qed.

Definition extends s : option (io_error E) -> qpWriter W -> Prop := fun e s' => e = None /\ ext s s'.

Lemma encode_runs b s : wf s -> (bound <= qp_i s + 1)%nat -> runs (encode flush b) s (fun e s' => extends s e s' /\ (qp_i s + 1 <= qp_i s')%nat).
Proof.
  intros Hw Hi. unfold encode. apply runs_get. apply (try_err_runs _ _ _ (fun e s' => e = None /\ s' = s)).
  { destruct (_ <? 3); [by apply soft_break_runs|by apply runs_ret]. }
  intros a s' [-> ->]. split; [done|]. apply runs_get. eapply runs_bind; [apply (store_runs (qp_i s)); [done|lia]|]. intros _ s1 (He1 & Ei1 & _).
  eapply runs_bind; [apply (store_runs (qp_i s + 1)); [apply He1|lia]|]. intros _ s2 (He2 & Ei2 & _).
  eapply runs_bind; [apply (store_runs (qp_i s + 2)); [apply He2|lia]|]. intros _ s3 (He3 & Ei3 & _).
  eapply runs_bind; [apply (mod_i_runs 3); apply He3|]. intros _ s4 (He4 & Ei4 & _). apply runs_ret. split; [|lia]. split; [done|]. eauto using ext_trans.
Qed.

(** After it only a line break follows, so what it does to the line is left
    open. *)
Lemma checkLastByte_runs s : wf s -> (bound <= qp_i s)%nat -> runs (checkLastByte flush) s (fun e s' => e = None /\ wf s' /\ (qp_i s <= qp_i s')%nat).
Proof.
  intros Hw Hi. unfold checkLastByte. apply runs_get. destruct (Nat.eqb_spec (qp_i s) 0); [by apply runs_ret|]. destruct (isWhitespace _); [|by apply runs_ret].
  eapply runs_bind; [right; eexists _, (set_i (qp_i s - 1) s); split; [reflexivity|]; instantiate (1 := fun _ s' => s' = set_i (qp_i s - 1) s); done|]. intros _ s' ->.
  eapply runs_impl; [apply encode_runs; [done|cbn; lia]|]. intros e s' [[-> He] Hi']. cbn [qp_i set_i] in Hi'. split; [done|]. split; [apply He|lia].
Qed.

(** ** What a writer reads *)

(** The bytes of the source are [cont], also after the line has grown. *)
Definition reads (p : source) (cont : nat -> Z) s : Prop :=
  match p with
  | Caller q => forall j, nth j q 0 = cont j
  | Own n => (n <= qp_i s)%nat /\ forall j, (j < n)%nat -> nth j (qp_line s) 0 = cont j
  end.
Lemma reads_ext p cont s s' : reads p cont s -> ext s s' -> reads p cont s'.
Proof. destruct p as [q|n]; [done|]. intros [Hn Hc] (_ & Hi & Hsame & _). split; [lia|]. intros j Hj. rewrite Hsame by lia. by apply Hc. Qed.
Lemma source_at_runs p cont lo s : reads p cont s -> (lo < source_len p)%nat -> runs (source_at p lo) s (fun b s' => s' = s /\ b = cont lo).
Proof. intros Hr Hlo. right. eexists _, s. split; [reflexivity|]. split; [done|]. destruct p as [q|n]; [apply Hr|]. by apply Hr. Qed.

(** No carriage return, and no line feed either unless one may be skipped. *)
Definition unbroken s b : Prop := b <> 13 /\ (qp_cr s = false -> b <> 10).
Lemma unbroken_ext s s' b : ext s s' -> unbroken s' b -> unbroken s b.
Proof. intros (_ & _ & _ & Hcr) [H1 H2]. split; auto. Qed.

Lemma write_loop_runs cont p k : forall lo s, wf s -> (bound <= qp_i s)%nat -> reads p cont s -> (lo + k <= source_len p)%nat ->
  runs (write_loop flush k p lo) s (fun e s' => extends s e s' /\ forall j, (lo <= j < lo + k)%nat -> unbroken s (cont j)).
Proof.
  induction k as [|k IH]; intros lo s Hw Hi Hr Hlo; cbn [write_loop].
  { apply runs_ret. split; [split; [done|by apply ext_refl]|lia]. }
  eapply runs_bind; [apply (source_at_runs p cont lo); [done|lia]|]. intros b s' [-> ->]. destruct ((cont lo =? 10) || (cont lo =? 13)) eqn:Eb.
  - apply runs_get. destruct (qp_cr s && (cont lo =? 10)) eqn:Ecr.
    + apply andb_true_iff in Ecr as [Ecr E10%Z.eqb_eq]. assert (ext s (set_cr false s)) as He by (split; [done|]; split; [done|]; by split).
      eapply runs_bind; [right; eexists _, (set_cr false s); split; [reflexivity|]; instantiate (1 := fun _ s' => s' = set_cr false s); done|]. intros _ s' ->.
      eapply runs_impl; [apply IH; [done|done|by eapply reads_ext|lia]|]. intros e s' [[-> He'] Hub]. split; [split; [done|by eapply ext_trans]|].
      intros j Hj. destruct (decide (j = lo)) as [->|]; [split; [lia|congruence]|]. eapply unbroken_ext; [exact He|]. apply Hub. lia.
    + eapply runs_bind; [right; instantiate (1 := fun _ s' => wf s' /\ qp_i s' = qp_i s); destruct (cont lo =? 13); [by exists tt, (set_cr true s)|by exists tt, s]|]. intros _ s1 [Hw1 Hi1].
      eapply try_err_runs; [apply checkLastByte_runs; [done|lia]|]. intros e s2 (-> & Hw2 & Hi2). split; [done|].
      apply (try_err_runs _ _ _ (fun _ _ => False)); [apply insertCRLF_runs; [done|lia]|done].
  - apply orb_false_iff in Eb as [E10%Z.eqb_neq E13%Z.eqb_neq]. apply runs_get. apply (try_err_runs _ _ _ (fun e s' => e = None /\ s' = s)).
    { destruct (_ =? _); [apply soft_break_runs; [done|lia]|by apply runs_ret]. }
    intros a s' [-> ->]. split; [done|]. apply runs_get. eapply runs_bind; [apply (store_runs (qp_i s)); [done|lia]|]. intros _ s1 (He1 & Ei1 & Ec1 & _).
    eapply runs_bind; [apply (mod_i_runs 1); apply He1|]. intros _ s2 (He2 & Ei2 & Ec2).
    assert (ext s (set_cr false s2)) as He. { assert (ext s s2) as (H1 & H2 & H3 & _) by (by eapply ext_trans). split; [done|]. split; [done|]. by split. }
    eapply runs_bind; [right; eexists _, (set_cr false s2); split; [reflexivity|]; instantiate (1 := fun _ s' => s' = set_cr false s2); done|]. intros _ s' ->.
    eapply runs_impl; [apply IH; [apply He|cbn; lia|by eapply reads_ext|lia]|]. intros e s' [[-> He'] Hub]. split; [split; [done|by eapply ext_trans]|].
    intros j Hj. destruct (decide (j = lo)) as [->|]; [by split|]. eapply unbroken_ext; [exact He|]. apply Hub. lia.
Qed.

Lemma Write_loop_runs cont p k : forall i n s, wf s -> (bound <= qp_i s)%nat -> reads p cont s -> (i + k = source_len p)%nat -> (n <= i)%nat ->
  runs (Write_loop flush k p i n) s (fun _ s' => forall j, (n <= j < source_len p)%nat -> unbroken s (cont j)).
Proof.
  induction k as [|k IH]; intros i n s Hw Hi Hr Hik Hni; cbn [Write_loop].
  - destruct (Nat.eqb_spec n (source_len p)) as [|Hne]; [apply runs_ret; lia|]. eapply runs_bind; [apply (write_loop_runs cont); [done|done|done|lia]|]. intros e s' [[-> _] Hub].
    apply runs_ret. intros j Hj. apply Hub. lia.
  - eapply runs_bind; [apply (source_at_runs p cont i); [done|lia]|]. intros b s' [-> ->]. apply runs_get. destruct (plain (Binary s) (cont i)) eqn:Ep; [apply IH; done || lia|].
    eapply (runs_bind _ _ _ (fun e s' => extends s e s' /\ forall j, (n <= j < i)%nat -> unbroken s (cont j))).
    { destruct (Nat.ltb_spec n i); [|apply runs_ret; split; [split; [done|by apply ext_refl]|lia]]. eapply runs_impl; [apply (write_loop_runs cont); [done|done|done|lia]|]. intros e s' [He Hub]. split; [done|]. intros j Hj. apply Hub. lia. }
    intros e s1 [[-> He1] Hub1]. pose proof He1 as (Hw1 & Hi1 & _). eapply runs_bind; [apply encode_runs; [done|lia]|]. intros e s2 [[-> He2] _]. pose proof He2 as (Hw2 & Hi2 & _).
    assert ((if (n <? i)%nat then i else n) = i) as -> by (destruct (Nat.ltb_spec n i); lia).
    eapply runs_impl; [apply IH; [done|lia|by eapply reads_ext; [eapply reads_ext|]|lia|lia]|]. intros r3 s3 Hub j Hj. destruct (decide (j < i)%nat) as [Hlt|Hge]; [apply Hub1; lia|].
    destruct (decide (j = i)) as [->|]; [|eapply unbroken_ext; [exact He1|]; eapply unbroken_ext; [exact He2|]; apply Hub; lia].
    destruct Hw as [_ Hbin]. rewrite Hbin in Ep. unfold plain in Ep. cbn [negb andb] in Ep. apply orb_false_iff in Ep as [_ Ep]. apply orb_false_iff in Ep as [?%Z.eqb_neq ?%Z.eqb_neq]. by split.
Qed.
End Flush.

Lemma insertCRLF_panics fuel : forall s, wf s -> (78 <= qp_i s + fuel)%nat -> panics (insertCRLF (E := E) (flush fuel)) s.
Proof.
  induction fuel as [|fuel IH]; intros s Hw Hf; apply runs_false; unfold insertCRLF; apply runs_get.
  { left. eexists _, _. unfold st_bind, store. rewrite (proj2 (Nat.ltb_ge _ _)); [reflexivity|]. destruct Hw. lia. }
  eapply runs_bind; [apply (store_runs (qp_i s)); [done|lia]|]. intros _ s1 (He1 & Ei1 & _ & El1 & Hlt).
  eapply runs_bind; [apply (store_runs (qp_i s + 1)); [apply He1|lia]|]. intros _ s2 (He2 & Ei2 & _ & El2 & _).
  eapply runs_bind; [right; eexists _, (set_i (qp_i s2 + 2) s2); split; [reflexivity|]; instantiate (1 := fun _ s' => s' = set_i (qp_i s2 + 2) s2); done|]. intros _ s3 ->.
  cbn [flush]. apply runs_get. eapply runs_bind.
  { apply (Write_loop_runs (flush fuel) (qp_i s + 1)) with (cont := fun j => nth j (qp_line s2) 0); [|apply He2|cbn; lia|by split|done|done].
    intros s' Hw' Hi'. apply IH; [done|lia]. }
  intros r s4 Hub. exfalso. destruct (Hub (qp_i s)) as [H13 _]; [cbn; lia|]. apply H13. rewrite El2, El1, nth_lookup, list_lookup_insert_ne by lia.
  rewrite list_lookup_insert_eq; [done|]. destruct Hw as [Hl _]. lia.
Qed.
End Writer.

(** C38: Nothing that is written to a quoted-printable [Writer] reaches its
    [io.Writer], since [flush] calls the writer's own [Write]: [Write] and
    [Close] leave the [io.Writer] as it was, whatever is written.  A line break
    in the data (outside binary mode) makes [Write] panic with an index out of
    range: each flush appends the line to itself and breaks it again. *)
Theorem Writer_writes_nothing {W E} (w : qpWriter W) fuel p :
  length (qp_line w) = 78%nat -> Binary w = false -> qp_cr w = false -> (78 <= fuel)%nat ->
  qp_w (snd (qp_Write (E := E) fuel p w)) = qp_w w /\ qp_w (snd (Close (E := E) fuel w)) = qp_w w /\
  (10 ∈ p \/ 13 ∈ p -> exists msg w', qp_Write (E := E) fuel p w = (Panic msg, w')).
Proof.
  intros Hl Hb Hcr Hf. split; [apply Write_loop_keeps, flush_keeps|]. split.
  { unfold Close. apply try_err_keeps; [apply checkLastByte_keeps|]; apply flush_keeps. }
  intros Hin. apply runs_false. unfold qp_Write, Write_with.
  eapply runs_impl; [apply (Write_loop_runs (flush fuel) 0) with (cont := fun j => nth j p 0); try done; try lia|].
  - intros s Hw _. apply insertCRLF_panics; [done|lia].
  - intros r s Hub. assert (forall b, b ∈ p -> b <> 13 /\ b <> 10) as Hno.
    { intros b [j Hj]%list_elem_of_lookup_1. assert (nth j p 0 = b) as Eb by (by rewrite nth_lookup, Hj). apply lookup_lt_Some in Hj. destruct (Hub j) as [H1 H2]; [cbn; lia|]. rewrite Eb in *. auto. }
    destruct Hin as [Hin|Hin]; apply Hno in Hin as [? ?]; done.
Qed.

Lemma Writer_writes_nothing_witness :
  qp_w (snd (qp_Write (E := Empty_set) 78 [97; 13; 10] (NewWriter []))) = @nil Z /\ qp_w (snd (Close (E := Empty_set) 78 (NewWriter []))) = @nil Z /\
  (10 ∈ [97; 13; 10] \/ 13 ∈ [97; 13; 10] -> exists msg w', qp_Write (E := Empty_set) 78 [97; 13; 10] (NewWriter (@nil Z)) = (Panic msg, w')).
Proof. apply (Writer_writes_nothing (E := Empty_set) (NewWriter (@nil Z)) 78 [97; 13; 10]); done || lia. Defined.
