(* ===== verification/Multipart.v ===== *)
(** * Multipart bodies

    [src/http/mime/multipart/multipart.go].  A [Part] shares the buffered reader
    of its [Reader]; methods of a part run on both.  [nextPart] is unfinished in
    the source: the model ends where it would make the part.  [Part.Close],
    [NextPart] and [readForm] are not written. *)
From S2P Require Import Prelude Io BufReader GoStrings Textproto TextReader Mime.

Local Open Scope Z_scope.
Local Open Scope go_scope.

(** ** [bytes] and [filepath] of the standard library *)

Fixpoint LastIndexByte (s : bytes) (c : Z) : option nat :=
  match s with
  | [] => None
  | b :: s => match LastIndexByte s c with Some i => Some (S i) | None => if b =? c then Some 0%nat else None end
  end.

(** [filepath.Base], on Unix. *)
Fixpoint skip_slashes (s : bytes) : bytes :=
  match s with
  | b :: s' => if b =? 47 then skip_slashes s' else s
  | [] => []
  end.
Definition Base (path : bytes) : bytes :=
  match path with
  | [] => [46]
  | _ =>
      let p := rev (skip_slashes (rev path)) in
      let p := match LastIndexByte p 47 with Some i => drop (S i) p | None => p end in
      match p with [] => [47] | _ => p end
  end.

(** ** Boundaries *)

(** The prefix is in the buffer already. *)
Definition matchAfterPrefix {A} (buf prefix : bytes) (readErr : option A) : res Empty_set Z :=
  if len buf =? len prefix then
    match readErr with Some _ => Ok 1 | None => Ok 0 end
  else
    match drop (length prefix) buf with
    | [] => Panic "index out of range"
    | c :: rest =>
        if (c =? 32) || (c =? 9) || (c =? 13) || (c =? 10) then Ok 1
        else if c =? 45 then
          if len buf =? len prefix + 1 then match readErr with Some _ => Ok (-1) | None => Ok 0 end
          else
            match rest with
            | [] => Panic "index out of range"
            | c' :: _ => if c' =? 45 then Ok 1 else Ok (-1)
            end
        else Ok (-1)
    end.

Section Scan.
Context {E : Type}.

(** The end of [scanUntilBoundary], when no whole boundary is in the buffer. *)
Definition scan_partial (buf nlDashBoundary : bytes) (readErr : option (bufio_error E)) : res Empty_set (Z * option (bufio_error E)) :=
  if HasPrefix nlDashBoundary buf then Ok (0, readErr)
  else
    match nlDashBoundary with
    | [] => Panic "index out of range"
    | nl :: _ =>
        match LastIndexByte buf nl with
        | Some i => if HasPrefix nlDashBoundary (drop i buf) then Ok (Z.of_nat i, None) else Ok (len buf, readErr)
        | None => Ok (len buf, readErr)
        end
    end.

Definition scan_search (buf nlDashBoundary : bytes) (readErr : option (bufio_error E)) : res Empty_set (Z * option (bufio_error E)) :=
  match Index buf nlDashBoundary with
  | None => scan_partial buf nlDashBoundary readErr
  | Some i =>
      let? m := matchAfterPrefix (drop i buf) nlDashBoundary readErr in
      if m =? -1 then Ok (Z.of_nat i + len nlDashBoundary, None)
      else if m =? 0 then Ok (Z.of_nat i, None)
      else if m =? 1 then Ok (Z.of_nat i, Some (IoErr EOF))
      else scan_partial buf nlDashBoundary readErr
  end.

Definition scanUntilBoundary (buf dashBoundary nlDashBoundary : bytes) (total : Z) (readErr : option (bufio_error E)) : res Empty_set (Z * option (bufio_error E)) :=
  if (total =? 0) && HasPrefix buf dashBoundary then
    let? m := matchAfterPrefix buf dashBoundary readErr in
    if m =? -1 then Ok (len dashBoundary, None)
    else if m =? 0 then Ok (0, None)
    else if m =? 1 then Ok (0, Some (IoErr EOF))
    else scan_search buf nlDashBoundary readErr
  else scan_search buf nlDashBoundary readErr.

End Scan.

(** The source tests for a line feed where a space is meant. *)
Fixpoint skipLWSPChar (b : bytes) : bytes :=
  match b with
  | c :: b' => if (c =? 10) || (c =? 9) then skipLWSPChar b' else b
  | [] => []
  end.

(** ** The reader of a multipart body *)

Section Multipart.
Context {R E : Type} {RD : Reader R E}.

Record stickyErrorReader : Type := mkSticky { st_r : R; st_err : option (io_error E) }.

#[export] Instance sticky_Reader : Reader stickyErrorReader E := fun r p =>
  match st_err r with
  | Some e => (mkRead 0 (Some e) p, r)
  | None => let '(res, u) := Read (st_r r) p in (res, mkSticky u (rd_err res))
  end.

(** [tempDir] is for tests; [currentPart] is never set in the source. *)
Record mpReader : Type := mkMpReader {
  bufReader_ : bufReader stickyErrorReader E;
  partsRead : Z;
  nl : bytes;
  nlDashBoundary : bytes;
  dashBoundaryDash : bytes;
  dashBoundary : bytes }.

(** The four slices of one buffer are taken apart here: it is never written. *)
Definition NewReader (r : R) (boundary : bytes) : mpReader :=
  let b := [13; 10; 45; 45] ++ boundary ++ [45; 45] in
  mkMpReader (bufio_NewReader (mkSticky r None)) 0 (take 2 b) (take (length b - 2) b) (drop 2 b) (drop 2 (take (length b - 2) b)).

Definition isFinalBoundary (r : mpReader) (line : bytes) : bool :=
  if negb (HasPrefix line (dashBoundaryDash r)) then false
  else
    let rest := skipLWSPChar (drop (length (dashBoundaryDash r)) line) in
    bool_decide (rest = []) || bool_decide (rest = nl r).

(** It changes the line ends the reader expects, at the first part. *)
Definition isBoundaryDelimiterLine (line : bytes) (r : mpReader) : bool * mpReader :=
  if negb (HasPrefix line (dashBoundary r)) then (false, r)
  else
    let rest := skipLWSPChar (drop (length (dashBoundary r)) line) in
    let r :=
      if (partsRead r =? 0) && bool_decide (rest = [10])
      then mkMpReader (bufReader_ r) (partsRead r) (drop 1 (nl r)) (drop 1 (nlDashBoundary r)) (dashBoundaryDash r) (dashBoundary r)
      else r in
    (bool_decide (rest = nl r), r).

Inductive next_part : Type :=
  | BoundaryEmpty
  | NextEOF
  | NextPartError (e : bufio_error E)
  | PartBegins.                    (* the unfinished call of [newPart] *)

#[local] Abbreviation M := (stateful mpReader Empty_set).
Definition on_buf {A} (m : stateful (bufReader stickyErrorReader E) Empty_set A) : M A :=
  fun r => let '(x, b) := m (bufReader_ r) in (x, mkMpReader b (partsRead r) (nl r) (nlDashBoundary r) (dashBoundaryDash r) (dashBoundary r)).

Fixpoint nextPart_loop (fuel : nat) : M next_part :=
  match fuel with
  | O => st_lift NoFuel
  | S fuel =>
      let* (line, err) := on_buf (ReadSlice 10) in
      let* r := st_get in
      if match err with Some (IoErr EOF) => true | _ => false end && isFinalBoundary r line then st_ret NextEOF
      else
        match err with
        | Some e => st_ret (NextPartError e)
        | None =>
            let* found := (fun r => let '(x, r) := isBoundaryDelimiterLine line r in (Ok x, r)) in
            if found : bool then
              st_mod (fun r => mkMpReader (bufReader_ r) (partsRead r + 1) (nl r) (nlDashBoundary r) (dashBoundaryDash r) (dashBoundary r)) ;;;
              st_ret PartBegins
            else nextPart_loop fuel
        end
  end.
Definition nextPart (fuel : nat) : M next_part :=
  let* r := st_get in
  if bool_decide (dashBoundary r = [45; 45]) then st_ret BoundaryEmpty else nextPart_loop fuel.

(** ** Parts *)

(** What reads the body: the part itself, or a quoted-printable reader over it. *)
Inductive part_reader : Type := PartReader | QuotedPrintable.

(** [dispositionParams] is [None] for a nil map. *)
Record Part : Type := mkPart {
  Header_ : MIMEHeader;
  disposition : bytes;
  dispositionParams : option Params;
  part_r : part_reader;
  part_n : Z;
  total : Z;
  part_err : option (bufio_error E);
  readErr : option (bufio_error E) }.
Definition set_n (v : Z) (p : Part) : Part := mkPart (Header_ p) (disposition p) (dispositionParams p) (part_r p) v (total p) (part_err p) (readErr p).
Definition set_total (v : Z) (p : Part) : Part := mkPart (Header_ p) (disposition p) (dispositionParams p) (part_r p) (part_n p) v (part_err p) (readErr p).
Definition set_err (v : option (bufio_error E)) (p : Part) : Part := mkPart (Header_ p) (disposition p) (dispositionParams p) (part_r p) (part_n p) (total p) v (readErr p).
Definition set_readErr (v : option (bufio_error E)) (p : Part) : Part := mkPart (Header_ p) (disposition p) (dispositionParams p) (part_r p) (part_n p) (total p) (part_err p) v.

(** [p.mr] and [p]. *)
#[local] Abbreviation P := (stateful (mpReader * Part) Empty_set).
Definition on_mr {A} (m : stateful (bufReader stickyErrorReader E) Empty_set A) : P A :=
  fun '(r, p) => let '(x, r) := on_buf m r in (x, (r, p)).
Definition on_part (f : Part -> Part) : P unit := fun '(r, p) => (Ok tt, (r, f p)).

(** The loop of [partReader.Read]. *)
Fixpoint scan_loop (fuel : nat) : P unit :=
  let* (r, p) := st_get in
  if (part_n p =? 0) && match part_err p with None => true | Some _ => false end then
    match fuel with
    | O => st_lift NoFuel
    | S fuel =>
        let* k := on_mr Buffered in
        let* (peek, _) := on_mr (Peek k) in
        let* (n, err) := st_lift (scanUntilBoundary peek (dashBoundary r) (nlDashBoundary r) (total p) (readErr p)) in
        on_part (set_n n) ;;; on_part (set_err err) ;;;
        (if (n =? 0) && match err with None => true | Some _ => false end then
           let* (_, e) := on_mr (Peek (len peek + 1)) in
           on_part (set_readErr e) ;;;
           match e with Some (IoErr EOF) => on_part (set_readErr (Some (IoErr ErrUnexpectedEOF))) | _ => st_ret tt end
         else st_ret tt) ;;;
        scan_loop fuel
    end
  else st_ret tt.

Definition partReader_Read (fuel : nat) (d : bytes) : P (Z * option (bufio_error E) * bytes) :=
  scan_loop fuel ;;;
  let* (_, p) := st_get in
  if part_n p =? 0 then st_ret (0, part_err p, d)
  else
    let n := if part_n p <? len d then Z.to_nat (part_n p) else length d in
    let* (k, _, buf) := on_mr (bufio_Read (take n d)) in
    on_part (fun p => set_total (i64 (total p + k)) p) ;;;
    on_part (fun p => set_n (part_n p - k) p) ;;;
    let* (_, p) := st_get in
    st_ret (k, if part_n p =? 0 then part_err p else None, buf ++ drop n d).

(** [populateHeaders], whose [textproto.Reader] is over the same buffer. *)
Definition populateHeaders (fuel : nat) (p : Part) : stateful mpReader (text_error E) Part :=
  fun r =>
    let '(x, t) := ReadMIMEHeader fuel (TextReader.NewReader (bufReader_ r)) in
    (match x with
     | Ok (header, None) => Ok (mkPart (Some header) (disposition p) (dispositionParams p) (part_r p) (part_n p) (total p) (part_err p) (readErr p))
     | Ok (_, Some e) => Err e
     | Err e => match e with end
     | Panic s => Panic s
     | NoFuel => NoFuel
     end, mkMpReader (tr_R t) (partsRead r) (nl r) (nlDashBoundary r) (dashBoundaryDash r) (dashBoundary r)).

Definition cte : bytes := str "Content-Transfer-Encoding".

Definition newPart (fuel : nat) (rawPart : bool) : stateful mpReader (text_error E) Part :=
  let* bp := populateHeaders fuel (mkPart (Some ∅) [] None PartReader 0 0 None None) in
  if negb rawPart && EqualFold (Get (Header_ bp) cte) (str "quoted-printable")
  then st_ret (mkPart (Del (Header_ bp) cte) (disposition bp) (dispositionParams bp) QuotedPrintable (part_n bp) (total bp) (part_err bp) (readErr bp))
  else st_ret bp.

(** ** The disposition of a part *)

Section Disposition.
Context {UL : UnicodeLower} {RO : RangeOrder}.

Definition set_disposition (d : bytes) (m : option Params) (p : Part) : Part := mkPart (Header_ p) d m (part_r p) (part_n p) (total p) (part_err p) (readErr p).

(** [emptyParams] is an empty map. *)
Definition parseContentDisposition : stateful Part Empty_set unit := fun p =>
  match ParseMediaType (Get (Header_ p) (str "Content-Disposition")) with
  | Ok (d, params, err) => (Ok tt, set_disposition d (match err with Some _ => Some ∅ | None => params end) p)
  | Err e => match e with end
  | Panic s => (Panic s, p)
  | NoFuel => (NoFuel, p)
  end.

(** A missing key, or a nil map, gives the empty string. *)
Definition param_value (m : option Params) (k : bytes) : bytes :=
  match m with Some m => default [] (m !! k) | None => [] end.

Definition parse_once : stateful Part Empty_set unit :=
  let* p := st_get in
  match dispositionParams p with None => parseContentDisposition | Some _ => st_ret tt end.

Definition FormName : stateful Part Empty_set bytes :=
  parse_once ;;;
  let* p := st_get in
  if negb (bool_decide (disposition p = str "form-data")) then st_ret []
  else st_ret (param_value (dispositionParams p) (str "name")).

Definition FileName : stateful Part Empty_set bytes :=
  parse_once ;;;
  let* p := st_get in
  let filename := param_value (dispositionParams p) (str "filename") in
  match filename with [] => st_ret [] | _ => st_ret (Base filename) end.

End Disposition.

End Multipart.
Arguments stickyErrorReader R E : clear implicits.
Arguments mpReader R E : clear implicits.
Arguments Part E : clear implicits.

(** ** Forms *)

(** The budget for values in [readForm], on 64-bit integers; the loop that
    follows it is empty. *)
Definition maxValueBytes (maxMemory : Z) : Z :=
  let v := i64 (maxMemory + Z.shiftl 10 20) in
  if v <=? 0 then if maxMemory <? 0 then 0 else 2 ^ 63 - 1 else v.

Record FileHeader : Type := mkFileHeader { Filename : bytes; Size : Z; content : bytes; tmpfile : bytes }.

Section Form.
Context {RO : RangeOrder} {Err : Type} (os_Remove : bytes -> option Err).

(** The names removed so far and the first error. *)
Definition remove_file (st : list bytes * option Err) (fh : FileHeader) : list bytes * option Err :=
  let '(removed, err) := st in
  match tmpfile fh with
  | [] => (removed, err)
  | name =>
      let e := os_Remove name in
      (removed ++ [name], match err with None => e | Some _ => err end)
  end.
Definition RemoveAll (File : gmap bytes (list FileHeader)) : list bytes * option Err :=
  fold_left (fun st kv => fold_left remove_file (snd kv) st) (range File) ([], None).
End Form.
