(* ===== verification/MultipartProps.v ===== *)
(** * Parts of multipart bodies

    [scanUntilBoundary] never takes a byte of a delimiter for data nor data for
    a delimiter, wherever the buffer ends, so [partReader.Read] delivers a body
    exactly; from the start of the stream to the first part; which lines are
    boundaries; the names of a part. *)
From S2P Require Import Prelude Io BufReader BufReaderProps Textproto GoStrings TextReader TextReaderProps Mime MimeProps Multipart.

Local Open Scope Z_scope.
Local Open Scope go_scope.

(** ** Strings *)

Lemma HasPrefix_iff s p : HasPrefix s p = true <-> exists t, s = p ++ t.
Proof.
  revert s. induction p as [|c p IH]; intros s; cbn [HasPrefix].
  - split; [by exists s|]. by destruct s.
  - destruct s as [|b s]; [split; [done|by intros [? ?]]|]. rewrite andb_true_iff, Z.eqb_eq, IH. split.
    + intros [-> [t ->]]. by exists t.
    + intros [t [= -> ->]]. split; [done|]. by exists t.
Qed.
Lemma HasPrefix_self p t : HasPrefix (p ++ t) p = true.
Proof. apply HasPrefix_iff. by exists t. Qed.

(** The first occurrence. *)
Lemma Index_some s sep i : Index s sep = Some i -> exists l t, s = l ++ sep ++ t /\ length l = i /\ forall l1 l2 u, s = l1 ++ sep ++ u -> l1 ++ l2 = l -> l2 = [].
Proof.
  revert i. induction s as [|b s IH]; intros i; cbn [Index].
  - destruct (HasPrefix [] sep) eqn:E; [|done]. intros [= <-]. apply HasPrefix_iff in E as [t E]. exists [], t. split; [done|]. split; [done|]. intros l1 l2 u _ H. by apply app_eq_nil in H as [_ ?].
  - destruct (HasPrefix (b :: s) sep) eqn:E.
    + intros [= <-]. apply HasPrefix_iff in E as [t E]. exists [], t. split; [done|]. split; [done|]. intros l1 l2 u _ H. by apply app_eq_nil in H as [_ ?].
    + destruct (Index s sep) as [j|] eqn:Ej; [|done]. intros [= <-]. destruct (IH j eq_refl) as (l & t & -> & Hl & Hfirst). exists (b :: l), t. split; [done|]. split; [cbn; lia|].
      intros l1 l2 u Hu Hl12. destruct l1 as [|b1 l1]; cbn [app] in Hu, Hl12.
      * rewrite Hu, HasPrefix_self in E. done.
      * injection Hu as _ Hu. injection Hl12 as _ Hl12. by apply (Hfirst l1 l2 u).
Qed.
Lemma Index_none s sep : Index s sep = None -> forall l t, s <> l ++ sep ++ t.
Proof.
  induction s as [|b s IH]; cbn [Index].
  - destruct (HasPrefix [] sep) eqn:E; [done|]. intros _ l t H. symmetry in H. apply app_eq_nil in H as [-> H]. by rewrite <- H, HasPrefix_self in E.
  - destruct (HasPrefix (b :: s) sep) eqn:E; [done|]. destruct (Index s sep) eqn:Ej; [done|]. intros _ l t H. destruct l as [|c l]; cbn [app] in H.
    + by rewrite H, HasPrefix_self in E.
    + injection H as _ H. by apply (IH eq_refl l t).
Qed.
Lemma LastIndexByte_none s c : LastIndexByte s c = None -> c ∉ s.
Proof.
  induction s as [|b s IH]; cbn [LastIndexByte]; [intros _; apply not_elem_of_nil|]. destruct (LastIndexByte s c); [done|]. destruct (Z.eqb_spec b c); [done|].
  intros _. apply not_elem_of_cons. split; [done|]. by apply IH.
Qed.
Lemma LastIndexByte_some s c i : LastIndexByte s c = Some i -> exists l r, s = l ++ c :: r /\ length l = i /\ c ∉ r.
Proof.
  revert i.
  induction s as [|b s IH]; intros i; cbn [LastIndexByte]; [done|]. destruct (LastIndexByte s c) as [j|] eqn:E.
  - intros [= <-]. destruct (IH j eq_refl) as (l & r & -> & <- & Hr). by exists (b :: l), r.
  - destruct (Z.eqb_spec b c) as [->|]; [|done]. intros [= <-]. exists [], s. split; [done|]. split; [done|]. by apply LastIndexByte_none.
Qed.
Lemma LastIndexByte_is l c r : c ∉ r -> LastIndexByte (l ++ c :: r) c = Some (length l).
Proof.
  intros Hr. assert (LastIndexByte (c :: r) c = Some 0%nat) as H0.
  { cbn [LastIndexByte]. rewrite Z.eqb_refl. assert (LastIndexByte r c = None) as ->; [|done]. induction r as [|b r IH]; [done|]. apply not_elem_of_cons in Hr as [Hb Hr]. cbn [LastIndexByte]. rewrite IH by done. by destruct (Z.eqb_spec b c). }
  induction l as [|b l IH]; cbn [app length]; [done|]. cbn [LastIndexByte]. by rewrite IH.
Qed.

(** ** What may follow a boundary *)

Definition ends_part (t : bytes) : bool :=
  match t with
  | [] => false
  | c :: t => (c =? 32) || (c =? 9) || (c =? 13) || (c =? 10) || (c =? 45) && match t with c' :: _ => c' =? 45 | [] => false end
  end.

Lemma matchAfterPrefix_ok {A} p t more : exists m, @matchAfterPrefix A (p ++ t) p None = Ok m /\
  (m = 0 /\ (t = [] \/ t = [45]) \/ m = 1 /\ ends_part (t ++ more) = true \/ m = -1 /\ ends_part (t ++ more) = false).
Proof.
  unfold matchAfterPrefix. rewrite len_app. destruct t as [|c t].
  { rewrite len_nil, Z.add_0_r, Z.eqb_refl. exists 0. split; [done|]. left. split; [done|]. by left. }
  rewrite len_cons. pose proof (len_nonneg t). destruct (Z.eqb_spec (len p + (1 + len t)) (len p)); [lia|]. rewrite drop_app_length. cbn [app ends_part].
  destruct ((c =? 32) || (c =? 9) || (c =? 13) || (c =? 10)); [exists 1; split; [done|right; by left]|]. cbn [orb]. destruct (Z.eqb_spec c 45) as [->|]; [|exists (-1); split; [done|right; by right]].
  cbn [andb]. destruct t as [|c' t].
  - rewrite len_nil. destruct (Z.eqb_spec (len p + (1 + 0)) (len p + 1)); [|lia]. exists 0. split; [done|]. left. split; [done|]. by right.
  - rewrite len_cons. pose proof (len_nonneg t). destruct (Z.eqb_spec (len p + (1 + (1 + len t))) (len p + 1)); [lia|]. cbn [app].
    destruct (c' =? 45); [exists 1|exists (-1)]; (split; [done|]); right; [by left|by right].
Qed.

(** ** Scanning a buffer *)

Section Scan.
Context {E : Type}.
(** The delimiter of the parts starts with a carriage return and has no other. *)
Variables (D' dash : bytes).
Hypothesis D_once : 13 ∉ D'.
Hypothesis dash_no : 13 ∉ dash.
Hypothesis dash_ne : dash <> [].
#[local] Abbreviation D := (13 :: D').

(** No delimiter inside [body], although its text may occur there. *)
Definition no_boundary body tail := forall l1 l2 t, body = l1 ++ l2 -> l2 <> [] -> l2 ++ D ++ tail = D ++ t -> ends_part t = false.
Definition no_start s := forall t, s = dash ++ t -> ends_part t = false.

Lemma no_boundary_drop k body tail : no_boundary body tail -> no_boundary (drop k body) tail.
Proof. intros H l1 l2 t E1. apply (H (take k body ++ l1)). by rewrite <- app_assoc, <- E1, take_drop. Qed.

(** A text without a carriage return that starts the stream lies in the body. *)
Lemma before_return p u body w : p ++ u = body ++ 13 :: w -> 13 ∉ p -> (length p <= length body)%nat.
Proof.
  intros H Hp. destruct (Nat.le_gt_cases (length p) (length body)) as [?|Hl]; [done|]. exfalso. apply Hp.
  apply (f_equal (take (length p))) in H. rewrite take_app_length in H. rewrite H, take_app_ge by lia. apply elem_of_app. right.
  destruct (length p - length body)%nat eqn:Ek; [lia|]. cbn [take]. apply list_elem_of_here.
Qed.

(** Two occurrences of the delimiter do not overlap. *)
Lemma occurrence_cases l t body tail : l ++ D ++ t = body ++ D ++ tail ->
  (exists m, body = l ++ D ++ m /\ t = m ++ D ++ tail) \/ body = l /\ t = tail \/ (exists m, l = body ++ D ++ m).
Proof.
  intros H. destruct (app_eq_inv _ _ _ _ H) as [(k & Hl & Hk)|(k & Hb & Hk)].
  - destruct k as [|c k].
    + right. left. rewrite app_nil_r in Hl. cbn [app] in Hk. injection Hk as Hk. split; [done|]. symmetry. by apply app_inv_head in Hk.
    + cbn [app] in Hk. injection Hk as <- Hk. right. right. subst l.
      assert (length D' <= length k)%nat as Hlen. { apply (before_return D' tail k (D' ++ t)); [|done]. rewrite Hk. by rewrite <- ?app_assoc. }
      exists (drop (length D') k). f_equal. cbn [app]. f_equal. apply (f_equal (take (length D'))) in Hk. rewrite take_app_length in Hk.
      rewrite take_app_le in Hk by done. rewrite Hk at 1. by rewrite take_drop.
  - destruct k as [|c k].
    + right. left. rewrite app_nil_r in Hb. cbn [app] in Hk. injection Hk as Hk. split; [done|]. by apply app_inv_head in Hk.
    + cbn [app] in Hk. injection Hk as <- Hk. left. assert (length D' <= length k)%nat as Hlen. { apply (before_return D' t k (D' ++ tail)); [|done]. rewrite Hk. by rewrite <- ?app_assoc. }
      exists (drop (length D') k). assert (k = D' ++ drop (length D') k) as Ek.
      { apply (f_equal (take (length D'))) in Hk. rewrite take_app_length in Hk. rewrite take_app_le in Hk by done. rewrite Hk at 1. by rewrite take_drop. }
      split; [rewrite Hb; by rewrite Ek at 1|]. rewrite Ek in Hk. rewrite <- !app_assoc in Hk. by apply app_inv_head in Hk.
Qed.

Section Buffer.
Variables (buf more body tail : bytes).
Hypothesis Hs : buf ++ more = body ++ D ++ tail.
Hypothesis Htail : ends_part tail = true.
Hypothesis Hno : no_boundary body tail.

(** How much is data, and when more input is needed for a decision. *)
Definition scanned (r : res Empty_set (Z * option (bufio_error E))) : Prop :=
  exists n e, r = Ok (Z.of_nat n, e) /\ (n <= length body)%nat /\ (n <= length buf)%nat /\ (e = None \/ e = Some (IoErr EOF) /\ n = length body) /\
    (n = 0%nat -> e = None -> (length buf <= S (Nat.max (length dash) (length D)))%nat /\ (length buf < length (body ++ D ++ tail))%nat).

Lemma tail_length : (0 < length tail)%nat.
Proof. destruct tail; [done|cbn; lia]. Qed.

(** The delimiter is not in the buffer: what sticks out of the body is a proper
    part of it. *)
Lemma partial_end : (forall l t, buf <> l ++ D ++ t) -> (length buf <= length body)%nat \/ exists k x, buf = body ++ 13 :: k /\ D' = k ++ x.
Proof.
  intros Hd. destruct (app_eq_inv _ _ _ _ Hs) as [(k & Hb & Hk)|(k & Hb & Hk)]; [|left; subst body; rewrite length_app; lia].
  destruct k as [|c k]; [left; rewrite app_nil_r in Hb; by subst|]. right. cbn [app] in Hk. injection Hk as <- Hk. exists k.
  destruct (app_eq_inv _ _ _ _ Hk) as [(x & E1 & _)|(x & E1 & _)].
  - by exists x.
  - exfalso. apply (Hd body x). by rewrite Hb, E1.
Qed.

Lemma scan_partial_ok : (forall l t, buf <> l ++ D ++ t) -> scanned (scan_partial buf D None).
Proof.
  intros Hd. unfold scan_partial. destruct (HasPrefix D buf) eqn:Ep.
  { apply HasPrefix_iff in Ep as [x Ep]. exists 0%nat, None. split; [done|]. split; [lia|]. split; [lia|]. split; [by left|]. intros _ _. pose proof tail_length.
    apply (f_equal length) in Ep. rewrite length_app in Ep. rewrite !length_app. lia. }
  assert (forall k x, buf = body ++ 13 :: k -> D' = k ++ x -> 13 ∉ k) as Hk by (intros k x _ E1 Hin; apply D_once; rewrite E1; apply elem_of_app; by left).
  destruct (LastIndexByte buf 13) as [i|] eqn:Ei; [|].
  - destruct (LastIndexByte_some _ _ _ Ei) as (l & r & Eb & Hl & Hr). assert (drop i buf = 13 :: r) as Ed by (rewrite Eb, <- Hl; apply drop_app_length).
    assert (i <= length body)%nat as Hi.
    { destruct (partial_end Hd) as [Hle|(k & x & Eb2 & Ex)]; [apply (f_equal length) in Eb; rewrite length_app in Eb; cbn in Eb; lia|].
      rewrite Eb2, LastIndexByte_is in Ei by (by apply (Hk k x)). injection Ei as <-. lia. }
    rewrite Ed. destruct (HasPrefix D (13 :: r)) eqn:Er.
    + exists i, None. split; [done|]. split; [done|]. split; [apply (f_equal length) in Eb; rewrite length_app in Eb; cbn in Eb; lia|]. split; [by left|].
      intros -> _. rewrite Eb in Ep. destruct l; [|done]. cbn [app] in Ep; by rewrite Er in Ep.
    + assert (length buf <= length body)%nat as Hle.
      { destruct (partial_end Hd) as [?|(k & x & Eb2 & Ex)]; [done|]. rewrite Eb2, LastIndexByte_is in Ei by (by apply (Hk k x)). injection Ei as <-.
        rewrite Eb2, drop_app_length in Ed. injection Ed as <-. rewrite Ex in Er. change (13 :: k ++ x) with ((13 :: k) ++ x) in Er. by rewrite HasPrefix_self in Er. }
      exists (length buf), None. split; [done|]. split; [done|]. split; [lia|]. split; [by left|]. intros H0 _. apply nil_length_inv in H0. by rewrite H0 in Eb; destruct l.
  - assert (length buf <= length body)%nat as Hle.
    { destruct (partial_end Hd) as [?|(k & x & Eb2 & Ex)]; [done|]. by rewrite Eb2, LastIndexByte_is in Ei by (by apply (Hk k x)). }
    exists (length buf), None. split; [done|]. split; [done|]. split; [lia|]. split; [by left|]. intros H0 _. apply nil_length_inv in H0. by rewrite H0 in Ep.
Qed.

Lemma scan_search_ok : scanned (scan_search buf D None).
Proof.
  unfold scan_search. destruct (Index buf D) as [i|] eqn:Ei; [|by apply scan_partial_ok; intros l t; apply Index_none].
  destruct (Index_some _ _ _ Ei) as (l & t & Eb & Hl & Hfirst). assert (drop i buf = D ++ t) as -> by (rewrite Eb, <- Hl; apply drop_app_length).
  destruct (@matchAfterPrefix_ok (bufio_error E) D t more) as (m & -> & Hm). cbn [res_bind]. assert (length buf = (i + length D + length t)%nat) as Hlen by (rewrite Eb, !length_app; lia).
  pose proof Hs as Hs'. rewrite Eb in Hs'. rewrite <- !app_assoc in Hs'. destruct (occurrence_cases l (t ++ more) body tail) as [(m' & Eb' & Et)|[[Eb' Et]|(m' & El)]]; [exact Hs'|..].
  - (* inside the body: no delimiter *)
    assert (ends_part (t ++ more) = false) as Hends. { apply (Hno l (D ++ m')); [exact Eb'|done|]. by rewrite Et, <- !app_assoc. }
    assert (i + length D <= length body)%nat as Hin by (rewrite Eb', !length_app; lia). destruct Hm as [[-> Ht]|[[_ H]|[-> _]]]; [|by rewrite Hends in H|].
    + exists i, None. split; [done|]. split; [lia|]. split; [lia|]. split; [by left|]. intros -> _. rewrite !length_app.
      pose proof tail_length. destruct Ht as [-> | ->]; cbn [length] in *; lia.
    + exists (i + length D)%nat, None. split; [cbn [Z.eqb Pos.eqb]; do 2 f_equal; unfold len; lia|]. split; [done|]. split; [lia|]. split; [by left|]. cbn [length]. lia.
  - assert (i = length body) as -> by (by rewrite Eb'). destruct Hm as [[-> Ht]|[[-> _]|[_ H]]]; [..|by rewrite Et, Htail in H].
    + exists (length body), None. split; [done|]. split; [lia|]. split; [lia|]. split; [by left|]. intros H0 _. rewrite H0, !length_app in *. pose proof tail_length.
      assert (length t < length tail)%nat; [|destruct Ht as [-> | ->]; cbn [length] in *; lia]. apply (f_equal length) in Et as El'. rewrite length_app in El'.
      destruct Ht as [-> | ->]; [cbn [length]; lia|]. destruct more; [|cbn [length] in *; lia]. by rewrite <- Et in Htail.
    + exists (length body), (Some (IoErr EOF)). split; [done|]. split; [lia|]. split; [lia|]. split; [by right|]. done.
  - exfalso. assert (D ++ m' = []) as H; [|done]. apply (Hfirst body (D ++ m') (m' ++ D ++ t)); [|done]. rewrite Eb, El. by rewrite <- !app_assoc.
Qed.

Lemma scanUntilBoundary_ok total : (total = 0 -> no_start (body ++ D ++ tail)) -> scanned (scanUntilBoundary buf dash D total None).
Proof.
  intros Hstart. unfold scanUntilBoundary. destruct (Z.eqb_spec total 0) as [->|]; [|apply scan_search_ok]. destruct (HasPrefix buf dash) eqn:Ep; [|apply scan_search_ok].
  apply HasPrefix_iff in Ep as [t Eb]. cbn [andb]. rewrite Eb. destruct (@matchAfterPrefix_ok (bufio_error E) dash t more) as (m & -> & Hm). cbn [res_bind].
  assert (ends_part (t ++ more) = false) as Hends. { apply (Hstart eq_refl). rewrite <- Hs, Eb. by rewrite <- app_assoc. }
  assert (length dash <= length body)%nat as Hin. { apply (before_return dash (t ++ more) body (D' ++ tail)); [|done]. rewrite app_assoc, <- Eb. exact Hs. }
  assert (length buf = (length dash + length t)%nat) as Hlen by (by rewrite Eb, length_app).
  destruct Hm as [[-> Ht]|[[_ H]|[-> _]]]; [|by rewrite Hends in H|].
  - exists 0%nat, None. split; [done|]. split; [lia|]. split; [lia|]. split; [by left|]. intros _ _. rewrite Hlen, !length_app. pose proof tail_length. destruct Ht as [-> | ->]; cbn [length] in *; lia.
  - exists (length dash), None. split; [done|]. split; [lia|]. split; [lia|]. split; [by left|]. intros H0 _. by apply nil_length_inv in H0.
Qed.
End Buffer.
End Scan.

(** ** The bodies of parts *)

#[local] Opaque defaultBufSize.

(** ** The reader below *)

#[export] Instance sticky_Source {R E} {RD : Reader R E} {SR : Source R E} : Source (stickyErrorReader R E) E.
Proof.
  refine {| holds r s := st_err r = None /\ holds (st_r r) s \/ st_err r = Some EOF /\ s = [] |}.
  - intros [u err] p [[H1 H2]|[H1 _]] Hp; cbn [st_err st_r] in *; subst err; unfold Read, sticky_Reader; cbn [st_err st_r].
    + destruct (source_eof u p H2 Hp) as (u' & -> & Hu). eexists. split; [reflexivity|]. by right.
    + eexists. split; [reflexivity|]. by right.
  - intros [u err] s p [[H1 H2]|[H1 ->]] Hs Hp; [|done]. cbn [st_err st_r] in *. subst err. unfold Read, sticky_Reader; cbn [st_err st_r].
    destruct (source_data u s p H2 Hs Hp) as (n & u' & Hn & Hnp & -> & Hu). exists n. eexists. split; [done|]. split; [done|]. split; [reflexivity|]. by left.
Defined.

Section Body.
Context {R E : Type} {RD : Reader R E} {SR : Source R E}.
Implicit Types (b : bufReader (stickyErrorReader R E) E).

(** Looking past the buffered bytes brings more of them, when there are more. *)
Lemma Peek_grows b s : br_holds b s -> (length (br_buf b) < length s)%nat -> (length (br_buf b) < defaultBufSize)%nat ->
  exists p b', Peek (len (br_buf b) + 1) b = (Ok (p, None), b') /\ br_holds b' s /\ (length (br_buf b) < length (br_buf b'))%nat.
Proof.
  intros Hb Hs Hsize. destruct (Peek_loop_ok (S defaultBufSize) b s (len (br_buf b) + 1) Hb) as (b' & Er & Hb' & Hcase); [lia|].
  assert (length (br_buf b) < length (br_buf b'))%nat as Hlt. { unfold len in Hcase. destruct Hcase as [?|[->|?]]; lia. }
  unfold Peek. rewrite (bind_ok _ _ _ _ _ Er). erewrite bind_ok by reflexivity. destruct (Z.ltb_spec (Z.of_nat defaultBufSize) (len (br_buf b) + 1)); [unfold len in *; lia|].
  destruct (Z.ltb_spec (len (br_buf b')) (len (br_buf b) + 1)); [unfold len in *; lia|]. by do 2 eexists.
Qed.
Lemma Peek_all b : (length (br_buf b) <= defaultBufSize)%nat -> Peek (len (br_buf b)) b = (Ok (br_buf b, None), b).
Proof.
  intros Hb. unfold Peek. assert (Peek_loop (S defaultBufSize) (len (br_buf b)) b = (Ok tt, b)) as E1 by (cbn [Peek_loop]; by rewrite Z.ltb_irrefl). rewrite (bind_ok _ _ _ _ _ E1). erewrite bind_ok by reflexivity.
  destruct (Z.ltb_spec (Z.of_nat defaultBufSize) (len (br_buf b))); [unfold len in *; lia|]. rewrite Z.ltb_irrefl. unfold st_ret, len. by rewrite Nat2Z.id, firstn_all.
Qed.
(** Reading no more than what is buffered. *)
Lemma bufio_Read_buffered b s p : br_holds b s -> br_buf b <> [] -> (length p <= length (br_buf b))%nat ->
  exists b', bufio_Read p b = (Ok (len p, None, take (length p) s), b') /\ br_holds b' (drop (length p) s) /\ br_buf b' = drop (length p) (br_buf b).
Proof.
  intros (Hlen & s' & -> & Hh & He) Hne Hp. unfold bufio_Read. destruct p as [|x p].
  - destruct (br_buf b) as [|y buf] eqn:Eb; [done|]. exists b. split; [done|]. split; [|by rewrite Eb]. split; [by rewrite Eb|]. exists s'. by rewrite Eb.
  - destruct (br_buf b) as [|y buf] eqn:Eb; [done|]. rewrite (Nat.min_l (length (x :: p))) by done. eexists. rewrite take_app_le, drop_app_le by done.
    split; [unfold len; rewrite drop_all, app_nil_r; reflexivity|]. split; [|done]. split; [cbn [br_buf]; rewrite length_drop; lia|]. by exists s'.
Qed.

(** ** [partReader.Read] *)

Variables (boundary tail : bytes).
Hypothesis boundary_no : 13 ∉ boundary.
Hypothesis boundary_fits : (length boundary + 6 < defaultBufSize)%nat.
Hypothesis Htail : ends_part tail = true.

Definition dash_of (b : bytes) : bytes := 45 :: 45 :: b.
Definition nl_dash_of (b : bytes) : bytes := 13 :: 10 :: dash_of b.
#[local] Abbreviation dash := (dash_of boundary).
#[local] Abbreviation D := (nl_dash_of boundary).

(** Before the part [body]; [n] bytes of it are known to be data. *)
Definition part_at (st : mpReader R E * Part E) body : Prop :=
  nlDashBoundary st.1 = D /\ dashBoundary st.1 = dash /\ br_holds (bufReader_ st.1) (body ++ D ++ tail) /\
  no_boundary (10 :: dash) body tail /\ (total st.2 = 0 -> no_start dash (body ++ D ++ tail)) /\ readErr st.2 = None /\
  0 <= total st.2 /\ total st.2 + len body < 2 ^ 63 /\
  exists n, part_n st.2 = Z.of_nat n /\ (n <= length body)%nat /\ (n <= length (br_buf (bufReader_ st.1)))%nat /\
    (part_err st.2 = None \/ part_err st.2 = Some (IoErr EOF) /\ n = length body).

Lemma on_mr_ok {A} (m : stateful (bufReader (stickyErrorReader R E) E) Empty_set A) r (p : Part E) x b : m (bufReader_ r) = (x, b) ->
  on_mr m (r, p) = (x, (mkMpReader b (partsRead r) (nl r) (nlDashBoundary r) (dashBoundaryDash r) (dashBoundary r), p)).
Proof. intros H. unfold on_mr, on_buf. by rewrite H. Qed.

Lemma scan_loop_stop fuel (st : mpReader R E * Part E) : part_n st.2 <> 0 \/ part_err st.2 <> None -> scan_loop fuel st = (Ok tt, st).
Proof.
  intros H. destruct st as [r p]. cbn [snd] in H. assert ((part_n p =? 0) && match part_err p with None => true | Some _ => false end = false) as E1.
  { destruct (Z.eqb_spec (part_n p) 0); [|done]. by destruct H, (part_err p). }
  destruct fuel; cbn [scan_loop]; erewrite bind_ok by reflexivity; cbv iota beta; by rewrite E1.
Qed.

Lemma scan_loop_ok fuel : forall st body, part_at st body -> (1 <= fuel)%nat -> (length boundary + 7 <= fuel + length (br_buf (bufReader_ st.1)))%nat ->
  exists st', scan_loop fuel st = (Ok tt, st') /\ part_at st' body /\ (part_n st'.2 <> 0 \/ part_err st'.2 = Some (IoErr EOF)).
Proof.
  induction fuel as [|fuel IH]; intros st body Hat H1 Hf; [lia|]. cbn [scan_loop]. erewrite bind_ok by reflexivity. destruct st as [r p].
  destruct (Z.eqb_spec (part_n p) 0) as [Hn|Hn]; [|exists (r, p); split; [done|]; split; [done|by left]]. destruct (part_err p) as [e|] eqn:Ee.
  { exists (r, p). split; [done|]. split; [done|]. right. destruct Hat as (_ & _ & _ & _ & _ & _ & _ & _ & n & _ & _ & _ & Herr). cbn [snd] in *. rewrite Ee in *. by destruct Herr as [|[? _]]. }
  cbn [andb]. destruct Hat as (Hnl & Hdash & Hb & Hno & Hstart & Hre & Ht0 & Htb & _). cbn [fst snd] in *.
  erewrite bind_ok by (apply on_mr_ok; reflexivity). cbv beta. destruct Hb as (Hlen & s' & Es & Hh & He). assert (br_holds (bufReader_ r) (body ++ D ++ tail)) as Hb by (split; [done|by exists s']).
  erewrite bind_ok by (apply on_mr_ok; cbn [bufReader_]; apply Peek_all; exact Hlen). cbn [bufReader_ partsRead nl nlDashBoundary dashBoundaryDash dashBoundary].
  destruct (scanUntilBoundary_ok (E := E) (10 :: dash) dash) with (buf := br_buf (bufReader_ r)) (more := s') (body := body) (tail := tail) (total := total p)
    as (n & e & Er & Hnb & Hnbuf & Herr & Hmore); [set_solver|set_solver|done|by symmetry|done|done|exact Hstart|].
  change (13 :: 10 :: dash) with D in Er, Hmore. rewrite Hnl, Hdash, Hre. rewrite (bind_ok _ _ _ (Z.of_nat n, e) _) by (unfold st_lift; by rewrite Er). cbv iota beta.
  erewrite bind_ok by reflexivity. erewrite bind_ok by reflexivity.
  assert (forall b q, br_holds b (body ++ D ++ tail) -> (n <= length (br_buf b))%nat -> part_n q = Z.of_nat n -> part_err q = e -> total q = total p -> readErr q = None ->
    part_at (mkMpReader b (partsRead r) (nl r) D (dashBoundaryDash r) dash, q) body) as Hat.
  { intros b q Hb' Hnb' Eqn Eqe Eqt Eqr. unfold part_at. cbn [fst snd]. rewrite Eqe, Eqt. repeat (split; [done|]). exists n. by repeat (split; [done|]). }
  destruct (decide (n = 0%nat /\ e = None)) as [[-> ->]|Hdone].
  - destruct (Hmore eq_refl eq_refl) as [Hsmall Hlt]. destruct (Peek_grows _ _ Hb Hlt) as (q & b' & Eq & Hb' & Hgrow); [cbn [length dash_of nl_dash_of] in *; lia|].
    change ((Z.of_nat 0 =? 0) && true) with true. cbv iota. rewrite <- bind_bind. erewrite bind_ok by (apply on_mr_ok; exact Eq). cbv iota beta. rewrite <- bind_bind. erewrite bind_ok by reflexivity. erewrite bind_ok by reflexivity.
    apply IH; [|cbn [length dash_of nl_dash_of] in *; lia|cbn [fst bufReader_]; lia]. apply Hat; try done. lia.
  - assert ((Z.of_nat n =? 0) && match e with Some _ => false | None => true end = false) as ->.
    { destruct (Z.eqb_spec (Z.of_nat n) 0); [|done]. destruct e; [done|]. exfalso. apply Hdone. split; [lia|done]. }
    erewrite bind_ok by reflexivity. rewrite scan_loop_stop.
    + eexists. split; [reflexivity|]. split; [by apply Hat|]. cbn [snd set_n set_err part_n part_err]. destruct (decide (n = 0%nat)) as [->|]; [right|left; lia]. destruct Herr as [->|[-> _]]; [by exfalso; apply Hdone|done].
    + cbn [snd set_n set_err part_n part_err]. destruct (decide (n = 0%nat)) as [->|]; [right|left; lia]. intros ->. by apply Hdone.
Qed.

Lemma Read_ok fuel d st body : part_at st body -> (length boundary + 7 <= fuel)%nat ->
  exists k err st', partReader_Read fuel d st = (Ok (Z.of_nat k, err, take k body ++ drop k d), st') /\ part_at st' (drop k body) /\ (k <= length d)%nat /\ (k <= length body)%nat /\
    (err = None /\ (d <> [] -> (0 < k)%nat) \/ err = Some (IoErr EOF) /\ k = length body).
Proof.
  intros Hat Hf. destruct (scan_loop_ok fuel st body Hat) as ([r p] & Er & Hat' & Hdone); [lia|lia|]. unfold partReader_Read. rewrite (bind_ok _ _ _ _ _ Er).
  erewrite bind_ok by reflexivity. cbv iota beta. pose proof Hat' as (Hnl & Hdash & Hb & Hno & Hstart & Hre & Ht0 & Htb & n & Hn & Hnb & Hnbuf & Herr). cbn [fst snd] in *. rewrite Hn.
  destruct (Z.eqb_spec (Z.of_nat n) 0) as [Hn0|Hn0].
  { exists 0%nat, (part_err p), (r, p). split; [done|]. split; [done|]. split; [lia|]. split; [lia|]. destruct Hdone as [|Hdone]; [lia|]. right. split; [done|]. destruct Herr as [Herr|[_ Herr]]; [by rewrite Herr in Hdone|lia]. }
  set (k := if _ <? _ then _ else _). assert (k <= n /\ k <= length d /\ (d <> [] -> (0 < k)%nat))%nat as (Hkn & Hkd & Hk0).
  { unfold k. destruct (Z.ltb_spec (Z.of_nat n) (len d)) as [Hl|Hl]; unfold len in Hl; (split; [lia|]); (split; [lia|]); intros Hd; destruct d; [done| |done|]; cbn [length] in *; lia. }
  assert (length (take k d) = k) as Elk by (rewrite length_take; lia).
  destruct (bufio_Read_buffered (bufReader_ r) _ (take k d) Hb) as (b' & Eb & Hb' & Ebuf); [intros H0; rewrite H0 in Hnbuf; cbn in Hnbuf; lia|lia|].
  assert (len (take k d) = Z.of_nat k) as Elen by (unfold len; by rewrite Elk). rewrite Elk, Elen in *. rewrite take_app_le in Eb by lia. rewrite drop_app_le in Hb' by lia.
  erewrite bind_ok by (apply on_mr_ok; exact Eb). cbv iota beta. erewrite bind_ok by reflexivity. erewrite bind_ok by reflexivity. erewrite bind_ok by reflexivity. cbv iota beta.
  eexists k, _, _. split; [reflexivity|]. cbn [snd set_n set_total part_n part_err].
  assert (i64 (total p + Z.of_nat k) = total p + Z.of_nat k) as Et by (apply i64_small; unfold len in Htb; lia). split; [|split; [done|split; [lia|]]].
  - unfold part_at. cbn [fst snd nlDashBoundary dashBoundary bufReader_ total readErr part_n part_err set_n set_total]. rewrite Et. split; [done|]. split; [done|]. split; [done|].
    split; [by apply no_boundary_drop|]. split.
    { intros H0. assert (k = 0%nat) as -> by lia. rewrite drop_0. apply Hstart. lia. }
    split; [done|]. split; [lia|]. split; [unfold len in *; rewrite length_drop; lia|]. exists (n - k)%nat. rewrite Hn, length_drop, Ebuf, length_drop. split; [lia|]. split; [lia|]. split; [lia|].
    destruct Herr as [?|[? ->]]; [by left|right]. done.
  - rewrite Hn. destruct (Z.eqb_spec (Z.of_nat n - Z.of_nat k) 0) as [Hz|Hz]; [|left; done].
    destruct Herr as [->|[-> ->]]; [by left|right]. split; [done|]. lia.
Qed.

(** Calls of [Read] with these buffers, until one returns an error: the data
    read, and that error. *)
Fixpoint part_reads (fuel : nat) (ds : list bytes) : stateful (mpReader R E * Part E) Empty_set (bytes * option (bufio_error E)) :=
  match ds with
  | [] => st_ret ([], None)
  | d :: ds =>
      let* (n, err, buf) := partReader_Read fuel d in
      match err with
      | Some e => st_ret (take (Z.to_nat n) buf, Some e)
      | None => let* (rest, err) := part_reads fuel ds in st_ret (take (Z.to_nat n) buf ++ rest, err)
      end
  end.

Lemma part_reads_ok fuel ds : forall st body, part_at st body -> (length boundary + 7 <= fuel)%nat -> Forall (fun d => d <> []) ds ->
  exists d err st', part_reads fuel ds st = (Ok (d, err), st') /\ part_at st' (drop (length d) body) /\
    (err = None /\ d = take (length d) body /\ (length ds <= length d)%nat \/ err = Some (IoErr EOF) /\ d = body).
Proof.
  induction ds as [|x ds IH]; intros st body Hat Hf Hds; cbn [part_reads].
  { exists [], None, st. split; [done|]. split; [done|]. left. by split. }
  apply List.Forall_cons_iff in Hds as [Hx Hds]. destruct (Read_ok fuel x st body Hat Hf) as (k & err & st1 & Er & Hat1 & Hkx & Hkb & Hcase). rewrite (bind_ok _ _ _ _ _ Er). cbv iota beta.
  assert (length (take k body) = k) as Elk by (rewrite length_take; lia). rewrite Nat2Z.id.
  assert (take k (take k body ++ drop k x) = take k body) as -> by (rewrite <- Elk at 1; apply take_app_length). destruct Hcase as [[-> Hk]|[-> ->]].
  - destruct (IH st1 _ Hat1 Hf Hds) as (d & err & st2 & Er2 & Hat2 & Hcase). rewrite (bind_ok _ _ _ _ _ Er2). cbv iota beta. exists (take k body ++ d), err, st2. split; [done|].
    rewrite length_app, Elk. rewrite drop_drop in Hat2. split; [done|]. destruct Hcase as [(-> & Ed & Hl)|[-> ->]]; [left|right].
    + split; [done|]. split; [rewrite Ed at 1; by rewrite take_take_drop|]. specialize (Hk Hx). cbn [length]. lia.
    + split; [done|]. apply take_drop.
  - exists (take (length body) body), (Some (IoErr EOF)), st1. split; [done|]. rewrite take_ge by lia. split; [done|]. by right.
Qed.
End Body.

(** ** From the start of the stream to a part *)

Section Parts.
Context {R E : Type} {RD : Reader R E} {SR : Source R E}.

Definition good_boundary (b : bytes) : Prop := b <> [] /\ 10 ∉ b /\ 13 ∉ b /\ (length b + 6 < defaultBufSize)%nat.
(** A line before the first part. *)
Definition preamble_line (boundary l : bytes) : Prop := 10 ∉ l /\ (length l < defaultBufSize)%nat /\ HasPrefix (l ++ [10]) (dash_of boundary) = false.

Lemma NewReader_fields (r : R) b : NewReader (E := E) r b = mkMpReader (bufio_NewReader (mkSticky r None)) 0 [13; 10] (nl_dash_of b) (dash_of b ++ [45; 45]) (dash_of b).
Proof.
  unfold NewReader. assert ((length ([13; 10; 45; 45]%Z ++ b ++ [45; 45]%Z) - 2)%nat = (4 + length b)%nat) as -> by (rewrite !length_app; cbn [length]; lia).
  assert (take (4 + length b) ([13; 10; 45; 45] ++ b ++ [45; 45]) = nl_dash_of b) as ->; [|done]. cbn [take Nat.add app]. rewrite take_app_length. done.
Qed.

Definition ready boundary (r : mpReader R E) s : Prop :=
  nl r = [13; 10] /\ nlDashBoundary r = nl_dash_of boundary /\ dashBoundary r = dash_of boundary /\ br_holds (bufReader_ r) s.

Lemma on_buf_ok {A} (m : stateful (bufReader (stickyErrorReader R E) E) Empty_set A) (r : mpReader R E) x b : m (bufReader_ r) = (x, b) ->
  on_buf m r = (x, mkMpReader b (partsRead r) (nl r) (nlDashBoundary r) (dashBoundaryDash r) (dashBoundary r)).
Proof. intros H. unfold on_buf. by rewrite H. Qed.

Lemma delimiter_line boundary (r : mpReader R E) s : ready boundary r s -> isBoundaryDelimiterLine (dash_of boundary ++ [13; 10]) r = (true, r).
Proof.
  intros (Hnl & _ & Hd & _). unfold isBoundaryDelimiterLine. rewrite Hd, HasPrefix_self, drop_app_length. cbn [negb skipLWSPChar Z.eqb Pos.eqb orb].
  rewrite (bool_decide_eq_false_2 ([13; 10] = [10])), andb_false_r by done. by rewrite Hnl.
Qed.

Lemma nextPart_loop_ok fuel boundary s : good_boundary boundary -> forall pre r, Forall (preamble_line boundary) pre ->
  ready boundary r (concat (map (fun l => l ++ [10]) pre) ++ dash_of boundary ++ [13; 10] ++ s) -> (length pre < fuel)%nat ->
  exists r', nextPart_loop fuel r = (Ok PartBegins, r') /\ ready boundary r' s.
Proof.
  intros (Hne & H10 & H13 & Hfit). induction fuel as [|fuel IH]; intros pre r Hpre Hr Hf; [lia|]. cbn [nextPart_loop]. destruct pre as [|l pre].
  - pose proof Hr as (Hnl & Hnd & Hd & Hb). cbn [map concat app] in Hb.
    destruct (ReadSlice_line (bufReader_ r) (dash_of boundary ++ [13]) s) as (b' & Er & Hb').
    { by rewrite <- app_assoc. } { unfold dash_of. set_solver. } { rewrite length_app. cbn [length dash_of]. lia. }
    rewrite (bind_ok _ _ _ _ _ (on_buf_ok _ _ _ _ Er)). cbv iota beta. erewrite bind_ok by reflexivity. cbn [andb].
    erewrite bind_ok by (rewrite <- app_assoc; cbn [app]; rewrite (delimiter_line boundary _ s) by done; reflexivity). cbv iota.
    erewrite bind_ok by reflexivity. eexists. split; [reflexivity|]. done.
  - apply List.Forall_cons_iff in Hpre as [(Hl10 & Hll & Hp) Hpre]. pose proof Hr as (Hnl & Hnd & Hd & Hb). cbn [map concat] in Hb. rewrite <- !app_assoc in Hb. cbn [app] in Hb.
    destruct (ReadSlice_line (bufReader_ r) l _ Hb) as (b' & Er & Hb'); [done|done|].
    rewrite (bind_ok _ _ _ _ _ (on_buf_ok _ _ _ _ Er)). cbv iota beta. erewrite bind_ok by reflexivity. cbn [andb].
    erewrite bind_ok by (unfold isBoundaryDelimiterLine; cbn [dashBoundary]; rewrite Hd, Hp; reflexivity). cbv iota. apply (IH pre); [done| |cbn in Hf; lia]. by repeat (split; [done|]).
Qed.

Lemma newPart_ok fuel raw boundary fs s r : ready boundary r (wire_header fs ++ s) -> Forall good_field fs -> (length (wire_header fs) < fuel)%nat ->
  exists p r' m, newPart fuel raw r = (Ok p, r') /\ ready boundary r' s /\ add_all fs (Some ∅) = Ok m /\
    (part_r p = PartReader /\ Header_ p = m \/ raw = false /\ part_r p = QuotedPrintable /\ Header_ p = Del m cte) /\
    part_n p = 0 /\ total p = 0 /\ part_err p = None /\ readErr p = None.
Proof.
  intros (Hnl & Hnd & Hd & Hb) Hfs Hf. destruct (ReadMIMEHeader_ok fuel fs s (TextReader.NewReader (bufReader_ r)) Hb Hfs Hf) as (m & t & Er & Ht & Hm).
  unfold newPart. erewrite bind_ok by (unfold populateHeaders; rewrite Er; reflexivity). destruct (_ && _) eqn:Eq.
  - eexists _, _, (Some m). split; [reflexivity|]. split; [done|]. split; [done|]. split; [right; by destruct raw|done].
  - eexists _, _, (Some m). split; [reflexivity|]. split; [done|]. split; [done|]. split; [by left|done].
Qed.
End Parts.

(** C9: The first part of a multipart body is read exactly: [nextPart] skips
    the lines before the delimiter, [newPart] takes the header, and however the
    source cuts the stream and whatever non-empty buffers [Read] gets, what the
    part delivers is its body, up to [EOF], also when the text of the delimiter
    occurs in it followed by something else; each [Read] before the end
    delivers something, and the delimiter behind the body is left unread. *)
Theorem part_read_exactly {R E} {RD : Reader R E} {SR : Source R E} (r : R) boundary pre fs body tail raw ds fuel :
  good_boundary boundary -> Forall (preamble_line boundary) pre -> Forall good_field fs -> Forall (fun d => d <> []) ds ->
  holds r (concat (map (fun l => l ++ [10]) pre) ++ dash_of boundary ++ [13; 10] ++ wire_header fs ++ body ++ nl_dash_of boundary ++ tail) ->
  ends_part tail = true -> no_boundary (10 :: dash_of boundary) body tail -> no_start (dash_of boundary) (body ++ nl_dash_of boundary ++ tail) -> len body < 2 ^ 63 ->
  (length pre < fuel)%nat -> (length (wire_header fs) < fuel)%nat -> (length boundary + 7 <= fuel)%nat ->
  exists r1 p r2 m d err st,
    nextPart fuel (NewReader (E := E) r boundary) = (Ok PartBegins, r1) /\ newPart fuel raw r1 = (Ok p, r2) /\
    add_all fs (Some ∅) = Ok m /\ (part_r p = PartReader /\ Header_ p = m \/ raw = false /\ part_r p = QuotedPrintable /\ Header_ p = Del m cte) /\
    part_reads fuel ds (r2, p) = (Ok (d, err), st) /\
    (err = None /\ d = take (length d) body /\ (length ds <= length d)%nat \/
     err = Some (IoErr EOF) /\ d = body /\ br_holds (bufReader_ st.1) (nl_dash_of boundary ++ tail)).
Proof.
  intros Hgood Hpre Hfs Hds Hr Htail Hno Hstart Hlen Hf1 Hf2 Hf3. pose proof Hgood as (Hne & _ & H13 & Hfit).
  destruct (nextPart_loop_ok fuel boundary (wire_header fs ++ body ++ nl_dash_of boundary ++ tail) Hgood pre (NewReader (E := E) r boundary) Hpre) as (r1 & Er1 & Hr1); [|done|].
  { rewrite NewReader_fields. do 3 (split; [done|]). apply NewReader_holds. left. by split. }
  destruct (newPart_ok fuel raw boundary fs _ r1 Hr1 Hfs Hf2) as (p & r2 & m & Ep & (Hnl & Hnd & Hd & Hb) & Hm & Hp & Hn & Ht & He & Hre).
  destruct (part_reads_ok boundary tail H13 Hfit Htail fuel ds (r2, p) body) as (d & err & st & Ed & Hat & Hcase); [|done|done|].
  { unfold part_at. cbn [fst snd]. rewrite Ht, He. repeat (split; [done|]). exists 0%nat. split; [done|]. split; [lia|]. split; [lia|]. by left. }
  exists r1, p, r2, m, d, err, st. split.
  { unfold nextPart. erewrite bind_ok by reflexivity. rewrite bool_decide_eq_false_2; [done|]. rewrite NewReader_fields. cbn [dashBoundary]. unfold dash_of. by intros [= ->]. }
  repeat (split; [done|]). destruct Hcase as [?|[-> ->]]; [by left|right]. split; [done|]. split; [done|]. destruct Hat as (_ & _ & Hb2 & _). by rewrite drop_all in Hb2.
Qed.

(** Checks of the hypotheses on a body. *)
Fixpoint no_boundary_check (D body tail : bytes) : bool :=
  match body with
  | [] => true
  | _ :: body' => implb (HasPrefix (body ++ D ++ tail) D) (negb (ends_part (drop (length D) (body ++ D ++ tail)))) && no_boundary_check D body' tail
  end.
Lemma no_boundary_checked D' body tail : no_boundary_check (13 :: D') body tail = true -> no_boundary D' body tail.
Proof.
  intros H l1 l2 t -> Hl2 Ht. induction l1 as [|b l1 IH]; [|by cbn [app no_boundary_check] in H; apply andb_true_iff in H as [_ H]; apply IH].
  cbn [app] in H. destruct l2 as [|b l2]; [done|]. cbn [no_boundary_check] in H. apply andb_true_iff in H as [H _]. rewrite Ht, HasPrefix_self, drop_app_length in H. by destruct (ends_part t).
Qed.
Lemma no_start_checked dash s : implb (HasPrefix s dash) (negb (ends_part (drop (length dash) s))) = true -> no_start dash s.
Proof. intros H t ->. rewrite HasPrefix_self, drop_app_length in H. by destruct (ends_part t). Qed.

(** A body with the text of the delimiter inside, in three pieces of which the
    first ends within that text and the second within the delimiter. *)
Definition sample_body : bytes := str "see" ++ nl_dash_of (str "b") ++ str "ar".
Definition sample_wire : bytes :=
  str "hello" ++ [10] ++ dash_of (str "b") ++ [13; 10] ++ str "Key: v" ++ [13; 10; 13; 10] ++ sample_body ++ nl_dash_of (str "b") ++ str "--".

Lemma part_read_exactly_witness : exists r1 p r2 m d err st,
  nextPart 100 (NewReader (E := Empty_set) (R := chunks) [take 27 sample_wire; take 6 (drop 27 sample_wire); drop 33 sample_wire] (str "b")) = (Ok PartBegins, r1) /\
  newPart 100 false r1 = (Ok p, r2) /\
  add_all [mkField (str "Key") ([32], str "v") []] (Some ∅) = Ok m /\ (part_r p = PartReader /\ Header_ p = m \/ false = false /\ part_r p = QuotedPrintable /\ Header_ p = Del m cte) /\
  part_reads 100 [[0; 0; 0; 0; 0; 0]; [0; 0; 0; 0; 0; 0; 0]; [0]] (r2, p) = (Ok (d, err), st) /\
  (err = None /\ d = take (length d) sample_body /\ (3 <= length d)%nat \/
   err = Some (IoErr EOF) /\ d = sample_body /\ br_holds (bufReader_ st.1) (nl_dash_of (str "b") ++ str "--")).
Proof.
  apply (part_read_exactly (R := chunks) _ (str "b") [str "hello"] [mkField (str "Key") ([32], str "v") []] sample_body (str "--") false [[0; 0; 0; 0; 0; 0]; [0; 0; 0; 0; 0; 0; 0]; [0]] 100).
  - pose proof buf_size. change (str "b") with [98]. split; [done|]. split; [set_solver|]. split; [set_solver|]. cbn. lia.
  - constructor; [|constructor]. pose proof buf_size. split; [vm_compute; set_solver|]. split; [cbn; lia|]. by vm_compute.
  - constructor; [|constructor]. unfold good_field, good_value. cbn [f_key f_first f_more fst snd]. split; [done|]. split; [by vm_compute|]. split; [solve_bytes|]. split; [by repeat constructor|]. split; [|constructor]. split; [by vm_compute|by vm_compute].
  - by repeat constructor.
  - split; [by repeat constructor|]. by vm_compute.
  - by vm_compute.
  - apply no_boundary_checked. by vm_compute.
  - apply no_start_checked. by vm_compute.
  - by vm_compute.
  - cbn. lia.
  - vm_compute. lia.
  - cbn. lia.
Defined.

(** ** Boundary lines *)

Definition lf_or_tab (c : Z) : Prop := c = 10 \/ c = 9.
Lemma skipLWSPChar_spec b : exists ws, b = ws ++ skipLWSPChar b /\ Forall lf_or_tab ws.
Proof.
  induction b as [|c b (ws & E & Hws)]; [by exists []|]. cbn [skipLWSPChar]. destruct ((c =? 10) || (c =? 9)) eqn:Ec; [|by exists []].
  exists (c :: ws). cbn [app]. split; [by rewrite <- E|]. constructor; [|done]. unfold lf_or_tab. apply orb_true_iff in Ec as [Ec|Ec]; apply Z.eqb_eq in Ec; by subst c; (left + right).
Qed.
Lemma skipLWSPChar_app ws c b : Forall lf_or_tab ws -> ~ lf_or_tab c -> skipLWSPChar (ws ++ c :: b) = c :: b.
Proof.
  intros Hws Hc. induction Hws as [|x ws Hx _ IH]; cbn [app skipLWSPChar].
  - destruct (Z.eqb_spec c 10) as [->|]; [by destruct Hc; left|]. destruct (Z.eqb_spec c 9) as [->|]; [by destruct Hc; right|done].
  - by destruct Hx as [-> | ->].
Qed.

(** Which lines a reader takes for a boundary: the delimiter, then line
    feeds and tabs, then a carriage return and a line feed.  So a delimiter
    followed by a space is not recognised, and since the line feed itself is
    skipped, no line that ends in a line feed alone ever is: the reader never
    changes to that mode. *)
Theorem boundary_lines {R E} (u : R) boundary n line :
  let r := mkMpReader (E := E) (bufio_NewReader (mkSticky u None)) n [13; 10] (nl_dash_of boundary) (dash_of boundary ++ [45; 45]) (dash_of boundary) in
  exists found, isBoundaryDelimiterLine line r = (found, r) /\
    (found = true <-> exists ws, line = dash_of boundary ++ ws ++ [13; 10] /\ Forall lf_or_tab ws).
Proof.
  intros r. unfold isBoundaryDelimiterLine. cbn [dashBoundary r]. destruct (HasPrefix line (dash_of boundary)) eqn:Ep; cbn [negb].
  2: { exists false. split; [done|]. split; [done|]. intros (ws & -> & _). by rewrite HasPrefix_self in Ep. }
  apply HasPrefix_iff in Ep as [t ->]. rewrite drop_app_length. destruct (skipLWSPChar_spec t) as (ws & Et & Hws).
  assert (skipLWSPChar t <> [10]) as Hno.
  { intros H. assert (forall b x l, skipLWSPChar b = x :: l -> ~ lf_or_tab x) as Hhd.
    { clear. induction b as [|c b IH]; intros x l; cbn [skipLWSPChar]; [done|]. destruct ((c =? 10) || (c =? 9)) eqn:Ec; [by apply IH|]. intros [= <- _]. unfold lf_or_tab. apply orb_false_iff in Ec as [?%Z.eqb_neq ?%Z.eqb_neq]. lia. }
    apply (Hhd _ _ _ H). by left. }
  rewrite (bool_decide_eq_false_2 (skipLWSPChar t = [10])), andb_false_r by done. eexists. split; [reflexivity|]. rewrite bool_decide_eq_true. cbn [nl r]. split.
  - intros H. exists ws. rewrite Et at 1. by rewrite H.
  - intros (ws' & H & Hws'). apply app_inv_head in H. rewrite H. apply skipLWSPChar_app; [done|]. unfold lf_or_tab. lia.
Qed.

(** A boundary right behind the header of a part is taken for its body when
    only a piece of it has arrived: the scan answers that every byte of a
    proper piece is data, so an empty part is not seen as empty. *)
Theorem cut_boundary_is_data {E} boundary p q total :
  good_boundary boundary -> p <> [] -> q <> [] -> dash_of boundary = p ++ q ->
  scanUntilBoundary (E := E) p (dash_of boundary) (nl_dash_of boundary) total None = Ok (len p, None).
Proof.
  intros (_ & _ & H13 & _) Hp Hq Hd. assert (HasPrefix p (dash_of boundary) = false) as Hpre.
  { apply not_true_is_false. intros [t Ht]%HasPrefix_iff. apply (f_equal length) in Ht, Hd. rewrite length_app in Ht, Hd. destruct q; [done|]. cbn [length] in Hd. lia. }
  assert (13 ∉ p) as Hp13. { intros Hin. assert (13 ∉ dash_of boundary) as Hno by (unfold dash_of; set_solver). apply Hno. rewrite Hd. apply elem_of_app. by left. }
  unfold scanUntilBoundary. rewrite Hpre, andb_false_r. unfold scan_search. destruct (Index p (nl_dash_of boundary)) eqn:Ei.
  { apply Index_some in Ei as (l & t & -> & _). exfalso. apply Hp13. unfold nl_dash_of. set_solver. }
  unfold scan_partial. destruct (HasPrefix (nl_dash_of boundary) p) eqn:Eh.
  { apply HasPrefix_iff in Eh as [t Et]. destruct p as [|b p]; [done|]. injection Et as <- _. exfalso. apply Hp13. apply list_elem_of_here. }
  unfold nl_dash_of at 1. destruct (LastIndexByte p 13) eqn:El; [|done]. apply LastIndexByte_some in El as (l & t & -> & _). exfalso. apply Hp13. set_solver.
Qed.

Lemma cut_boundary_is_data_witness : scanUntilBoundary (E := Empty_set) [45; 45] [45; 45; 98] [13; 10; 45; 45; 98] 0 None = Ok (2, None).
Proof. apply (cut_boundary_is_data [98] [45; 45] [98] 0); [|done..]. pose proof buf_size. split; [done|]. split; [set_solver|]. split; [set_solver|]. cbn. lia. Defined.

(** ** The names of a part *)

Lemma Base_no_slash path : 47 ∉ Base path \/ Base path = [47].
Proof.
  unfold Base. destruct path as [|b path]; [left; set_solver|]. set (p := rev _). destruct (LastIndexByte p 47) as [i|] eqn:Ei.
  - apply LastIndexByte_some in Ei as (l & r & -> & <- & Hr). replace (drop (S (length l)) (l ++ 47 :: r)) with r; [destruct r; [by right|by left]|].
    rewrite drop_app_ge by lia. by replace (S (length l) - length l)%nat with 1%nat by lia.
  - apply LastIndexByte_none in Ei. destruct p; [by right|by left].
Qed.

Lemma parse_once_ok `{UnicodeLower, RangeOrder} {E} (p : Part E) :
  exists p' m, parse_once p = (Ok tt, p') /\ dispositionParams p' = Some m.
Proof.
  unfold parse_once. erewrite bind_ok by reflexivity. destruct (dispositionParams p) as [m|] eqn:Em; [by exists p, m|]. unfold parseContentDisposition.
  destruct (ParseMediaType_total (Get (Header_ p) (str "Content-Disposition"))) as (mt & params & err & -> & Hcase). destruct err as [e|]; [by do 2 eexists|].
  destruct Hcase as [_ Hp]. destruct params as [m|]; [by do 2 eexists|done].
Qed.

(** C39: The names of a part can always be asked for, whatever its
    Content-Disposition header: [FormName] and [FileName] return without a
    panic and, however often they are called and in whatever order, with the
    same answers, as the header is parsed once; a file name has no slash, so
    it names no directory, unless it is a slash alone. *)
Theorem part_names `{UnicodeLower, RangeOrder} {E} (p : Part E) :
  exists form file p', FormName p = (Ok form, p') /\ FileName p = (Ok file, p') /\ FormName p' = (Ok form, p') /\ FileName p' = (Ok file, p') /\
    (47 ∉ file \/ file = [47]).
Proof.
  destruct (parse_once_ok p) as (p' & m & Ep & Em). assert (parse_once p' = (Ok tt, p')) as Ep'.
  { unfold parse_once. erewrite bind_ok by reflexivity. by rewrite Em. }
  assert (forall q, parse_once q = (Ok tt, p') ->
    FormName q = (Ok (if negb (bool_decide (disposition p' = str "form-data")) then [] else param_value (Some m) (str "name")), p') /\
    FileName q = (Ok (match param_value (Some m) (str "filename") with [] => [] | b :: s => Base (b :: s) end), p')) as Hq.
  { intros q Eq. unfold FormName, FileName. rewrite !(bind_ok _ _ _ _ _ Eq). erewrite !bind_ok by reflexivity. rewrite Em. split; [by destruct (negb _)|by destruct (param_value _ _)]. }
  destruct (Hq p Ep) as [H1 H2], (Hq p' Ep') as [H3 H4]. eexists _, _, p'. split; [exact H1|]. split; [exact H2|]. split; [exact H3|]. split; [exact H4|].
  destruct (param_value (Some m) (str "filename")); [left; apply not_elem_of_nil|apply Base_no_slash].
Qed.

(** ** Forms *)

(** The sum saturates at both ends. *)
Theorem maxValueBytes_saturates m : - 2 ^ 63 <= m < 2 ^ 63 -> maxValueBytes m = Z.max 0 (Z.min (m + 10 * 2 ^ 20) (2 ^ 63 - 1)).
Proof.
  intros Hm. unfold maxValueBytes. change (Z.shiftl 10 20) with 10485760. change (10 * 2 ^ 20) with 10485760. destruct (Z.leb_spec (m + 10485760) (2 ^ 63 - 1)) as [Hle|Hgt].
  - replace (i64 (m + 10485760)) with (m + 10485760) by (unfold i64; rewrite Z.mod_small; lia). destruct (Z.leb_spec (m + 10485760) 0), (Z.ltb_spec m 0); lia.
  - replace (i64 (m + 10485760)) with (m + 10485760 - 2 ^ 64) by (unfold i64; replace (m + 10485760 + 2 ^ 63) with (m + 10485760 - 2 ^ 63 + 1 * 2 ^ 64) by lia; rewrite Z.mod_add, Z.mod_small; lia).
    destruct (Z.leb_spec (m + 10485760 - 2 ^ 64) 0), (Z.ltb_spec m 0); lia.
Qed.

Definition tmpfiles (l : list FileHeader) : list bytes := filter (fun name => name <> []) (map tmpfile l).
Fixpoint first_error {Err} (l : list (option Err)) : option Err :=
  match l with [] => None | None :: l => first_error l | e :: _ => e end.

Section Form.
Context {RO : RangeOrder} {Err : Type} (os_Remove : bytes -> option Err).

Lemma remove_file_all l : forall removed err,
  fold_left (remove_file os_Remove) l (removed, err) = (removed ++ tmpfiles l, first_error (err :: map os_Remove (tmpfiles l))).
Proof.
  induction l as [|fh l IH]; intros removed err; cbn [fold_left]; [by rewrite app_nil_r; destruct err|]. unfold tmpfiles, remove_file at 2. cbn [map].
  destruct (tmpfile fh) as [|b name]; rewrite IH.
  - by rewrite filter_cons_False by (intros H; by apply H).
  - rewrite filter_cons_True by done. fold (tmpfiles l). rewrite <- app_assoc. cbn [map first_error]. destruct err; [done|]. by destruct (os_Remove _).
Qed.

Lemma tmpfiles_app l1 l2 : tmpfiles (l1 ++ l2) = tmpfiles l1 ++ tmpfiles l2.
Proof. unfold tmpfiles. by rewrite map_app, list.filter_app. Qed.

(** [RemoveAll] asks for every temporary file to be removed, whatever fails on
    the way, and reports an error exactly when a removal failed: the first one. *)
Theorem RemoveAll_removes File :
  RemoveAll os_Remove File = (tmpfiles (concat (map snd (range File))), first_error (map os_Remove (tmpfiles (concat (map snd (range File)))))).
Proof.
  unfold RemoveAll. change [] with (tmpfiles []) at 1. assert (forall l l0, fold_left (fun st kv => fold_left (remove_file os_Remove) (snd kv) st) l (tmpfiles l0, first_error (map os_Remove (tmpfiles l0))) =
    (tmpfiles (l0 ++ concat (map snd l)), first_error (map os_Remove (tmpfiles (l0 ++ concat (map (snd (A:=bytes)) l)))))) as H.
  { induction l as [|[k fhs] l IH]; intros l0; cbn [fold_left map concat snd]; [by rewrite app_nil_r|]. rewrite remove_file_all. rewrite app_assoc, <- IH. f_equal. rewrite tmpfiles_app, map_app. f_equal.
    induction (map os_Remove (tmpfiles l0)) as [|[e|] l1 IH1]; [done..|exact IH1]. }
  exact (H (range File) []).
Qed.
End Form.
