(* ===== verification/EncodedWord.v ===== *)
(** * Encoded words

    [src/http/mime/encodedword.go]: [WordEncoder] and [WordDecoder] (RFC 2047). *)
From S2P Require Import Prelude Httpguts GoStrings Mime.

Local Open Scope Z_scope.
Local Open Scope go_scope.

(** ** [WordEncoder] *)

(** The encoding is the byte that is written. *)
Definition BEncoding : Z := 98.
Definition QEncoding : Z := 113.
Definition maxEncodedWordLen : Z := 75.
Definition maxContentLen : Z := maxEncodedWordLen - len (str "=?UTF-8?q?") - len (str "?=").
Definition maxBase64Len : Z := base64_DecodedLen maxContentLen.

Definition isUTF8 (charset : bytes) : bool := EqualFold charset (str "UTF-8").
Definition openWord (e : Z) (charset : bytes) : bytes := str "=?" ++ charset ++ [63; e; 63].
Definition closeWord : bytes := str "?=".
Definition splitWord (e : Z) (charset : bytes) : bytes := closeWord ++ [32] ++ openWord e charset.

(** The byte as it is, except for reserved characters. *)
Definition q_raw (b : Z) : bool := (33 <=? b) && (b <=? 126) && negb (b =? 61) && negb (b =? 63) && negb (b =? 95).
Fixpoint writeQString (s : bytes) : bytes :=
  match s with
  | [] => []
  | b :: s =>
      (if b =? 32 then [95] else if q_raw b then [b] else [61; upperhex_at (Z.shiftr b 4); upperhex_at (Z.land b 0x0F)]) ++ writeQString s
  end.

(** The loop of [bEncode]: [s\[last:i\]] is not yet written. *)
Fixpoint bEncode_loop (fuel : nat) (e : Z) (charset s : bytes) (i last : nat) (currentLen : Z) : res Empty_set bytes :=
  if (i <? length s)%nat then
    match fuel with
    | O => NoFuel
    | S fuel =>
        let runeLen := rune_len (drop i s) in
        if currentLen + Z.of_nat runeLen <=? maxBase64Len then bEncode_loop fuel e charset s (i + runeLen) last (currentLen + Z.of_nat runeLen)
        else
          let? rest := bEncode_loop fuel e charset s (i + runeLen) i (Z.of_nat runeLen) in
          Ok (base64_encode (drop last (take i s)) ++ splitWord e charset ++ rest)
    end
  else Ok (base64_encode (drop last s)).

Definition bEncode (fuel : nat) (e : Z) (charset s : bytes) : res Empty_set bytes :=
  if negb (isUTF8 charset) || (base64_EncodedLen (len s) <=? maxContentLen) then Ok (base64_encode s)
  else bEncode_loop fuel e charset s 0 0 0.

(** The loop of [qEncode]: the rune is decoded from what comes before [i]. *)
Fixpoint qEncode_loop (fuel : nat) (e : Z) (charset s : bytes) (i : nat) (currentLen : Z) : res Empty_set bytes :=
  match drop i s with
  | [] => Ok []
  | b :: _ =>
      match fuel with
      | O => NoFuel
      | S fuel =>
          let '(runeLen, encLen) :=
            (if (32 <=? b) && (b <=? 126) && negb (b =? 61) && negb (b =? 63) && negb (b =? 95) then (1%nat, 1)
             else let runeLen := rune_len (take i s) in (runeLen, 3 * Z.of_nat runeLen)) in
          let '(split, currentLen) := (if maxContentLen <? currentLen + encLen then (splitWord e charset, 0) else ([], currentLen)) in
          let? rest := qEncode_loop fuel e charset s (i + runeLen) (currentLen + encLen) in
          Ok (split ++ writeQString (take runeLen (drop i s)) ++ rest)
      end
  end.

Definition qEncode (fuel : nat) (e : Z) (charset s : bytes) : res Empty_set bytes :=
  if negb (isUTF8 charset) then Ok (writeQString s) else qEncode_loop fuel e charset s 0 0.

Definition encodeWord (fuel : nat) (e : Z) (charset s : bytes) : res Empty_set bytes :=
  let? text := (if e =? BEncoding then bEncode fuel e charset s else qEncode fuel e charset s) in
  Ok (openWord e charset ++ text ++ closeWord).

Definition Encode (fuel : nat) (e : Z) (charset s : bytes) : res Empty_set bytes :=
  if negb (needsEncoding s) then Ok s else encodeWord fuel e charset s.

(** ** [WordDecoder] *)

Inductive word_error (E : Type) : Type :=
  | InvalidWord
  | InvalidHexByte (b : Z)
  | CorruptInput
  | UnhandledCharset (charset : bytes)
  | CharsetError (e : E).
Arguments InvalidWord {E}.
Arguments InvalidHexByte {E} b.
Arguments CorruptInput {E}.
Arguments UnhandledCharset {E} charset.
Arguments CharsetError {E} e.

Definition fromHex {E} (b : Z) : res (word_error E) Z :=
  if (48 <=? b) && (b <=? 57) then Ok (b - 48)
  else if (65 <=? b) && (b <=? 70) then Ok (b - 65 + 10)
  else if (97 <=? b) && (b <=? 102) then Ok (b - 97 + 10)
  else Err (InvalidHexByte b).
Definition readHexByte {E} (a b : Z) : res (word_error E) Z :=
  let? hb := fromHex a in let? lb := fromHex b in Ok (Z.lor (u8 (Z.shiftl hb 4)) lb).

Fixpoint qDecode {E} (s : bytes) : res (word_error E) bytes :=
  match s with
  | [] => Ok []
  | c :: s =>
      if c =? 95 then let? dec := qDecode s in Ok (32 :: dec)
      else if c =? 61 then
        match s with
        | x :: y :: s => let? b := readHexByte x y in let? dec := qDecode s in Ok (b :: dec)
        | _ => Err InvalidWord
        end
      else if (32 <=? c) && (c <=? 126) || (c =? 10) || (c =? 13) || (c =? 9) then let? dec := qDecode s in Ok (c :: dec)
      else Err InvalidWord
  end.

Definition decode {E} (encoding : Z) (text : bytes) : res (word_error E) bytes :=
  if (encoding =? 66) || (encoding =? 98) then match base64_decode text with Some s => Ok s | None => Err CorruptInput end
  else if (encoding =? 81) || (encoding =? 113) then qDecode text
  else Err InvalidWord.

Definition hasNonWhitespace (s : bytes) : bool :=
  existsb (fun b => negb ((b =? 32) || (b =? 9) || (b =? 10) || (b =? 13))) (runes s).

Section WordDecoder.
Context {UL : UnicodeLower} {E : Type}.
(** [CharsetReader]: everything the reader it returns yields, or an error; and
    [nil]. *)
Variable CharsetReader : option (bytes -> bytes -> res E bytes).

(** What [convert] appends to the buffer. *)
Definition convert (charset content : bytes) : res (word_error E) bytes :=
  if EqualFold (str "utf-8") charset then Ok content
  else if EqualFold (str "iso-8859-1") charset then Ok (concat (map encode_rune content))
  else if EqualFold (str "us-ascii") charset then
    Ok (concat (map (fun c => if 0x80 <=? c then encode_rune RuneError else [c]) content))
  else
    match CharsetReader with
    | None => Err (UnhandledCharset charset)
    | Some f =>
        match f (ToLower charset) content with
        | Ok s => Ok s
        | Err e => Err (CharsetError e)
        | Panic s => Panic s
        | NoFuel => NoFuel
        end
    end.

Definition Decode (word : bytes) : res (word_error E) bytes :=
  if (len word <? 8) || negb (HasPrefix word (str "=?")) || negb (HasSuffix word (str "?=")) || negb (Count word 63 =? 4) then Err InvalidWord
  else
    let word := drop 2 (take (length word - 2) word) in
    let '(charset, text, _) := Cut 63 word in
    match charset with
    | [] => Err InvalidWord
    | _ =>
        let '(encoding, text, _) := Cut 63 text in
        match encoding with
        | [encoding] => let? content := decode encoding text in convert charset content
        | _ => Err InvalidWord
        end
    end.

(** The loop of [DecoderHeader]: the decoded rest of [header], with the write of
    what is left over. *)
Fixpoint header_loop (fuel : nat) (header : bytes) (betweenWords : bool) : res (word_error E) bytes :=
  match fuel with
  | O => NoFuel
  | S fuel =>
      match Index header (str "=?") with
      | None => Ok header
      | Some start =>
          let cur := (start + 2)%nat in
          match Index (drop cur header) (str "?") with
          | None => Ok header
          | Some i =>
              let charset := take i (drop cur header) in
              let cur := (cur + i + 1)%nat in
              if (length header <? cur + 4)%nat then Ok header
              else
                let encoding := nth cur header 0 in
                let cur := S cur in
                if negb (nth cur header 0 =? 63) then Ok header
                else
                  let cur := S cur in
                  match Index (drop cur header) (str "?=") with
                  | None => Ok header
                  | Some j =>
                      let text := take j (drop cur header) in
                      let end_ := (cur + j + 2)%nat in
                      match @decode E encoding text with
                      | Err _ =>
                          let? rest := header_loop fuel (drop (start + 2) header) false in
                          Ok (take (start + 2) header ++ rest)
                      | Ok content =>
                          let before := if (0 <? start)%nat && (negb betweenWords || hasNonWhitespace (take start header)) then take start header else [] in
                          let? converted := convert charset content in
                          let? rest := header_loop fuel (drop end_ header) true in
                          Ok (before ++ converted ++ rest)
                      | Panic s => Panic s
                      | NoFuel => NoFuel
                      end
                  end
          end
      end
  end.

Definition DecoderHeader (header : bytes) : res (word_error E) bytes :=
  match Index header (str "=?") with
  | None => Ok header
  | Some i =>
      let? rest := header_loop (S (length header)) (drop i header) false in
      Ok (take i header ++ rest)
  end.

End WordDecoder.
