(* ===== verification/EncodedWordProps.v ===== *)
(** * Encoded words: what is encoded is decoded

    Both encodings give their text back, a header of encoded words is decoded
    to the string they were made of, and the words keep to their length limit.
    The Q encoder of the code does not return when the first byte has to be
    escaped. *)
From S2P Require Import Prelude Httpguts GoStrings Mime EncodedWord.

Local Open Scope Z_scope.
Local Open Scope go_scope.

(** ** The Q encoding *)

Definition q_char {E} (b : Z) : Prop :=
  forall s, @qDecode E ((if b =? 32 then [95] else if q_raw b then [b] else [61; upperhex_at (Z.shiftr b 4); upperhex_at (Z.land b 0x0F)]) ++ s) =
    let? dec := qDecode s in Ok (b :: dec).

Lemma readHexByte_hex {E} b : is_byte b -> @readHexByte E (upperhex_at (Z.shiftr b 4)) (upperhex_at (Z.land b 0x0F)) = Ok b.
Proof.
  intros Hb. assert ((match @readHexByte E (upperhex_at (Z.shiftr b 4)) (upperhex_at (Z.land b 0x0F)) with Ok c => c =? b | _ => false end) = true) as H.
  { check_bytes (fun b => match @readHexByte E (upperhex_at (Z.shiftr b 4)) (upperhex_at (Z.land b 0x0F)) with Ok c => c =? b | _ => false end) b. }
  destruct (readHexByte _ _); try done. apply Z.eqb_eq in H. by subst.
Qed.

Lemma qDecode_char {E} b : is_byte b -> @q_char E b.
Proof.
  intros Hb s. destruct (Z.eqb_spec b 32) as [->|H32]; [done|]. destruct (q_raw b) eqn:Hr.
  - unfold q_raw in Hr. bool_to_Prop. cbn [app qDecode]. rewrite (proj2 (Z.eqb_neq b 95)), (proj2 (Z.eqb_neq b 61)) by done.
    rewrite (proj2 (Z.leb_le 32 b)), (proj2 (Z.leb_le b 126)) by lia. done.
  - cbn [app qDecode Z.eqb Pos.eqb]. by rewrite readHexByte_hex.
Qed.

Lemma qDecode_write {E} s : is_bytes s -> @qDecode E (writeQString s) = Ok s.
Proof.
  induction s as [|b s IH]; intros Hs; [done|]. apply is_bytes_cons in Hs as [Hb Hs]. cbn [writeQString]. rewrite qDecode_char by done. by rewrite IH.
Qed.

Lemma writeQString_app s1 s2 : writeQString (s1 ++ s2) = writeQString s1 ++ writeQString s2.
Proof. induction s1 as [|b s1 IH]; cbn [writeQString app]; [done|]. by rewrite IH, <- app_assoc. Qed.
Lemma writeQString_text s : is_bytes s -> forallb text_char (writeQString s) = true.
Proof.
  induction s as [|b s IH]; intros Hs; [done|]. apply is_bytes_cons in Hs as [Hb Hs]. cbn [writeQString]. rewrite forallb_app, IH, andb_true_r by done.
  check_bytes (fun b => forallb text_char (if b =? 32 then [95] else if q_raw b then [b] else [61; upperhex_at (Z.shiftr b 4); upperhex_at (Z.land b 0x0F)])) b.
Qed.
Lemma writeQString_length s : len (writeQString s) <= 3 * len s.
Proof.
  induction s as [|b s IH]; cbn [writeQString]; [done|]. rewrite len_app, len_cons. destruct (b =? 32); [|destruct (q_raw b)]; unfold len at 1; cbn [length]; lia.
Qed.

(** ** A word *)

Definition word_text (e : Z) (p : bytes) : bytes := if e =? BEncoding then base64_encode p else writeQString p.
Definition encoding_ok (e : Z) : Prop := e = BEncoding \/ e = QEncoding.

Lemma decode_word_text {E} e p : encoding_ok e -> is_bytes p -> @decode E e (word_text e p) = Ok p.
Proof.
  intros [-> | ->] Hp; unfold decode, word_text; cbn [BEncoding QEncoding Z.eqb Pos.eqb orb].
  - by rewrite base64_decode_encode.
  - by apply qDecode_write.
Qed.
Lemma word_text_chars e p : is_bytes p -> forallb text_char (word_text e p) = true.
Proof. intros Hp. unfold word_text. destruct (_ =? _); [by apply (base64_text (length p))|by apply writeQString_text]. Qed.

Lemma Index_here s sub : HasPrefix s sub = true -> Index s sub = Some 0%nat.
Proof. intros H. destruct s; cbn [Index]; by rewrite H. Qed.
Lemma Index_skip p s sub c sub' : sub = c :: sub' -> c ∉ p -> Index (p ++ s) sub = (fun k => length p + k)%nat <$> Index s sub.
Proof.
  intros -> Hp. induction p as [|b p IH]; cbn [app length]; [by destruct (Index s _)|]. apply not_elem_of_cons in Hp as [Hb Hp]. cbn [Index HasPrefix].
  destruct (Z.eqb_spec b c); [done|]. cbn [andb]. rewrite IH by done. by destruct (Index s _).
Qed.
Lemma text_no_question p : forallb text_char p = true -> 63 ∉ p.
Proof. rewrite forallb_forall. intros H Hin%list_elem_of_In. by specialize (H _ Hin). Qed.

(** The words that are still to come, each with the space before it. *)
Definition more_words (e : Z) (charset : bytes) (ps : list bytes) : bytes :=
  concat (map (fun p => [32] ++ openWord e charset ++ word_text e p ++ closeWord) ps).

Lemma more_words_cons e charset p ps : more_words e charset (p :: ps) = [32] ++ openWord e charset ++ word_text e p ++ closeWord ++ more_words e charset ps.
Proof. unfold more_words. cbn [map concat]. by rewrite <- !app_assoc. Qed.

Section Decoding.
Context {UL : UnicodeLower} {E : Type}.
Variable CharsetReader : option (bytes -> bytes -> res E bytes).

(** One turn of the loop of [DecoderHeader]; [pre] is a space between two
    words. *)
Lemma header_loop_word fuel e charset p pre rest between :
  encoding_ok e -> 63 ∉ charset -> is_bytes p -> (pre = [] \/ pre = [32] /\ between = true) ->
  header_loop CharsetReader (S fuel) (pre ++ openWord e charset ++ word_text e p ++ closeWord ++ rest) between =
    let? converted := convert CharsetReader charset p in
    let? rest := header_loop CharsetReader fuel rest true in Ok (converted ++ rest).
Proof.
  intros He Hcs Hp Hpre. set (text := word_text e p). pose proof (text_no_question _ (word_text_chars e p Hp)) as Hq. fold text in Hq.
  assert (61 ∉ pre) as Hpre61 by (destruct Hpre as [-> | [-> _]]; [apply not_elem_of_nil|by intros ?%list_elem_of_singleton]).
  set (tail := charset ++ [63; e; 63] ++ text ++ closeWord ++ rest).
  assert (pre ++ openWord e charset ++ text ++ closeWord ++ rest = pre ++ [61; 63] ++ tail) as -> by (unfold tail, openWord; rewrite <- !app_assoc; reflexivity).
  cbn [header_loop]. change (str "=?") with [61; 63]. rewrite (Index_skip pre _ [61; 63] 61 [63]) by done. rewrite Index_here by reflexivity. cbn [fmap option_fmap option_map].
  rewrite Nat.add_0_r. assert (forall n, drop (length pre + 2 + n) (pre ++ [61; 63] ++ tail) = drop n tail) as Hdrop.
  { intros n. rewrite app_assoc, drop_app_ge by (rewrite length_app; cbn; lia). f_equal. rewrite length_app. cbn. lia. }
  pose proof (Hdrop 0%nat) as H0. rewrite Nat.add_0_r, drop_0 in H0. rewrite H0.
  assert (Index tail (str "?") = Some (length charset)) as ->.
  { unfold tail. change (str "?") with [63]. rewrite (Index_skip charset _ [63] 63 []) by done. rewrite Index_here by reflexivity. cbn. f_equal. lia. }
  assert (take (length charset) tail = charset) as -> by (unfold tail; apply take_app_length).
  assert (drop (length charset + 1) tail = [e; 63] ++ text ++ closeWord ++ rest) as Htail.
  { unfold tail. rewrite drop_app_ge by lia. by replace (length charset + 1 - length charset)%nat with 1%nat by lia. }
  assert (forall k d, nth (length pre + 2 + length charset + 1 + k) (pre ++ [61; 63] ++ tail) d = nth k ([e; 63] ++ text ++ closeWord ++ rest) d) as Hnth.
  { intros k d. rewrite <- Htail, <- (Hdrop (length charset + 1)%nat). rewrite !nth_lookup, lookup_drop. f_equal. f_equal. lia. }
  pose proof (Hnth 0%nat 0) as He0. rewrite Nat.add_0_r in He0. rewrite He0. pose proof (Hnth 1%nat 0) as He1. rewrite Nat.add_1_r in He1. rewrite He1. cbn [app nth].
  rewrite (proj2 (Nat.ltb_ge _ _)).
  2: { pose proof (f_equal length (Hdrop (length charset + 1)%nat)) as Hl. rewrite Htail, length_drop, !length_app in Hl. cbn [length app] in *. rewrite !length_app in *. cbn [length closeWord] in *.
       change (length closeWord) with 2%nat in Hl. lia. }
  cbn [Z.eqb Pos.eqb negb].
  assert (drop (S (S (length pre + 2 + length charset + 1))) (pre ++ 61 :: 63 :: tail) = text ++ closeWord ++ rest) as ->.
  { change (pre ++ 61 :: 63 :: tail) with (pre ++ [61; 63] ++ tail). replace (S (S (length pre + 2 + length charset + 1)))%nat with (length pre + 2 + (length charset + 1 + 2))%nat by lia. rewrite Hdrop.
    rewrite <- drop_drop, Htail. reflexivity. }
  assert (Index (text ++ closeWord ++ rest) (str "?=") = Some (length text)) as ->.
  { change (str "?=") with [63; 61]. rewrite (Index_skip text _ [63; 61] 63 [61]) by done. rewrite Index_here by reflexivity. cbn. f_equal. lia. }
  rewrite take_app_length. unfold text at 1. rewrite decode_word_text by done.
  assert ((if (0 <? length pre)%nat && (negb between || hasNonWhitespace (take (length pre) (pre ++ 61 :: 63 :: tail))) then take (length pre) (pre ++ 61 :: 63 :: tail) else []) = []) as ->.
  { destruct Hpre as [-> | [-> ->]]; reflexivity. }
  assert (drop (S (S (length pre + 2 + length charset + 1)) + length text + 2) (pre ++ 61 :: 63 :: tail) = rest) as ->.
  { change (pre ++ 61 :: 63 :: tail) with (pre ++ [61; 63] ++ tail).
    replace (S (S (length pre + 2 + length charset + 1)) + length text + 2)%nat with (length pre + 2 + (length charset + 1 + (2 + (length text + 2))))%nat by lia. rewrite Hdrop.
    rewrite <- drop_drop, Htail. rewrite <- drop_drop. cbn [app drop]. rewrite drop_0, drop_app_ge by lia. by replace (length text + 2 - length text)%nat with 2%nat by lia. }
  reflexivity.
Qed.

(** A header that is a sequence of words. *)
Lemma header_loop_words e charset ps : forall fuel, (length ps < fuel)%nat -> encoding_ok e -> 63 ∉ charset ->
  (forall p, convert CharsetReader charset p = Ok p) -> Forall is_bytes ps ->
  header_loop CharsetReader fuel (more_words e charset ps) true = Ok (concat ps).
Proof.
  intros fuel Hf He Hcs Hconv Hps. revert fuel Hf. induction Hps as [|p ps Hp Hps IH]; intros fuel Hf; (destruct fuel as [|fuel]; [cbn in Hf; lia|]); [done|].
  rewrite more_words_cons.
  rewrite header_loop_word by (done || by right). rewrite Hconv. cbn [res_bind length] in *. rewrite IH by lia. done.
Qed.

Lemma length_more_words e charset ps : (length ps <= length (more_words e charset ps))%nat.
Proof. induction ps as [|p ps IH]; cbn [length]; [lia|]. rewrite more_words_cons, length_app. cbn [length]. rewrite !length_app. lia. Qed.

Definition word (e : Z) (charset p : bytes) : bytes := openWord e charset ++ word_text e p ++ closeWord.

Lemma DecoderHeader_words e charset p ps : encoding_ok e -> 63 ∉ charset -> (forall p, convert CharsetReader charset p = Ok p) -> Forall is_bytes (p :: ps) ->
  DecoderHeader CharsetReader (word e charset p ++ more_words e charset ps) = Ok (p ++ concat ps).
Proof.
  intros He Hcs Hconv Hps. apply List.Forall_cons_iff in Hps as [Hp Hps]. unfold DecoderHeader.
  rewrite Index_here by reflexivity. rewrite take_0, drop_0. unfold word. rewrite <- !app_assoc. 
  pose proof (fun fuel => header_loop_word fuel e charset p [] (more_words e charset ps) false He Hcs Hp (or_introl eq_refl)) as H.
  cbn [app] in H. rewrite H, Hconv. cbn [res_bind]. rewrite header_loop_words; [done| |done..].
  pose proof (length_more_words e charset ps). unfold openWord. rewrite !length_app. change (length (str "=?")) with 2%nat. lia.
Qed.
End Decoding.

(** ** The encoders *)

Lemma rune_len_le s : (rune_len s <= length s)%nat /\ (rune_len s <= 4)%nat /\ (s <> [] -> (0 < rune_len s)%nat).
Proof.
  unfold rune_len. destruct s as [|b s]; [split; [cbn; lia|split; [lia|done]]|]. unfold decode_rune. assert (forall n : nat, (n <= length (b :: s))%nat -> (0 < n <= 4)%nat -> (n <= length (b :: s))%nat /\ (n <= 4)%nat /\ (b :: s <> [] -> (0 < n)%nat)) as H by (intros n H1 H2; split; [lia|split; [lia|intros _; lia]]). repeat case_match; apply H; cbn [snd length]; lia.
Qed.
Lemma rune_len_ascii b s : b < 128 -> rune_len (b :: s) = 1%nat.
Proof. intros Hb. unfold rune_len, decode_rune. by rewrite (proj2 (Z.ltb_lt b 0x80)) by lia. Qed.

(** The texts of the words, with what is between them. *)
Definition joined (e : Z) (charset : bytes) (p : bytes) (ps : list bytes) : bytes :=
  word_text e p ++ concat (map (fun p => splitWord e charset ++ word_text e p) ps).

Lemma joined_words e charset p ps : openWord e charset ++ joined e charset p ps ++ closeWord = word e charset p ++ more_words e charset ps.
Proof.
  unfold joined, word, more_words. rewrite <- !app_assoc. do 2 f_equal. induction ps as [|p' ps IH]; cbn [map concat]; [done|].
  rewrite <- !app_assoc. rewrite IH. unfold splitWord. by rewrite <- !app_assoc.
Qed.

Definition short (e : Z) (p : bytes) : Prop := len (word_text e p) <= maxContentLen.
Lemma base64_short p : len p <= maxBase64Len -> short BEncoding p.
Proof.
  intros Hp. unfold short, word_text. cbn [BEncoding Z.eqb Pos.eqb]. rewrite (base64_length (length p)) by done. unfold base64_EncodedLen.
  change maxBase64Len with 45 in Hp. change maxContentLen with 63. pose proof (len_nonneg p). zdiv_lia.
Qed.

Lemma bEncode_loop_ok charset s fuel : forall i last cur, (last <= i <= length s)%nat -> cur = Z.of_nat (i - last) -> cur <= maxBase64Len -> (length s <= i + fuel)%nat ->
  exists p ps, bEncode_loop fuel BEncoding charset s i last cur = Ok (joined BEncoding charset p ps) /\ p ++ concat ps = drop last s /\ Forall (short BEncoding) (p :: ps).
Proof.
  induction fuel as [|fuel IH]; intros i last cur Hi Hcur Hmax Hf; cbn [bEncode_loop]; destruct (Nat.ltb_spec i (length s)) as [Hlt|Hge]; try lia.
  1, 3: exists (drop last s), []; unfold joined; cbn [map concat]; rewrite !app_nil_r; (split; [done|]); (split; [done|]); constructor; [|constructor];
    apply base64_short; unfold len; rewrite length_drop; lia.
  set (n := rune_len (drop i s)). assert (0 < n <= 4 /\ i + n <= length s)%nat as [Hn Hin].
  { unfold n. destruct (rune_len_le (drop i s)) as (Hl & H4 & Hp). rewrite length_drop in Hl. split; [|lia]. split; [|lia]. apply Hp. intros E. apply (f_equal length) in E. rewrite length_drop in E. cbn in E. lia. }
  clearbody n. change maxBase64Len with 45 in *. destruct (Z.leb_spec (cur + Z.of_nat n) 45) as [Hle|Hgt].
  - apply IH; lia.
  - destruct (IH (i + n)%nat i (Z.of_nat n)) as (p & ps & -> & Ep & Hs); [lia|f_equal; lia|lia|lia|]. cbn [res_bind].
    exists (drop last (take i s)), (p :: ps). split; [unfold joined; cbn [map concat]; by rewrite <- !app_assoc|]. split.
    + cbn [concat]. rewrite Ep. rewrite <- (take_drop i s) at 3. rewrite drop_app_le; [done|]. rewrite length_take. lia.
    + constructor; [|done]. apply base64_short. change maxBase64Len with 45. unfold len. rewrite length_drop, length_take. lia.
Qed.

Lemma bEncode_ok charset s fuel : isUTF8 charset = true -> (length s <= fuel)%nat ->
  exists p ps, bEncode fuel BEncoding charset s = Ok (joined BEncoding charset p ps) /\ p ++ concat ps = s /\ Forall (short BEncoding) (p :: ps).
Proof.
  intros Hu Hf. unfold bEncode. rewrite Hu. cbn [negb orb]. destruct (Z.leb_spec (base64_EncodedLen (len s)) maxContentLen) as [Hle|Hgt].
  - exists s, []. unfold joined. cbn [map concat]. rewrite !app_nil_r. split; [done|]. split; [done|]. constructor; [|constructor].
    unfold short, word_text. cbn [BEncoding Z.eqb Pos.eqb]. by rewrite (base64_length (length s)).
  - destruct (bEncode_loop_ok charset s fuel 0 0 0) as (p & ps & E & Ep & Hs); [lia|done|done|lia|]. by exists p, ps.
Qed.

(** The Q encoder is only sure to go on when the first byte of the string needs
    no escape: the rune before [i] that it looks at is then one byte long. *)
Definition q_plain (b : Z) : bool := (32 <=? b) && (b <=? 126) && negb (b =? 61) && negb (b =? 63) && negb (b =? 95).

Lemma qEncode_loop_ok charset b s fuel : q_plain b = true -> forall i cur, (length (b :: s) <= i + fuel)%nat -> 0 <= cur <= maxContentLen ->
  exists p ps, qEncode_loop fuel QEncoding charset (b :: s) i cur = Ok (joined QEncoding charset p ps) /\ p ++ concat ps = drop i (b :: s) /\
    len (writeQString p) <= maxContentLen - cur /\ Forall (short QEncoding) ps.
Proof.
  intros Hb. change maxContentLen with 63. induction fuel as [|fuel IH]; intros i cur Hf Hcur; cbn [qEncode_loop]; destruct (drop i (b :: s)) as [|c t] eqn:Ed.
  1, 3: exists [], []; split; [done|]; split; [done|]; split; [change (len (writeQString [])) with 0; lia|constructor].
  { apply (f_equal length) in Ed. rewrite length_drop in Ed. cbn [length] in *. lia. }
  match goal with |- context [if ?q then (1%nat, 1) else ?z] => set (x := if q then (1%nat, 1) else z) end. assert (exists n, x = (1%nat, n) /\ len (writeQString [c]) <= n /\ 0 <= n <= 3) as (n & Ex & Hwc & Hn).
  { unfold x. pose proof (writeQString_length [c]) as Hw. change (len [c]) with 1 in Hw. destruct ((32 <=? c) && (c <=? 126) && negb (c =? 61) && negb (c =? 63) && negb (c =? 95)) eqn:Hc.
    - exists 1. split; [done|]. split; [|lia]. cbn [writeQString]. rewrite app_nil_r. destruct (c =? 32) eqn:H32; [done|]. unfold q_raw.
      bool_to_Prop. rewrite (proj2 (Z.leb_le 33 c)), (proj2 (Z.leb_le c 126)), (proj2 (Z.eqb_neq c 61)), (proj2 (Z.eqb_neq c 63)), (proj2 (Z.eqb_neq c 95)) by lia. done.
    - destruct i as [|i]; [cbn in Ed; injection Ed as -> ->; unfold q_plain in Hb; congruence|]. cbn [take]. rewrite rune_len_ascii; [|unfold q_plain in Hb; bool_to_Prop; lia].
      exists 3. split; [done|]. lia. }
  rewrite Ex. clear x Ex. assert (drop (i + 1) (b :: s) = t) as Et by (rewrite <- drop_drop, Ed; done). cbn [take]. change (take 0 t) with (@nil Z).
  change maxContentLen with 63 at 1. destruct (Z.ltb_spec 63 (cur + n)); cbv iota beta.
  - destruct (IH (i + 1)%nat (0 + n)) as (p & ps & -> & Ep & Hl & Hs); [lia|lia|]. cbn [res_bind]. rewrite Et in Ep. exists [], ((c :: p) :: ps).
    split; [|split; [cbn [concat app]; by rewrite Ep|split; [change (len (writeQString [])) with 0; lia|]]].
    + unfold joined, word_text at 3. cbn [QEncoding BEncoding Z.eqb Pos.eqb app map concat]. unfold joined, word_text. cbn [QEncoding BEncoding Z.eqb Pos.eqb].
      change (c :: p) with ([c] ++ p). rewrite (writeQString_app [c] p), <- !app_assoc. done.
    + constructor; [|done]. unfold short, word_text. cbn [QEncoding BEncoding Z.eqb Pos.eqb]. change (c :: p) with ([c] ++ p). rewrite (writeQString_app [c] p), len_app.
      change maxContentLen with 63. lia.
  - destruct (IH (i + 1)%nat (cur + n)) as (p & ps & -> & Ep & Hl & Hs); [lia|lia|]. cbn [res_bind app]. rewrite Et in Ep. exists (c :: p), ps.
    split; [|split; [cbn [app]; by rewrite Ep|split; [|done]]].
    + unfold joined, word_text at 1 3. cbn [QEncoding BEncoding Z.eqb Pos.eqb]. change (c :: p) with ([c] ++ p). rewrite (writeQString_app [c] p), <- app_assoc. done.
    + change (c :: p) with ([c] ++ p). rewrite (writeQString_app [c] p), len_app. lia.
Qed.

(** When [Encode] gets past its first byte. *)
Definition can_start (e : Z) (s : bytes) : Prop :=
  e = BEncoding \/ e = QEncoding /\ match s with b :: _ => q_plain b = true | [] => False end.

Lemma Encode_words e charset s fuel : can_start e s -> isUTF8 charset = true -> needsEncoding s = true -> (length s <= fuel)%nat ->
  exists p ps, Encode fuel e charset s = Ok (word e charset p ++ more_words e charset ps) /\ p ++ concat ps = s /\ Forall (short e) (p :: ps).
Proof.
  intros He Hu Hn Hf. unfold Encode, encodeWord. rewrite Hn. cbn [negb].
  assert (exists p ps, (if e =? BEncoding then bEncode fuel e charset s else qEncode fuel e charset s) = Ok (joined e charset p ps) /\ p ++ concat ps = s /\ Forall (short e) (p :: ps)) as (p & ps & -> & Ep & Hs).
  { destruct He as [-> | [-> Hs]]; cbn [BEncoding QEncoding Z.eqb Pos.eqb].
    - by apply bEncode_ok.
    - destruct s as [|b s]; [done|]. unfold qEncode. rewrite Hu. cbn [negb].
      destruct (qEncode_loop_ok charset b s fuel Hs 0 0) as (p & ps & E & Ep & Hl & Hs'); [done|by vm_compute|]. exists p, ps. split; [done|]. split; [done|].
      constructor; [|done]. unfold short, word_text. cbn [QEncoding BEncoding Z.eqb Pos.eqb]. lia. }
  exists p, ps. split; [|done]. cbn [res_bind]. by rewrite joined_words.
Qed.

Lemma convert_utf8 `{UnicodeLower} {E} (CharsetReader : option (bytes -> bytes -> res E bytes)) charset p : isUTF8 charset = true -> convert CharsetReader charset p = Ok p.
Proof.
  unfold isUTF8, convert, EqualFold. intros Hu%bool_decide_eq_true. rewrite bool_decide_true; [done|]. rewrite Hu. by vm_compute.
Qed.

(** C18: A string that needs encoding, turned into encoded words of a UTF-8
    charset by [Encode] (in base64; in the Q encoding when its first byte needs
    no escape) is what [DecoderHeader] makes of the result, however many words
    it took and wherever the cuts are; the loops of both end. *)
Theorem encoded_words_roundtrip `{UnicodeLower} {E} (CharsetReader : option (bytes -> bytes -> res E bytes)) e charset s :
  can_start e s -> isUTF8 charset = true -> 63 ∉ charset -> is_bytes s -> needsEncoding s = true ->
  exists w, Encode (length s) e charset s = Ok w /\ DecoderHeader CharsetReader w = Ok s.
Proof.
  intros He Hu Hcs Hs Hn. destruct (Encode_words e charset s (length s) He Hu Hn) as (p & ps & -> & Ep & _); [done|]. eexists. split; [done|].
  rewrite DecoderHeader_words; [by rewrite Ep|destruct He as [-> | [-> _]]; [by left|by right]|done|intros x; by apply convert_utf8|].
  apply List.Forall_forall. intros x Hx. assert (x ⊆ s) as Hsub.
  { rewrite <- Ep. destruct Hx as [<- |Hx]; intros y Hy; apply elem_of_app; [by left|right]. apply list_elem_of_In, in_concat. exists x. split; [done|by apply list_elem_of_In]. }
  unfold is_bytes in *. rewrite Forall_forall in Hs |- *. intros y Hy. apply Hs. apply list_elem_of_In, Hsub. by apply list_elem_of_In.
Qed.

(** "a ée", and 80 bytes in base64. *)
Lemma encoded_words_roundtrip_witness :
  let UL := ascii_letters in
  (exists w, Encode 5 QEncoding (str "utf-8") [97; 32; 195; 169; 101] = Ok w /\ DecoderHeader (E := Empty_set) None w = Ok [97; 32; 195; 169; 101]) /\
  exists w, Encode 80 BEncoding (str "UTF-8") (replicate 80 200) = Ok w /\ DecoderHeader (E := Empty_set) None w = Ok (replicate 80 200).
Proof.
  intros UL. assert (forall cs, cs = str "utf-8" \/ cs = str "UTF-8" -> 63 ∉ cs) as Hq.
  { intros cs Hcs Hin. apply list_elem_of_In in Hin. destruct Hcs as [-> | ->]; vm_compute in Hin; naive_solver. }
  split.
  - apply (encoded_words_roundtrip None QEncoding (str "utf-8") [97; 32; 195; 169; 101]); [by right|by vm_compute|apply Hq; by left|solve_bytes|by vm_compute].
  - apply (encoded_words_roundtrip None BEncoding (str "UTF-8") (replicate 80 200)); [by left|by vm_compute|apply Hq; by right|solve_bytes|by vm_compute].
Defined.

(** No encoded word of [Encode] is longer than the 75 bytes that RFC 2047
    allows: what it returns for the charset UTF-8 is a sequence of such words
    with a space between two of them. *)
Theorem encoded_words_length e charset s :
  can_start e s -> isUTF8 charset = true -> len charset = 5 -> needsEncoding s = true ->
  exists w ws, Encode (length s) e charset s = Ok (w ++ concat (map (cons 32) ws)) /\ Forall (fun w => len w <= maxEncodedWordLen) (w :: ws).
Proof.
  intros He Hu H5 Hn. destruct (Encode_words e charset s (length s) He Hu Hn) as (p & ps & -> & _ & Hs); [done|].
  exists (word e charset p), (map (word e charset) ps). split.
  - do 2 f_equal. unfold more_words. by rewrite map_map.
  - change (Forall (fun w => len w <= maxEncodedWordLen) (map (word e charset) (p :: ps))). apply List.Forall_map. eapply List.Forall_impl; [|exact Hs].
    intros x Hx. unfold short in Hx. change maxContentLen with 63 in Hx. unfold word, openWord, closeWord, maxEncodedWordLen. rewrite !len_app, H5.
    change (len (str "=?")) with 2. change (len (str "?=")) with 2. change (len [63; e; 63]) with 3. lia.
Qed.

Lemma encoded_words_length_witness :
  exists w ws, Encode 80 BEncoding (str "UTF-8") (replicate 80 200) = Ok (w ++ concat (map (cons 32) ws)) /\ Forall (fun w => len w <= maxEncodedWordLen) (w :: ws).
Proof. apply (encoded_words_length BEncoding (str "UTF-8") (replicate 80 200)); [by left|by vm_compute..]. Defined.

(** C40: [Encode] with the Q encoding and a UTF-8 charset never returns when the
    first byte of the string must be escaped: [qEncode] decodes the rune that
    ends before the current position, finds none at the start, and goes round
    without moving. *)
Theorem Encode_runs_forever charset b s fuel :
  isUTF8 charset = true -> needsEncoding (b :: s) = true -> q_plain b = false ->
  Encode fuel QEncoding charset (b :: s) = NoFuel.
Proof.
  intros Hu Hn Hb. unfold Encode, encodeWord, qEncode. rewrite Hn, Hu. cbn [QEncoding BEncoding Z.eqb Pos.eqb negb].
  enough (qEncode_loop fuel QEncoding charset (b :: s) 0 0 = NoFuel) as E by by rewrite E.
  induction fuel as [|fuel IH]; cbn [qEncode_loop]; rewrite drop_0; [done|]. unfold q_plain in Hb. rewrite Hb. rewrite take_0. cbn [rune_len Z.of_nat Z.mul Z.add Nat.add].
  change (0 + 3 * Z.of_nat 0) with 0. change (maxContentLen <? 0) with false. cbv iota beta. change (0 + 3 * Z.of_nat 0) with 0. by rewrite IH.
Qed.

(** The letter é alone. *)
Lemma Encode_runs_forever_witness : Encode 1000 QEncoding (str "utf-8") [195; 169] = NoFuel.
Proof. apply Encode_runs_forever; by vm_compute. Defined.
