(* ===== verification/HttpServer.v ===== *)
(** * The listening side of the HTTP server

    [src/http/http/server.go]: the listeners and connections a [Server] keeps,
    the states of a connection, and [Serve] up to the connection it tracks.
    Serving a connection is not written in the source.  What the listener
    answers is a script; before each answer somebody may have shut the server
    down.  Sections under [mu] are single steps; pointers are numbers.
    [Http2]: how [src/http2/http2/server.go] configures such a server and keeps
    its own connections. *)
From S2P Require Import Prelude Httpguts GoStrings.
From stdpp Require Import gmap.

Local Open Scope Z_scope.
Local Open Scope go_scope.

(** [ConnState] *)
Definition StateNew : Z := 0.
Definition StateActive : Z := 1.
Definition StateIdle : Z := 2.
Definition StateHijacked : Z := 3.
Definition StateClosed : Z := 4.

(** A map that is nil is [None].  [sleeps] and [closes] record the calls of
    [time.Sleep] and of the listener's [Close]; [conns] numbers the [*conn]. *)
Record Server : Type := mkServer {
  inShutdown : bool;
  listeners : option (gset nat);
  listenerGroup : Z;
  activeConn : option (gset nat);
  curState : gmap nat Z;
  conns : nat;
  sleeps : list Z;
  closes : nat }.
Definition set_inShutdown v s := mkServer v (listeners s) (listenerGroup s) (activeConn s) (curState s) (conns s) (sleeps s) (closes s).
Definition set_listeners v s := mkServer (inShutdown s) v (listenerGroup s) (activeConn s) (curState s) (conns s) (sleeps s) (closes s).
Definition set_listenerGroup v s := mkServer (inShutdown s) (listeners s) v (activeConn s) (curState s) (conns s) (sleeps s) (closes s).
Definition set_activeConn v s := mkServer (inShutdown s) (listeners s) (listenerGroup s) v (curState s) (conns s) (sleeps s) (closes s).
Definition set_curState v s := mkServer (inShutdown s) (listeners s) (listenerGroup s) (activeConn s) v (conns s) (sleeps s) (closes s).
Definition set_conns v s := mkServer (inShutdown s) (listeners s) (listenerGroup s) (activeConn s) (curState s) v (sleeps s) (closes s).
Definition set_sleeps v s := mkServer (inShutdown s) (listeners s) (listenerGroup s) (activeConn s) (curState s) (conns s) v (closes s).
Definition set_closes v s := mkServer (inShutdown s) (listeners s) (listenerGroup s) (activeConn s) (curState s) (conns s) (sleeps s) v.

#[local] Abbreviation M := (stateful Server Empty_set).

Definition shuttingDown : M bool := fun s => (Ok (inShutdown s), s).

(** [sync.WaitGroup.Add] *)
Definition group_Add (n : Z) : M unit := fun s =>
  if listenerGroup s + n <? 0 then (Panic "sync: negative WaitGroup counter", s) else (Ok tt, set_listenerGroup (listenerGroup s + n) s).

Definition trackListener (ln : nat) (add : bool) : M bool :=
  st_mod (fun s => match listeners s with None => set_listeners (Some ∅) s | Some _ => s end) ;;;
  if add then
    let* down := shuttingDown in
    if down : bool then st_ret false
    else
      st_mod (fun s => set_listeners (option_map (fun m => {[ln]} ∪ m) (listeners s)) s) ;;;
      group_Add 1 ;;;
      st_ret true
  else
    st_mod (fun s => set_listeners (option_map (fun m => m ∖ {[ln]}) (listeners s)) s) ;;;
    group_Add (-1) ;;;
    st_ret true.

Definition trackConn (c : nat) (add : bool) : M unit :=
  st_mod (fun s => match activeConn s with None => set_activeConn (Some ∅) s | Some _ => s end) ;;;
  if add then st_mod (fun s => set_activeConn (option_map (fun m => {[c]} ∪ m) (activeConn s)) s)
  else st_mod (fun s => set_activeConn (option_map (fun m => m ∖ {[c]}) (activeConn s)) s).

(** [readHeaderTimeout] of the fields [ReadHeaderTimeout] and [ReadTimeout]. *)
Definition readHeaderTimeout (ReadHeaderTimeout ReadTimeout : Z) : Z :=
  if negb (ReadHeaderTimeout =? 0) then ReadHeaderTimeout else ReadTimeout.

(** The word that holds the time and the state. *)
Definition packState (now state : Z) : Z := Z.lor (u64 (Z.shiftl now 8)) (u64 state).

(** [setState]; the hook of the user is not modelled. *)
Definition setState (c : nat) (state now : Z) : M unit :=
  (if state =? StateNew then trackConn c true
   else if (state =? StateHijacked) || (state =? StateClosed) then trackConn c false
   else st_ret tt) ;;;
  if (255 <? state) || (state <? 0) then st_lift (Panic "internal error")
  else st_mod (fun s => set_curState (<[c := packState now state]> (curState s)) s).

Definition newConn : M nat := fun s => (Ok (conns s), set_conns (S (conns s)) s).

(** ** Closing once *)

Section Once.
Context {E : Type}.
Record onceCloseListener : Type := mkOnce { once : bool; closeErr : option E }.
(** The answer, the listener, and whether the one below was closed; [below] is
    what its [Close] answers. *)
Definition once_Close (below : option E) (oc : onceCloseListener) : option E * onceCloseListener * bool :=
  if once oc then (closeErr oc, oc, false) else (below, mkOnce true below, true).
End Once.

(** ** [Serve] *)

Definition Millisecond : Z := 1000000.
Definition Second : Z := 1000 * Millisecond.

(** The delay after another temporary error. *)
Definition next_delay (tempDelay : Z) : Z :=
  let tempDelay := if tempDelay =? 0 then 5 * Millisecond else i64 (tempDelay * 2) in
  if Second <? tempDelay then Second else tempDelay.

Inductive accept_result : Type :=
  | Accepted (now : Z)
  | AcceptError (temporary : bool).
(** How [Serve] ends; [Serving] when the script does. *)
Inductive serve_result : Type :=
  | ErrServerClosed
  | ListenerError
  | NilContext
  | Serving.

Section Serve.
(** Whether [BaseContext] and [ConnContext] answer with a context, when set. *)
Variables BaseContext ConnContext : option bool.

Definition is_nil (f : option bool) : bool := match f with Some false => true | _ => false end.

Fixpoint accept_loop (script : list (bool * accept_result)) (tempDelay : Z) : M serve_result :=
  match script with
  | [] => st_ret Serving
  | (down, r) :: script =>
      st_mod (fun s => set_inShutdown (inShutdown s || down) s) ;;;
      match r with
      | AcceptError temporary =>
          let* closed := shuttingDown in
          if closed : bool then st_ret ErrServerClosed
          else if temporary : bool then
            let tempDelay := next_delay tempDelay in
            st_mod (fun s => set_sleeps (sleeps s ++ [tempDelay]) s) ;;;
            accept_loop script tempDelay
          else st_ret ListenerError
      | Accepted now =>
          if is_nil ConnContext then st_ret NilContext
          else
            let* c := newConn in
            setState c StateNew now ;;;
            accept_loop script 0
      end
  end.

(** The deferred calls run however the body ends, also when it panics. *)
Definition Serve (ln : nat) (script : list (bool * accept_result)) : M serve_result :=
  let* tracked := trackListener ln true in
  let close := (let '(_, _, called) := once_Close (E := unit) None (mkOnce false None) in
                if called : bool then st_mod (fun s => set_closes (S (closes s)) s) else st_ret tt) : M unit in
  if negb tracked then close ;;; st_ret ErrServerClosed
  else
    let* r := (if is_nil BaseContext then st_ret NilContext else accept_loop script 0) in
    match r with
    | Serving => st_ret Serving
    | _ => trackListener ln false ;;; close ;;; st_ret r
    end.

End Serve.

(** [ListenAndServe]: [listen] is the answer of [net.Listen]. *)
Definition ListenAndServe BaseContext ConnContext (listen : option nat) (script : list (bool * accept_result)) : M serve_result :=
  let* down := shuttingDown in
  if down : bool then st_ret ErrServerClosed
  else match listen with None => st_ret ListenerError | Some ln => Serve BaseContext ConnContext ln script end.

Fixpoint strSliceContains (ss : list (list Z)) (s : list Z) : bool :=
  match ss with [] => false | v :: ss => if bool_decide (v = s) then true else strSliceContains ss s end.
(** The protocols of the TLS configuration, when there is one. *)
Definition shouldConfigureHTTP2ForServer (NextProtos : option (list (list Z))) : bool :=
  match NextProtos with None => true | Some ps => strSliceContains ps (str "h2") end.

(** ** Proofs *)

(** The sleeps that a script asks for, from the delay [d] on. *)
Fixpoint delays (script : list (bool * accept_result)) (d : Z) : list Z :=
  match script with
  | (_, AcceptError _) :: script => next_delay d :: delays script (next_delay d)
  | (_, Accepted _) :: script => delays script 0
  | [] => []
  end.
(** The [k]-th delay of a run of errors. *)
Definition backoff (k : nat) : Z := Z.min (5 * Millisecond * 2 ^ Z.of_nat k) Second.

Lemma next_delay_0 : next_delay 0 = backoff 0.
Proof. by vm_compute. Qed.
Lemma next_delay_backoff k : next_delay (backoff k) = backoff (S k).
Proof.
  unfold backoff. replace (Z.of_nat (S k)) with (Z.of_nat k + 1) by lia. rewrite Z.pow_add_r by lia. change (2 ^ 1) with 2. pose proof (Z.pow_pos_nonneg 2 (Z.of_nat k) ltac:(lia) ltac:(lia)) as Hp.
  unfold next_delay, Second, Millisecond. set (p := 2 ^ Z.of_nat k) in *. destruct (Z.eqb_spec (Z.min (5 * 1000000 * p) (1000 * 1000000)) 0); [lia|]. rewrite i64_small by lia. destruct (Z.ltb_spec (1000 * 1000000) (Z.min (5 * 1000000 * p) (1000 * 1000000) * 2)); lia.
Qed.

(** The word of a connection gives its state and time back. *)
Lemma packState_unpack now state : 0 <= now < 2 ^ 55 -> 0 <= state <= 255 -> Z.land (packState now state) 255 = state /\ Z.shiftr (packState now state) 8 = now.
Proof.
  intros Hn Hs. unfold packState. rewrite Z.shiftl_mul_pow2 by lia. rewrite !u64_small by lia. rewrite <- Z.shiftl_mul_pow2 by lia.
  split; apply Z.bits_inj'; intros i Hi.
  - change 255 with (Z.ones 8). rewrite Z.land_spec, Z.lor_spec, Z.shiftl_spec by done. destruct (decide (i < 8)).
    + rewrite (Z.testbit_neg_r now), orb_false_l, Z.ones_spec_low, andb_true_r by lia. done.
    + rewrite Z.ones_spec_high, andb_false_r by lia. symmetry. apply Z.bits_above_log2; [lia|]. destruct (decide (state = 0)) as [->|]; [cbn; lia|].
      apply Z.log2_lt_pow2; [lia|]. pose proof (Z.pow_le_mono_r 2 8 i ltac:(lia) ltac:(lia)). lia.
  - rewrite Z.shiftr_spec, Z.lor_spec, Z.shiftl_spec by lia. replace (i + 8 - 8) with i by lia. assert (Z.testbit state (i + 8) = false) as ->; [|by rewrite orb_false_r].
    apply Z.bits_above_log2; [lia|]. destruct (decide (state = 0)) as [->|]; [cbn; lia|]. apply Z.log2_lt_pow2; [lia|]. pose proof (Z.pow_le_mono_r 2 8 (i + 8) ltac:(lia) ltac:(lia)). lia.
Qed.

(** What the server keeps of the connections [Serve] has accepted. *)
Definition tracked s s' : Prop :=
  (conns s <= conns s')%nat /\ default ∅ (activeConn s) ⊆ default ∅ (activeConn s') /\ (forall c, (c < conns s)%nat -> curState s' !! c = curState s !! c) /\
  forall c, (conns s <= c < conns s')%nat -> c ∈ default ∅ (activeConn s') /\ exists w, curState s' !! c = Some w /\ Z.land w 255 = StateNew.
Definition same_listeners s s' : Prop := listeners s' = listeners s /\ listenerGroup s' = listenerGroup s /\ closes s' = closes s.
Definition good_times (script : list (bool * accept_result)) : Prop := Forall (fun x => match snd x with Accepted now => 0 <= now < 2 ^ 55 | AcceptError _ => True end) script.

Lemma tracked_same s s' : conns s' = conns s -> activeConn s' = activeConn s -> curState s' = curState s -> tracked s s'.
Proof. intros H1 H2 H3. unfold tracked. rewrite H1, H2, H3. split; [done|]. split; [done|]. split; [done|]. lia. Qed.

Lemma trackConn_add c s : trackConn c true s = (Ok tt, set_activeConn (Some ({[c]} ∪ default ∅ (activeConn s))) s).
Proof. destruct s as [? ? ? [m|] ? ? ? ?]; reflexivity. Qed.
Lemma setState_new c now s : setState c StateNew now s =
  (Ok tt, set_curState (<[c := packState now StateNew]> (curState s)) (set_activeConn (Some ({[c]} ∪ default ∅ (activeConn s))) s)).
Proof. unfold setState. cbn [StateNew Z.eqb]. rewrite (bind_ok _ _ _ _ _ (trackConn_add c s)). reflexivity. Qed.
Lemma trackListener_add ln s : inShutdown s = false -> 0 <= listenerGroup s ->
  trackListener ln true s = (Ok true, set_listenerGroup (listenerGroup s + 1) (set_listeners (Some ({[ln]} ∪ default ∅ (listeners s))) s)).
Proof.
  intros Hd Hg. unfold trackListener. destruct s as [d l g ? ? ? ? ?]. cbn in Hd, Hg. subst d. unfold st_bind, st_mod, shuttingDown, group_Add. destruct l as [m|]; cbn; (destruct (Z.ltb_spec (g + 1) 0); [lia|done]).
Qed.
Lemma trackListener_down ln s : inShutdown s = true -> trackListener ln true s = (Ok false, set_listeners (Some (default ∅ (listeners s))) s).
Proof. intros Hd. unfold trackListener. destruct s as [d [m|] g ? ? ? ? ?]; cbn in Hd; subst d; reflexivity. Qed.
Lemma trackListener_remove ln s : 1 <= listenerGroup s ->
  trackListener ln false s = (Ok true, set_listenerGroup (listenerGroup s - 1) (set_listeners (Some (default ∅ (listeners s) ∖ {[ln]})) s)).
Proof.
  intros Hg. unfold trackListener. destruct s as [d l g ? ? ? ? ?]. cbn in Hg. unfold st_bind, st_mod, group_Add. destruct l as [m|]; cbn; (destruct (Z.ltb_spec (g + -1) 0); [lia|done]).
Qed.

Section Proofs.
Variables BaseContext ConnContext : option bool.

Lemma accept_loop_ok script : forall d s, good_times script -> exists r s', accept_loop ConnContext script d s = (Ok r, s') /\ same_listeners s s' /\ tracked s s'.
Proof.
  induction script as [|[down res] script IH]; intros d s Ht; cbn [accept_loop].
  { exists Serving, s. split; [done|]. split; [done|]. by apply tracked_same. }
  apply List.Forall_cons_iff in Ht as [Hnow Ht]. cbn [snd] in Hnow. erewrite bind_ok by reflexivity. set (s0 := set_inShutdown _ s). assert (same_listeners s s0 /\ tracked s s0) as [Hl0 Ht0].
  { split; [by repeat split|by apply tracked_same]. }
  destruct res as [now|temporary].
  - destruct (is_nil ConnContext); [by exists NilContext, s0|]. erewrite bind_ok by reflexivity. rewrite (bind_ok _ _ _ _ _ (setState_new _ _ _)).
    match goal with |- context [accept_loop _ script 0 ?t] => set (s1 := t) end. destruct (IH 0 s1 Ht) as (r & s' & Er & (H1 & H2 & H3) & (Hc & Ha & Hk & Htr)). exists r, s'. split; [exact Er|].
    assert (conns s1 = S (conns s) /\ default ∅ (activeConn s1) = {[conns s]} ∪ default ∅ (activeConn s) /\ curState s1 !! conns s = Some (packState now 0)) as (Ec & Ea & Ecs).
    { split; [done|]. split; [done|]. unfold s1. cbn. by rewrite lookup_insert_eq. }
    assert (same_listeners s s1) as (H4 & H5 & H6) by done.
    split; [split; [by rewrite H1|]; split; [by rewrite H2|by rewrite H3]|]. split; [lia|]. split; [rewrite Ea in Ha; set_solver|]. split.
    { intros c Hcc. rewrite Hk by lia. unfold s1. cbn. by rewrite lookup_insert_ne by lia. }
    intros c Hcc. destruct (decide (c = conns s)) as [->|]; [|apply Htr; lia]. rewrite Ea in Ha. split; [set_solver|]. rewrite Hk by lia. exists (packState now 0). split; [done|].
    by apply packState_unpack.
  - erewrite bind_ok by reflexivity. destruct (inShutdown s0); [by exists ErrServerClosed, s0|]. destruct temporary; [|by exists ListenerError, s0]. erewrite bind_ok by reflexivity.
    match goal with |- context [accept_loop _ script _ ?t] => set (s1 := t) end. destruct (IH (next_delay d) s1 Ht) as (r & s' & Er & Hl & Htr). exists r, s'. by split.
Qed.

(** C20: [Serve] leaves the server as it found it.  Whatever the listener
    answers, whenever the server is shut down, and also when a context is nil
    and it panics: once it ends, its listener is closed exactly once and no
    longer tracked, and the wait group is back where it was; until then the
    listener is tracked and open.  Every accepted connection is tracked, in
    the state [StateNew]. *)
Theorem Serve_cleans_up ln script s :
  good_times script -> ln ∉ default ∅ (listeners s) -> 0 <= listenerGroup s ->
  exists r s', Serve BaseContext ConnContext ln script s = (Ok r, s') /\ tracked s s' /\
    (r = Serving /\ listeners s' = Some ({[ln]} ∪ default ∅ (listeners s)) /\ listenerGroup s' = listenerGroup s + 1 /\ closes s' = closes s \/
     r <> Serving /\ listeners s' = Some (default ∅ (listeners s)) /\ listenerGroup s' = listenerGroup s /\ closes s' = S (closes s)).
Proof.
  intros Ht Hln Hg. unfold Serve. destruct (inShutdown s) eqn:Ed.
  - rewrite (bind_ok _ _ _ _ _ (trackListener_down ln s Ed)). cbn [negb once_Close once]. erewrite bind_ok by reflexivity. eexists ErrServerClosed, _. split; [reflexivity|].
    split; [by apply tracked_same|]. by right.
  - rewrite (bind_ok _ _ _ _ _ (trackListener_add ln s Ed Hg)). cbn [negb once_Close once]. set (s1 := set_listenerGroup _ _).
    assert (exists r s2, (if is_nil BaseContext then st_ret NilContext else accept_loop ConnContext script 0) s1 = (Ok r, s2) /\ same_listeners s1 s2 /\ tracked s1 s2) as (r & s2 & Er & (Hl2 & Hg2 & Hc2) & Htr).
    { destruct (is_nil BaseContext); [|by apply accept_loop_ok]. exists NilContext, s1. split; [done|]. split; [by repeat split|by apply tracked_same]. }
    rewrite (bind_ok _ _ _ _ _ Er). assert (r = Serving \/ r <> Serving) as [->|Hne] by (destruct r; by (left + right)).
    + exists Serving, s2. split; [done|]. split; [exact Htr|]. left. by rewrite Hl2, Hg2, Hc2.
    + assert (1 <= listenerGroup s2) as Hg1 by (rewrite Hg2; unfold s1; cbn; lia).
      exists r. eexists. split; [destruct r; [..|by destruct Hne]; rewrite (bind_ok _ _ _ _ _ (trackListener_remove ln s2 Hg1)); erewrite bind_ok by reflexivity; reflexivity|].
      split; [exact Htr|]. right. split; [done|]. cbn [listeners listenerGroup closes set_closes set_listenerGroup set_listeners]. rewrite Hl2, Hg2, Hc2. unfold s1. cbn.
      split; [f_equal; set_solver|]. split; [lia|done].
Qed.

(** A run of temporary errors: the sleeps double from 5 ms up to a second. *)
Theorem accept_backoff ln k s : ln ∉ default ∅ (listeners s) -> 0 <= listenerGroup s -> inShutdown s = false -> is_nil BaseContext = false ->
  exists s', Serve BaseContext ConnContext ln (replicate k (false, AcceptError true)) s = (Ok Serving, s') /\ sleeps s' = sleeps s ++ map backoff (seq 0 k).
Proof.
  intros Hln Hg Hd Hb. unfold Serve. rewrite (bind_ok _ _ _ _ _ (trackListener_add ln s Hd Hg)). cbn [negb once_Close once]. rewrite Hb.
  assert (forall k i d s, inShutdown s = false -> next_delay d = backoff i -> exists s', accept_loop ConnContext (replicate k (false, AcceptError true)) d s = (Ok Serving, s') /\ sleeps s' = sleeps s ++ map backoff (seq i k)) as Hloop.
  { clear. induction k as [|k IH]; intros i d s Hd Hn; cbn [replicate accept_loop seq map]; [exists s; by rewrite app_nil_r|]. erewrite bind_ok by reflexivity. erewrite bind_ok by reflexivity. cbn [inShutdown set_inShutdown]. rewrite Hd. cbn [orb].
    erewrite bind_ok by reflexivity. rewrite Hn. match goal with |- context [accept_loop _ _ _ ?t] => destruct (IH (S i) (backoff i) t) as (s' & Er & Es) end; [done|apply next_delay_backoff|].
    exists s'. split; [exact Er|]. rewrite Es. cbn. by rewrite <- app_assoc. }
  destruct (Hloop k 0%nat 0 (set_listenerGroup (listenerGroup s + 1) (set_listeners (Some ({[ln]} ∪ default ∅ (listeners s))) s)) Hd next_delay_0) as (s' & Er & Es).
  exists s'. by rewrite (bind_ok _ _ _ _ _ Er).
Qed.
End Proofs.

(** Two connections, a temporary error, then a shutdown. *)
Lemma Serve_cleans_up_witness :
  let s := mkServer false None 0 None ∅ 0 [] 0 in
  let script := [(false, Accepted 1700000000); (false, AcceptError true); (false, Accepted 1700000001); (true, AcceptError true)] in
  exists r s', Serve None (Some true) 7 script s = (Ok r, s') /\ tracked s s' /\
    (r = Serving /\ listeners s' = Some ({[7%nat]} ∪ default ∅ (listeners s)) /\ listenerGroup s' = listenerGroup s + 1 /\ closes s' = closes s \/
     r <> Serving /\ listeners s' = Some (default ∅ (listeners s)) /\ listenerGroup s' = listenerGroup s /\ closes s' = S (closes s)).
Proof. apply Serve_cleans_up; [repeat constructor; cbn; lia|cbn; set_solver|cbn; lia]. Defined.

(** ** Connections that log *)

(** [newLoggingConn]: the name of the connection, and [uniqNameNext]. *)
Definition newLoggingConn (baseName : bytes) (next : gmap bytes nat) : bytes * gmap bytes nat :=
  let n := S (default 0%nat (next !! baseName)) in
  (baseName ++ str "-" ++ decimal n, <[baseName := n]> next).
Fixpoint newLoggingConns (names : list bytes) (next : gmap bytes nat) : list bytes :=
  match names with
  | [] => []
  | b :: names => let '(name, next) := newLoggingConn b next in name :: newLoggingConns names next
  end.

Lemma decimal_no_dash fuel : forall n acc, 0 <= n -> 45 ∉ acc -> 45 ∉ decimal_loop fuel n acc.
Proof.
  induction fuel as [|fuel IH]; intros n acc Hn Ha; cbn [decimal_loop]; [done|].
  assert (45 ∉ n mod 10 + 48 :: acc) as H by (rewrite not_elem_of_cons; split; [zdiv_lia|done]).
  destruct (_ =? 0); [exact H|]. apply IH; [by apply Z.div_pos|exact H].
Qed.

(** The last dash. *)
Lemma last_dash b1 b2 x1 x2 : 45 ∉ x1 -> 45 ∉ x2 -> b1 ++ 45 :: x1 = b2 ++ 45 :: x2 -> b1 = b2 /\ x1 = x2.
Proof.
  intros H1 H2 H. apply (f_equal reverse) in H. rewrite !reverse_app, !reverse_cons, <- !app_assoc in H. cbn [app] in H.
  assert (forall a b (u v : list Z), 45 ∉ a -> 45 ∉ b -> a ++ 45 :: u = b ++ 45 :: v -> a = b /\ u = v) as Hcut.
  { clear. induction a as [|x a IH]; intros [|y b] u v Ha Hb; cbn [app]; rewrite ?not_elem_of_cons in *.
    - by intros [= ->].
    - intros [= <- _]. by destruct Hb.
    - intros [= -> _]. by destruct Ha.
    - intros [= <- H]. destruct (IH b u v) as [-> ->]; tauto. }
  destruct (Hcut (reverse x1) (reverse x2) (reverse b1) (reverse b2)) as [Hx Hb]; [by rewrite elem_of_reverse..|exact H|].
  split; by apply (inj reverse).
Qed.

Definition conn_name (b : bytes) (n : nat) : bytes := b ++ str "-" ++ decimal n.
Lemma conn_name_inj b1 n1 b2 n2 : conn_name b1 n1 = conn_name b2 n2 -> b1 = b2 /\ n1 = n2.
Proof.
  intros H. apply last_dash in H as [-> H]; [|apply decimal_no_dash; [lia|apply not_elem_of_nil]..]. split; [done|by apply decimal_inj].
Qed.

(** Names are never given twice, whatever base names are asked for. *)
Theorem newLoggingConns_distinct names next : NoDup (newLoggingConns names next).
Proof.
  enough (NoDup (newLoggingConns names next) /\ forall b n, conn_name b n ∈ newLoggingConns names next -> (default 0 (next !! b) < n)%nat) as [H _] by done.
  revert next. induction names as [|b names IH]; intros next; cbn [newLoggingConns newLoggingConn]; [split; [constructor|intros ??; by rewrite elem_of_nil]|].
  destruct (IH (<[b := S (default 0%nat (next !! b))]> next)) as [Hd Hn]. split.
  - constructor; [|done]. intros Hin. apply (Hn b (S _)) in Hin. rewrite lookup_insert_eq in Hin. cbn in Hin. lia.
  - intros b' n. rewrite elem_of_cons. intros [H|H].
    + apply conn_name_inj in H as [-> ->]. lia.
    + apply Hn in H. destruct (decide (b = b')) as [->|]; [rewrite lookup_insert_eq in H; cbn in H; lia|by rewrite lookup_insert_ne in H].
Qed.

(** ** The HTTP/2 server *)

Module Http2.

Record tls_Config : Type := mkTLS { NextProtos : list bytes; PreferServerCipherSuites : bool }.
(** The fields of [http.Server] that are used; of [TLSNextProto], whether it is
    a map. *)
Record http_Server : Type := mkHttp {
  IdleTimeout : Z;
  ReadTimeout : Z;
  TLSConfig : option tls_Config;
  TLSNextProto : bool;
  Handler : option nat }.
(** [state] is the map [activeConns] behind the pointer. *)
Record Server2 : Type := mkServer2 { state : option (gset nat); IdleTimeout2 : Z }.

Definition registerConn (sc : nat) (s : option (gset nat)) : option (gset nat) := option_map (fun m => {[sc]} ∪ m) s.
Definition unregisterConn (sc : nat) (s : option (gset nat)) : option (gset nat) := option_map (fun m => m ∖ {[sc]}) s.

Definition NextProtoTLS : bytes := str "h2".
Definition append_missing (p : bytes) (protos : list bytes) : list bytes := if strSliceContains protos p then protos else protos ++ [p].

Definition ConfigureServer (s : option http_Server) (conf : option Server2) : res Empty_set (http_Server * Server2) :=
  match s with
  | None => Panic "nil *http.Server"
  | Some h1 =>
      let h2 := match conf with None => mkServer2 None 0 | Some c => c end in
      let idle := if IdleTimeout2 h2 =? 0 then if negb (IdleTimeout h1 =? 0) then IdleTimeout h1 else ReadTimeout h1 else IdleTimeout2 h2 in
      let tls := match TLSConfig h1 with None => mkTLS [] false | Some c => c end in
      let protos := append_missing (str "http/1.1") (append_missing NextProtoTLS (NextProtos tls)) in
      Ok (mkHttp (IdleTimeout h1) (ReadTimeout h1) (Some (mkTLS protos true)) true (Handler h1), mkServer2 (Some ∅) idle)
  end.

(** *** The options of [ServeConn] *)

(** Contexts, with the values that are put into them. *)
Inductive key := LocalAddrContextKey | ServerContextKey.
#[export] Instance key_eq_dec : EqDecision key.
Proof. solve_decision. Defined.
Inductive Context := Background | User (c : nat) | WithCancel (c : Context) | WithValue (c : Context) (k : key) (v : nat).
(** [ctx.Value]; a context of the user has none of these keys. *)
Fixpoint Value (c : Context) (k : key) : option nat :=
  match c with
  | Background | User _ => None
  | WithCancel c => Value c k
  | WithValue c k' v => if bool_decide (k = k') then Some v else Value c k
  end.

(** [BaseConfig] is a pointer and the handler of the server there. *)
Record ServeConnOpts : Type := mkOpts { opt_Context : option Context; BaseConfig : option (nat * option nat); opt_Handler : option nat }.

Definition opts_context (o : option ServeConnOpts) : Context :=
  match o with Some o => default Background (opt_Context o) | None => Background end.
(** [fresh] is the next pointer that [new] gives. *)
Definition baseConfig (o : option ServeConnOpts) (fresh : nat) : nat * nat :=
  match o with
  | Some (mkOpts _ (Some (p, _)) _) => (p, fresh)
  | _ => (fresh, S fresh)
  end.
Definition handler (DefaultServeMux : nat) (o : option ServeConnOpts) : nat :=
  match o with
  | Some (mkOpts _ _ (Some h)) => h
  | Some (mkOpts _ (Some (_, Some h)) None) => h
  | _ => DefaultServeMux
  end.

Definition serveConnBaseContext (localAddr : nat) (o : option ServeConnOpts) (fresh : nat) : Context * nat :=
  let ctx := WithValue (WithCancel (opts_context o)) LocalAddrContextKey localAddr in
  let '(hs, fresh) := baseConfig o fresh in
  (WithValue ctx ServerContextKey hs, fresh).

Record serverConn : Type := mkServerConn { hs : nat; baseCtx : Context; sc_handler : nat; streams : gset Z }.
(** The connection as [ServeConn] makes it. *)
Definition new_serverConn (localAddr DefaultServeMux : nat) (o : option ServeConnOpts) (fresh : nat) : serverConn * nat :=
  let '(ctx, fresh) := serveConnBaseContext localAddr o fresh in
  let '(hs, fresh) := baseConfig o fresh in
  (mkServerConn hs ctx (handler DefaultServeMux o) ∅, fresh).

(** [notePanic] deferred: what goes on being thrown. *)
Definition notePanic {X} (testHookOnPanic : option (X -> bool)) (panicking : option X) : option X :=
  match testHookOnPanic with
  | None => panicking
  | Some hook => match panicking with Some e => if hook e then Some e else None | None => None end
  end.

(** *** Proofs *)

Lemma strSliceContains_In ss s : strSliceContains ss s = true <-> s ∈ ss.
Proof.
  induction ss as [|v ss IH]; cbn [strSliceContains]; [split; [done|by rewrite elem_of_nil]|]. rewrite elem_of_cons, <- IH.
  case_bool_decide; [subst; tauto|]. split; [tauto|]. intros [->|]; [done|done].
Qed.
Lemma append_missing_spec p l : exists l', append_missing p l = l ++ l' /\ p ∈ append_missing p l.
Proof.
  unfold append_missing. destruct (strSliceContains l p) eqn:Ec; [exists []|exists [p]]; rewrite ?app_nil_r; (split; [done|]); [by apply strSliceContains_In|]. rewrite elem_of_app, list_elem_of_singleton. by right.
Qed.
Lemma append_missing_in p l : p ∈ l -> append_missing p l = l.
Proof. intros H. apply strSliceContains_In in H. unfold append_missing. by rewrite H. Qed.

(** A configured server offers HTTP/2 and HTTP/1.1 after the protocols it had,
    in their order; configuring it again changes nothing of it. *)
Theorem ConfigureServer_offers s conf : exists s' c' l,
  ConfigureServer (Some s) conf = Ok (s', c') /\ TLSConfig s' = Some (mkTLS l true) /\ str "h2" ∈ l /\ str "http/1.1" ∈ l /\
  (match TLSConfig s with Some c => NextProtos c | None => [] end) `prefix_of` l /\
  (forall conf', exists c2, ConfigureServer (Some s') conf' = Ok (s', c2)).
Proof.
  unfold ConfigureServer. eexists _, _, _. split; [reflexivity|]. cbn [TLSConfig]. split; [reflexivity|].
  set (l0 := NextProtos _). assert (l0 = match TLSConfig s with Some c => NextProtos c | None => [] end) as <- by (unfold l0; by destruct (TLSConfig s)).
  destruct (append_missing_spec NextProtoTLS l0) as (l1 & E1 & H1). destruct (append_missing_spec (str "http/1.1") (append_missing NextProtoTLS l0)) as (l2 & E2 & H2).
  assert (str "h2" ∈ append_missing (str "http/1.1") (append_missing NextProtoTLS l0)) as H3 by (rewrite E2, elem_of_app; by left).
  split; [exact H3|]. split; [exact H2|]. split; [rewrite E2, E1, <- app_assoc; by eexists|].
  intros conf'. cbn [NextProtos IdleTimeout ReadTimeout Handler]. rewrite (append_missing_in NextProtoTLS), (append_missing_in (str "http/1.1")) by done. by eexists.
Qed.

(** Without [BaseConfig] the server in the context of a connection is another
    one than that of the connection. *)
Theorem new_serverConn_server addr mux o fresh : let sc := (new_serverConn addr mux o fresh).1 in
  Value (baseCtx sc) ServerContextKey = Some (hs sc) <-> exists ctx b h, o = Some (mkOpts ctx (Some b) h).
Proof.
  unfold new_serverConn, serveConnBaseContext, baseConfig. destruct o as [[ctx [[p ph]|] h]|]; cbn.
  - split; [|done]. intros _. by do 3 eexists.
  - split; [intros [=]; lia|]. by intros (? & ? & ? & [=]).
  - split; [intros [=]; lia|]. by intros (? & ? & ? & [=]).
Qed.

(** Registering a new connection and, at the end, unregistering it leaves the
    others; a server that was not configured keeps none. *)
Theorem registered_then_not sc s : sc ∉ default ∅ s -> unregisterConn sc (registerConn sc s) = s.
Proof. destruct s as [m|]; [|done]. cbn. intros H. f_equal. set_solver. Qed.
End Http2.
