(* ===== verification/GoTrack.v ===== *)
(** * Goroutine checks

    [src/http2/http2/gotrack.go]: the number of the running goroutine, taken
    from a stack trace, and the lock that checks it.  The trace that
    [runtime.Stack] writes into the 64 bytes is an argument. *)
From S2P Require Import Prelude BufReader GoStrings.

Local Open Scope Z_scope.
Local Open Scope go_scope.

(** [strconv]'s errors. *)
Inductive num_error : Type := ErrSyntax | ErrRange | InvalidBase (base : Z).

Definition cutoff64 (base : Z) : Z := if base <? 2 then 0 else (2 ^ 64 - 1) / base + 1.

(** The digit that a byte is, in any base. *)
Definition digit (d : Z) : option Z :=
  if (48 <=? d) && (d <=? 57) then Some (d - 48)
  else if (97 <=? d) && (d <=? 122) then Some (d - 97 + 10)
  else if (65 <=? d) && (d <=? 90) then Some (d - 65 + 10)
  else None.

Fixpoint parse_loop (base cutoff maxVal n : Z) (s : bytes) : Z * option num_error :=
  match s with
  | [] => (n, None)
  | d :: s =>
      match digit d with
      | None => (0, Some ErrSyntax)
      | Some v =>
          if base <=? v then (0, Some ErrSyntax)
          else if cutoff <=? n then (2 ^ 64 - 1, Some ErrRange)
          else
            let n := u64 (n * base) in
            let n1 := u64 (n + v) in
            if (n1 <? n) || (maxVal <? n1) then (2 ^ 64 - 1, Some ErrRange)
            else parse_loop base cutoff maxVal n1 s
      end
  end.

(** [1<<uint(bitSize) - 1] *)
Definition max_val (bitSize : Z) : Z := u64 ((if (0 <=? bitSize) && (bitSize <? 64) then 2 ^ bitSize else 0) - 1).

(** The base and the digits, when the base is to be found in the string. *)
Definition find_base (s : bytes) : Z * bytes :=
  match s with
  | 48 :: c :: s' => if (c =? 120) || (c =? 88) then (16, s') else (8, s)
  | 48 :: [] => (8, s)
  | _ => (10, s)
  end.

Definition parseUintBytes (s : bytes) (base bitSize : Z) : Z * option num_error :=
  let bitSize := if bitSize =? 0 then 64 else bitSize in
  let digits base s := parse_loop base (cutoff64 base) (max_val bitSize) 0 s in
  match s with
  | [] => (0, Some ErrSyntax)
  | _ =>
      if (2 <=? base) && (base <=? 36) then digits base s
      else if base =? 0 then
        let '(base, s) := find_base s in
        match s with [] => (0, Some ErrSyntax) | _ => digits base s end
      else (0, Some (InvalidBase base))
  end.

Definition goroutineSpace : bytes := str "goroutine ".
(** [bytes.TrimPrefix] *)
Definition TrimPrefix (s p : bytes) : bytes := if HasPrefix s p then drop (length p) s else s.

Definition curGoroutineID (stack : bytes) : res Empty_set Z :=
  let b := TrimPrefix stack goroutineSpace in
  match IndexByte b 32 with
  | None => Panic "No space found"
  | Some i =>
      let '(n, err) := parseUintBytes (take i b) 10 64 in
      match err with Some _ => Panic "Failed to parse goroutine ID" | None => Ok n end
  end.

Section Lock.
Variable DebugGoroutines : bool.

Definition newGoroutineLock (stack : bytes) : res Empty_set Z :=
  if negb DebugGoroutines then Ok 0 else curGoroutineID stack.
Definition check (g : Z) (stack : bytes) : res Empty_set unit :=
  if negb DebugGoroutines then Ok tt
  else let? n := curGoroutineID stack in if negb (n =? g) then Panic "running on the wrong goroutine" else Ok tt.
Definition checkNotOn (g : Z) (stack : bytes) : res Empty_set unit :=
  if negb DebugGoroutines then Ok tt
  else let? n := curGoroutineID stack in if n =? g then Panic "running on the wrong goroutine" else Ok tt.
End Lock.

(** ** Numbers *)

(** The number that digits denote, after [n]; [None] when there is a byte that
    is no digit of the base. *)
Fixpoint value (base n : Z) (s : bytes) : option Z :=
  match s with
  | [] => Some n
  | d :: s =>
      match digit d with
      | Some v => if v <? base then value base (n * base + v) s else None
      | None => None
      end
  end.

Lemma digit_nonneg d v : digit d = Some v -> 0 <= v.
Proof. unfold digit. repeat case_match; intros [= <-]; bool_to_Prop; lia. Qed.
Lemma value_ge base s : 2 <= base -> forall n v, 0 <= n -> value base n s = Some v -> n <= v.
Proof.
  intros Hb. induction s as [|d s IH]; intros n v Hn; cbn [value]; [by intros [= ->]|]. destruct (digit d) as [x|] eqn:Ed; [|done]. apply digit_nonneg in Ed.
  destruct (x <? base); [|done]. intros Hv. specialize (IH (n * base + x) v ltac:(nia) Hv). nia.
Qed.

(** What the loop answers, at a number that fits. *)
Lemma parse_loop_spec base M s : 2 <= base <= 36 -> 0 <= M < 2 ^ 64 -> forall n, 0 <= n <= M ->
  match value base n s with
  | Some v => parse_loop base (cutoff64 base) M n s = if v <=? M then (v, None) else (2 ^ 64 - 1, Some ErrRange)
  | None => exists k e, parse_loop base (cutoff64 base) M n s = (k, Some e)
  end.
Proof.
  intros Hb HM. induction s as [|d s IH]; intros n Hn; cbn [value parse_loop].
  { by destruct (Z.leb_spec n M); [|lia]. }
  destruct (digit d) as [x|] eqn:Ed; [|by do 2 eexists]. pose proof (digit_nonneg _ _ Ed) as Hx. destruct (Z.leb_spec base x) as [Hbx|Hbx], (Z.ltb_spec x base) as [Hxb|Hxb]; try lia; [by do 2 eexists|].
  assert (cutoff64 base = (2 ^ 64 - 1) / base + 1) as Ec by (unfold cutoff64; by destruct (Z.ltb_spec base 2); [lia|]). destruct (Z.leb_spec (cutoff64 base) n) as [Hc|Hc]; rewrite Ec in Hc.
  - destruct (value base (n * base + x) s) as [v|] eqn:Ev; [|by do 2 eexists]. apply value_ge in Ev; [|lia|nia].
    assert (2 ^ 64 <= n * base) by (clear - Hc Hb; zdiv_lia). by destruct (Z.leb_spec v M); [lia|].
  - assert (0 <= n * base < 2 ^ 64) as Hnb by (clear - Hc Hb Hn; zdiv_lia). rewrite (u64_small (n * base)) by done.
    destruct (decide (n * base + x < 2 ^ 64)) as [Hf|Hf].
    + rewrite u64_small by lia. destruct (Z.ltb_spec (n * base + x) (n * base)); [lia|]. cbn [orb]. destruct (Z.ltb_spec M (n * base + x)) as [HM1|HM1].
      * destruct (value base (n * base + x) s) as [v|] eqn:Ev; [|by do 2 eexists]. apply value_ge in Ev; [|lia|nia]. by destruct (Z.leb_spec v M); [lia|].
      * exact (IH (n * base + x) ltac:(lia)).
    + assert (u64 (n * base + x) = n * base + x - 2 ^ 64) as -> by (unfold u64; symmetry; apply (Z.mod_unique_pos _ _ 1); lia).
      destruct (Z.ltb_spec (n * base + x - 2 ^ 64) (n * base)); [|lia]. cbn [orb]. destruct (value base (n * base + x) s) as [v|] eqn:Ev; [|by do 2 eexists].
      apply value_ge in Ev; [|lia|nia]. by destruct (Z.leb_spec v M); [lia|].
Qed.

Lemma max_val_spec bitSize : 1 <= bitSize <= 64 -> max_val bitSize = 2 ^ bitSize - 1 /\ 0 <= max_val bitSize < 2 ^ 64.
Proof.
  intros H. unfold max_val. destruct (Z.leb_spec 0 bitSize); [|lia]. destruct (Z.ltb_spec bitSize 64); cbn [andb].
  - pose proof (Z.pow_le_mono_r 2 1 bitSize ltac:(lia) ltac:(lia)). pose proof (Z.pow_lt_mono_r 2 bitSize 64 ltac:(lia) ltac:(lia) ltac:(lia)). rewrite u64_small; lia.
  - replace bitSize with 64 by lia. split; [by vm_compute|by vm_compute].
Qed.

(** C37: [parseUintBytes] is exact at every width up to 64 bits and in every base
    up to 36: the number that the digits denote when it fits into [bitSize]
    bits, the largest number with [ErrRange] when it does not, however the
    64-bit arithmetic wraps around, and an error when a byte is no digit. *)
Theorem parseUintBytes_exact s base bitSize :
  s <> [] -> 2 <= base <= 36 -> 1 <= bitSize <= 64 ->
  match value base 0 s with
  | Some v => parseUintBytes s base bitSize = if v <? 2 ^ bitSize then (v, None) else (2 ^ 64 - 1, Some ErrRange)
  | None => exists k e, parseUintBytes s base bitSize = (k, Some e)
  end.
Proof.
  intros Hs Hb Hw. unfold parseUintBytes. destruct (Z.eqb_spec bitSize 0); [lia|]. destruct (Z.leb_spec 2 base); [|lia]. destruct (Z.leb_spec base 36); [|lia]. cbn [andb].
  destruct (max_val_spec bitSize Hw) as [EM HM]. pose proof (parse_loop_spec base (max_val bitSize) s Hb HM 0 ltac:(lia)) as Hloop.
  destruct s as [|d s]; [done|]. destruct (value base 0 (d :: s)) as [v|]; [|exact Hloop]. rewrite Hloop, EM. by destruct (Z.leb_spec v (2 ^ bitSize - 1)), (Z.ltb_spec v (2 ^ bitSize)); try lia.
Qed.

(** 2^64 in hexadecimal, one too large; 255 in 8 bits. *)
Lemma parseUintBytes_exact_witness :
  parseUintBytes (str "10000000000000000") 16 64 = (2 ^ 64 - 1, Some ErrRange) /\ parseUintBytes (str "fF") 16 8 = (255, None) /\
  exists k e, parseUintBytes (str "12g") 16 64 = (k, Some e).
Proof.
  split; [exact (parseUintBytes_exact (str "10000000000000000") 16 64 ltac:(done) ltac:(lia) ltac:(lia))|].
  split; [exact (parseUintBytes_exact (str "fF") 16 8 ltac:(done) ltac:(lia) ltac:(lia))|exact (parseUintBytes_exact (str "12g") 16 64 ltac:(done) ltac:(lia) ltac:(lia))].
Defined.

(** ** The lock *)

Definition trace_of (n : nat) (rest : bytes) : bytes := goroutineSpace ++ decimal n ++ 32 :: rest.

Lemma value_decimal s n : Forall (fun b => 48 <= b <= 57) s -> value 10 n s = Some (decimal_value n s).
Proof.
  intros Hs. revert n. induction Hs as [|b s Hb _ IH]; intros n; cbn [value decimal_value]; [done|]. unfold digit. destruct (Z.leb_spec 48 b), (Z.leb_spec b 57); try lia. cbn [andb].
  destruct (Z.ltb_spec (b - 48) 10); [|lia]. apply IH.
Qed.
Lemma curGoroutineID_trace n rest : Z.of_nat n < 2 ^ 64 -> curGoroutineID (trace_of n rest) = Ok (Z.of_nat n).
Proof.
  intros Hn. unfold curGoroutineID, TrimPrefix, trace_of. assert (HasPrefix (goroutineSpace ++ decimal n ++ 32 :: rest) goroutineSpace = true) as -> by done. rewrite drop_app_length.
  pose proof (decimal_digits n) as Hd. assert (forall p s, Forall (fun b => 48 <= b <= 57) p -> IndexByte (p ++ 32 :: s) 32 = Some (length p)) as ->; [| |done].
  { clear. intros p s Hp. induction Hp as [|b p Hb _ IH]; [done|]. cbn [app IndexByte length]. destruct (Z.eqb_spec b 32); [lia|]. by rewrite IH. }
  rewrite take_app_length. assert (decimal n <> []) as Hne.
  { unfold decimal. cbn [decimal_loop]. destruct (_ =? 0); [done|]. rewrite decimal_loop_app. by destruct (decimal_loop n _ []). }
  pose proof (parse_loop_spec 10 (max_val 64) (decimal n) ltac:(lia) ltac:(by vm_compute) 0 ltac:(by vm_compute)) as H. rewrite value_decimal in H by done.
  assert (decimal_value 0 (decimal n) = Z.of_nat n) as Ev by (unfold decimal; apply decimal_loop_value; lia). rewrite Ev in H. unfold parseUintBytes. destruct (decimal n) as [|d s]; [done|].
  cbn [Z.eqb Pos.eqb Z.leb Z.compare Pos.compare Pos.compare_cont andb]. rewrite H. change (max_val 64) with (2 ^ 64 - 1). by destruct (Z.leb_spec (Z.of_nat n) (2 ^ 64 - 1)); [|lia].
Qed.

(** A lock made on goroutine [n] passes [check] on goroutine [n] and panics
    on every other, and [checkNotOn] the other way round, when traces begin as
    the runtime writes them; without debugging nothing is checked. *)
Theorem goroutine_lock debug n m rest1 rest2 : Z.of_nat n < 2 ^ 64 -> Z.of_nat m < 2 ^ 64 ->
  exists g, newGoroutineLock debug (trace_of n rest1) = Ok g /\
    (check debug g (trace_of m rest2) = Ok tt <-> debug = false \/ m = n) /\
    (checkNotOn debug g (trace_of m rest2) = Ok tt <-> debug = false \/ m <> n).
Proof.
  intros Hn Hm. unfold newGoroutineLock, check, checkNotOn. rewrite !curGoroutineID_trace by done. destruct debug; cbn [negb res_bind]; [|exists 0; by repeat split; left].
  exists (Z.of_nat n). split; [done|]. destruct (Z.eqb_spec (Z.of_nat m) (Z.of_nat n)) as [Eq|Hne]; cbn [negb].
  - assert (m = n) as -> by lia. split; (split; [auto|done]) || (split; [done|]; by intros [?|?]).
  - assert (m <> n) by lia. split; (split; [done|by intros [?|?]]) || (split; [auto|done]).
Qed.

Lemma goroutine_lock_witness :
  exists g, newGoroutineLock true (trace_of 47 (str "[running]:")) = Ok g /\
    (check true g (trace_of 5 (str "[running]:")) = Ok tt <-> true = false \/ 5%nat = 47%nat) /\
    (checkNotOn true g (trace_of 5 (str "[running]:")) = Ok tt <-> true = false \/ 5%nat <> 47%nat).
Proof. apply (goroutine_lock true 47 5); lia. Defined.
