(* ===== verification/Http2Types.v ===== *)
(** * HTTP/2 constants, errors and settings

    [src/http2/http2/errors.go], the constants of [src/http2/http2/frame.go]
    and the settings of [src/http2/http2/http2.go]. *)
From stdpp Require Import pretty.
From S2P Require Import Prelude Io.

Local Open Scope Z_scope.

(** ** Error codes *)

Definition ErrCodeNo : Z := 0x0.
Definition ErrCodeProtocol : Z := 0x1.
Definition ErrCodeInternal : Z := 0x2.
Definition ErrCodeFlowControl : Z := 0x3.
Definition ErrCodeSettingsTimeout : Z := 0x4.
Definition ErrCodeStreamClosed : Z := 0x5.
Definition ErrCodeFrameSize : Z := 0x6.
Definition ErrCodeRefusedStream : Z := 0x7.
Definition ErrCodeCancel : Z := 0x8.
Definition ErrCodeCompression : Z := 0x9.
Definition ErrCodeConnect : Z := 0xa.
Definition ErrCodeEnhanceYourCalm : Z := 0xb.
Definition ErrCodeInadequateSecurity : Z := 0xc.
Definition ErrCodeHTTP11Required : Z := 0xd.

(** A map literal as an association list, and its lookup. *)
Fixpoint assoc_lookup {A} (k : Z) (l : list (Z * A)) : option A :=
  match l with
  | [] => None
  | (k', v) :: l => if k =? k' then Some v else assoc_lookup k l
  end.

Definition errCodeName : list (Z * string) := [
  (ErrCodeNo, "NO_ERROR"%string);
  (ErrCodeProtocol, "PROTOCOL_ERROR"%string);
  (ErrCodeInternal, "INTERNAL_ERROR"%string);
  (ErrCodeFlowControl, "FLOW_CONTROL_ERROR"%string);
  (ErrCodeSettingsTimeout, "SETTINGS_TIMEOUT"%string);
  (ErrCodeStreamClosed, "STREAM_CLOSED"%string);
  (ErrCodeFrameSize, "FRAME_SIZE_ERROR"%string);
  (ErrCodeRefusedStream, "REFUSED_STREAM"%string);
  (ErrCodeCancel, "CANCEL"%string);
  (ErrCodeCompression, "COMPRESSION_ERROR"%string);
  (ErrCodeConnect, "CONNECT_ERROR"%string);
  (ErrCodeEnhanceYourCalm, "ENHANCE_YOUR_CALM"%string);
  (ErrCodeInadequateSecurity, "INADEQUATE_SECURITY"%string);
  (ErrCodeHTTP11Required, "HTTP_1_1_REQUIRED"%string)].

(** [%d] of an unsigned integer. *)
Definition decimal (n : Z) : string := pretty (Z.to_N n).

Definition ErrCode_stringToken (e : Z) : string :=
  match assoc_lookup e errCodeName with
  | Some s => s
  | None => "ERR_UNKNOWN_" +:+ decimal e
  end.

(** ** Errors of the package

    [header_error] are the errors that end up as the cause of a [StreamError]
    on a malformed header block. *)
Inductive header_error : Type :=
  | pseudoHeaderError (name : bytes)
  | duplicatePseudoHeaderError (name : bytes)
  | headerFieldNameError (name : bytes)
  | headerFieldValueError (name : bytes)
  | errMixPseudoHeaderTypes
  | errPseudoAfterRegular.

#[export] Instance header_error_eq_dec : EqDecision header_error.
Proof. solve_decision. Defined.

(** [E] are the errors of the underlying reader and writer. *)
Inductive http2_error (E : Type) : Type :=
  | ConnectionError (code : Z)
  | StreamError (id code : Z) (cause : option header_error)
  | connError (code : Z) (reason : string)
  | ErrFrameTooLarge
  | TextError (text : string) (* [errors.New] *)
  | IoError (e : io_error E).
Arguments ConnectionError {E} code.
Arguments StreamError {E} id code cause.
Arguments connError {E} code reason.
Arguments ErrFrameTooLarge {E}.
Arguments TextError {E} text.
Arguments IoError {E} e.

Definition streamError {E} (id code : Z) : http2_error E := StreamError id code None.

Definition errStreamID {E} : http2_error E := TextError "invalid stream ID".
Definition errDepStreamID {E} : http2_error E := TextError "invalid dependent stream ID".
Definition errPadLength {E} : http2_error E := TextError "pad length to large".
Definition errPadBytes {E} : http2_error E :=
  TextError "padding bytes must all be zeros unless AllowIllegalWrites is enabled".

Definition terminalReadFrameError {E} (err : option (http2_error E)) : bool :=
  match err with
  | Some (StreamError _ _ _) => false
  | Some _ => true
  | None => false
  end.

(** ** Frame types and flags *)

Definition frameHeaderLen : nat := 9.

Definition FrameData : Z := 0x0.
Definition FrameHeaders : Z := 0x1.
Definition FramePriority : Z := 0x2.
Definition FrameRSTStream : Z := 0x3.
Definition FrameSettings : Z := 0x4.
Definition FramePushPromise : Z := 0x5.
Definition FramePing : Z := 0x6.
Definition FrameGoAway : Z := 0x7.
Definition FrameWindowUpdate : Z := 0x8.
Definition FrameContinuation : Z := 0x9.

Definition frameName : list (Z * string) := [
  (FrameData, "DATA"%string);
  (FrameHeaders, "HEADERS"%string);
  (FramePriority, "PRIORITY"%string);
  (FrameRSTStream, "RST_STREAM"%string);
  (FrameSettings, "SETTINGS"%string);
  (FramePushPromise, "PUSH_PROMISE"%string);
  (FramePing, "PING"%string);
  (FrameGoAway, "GOAWAY"%string);
  (FrameWindowUpdate, "WINDOW_UPDATE"%string);
  (FrameContinuation, "CONTINUATION"%string)].

Definition FrameType_String (t : Z) : string :=
  match assoc_lookup t frameName with
  | Some s => s
  | None => "UNKNOWN_FRAME_TYPE_" +:+ decimal t
  end.

(** [f.Has(v)]: [(f & v) == v]. *)
Definition Has (f v : Z) : bool := Z.land f v =? v.

Definition FlagDataEndStream : Z := 0x1.
Definition FlagDataPadded : Z := 0x8.
Definition FlagHeadersEndStream : Z := 0x1.
Definition FlagHeadersEndHeaders : Z := 0x4.
Definition FlagHeadersPadded : Z := 0x8.
Definition FlagHeadersPriority : Z := 0x20.
Definition FlagSettingsAck : Z := 0x1.
Definition FlagPingAck : Z := 0x1.
Definition FlagContinuationEndHeaders : Z := 0x4.
Definition FlagPushPromiseEndHeaders : Z := 0x4.
Definition FlagPushPromisePadded : Z := 0x8.

(** ** Settings *)

Definition SettingHeaderTableSize : Z := 0x1.
Definition SettingEnablePush : Z := 0x2.
Definition SettingMaxConcurrentStreams : Z := 0x3.
Definition SettingInitialWindowSize : Z := 0x4.
Definition SettingMaxFrameSize : Z := 0x5.
Definition SettingMaxHeaderListSize : Z := 0x6.

Record Setting : Type := mkSetting {
  ID : Z;  (* uint16 *)
  Val : Z; (* uint32 *)
}.

#[export] Instance Setting_eq_dec : EqDecision Setting.
Proof. solve_decision. Defined.

Definition Setting_Valid {E} (s : Setting) : option (http2_error E) :=
  if ID s =? SettingEnablePush then
    if negb (Val s =? 1) && negb (Val s =? 0) then Some (ConnectionError ErrCodeProtocol) else None
  else if ID s =? SettingInitialWindowSize then
    if 2 ^ 31 - 1 <? Val s then Some (ConnectionError ErrCodeFlowControl) else None
  else if ID s =? SettingMaxFrameSize then
    if (Val s <? 16384) || (2 ^ 24 - 1 <? Val s) then Some (ConnectionError ErrCodeProtocol)
    else None
  else None.

(** ** Bits of a flag byte *)

Lemma Has_testbit f k : 0 <= k -> Has f (2 ^ k) = Z.testbit f k.
Proof.
  intros. unfold Has. rewrite land_pow2 by done. pose proof (pow2_pos k).
  destruct (Z.testbit f k); [apply Z.eqb_refl|apply Z.eqb_neq; lia].
Qed.
