(* ===== verification/Frame.v ===== *)
(** * HTTP/2 frames and their parsers

    [src/http2/http2/frame.go]: the frame types and the functions that parse a
    payload, each with every error branch.  A parser's error comes with the
    token it passes to [countError], if it calls it on that path.

    Frames hold slices of the framer's read buffer in the source; here they
    hold the bytes, which is what a caller sees until its next [ReadFrame]. *)
From S2P Require Import Prelude Io Http2Types.

Local Open Scope Z_scope.
Local Open Scope go_scope.

(** ** Frame data *)

Record FrameHeader : Type := mkFrameHeader {
  valid : bool;
  Type_ : Z;    (* uint8 *)
  Flags : Z;    (* uint8 *)
  Length : Z;   (* uint32 *)
  StreamID : Z; (* uint32 *)
}.

Record PriorityParam : Type := mkPriorityParam {
  StreamDep : Z;
  Exclusive : bool;
  Weight : Z;
}.
Definition zeroPriority : PriorityParam := mkPriorityParam 0 false 0.

#[export] Instance FrameHeader_eq_dec : EqDecision FrameHeader.
Proof. solve_decision. Defined.
#[export] Instance PriorityParam_eq_dec : EqDecision PriorityParam.
Proof. solve_decision. Defined.

Definition IsZero (p : PriorityParam) : bool := bool_decide (p = zeroPriority).

Record DataFrame : Type := mkDataFrame { df_header : FrameHeader; data : bytes }.
Record HeadersFrame : Type := mkHeadersFrame {
  hf_header : FrameHeader; Priority : PriorityParam; headerFragBuf : bytes }.
Record PriorityFrame : Type := mkPriorityFrame {
  pf_header : FrameHeader; pf_param : PriorityParam }.
Record RSTStreamFrame : Type := mkRSTStreamFrame { rf_header : FrameHeader; rf_ErrCode : Z }.
Record SettingsFrame : Type := mkSettingsFrame { sf_header : FrameHeader; sf_p : bytes }.
Record PushPromiseFrame : Type := mkPushPromiseFrame {
  pp_header : FrameHeader; PromiseID : Z; pp_headerFragBuf : bytes }.
Record PingFrame : Type := mkPingFrame { ping_header : FrameHeader; ping_Data : bytes }.
Record GoAwayFrame : Type := mkGoAwayFrame {
  ga_header : FrameHeader; LastStreamID : Z; ga_ErrCode : Z; debugData : bytes }.
Record WindownUpdateFrame : Type := mkWindownUpdateFrame { wu_header : FrameHeader; Increment : Z }.
Record ContinuationFrame : Type := mkContinuationFrame {
  cf_header : FrameHeader; cf_headerFragBuf : bytes }.
Record UnknownFrame : Type := mkUnknownFrame { uf_header : FrameHeader; uf_p : bytes }.

(** The dynamic types of the interface [Frame] that the parsers return. *)
Inductive Frame : Type :=
  | FData (f : DataFrame)
  | FHeaders (f : HeadersFrame)
  | FPriority (f : PriorityFrame)
  | FRSTStream (f : RSTStreamFrame)
  | FSettings (f : SettingsFrame)
  | FPushPromise (f : PushPromiseFrame)
  | FPing (f : PingFrame)
  | FGoAway (f : GoAwayFrame)
  | FWindowUpdate (f : WindownUpdateFrame)
  | FContinuation (f : ContinuationFrame)
  | FUnknown (f : UnknownFrame).

(** [f.Header()], promoted from the embedded [FrameHeader]. *)
Definition Header (f : Frame) : FrameHeader :=
  match f with
  | FData f => df_header f
  | FHeaders f => hf_header f
  | FPriority f => pf_header f
  | FRSTStream f => rf_header f
  | FSettings f => sf_header f
  | FPushPromise f => pp_header f
  | FPing f => ping_header f
  | FGoAway f => ga_header f
  | FWindowUpdate f => wu_header f
  | FContinuation f => cf_header f
  | FUnknown f => uf_header f
  end.

(** ** Reading integers off a payload *)

Section Parsers.
Context {E : Type}.

Notation P A := (res (option string * http2_error E) A).

(** [countError(token); return nil, err]. *)
Definition counted {A} (token : string) (err : http2_error E) : P A := Err (Some token, err).

(** [s[a:b]] *)
Definition slice (s : bytes) (a b : nat) : P bytes :=
  if ((a <=? b) && (b <=? length s))%nat then Ok (take (b - a) (drop a s))
  else Panic "slice bounds out of range".

Definition readByte (p : bytes) : res (io_error E) (bytes * Z) :=
  match p with
  | [] => Err ErrUnexpectedEOF
  | b :: p => Ok (p, b)
  end.

Definition readUint32 (p : bytes) : res (io_error E) (bytes * Z) :=
  if len p <? 4 then Err ErrUnexpectedEOF
  else Ok (drop 4 p, be_val (take 4 p)).

(** [x, err = read(p); if err != nil { countError(token); return nil, err }] *)
Definition or_count {A} (token : string) (m : res (io_error E) A) : P A :=
  match m with
  | Ok a => Ok a
  | Err e => counted token (IoError e)
  | Panic s => Panic s
  | NoFuel => NoFuel
  end.

(** Clearing, and testing, the reserved or exclusive bit. *)
Definition mask31 (v : Z) : Z := Z.land v 0x7fffffff.

(** ** Parsers *)

Definition parseDataFrame (fh : FrameHeader) (payload : bytes) : P Frame :=
  if StreamID fh =? 0 then
    counted "frame_data_stream_0" (connError ErrCodeProtocol "DATA frame with stream ID 0")
  else
    let? (payload, padSize) :=
      if Has (Flags fh) FlagHeadersPadded then
        or_count "frame_data_pad_byte_short" (readByte payload)
      else Ok (payload, 0) in
    if len payload <? padSize then
      counted "frame_data_pad_too_big"
        (connError ErrCodeProtocol "pad size larger than data payload")
    else
      let? d := slice payload 0 (Z.to_nat (len payload - padSize)) in
      Ok (FData (mkDataFrame fh d)).

(** *** SETTINGS *)

Definition checkValid (fh : FrameHeader) : P unit :=
  if negb (valid fh) then Panic "Frame accessor called on non-owned Frame" else Ok tt.

Definition NumSettings (f : SettingsFrame) : nat := length (sf_p f) / 6.

Definition Setting_at (f : SettingsFrame) (i : nat) : P Setting :=
  let? id := slice (sf_p f) (i * 6) (i * 6 + 2) in
  let? v := slice (sf_p f) (i * 6 + 2) (i * 6 + 6) in
  Ok (mkSetting (be_val id) (be_val v)).

(** The loop of [Value] from index [i] on, [n] settings being left. *)
Fixpoint Value_loop (f : SettingsFrame) (id : Z) (i n : nat) : P (option Z) :=
  match n with
  | O => Ok None
  | S n =>
      let? s := Setting_at f i in
      if ID s =? id then Ok (Some (Val s)) else Value_loop f id (S i) n
  end.

Definition SettingsFrame_Value (f : SettingsFrame) (id : Z) : P (option Z) :=
  let? _ := checkValid (sf_header f) in
  Value_loop f id 0 (NumSettings f).

(** [ForEachSetting] with the callback's state [St] threaded through. *)
Fixpoint ForEach_loop {St} (fn : Setting -> St -> St * option (http2_error E))
    (f : SettingsFrame) (i n : nat) (st : St) : P (St * option (http2_error E)) :=
  match n with
  | O => Ok (st, None)
  | S n =>
      let? s := Setting_at f i in
      match fn s st with
      | (st, Some err) => Ok (st, Some err)
      | (st, None) => ForEach_loop fn f (S i) n st
      end
  end.

Definition ForEachSetting {St} (fn : Setting -> St -> St * option (http2_error E))
    (f : SettingsFrame) (st : St) : P (St * option (http2_error E)) :=
  let? _ := checkValid (sf_header f) in
  ForEach_loop fn f 0 (NumSettings f) st.

(** [HasDuplicates]: quadratic search for fewer than ten settings, which
    falls through to the map when it finds nothing. *)
Fixpoint dup_inner (f : SettingsFrame) (idi : Z) (j n : nat) : P bool :=
  match n with
  | O => Ok false
  | S n =>
      let? s := Setting_at f j in
      if idi =? ID s then Ok true else dup_inner f idi (S j) n
  end.
Fixpoint dup_outer (f : SettingsFrame) (i n : nat) : P bool :=
  match n with
  | O => Ok false
  | S n =>
      let? s := Setting_at f i in
      let? found := dup_inner f (ID s) (S i) n in
      if found : bool then Ok true else dup_outer f (S i) n
  end.
Fixpoint dup_seen (f : SettingsFrame) (seen : gset Z) (i n : nat) : P bool :=
  match n with
  | O => Ok false
  | S n =>
      let? s := Setting_at f i in
      if decide (ID s ∈ seen) then Ok true
      else dup_seen f ({[ID s]} ∪ seen) (S i) n
  end.
Definition HasDuplicates (f : SettingsFrame) : P bool :=
  let num := NumSettings f in
  if (num =? 0)%nat then Ok false
  else
    let? found := if (num <? 10)%nat then dup_outer f 0 num else Ok false in
    if found : bool then Ok true else dup_seen f ∅ 0 num.

Definition parseSettingsFrame (fh : FrameHeader) (p : bytes) : P Frame :=
  if Has (Flags fh) FlagSettingsAck && (0 <? Length fh) then
    counted "frame_settings_ack_with_length" (ConnectionError ErrCodeFrameSize)
  else if negb (StreamID fh =? 0) then
    counted "frame_settings_has_stream" (ConnectionError ErrCodeProtocol)
  else if negb (len p mod 6 =? 0) then
    counted "frame_settings_mod_6" (ConnectionError ErrCodeFrameSize)
  else
    let f := mkSettingsFrame fh p in
    let? v := SettingsFrame_Value f SettingInitialWindowSize in
    match v with
    | Some v =>
        if 2 ^ 31 - 1 <? v then
          counted "frame_settings_window_size_too_big" (ConnectionError ErrCodeFlowControl)
        else Ok (FSettings f)
    | None => Ok (FSettings f)
    end.

(** *** PING, GOAWAY, WINDOW_UPDATE, unknown frames *)

(** [copy(f.Data[:], payload)] into a zeroed [[8]byte]. *)
Definition copy8 (payload : bytes) : bytes :=
  take 8 payload ++ replicate (8 - length payload) 0.

Definition parsePingFrame (fh : FrameHeader) (payload : bytes) : P Frame :=
  if negb (len payload =? 8) then
    counted "frame_ping_length" (ConnectionError ErrCodeFrameSize)
  else if negb (StreamID fh =? 0) then
    counted "frame_ping_has_stream" (ConnectionError ErrCodeProtocol)
  else Ok (FPing (mkPingFrame fh (copy8 payload))).

(** [binary.BigEndian.Uint32] reads the first four bytes of its argument:
    the slice [p[:8]] given for [ErrCode] starts at the last stream id. *)
Definition BigEndian_Uint32 (b : bytes) : Z := be_val (take 4 b).

Definition parseGoAwayFrame (fh : FrameHeader) (p : bytes) : P Frame :=
  if negb (StreamID fh =? 0) then
    counted "frame_goaway_has_stream" (ConnectionError ErrCodeProtocol)
  else if len p <? 8 then
    counted "frame_goaway_short" (ConnectionError ErrCodeFrameSize)
  else
    let? p4 := slice p 0 4 in
    let? p8 := slice p 0 8 in
    Ok (FGoAway (mkGoAwayFrame fh (mask31 (BigEndian_Uint32 p4)) (BigEndian_Uint32 p8)
      (drop 8 p))).

Definition parseUnknownFrame (fh : FrameHeader) (p : bytes) : P Frame :=
  Ok (FUnknown (mkUnknownFrame fh p)).

Definition parseWindowUpdateFrame (fh : FrameHeader) (p : bytes) : P Frame :=
  if negb (len p =? 4) then
    counted "frame_windowupdate_bad_len" (ConnectionError ErrCodeFrameSize)
  else
    let? p4 := slice p 0 4 in
    let inc := mask31 (BigEndian_Uint32 p4) in
    if inc =? 0 then
      if StreamID fh =? 0 then Err (None, ConnectionError ErrCodeProtocol)
      else counted "frame_windowupdate_zero_inc_stream"
             (streamError (StreamID fh) ErrCodeProtocol)
    else Ok (FWindowUpdate (mkWindownUpdateFrame fh inc)).

(** *** HEADERS, PRIORITY, RST_STREAM, CONTINUATION, PUSH_PROMISE *)

Definition parseHeadersFrame (fh : FrameHeader) (p : bytes) : P Frame :=
  if StreamID fh =? 0 then
    counted "frame_headers_zero_stream"
      (connError ErrCodeProtocol "HEADERS frame with stream ID 0")
  else
    let? (p, padLength) :=
      if Has (Flags fh) FlagHeadersPadded then
        or_count "frame_headers_pad_short" (readByte p)
      else Ok (p, 0) in
    let? (p, prio) :=
      if Has (Flags fh) FlagHeadersPriority then
        let? (p, v) := or_count "frame_headers_prio_short" (readUint32 p) in
        let dep := mask31 v in
        let? (p, weight) := or_count "frame_headers_prio_weight_short" (readByte p) in
        Ok (p, mkPriorityParam dep (negb (v =? dep)) weight)
      else Ok (p, zeroPriority) in
    if len p - padLength <? 0 then
      counted "frame_headers_pad_too_big" (streamError (StreamID fh) ErrCodeProtocol)
    else
      let? frag := slice p 0 (Z.to_nat (len p - padLength)) in
      Ok (FHeaders (mkHeadersFrame fh prio frag)).

Definition parsePriorityFrame (fh : FrameHeader) (payload : bytes) : P Frame :=
  if StreamID fh =? 0 then
    counted "frame_priority_zero_stream"
      (connError ErrCodeProtocol "PRIORITY frame stream ID 0")
  else if negb (len payload =? 5) then
    Err (None, connError ErrCodeFrameSize
      ("PRIORITY frame payload size was " +:+ decimal (len payload) +:+ "; want 5"))
  else
    let? p4 := slice payload 0 4 in
    let v := BigEndian_Uint32 p4 in
    let streamID := mask31 v in
    match payload !! 4%nat with
    | Some w =>
        Ok (FPriority (mkPriorityFrame fh (mkPriorityParam streamID (negb (streamID =? v)) w)))
    | None => Panic "index out of range"
    end.

Definition parseRSTStreamFrame (fh : FrameHeader) (p : bytes) : P Frame :=
  if negb (len p =? 4) then
    counted "frame_rststream_bad_len" (ConnectionError ErrCodeFrameSize)
  else if StreamID fh =? 0 then
    counted "frame_rststream_zero_stream" (ConnectionError ErrCodeProtocol)
  else
    let? p4 := slice p 0 4 in
    Ok (FRSTStream (mkRSTStreamFrame fh (BigEndian_Uint32 p4))).

Definition parseContinuationFrame (fh : FrameHeader) (p : bytes) : P Frame :=
  if StreamID fh =? 0 then
    counted "frame_continuation_zero_stream"
      (connError ErrCodeProtocol "CONTINUATION frame with stream ID 0")
  else Ok (FContinuation (mkContinuationFrame fh p)).

Definition parsePushPromise (fh : FrameHeader) (p : bytes) : P Frame :=
  if StreamID fh =? 0 then
    counted "frame_pushpromise_zero_stream" (ConnectionError ErrCodeProtocol)
  else
    let? (p, padLength) :=
      if Has (Flags fh) FlagPushPromisePadded then
        or_count "frame_pushpromise_pad_short" (readByte p)
      else Ok (p, 0) in
    let? (p, promise) := or_count "frame_pushpromise_promiseid_short" (readUint32 p) in
    let promise := mask31 promise in
    if len p <? padLength then
      counted "frame_pushpromise_pad_too_big" (ConnectionError ErrCodeProtocol)
    else
      let? frag := slice p 0 (Z.to_nat (len p - padLength)) in
      Ok (FPushPromise (mkPushPromiseFrame fh promise frag)).

(** [typeFrameParser(t)], the table [frameParsers] with its default. *)
Definition typeFrameParser (t : Z) : FrameHeader -> bytes -> P Frame :=
  if t =? FrameData then parseDataFrame
  else if t =? FrameHeaders then parseHeadersFrame
  else if t =? FramePriority then parsePriorityFrame
  else if t =? FrameRSTStream then parseRSTStreamFrame
  else if t =? FrameSettings then parseSettingsFrame
  else if t =? FramePushPromise then parsePushPromise
  else if t =? FramePing then parsePingFrame
  else if t =? FrameGoAway then parseGoAwayFrame
  else if t =? FrameWindowUpdate then parseWindowUpdateFrame
  else if t =? FrameContinuation then parseContinuationFrame
  else parseUnknownFrame.
End Parsers.
