(* ===== verification/Framer.v ===== *)
(** * The Framer: writing frames, reading frames

    [src/http2/http2/frame.go].  [Framer] is the state that [ReadFrame] and the
    [Write*] methods share.  Its reader and writer are any [Reader] and
    [Writer]; [counted_tokens] records the calls of [countError].

    Left out: the debug framer behind [logWrites] and the loggers, both off
    unless GODEBUG asks for them.  Frames are values here; [FrameHeld] has the
    [DataFrame]s as records on a heap, with [frameCache]. *)
From S2P Require Import Prelude Io Http2Types Frame HpackDecode.

Local Open Scope Z_scope.
Local Open Scope go_scope.

Definition minMaxFrameSize : Z := 2 ^ 14.
Definition maxFrameSize : Z := 2 ^ 24 - 1.

(** The values [errDetail] holds. *)
Inductive error_detail : Type :=
  | detail_reason (reason : string)
  | detail_header (e : header_error).

Section Framer.
Context {R W E : Type} {RD : Reader R E} {WR : Writer W E} {ED : EqDecision E}.

Record Framer : Type := mkFramer {
  r : R;
  lastFrame : option Frame;
  errDetail : option error_detail;
  counted_tokens : list string;
  lastHeaderStream : Z; (* uint32 *)
  maxReadSize : Z;      (* uint32 *)
  headerBuf : bytes;    (* [9]byte *)
  readBuf : bytes;
  w : W;
  wbuf : bytes;
  AllowIllegalWrites : bool;
  AllowIllegalReads : bool;
  ReadMetaHeaders : option Decoder;
  MaxHeaderListSize : Z; (* uint32 *)
}.

Notation M := (stateful Framer (http2_error E)).

Definition set_wbuf (f : Framer) (v : bytes) : Framer :=
  mkFramer (r f) (lastFrame f) (errDetail f) (counted_tokens f) (lastHeaderStream f)
    (maxReadSize f) (headerBuf f) (readBuf f) (w f) v (AllowIllegalWrites f)
    (AllowIllegalReads f) (ReadMetaHeaders f) (MaxHeaderListSize f).
Definition set_w (f : Framer) (v : W) : Framer :=
  mkFramer (r f) (lastFrame f) (errDetail f) (counted_tokens f) (lastHeaderStream f)
    (maxReadSize f) (headerBuf f) (readBuf f) v (wbuf f) (AllowIllegalWrites f)
    (AllowIllegalReads f) (ReadMetaHeaders f) (MaxHeaderListSize f).
Definition set_r (f : Framer) (v : R) : Framer :=
  mkFramer v (lastFrame f) (errDetail f) (counted_tokens f) (lastHeaderStream f)
    (maxReadSize f) (headerBuf f) (readBuf f) (w f) (wbuf f) (AllowIllegalWrites f)
    (AllowIllegalReads f) (ReadMetaHeaders f) (MaxHeaderListSize f).
Definition set_lastFrame (f : Framer) (v : option Frame) : Framer :=
  mkFramer (r f) v (errDetail f) (counted_tokens f) (lastHeaderStream f)
    (maxReadSize f) (headerBuf f) (readBuf f) (w f) (wbuf f) (AllowIllegalWrites f)
    (AllowIllegalReads f) (ReadMetaHeaders f) (MaxHeaderListSize f).
Definition set_errDetail (f : Framer) (v : option error_detail) : Framer :=
  mkFramer (r f) (lastFrame f) v (counted_tokens f) (lastHeaderStream f)
    (maxReadSize f) (headerBuf f) (readBuf f) (w f) (wbuf f) (AllowIllegalWrites f)
    (AllowIllegalReads f) (ReadMetaHeaders f) (MaxHeaderListSize f).
Definition count_token (f : Framer) (t : option string) : Framer :=
  mkFramer (r f) (lastFrame f) (errDetail f)
    (match t with Some t => counted_tokens f ++ [t] | None => counted_tokens f end)
    (lastHeaderStream f) (maxReadSize f) (headerBuf f) (readBuf f) (w f) (wbuf f)
    (AllowIllegalWrites f) (AllowIllegalReads f) (ReadMetaHeaders f) (MaxHeaderListSize f).
Definition set_lastHeaderStream (f : Framer) (v : Z) : Framer :=
  mkFramer (r f) (lastFrame f) (errDetail f) (counted_tokens f) v
    (maxReadSize f) (headerBuf f) (readBuf f) (w f) (wbuf f) (AllowIllegalWrites f)
    (AllowIllegalReads f) (ReadMetaHeaders f) (MaxHeaderListSize f).
Definition set_maxReadSize (f : Framer) (v : Z) : Framer :=
  mkFramer (r f) (lastFrame f) (errDetail f) (counted_tokens f) (lastHeaderStream f)
    v (headerBuf f) (readBuf f) (w f) (wbuf f) (AllowIllegalWrites f)
    (AllowIllegalReads f) (ReadMetaHeaders f) (MaxHeaderListSize f).
Definition set_headerBuf (f : Framer) (v : bytes) : Framer :=
  mkFramer (r f) (lastFrame f) (errDetail f) (counted_tokens f) (lastHeaderStream f)
    (maxReadSize f) v (readBuf f) (w f) (wbuf f) (AllowIllegalWrites f)
    (AllowIllegalReads f) (ReadMetaHeaders f) (MaxHeaderListSize f).
Definition set_readBuf (f : Framer) (v : bytes) : Framer :=
  mkFramer (r f) (lastFrame f) (errDetail f) (counted_tokens f) (lastHeaderStream f)
    (maxReadSize f) (headerBuf f) v (w f) (wbuf f) (AllowIllegalWrites f)
    (AllowIllegalReads f) (ReadMetaHeaders f) (MaxHeaderListSize f).
Definition set_ReadMetaHeaders (f : Framer) (v : option Decoder) : Framer :=
  mkFramer (r f) (lastFrame f) (errDetail f) (counted_tokens f) (lastHeaderStream f)
    (maxReadSize f) (headerBuf f) (readBuf f) (w f) (wbuf f) (AllowIllegalWrites f)
    (AllowIllegalReads f) v (MaxHeaderListSize f).

Definition SetMaxReadFrameSize (f : Framer) (v : Z) : Framer :=
  set_maxReadSize f (if maxFrameSize <? v then maxFrameSize else v).

Definition NewFramer (w : W) (r : R) : Framer :=
  SetMaxReadFrameSize
    (mkFramer r None None [] 0 0 (replicate frameHeaderLen 0) [] w [] false false None 0)
    maxFrameSize.

Definition maxHeaderListSize (fr : Framer) : Z :=
  if MaxHeaderListSize fr =? 0 then 2 ^ 24 else MaxHeaderListSize fr.

(** ** Writing *)

Definition startWrite (ftype flags streamID : Z) : M unit := fun f =>
  (Ok tt, set_wbuf f [0; 0; 0; u8 ftype; u8 flags;
     u8 (Z.shiftr streamID 24); u8 (Z.shiftr streamID 16); u8 (Z.shiftr streamID 8);
     u8 streamID]).

(** [f.wbuf = append(f.wbuf, v...)]; also [writeByte], [writeBytes]. *)
Definition writeBytes (v : bytes) : M unit := fun f => (Ok tt, set_wbuf f (wbuf f ++ v)).
Definition writeByte (v : Z) : M unit := writeBytes [v].
Definition writeUint16 (v : Z) : M unit := writeBytes [u8 (Z.shiftr v 8); u8 v].
Definition writeUint32 (v : Z) : M unit :=
  writeBytes [u8 (Z.shiftr v 24); u8 (Z.shiftr v 16); u8 (Z.shiftr v 8); u8 v].

Definition endWrite : M unit := fun f =>
  let length := len (wbuf f) - Z.of_nat frameHeaderLen in
  if 2 ^ 24 <=? length then (Err ErrFrameTooLarge, f)
  else
    let b := [u8 (Z.shiftr length 16); u8 (Z.shiftr length 8); u8 length] ++ drop 3 (wbuf f) in
    let '((n, err), w') := WriteTo (w f) b in
    let f := set_w (set_wbuf f b) w' in
    match err with
    | None => if negb (n =? len b) then (Err (IoError ErrShortWrite), f) else (Ok tt, f)
    | Some e => (Err (IoError e), f)
    end.

Definition validStreamIDOrZero (streamID : Z) : bool := Z.land streamID (2 ^ 31) =? 0.
Definition validStreamID (streamID : Z) : bool :=
  negb (streamID =? 0) && (Z.land streamID (2 ^ 31) =? 0).

(** [if bad && !f.AllowIllegalWrites { return err }] *)
Definition unless_allowed (bad : bool) (err : http2_error E) : M unit := fun f =>
  if bad && negb (AllowIllegalWrites f) then (Err err, f) else (Ok tt, f).

Definition flag_if (b : bool) (v : Z) : Z := if b then v else 0.

(** [pad] may be nil ([None]) or an empty slice. *)
Definition startWriteDataPadded (streamID : Z) (endStream : bool) (data : bytes)
    (pad : option bytes) : M unit :=
  unless_allowed (negb (validStreamID streamID)) errStreamID ;;;
  (let p := default [] pad in
   if 0 <? len p then
     if 255 <? len p then st_err errPadLength
     else unless_allowed (existsb (fun b => negb (b =? 0)) p) errPadBytes
   else st_ret tt) ;;;
  (let flags := Z.lor (flag_if endStream FlagDataEndStream)
                  (flag_if (bool_decide (is_Some pad)) FlagDataPadded) in
   startWrite FrameData flags streamID ;;;
   match pad with
   | None => st_ret tt
   | Some p => writeByte (u8 (len p))
   end ;;;
   writeBytes data ;;;
   writeBytes (default [] pad)).

Definition WriteDataPadded (streamID : Z) (endStream : bool) (data : bytes)
    (pad : option bytes) : M unit :=
  startWriteDataPadded streamID endStream data pad ;;; endWrite.

Definition WriteData (streamID : Z) (endStream : bool) (data : bytes) : M unit :=
  WriteDataPadded streamID endStream data None.

Fixpoint writeSettings (settings : list Setting) : M unit :=
  match settings with
  | [] => st_ret tt
  | s :: settings => writeUint16 (ID s) ;;; writeUint32 (Val s) ;;; writeSettings settings
  end.

Definition WriteSettings (settings : list Setting) : M unit :=
  startWrite FrameSettings 0 0 ;;; writeSettings settings ;;; endWrite.

Definition WriteSettingsAck : M unit :=
  startWrite FrameSettings FlagSettingsAck 0 ;;; endWrite.

Definition WritePing (ack : bool) (data : bytes) : M unit :=
  startWrite FramePing (flag_if ack FlagPingAck) 0 ;;; writeBytes data ;;; endWrite.

Definition WriteGoAway (maxStreamID code : Z) (debugData : bytes) : M unit :=
  startWrite FrameGoAway 0 0 ;;;
  writeUint32 (mask31 maxStreamID) ;;;
  writeUint32 code ;;;
  writeBytes debugData ;;;
  endWrite.

Definition WriteWindowUpdate (streamId incr : Z) : M unit :=
  unless_allowed ((incr <? 1) || (2147483647 <? incr))
    (TextError "illegal window increment value") ;;;
  startWrite FrameWindowUpdate 0 streamId ;;;
  writeUint32 incr ;;;
  endWrite.

Record HeadersFrameParam : Type := mkHeadersFrameParam {
  hp_StreamID : Z;
  hp_BlockFragment : bytes;
  hp_EndStream : bool;
  hp_EndHeaders : bool;
  hp_PadLength : Z; (* uint8 *)
  hp_Priority : PriorityParam;
}.

Definition padZeros : bytes := replicate 255 0.

(** [v |= 1 << 31] when [exclusive]. *)
Definition stream_dep_bits (p : PriorityParam) : Z :=
  if Exclusive p then Z.lor (StreamDep p) (2 ^ 31) else StreamDep p.

Definition WriteHeaders (p : HeadersFrameParam) : M unit :=
  unless_allowed (negb (validStreamID (hp_StreamID p))) errStreamID ;;;
  (let flags :=
     Z.lor (Z.lor (Z.lor (flag_if (negb (hp_PadLength p =? 0)) FlagHeadersPadded)
       (flag_if (hp_EndStream p) FlagHeadersEndStream))
       (flag_if (hp_EndHeaders p) FlagHeadersEndHeaders))
       (flag_if (negb (IsZero (hp_Priority p))) FlagHeadersPriority) in
   startWrite FrameHeaders flags (hp_StreamID p)) ;;;
  (if negb (hp_PadLength p =? 0) then writeByte (hp_PadLength p) else st_ret tt) ;;;
  (if negb (IsZero (hp_Priority p)) then
     let v := StreamDep (hp_Priority p) in
     unless_allowed (negb (validStreamIDOrZero v)) errDepStreamID ;;;
     writeUint32 (stream_dep_bits (hp_Priority p)) ;;;
     writeByte (Weight (hp_Priority p))
   else st_ret tt) ;;;
  writeBytes (hp_BlockFragment p) ;;;
  writeBytes (take (Z.to_nat (hp_PadLength p)) padZeros) ;;;
  endWrite.

(** The check of the dependency ignores [AllowIllegalWrites]. *)
Definition WritePriority (streamID : Z) (p : PriorityParam) : M unit :=
  unless_allowed (negb (validStreamID streamID)) errStreamID ;;;
  (if negb (validStreamIDOrZero (StreamDep p)) then st_err errDepStreamID else st_ret tt) ;;;
  startWrite FramePriority 0 streamID ;;;
  writeUint32 (stream_dep_bits p) ;;;
  writeByte (Weight p) ;;;
  endWrite.

Definition WriteRSTStream (streamID code : Z) : M unit :=
  unless_allowed (negb (validStreamID streamID)) errStreamID ;;;
  startWrite FrameRSTStream 0 streamID ;;;
  writeUint32 code ;;;
  endWrite.

Definition WriteContinuation (streamID : Z) (endHeaders : bool) (headerBlockFragment : bytes) :
    M unit :=
  unless_allowed (negb (validStreamID streamID)) errStreamID ;;;
  startWrite FrameContinuation (flag_if endHeaders FlagContinuationEndHeaders) streamID ;;;
  writeBytes headerBlockFragment ;;;
  endWrite.

Record PushPromiseParam : Type := mkPushPromiseParam {
  pp_StreamID : Z;
  pp_PromiseID : Z;
  pp_BlockFragment : bytes;
  pp_EndHeaders : bool;
  pp_PadLength : Z; (* uint8 *)
}.

Definition WritePushPromise (p : PushPromiseParam) : M unit :=
  unless_allowed (negb (validStreamID (pp_StreamID p))) errStreamID ;;;
  startWrite FramePushPromise
    (Z.lor (flag_if (negb (pp_PadLength p =? 0)) FlagPushPromisePadded)
       (flag_if (pp_EndHeaders p) FlagPushPromiseEndHeaders)) (pp_StreamID p) ;;;
  (if negb (pp_PadLength p =? 0) then writeByte (pp_PadLength p) else st_ret tt) ;;;
  unless_allowed (negb (validStreamID (pp_PromiseID p))) errStreamID ;;;
  writeUint32 (pp_PromiseID p) ;;;
  writeBytes (pp_BlockFragment p) ;;;
  writeBytes (take (Z.to_nat (pp_PadLength p)) padZeros) ;;;
  endWrite.

Definition WriteRawFrame (t flags streamID : Z) (payload : bytes) : M unit :=
  startWrite t flags streamID ;;; writeBytes payload ;;; endWrite.

(** ** Reading *)

(** [connError]: stash the reason, return the [ConnectionError]. *)
Definition fr_connError {A} (code : Z) (reason : string) : M A := fun fr =>
  (Err (ConnectionError code), set_errDetail fr (Some (detail_reason reason))).

(** [io.ReadFull] into one of the framer's buffers.  [None] of [ReadFull]
    is running out of fuel. *)
Definition read_full (fuel : nat) (buf : bytes) : M (bytes * option (io_error E)) := fun fr =>
  match ReadFull fuel (r fr) buf with
  | None => (NoFuel, fr)
  | Some (res, r') => (Ok (rd_buf res, rd_err res), set_r fr r')
  end.

Definition header_of (buf : bytes) : FrameHeader :=
  let b i := nth i buf 0 in
  mkFrameHeader true (b 3%nat) (b 4%nat)
    (Z.lor (Z.lor (Z.shiftl (b 0%nat) 16) (Z.shiftl (b 1%nat) 8)) (b 2%nat))
    (Z.land (be_val (take 4 (drop 5 buf))) (2 ^ 31 - 1)).

Definition readFrameHeader (fuel : nat) : M FrameHeader :=
  let* fr := st_get in
  let* (buf, err) := read_full fuel (headerBuf fr) in
  st_mod (fun fr => set_headerBuf fr buf) ;;;
  match err with
  | Some e => st_err (IoError e)
  | None => st_ret (header_of buf)
  end.

(** [getReadBuf]: the cached buffer when it is large enough, else a new one.
    The result and [readBuf] share their bytes. *)
Definition getReadBuf (size : Z) : M bytes := fun fr =>
  if size <=? len (readBuf fr) then (Ok (take (Z.to_nat size) (readBuf fr)), fr)
  else
    let b := replicate (Z.to_nat size) 0 in
    (Ok b, set_readBuf fr b).

Definition checkFrameOrder (f : Frame) : M unit := fun fr =>
  let last := lastFrame fr in
  let fr := set_lastFrame fr (Some f) in
  if AllowIllegalReads fr then (Ok tt, fr)
  else
    let fh := Header f in
    let order : M unit := fun fr =>
      if (Type_ fh =? FrameHeaders) || (Type_ fh =? FrameContinuation) then
        if Has (Flags fh) FlagHeadersEndHeaders then (Ok tt, set_lastHeaderStream fr 0)
        else (Ok tt, set_lastHeaderStream fr (StreamID fh))
      else (Ok tt, fr) in
    if negb (lastHeaderStream fr =? 0) then
      if negb (Type_ fh =? FrameContinuation) then
        match last with
        | None => (Panic "nil pointer dereference", fr)
        | Some last =>
            fr_connError ErrCodeProtocol
              ("got " +:+ FrameType_String (Type_ fh) +:+ " for stream "
               +:+ decimal (StreamID fh) +:+ "; expected CONTINUATION following "
               +:+ FrameType_String (Type_ (Header last)) +:+ " for stream "
               +:+ decimal (lastHeaderStream fr)) fr
        end
      else if negb (StreamID fh =? lastHeaderStream fr) then
        fr_connError ErrCodeProtocol
          ("got CONTINUATION for stream " +:+ decimal (StreamID fh)
           +:+ "; expected stream " +:+ decimal (lastHeaderStream fr)) fr
      else order fr
    else if Type_ fh =? FrameContinuation then
      fr_connError ErrCodeProtocol
        ("unexpected CONITNUATION for stream " +:+ decimal (StreamID fh)) fr
    else order fr.

(** A parser's error: the token is counted, a [connError] becomes a
    [ConnectionError]. *)
Definition run_parser {A} (m : res (option string * http2_error E) A) : M A := fun fr =>
  match m with
  | Ok f => (Ok f, fr)
  | Err (tok, connError code reason) => fr_connError code reason (count_token fr tok)
  | Err (tok, e) => (Err e, count_token fr tok)
  | Panic s => (Panic s, fr)
  | NoFuel => (NoFuel, fr)
  end.

(** [ReadFrame] up to the merging of header blocks, that is without
    [ReadMetaHeaders]. *)
Definition ReadFrame_plain (fuel : nat) : M Frame :=
  st_mod (fun fr => set_errDetail fr None) ;;;
  let* fh := readFrameHeader fuel in
  let* fr := st_get in
  if maxReadSize fr <? Length fh then st_err ErrFrameTooLarge
  else
    let* buf := getReadBuf (Length fh) in
    let* (payload, err) := read_full fuel buf in
    st_mod (fun fr => set_readBuf fr (payload ++ drop (length payload) (readBuf fr))) ;;;
    match err with
    | Some e => st_err (IoError e)
    | None =>
        let* f := run_parser (typeFrameParser (Type_ fh) fh payload) in
        checkFrameOrder f ;;;
        st_ret f
    end.
End Framer.
Arguments Framer R W : clear implicits.
