(* ===== verification/FrameWire.v ===== *)
(** * The wire format of frames

    Every [Write*] method of the [Framer] sends one [frame_bytes]: a 9-byte
    header and the payload; reading such bytes gives back the frame. *)
From S2P Require Import Prelude Io Http2Types Frame Framer.

Local Open Scope Z_scope.
Local Open Scope go_scope.

(** The encoding of a frame (RFC 7540, 4.1). *)
Definition frame_bytes (t fl sid : Z) (payload : bytes) : bytes :=
  be_bytes 3 (len payload) ++ [t; fl] ++ be_bytes 4 sid ++ payload.

(** ** Requests: what a caller asks the [Framer] to write *)

Inductive request : Type :=
  | RqData (streamID : Z) (endStream : bool) (data : bytes) (pad : option bytes)
  | RqHeaders (p : HeadersFrameParam)
  | RqPriority (streamID : Z) (p : PriorityParam)
  | RqRSTStream (streamID code : Z)
  | RqSettings (settings : list Setting)
  | RqSettingsAck
  | RqPushPromise (p : PushPromiseParam)
  | RqPing (ack : bool) (data : bytes)
  | RqGoAway (maxStreamID code : Z) (debugData : bytes)
  | RqWindowUpdate (streamID incr : Z)
  | RqContinuation (streamID : Z) (endHeaders : bool) (fragment : bytes).

Definition rq_type (q : request) : Z :=
  match q with
  | RqData _ _ _ _ => FrameData
  | RqHeaders _ => FrameHeaders
  | RqPriority _ _ => FramePriority
  | RqRSTStream _ _ => FrameRSTStream
  | RqSettings _ | RqSettingsAck => FrameSettings
  | RqPushPromise _ => FramePushPromise
  | RqPing _ _ => FramePing
  | RqGoAway _ _ _ => FrameGoAway
  | RqWindowUpdate _ _ => FrameWindowUpdate
  | RqContinuation _ _ _ => FrameContinuation
  end.

Definition rq_stream (q : request) : Z :=
  match q with
  | RqData s _ _ _ | RqPriority s _ | RqRSTStream s _ | RqWindowUpdate s _
  | RqContinuation s _ _ => s
  | RqHeaders p => hp_StreamID p
  | RqPushPromise p => pp_StreamID p
  | RqSettings _ | RqSettingsAck | RqPing _ _ | RqGoAway _ _ _ => 0
  end.

Definition flag (b : bool) (v : Z) : Z := if b then v else 0.

Definition rq_flags (q : request) : Z :=
  match q with
  | RqData _ e _ pad => flag e 1 + flag (bool_decide (is_Some pad)) 8
  | RqHeaders p =>
      flag (hp_EndStream p) 1 + flag (hp_EndHeaders p) 4 + flag (negb (hp_PadLength p =? 0)) 8
        + flag (negb (IsZero (hp_Priority p))) 32
  | RqSettingsAck => 1
  | RqPushPromise p => flag (pp_EndHeaders p) 4 + flag (negb (pp_PadLength p =? 0)) 8
  | RqPing ack _ => flag ack 1
  | RqContinuation _ e _ => flag e 4
  | _ => 0
  end.

(** Five bytes: exclusive bit, stream dependency, weight. *)
Definition priority_bytes (p : PriorityParam) : bytes :=
  be_bytes 4 (StreamDep p + flag (Exclusive p) (2 ^ 31)) ++ [Weight p].

Definition setting_bytes (s : Setting) : bytes := be_bytes 2 (ID s) ++ be_bytes 4 (Val s).

Definition pad_field (n : Z) : bytes := if n =? 0 then [] else [n].

Definition rq_payload (q : request) : bytes :=
  match q with
  | RqData _ _ d pad => match pad with None => d | Some p => [len p] ++ d ++ p end
  | RqHeaders p =>
      pad_field (hp_PadLength p)
        ++ (if IsZero (hp_Priority p) then [] else priority_bytes (hp_Priority p))
        ++ hp_BlockFragment p ++ replicate (Z.to_nat (hp_PadLength p)) 0
  | RqPriority _ p => priority_bytes p
  | RqRSTStream _ c => be_bytes 4 c
  | RqSettings l => concat (map setting_bytes l)
  | RqSettingsAck => []
  | RqPushPromise p =>
      pad_field (pp_PadLength p) ++ be_bytes 4 (pp_PromiseID p)
        ++ pp_BlockFragment p ++ replicate (Z.to_nat (pp_PadLength p)) 0
  | RqPing _ d => d
  | RqGoAway s c d => be_bytes 4 s ++ be_bytes 4 c ++ d
  | RqWindowUpdate _ i => be_bytes 4 i
  | RqContinuation _ _ fr => fr
  end.

(** The arguments the methods accept without [AllowIllegalWrites], in the
    ranges of their Go types. *)
Definition stream_ok (s : Z) : Prop := 0 < s < 2 ^ 31.
Definition dep_ok (p : PriorityParam) : Prop := 0 <= StreamDep p < 2 ^ 31 /\ is_byte (Weight p).

Definition request_ok (q : request) : Prop :=
  match q with
  | RqData s _ d pad =>
      stream_ok s /\ is_bytes d /\
      match pad with None => True | Some p => len p <= 255 /\ Forall (fun b => b = 0) p end
  | RqHeaders p =>
      stream_ok (hp_StreamID p) /\ is_bytes (hp_BlockFragment p) /\
      is_byte (hp_PadLength p) /\ dep_ok (hp_Priority p)
  | RqPriority s p => stream_ok s /\ dep_ok p
  | RqRSTStream s c => stream_ok s /\ 0 <= c < 2 ^ 32
  | RqSettings l => Forall (fun s => 0 <= ID s < 2 ^ 16 /\ 0 <= Val s < 2 ^ 32) l
  | RqSettingsAck => True
  | RqPushPromise p =>
      stream_ok (pp_StreamID p) /\ stream_ok (pp_PromiseID p) /\
      is_bytes (pp_BlockFragment p) /\ is_byte (pp_PadLength p)
  | RqPing _ d => is_bytes d /\ length d = 8%nat
  | RqGoAway s c d => 0 <= s < 2 ^ 31 /\ 0 <= c < 2 ^ 32 /\ is_bytes d
  | RqWindowUpdate s i => 0 <= s < 2 ^ 31 /\ 1 <= i < 2 ^ 31
  | RqContinuation s _ fr => stream_ok s /\ is_bytes fr
  end.

(** ** Writing *)

Section Writing.
Context {R W E : Type} {WR : Writer W E}.
Notation M := (stateful (Framer R W) (http2_error E)).

(** The method that a request calls. *)
Definition write_request (q : request) : M unit :=
  match q with
  | RqData s e d pad => WriteDataPadded s e d pad
  | RqHeaders p => WriteHeaders p
  | RqPriority s p => WritePriority s p
  | RqRSTStream s c => WriteRSTStream s c
  | RqSettings l => WriteSettings l
  | RqSettingsAck => WriteSettingsAck
  | RqPushPromise p => WritePushPromise p
  | RqPing ack d => WritePing ack d
  | RqGoAway s c d => WriteGoAway s c d
  | RqWindowUpdate s i => WriteWindowUpdate s i
  | RqContinuation s e fr => WriteContinuation s e fr
  end.

(** One [Write] call on the underlying writer, and its error. *)
Definition send (b : bytes) : M unit := fun f =>
  let '((n, err), w') := WriteTo (w f) b in
  let f := set_w (set_wbuf f b) w' in
  match err with
  | None => if negb (n =? len b) then (Err (IoError ErrShortWrite), f) else (Ok tt, f)
  | Some e => (Err (IoError e), f)
  end.

Definition frame_head (t fl sid : Z) : bytes := [0; 0; 0; t; fl] ++ be_bytes 4 sid.

(** What a method that builds the frame [t, fl, sid, payload] does. *)
Definition write_frame (t fl sid : Z) (payload : bytes) : M unit := fun f =>
  if len payload <? 2 ^ 24 then send (frame_bytes t fl sid payload) f
  else (Err ErrFrameTooLarge, set_wbuf f (frame_head t fl sid ++ payload)).

Lemma endWrite_frame f t fl sid payload :
  endWrite (set_wbuf f (frame_head t fl sid ++ payload)) = write_frame t fl sid payload f.
Proof.
  unfold endWrite, write_frame. cbn [set_wbuf wbuf].
  assert (len (frame_head t fl sid ++ payload) - Z.of_nat frameHeaderLen = len payload) as ->.
  { unfold frame_head. autorewrite with go_len. rewrite len_be_bytes. unfold frameHeaderLen. lia. }
  rewrite Z.leb_antisym. destruct (len payload <? 2 ^ 24); simpl negb; [|done].
  unfold send. cbn [w set_w set_wbuf].
  assert (drop 3 (frame_head t fl sid ++ payload) = [t; fl] ++ be_bytes 4 sid ++ payload) as ->
    by reflexivity.
  rewrite be3_shifts. unfold frame_bytes.
  destruct (WriteTo _ _) as [[n err] w']. by destruct err.
Qed.

Lemma startWrite_head t fl sid (f : Framer R W) :
  is_byte t -> is_byte fl -> startWrite (E:=E) t fl sid f = (Ok tt, set_wbuf f (frame_head t fl sid)).
Proof.
  intros Ht Hf. unfold startWrite, frame_head. rewrite !u8_small by done. rewrite <- be4. done.
Qed.

Lemma valid_stream s : stream_ok s -> validStreamID s = true.
Proof.
  intros [H0 H31]. unfold validStreamID. rewrite land_pow2 by lia.
  rewrite (testbit_small s 31 31) by lia. rewrite (proj2 (Z.eqb_neq s 0)) by lia. done.
Qed.

Lemma valid_dep s : 0 <= s < 2 ^ 31 -> validStreamIDOrZero s = true.
Proof.
  intros H31. unfold validStreamIDOrZero. rewrite land_pow2 by lia.
  by rewrite (testbit_small s 31 31) by lia.
Qed.

Lemma unless_allowed_ok (err : http2_error E) (f : Framer R W) :
  unless_allowed false err f = (Ok tt, f).
Proof. reflexivity. Qed.

Lemma stream_dep_bits_sum p : 0 <= StreamDep p < 2 ^ 31 ->
  stream_dep_bits p = StreamDep p + flag (Exclusive p) (2 ^ 31).
Proof.
  intros Hd. unfold stream_dep_bits, flag. destruct (Exclusive p); [|lia].
  rewrite Z.lor_comm. rewrite <- (Z.mul_1_l (2 ^ 31)) at 1. rewrite lor_disjoint by lia. lia.
Qed.

Lemma mask31_small v : 0 <= v < 2 ^ 31 -> mask31 v = v.
Proof.
  intros. unfold mask31. change 0x7fffffff with (2 ^ 31 - 1). rewrite land_mask by lia.
  by apply Z.mod_small.
Qed.

Lemma padZeros_take n : is_byte n -> take (Z.to_nat n) padZeros = replicate (Z.to_nat n) 0.
Proof. intros Hn. unfold is_byte in Hn. unfold padZeros. rewrite take_replicate. f_equal. lia. Qed.

Lemma writeSettings_bytes l (f : Framer R W) :
  Forall (fun s => 0 <= ID s < 2 ^ 16 /\ 0 <= Val s < 2 ^ 32) l ->
  writeSettings (E:=E) l f = (Ok tt, set_wbuf f (wbuf f ++ concat (map setting_bytes l))).
Proof.
  intros Hl. revert f. induction Hl as [|s l Hs Hl IH]; intros f.
  - simpl. rewrite app_nil_r. by destruct f.
  - cbn [writeSettings]. unfold st_bind, writeUint16, writeUint32, writeBytes.
    rewrite IH, be4, be2_shifts. cbn [set_wbuf wbuf map concat]. unfold setting_bytes.
    by rewrite <- !app_assoc.
Qed.
Lemma set_wbuf_twice (f : Framer R W) a b : set_wbuf (set_wbuf f a) b = set_wbuf f b.
Proof. reflexivity. Qed.

Lemma rq_flags_byte q : is_byte (rq_flags q) /\ is_byte (rq_type q).
Proof.
  assert (forall b v, flag b v = v \/ flag b v = 0) as Hf by (intros [] v; auto).
  unfold is_byte. destruct q; simpl; try (split; done);
    repeat match goal with |- context [flag ?b ?v] =>
      let H := fresh in assert (H := Hf b v); destruct H as [-> | ->] end; split; done.
Qed.

(** [frame_head] in front of what the method appends, and [endWrite]. *)
Lemma finish_frame q (f : Framer R W) b :
  b = frame_head (rq_type q) (rq_flags q) (rq_stream q) ++ rq_payload q ->
  endWrite (E:=E) (set_wbuf f b) =
    write_frame (rq_type q) (rq_flags q) (rq_stream q) (rq_payload q) f.
Proof. intros ->. apply endWrite_frame. Qed.

Ltac start q :=
  unfold st_bind at 1; rewrite (startWrite_head (rq_type q) (rq_flags q) (rq_stream q))
    by apply rq_flags_byte.
Ltac appends := unfold st_bind, st_ret, writeByte, writeUint32, writeBytes; cbn [set_wbuf wbuf]; rewrite ?set_wbuf_twice.
Ltac finish q := apply (finish_frame q); cbn [rq_payload]; rewrite <- ?app_assoc, ?be4; reflexivity.

Lemma write_data_frame s e d pad (f : Framer R W) :
  request_ok (RqData s e d pad) ->
  WriteDataPadded s e d pad f =
    write_frame FrameData (rq_flags (RqData s e d pad)) s (rq_payload (RqData s e d pad)) f.
Proof.
  set (q := RqData s e d pad). intros (Hs & Hd & Hpad).
  unfold WriteDataPadded, startWriteDataPadded. rewrite valid_stream by done. simpl negb.
  assert (existsb (fun b => negb (b =? 0)) (default [] pad) = false /\
    len (default [] pad) <= 255) as [Hz Hl].
  { destruct pad as [p|]; simpl; [|done]. destruct Hpad as [Hl Hz]. split; [|done].
    apply not_true_iff_false. rewrite existsb_exists. intros (b & Hb & Hb0).
    rewrite Forall_forall in Hz. by rewrite (Hz b Hb) in Hb0. }
  rewrite Hz, (proj2 (Z.ltb_ge 255 _)) by done.
  assert (Z.lor (flag_if e FlagDataEndStream) (flag_if (bool_decide (is_Some pad)) FlagDataPadded)
    = rq_flags q) as -> by (simpl; by destruct e, (bool_decide (is_Some pad))).
  unfold st_bind at 1 2. rewrite unless_allowed_ok.
  unfold st_bind at 1. destruct (0 <? len (default [] pad)).
  - rewrite unless_allowed_ok. start q. destruct pad as [p|]; simpl in Hl; appends.
    + rewrite u8_small by (pose proof (len_nonneg p); lia). finish q.
    + change (default [] None) with (@nil Z). rewrite app_nil_r, ?set_wbuf_twice. finish q.
  - unfold st_ret. start q. destruct pad as [p|]; simpl in Hl; appends.
    + rewrite u8_small by (pose proof (len_nonneg p); lia). finish q.
    + change (default [] None) with (@nil Z). rewrite app_nil_r, ?set_wbuf_twice. finish q.
Qed.

Lemma write_headers_frame p (f : Framer R W) :
  request_ok (RqHeaders p) ->
  WriteHeaders p f =
    write_frame FrameHeaders (rq_flags (RqHeaders p)) (hp_StreamID p) (rq_payload (RqHeaders p)) f.
Proof.
  set (q := RqHeaders p). intros (Hs & Hb & Hp & Hd & Hw).
  unfold WriteHeaders. rewrite valid_stream, valid_dep by done. simpl negb at 1.
  unfold st_bind at 1. rewrite unless_allowed_ok.
  assert (Z.lor (Z.lor (Z.lor (flag_if (negb (hp_PadLength p =? 0)) FlagHeadersPadded)
       (flag_if (hp_EndStream p) FlagHeadersEndStream))
       (flag_if (hp_EndHeaders p) FlagHeadersEndHeaders))
       (flag_if (negb (IsZero (hp_Priority p))) FlagHeadersPriority) = rq_flags q) as ->.
  { simpl. by destruct (hp_PadLength p =? 0), (hp_EndStream p), (hp_EndHeaders p),
      (IsZero (hp_Priority p)). }
  start q. rewrite padZeros_take, stream_dep_bits_sum by done.
  assert (rq_payload q = pad_field (hp_PadLength p)
    ++ (if IsZero (hp_Priority p) then [] else priority_bytes (hp_Priority p))
    ++ hp_BlockFragment p ++ replicate (Z.to_nat (hp_PadLength p)) 0) as Hq by done.
  unfold pad_field, priority_bytes in Hq.
  destruct (hp_PadLength p =? 0), (IsZero (hp_Priority p)); simpl negb; unfold st_ret; appends;
    try (rewrite unless_allowed_ok; appends); apply (finish_frame q);
    rewrite Hq, ?be4, <- ?app_assoc; done.
Qed.

Lemma write_push_frame p (f : Framer R W) :
  request_ok (RqPushPromise p) ->
  WritePushPromise p f =
    write_frame FramePushPromise (rq_flags (RqPushPromise p)) (pp_StreamID p)
      (rq_payload (RqPushPromise p)) f.
Proof.
  set (q := RqPushPromise p). intros (Hs & Hpr & Hb & Hp).
  unfold WritePushPromise. rewrite !valid_stream by done. simpl negb at 1.
  unfold st_bind at 1. rewrite unless_allowed_ok.
  assert (Z.lor (flag_if (negb (pp_PadLength p =? 0)) FlagPushPromisePadded)
       (flag_if (pp_EndHeaders p) FlagPushPromiseEndHeaders) = rq_flags q) as ->.
  { simpl. by destruct (pp_PadLength p =? 0), (pp_EndHeaders p). }
  start q. rewrite padZeros_take by done.
  assert (rq_payload q = pad_field (pp_PadLength p) ++ be_bytes 4 (pp_PromiseID p)
      ++ pp_BlockFragment p ++ replicate (Z.to_nat (pp_PadLength p)) 0) as Hq by done.
  unfold pad_field in Hq.
  destruct (pp_PadLength p =? 0); simpl negb; unfold st_ret; appends;
    rewrite unless_allowed_ok; appends; apply (finish_frame q); rewrite Hq, ?be4, <- ?app_assoc; done.
Qed.

(** Every accepted request is sent as one frame of the wire format, or
    refused as too large; nothing else reaches the writer. *)
Lemma write_request_frame q (f : Framer R W) :
  request_ok q ->
  write_request q f = write_frame (rq_type q) (rq_flags q) (rq_stream q) (rq_payload q) f.
Proof.
  intros Hq. destruct q as [s e d pad|p|s p|s c|l| |p|ack d|s c d|s i|s e fr];
    cbn [request_ok] in Hq; cbn [write_request].
  - by apply write_data_frame.
  - by apply write_headers_frame.
  - destruct Hq as [Hs [Hd Hw]]. unfold WritePriority. rewrite valid_stream, valid_dep by done.
    simpl negb. unfold st_bind at 1. rewrite unless_allowed_ok. unfold st_bind at 1, st_ret.
    start (RqPriority s p). appends. rewrite stream_dep_bits_sum by done.
    finish (RqPriority s p).
  - destruct Hq as [Hs Hc]. unfold WriteRSTStream. rewrite valid_stream by done. simpl negb.
    unfold st_bind at 1. rewrite unless_allowed_ok.
    start (RqRSTStream s c). appends. finish (RqRSTStream s c).
  - unfold WriteSettings. start (RqSettings l). unfold st_bind.
    rewrite writeSettings_bytes by done. cbn [set_wbuf wbuf]. rewrite set_wbuf_twice.
    by apply (finish_frame (RqSettings l)).
  - unfold WriteSettingsAck. start RqSettingsAck. by apply (finish_frame RqSettingsAck).
  - by apply write_push_frame.
  - unfold WritePing. start (RqPing ack d). appends. finish (RqPing ack d).
  - destruct Hq as (Hs & Hc & Hd). unfold WriteGoAway. start (RqGoAway s c d). appends.
    rewrite mask31_small by done. finish (RqGoAway s c d).
  - destruct Hq as [Hs Hi]. unfold WriteWindowUpdate.
    rewrite (proj2 (Z.ltb_ge i 1)), (proj2 (Z.ltb_ge 2147483647 i)) by lia. simpl orb.
    unfold st_bind at 1. rewrite unless_allowed_ok.
    start (RqWindowUpdate s i). appends. finish (RqWindowUpdate s i).
  - destruct Hq as [Hs Hf]. unfold WriteContinuation. rewrite valid_stream by done. simpl negb.
    unfold st_bind at 1. rewrite unless_allowed_ok.
    start (RqContinuation s e fr). appends. finish (RqContinuation s e fr).
Qed.
End Writing.
