(* ===== verification/FrameRead.v ===== *)
(** * Reading frames back

    [ReadFrame] on the bytes of the wire format, and the round trip of every
    kind of frame: what the [Write*] methods send, [ReadFrame] returns. *)
From S2P Require Import Prelude Io Http2Types Frame Framer FrameWire.

Local Open Scope Z_scope.
Local Open Scope go_scope.

#[local] Arguments be_bytes : simpl never.

(** ** The parsers on payloads of the wire format *)

Section Parse.
Context {E : Type}.
Notation P A := (res (option string * http2_error E) A).

Lemma slice_ok (s : bytes) a b :
  (a <= b)%nat -> (b <= length s)%nat ->
  (slice s a b : P bytes) = Ok (take (b - a) (drop a s)).
Proof.
  intros. unfold slice. by rewrite (proj2 (Nat.leb_le a b)), (proj2 (Nat.leb_le b _)) by lia.
Qed.

Lemma slice_take (s : bytes) (k : nat) :
  (k <= length s)%nat -> (slice s 0 k : P bytes) = Ok (take k s).
Proof.
  intros. unfold slice. rewrite (proj2 (Nat.leb_le k _)) by done. simpl.
  by rewrite Nat.sub_0_r.
Qed.

(** A slice that cuts the padding off. *)
Lemma slice_app (s pad : bytes) (n : Z) :
  n = len pad ->
  (slice (s ++ pad) 0 (Z.to_nat (len (s ++ pad) - n)) : P bytes) = Ok s.
Proof.
  intros ->. rewrite len_app. replace (len s + len pad - len pad) with (len s) by lia.
  unfold len. rewrite Nat2Z.id, slice_take by (rewrite length_app; lia).
  by rewrite take_app_length.
Qed.

Lemma readUint32_be (v : Z) (p : bytes) :
  0 <= v < 2 ^ 32 ->
  (readUint32 (be_bytes 4 v ++ p) : res (io_error E) (bytes * Z)) = Ok (p, v).
Proof.
  intros Hv. unfold readUint32. rewrite len_app, len_be_bytes. pose proof (len_nonneg p).
  rewrite (proj2 (Z.ltb_ge _ _)) by lia.
  rewrite drop_app_le, take_app_le by (rewrite length_be_bytes; lia).
  rewrite drop_ge, take_ge by (rewrite length_be_bytes; lia). by rewrite u32_be4.
Qed.

Lemma mask31_exclusive v x :
  0 <= v < 2 ^ 31 ->
  mask31 (v + flag x (2 ^ 31)) = v /\ negb (v + flag x (2 ^ 31) =? v) = x /\
  0 <= v + flag x (2 ^ 31) < 2 ^ 32.
Proof.
  intros Hv. unfold mask31. change 0x7fffffff with (2 ^ 31 - 1). rewrite land_mask by lia.
  destruct x; simpl flag.
  - rewrite <- (Z.mul_1_l (2 ^ 31)) at 1. rewrite Z.mod_add by lia.
    rewrite Z.mod_small by lia. rewrite (proj2 (Z.eqb_neq _ _)) by lia. split_and!; try done; lia.
  - rewrite Z.add_0_r, Z.mod_small by lia. rewrite Z.eqb_refl. split_and!; done || lia.
Qed.

Definition header_q (q : request) : FrameHeader :=
  mkFrameHeader true (rq_type q) (rq_flags q) (len (rq_payload q)) (rq_stream q).

(** The frame a reader should get. *)
Definition rq_frame (q : request) : Frame :=
  let h := header_q q in
  match q with
  | RqData _ _ d _ => FData (mkDataFrame h d)
  | RqHeaders p => FHeaders (mkHeadersFrame h (hp_Priority p) (hp_BlockFragment p))
  | RqPriority _ p => FPriority (mkPriorityFrame h p)
  | RqRSTStream _ c => FRSTStream (mkRSTStreamFrame h c)
  | RqSettings _ | RqSettingsAck => FSettings (mkSettingsFrame h (rq_payload q))
  | RqPushPromise p => FPushPromise (mkPushPromiseFrame h (pp_PromiseID p) (pp_BlockFragment p))
  | RqPing _ d => FPing (mkPingFrame h d)
  | RqGoAway s c d => FGoAway (mkGoAwayFrame h s c d)
  | RqWindowUpdate _ i => FWindowUpdate (mkWindownUpdateFrame h i)
  | RqContinuation _ _ fr => FContinuation (mkContinuationFrame h fr)
  end.

(** Is the initial window that a list of settings asks for (the first setting
    of that name) above 2^31-1? *)
Definition window_over (l : list Setting) : bool :=
  match find (fun s => ID s =? SettingInitialWindowSize) l with
  | Some s => 2 ^ 31 - 1 <? Val s
  | None => false
  end.

(** The requests whose frames come back unchanged. *)
Definition readable (q : request) : Prop :=
  match q with
  | RqSettings l => window_over l = false
  | RqGoAway _ _ _ => False
  | _ => True
  end.

(** What [ReadFrame] answers to the frame of a request: the frame, but a
    GOAWAY frame has its last stream id as its error code, and settings with an
    initial window above 2^31-1 are refused (RFC 7540, 6.5.2). *)
Definition read_back (q : request) : res (http2_error E) Frame :=
  match q with
  | RqGoAway s _ d => Ok (FGoAway (mkGoAwayFrame (header_q q) s s d))
  | RqSettings l =>
      if window_over l then Err (ConnectionError ErrCodeFlowControl) else Ok (rq_frame q)
  | _ => Ok (rq_frame q)
  end.

(** *** Settings *)

Lemma setting_bytes_len s : length (setting_bytes s) = 6%nat.
Proof. unfold setting_bytes. by rewrite length_app, !length_be_bytes. Qed.

Lemma settings_len l : length (concat (map setting_bytes l)) = (length l * 6)%nat.
Proof.
  induction l as [|s l IH]; [done|]. cbn [map concat length]. rewrite length_app, setting_bytes_len, IH. lia.
Qed.

Definition setting_ok (s : Setting) : Prop := 0 <= ID s < 2 ^ 16 /\ 0 <= Val s < 2 ^ 32.

Lemma slice_mid (a b c : bytes) i j :
  i = length a -> j = (length a + length b)%nat -> (slice (a ++ b ++ c) i j : P bytes) = Ok b.
Proof.
  intros -> ->. unfold slice. rewrite (proj2 (Nat.leb_le _ _)) by lia.
  rewrite (proj2 (Nat.leb_le _ _)) by (rewrite !length_app; lia). simpl.
  rewrite drop_app_length, take_app_le by lia. by rewrite take_ge by lia.
Qed.

Lemma Setting_at_nth h (l1 l2 : list Setting) s :
  setting_ok s ->
  (Setting_at (mkSettingsFrame h (concat (map setting_bytes (l1 ++ s :: l2)))) (length l1)
    : P Setting) = Ok s.
Proof.
  intros [Hi Hv]. unfold Setting_at. cbn [sf_p]. rewrite map_app, concat_app.
  cbn [map concat]. pose proof (settings_len l1) as Hl.
  set (a := concat (map setting_bytes l1)) in *. set (c := concat (map setting_bytes l2)).
  unfold setting_bytes. rewrite <- app_assoc.
  rewrite (slice_mid a (be_bytes 2 (ID s)) (be_bytes 4 (Val s) ++ c))
    by (rewrite ?length_be_bytes; lia).
  cbn [res_bind]. rewrite (app_assoc a).
  rewrite (slice_mid (a ++ be_bytes 2 (ID s)) (be_bytes 4 (Val s)) c)
    by (rewrite ?length_app, ?length_be_bytes; lia).
  cbn [res_bind]. rewrite u32_be4 by done. rewrite be_val_be_bytes.
  rewrite Z.mod_small by (simpl; lia). by destruct s.
Qed.

(** First value with an id, from position [length l1] on. *)
Lemma Value_loop_find h id l1 l2 :
  Forall setting_ok l2 ->
  (Value_loop (mkSettingsFrame h (concat (map setting_bytes (l1 ++ l2)))) id (length l1)
     (length l2) : P (option Z)) =
    Ok (option_map Val (find (fun s => ID s =? id) l2)).
Proof.
  intros Hl. revert l1. induction Hl as [|s l2 Hs Hl IH]; intros l1; [done|].
  cbn [length Value_loop]. rewrite Setting_at_nth by done. cbn [res_bind].
  simpl find. destruct (ID s =? id); [done|].
  specialize (IH (l1 ++ [s])). rewrite <- app_assoc, length_app, Nat.add_1_r in IH. exact IH.
Qed.

Lemma NumSettings_len h l :
  NumSettings (mkSettingsFrame h (concat (map setting_bytes l))) = length l.
Proof. unfold NumSettings. cbn [sf_p]. by rewrite settings_len, Nat.div_mul. Qed.

Lemma SettingsFrame_Value_find h id l :
  valid h = true -> Forall setting_ok l ->
  (SettingsFrame_Value (mkSettingsFrame h (concat (map setting_bytes l))) id : P (option Z)) =
    Ok (option_map Val (find (fun s => ID s =? id) l)).
Proof.
  intros Hv Hl. unfold SettingsFrame_Value, checkValid. cbn [sf_header]. rewrite Hv. simpl.
  rewrite NumSettings_len. by apply (Value_loop_find h id []).
Qed.

(** *** Each parser *)

Lemma u32_read v : 0 <= v < 2 ^ 32 -> BigEndian_Uint32 (be_bytes 4 v) = v.
Proof. intros. unfold BigEndian_Uint32. rewrite take_ge by (by rewrite length_be_bytes). by apply u32_be4. Qed.

Lemma u32_read_app v p : 0 <= v < 2 ^ 32 -> BigEndian_Uint32 (be_bytes 4 v ++ p) = v.
Proof.
  intros. unfold BigEndian_Uint32. rewrite take_app_le by (by rewrite length_be_bytes).
  rewrite take_ge by (by rewrite length_be_bytes). by apply u32_be4.
Qed.

Lemma stream_nonzero s : stream_ok s -> s =? 0 = false.
Proof. intros [? ?]. apply Z.eqb_neq. lia. Qed.

Lemma flags_data e pad :
  Has (flag e 1 + flag (bool_decide (is_Some pad)) 8) FlagHeadersPadded =
    bool_decide (is_Some (pad : option bytes)).
Proof. by destruct e, (bool_decide (is_Some pad)). Qed.

Lemma parse_data s e d pad :
  request_ok (RqData s e d pad) ->
  (parseDataFrame (header_q (RqData s e d pad)) (rq_payload (RqData s e d pad)) : P Frame) =
    Ok (rq_frame (RqData s e d pad)).
Proof.
  intros (Hs & Hd & Hp). unfold parseDataFrame. cbn [header_q StreamID Flags rq_flags rq_stream].
  rewrite stream_nonzero, flags_data by done. cbn [rq_payload].
  destruct pad as [p|]; simpl bool_decide; cbv iota.
  - cbn [readByte app or_count res_bind]. pose proof (len_nonneg d).
    rewrite (proj2 (Z.ltb_ge _ _)) by (rewrite len_app; lia).
    by rewrite slice_app.
  - cbn [res_bind]. rewrite (proj2 (Z.ltb_ge _ _)) by apply len_nonneg.
    rewrite <- (app_nil_r d) at 1 2. by rewrite slice_app.
Qed.

Lemma flags_headers (a b c d : bool) :
  let fl := flag a 1 + flag b 4 + flag c 8 + flag d 32 in
  Has fl FlagHeadersPadded = c /\ Has fl FlagHeadersPriority = d /\
  Has fl FlagHeadersEndHeaders = b /\ Has fl FlagHeadersEndStream = a.
Proof. by destruct a, b, c, d. Qed.

(** The optional pad length byte. *)
Lemma read_pad token n (rest : bytes) :
  (if negb (n =? 0) then or_count token (readByte (pad_field n ++ rest))
   else Ok (pad_field n ++ rest, 0) : P (bytes * Z)) = Ok (rest, n).
Proof. unfold pad_field. by destruct (Z.eqb_spec n 0) as [->|]. Qed.

Lemma len_pad n : is_byte n -> n = len (replicate (Z.to_nat n) 0).
Proof. intros [? ?]. unfold len. rewrite length_replicate. lia. Qed.

Lemma parse_headers p :
  request_ok (RqHeaders p) ->
  (parseHeadersFrame (header_q (RqHeaders p)) (rq_payload (RqHeaders p)) : P Frame) =
    Ok (rq_frame (RqHeaders p)).
Proof.
  intros (Hs & Hb & Hp & Hd & Hw). unfold parseHeadersFrame.
  cbn [header_q StreamID Flags rq_flags rq_stream].
  destruct (flags_headers (hp_EndStream p) (hp_EndHeaders p) (negb (hp_PadLength p =? 0))
    (negb (IsZero (hp_Priority p)))) as (F8 & F32 & _ & _). rewrite F8, F32. clear F8 F32.
  rewrite stream_nonzero by done. cbn [rq_payload]. rewrite read_pad. cbn [res_bind].
  pose proof (len_pad _ Hp) as Hpad. pose proof (len_nonneg (hp_BlockFragment p)).
  destruct (IsZero (hp_Priority p)) eqn:Ez; simpl negb; cbv iota.
  - cbn [res_bind app]. rewrite (proj2 (Z.ltb_ge _ _)) by (rewrite len_app; lia).
    rewrite slice_app by done. apply bool_decide_eq_true in Ez. cbn [rq_frame].
    by rewrite Ez.
  - unfold priority_bytes. rewrite <- app_assoc.
    destruct (mask31_exclusive (StreamDep (hp_Priority p)) (Exclusive (hp_Priority p)) Hd)
      as (M1 & M2 & M3).
    rewrite readUint32_be by done. cbn [or_count res_bind readByte app]. rewrite M1, M2.
    rewrite (proj2 (Z.ltb_ge _ _)) by (rewrite len_app; lia).
    rewrite slice_app by done. cbn [rq_frame]. by destruct (hp_Priority p).
Qed.

Lemma parse_push p :
  request_ok (RqPushPromise p) ->
  (parsePushPromise (header_q (RqPushPromise p)) (rq_payload (RqPushPromise p)) : P Frame) =
    Ok (rq_frame (RqPushPromise p)).
Proof.
  intros (Hs & Hpr & Hb & Hp). unfold parsePushPromise.
  cbn [header_q StreamID Flags rq_flags rq_stream].
  assert (Has (flag (pp_EndHeaders p) 4 + flag (negb (pp_PadLength p =? 0)) 8)
    FlagPushPromisePadded = negb (pp_PadLength p =? 0)) as ->
    by (by destruct (pp_EndHeaders p), (pp_PadLength p =? 0)).
  rewrite stream_nonzero by done. cbn [rq_payload]. rewrite read_pad. cbn [res_bind].
  pose proof (len_pad _ Hp) as Hpad. pose proof (len_nonneg (pp_BlockFragment p)).
  destruct Hpr as [Hp0 Hp1]. rewrite readUint32_be by lia. cbn [or_count res_bind].
  rewrite mask31_small by lia.
  rewrite (proj2 (Z.ltb_ge _ _)) by (rewrite len_app; lia). by rewrite slice_app.
Qed.

Lemma parse_settings fl l :
  let p := concat (map setting_bytes l) in
  let h := mkFrameHeader true FrameSettings fl (len p) 0 in
  (fl = 1 /\ l = [] \/ fl = 0) -> Forall setting_ok l ->
  (parseSettingsFrame h p : P Frame) =
    if window_over l
    then counted "frame_settings_window_size_too_big" (ConnectionError ErrCodeFlowControl)
    else Ok (FSettings (mkSettingsFrame h p)).
Proof.
  intros p h Hfl Hl. unfold parseSettingsFrame. cbn [h Flags Length StreamID].
  assert ((Has fl FlagSettingsAck && (0 <? len p))%bool = false) as ->.
  { destruct Hfl as [[-> ->]| ->]; done. }
  simpl negb at 1. cbv iota.
  assert (len p mod 6 = 0) as ->.
  { unfold p, len. rewrite settings_len, Nat2Z.inj_mul. apply Z.mod_mul. done. }
  simpl negb. cbv iota. unfold p at 1. rewrite SettingsFrame_Value_find by done. cbn [res_bind].
  unfold window_over. by destruct (find _ l) as [s|].
Qed.

(** The parser decodes [p[:8]] where the error code is in [p[4:8]]. *)
Lemma parse_goaway s c d :
  request_ok (RqGoAway s c d) ->
  (parseGoAwayFrame (header_q (RqGoAway s c d)) (rq_payload (RqGoAway s c d)) : P Frame) =
    Ok (FGoAway (mkGoAwayFrame (header_q (RqGoAway s c d)) s s d)).
Proof.
  intros (Hs & Hc & Hd). pose proof (len_nonneg d). unfold parseGoAwayFrame.
  change (StreamID (header_q _)) with 0. cbn [rq_payload].
  rewrite !len_app, !len_be_bytes, (proj2 (Z.ltb_ge _ 8)) by lia. simpl negb. cbv iota.
  rewrite !slice_ok by (rewrite ?length_app, ?length_be_bytes; lia). cbn [res_bind].
  rewrite !drop_0. cbn [Nat.sub]. unfold BigEndian_Uint32. rewrite !take_take. cbn [Nat.min].
  rewrite take_app_le by (by rewrite length_be_bytes).
  rewrite take_ge by (by rewrite length_be_bytes). rewrite u32_be4, mask31_small by lia.
  rewrite app_assoc, drop_app_le by (rewrite length_app, !length_be_bytes; lia).
  by rewrite drop_ge by (rewrite length_app, !length_be_bytes; lia).
Qed.

Lemma parse_read_back q :
  request_ok q ->
  (typeFrameParser (rq_type q) (header_q q) (rq_payload q) : P Frame) =
    match read_back q with
    | Err e => counted "frame_settings_window_size_too_big" e
    | Ok f => Ok f
    | Panic m => Panic m
    | NoFuel => NoFuel
    end.
Proof.
  intros Hq. destruct q as [s e d pad|p|s p|s c|l| |p|ack d|s c d|s i|s e fr].
  - by apply parse_data.
  - by apply parse_headers.
  - destruct Hq as [Hs [Hd Hw]]. cbn [typeFrameParser rq_type]. unfold typeFrameParser. simpl.
    unfold parsePriorityFrame. cbn [header_q StreamID rq_stream]. rewrite stream_nonzero by done.
    cbn [rq_payload]. unfold priority_bytes at 1. rewrite len_app, len_be_bytes. simpl negb. cbv iota.
    unfold priority_bytes. rewrite slice_take by (rewrite length_app, length_be_bytes; simpl; lia).
    cbn [res_bind]. rewrite take_app_le by (by rewrite length_be_bytes).
    rewrite take_ge by (by rewrite length_be_bytes).
    destruct (mask31_exclusive (StreamDep p) (Exclusive p) Hd) as (M1 & M2 & M3).
    rewrite u32_read, M1 by done.
    rewrite lookup_app_r by (by rewrite length_be_bytes). rewrite length_be_bytes. simpl.
    rewrite Z.eqb_sym, M2. by destruct p.
  - destruct Hq as [Hs Hc]. unfold typeFrameParser. simpl. unfold parseRSTStreamFrame.
    cbn [header_q StreamID rq_stream rq_payload]. rewrite len_be_bytes, stream_nonzero by done.
    simpl negb. cbv iota. rewrite slice_take by (by rewrite length_be_bytes). cbn [res_bind].
    rewrite take_ge by (by rewrite length_be_bytes). by rewrite u32_read.
  - etransitivity; [apply (parse_settings 0 l); [by right|exact Hq]|]. cbn [read_back].
    by destruct (window_over l).
  - apply (parse_settings 1 []); [by left|done].
  - by apply parse_push.
  - destruct Hq as [Hd Hl]. unfold typeFrameParser. simpl. unfold parsePingFrame.
    cbn [header_q StreamID rq_stream rq_payload]. unfold len. rewrite Hl. simpl.
    unfold copy8. rewrite take_ge, Hl, app_nil_r by lia. done.
  - by apply parse_goaway.
  - destruct Hq as [Hs Hi]. unfold typeFrameParser. simpl. unfold parseWindowUpdateFrame.
    cbn [header_q StreamID rq_stream rq_payload]. rewrite len_be_bytes. simpl negb. cbv iota.
    rewrite slice_take by (by rewrite length_be_bytes). cbn [res_bind].
    rewrite take_ge by (by rewrite length_be_bytes). rewrite u32_read, mask31_small by lia.
    by rewrite (proj2 (Z.eqb_neq i 0)) by lia.
  - destruct Hq as [Hs Hf]. unfold typeFrameParser. simpl. unfold parseContinuationFrame.
    cbn [header_q StreamID rq_stream]. by rewrite stream_nonzero.
Qed.

Lemma read_back_readable q : readable q -> read_back q = Ok (rq_frame q).
Proof. destruct q; cbn [readable read_back]; intros Hr; rewrite ?Hr; done. Qed.

Lemma parse_request q :
  request_ok q -> readable q ->
  (typeFrameParser (rq_type q) (header_q q) (rq_payload q) : P Frame) = Ok (rq_frame q).
Proof. intros Hq Hr. by rewrite parse_read_back, read_back_readable by done. Qed.
End Parse.

(** ** [ReadFrame] on a byte stream *)

Lemma length3_bits a b c :
  is_byte a -> is_byte b -> is_byte c ->
  Z.lor (Z.lor (Z.shiftl a 16) (Z.shiftl b 8)) c = be_val [a; b; c].
Proof.
  unfold is_byte. intros Ha Hb Hc.
  rewrite (Z.shiftl_mul_pow2 b 8), lor_shiftl by lia.
  replace (a * 2 ^ 16 + b * 2 ^ 8) with ((a * 2 ^ 8 + b) * 2 ^ 8) by lia.
  rewrite lor_disjoint by lia. unfold be_val, len. simpl. lia.
Qed.

Lemma header_of_bytes t fl sid n :
  0 <= n < 2 ^ 24 -> 0 <= sid < 2 ^ 31 ->
  header_of (be_bytes 3 n ++ [t; fl] ++ be_bytes 4 sid) = mkFrameHeader true t fl n sid.
Proof.
  intros Hn Hs. pose proof (length_be_bytes 4 sid) as Hl.
  pose proof (u32_be4 sid ltac:(lia)) as Hv. set (s := be_bytes 4 sid) in *. clearbody s.
  pose proof (be_val_be_bytes 3 n) as Hb. rewrite Z.mod_small in Hb by done.
  unfold header_of. unfold be_bytes in *. cbn [nth app drop].
  rewrite drop_0, take_ge by lia. rewrite Hv, length3_bits, Hb by apply is_byte_u8.
  by rewrite land_mask, Z.mod_small by lia.
Qed.

Section Reading.
Context {W : Type}.
Notation Fr := (Framer stream W).
Notation M := (stateful Fr (http2_error Empty_set)).

(** A framer whose buffers have the sizes the code gives them. *)
Definition framer_ok {R} (fr : Framer R W) : Prop :=
  length (headerBuf fr) = frameHeaderLen /\ 0 <= maxReadSize fr <= maxFrameSize.

(** The framer after a frame's bytes have been read. *)
Definition after_read (fr : Fr) (head payload rest : bytes) : Fr :=
  let fr := set_r (set_headerBuf (set_errDetail fr None) head) (mkStream rest) in
  set_readBuf fr (payload ++ drop (length payload)
    (if len payload <=? len (readBuf fr) then readBuf fr else [])).

Lemma read_full_stream (fr : Fr) fuel buf s rest :
  length s = length buf -> unread (r fr) = s ++ rest ->
  read_full (Datatypes.S fuel) buf fr = (Ok (s, None), set_r fr (mkStream rest)).
Proof.
  intros Hl Hu. unfold read_full. destruct (r fr) as [u] eqn:Er. simpl in Hu. subst u.
  destruct buf as [|b buf].
  - destruct s; [|done]. unfold ReadFull, ReadAtLeast. simpl.
    by destruct fuel.
  - by rewrite ReadFull_stream.
Qed.

Lemma ReadFrame_bytes (fr : Fr) fuel t fl sid payload rest :
  framer_ok fr -> 0 <= sid < 2 ^ 31 -> len payload <= maxReadSize fr ->
  unread (r fr) = frame_bytes t fl sid payload ++ rest ->
  ReadFrame_plain (Datatypes.S fuel) fr =
    (let* f := run_parser (typeFrameParser t (mkFrameHeader true t fl (len payload) sid) payload) in
     checkFrameOrder f ;;; st_ret f)
    (after_read fr (be_bytes 3 (len payload) ++ [t; fl] ++ be_bytes 4 sid) payload rest).
Proof.
  intros [Hhb Hmax] Hs Hlen Hu. pose proof (len_nonneg payload).
  set (head := be_bytes 3 (len payload) ++ [t; fl] ++ be_bytes 4 sid).
  assert (frame_bytes t fl sid payload ++ rest = head ++ payload ++ rest) as Hb.
  { unfold frame_bytes, head. by rewrite <- !app_assoc. }
  unfold ReadFrame_plain, readFrameHeader, st_bind, st_mod, st_get, st_ret.
  set (fr1 := set_errDetail fr None).
  rewrite (read_full_stream fr1 fuel (headerBuf fr1) head (payload ++ rest));
    [|symmetry; exact Hhb|rewrite <- Hb; exact Hu]. cbv iota beta.
  assert (header_of head = mkFrameHeader true t fl (len payload) sid) as ->
    by (apply header_of_bytes; unfold maxFrameSize in *; lia).
  cbn [Length Type_].
  change (maxReadSize (set_headerBuf (set_r fr1 (mkStream (payload ++ rest))) head))
    with (maxReadSize fr).
  rewrite (proj2 (Z.ltb_ge _ _)) by done.
  unfold getReadBuf.
  change (readBuf (set_headerBuf (set_r fr1 (mkStream (payload ++ rest))) head)) with (readBuf fr).
  unfold after_read. fold fr1.
  change (readBuf (set_r (set_headerBuf fr1 head) (mkStream rest))) with (readBuf fr).
  destruct (Z.leb_spec (len payload) (len (readBuf fr))) as [Hle|Hgt]; cbv iota beta.
  - rewrite (read_full_stream _ fuel _ payload rest);
      [|rewrite length_take; unfold len in *; lia|done]. done.
  - rewrite (read_full_stream _ fuel _ payload rest);
      [|rewrite length_replicate; unfold len in *; lia|done]. cbv iota beta.
    cbn [readBuf set_r set_readBuf set_headerBuf].
    rewrite drop_ge by (rewrite length_replicate; unfold len in *; lia).
    rewrite drop_nil. done.
Qed.

(** The frames that may come next (RFC 7540, 6.10). *)
Definition may_follow {R} (fr : Framer R W) (t sid : Z) : Prop :=
  AllowIllegalReads fr = true \/
  (lastHeaderStream fr = 0 /\ t <> FrameContinuation) \/
  (lastHeaderStream fr <> 0 /\ t = FrameContinuation /\ sid = lastHeaderStream fr).

Lemma checkFrameOrder_ok {R E} (fr : Framer R W) f :
  may_follow fr (Type_ (Header f)) (StreamID (Header f)) ->
  exists fr', (checkFrameOrder f : stateful (Framer R W) (http2_error E) unit) fr = (Ok tt, fr') /\
    r fr' = r fr /\ wbuf fr' = wbuf fr /\ readBuf fr' = readBuf fr.
Proof.
  intros Hm. unfold checkFrameOrder.
  change (AllowIllegalReads (set_lastFrame fr (Some f))) with (AllowIllegalReads fr).
  change (lastHeaderStream (set_lastFrame fr (Some f))) with (lastHeaderStream fr).
  unfold may_follow in Hm.
  destruct (AllowIllegalReads fr); [eexists; split; [reflexivity|done]|].
  destruct Hm as [?|[[H0 Ht]|(H0 & Ht & Hs)]]; [done|..].
  - rewrite H0. simpl. rewrite (proj2 (Z.eqb_neq (Type_ _) FrameContinuation)) by done.
    rewrite orb_false_r. destruct (_ =? _); [|(eexists; split; [reflexivity|done])]. destruct (Has _ _); (eexists; split; [reflexivity|done]).
  - rewrite (proj2 (Z.eqb_neq _ 0)) by done. rewrite Ht, Hs, !Z.eqb_refl. simpl.
    destruct (Has _ _); (eexists; split; [reflexivity|done]).
Qed.

Lemma Header_rq_frame q : Header (rq_frame q) = header_q q.
Proof. by destruct q. Qed.

Lemma Header_read_back {E} q f : (read_back q : res (http2_error E) Frame) = Ok f -> Header f = header_q q.
Proof.
  destruct q; cbn [read_back]; try (intros [= <-]; done).
  destruct (window_over _); [done|]. by intros [= <-].
Qed.

Lemma rq_stream_range q : request_ok q -> 0 <= rq_stream q < 2 ^ 31.
Proof. destruct q; simpl; unfold stream_ok; lia. Qed.

End Reading.

