(* ===== verification/FrameProps.v ===== *)
(** * Frames the parsers accept

    No payload makes a parser panic; what the accessors of SETTINGS read; which
    frames are refused for their size or order; the types of parsed frames: a
    frame has the dynamic type its header names, and its fields satisfy what
    RFC 7540 requires of that type; the error code of GOAWAY. *)
From S2P Require Import Prelude Io Http2Types Frame Framer FrameWire FrameRead.

Local Open Scope Z_scope.
Local Open Scope go_scope.

#[local] Arguments be_bytes : simpl never.

(** ** Safety of the parsers *)

Definition no_panic {E A} (m : res E A) : Prop :=
  match m with Ok _ | Err _ => True | Panic _ | NoFuel => False end.

Section Safety.
Context {E : Type}.
Notation P A := (res (option string * http2_error E) A).

Lemma no_panic_bind {E' A B} (m : res E' A) (k : A -> res E' B) :
  no_panic m -> (forall a, m = Ok a -> no_panic (k a)) -> no_panic (res_bind m k).
Proof. destruct m; simpl; auto. Qed.

Lemma slice_no_panic (s : bytes) a b :
  (a <= b)%nat -> (b <= length s)%nat -> no_panic (slice s a b : P bytes).
Proof. intros. by rewrite slice_ok. Qed.

Lemma or_count_no_panic {A} t (m : res (io_error E) A) :
  no_panic m -> no_panic (or_count t m : P A).
Proof. by destruct m. Qed.

Lemma readByte_no_panic p : no_panic (readByte p : res (io_error E) _).
Proof. by destruct p. Qed.
Lemma readUint32_no_panic p : no_panic (readUint32 p : res (io_error E) _).
Proof. unfold readUint32. by destruct (_ <? _). Qed.

Lemma Setting_at_no_panic f i : (i < NumSettings f)%nat -> no_panic (Setting_at f i : P Setting).
Proof.
  intros Hi. unfold NumSettings in Hi. unfold Setting_at.
  assert (i * 6 + 6 <= length (sf_p f))%nat as Hlen.
  { pose proof (Nat.Div0.mul_div_le (length (sf_p f)) 6). lia. }
  by rewrite !slice_ok by lia.
Qed.

Lemma Value_loop_no_panic f id i n :
  (i + n <= NumSettings f)%nat -> no_panic (Value_loop f id i n : P _).
Proof.
  revert i. induction n as [|n IH]; intros i Hi; simpl; [done|].
  apply no_panic_bind; [apply Setting_at_no_panic; lia|]. intros s _.
  destruct (_ =? _); [done|]. apply IH. lia.
Qed.

Lemma or_count_inv {A} t (m : res (io_error E) A) a : (or_count t m : P A) = Ok a -> m = Ok a.
Proof. by destruct m; simpl; intros; simplify_eq. Qed.

Lemma readByte_inv p p' b :
  (readByte p : res (io_error E) _) = Ok (p', b) -> is_bytes p -> is_byte b /\ is_bytes p'.
Proof. destruct p; simpl; [done|]. intros [= <- <-]. apply is_bytes_cons. Qed.

Lemma readUint32_inv p p' v :
  (readUint32 p : res (io_error E) _) = Ok (p', v) -> is_bytes p -> is_bytes p'.
Proof.
  unfold readUint32. destruct (_ <? _); [done|]. intros [= <- _] ?. by apply is_bytes_drop.
Qed.

(** The optional pad length: a byte, so never negative. *)
Lemma opt_pad_inv (b : bool) t p p' n :
  is_bytes p -> (if b then or_count t (readByte p) else Ok (p, 0) : P _) = Ok (p', n) ->
  0 <= n /\ is_bytes p'.
Proof.
  intros Hp. destruct b; [|by intros [= <- <-]].
  intros [[? ?] ?]%or_count_inv%readByte_inv; done.
Qed.

Lemma opt_pad_no_panic (b : bool) t p :
  no_panic (if b then or_count t (readByte p) else Ok (p, 0) : P (bytes * Z)).
Proof. destruct b; [apply or_count_no_panic, readByte_no_panic|done]. Qed.

Lemma cut_no_panic {A} p n (k : bytes -> P A) :
  0 <= n <= len p -> (forall d, no_panic (k d)) ->
  no_panic (res_bind (slice p 0 (Z.to_nat (len p - n))) k).
Proof.
  intros Hn Hk. apply no_panic_bind; [|auto]. apply slice_no_panic; [lia|]. unfold len in *. lia.
Qed.

Lemma first4_no_panic {A} p (k : bytes -> P A) :
  (4 <= length p)%nat -> (forall d, no_panic (k d)) -> no_panic (res_bind (slice p 0 4) k).
Proof. intros Hl Hk. apply no_panic_bind; [|auto]. apply slice_no_panic; lia. Qed.

Lemma parseHeaders_no_panic fh p : is_bytes p -> no_panic (parseHeadersFrame fh p : P Frame).
Proof.
  intros Hp. unfold parseHeadersFrame. destruct (_ =? 0); [done|].
  apply no_panic_bind; [apply opt_pad_no_panic|]. intros [p1 pad] H1.
  apply opt_pad_inv in H1 as [Hpad Hp1]; [|done].
  apply no_panic_bind.
  - destruct (Has _ _); [|done].
    apply no_panic_bind; [apply or_count_no_panic, readUint32_no_panic|]. intros [p2 v] _.
    apply no_panic_bind; [apply or_count_no_panic, readByte_no_panic|]. by intros [p3 w] _.
  - intros [p2 prio] _. destruct (Z.ltb_spec (len p2 - pad) 0); [done|].
    by apply cut_no_panic; [lia|].
Qed.

Lemma parseSettings_no_panic fh p :
  valid fh = true -> no_panic (parseSettingsFrame fh p : P Frame).
Proof.
  intros Hv. unfold parseSettingsFrame. destruct (_ && _); [done|].
  destruct (negb (StreamID fh =? 0)); [done|]. destruct (negb (len p mod 6 =? 0)); [done|].
  apply no_panic_bind.
  - unfold SettingsFrame_Value, checkValid. cbn [sf_header]. rewrite Hv. simpl.
    apply Value_loop_no_panic. lia.
  - intros [v|] _; [by destruct (_ <? _)|done].
Qed.

Lemma parsePush_no_panic fh p : is_bytes p -> no_panic (parsePushPromise fh p : P Frame).
Proof.
  intros Hp. unfold parsePushPromise. destruct (_ =? 0); [done|].
  apply no_panic_bind; [apply opt_pad_no_panic|]. intros [p1 pad] H1.
  apply opt_pad_inv in H1 as [Hpad Hp1]; [|done].
  apply no_panic_bind; [apply or_count_no_panic, readUint32_no_panic|]. intros [p2 v] _.
  destruct (Z.ltb_spec (len p2) pad); [done|]. by apply cut_no_panic; [lia|].
Qed.

(** No payload, of any length, makes a frame parser panic or index out
    of range: it returns a frame or an error. *)
Theorem typeFrameParser_no_panic t fh p :
  valid fh = true -> is_bytes p -> no_panic (typeFrameParser t fh p : P Frame).
Proof.
  intros Hv Hp. unfold typeFrameParser.
  repeat match goal with |- no_panic ((if ?b then _ else _) _ _) => destruct b end.
  - unfold parseDataFrame. destruct (_ =? 0); [done|].
    apply no_panic_bind; [apply opt_pad_no_panic|]. intros [p1 pad] H1.
    apply opt_pad_inv in H1 as [Hpad Hp1]; [|done].
    destruct (Z.ltb_spec (len p1) pad); [done|]. by apply cut_no_panic; [lia|].
  - by apply parseHeaders_no_panic.
  - unfold parsePriorityFrame. destruct (_ =? 0); [done|].
    destruct (Z.eqb_spec (len p) 5) as [Hl|]; [|done]. unfold len in Hl. simpl.
    apply first4_no_panic; [lia|]. intros d.
    destruct (lookup_lt_is_Some_2 p 4) as [x ->]; [lia|done].
  - unfold parseRSTStreamFrame. destruct (Z.eqb_spec (len p) 4) as [Hl|]; [|done].
    unfold len in Hl. simpl. destruct (_ =? 0); [done|]. by apply first4_no_panic; [lia|].
  - by apply parseSettings_no_panic.
  - by apply parsePush_no_panic.
  - unfold parsePingFrame. destruct (negb _); [done|]. by destruct (negb _).
  - unfold parseGoAwayFrame. destruct (negb _); [done|].
    destruct (Z.ltb_spec (len p) 8) as [|Hl]; [done|]. unfold len in Hl.
    apply first4_no_panic; [lia|]. intros d.
    apply no_panic_bind; [apply slice_no_panic; lia|done].
  - unfold parseWindowUpdateFrame. destruct (Z.eqb_spec (len p) 4) as [Hl|]; [|done].
    unfold len in Hl. simpl. apply first4_no_panic; [lia|]. intros d.
    destruct (_ =? 0); [|done]. by destruct (_ =? 0).
  - unfold parseContinuationFrame. by destruct (_ =? 0).
  - done.
Qed.
End Safety.

Lemma typeFrameParser_no_panic_witness :
  no_panic (typeFrameParser FrameHeaders (mkFrameHeader true FrameHeaders 0x28 3 1) [7; 0; 0]
    : res (option string * http2_error Empty_set) Frame).
Proof. apply typeFrameParser_no_panic; [done|solve_bytes]. Defined.

(** ** SETTINGS payloads *)

Section Settings.
Context {E : Type}.
Notation P A := (res (option string * http2_error E) A).

(** Any payload of a length divisible by six is a list of settings. *)
Lemma settings_of_payload p :
  is_bytes p -> len p mod 6 = 0 ->
  exists l, p = concat (map setting_bytes l) /\ Forall setting_ok l.
Proof.
  intros Hp Hm. assert (exists n, length p = (n * 6)%nat) as [n Hn].
  { exists (Z.to_nat (len p / 6)). unfold len in *. zdiv_lia. }
  clear Hm. revert p Hp Hn. induction n as [|n IH]; intros p Hp Hn.
  - destruct p; [|done]. by exists [].
  - destruct (IH (drop 6 p)) as (l & Hl & Hok);
      [by apply is_bytes_drop|rewrite length_drop; lia|].
    exists (mkSetting (be_val (take 2 p)) (be_val (take 4 (drop 2 p))) :: l).
    assert (is_bytes (take 2 p) /\ is_bytes (take 4 (drop 2 p))) as [H2 H4]
      by auto using is_bytes_take, is_bytes_drop.
    pose proof (be_val_bound _ H2) as B2. pose proof (be_val_bound _ H4) as B4.
    pose proof (be_bytes_be_val _ H2) as E2. pose proof (be_bytes_be_val _ H4) as E4.
    assert (length (take 2 p) = 2%nat) as L2 by (rewrite length_take; lia).
    assert (length (take 4 (drop 2 p)) = 4%nat) as L4 by (rewrite length_take, length_drop; lia).
    unfold len in B2, B4. rewrite L2 in B2, E2. rewrite L4 in B4, E4.
    split; [|by constructor].
    cbn [map concat]. unfold setting_bytes at 1. cbn [ID Val]. rewrite E2, E4, <- Hl.
    replace (drop 6 p) with (drop 4 (drop 2 p)) by (by rewrite drop_drop).
    by rewrite <- app_assoc, take_drop, take_drop.
Qed.

Lemma dup_inner_exists h idi l1 l2 :
  Forall setting_ok l2 ->
  (dup_inner (mkSettingsFrame h (concat (map setting_bytes (l1 ++ l2)))) idi (length l1)
    (length l2) : P bool) = Ok (existsb (fun s => idi =? ID s) l2).
Proof.
  intros Hl. revert l1. induction Hl as [|s l2 Hs Hl IH]; intros l1; [done|].
  cbn [length dup_inner]. rewrite Setting_at_nth by done. cbn [res_bind existsb].
  destruct (idi =? ID s); [done|].
  specialize (IH (l1 ++ [s])). rewrite <- app_assoc, length_app, Nat.add_1_r in IH. exact IH.
Qed.

Lemma existsb_ids idi l : existsb (fun s => idi =? ID s) l = bool_decide (idi ∈ map ID l).
Proof.
  induction l as [|s l IH]; simpl; [done|]. rewrite IH.
  destruct (Z.eqb_spec idi (ID s)) as [->|Hne]; simpl.
  - symmetry. apply bool_decide_eq_true. left.
  - apply bool_decide_ext. rewrite elem_of_cons. tauto.
Qed.

(** Has a list of settings two with the same id? *)
Definition dup_ids (l : list Setting) : bool := bool_decide (~ NoDup (map ID l)).

Lemma dup_ids_cons s l :
  dup_ids (s :: l) = bool_decide (ID s ∈ map ID l) || dup_ids l.
Proof.
  unfold dup_ids. simpl map. apply eq_true_iff_eq.
  rewrite orb_true_iff, !bool_decide_eq_true, list.NoDup_cons.
  destruct (decide (ID s ∈ map ID l)); tauto.
Qed.

Lemma dup_outer_dup h l1 l2 :
  Forall setting_ok l2 ->
  (dup_outer (mkSettingsFrame h (concat (map setting_bytes (l1 ++ l2)))) (length l1)
    (length l2) : P bool) = Ok (dup_ids l2).
Proof.
  intros Hl. revert l1. induction Hl as [|s l2 Hs Hl IH]; intros l1; [done|].
  cbn [length dup_outer]. rewrite Setting_at_nth by done. cbn [res_bind].
  pose proof (dup_inner_exists h (ID s) (l1 ++ [s]) l2 Hl) as Hi.
  rewrite <- app_assoc, length_app, Nat.add_1_r in Hi. simpl app in Hi. rewrite Hi.
  cbn [res_bind]. rewrite existsb_ids, dup_ids_cons.
  destruct (bool_decide (ID s ∈ map ID l2)); [done|].
  specialize (IH (l1 ++ [s])). rewrite <- app_assoc, length_app, Nat.add_1_r in IH. exact IH.
Qed.

Lemma existsb_seen i (seen : gset Z) l :
  existsb (fun s => bool_decide (ID s ∈ ({[i]} ∪ seen : gset Z))) l =
    existsb (fun s => bool_decide (ID s ∈ seen)) l || bool_decide (i ∈ map ID l).
Proof.
  induction l as [|s l IH]; simpl; [done|]. rewrite IH.
  assert (bool_decide (ID s ∈ ({[i]} ∪ seen : gset Z)) =
    bool_decide (ID s = i) || bool_decide (ID s ∈ seen)) as ->.
  { apply eq_true_iff_eq. rewrite orb_true_iff, !bool_decide_eq_true. set_solver. }
  assert (bool_decide (i ∈ ID s :: map ID l) =
    bool_decide (ID s = i) || bool_decide (i ∈ map ID l)) as ->.
  { apply eq_true_iff_eq. rewrite orb_true_iff, !bool_decide_eq_true, elem_of_cons.
    split; (intros [?|?]; [left; congruence|by right]). }
  destruct (bool_decide (ID s = i)), (bool_decide (ID s ∈ seen)); simpl; rewrite ?orb_true_r; done.
Qed.

Lemma dup_seen_dup h l1 l2 (seen : gset Z) :
  Forall setting_ok l2 ->
  (dup_seen (mkSettingsFrame h (concat (map setting_bytes (l1 ++ l2)))) seen (length l1)
    (length l2) : P bool) =
    Ok (existsb (fun s => bool_decide (ID s ∈ seen)) l2 || dup_ids l2).
Proof.
  intros Hl. revert l1 seen. induction Hl as [|s l2 Hs Hl IH]; intros l1 seen; [done|].
  cbn [length dup_seen]. rewrite Setting_at_nth by done. cbn [res_bind existsb].
  destruct (decide (ID s ∈ seen)) as [Hin|Hin]; [by rewrite bool_decide_true|].
  rewrite bool_decide_false by done. simpl orb.
  specialize (IH (l1 ++ [s]) ({[ID s]} ∪ seen)).
  rewrite <- app_assoc, length_app, Nat.add_1_r in IH. etransitivity; [exact IH|]. f_equal.
  rewrite dup_ids_cons, existsb_seen. by rewrite orb_assoc.
Qed.

(** On every SETTINGS payload of a valid length, [HasDuplicates] tells
    whether two settings share an id (both its algorithms agree), and
    [Value] finds the first setting with an id. *)
Theorem settings_accessors h p :
  valid h = true -> is_bytes p -> len p mod 6 = 0 ->
  exists l, p = concat (map setting_bytes l) /\
    (HasDuplicates (mkSettingsFrame h p) : P bool) = Ok (bool_decide (~ NoDup (map ID l))) /\
    forall id, (SettingsFrame_Value (mkSettingsFrame h p) id : P (option Z)) =
      Ok (option_map Val (find (fun s => ID s =? id) l)).
Proof.
  intros Hv Hp Hm. destruct (settings_of_payload p Hp Hm) as (l & -> & Hl).
  exists l. split; [done|]. split; [|intros; by apply SettingsFrame_Value_find].
  fold (dup_ids l). unfold HasDuplicates. rewrite NumSettings_len.
  destruct (Nat.eqb_spec (length l) 0) as [H0|]; [by destruct l|].
  pose proof (dup_outer_dup h [] l Hl) as Ho. pose proof (dup_seen_dup h [] l ∅ Hl) as Hs.
  cbn [app length] in Ho, Hs.
  match type of Hs with context [existsb ?P l] => assert (existsb P l = false) as Hempty end.
  { apply not_true_iff_false. rewrite existsb_exists. intros (x & _ & Hx).
    apply bool_decide_eq_true in Hx. set_solver. }
  rewrite Hempty in Hs. cbn [orb] in Hs.
  destruct (length l <? 10)%nat; [rewrite Ho|]; cbn [res_bind]; [|exact Hs].
  destruct (dup_ids l); [done|exact Hs].
Qed.
End Settings.

Lemma settings_accessors_witness :
  let h := mkFrameHeader true FrameSettings 0 12 0 in
  let p := [0; 1; 0; 0; 16; 0; 0; 1; 0; 0; 0; 5] in
  exists l, p = concat (map setting_bytes l) /\
    (HasDuplicates (mkSettingsFrame h p) : res (option string * http2_error Empty_set) bool)
      = Ok (bool_decide (~ NoDup (map ID l))) /\
    forall id, (SettingsFrame_Value (mkSettingsFrame h p) id
        : res (option string * http2_error Empty_set) (option Z)) =
      Ok (option_map Val (find (fun s => ID s =? id) l)).
Proof. apply settings_accessors; [done|solve_bytes|done]. Defined.

(** ** GOAWAY *)

(** The error code of a GOAWAY frame is lost on reading: the parser decodes
    [p[:8]] where [p[4:8]] was written, so every GOAWAY frame comes back with
    its last stream id as the error code. *)
Theorem goaway_code_is_stream_id s c d (fw : Framer stream bytes) :
  request_ok (RqGoAway s c d) -> 8 + len d < 2 ^ 24 ->
  exists b fw', write_request (RqGoAway s c d) fw = (Ok tt, fw') /\ w fw' = w fw ++ b /\
    forall (fr : Framer stream bytes) fuel rest,
      framer_ok fr -> 8 + len d <= maxReadSize fr -> may_follow fr FrameGoAway 0 ->
      unread (r fr) = b ++ rest ->
      exists fr', ReadFrame_plain (Datatypes.S fuel) fr =
        (Ok (FGoAway (mkGoAwayFrame (header_q (RqGoAway s c d)) s s d)), fr').
Proof.
  intros Hq Hlen. set (q := RqGoAway s c d) in *.
  assert (len (rq_payload q) = 8 + len d) as Hp.
  { unfold q. cbn [rq_payload]. rewrite !len_app, !len_be_bytes. lia. }
  exists (frame_bytes (rq_type q) (rq_flags q) (rq_stream q) (rq_payload q)). eexists.
  rewrite write_request_frame by done. unfold write_frame, send.
  rewrite Hp, (proj2 (Z.ltb_lt _ _)) by done. cbn [WriteTo buffer_Writer]. rewrite Z.eqb_refl.
  split; [done|]. split; [done|]. intros fr fuel rest Hok Hsize Hm Hu.
  rewrite (ReadFrame_bytes fr fuel _ _ _ _ rest Hok (rq_stream_range q Hq)
    ltac:(by rewrite Hp) Hu).
  unfold st_bind at 1, run_parser. change (rq_type q) with FrameGoAway.
  change (mkFrameHeader true _ _ _ _) with (header_q q).
  change (typeFrameParser FrameGoAway) with (@parseGoAwayFrame Empty_set).
  rewrite (parse_goaway s c d Hq). fold q.
  unfold st_bind, st_ret. set (fr1 := after_read _ _ _ _).
  destruct (checkFrameOrder_ok (E := Empty_set) fr1
    (FGoAway (mkGoAwayFrame (header_q q) s s d))) as (fr' & Hcheck & _); [exact Hm|].
  rewrite Hcheck. by exists fr'.
Qed.

Lemma goaway_code_is_stream_id_witness :
  let fw := NewFramer ([] : bytes) (mkStream []) in
  exists b fw', write_request (RqGoAway 7 ErrCodeEnhanceYourCalm (str "bye")) fw = (Ok tt, fw') /\
    w fw' = w fw ++ b /\
    forall (fr : Framer stream bytes) fuel rest,
      framer_ok fr -> 8 + len (str "bye") <= maxReadSize fr -> may_follow fr FrameGoAway 0 ->
      unread (r fr) = b ++ rest ->
      exists fr', ReadFrame_plain (Datatypes.S fuel) fr =
        (Ok (FGoAway (mkGoAwayFrame
           (header_q (RqGoAway 7 ErrCodeEnhanceYourCalm (str "bye"))) 7 7 (str "bye"))), fr').
Proof.
  intros fw. apply (goaway_code_is_stream_id 7 ErrCodeEnhanceYourCalm (str "bye") fw); [|done].
  cbn [request_ok]. unfold ErrCodeEnhanceYourCalm. split_and!; try lia. solve_bytes.
Defined.

(** ** Size limits *)

(** A frame whose announced length is above the limit set with
    [SetMaxReadFrameSize] is refused right after its header: none of its
    payload is read, and no limit can be set above 2^24-1. *)
Theorem oversized_frame_refused {W} (fr : Framer stream W) v fuel t fl sid n rest :
  length (headerBuf fr) = frameHeaderLen -> 0 <= sid < 2 ^ 31 ->
  0 <= v -> Z.min v maxFrameSize < n < 2 ^ 24 ->
  unread (r fr) = be_bytes 3 n ++ [t; fl] ++ be_bytes 4 sid ++ rest ->
  exists fr', ReadFrame_plain (Datatypes.S fuel) (SetMaxReadFrameSize fr v) =
    (Err ErrFrameTooLarge, fr') /\ unread (r fr') = rest /\ lastFrame fr' = lastFrame fr.
Proof.
  intros Hhb Hs Hv Hn Hu. set (head := be_bytes 3 n ++ [t; fl] ++ be_bytes 4 sid).
  unfold ReadFrame_plain, readFrameHeader, st_bind, st_mod, st_get, st_ret.
  set (fr1 := set_errDetail _ None).
  rewrite (read_full_stream fr1 fuel (headerBuf fr1) head rest);
    [|symmetry; exact Hhb|unfold head; rewrite <- !app_assoc; exact Hu]. cbv iota beta.
  assert (header_of head = mkFrameHeader true t fl n sid) as ->
    by (apply header_of_bytes; unfold maxFrameSize in *; lia).
  cbn [Length]. cbn [maxReadSize set_headerBuf set_r].
  change (maxReadSize fr1) with (if maxFrameSize <? v then maxFrameSize else v).
  rewrite (proj2 (Z.ltb_lt _ _)); [by eexists|].
  destruct (Z.ltb_spec maxFrameSize v); unfold maxFrameSize in *; lia.
Qed.

Lemma oversized_frame_refused_witness :
  let fr := set_r (NewFramer ([] : bytes) (mkStream []))
              (mkStream (be_bytes 3 20000 ++ [0; 0] ++ be_bytes 4 1 ++ [9; 9])) in
  exists fr', ReadFrame_plain 1 (SetMaxReadFrameSize fr 16384) = (Err ErrFrameTooLarge, fr') /\
    unread (r fr') = [9; 9] /\ lastFrame fr' = lastFrame fr.
Proof.
  intros fr. apply (oversized_frame_refused fr 16384 0 0 0 1 20000 [9; 9]); try done; lia.
Defined.

(** ** The order of HEADERS and CONTINUATION frames *)

(** [blocks l s]: in the sequence [l] every header block that a HEADERS frame
    starts is contiguous, that is, an unfinished HEADERS frame is followed by
    CONTINUATION frames of its stream up to the one with END_HEADERS (RFC 7540,
    6.10), and there are no other CONTINUATION frames; [l] leaves the block of
    stream [s] unfinished, none when [s] is 0. To the code a PUSH_PROMISE frame
    is a frame like any other, with END_HEADERS or without it: see
    [push_promise_block_refused]. *)
Definition end_headers (h : FrameHeader) : bool := Has (Flags h) FlagHeadersEndHeaders.

Definition more_of (s : Z) (h : FrameHeader) : Prop :=
  Type_ h = FrameContinuation /\ StreamID h = s /\ end_headers h = false.
Definition last_of (s : Z) (h : FrameHeader) : Prop :=
  Type_ h = FrameContinuation /\ StreamID h = s /\ end_headers h = true.

Inductive blocks : list FrameHeader -> Z -> Prop :=
  | blocks_nil : blocks [] 0
  | blocks_other h l s :
      Type_ h <> FrameHeaders -> Type_ h <> FrameContinuation -> blocks l s -> blocks (h :: l) s
  | blocks_single h l s :
      Type_ h = FrameHeaders -> end_headers h = true -> blocks l s -> blocks (h :: l) s
  | blocks_chain h cs c l s :
      Type_ h = FrameHeaders -> end_headers h = false ->
      Forall (more_of (StreamID h)) cs -> last_of (StreamID h) c -> blocks l s ->
      blocks (h :: cs ++ c :: l) s
  | blocks_unfinished h cs :
      Type_ h = FrameHeaders -> end_headers h = false ->
      Forall (more_of (StreamID h)) cs -> blocks (h :: cs) (StreamID h).

(** [checkFrameOrder] on a sequence of frames. *)
Fixpoint check_all {R W E} (l : list Frame) : stateful (Framer R W) (http2_error E) unit :=
  match l with
  | [] => st_ret tt
  | f :: l => checkFrameOrder f ;;; check_all l
  end.

(** What may follow while a block of stream [open] is open. *)
Definition open_block (open : Z) (l : list FrameHeader) (s : Z) : Prop :=
  (Forall (more_of open) l /\ s = open) \/
  exists cs c l', l = cs ++ c :: l' /\ Forall (more_of open) cs /\ last_of open c /\ blocks l' s.

Definition expected (open : Z) (l : list FrameHeader) (s : Z) : Prop :=
  if open =? 0 then blocks l s else open_block open l s.

(** The stream of the block that [h] leaves open. *)
Definition next_open (open : Z) (h : FrameHeader) : Z :=
  if (Type_ h =? FrameHeaders) || (Type_ h =? FrameContinuation)
  then if end_headers h then 0 else StreamID h else open.

Definition allowed (open : Z) (h : FrameHeader) : bool :=
  if open =? 0 then negb (Type_ h =? FrameContinuation)
  else (Type_ h =? FrameContinuation) && (StreamID h =? open).

Lemma checkFrameOrder_step {R W E} (fr : Framer R W) f :
  AllowIllegalReads fr = false -> (lastHeaderStream fr <> 0 -> is_Some (lastFrame fr)) ->
  exists res fr', (checkFrameOrder f : stateful _ (http2_error E) unit) fr = (res, fr') /\
    lastFrame fr' = Some f /\ AllowIllegalReads fr' = false /\
    if allowed (lastHeaderStream fr) (Header f)
    then res = Ok tt /\ lastHeaderStream fr' = next_open (lastHeaderStream fr) (Header f)
    else res = Err (ConnectionError ErrCodeProtocol).
Proof.
  intros Hill Hlast. unfold checkFrameOrder, allowed, next_open, end_headers.
  change (AllowIllegalReads (set_lastFrame fr (Some f))) with (AllowIllegalReads fr).
  change (lastHeaderStream (set_lastFrame fr (Some f))) with (lastHeaderStream fr).
  rewrite Hill. set (h := Header f).
  destruct (Z.eqb_spec (lastHeaderStream fr) 0) as [H0|H0]; simpl.
  - destruct (Z.eqb_spec (Type_ h) FrameContinuation) as [Hc|Hc]; simpl;
      [do 2 eexists; split; [reflexivity|done]|].
    rewrite orb_false_r. destruct (_ =? _); [destruct (Has _ _)|];
      do 2 eexists; (split; [reflexivity|done]).
  - destruct (Hlast H0) as [last ->].
    destruct (Z.eqb_spec (Type_ h) FrameContinuation) as [Hc|Hc]; simpl;
      [|do 2 eexists; split; [reflexivity|done]].
    destruct (Z.eqb_spec (StreamID h) (lastHeaderStream fr)) as [Hs|Hs]; simpl;
      [|do 2 eexists; split; [reflexivity|done]].
    rewrite Hc, orb_true_r. destruct (Has _ _); do 2 eexists; (split; [reflexivity|done]).
Qed.

Lemma open_block_cons open h l s :
  open_block open (h :: l) s <->
  more_of open h /\ open_block open l s \/ last_of open h /\ blocks l s.
Proof.
  unfold open_block. split.
  - intros [[Hf ->]|(cs & c & l' & Heq & Hcs & Hl & Hb)].
    + apply Forall_cons_iff in Hf as [? ?]. left. tauto.
    + destruct cs as [|c' cs]; simplify_eq/=; [by right|].
      apply Forall_cons_iff in Hcs as [? ?]. left. split; [done|]. right. by exists cs, c, l'.
  - intros [[Hm [[Hf ->]|(cs & c & l' & -> & Hcs & Hl & Hb)]]|[Hl Hb]].
    + left. by split; [constructor|].
    + right. exists (h :: cs), c, l'. by split_and!; [|constructor| |].
    + right. by exists [], h, l.
Qed.

Lemma blocks_headers h l s :
  Type_ h = FrameHeaders ->
  blocks (h :: l) s <-> if end_headers h then blocks l s else open_block (StreamID h) l s.
Proof.
  intros Hh. split.
  - inversion 1 as [|? ? ? H1 H2 Hl|? ? ? H1 H2 Hl|? cs c l' ? H1 H2 Hcs Hc Hl|? ? H1 H2 Hcs]; subst.
    + done.
    + by rewrite H2.
    + rewrite H2. right. by exists cs, c, l'.
    + rewrite H2. by left.
  - destruct (end_headers h) eqn:Ee; [by apply blocks_single|].
    intros [[Hf ->]|(cs & c & l' & -> & Hcs & Hl & Hb)];
      [by apply blocks_unfinished|by apply blocks_chain].
Qed.

Lemma expected_cons open h l s :
  (Type_ h = FrameHeaders \/ Type_ h = FrameContinuation -> StreamID h <> 0) ->
  expected open (h :: l) s <-> allowed open h = true /\ expected (next_open open h) l s.
Proof.
  intros Hnz. unfold expected, allowed, next_open.
  destruct (Z.eqb_spec open 0) as [->|Ho].
  - rewrite negb_true_iff, Z.eqb_neq.
    destruct (Z.eqb_spec (Type_ h) FrameHeaders) as [Hh|Hh]; simpl.
    + rewrite blocks_headers by done. rewrite Hh. destruct (end_headers h); [(split; [by intros|by intros []])|].
      rewrite (proj2 (Z.eqb_neq (StreamID h) 0)) by auto. (split; [by intros|by intros []]).
    + destruct (Z.eqb_spec (Type_ h) FrameContinuation) as [Hc|Hc]; simpl.
      * split; [|tauto]. inversion 1; congruence.
      * split; [inversion 1; subst; tauto|]. intros []. by apply blocks_other.
  - rewrite andb_true_iff, !Z.eqb_eq, open_block_cons. unfold more_of, last_of.
    destruct (Z.eqb_spec (Type_ h) FrameContinuation) as [Hc|Hc]; [|tauto].
    rewrite orb_true_r. destruct (end_headers h); simpl; [intuition congruence|].
    destruct (Z.eqb_spec (StreamID h) 0) as [Hs|Hs]; [exfalso; apply Hnz; auto|].
    split; [intros [((?&<-&?)&?)|[(?&?&?) ?]]; [auto|done]|].
    intros [[? <-] ?]. auto.
Qed.

Lemma check_all_expected {R W E} l (fr : Framer R W) s :
  AllowIllegalReads fr = false -> (lastHeaderStream fr <> 0 -> is_Some (lastFrame fr)) ->
  Forall (fun f => Type_ (Header f) = FrameHeaders \/ Type_ (Header f) = FrameContinuation ->
    StreamID (Header f) <> 0) l ->
  expected (lastHeaderStream fr) (map Header l) s <->
  exists fr', (check_all l : stateful _ (http2_error E) unit) fr = (Ok tt, fr') /\
    lastHeaderStream fr' = s.
Proof.
  intros Hill Hlast Hl. revert fr Hill Hlast. induction Hl as [|f l Hf Hl IH]; intros fr Hill Hlast.
  - simpl. unfold expected, open_block, st_ret.
    transitivity (s = lastHeaderStream fr); [|split; [intros ->; by exists fr|by intros (? & [= <-] & <-)]].
    destruct (Z.eqb_spec (lastHeaderStream fr) 0) as [H0|H0].
    + rewrite H0. split; [by inversion 1|intros ->; constructor].
    + split; [intros [[_ ->]|([] & c & l' & Heq & _)]; done|]. intros ->. left. by split; [constructor|].
  - cbn [map check_all]. rewrite expected_cons by done.
    destruct (checkFrameOrder_step (E := E) fr f Hill Hlast)
      as (rs & fr1 & Hstep & Hlf & Hill1 & Hres).
    unfold st_bind. rewrite Hstep.
    destruct (allowed (lastHeaderStream fr) (Header f)).
    + destruct Hres as [-> Hopen]. rewrite <- Hopen, (IH fr1 Hill1); [tauto|].
      intros _. by rewrite Hlf.
    + subst rs. split; [by intros []|]. by intros (? & ? & _).
Qed.

(** C35: from a fresh framer, [checkFrameOrder] accepts a sequence of frames
    exactly when every header block that a HEADERS frame in it starts is
    contiguous (the last may be unfinished, and [lastHeaderStream] is then its
    stream), whatever the other frames are. PUSH_PROMISE frames count as other
    frames: the code does not look at their END_HEADERS flag. *)
Theorem checkFrameOrder_blocks {R W E} (w0 : W) (r0 : R) l s :
  Forall (fun f => Type_ (Header f) = FrameHeaders \/ Type_ (Header f) = FrameContinuation ->
    StreamID (Header f) <> 0) l ->
  blocks (map Header l) s <->
  exists fr', (check_all l : stateful _ (http2_error E) unit) (NewFramer w0 r0) = (Ok tt, fr') /\
    lastHeaderStream fr' = s.
Proof. intros Hl. by apply (check_all_expected l (NewFramer w0 r0)). Qed.

Lemma checkFrameOrder_blocks_witness :
  let h t fl s := mkFrameHeader true t fl 0 s in
  let l := [FHeaders (mkHeadersFrame (h FrameHeaders 0 3) zeroPriority []);
            FContinuation (mkContinuationFrame (h FrameContinuation 4 3) []);
            FData (mkDataFrame (h FrameData 1 3) []);
            FHeaders (mkHeadersFrame (h FrameHeaders 0 5) zeroPriority [])] in
  blocks (map Header l) 5 <->
  exists fr', (check_all l : stateful _ (http2_error Empty_set) unit)
      (NewFramer ([] : bytes) (mkStream [])) = (Ok tt, fr') /\ lastHeaderStream fr' = 5.
Proof.
  intros h l. apply checkFrameOrder_blocks.
  apply Forall_cons_iff. split; [done|]. apply Forall_cons_iff. split; [done|].
  apply Forall_cons_iff. split; [done|]. apply Forall_cons_iff. split; [done|constructor].
Defined.

(** The comments on [PushPromiseFrame.HeadersEnded] and [headersEnder] say that
    a PUSH_PROMISE frame without END_HEADERS must be followed by a CONTINUATION
    frame of its stream. [checkFrameOrder] does the opposite: after such a frame
    it refuses every CONTINUATION frame and accepts every other frame. *)
Theorem push_promise_block_refused {R W E} (fr : Framer R W) p f :
  AllowIllegalReads fr = false -> lastHeaderStream fr = 0 ->
  Type_ (pp_header p) = FramePushPromise -> end_headers (pp_header p) = false ->
  exists fr', (check_all [FPushPromise p; f] : stateful _ (http2_error E) unit) fr =
    (if Type_ (Header f) =? FrameContinuation then Err (ConnectionError ErrCodeProtocol) else Ok tt, fr').
Proof.
  intros Hill H0 Ht _. cbn [check_all]. unfold st_bind.
  destruct (checkFrameOrder_step (E := E) fr (FPushPromise p) Hill) as (rs & fr1 & -> & Hl1 & Hill1 & Hr1);
    [by rewrite H0|].
  unfold allowed, next_open in Hr1. rewrite H0 in Hr1. cbn [Header] in Hr1. rewrite Ht in Hr1. cbn in Hr1.
  destruct Hr1 as [-> H1].
  destruct (checkFrameOrder_step (E := E) fr1 f Hill1) as (rs & fr2 & -> & _ & _ & Hr2);
    [by rewrite H1|].
  unfold allowed in Hr2. rewrite H1 in Hr2. simpl in Hr2. exists fr2.
  destruct (_ =? FrameContinuation); simpl in Hr2; [by rewrite Hr2|]. by destruct Hr2 as [-> _].
Qed.

(** ** The types of parsed frames *)

(** The type byte of the frames of a dynamic type. *)
Definition frame_code (f : Frame) : option Z :=
  match f with
  | FData _ => Some FrameData
  | FHeaders _ => Some FrameHeaders
  | FPriority _ => Some FramePriority
  | FRSTStream _ => Some FrameRSTStream
  | FSettings _ => Some FrameSettings
  | FPushPromise _ => Some FramePushPromise
  | FPing _ => Some FramePing
  | FGoAway _ => Some FrameGoAway
  | FWindowUpdate _ => Some FrameWindowUpdate
  | FContinuation _ => Some FrameContinuation
  | FUnknown _ => None
  end.

(** The type of a header agrees with a dynamic type; type bytes above
    CONTINUATION have none. *)
Definition has_type (f : Frame) (t : Z) : Prop :=
  match frame_code f with Some c => t = c | None => forall g c, frame_code g = Some c -> t <> c end.

Definition on_stream (fh : FrameHeader) : Prop := StreamID fh <> 0.
Definition on_connection (fh : FrameHeader) : Prop := StreamID fh = 0.
Definition stream_number (v : Z) : Prop := 0 <= v < 2 ^ 31.
Definition priority_ok (p : PriorityParam) : Prop := stream_number (StreamDep p) /\ is_byte (Weight p).

(** [d] is the payload [p] without its padding. *)
Definition fragment (d p : bytes) : Prop := is_bytes d /\ len d <= len p.

Definition well_formed (f : Frame) (p : bytes) : Prop :=
  match f with
  | FData f => on_stream (df_header f) /\ fragment (data f) p
  | FHeaders f =>
      on_stream (hf_header f) /\ fragment (headerFragBuf f) p /\ priority_ok (Priority f) /\
      (Has (Flags (hf_header f)) FlagHeadersPriority = false -> Priority f = zeroPriority)
  | FPriority f => on_stream (pf_header f) /\ len p = 5 /\ priority_ok (pf_param f)
  | FRSTStream f => on_stream (rf_header f) /\ len p = 4 /\ 0 <= rf_ErrCode f < 2 ^ 32
  | FSettings f =>
      on_connection (sf_header f) /\ sf_p f = p /\ len p mod 6 = 0 /\
      (Has (Flags (sf_header f)) FlagSettingsAck = true -> Length (sf_header f) <= 0)
  | FPushPromise f => on_stream (pp_header f) /\ stream_number (PromiseID f) /\ fragment (pp_headerFragBuf f) p
  | FPing f => on_connection (ping_header f) /\ len p = 8 /\ ping_Data f = p
  | FGoAway f => on_connection (ga_header f) /\ stream_number (LastStreamID f) /\ debugData f = drop 8 p
  | FWindowUpdate f => len p = 4 /\ 1 <= Increment f < 2 ^ 31
  | FContinuation f => on_stream (cf_header f) /\ cf_headerFragBuf f = p
  | FUnknown f => uf_p f = p
  end.

(** ** Inversion *)

Section Inv.
Context {E : Type}.
Notation P A := (res (option string * http2_error E) A).

Lemma res_bind_inv {E' A B} (m : res E' A) (k : A -> res E' B) b : res_bind m k = Ok b -> exists a, m = Ok a /\ k a = Ok b.
Proof. destruct m; [eauto|done..]. Qed.

Lemma slice_inv (s : bytes) a b d : (slice s a b : P bytes) = Ok d -> is_bytes s -> d = take (b - a) (drop a s) /\ is_bytes d /\ len d <= len s.
Proof.
  unfold slice. destruct (_ && _); [|done]. intros [= <-] Hs. split; [done|]. split; [by apply is_bytes_take, is_bytes_drop|].
  unfold len. rewrite length_take, length_drop. lia.
Qed.

Lemma mask31_range v : stream_number (mask31 v).
Proof.
  unfold stream_number, mask31. change 0x7fffffff with (Z.ones 31). rewrite Z.land_ones by lia. by apply Z.mod_pos_bound.
Qed.

Lemma Uint32_range d : is_bytes d -> 0 <= BigEndian_Uint32 d < 2 ^ 32.
Proof.
  intros Hd. pose proof (be_val_bound (take 4 d) ltac:(by apply is_bytes_take)) as Hb. unfold BigEndian_Uint32.
  assert (len (take 4 d) <= 4) by (unfold len; rewrite length_take; lia).
  pose proof (Z.pow_le_mono_r 2 (8 * len (take 4 d)) 32 ltac:(lia) ltac:(lia)). lia.
Qed.

Lemma opt_pad_len (b : bool) t p p' n : (if b then or_count t (readByte p) else Ok (p, 0) : P _) = Ok (p', n) -> len p' <= len p.
Proof.
  destruct b; [|by intros [= -> _]]. intros H%or_count_inv. destruct p; [done|]. injection H as <- _. rewrite len_cons. lia.
Qed.

Lemma readUint32_len p p' v : (readUint32 p : res (io_error E) _) = Ok (p', v) -> len p' <= len p.
Proof. unfold readUint32. destruct (_ <? _); [done|]. intros [= <- _]. unfold len. rewrite length_drop. lia. Qed.

Lemma readByte_len p p' v : (readByte p : res (io_error E) _) = Ok (p', v) -> len p' <= len p.
Proof. destruct p; [done|]. intros [= <- _]. rewrite len_cons. lia. Qed.

#[local] Ltac invert_parser := repeat match goal with
  | H : res_bind _ _ = Ok _ |- _ => apply res_bind_inv in H as (? & ? & H)
  | H : (if ?b then _ else _) = Ok _ |- _ => destruct b eqn:?; [try discriminate H|try discriminate H]
  | H : counted _ _ = Ok _ |- _ => discriminate H
  | H : Ok _ = Ok _ |- _ => injection H as <-
  end.

Lemma data_ok fh p f : is_bytes p -> (parseDataFrame fh p : P Frame) = Ok f -> Header f = fh /\ frame_code f = Some FrameData /\ well_formed f p.
Proof.
  intros Hp H. unfold parseDataFrame in H. destruct (Z.eqb_spec (StreamID fh) 0) as [|Hs]; [done|].
  apply res_bind_inv in H as ([p1 pad] & H1 & H). destruct (_ <? _); [done|]. apply res_bind_inv in H as (d & H2 & H). injection H as <-.
  pose proof (opt_pad_len _ _ _ _ _ H1) as Hl. apply opt_pad_inv in H1 as [_ Hp1]; [|done].
  apply slice_inv in H2 as (_ & Hd & Hld); [|done]. split; [done|]. split; [done|]. split; [done|]. split; [done|]. cbn [data]. lia.
Qed.

Lemma headers_ok fh p f : is_bytes p -> (parseHeadersFrame fh p : P Frame) = Ok f ->
  Header f = fh /\ frame_code f = Some FrameHeaders /\ well_formed f p.
Proof.
  intros Hp H. unfold parseHeadersFrame in H. destruct (Z.eqb_spec (StreamID fh) 0) as [|Hs]; [done|].
  apply res_bind_inv in H as ([p1 pad] & H1 & H). apply res_bind_inv in H as ([p2 prio] & H2 & H). destruct (_ <? _); [done|].
  apply res_bind_inv in H as (d & H3 & H). injection H as <-.
  pose proof (opt_pad_len _ _ _ _ _ H1) as Hl. apply opt_pad_inv in H1 as [_ Hp1]; [|done].
  assert (is_bytes p2 /\ len p2 <= len p1 /\ priority_ok prio /\ (Has (Flags fh) FlagHeadersPriority = false -> prio = zeroPriority)) as (Hp2 & Hl2 & Hprio & Hz).
  { destruct (Has (Flags fh) FlagHeadersPriority).
    - apply res_bind_inv in H2 as ([q v] & Hq & H2). apply res_bind_inv in H2 as ([q2 w] & Hw & H2). injection H2 as <- <-.
      apply or_count_inv in Hq, Hw. pose proof (readUint32_len _ _ _ Hq). pose proof (readByte_len _ _ _ Hw).
      apply readUint32_inv in Hq; [|done]. apply readByte_inv in Hw as [? ?]; [|done].
      split; [done|]. split; [lia|]. split; [split; [apply mask31_range|done]|done].
    - injection H2 as <- <-. split; [done|]. split; [lia|]. split; [|done]. by vm_compute. }
  apply slice_inv in H3 as (_ & Hd & Hld); [|done]. split; [done|]. split; [done|]. split; [done|]. split; [split; [done|cbn [headerFragBuf]; lia]|]. by split.
Qed.

Lemma push_ok fh p f : is_bytes p -> (parsePushPromise fh p : P Frame) = Ok f ->
  Header f = fh /\ frame_code f = Some FramePushPromise /\ well_formed f p.
Proof.
  intros Hp H. unfold parsePushPromise in H. destruct (Z.eqb_spec (StreamID fh) 0) as [|Hs]; [done|].
  apply res_bind_inv in H as ([p1 pad] & H1 & H). apply res_bind_inv in H as ([p2 v] & H2 & H). destruct (_ <? _); [done|].
  apply res_bind_inv in H as (d & H3 & H). injection H as <-.
  pose proof (opt_pad_len _ _ _ _ _ H1) as Hl. apply opt_pad_inv in H1 as [_ Hp1]; [|done]. apply or_count_inv in H2.
  pose proof (readUint32_len _ _ _ H2). apply readUint32_inv in H2; [|done].
  apply slice_inv in H3 as (_ & Hd & Hld); [|done]. split; [done|]. split; [done|]. split; [done|]. split; [apply mask31_range|]. split; [done|cbn [pp_headerFragBuf]; lia].
Qed.

Lemma small_ok fh p f t : is_bytes p ->
  (t = FramePriority /\ (parsePriorityFrame fh p : P Frame) = Ok f \/ t = FrameRSTStream /\ (parseRSTStreamFrame fh p : P Frame) = Ok f \/
   t = FrameGoAway /\ (parseGoAwayFrame fh p : P Frame) = Ok f \/ t = FrameWindowUpdate /\ (parseWindowUpdateFrame fh p : P Frame) = Ok f) ->
  Header f = fh /\ frame_code f = Some t /\ well_formed f p.
Proof.
  intros Hp [[-> H]|[[-> H]|[[-> H]|[-> H]]]].
  - unfold parsePriorityFrame in H. invert_parser. bool_to_Prop. destruct (p !! 4%nat) as [w|] eqn:Ew; [|done]. injection H as <-.
    split; [done|]. split; [done|]. split; [done|]. split; [done|]. split; [apply mask31_range|].
    unfold is_bytes in Hp. rewrite Forall_lookup in Hp. by eapply Hp.
  - unfold parseRSTStreamFrame in H. invert_parser. bool_to_Prop. apply slice_inv in H0 as (_ & Hd & _); [|done].
    split; [done|]. split; [done|]. split; [done|]. split; [done|]. by apply Uint32_range.
  - unfold parseGoAwayFrame in H. invert_parser. bool_to_Prop. split; [done|]. split; [done|]. split; [done|]. split; [apply mask31_range|done].
  - unfold parseWindowUpdateFrame in H. invert_parser. bool_to_Prop. split; [done|]. split; [done|]. split; [done|].
    pose proof (mask31_range (BigEndian_Uint32 x)) as [? ?]. cbn [Increment]. lia.
Qed.

Lemma settings_ok fh p f : (parseSettingsFrame fh p : P Frame) = Ok f -> Header f = fh /\ frame_code f = Some FrameSettings /\ well_formed f p.
Proof.
  intros H. unfold parseSettingsFrame in H. destruct (Has (Flags fh) FlagSettingsAck && (0 <? Length fh)) eqn:Ea; [done|].
  destruct (negb (StreamID fh =? 0)) eqn:Es; [done|]. destruct (negb (len p mod 6 =? 0)) eqn:Em; [done|]. bool_to_Prop.
  assert (f = FSettings (mkSettingsFrame fh p)) as ->.
  { apply res_bind_inv in H as (v & _ & H). destruct v as [v|]; [destruct (Z.ltb_spec (2 ^ 31 - 1) v); [discriminate H|]|]; by injection H as <-. }
  split; [done|]. split; [done|]. split; [done|]. split; [done|]. split; [done|]. cbn [sf_header]. intros Hack. rewrite Hack in Ea.
  cbn in Ea. by apply Z.ltb_ge in Ea.
Qed.

Lemma ping_ok fh p f : (parsePingFrame fh p : P Frame) = Ok f -> Header f = fh /\ frame_code f = Some FramePing /\ well_formed f p.
Proof.
  intros H. unfold parsePingFrame in H. invert_parser. bool_to_Prop. split; [done|]. split; [done|]. split; [done|]. split; [done|].
  cbn [ping_Data]. unfold copy8, len in *. rewrite take_ge by lia. replace (8 - length p)%nat with 0%nat by lia. by rewrite app_nil_r.
Qed.

(** C36: a frame that a parser returns keeps the header it was given, has the
    dynamic type of the header's type byte, and is well formed: on a stream or
    on the connection as its type demands, with stream numbers below 2^31, an
    increment of at least 1, fragments within the payload, and PING data,
    settings and unknown payloads unchanged. *)
Theorem parsed_frame_typed fh p f : is_bytes p -> (typeFrameParser (Type_ fh) fh p : P Frame) = Ok f ->
  Header f = fh /\ has_type f (Type_ (Header f)) /\ well_formed f p.
Proof.
  intros Hp H. assert (forall t, Type_ fh = t -> Header f = fh /\ frame_code f = Some t /\ well_formed f p ->
    Header f = fh /\ has_type f (Type_ (Header f)) /\ well_formed f p) as K.
  { intros t <- (Eh & Ec & Hw). split; [done|]. split; [|done]. unfold has_type. by rewrite Ec, Eh. }
  unfold typeFrameParser in H.
  destruct (Z.eqb_spec (Type_ fh) FrameData) as [Et|N0]; [by apply (K _ Et), data_ok|].
  destruct (Z.eqb_spec (Type_ fh) FrameHeaders) as [Et|N1]; [by apply (K _ Et), headers_ok|].
  destruct (Z.eqb_spec (Type_ fh) FramePriority) as [Et|N2]; [by apply (K _ Et), small_ok; [|left]|].
  destruct (Z.eqb_spec (Type_ fh) FrameRSTStream) as [Et|N3]; [by apply (K _ Et), small_ok; [|right; left]|].
  destruct (Z.eqb_spec (Type_ fh) FrameSettings) as [Et|N4]; [by apply (K _ Et), settings_ok|].
  destruct (Z.eqb_spec (Type_ fh) FramePushPromise) as [Et|N5]; [by apply (K _ Et), push_ok|].
  destruct (Z.eqb_spec (Type_ fh) FramePing) as [Et|N6]; [by apply (K _ Et), ping_ok|].
  destruct (Z.eqb_spec (Type_ fh) FrameGoAway) as [Et|N7]; [by apply (K _ Et), small_ok; [|right; right; left]|].
  destruct (Z.eqb_spec (Type_ fh) FrameWindowUpdate) as [Et|N8]; [by apply (K _ Et), small_ok; [|right; right; right]|].
  destruct (Z.eqb_spec (Type_ fh) FrameContinuation) as [Et|N9].
  - apply (K _ Et). unfold parseContinuationFrame in H. invert_parser. bool_to_Prop. by repeat split.
  - injection H as <-. split; [done|]. split; [|done]. intros g c Hg. cbn [Header uf_header]. destruct g; try discriminate Hg; by injection Hg as <-.
Qed.

End Inv.

Lemma parsed_frame_typed_witness :
  exists f : Frame, (typeFrameParser FramePriority (mkFrameHeader true FramePriority 0 5 3) [128; 0; 0; 1; 15] :
    res (option string * http2_error Empty_set) Frame) = Ok f /\ has_type f FramePriority /\ well_formed f [128; 0; 0; 1; 15].
Proof.
  set (fh := mkFrameHeader true FramePriority 0 5 3).
  exists (FPriority (mkPriorityFrame fh (mkPriorityParam 1 true 15))). split; [reflexivity|].
  destruct (@parsed_frame_typed Empty_set fh [128; 0; 0; 1; 15] (FPriority (mkPriorityFrame fh (mkPriorityParam 1 true 15)))) as (_ & Ht & Hw).
  - by vm_compute; repeat constructor.
  - reflexivity.
  - split; [exact Ht|exact Hw].
Defined.
