(* ===== verification/FrameHeld.v ===== *)
(** * Frames in the hands of the caller

    [src/http2/http2/frame.go]: the methods of the frames, and what a
    [DataFrame] is once [ReadFrame] has returned it: a pointer to a record whose
    [data] is a slice of the framer's read buffer.  [ReadFrame_at] is
    [ReadFrame_plain] of [Framer] on a heap of arrays and [DataFrame]s, with the
    [frameCache] that [SetReuseFrames] installs; the other frames stay values.
    [lastFrame] is such a pointer too: what [checkFrameOrder] reads through it is
    what the record holds then.
    [ReadFrame_at_refines]: what [ReadFrame] returns is, at that time, what
    [ReadFrame_plain] says.  What becomes of it: nothing invalidates a frame,
    while the next payload that fits overwrites its data. *)
From S2P Require Import Prelude Io Http2Types Frame Framer FrameWire FrameRead.

Local Open Scope Z_scope.
Local Open Scope go_scope.

(** ** The methods of the frames *)

Section Accessors.
Context {E : Type}.
Notation P A := (res (option string * http2_error E) A).

(** [f.checkValid(); return v] *)
Definition checked {A} (fh : FrameHeader) (v : A) : P A := let? _ := checkValid fh in Ok v.

Definition DataFrame_StreamEnded (f : DataFrame) : bool := Has (Flags (df_header f)) FlagDataEndStream.
Definition DataFrame_Data (f : DataFrame) : P bytes := checked (df_header f) (data f).
Definition SettingsFrame_IsAck (f : SettingsFrame) : bool := Has (Flags (sf_header f)) FlagSettingsAck.
Definition PingFrame_IsAck (f : PingFrame) : bool := Has (Flags (ping_header f)) FlagPingAck.
Definition GoAwayFrame_DebugData (f : GoAwayFrame) : P bytes := checked (ga_header f) (debugData f).
Definition UnknownFrame_Payload (f : UnknownFrame) : P bytes := checked (uf_header f) (uf_p f).
Definition HeadersFrame_HeaderBlockFragment (f : HeadersFrame) : P bytes := checked (hf_header f) (headerFragBuf f).
Definition HeadersFrame_HeadersEnded (f : HeadersFrame) : bool := Has (Flags (hf_header f)) FlagHeadersEndHeaders.
Definition HeadersFrame_StreamEnded (f : HeadersFrame) : bool := Has (Flags (hf_header f)) FlagHeadersEndStream.
Definition HeadersFrame_HasPriority (f : HeadersFrame) : bool := Has (Flags (hf_header f)) FlagHeadersPriority.
Definition ContinuationFrame_HeaderBlockFragment (f : ContinuationFrame) : P bytes := checked (cf_header f) (cf_headerFragBuf f).
Definition ContinuationFrame_HeadersEnded (f : ContinuationFrame) : bool := Has (Flags (cf_header f)) FlagContinuationEndHeaders.
Definition PushPromiseFrame_HeaderBlockFragment (f : PushPromiseFrame) : P bytes := checked (pp_header f) (pp_headerFragBuf f).
(** With the flag of CONTINUATION, which has the same value. *)
Definition PushPromiseFrame_HeadersEnded (f : PushPromiseFrame) : bool := Has (Flags (pp_header f)) FlagContinuationEndHeaders.
End Accessors.

(** ** The heap *)

(** [arrays[arr][off:off+extent]] *)
Record gslice : Type := mkSlice { arr : nat; off : nat; extent : nat }.
Record cell : Type := mkCell { c_header : FrameHeader; c_data : gslice }.
(** [&DataFrame{}]; array 0 is that of the nil slice. *)
Definition zeroCell : cell := mkCell (mkFrameHeader false 0 0 0 0) (mkSlice 0 0 0).

(** A frame as its holders have it. *)
Inductive held : Type := HeldData (p : nat) | HeldOther (f : Frame).

Section Held.
Context {R W E : Type} {RD : Reader R E} {ED : EqDecision E}.
Notation M := (stateful (Framer R W) (http2_error E)).

(** The framer [base] with its [readBuf] in [arrays] at [readArr] and its
    [lastFrame] in [lastHeld]; [frameCache] is the address of the record in the
    cache. The fields [readBuf] and [lastFrame] of [base] are not used. *)
Record heap : Type := mkHeap {
  base : Framer R W;
  arrays : list bytes;
  readArr : nat;
  cells : list cell;
  frameCache : option nat;
  lastHeld : option held }.
Definition set_base fr h := mkHeap fr (arrays h) (readArr h) (cells h) (frameCache h) (lastHeld h).
Definition set_arrays v h := mkHeap (base h) v (readArr h) (cells h) (frameCache h) (lastHeld h).
Definition set_readArr v h := mkHeap (base h) (arrays h) v (cells h) (frameCache h) (lastHeld h).
Definition set_cells v h := mkHeap (base h) (arrays h) (readArr h) v (frameCache h) (lastHeld h).
Definition set_frameCache v h := mkHeap (base h) (arrays h) (readArr h) (cells h) v (lastHeld h).
Definition set_lastHeld v h := mkHeap (base h) (arrays h) (readArr h) (cells h) (frameCache h) v.

Definition array (h : heap) (a : nat) : bytes := nth a (arrays h) [].
Definition bytes_of (h : heap) (s : gslice) : bytes := take (extent s) (drop (off s) (array h (arr s))).
Definition the_cell (h : heap) (p : nat) : cell := nth p (cells h) zeroCell.

Notation H E' := (stateful heap E').

Definition on_base {A} (m : M A) : H (http2_error E) A := fun h => let '(res, fr) := m (base h) in (res, set_base fr h).

Definition NewFramer_at (w : W) (r : R) : heap := mkHeap (NewFramer w r) [[]] 0 [] None None.

Definition new_cell (h : heap) : heap := set_cells (cells h ++ [zeroCell]) h.
Definition SetReuseFrames (h : heap) : heap :=
  match frameCache h with Some _ => h | None => set_frameCache (Some (length (cells h))) (new_cell h) end.
Definition getDataFrame {E'} : H E' nat := fun h =>
  match frameCache h with None => (Ok (length (cells h)), new_cell h) | Some p => (Ok p, h) end.

Definition getReadBuf_at {E'} (n : Z) : H E' gslice := fun h =>
  if n <=? len (array h (readArr h)) then (Ok (mkSlice (readArr h) 0 (Z.to_nat n)), h)
  else
    let a := length (arrays h) in
    (Ok (mkSlice a 0 (Z.to_nat n)), set_readArr a (set_arrays (arrays h ++ [replicate (Z.to_nat n) 0]) h)).

(** [io.ReadFull(fr.r, payload)]: the bytes go to the array. *)
Definition store_bytes (s : gslice) (b : bytes) (h : heap) : heap :=
  let old := array h (arr s) in
  set_arrays (<[arr s := take (off s) old ++ b ++ drop (off s + length b) old]> (arrays h)) h.
Definition read_full_at (fuel : nat) (s : gslice) : H (http2_error E) (option (io_error E)) := fun h =>
  match ReadFull fuel (r (base h)) (bytes_of h s) with
  | None => (NoFuel, h)
  | Some (res, r') => (Ok (rd_err res), store_bytes s (rd_buf res) (set_base (set_r (base h) r') h))
  end.

(** *** The parser of DATA frames *)

Notation PH A := (H (option string * http2_error E)%type A).

Definition readByte_at (s : gslice) (h : heap) : res (io_error E) (gslice * Z) :=
  match bytes_of h s with
  | [] => Err ErrUnexpectedEOF
  | b :: _ => Ok (mkSlice (arr s) (off s + 1) (extent s - 1), b)
  end.
Definition slice_at {E'} (s : gslice) (a b : nat) : res E' gslice :=
  if ((a <=? b) && (b <=? extent s))%nat then Ok (mkSlice (arr s) (off s + a) (b - a))
  else Panic "slice bounds out of range".
Definition set_cell (p : nat) (f : cell -> cell) : PH unit := st_mod (fun h => set_cells (<[p := f (the_cell h p)]> (cells h)) h).

Definition parseDataFrame_at (fh : FrameHeader) (payload : gslice) : PH nat :=
  if StreamID fh =? 0 then
    st_lift (counted "frame_data_stream_0" (connError ErrCodeProtocol "DATA frame with stream ID 0"))
  else
    let* f := getDataFrame in
    set_cell f (fun c => mkCell fh (c_data c)) ;;;
    let* h := st_get in
    let* (payload, padSize) :=
      (if Has (Flags fh) FlagHeadersPadded then st_lift (or_count "frame_data_pad_byte_short" (readByte_at payload h))
       else st_ret (payload, 0)) in
    if Z.of_nat (extent payload) <? padSize then
      st_lift (counted "frame_data_pad_too_big" (connError ErrCodeProtocol "pad size larger than data payload"))
    else
      let* d := st_lift (slice_at payload 0 (Z.to_nat (Z.of_nat (extent payload) - padSize))) in
      set_cell f (fun c => mkCell (c_header c) d) ;;;
      st_ret f.

(** *** [ReadFrame] *)

(** The [DataFrame] at [p]; the frame now. *)
Definition data_at (h : heap) (p : nat) : DataFrame := mkDataFrame (c_header (the_cell h p)) (bytes_of h (c_data (the_cell h p))).
Definition frame_now (h : heap) (f : held) : Frame := match f with HeldData p => FData (data_at h p) | HeldOther f => f end.

Definition typeFrameParser_at (fh : FrameHeader) (payload : gslice) : PH held :=
  if Type_ fh =? FrameData then let* p := parseDataFrame_at fh payload in st_ret (HeldData p)
  else let* h := st_get in st_lift (res_map HeldOther (typeFrameParser (Type_ fh) fh (bytes_of h payload))).
Definition run_parser_at (m : PH held) : H (http2_error E) held := fun h => let '(res, h') := m h in on_base (run_parser res) h'.

(** [checkFrameOrder]: [lastFrame] is read through its pointer, after the parser
    has written the record of the new frame, and points to that from here on. *)
Definition checkFrameOrder_at (f : held) : H (http2_error E) unit := fun h =>
  let last := option_map (frame_now h) (lastHeld h) in
  let '(res, fr) := checkFrameOrder (frame_now h f) (set_lastFrame (base h) last) in
  (res, set_lastHeld (Some f) (set_base fr h)).

Definition ReadFrame_at (fuel : nat) : H (http2_error E) held :=
  on_base (st_mod (fun fr => set_errDetail fr None)) ;;;
  let* fh := on_base (readFrameHeader fuel) in
  let* h := st_get in
  if maxReadSize (base h) <? Length fh then st_err ErrFrameTooLarge
  else
    let* payload := getReadBuf_at (Length fh) in
    let* err := read_full_at fuel payload in
    match err with
    | Some e => st_err (IoError e)
    | None =>
        let* f := run_parser_at (typeFrameParser_at fh payload) in
        checkFrameOrder_at f ;;;
        st_ret f
    end.

(** [f.Data()] of a [DataFrame] the caller kept. *)
Definition Data_at (h : heap) (p : nat) : res (option string * http2_error E) bytes := DataFrame_Data (data_at h p).

(** ** [ReadFrame_at] refines [ReadFrame_plain] *)

Implicit Types (h : heap) (fr : Framer R W).

(** The framer of [Framer]. *)
Definition buffered h : Framer R W := set_readBuf (base h) (array h (readArr h)).
Definition abs h : Framer R W := set_lastFrame (buffered h) (option_map (frame_now h) (lastHeld h)).

(** What [checkFrameOrder] reads of [lastFrame]; a pointer to a [DataFrame]
    is one to a DATA frame whatever is written to the record. *)
Definition frame_type (f : Frame) : Z := Type_ (Header f).
Definition held_type (f : held) : Z := match f with HeldData _ => FrameData | HeldOther f => frame_type f end.
Definition held_ok h (f : held) : Prop :=
  match f with HeldData p => (p < length (cells h))%nat /\ Type_ (c_header (the_cell h p)) = FrameData | HeldOther _ => True end.

Record wf h : Prop := {
  wf_arr : (readArr h < length (arrays h))%nat;
  wf_cache : forall p, frameCache h = Some p -> (p < length (cells h))%nat;
  wf_last : forall f, lastHeld h = Some f -> held_ok h f }.

(** A framer of [Framer] and a heap: equal, but the frame that [lastFrame] of
    the framer remembers may differ from the record it stands for, as that may
    have been written since, in everything but its type. *)
Definition sim h fr : Prop :=
  exists l, fr = set_lastFrame (buffered h) l /\ option_map frame_type l = option_map held_type (lastHeld h).

Definition refines {A B} (f : heap -> A -> B) (m : H (http2_error E) A) (n : M B) h : Prop :=
  wf h -> wf (m h).2 /\
  forall fr, sim h fr -> exists fr', n fr = (res_map (f (m h).2) (m h).1, fr') /\ sim (m h).2 fr'.

Lemma held_ok_type h f : held_ok h f -> frame_type (frame_now h f) = held_type f.
Proof. destruct f; [by intros []|done]. Qed.

Lemma sim_abs h : wf h -> sim h (abs h).
Proof.
  intros [_ _ Hl]. eexists. split; [reflexivity|]. destruct (lastHeld h) as [f|]; [|done]. simpl. f_equal.
  by apply held_ok_type, Hl.
Qed.

Lemma refines_bind {A B C D} (f : heap -> A -> B) (g : heap -> C -> D) m n k l h :
  refines f m n h -> (forall a h', m h = (Ok a, h') -> wf h' -> refines g (k a) (l (f h' a)) h') ->
  refines g (st_bind m k) (st_bind n l) h.
Proof.
  intros Hm Hk Hw. specialize (Hm Hw) as [Hw' Hs]. unfold st_bind.
  destruct (m h) as [x h'] eqn:Em. cbn [fst snd] in *.
  destruct x as [a|e|msg|]; [destruct (Hk a h' eq_refl Hw' Hw') as [Hw2 Hs2]|..]; (split; [done|]);
    intros fr Hfr; destruct (Hs fr Hfr) as (fr' & -> & Hfr'); cbn [res_map res_bind]; [by apply Hs2|by eexists..].
Qed.
Lemma refines_ret {A B} (f : heap -> A -> B) a b h : f h a = b -> refines f (st_ret a) (st_ret b) h.
Proof. intros <- Hw. split; [done|]. intros fr Hfr. by exists fr. Qed.
Lemma refines_err {A B} (f : heap -> A -> B) e h : refines f (st_err e) (st_err e) h.
Proof. intros Hw. split; [done|]. intros fr Hfr. by exists fr. Qed.

Lemma refines_get {A B} (f : heap -> A -> B) k l n h :
  (forall fr, sim h fr -> l fr = n) -> refines f (k h) n h -> refines f (st_bind st_get k) (st_bind st_get l) h.
Proof.
  intros Hl Hk Hw. destruct (Hk Hw) as [Hw' Hs]. split; [done|]. intros fr Hfr. unfold st_bind, st_get. rewrite (Hl fr Hfr). by apply Hs.
Qed.

(** Computations that neither read nor write [readBuf] and [lastFrame]. *)
Definition blind {A} (m : M A) : Prop :=
  forall fr b l, m (set_lastFrame (set_readBuf fr b) l) = ((m fr).1, set_lastFrame (set_readBuf (m fr).2 b) l).

Lemma blind_header fuel : blind (readFrameHeader fuel).
Proof.
  intros fr b l. unfold readFrameHeader, st_bind, st_get, read_full, st_mod. cbn [r set_readBuf set_lastFrame headerBuf].
  destruct (ReadFull _ _ _) as [[rr r']|]; [|done]. by destruct (rd_err rr).
Qed.
Lemma blind_run {A} (m : res (option string * http2_error E) A) : blind (run_parser m).
Proof. intros fr b l. unfold run_parser, fr_connError. by repeat (case_match; try done). Qed.
Lemma blind_reset : blind (st_mod (fun fr => set_errDetail fr None)).
Proof. done. Qed.

(** [checkFrameOrder] reads nothing but the type of [lastFrame]. *)
Lemma order_blind g fr b l l' : option_map frame_type l = option_map frame_type l' ->
  checkFrameOrder g (set_lastFrame (set_readBuf fr b) l) =
    ((checkFrameOrder g (set_lastFrame fr l') : res (http2_error E) unit * _).1, set_readBuf (checkFrameOrder g (set_lastFrame fr l') : res (http2_error E) unit * _).2 b).
Proof.
  intros Hl. unfold checkFrameOrder, fr_connError, frame_type in *. cbn [lastFrame set_readBuf set_lastFrame AllowIllegalReads lastHeaderStream].
  destruct l as [f|], l' as [f'|]; try discriminate Hl; [injection Hl as ->|]; by repeat (case_match; try done).
Qed.
Lemma order_last g fr : lastFrame (checkFrameOrder g fr : res (http2_error E) unit * _).2 = Some g.
Proof. unfold checkFrameOrder, fr_connError. by repeat (case_match; try done). Qed.

Lemma refines_base {A} (m : M A) h : blind m -> refines (fun _ a => a) (on_base m) m h.
Proof.
  intros Hm Hw. unfold on_base. destruct (m (base h)) as [res fr] eqn:Em. cbn [fst snd]. split; [by destruct Hw|].
  intros fr0 (l & -> & Hl). unfold buffered. rewrite Hm, Em. eexists. split; [by destruct res|]. by exists l.
Qed.

Lemma refines_order f h : held_ok h f -> refines (fun _ a => a) (checkFrameOrder_at f) (checkFrameOrder (frame_now h f)) h.
Proof.
  intros Hf Hw. unfold checkFrameOrder_at. set (last := option_map (frame_now h) (lastHeld h)).
  pose proof (order_last (frame_now h f) (set_lastFrame (base h) last)) as Hlast.
  destruct (checkFrameOrder _ (set_lastFrame (base h) last)) as [res fr] eqn:Eo. cbn [fst snd] in *. split.
  - destruct Hw as [Ha Hc _]. split; [done..|]. by intros ? [= <-].
  - intros fr0 (l & -> & Hl). unfold buffered. rewrite (order_blind _ _ _ l last), Eo.
    + eexists. split; [by destruct res as [[]| | |]|]. exists (lastFrame fr). split; [by destruct fr|].
      rewrite Hlast. simpl. f_equal. by apply held_ok_type.
    + destruct (sim_abs h Hw) as (l' & H1 & H2). apply (f_equal lastFrame) in H1. cbn in H1. unfold last. by rewrite H1, H2.
Qed.

(** *** The read buffer *)

Lemma getReadBuf_post {E'} n h : wf h -> exists s h', (getReadBuf_at n : H E' _) h = (Ok s, h') /\ wf h' /\
  s = mkSlice (readArr h') 0 (Z.to_nat n) /\ (extent s <= length (array h' (readArr h')))%nat /\
  cells h' = cells h /\ frameCache h' = frameCache h /\ base h' = base h /\ lastHeld h' = lastHeld h /\
  (n <= len (array h (readArr h)) /\ h' = h \/
   len (array h (readArr h)) < n /\ readArr h' = length (arrays h) /\ arrays h' = arrays h ++ [replicate (Z.to_nat n) 0]).
Proof.
  intros Hw. unfold getReadBuf_at. destruct (Z.leb_spec n (len (array h (readArr h)))) as [Hle|Hgt].
  - eexists _, h. split; [reflexivity|]. unfold len in Hle. split_and!; try done; [cbn; lia|by left].
  - eexists _, _. split; [reflexivity|]. cbn. split_and!; try done.
    + destruct Hw as [_ Hc Hl]. split; cbn; [rewrite length_app; cbn; lia|done|exact Hl].
    + unfold array. cbn. rewrite app_nth2, Nat.sub_diag by lia. cbn. by rewrite length_replicate.
    + right. split_and!; done.
Qed.

Lemma refines_getReadBuf n h : refines bytes_of (getReadBuf_at n) (getReadBuf n) h.
Proof.
  intros Hw. destruct (getReadBuf_post (E' := http2_error E) n h Hw) as (s & h' & Hg & Hw' & -> & Hl & _ & _ & Hb & Hla & Hcase).
  rewrite Hg. cbn [fst snd]. split; [done|]. intros fr (l & -> & Hty).
  unfold getReadBuf, bytes_of. cbn [arr off extent res_map res_bind]. rewrite drop_0.
  change (readBuf (set_lastFrame (buffered h) l)) with (array h (readArr h)).
  destruct Hcase as [[Hle ->]|(Hgt & Ha & Harr)].
  - rewrite (proj2 (Z.leb_le _ _)) by done. eexists. split; [reflexivity|]. by exists l.
  - rewrite (proj2 (Z.leb_gt _ _)) by done.
    assert (array h' (readArr h') = replicate (Z.to_nat n) 0) as Hnew by (unfold array; rewrite Ha, Harr, app_nth2, Nat.sub_diag by lia; done).
    rewrite Hnew, take_ge by (rewrite length_replicate; lia). eexists. split; [reflexivity|].
    exists l. unfold buffered. by rewrite Hb, Hnew, Hla.
Qed.

Context {RL : ReaderLaws R E}.

(** [ReadFull] leaves as many bytes in the buffer as there were. *)
Lemma ReadFull_length fuel (r0 : R) buf res r' : ReadFull fuel r0 buf = Some (res, r') -> length (rd_buf res) = length buf.
Proof. intros H. apply ReadAtLeast_post in H; [tauto|apply len_nonneg]. Qed.

Lemma bytes_of_length h s : (off s + extent s <= length (array h (arr s)))%nat -> length (bytes_of h s) = extent s.
Proof. intros H. unfold bytes_of. rewrite length_take, length_drop. lia. Qed.

Lemma array_store h s b : (arr s < length (arrays h))%nat ->
  array (store_bytes s b h) (arr s) = take (off s) (array h (arr s)) ++ b ++ drop (off s + length b) (array h (arr s)).
Proof. intros H. unfold store_bytes, array at 1. cbn [arrays set_arrays]. by rewrite nth_lookup, list_lookup_insert_eq. Qed.
Lemma array_store_ne h s b a : a <> arr s -> array (store_bytes s b h) a = array h a.
Proof. intros H. unfold store_bytes, array at 1. cbn [arrays set_arrays]. by rewrite nth_lookup, list_lookup_insert_ne, <- nth_lookup by done. Qed.

(** Reading into the start of the read buffer. *)
Lemma refines_read_full {B C} (g : heap -> B -> C) fuel s k l h :
  arr s = readArr h -> off s = 0%nat -> (extent s <= length (array h (readArr h)))%nat ->
  (forall e h' b, wf h' -> bytes_of h' s = b -> read_full_at fuel s h = (Ok e, h') -> refines g (k e) (l b e) h') ->
  refines g (st_bind (read_full_at fuel s) k)
    (let* (payload, err) := read_full fuel (bytes_of h s) in
     st_mod (fun fr => set_readBuf fr (payload ++ drop (length payload) (readBuf fr))) ;;; l payload err) h.
Proof.
  intros Ha Ho Hl Hk Hw. unfold read_full_at, read_full, st_bind, st_mod in *.
  destruct (ReadFull fuel (r (base h)) (bytes_of h s)) as [[res r']|] eqn:Er.
  2: { split; [done|]. intros fr Hfr. exists fr. split; [|done]. destruct Hfr as (l0 & -> & _).
       change (r (set_lastFrame _ _)) with (r (base h)). by rewrite Er. }
  pose proof (ReadFull_length _ _ _ _ _ Er) as Hlen. rewrite bytes_of_length in Hlen by (rewrite Ha, Ho; lia).
  set (h' := store_bytes _ _ _) in *. destruct Hw as [Hwa Hwc Hwl].
  assert (Hst : array h' (arr s) = rd_buf res ++ drop (length (rd_buf res)) (array h (readArr h))).
  { unfold h'. rewrite array_store by (cbn; lia). rewrite Ho, take_0. cbn [app Nat.add]. by rewrite Ha. }
  assert (wf h') as Hw' by (split; [cbn; rewrite length_insert; lia|done|exact Hwl]).
  destruct (Hk (rd_err res) h' (rd_buf res) Hw') with (3 := Hw') as [Hw2 Hs].
  - unfold bytes_of. rewrite Hst, Ho, drop_0, <- Hlen. by rewrite take_app_length.
  - done.
  - split; [done|]. intros fr (l0 & -> & Hty). change (r (set_lastFrame (buffered h) l0)) with (r (base h)). rewrite Er.
    apply Hs. exists l0. split; [|done]. unfold buffered.
    change (readArr h') with (readArr h). rewrite <- Ha, Hst. cbn [readBuf set_r set_lastFrame set_readBuf]. by rewrite <- Ha.
Qed.

(** *** The parser *)

(** The framer and the arrays are untouched. *)
Record same_buffers h h' : Prop := {
  sb_base : base h' = base h;
  sb_arrays : arrays h' = arrays h;
  sb_arr : readArr h' = readArr h;
  sb_last : lastHeld h' = lastHeld h }.

Lemma same_bytes h h' s : same_buffers h h' -> bytes_of h' s = bytes_of h s.
Proof. intros [_ Ha _ _]. unfold bytes_of, array. by rewrite Ha. Qed.
Lemma same_sim h h' fr : same_buffers h h' -> sim h fr -> sim h' fr.
Proof. intros [Hb Ha Hr Hl] (l & -> & Hty). exists l. unfold buffered, array. by rewrite Hb, Ha, Hr, Hl. Qed.

Lemma the_cell_insert h p c : (p < length (cells h))%nat -> the_cell (set_cells (<[p := c]> (cells h)) h) p = c.
Proof. intros H. unfold the_cell. cbn [cells set_cells]. by rewrite nth_lookup, list_lookup_insert_eq. Qed.

Lemma readByte_at_ok h s : (off s + extent s <= length (array h (arr s)))%nat ->
  readByte (bytes_of h s) = res_map (fun '(s', b) => (bytes_of h s', b)) (readByte_at s h) /\
  forall s' b, readByte_at s h = Ok (s', b) -> (off s' + extent s' <= length (array h (arr s')))%nat /\ extent s' = length (bytes_of h s').
Proof.
  intros Hl. unfold readByte_at. pose proof (bytes_of_length h s Hl) as Hlen. destruct (bytes_of h s) as [|b t] eqn:Eb; [by split|].
  cbn [length] in Hlen. split.
  - cbn [res_map res_bind readByte]. do 2 f_equal. unfold bytes_of in *. cbn [arr off extent].
    change t with (skipn 1 (b :: t)). rewrite <- Eb, skipn_firstn_comm, skipn_skipn. by replace (1 + off s)%nat with (off s + 1)%nat by lia.
  - intros s' b' [= <- <-]. cbn [arr off extent]. split; [lia|]. rewrite bytes_of_length; cbn [arr off extent]; lia.
Qed.


(** What becomes of the records: the cached one is written, the others stay,
    and none is invalidated or becomes one of another type. *)
Record kept h h' : Prop := {
  kept_cache : frameCache h' = frameCache h;
  kept_len : (length (cells h) <= length (cells h'))%nat;
  kept_cell : forall p, (p < length (cells h))%nat -> frameCache h <> Some p -> the_cell h' p = the_cell h p;
  kept_valid : forall p, (p < length (cells h))%nat -> valid (c_header (the_cell h p)) = true -> valid (c_header (the_cell h' p)) = true;
  kept_type : forall p, (p < length (cells h))%nat -> Type_ (c_header (the_cell h p)) = FrameData -> Type_ (c_header (the_cell h' p)) = FrameData }.

Lemma kept_refl h : kept h h.
Proof. by split. Qed.
Lemma kept_held h h' f : kept h h' -> held_ok h f -> held_ok h' f.
Proof. intros [_ Hl _ _ Ht]. destruct f as [p|]; [|done]. intros [Hp Hty]. split; [lia|by apply Ht]. Qed.
Lemma kept_trans h1 h2 h3 : kept h1 h2 -> kept h2 h3 -> kept h1 h3.
Proof.
  intros [A1 A2 A3 A4 A5] [B1 B2 B3 B4 B5]. split; [congruence|lia| | |].
  - intros p Hp Hc. rewrite B3, A3; [done..|lia|congruence].
  - intros p Hp Hv. apply B4; [lia|]. by apply A4.
  - intros p Hp Ht. apply B5; [lia|]. by apply A5.
Qed.
Lemma kept_cells h h' : cells h' = cells h -> frameCache h' = frameCache h -> kept h h'.
Proof. intros Hc Hf. split; [done|by rewrite Hc|..]; intros p; unfold the_cell; by rewrite Hc. Qed.

(** The record that a parser writes. *)
Definition target h : nat := match frameCache h with None => length (cells h) | Some p => p end.

(** [h'] has [c] at the target, and is [h] otherwise. *)
Record written (c : cell) h h' : Prop := {
  wr_buffers : same_buffers h h';
  wr_wf : wf h';
  wr_kept : kept h h';
  wr_lt : (target h < length (cells h'))%nat;
  wr_cell : the_cell h' (target h) = c }.

(** Writing the record at the target, of a heap [h'] that has it and is
    otherwise [h]. *)
Lemma written_at fh d h h' : wf h -> valid fh = true -> Type_ fh = FrameData ->
  same_buffers h h' -> frameCache h' = frameCache h -> (length (cells h) <= length (cells h'))%nat -> (target h < length (cells h'))%nat ->
  (forall q, (q < length (cells h))%nat -> q <> target h -> the_cell h' q = the_cell h q) ->
  written (mkCell fh d) h (set_cells (<[target h := mkCell fh d]> (cells h')) h').
Proof.
  intros Hw Hv Hty [B1 B2 B3 B4] Hf Hle Hlt Hsame. set (h2 := set_cells _ _).
  assert (Hkeep : forall q, (q < length (cells h))%nat -> q <> target h -> the_cell h2 q = the_cell h q).
  { intros q Hq Hne. rewrite <- Hsame by done. unfold h2, the_cell. cbn [cells set_cells]. by rewrite nth_lookup, list_lookup_insert_ne, <- nth_lookup by done. }
  assert (Hnew : the_cell h2 (target h) = mkCell fh d) by by apply the_cell_insert.
  assert (Hlen : length (cells h2) = length (cells h')) by (unfold h2; cbn [cells set_cells]; by rewrite length_insert).
  assert (kept h h2) as Hk.
  { split; [done|by rewrite Hlen|..].
    - intros q Hq Hne. apply Hkeep; [done|]. unfold target. destruct (frameCache h) eqn:Ec; [congruence|lia].
    - intros q Hq Hvq. destruct (decide (q = target h)) as [->|Hne]; [by rewrite Hnew|by rewrite Hkeep].
    - intros q Hq Hvq. destruct (decide (q = target h)) as [->|Hne]; [by rewrite Hnew|by rewrite Hkeep]. }
  destruct Hw as [Hwa Hwc Hwl]. split; [done| |done|by rewrite Hlen|done].
  split; [cbn; by rewrite B2, B3| |].
  - intros p Hp. cbn in Hp. rewrite Hf in Hp. rewrite Hlen. specialize (Hwc p Hp). lia.
  - intros f Hf'. cbn in Hf'. rewrite B4 in Hf'. by apply (kept_held h), Hwl.
Qed.

Lemma written_first fh h : wf h -> valid fh = true -> Type_ fh = FrameData ->
  exists h1 d, (getDataFrame h : res (option string * http2_error E) _ * _) = (Ok (target h), h1) /\
    written (mkCell fh d) h (set_cells (<[target h := mkCell fh (c_data (the_cell h1 (target h)))]> (cells h1)) h1).
Proof.
  intros Hw Hv Hty. unfold getDataFrame. destruct (frameCache h) as [p|] eqn:Ec; eexists _, _; (split; [unfold target; by rewrite Ec|]).
  - apply written_at; try done. unfold target. rewrite Ec. by apply (wf_cache _ Hw).
  - apply written_at; try done; unfold target; rewrite ?Ec; cbn [cells set_cells new_cell]; rewrite ?length_app; [cbn; lia..|].
    intros q Hq _. unfold the_cell. cbn [cells set_cells new_cell]. by apply app_nth1.
Qed.

Lemma written_again c fh d h h' : wf h -> valid fh = true -> Type_ fh = FrameData -> written c h h' ->
  written (mkCell fh d) h (set_cells (<[target h := mkCell fh d]> (cells h')) h').
Proof.
  intros Hw Hv Hty [Hb Hw' [K1 K2 K3 K4 K5] Hlt Hcell]. apply written_at; try done.
  intros q Hq Hne. apply K3; [done|]. unfold target in Hne. destruct (frameCache h); [congruence|done].
Qed.

Lemma slice_at_ok h s b : (off s + extent s <= length (array h (arr s)))%nat -> extent s = length (bytes_of h s) ->
  slice (bytes_of h s) 0 b = res_map (bytes_of h) (slice_at s 0 b : res (option string * http2_error E) _).
Proof.
  intros Hl He. unfold slice, slice_at. rewrite <- He. cbn [Nat.leb andb]. destruct (Nat.leb_spec b (extent s)) as [Hb|]; [|done].
  cbn [res_map res_bind]. f_equal. unfold bytes_of. cbn [arr off extent]. rewrite Nat.sub_0_r, Nat.add_0_r, drop_0. rewrite take_take. f_equal. lia.
Qed.

(** The heap after parsing, whatever the outcome, and after a success. *)
Definition parsed fh s h (o : res (option string * http2_error E) nat * heap) : Prop :=
  (o.2 = h \/ exists c, written c h o.2) /\
  forall p, o.1 = Ok p -> p = target h /\ exists d, arr d = arr s /\ written (mkCell fh d) h o.2.

Lemma parseDataFrame_at_ok fh s h : wf h -> valid fh = true -> Type_ fh = FrameData -> (off s + extent s <= length (array h (arr s)))%nat ->
  exists o, parseDataFrame_at fh s h = o /\ parsed fh s h o /\
  parseDataFrame fh (bytes_of h s) = res_map (fun p => FData (data_at o.2 p)) o.1.
Proof.
  intros Hw Hv Hty Hs. unfold parseDataFrame_at, parseDataFrame. destruct (StreamID fh =? 0); [eexists; split; [reflexivity|]; split; [split; [by left|done]|done]|].
  destruct (written_first fh h Hw Hv Hty) as (h1 & d & Hg & Hwr). step_with Hg. unfold set_cell at 1. step.
  set (h2 := set_cells _ h1) in *. unfold st_get at 1. step. pose proof (wr_buffers _ _ _ Hwr) as Hsame.
  rewrite <- (same_bytes h h2 s Hsame). assert (Hs2 : (off s + extent s <= length (array h2 (arr s)))%nat) by (destruct Hsame as [_ Ha _ _]; unfold array; rewrite Ha; exact Hs).
  set (m := if Has _ _ then st_lift _ else _). set (n := if Has _ _ then or_count _ _ else _).
  assert (Hm : exists x, m h2 = (x, h2) /\ n = res_map (fun '(s', b) => (bytes_of h2 s', b)) x /\
    forall s' b, x = Ok (s', b) -> arr s' = arr s /\ (off s' + extent s' <= length (array h2 (arr s')))%nat /\ extent s' = length (bytes_of h2 s')).
  { unfold m, n. destruct (Has _ _).
    - eexists. split; [reflexivity|]. destruct (readByte_at_ok h2 s Hs2) as [-> Hr]. destruct (readByte_at s h2) as [[s' b]|e|msg|] eqn:Eb; try done; (split; [done|]).
      intros s0 b0 [= -> ->]. split; [|by apply (Hr s0 b0)]. unfold readByte_at in Eb. destruct (bytes_of h2 s); [done|]. by injection Eb as <- <-.
    - eexists. split; [reflexivity|]. split; [done|]. intros s' b [= <- <-]. by rewrite bytes_of_length. }
  destruct Hm as (x & Hmx & -> & Hx). clearbody m. unfold st_bind at 1. rewrite Hmx.
  destruct x as [[s' b]|e|msg|]; cbn [res_map res_bind]; try (eexists; split; [reflexivity|]; split; [split; [by right; eexists|done]|done]).
  destruct (Hx s' b eq_refl) as (Ha & Hl & He). replace (len (bytes_of h2 s')) with (Z.of_nat (extent s')) by (unfold len; by rewrite He).
  destruct (_ <? _); [eexists; split; [reflexivity|]; split; [split; [by right; eexists|done]|done]|]. rewrite (slice_at_ok h2 s' _ Hl He).
  unfold st_bind at 1, st_lift. destruct (slice_at s' 0 _) as [sl|e|msg|] eqn:Esl; cbn [res_map res_bind]; try (eexists; split; [reflexivity|]; split; [split; [by right; eexists|done]|done]).
  unfold set_cell. step. rewrite (wr_cell _ _ _ Hwr). cbn [c_header].
  pose proof (written_again (mkCell fh d) fh sl h h2 Hw Hv Hty Hwr) as Hwr2. eexists. split; [reflexivity|]. split; [split; [right; exists (mkCell fh sl); exact Hwr2|]|].
  - intros p [= <-]. split; [done|]. exists sl. split; [|done]. unfold slice_at in Esl. destruct (_ && _); [|done]. by injection Esl as <-.
  - cbn [fst snd res_map res_bind st_ret]. unfold data_at. rewrite (wr_cell _ _ _ Hwr2). cbn [c_header c_data]. done.
Qed.


Lemma run_parser_map {A B} (f : A -> B) (m : res (option string * http2_error E) A) fr :
  run_parser (res_map f m) fr = (res_map f (run_parser m fr).1, (run_parser m fr).2).
Proof. destruct m as [a|[t e]|msg|]; [done| |done..]. by destruct e. Qed.

Lemma readFrameHeader_valid fuel fr fh fr' : (readFrameHeader fuel : M _) fr = (Ok fh, fr') -> valid fh = true.
Proof.
  unfold readFrameHeader, st_bind, st_get, read_full, st_mod. destruct (ReadFull _ _ _) as [[rr r']|]; [|done]. cbn [fst snd].
  destruct (rd_err rr); [done|]. by intros [= <- _].
Qed.

(** The outcome of a parser: a record written, or nothing. *)
Definition parsed_held fh s h (o : res (option string * http2_error E) held * heap) : Prop :=
  (o.2 = h \/ exists c, written c h o.2) /\
  forall p, o.1 = Ok (HeldData p) -> p = target h /\ exists d, arr d = arr s /\ written (mkCell fh d) h o.2.

Lemma typeFrameParser_at_ok fh s h : wf h -> valid fh = true -> (off s + extent s <= length (array h (arr s)))%nat ->
  parsed_held fh s h (typeFrameParser_at fh s h) /\
  typeFrameParser (Type_ fh) fh (bytes_of h s) = res_map (frame_now (typeFrameParser_at fh s h).2) (typeFrameParser_at fh s h).1.
Proof.
  intros Hw Hv Hs. unfold typeFrameParser_at. destruct (Z.eqb_spec (Type_ fh) FrameData) as [Ht|_].
  - rewrite Ht. change (typeFrameParser FrameData fh) with (parseDataFrame fh : _ -> res (option string * http2_error E) _).
    destruct (parseDataFrame_at_ok fh s h Hw Hv Ht Hs) as ([o h'] & Ho & [H1 H2] & ->). unfold st_bind. rewrite Ho.
    destruct o as [p|e|msg|]; cbn [fst snd] in *; (split; [split; [done|]|done]); cbn [fst]; try done. intros q [= <-]. by apply H2.
  - unfold st_bind, st_get, st_lift. cbn [fst snd]. split; [split; [by left|]|].
    + intros p. by destruct (typeFrameParser _ _ _).
    + by destruct (typeFrameParser _ _ _).
Qed.

Lemma refines_parser fh s h : valid fh = true -> (off s + extent s <= length (array h (arr s)))%nat ->
  refines frame_now (run_parser_at (typeFrameParser_at fh s)) (run_parser (typeFrameParser (Type_ fh) fh (bytes_of h s))) h.
Proof.
  intros Hv Hs Hw. destruct (typeFrameParser_at_ok fh s h Hw Hv Hs) as [[Hp _] ->]. unfold run_parser_at.
  destruct (typeFrameParser_at fh s h) as [o h']. cbn [fst snd] in *.
  assert (wf h' /\ same_buffers h h') as [Hw' Hb] by (destruct Hp as [->|[c [Hb Hw' _ _ _]]]; done).
  unfold on_base. destruct (run_parser o (base h')) as [x fr'] eqn:Er. cbn [fst snd]. split; [by destruct Hw'|].
  intros fr Hfr. destruct (same_sim _ _ _ Hb Hfr) as (l & -> & Hty). rewrite run_parser_map. unfold buffered.
  rewrite blind_run, Er. cbn [fst snd]. eexists. split; [by destruct x|]. by exists l.
Qed.

(** The frame that a parser returns. *)
Lemma parsed_ok fh s h f h' : wf h -> valid fh = true -> (off s + extent s <= length (array h (arr s)))%nat ->
  run_parser_at (typeFrameParser_at fh s) h = (Ok f, h') -> held_ok h' f.
Proof.
  intros Hw Hv Hs H. destruct (typeFrameParser_at_ok fh s h Hw Hv Hs) as [[_ Hp] _]. unfold run_parser_at in H.
  destruct (typeFrameParser_at fh s h) as [o h1] eqn:Ep. cbn [fst snd] in Hp. unfold on_base in H.
  destruct (run_parser o (base h1)) as [x fr1] eqn:Er. injection H as -> <-.
  assert (o = Ok f) as ->.
  { unfold run_parser, fr_connError in Er. destruct o as [?|[t e]|?|]; [by injection Er as -> _|destruct e; discriminate|discriminate..]. }
  destruct f as [p|]; [|done]. destruct (Hp p eq_refl) as (-> & d & _ & [_ _ _ Hlt Hcell]). split; [done|].
  change (the_cell (set_base fr1 h1)) with (the_cell h1). rewrite Hcell. cbn [c_header].
  unfold typeFrameParser_at in Ep. destruct (Z.eqb_spec (Type_ fh) FrameData) as [|_]; [done|].
  unfold st_bind, st_get, st_lift in Ep. by destruct (typeFrameParser _ _ _).
Qed.

Lemma ReadFrame_refines fuel h : refines frame_now (ReadFrame_at fuel) (ReadFrame_plain fuel) h.
Proof.
  unfold ReadFrame_at, ReadFrame_plain. eapply refines_bind; [apply refines_base, blind_reset|]. intros _ h1 _ Hw1.
  eapply refines_bind; [apply refines_base, blind_header|]. intros fh h2 Hfh Hw2.
  assert (valid fh = true) as Hv.
  { unfold on_base in Hfh. destruct (readFrameHeader fuel (base h1)) as [x fr] eqn:Er. injection Hfh as -> _. by eapply readFrameHeader_valid. }
  eapply refines_get; [intros fr (l & -> & _); change (maxReadSize (set_lastFrame _ _)) with (maxReadSize (base h2)); reflexivity|].
  destruct (maxReadSize (base h2) <? _); [by apply refines_err|].
  eapply refines_bind; [apply refines_getReadBuf|]. intros s h3 Hs Hw3.
  assert (arr s = readArr h3 /\ off s = 0%nat /\ (extent s <= length (array h3 (readArr h3)))%nat) as (Ha & Ho & Hl).
  { destruct (getReadBuf_post (E' := http2_error E) (Length fh) h2 Hw2) as (s' & h3' & Hs' & _ & -> & Hl & _). rewrite Hs in Hs'. injection Hs' as -> ->. done. }
  apply refines_read_full; [done..|]. intros e h4 b Hw4 <- Hr. destruct e as [e|]; [apply refines_err|].
  assert (off s + extent s <= length (array h4 (arr s)))%nat as Hl4.
  { unfold read_full_at in Hr. destruct (ReadFull _ _ _) as [[rr r']|] eqn:Er; [|done]. injection Hr as _ <-. rewrite array_store by (cbn; destruct Hw3; lia).
    apply ReadFull_length in Er. rewrite bytes_of_length in Er by (rewrite Ha, Ho; lia). rewrite Ho. cbn. rewrite !length_app. lia. }
  eapply refines_bind; [by apply refines_parser|]. intros f h5 Hf Hw5.
  eapply refines_bind; [by apply refines_order, (parsed_ok fh s h4)|]. intros [] h6 Hc _. apply refines_ret.
  unfold checkFrameOrder_at in Hc. destruct (checkFrameOrder _ _). injection Hc as _ <-. by destruct f.
Qed.

(** A frame that is returned is the one [lastFrame] points to. *)
Lemma ReadFrame_at_last fuel h f h' : ReadFrame_at fuel h = (Ok f, h') -> lastHeld h' = Some f.
Proof.
  intros H. unfold ReadFrame_at in H. do 2 apply bind_inv in H as (? & ? & _ & H). apply bind_inv in H as (? & ? & _ & H).
  destruct (_ <? _); [done|]. do 2 apply bind_inv in H as (? & ? & _ & H).
  match type of H with (match ?e with _ => _ end) _ = _ => destruct e; [done|] end.
  apply bind_inv in H as (f' & h1 & _ & H). apply bind_inv in H as (? & h2 & Hc & H). injection H as -> <-.
  unfold checkFrameOrder_at in Hc. destruct (checkFrameOrder _ _). by injection Hc as _ <-.
Qed.

Lemma ReadFrame_plain_last fuel fr f fr' : ReadFrame_plain fuel fr = (Ok f, fr') -> lastFrame fr' = Some f.
Proof.
  intros H. unfold ReadFrame_plain in H. do 2 apply bind_inv in H as (? & ? & _ & H). apply bind_inv in H as (? & ? & _ & H).
  destruct (_ <? _); [done|]. apply bind_inv in H as (? & ? & _ & H). apply bind_inv in H as ([? [?|]] & ? & _ & H);
    apply bind_inv in H as (? & ? & _ & H); [done|]. apply bind_inv in H as (f' & fr1 & _ & H).
  apply bind_inv in H as (? & fr2 & Hc & H). injection H as -> <-. pose proof (order_last f fr1) as Hl. by rewrite Hc in Hl.
Qed.

(** C27: What [ReadFrame] answers, and what it leaves in the framer, is what
    [ReadFrame_plain] says, where a [DataFrame], a pointer into the heap, counts
    as what its record and the read buffer hold when the call returns; with and
    without [SetReuseFrames], on every outcome. The framers agree exactly after
    a frame is returned; after an error the frame that [lastFrame] remembers
    may have been overwritten meanwhile, but is of the same type, so the two
    never differ in an answer. *)
Theorem ReadFrame_at_refines fuel h : wf h ->
  let '(x, h') := ReadFrame_at fuel h in
  wf h' /\ forall fr, sim h fr -> exists fr',
    ReadFrame_plain fuel fr = (res_map (frame_now h') x, fr') /\ sim h' fr' /\
    forall f, x = Ok f -> fr' = abs h'.
Proof.
  intros Hw. destruct (ReadFrame_refines fuel h Hw) as [Hw' Hs]. destruct (ReadFrame_at fuel h) as [x h'] eqn:Er. cbn [fst snd] in *.
  split; [done|]. intros fr Hfr. destruct (Hs fr Hfr) as (fr' & Hp & Hfr'). exists fr'. split; [done|]. split; [done|].
  intros f ->. apply ReadFrame_at_last in Er. apply ReadFrame_plain_last in Hp. destruct Hfr' as (l & -> & _).
  unfold abs. rewrite Er. cbn in Hp. by rewrite Hp.
Qed.

(** ** What becomes of a frame *)

(** The read buffer is a new and larger array, the others are as they were. *)
Definition moved h h' : Prop :=
  (length (arrays h) <= readArr h')%nat /\ (length (array h (readArr h)) < length (array h' (readArr h')))%nat /\
  forall a, (a < length (arrays h))%nat -> array h' a = array h a.

(** [ReadFrame] invalidates nothing and writes one record at most, the one in
    the cache or a new one. *)
Record read_post h (x : res (http2_error E) held) h' : Prop := {
  rp_kept : kept h h';
  rp_buffer : readArr h' = readArr h \/ moved h h';
  rp_fresh : forall p, x = Ok (HeldData p) -> p = target h /\ (p < length (cells h'))%nat /\
    valid (c_header (the_cell h' p)) = true /\ arr (c_data (the_cell h' p)) = readArr h' }.

(** The records are untouched, the buffer as in [read_post]. *)
Record quiet h h' : Prop := {
  q_cells : cells h' = cells h;
  q_cache : frameCache h' = frameCache h;
  q_buffer : readArr h' = readArr h \/ moved h h' }.

Lemma quiet_post h h' x : quiet h h' -> (forall f, x <> Ok f) -> read_post h x h'.
Proof. intros [Hc Hf Hb] Hx. split; [by apply kept_cells|done|]. intros p Hp. by destruct (Hx (HeldData p)). Qed.

Lemma bind_post {E' A B} (Q : res E' B * heap -> Prop) (m : H E' A) (k : A -> H E' B) h :
  (forall x h', m h = (x, h') -> match x with Ok a => Q (k a h') | Err e => Q (Err e, h') | Panic s => Q (Panic s, h') | NoFuel => Q (NoFuel, h') end) ->
  Q (st_bind m k h).
Proof. intros H. unfold st_bind. destruct (m h) as [x h'] eqn:Eh. specialize (H x h' eq_refl). by destruct x. Qed.

Lemma on_base_same {A} (m : M A) h x h' : on_base m h = (x, h') -> h' = set_base (base h') h.
Proof. unfold on_base. destruct (m (base h)). by intros [= _ <-]. Qed.

Theorem ReadFrame_at_post fuel h : wf h -> read_post h (ReadFrame_at fuel h).1 (ReadFrame_at fuel h).2.
Proof.
  intros Hw. set (Q := fun o : res (http2_error E) held * heap => read_post h o.1 o.2). change (Q (ReadFrame_at fuel h)). unfold ReadFrame_at.
  apply bind_post. intros [u| | |] h1 H1; try done. apply on_base_same in H1. set (fr1 := base h1) in *. clearbody fr1. subst h1.
  apply bind_post. intros x h2 H2. pose proof (on_base_same _ _ _ _ H2) as Hs2. set (fr2 := base h2) in *. clearbody fr2. subst h2.
  destruct x as [fh|e|msg|]; try (by apply quiet_post; [split; [done..|by left]|]).
  assert (valid fh = true) as Hv.
  { unfold on_base in H2. destruct (readFrameHeader fuel _) as [x fr] eqn:Er. injection H2 as -> _. by eapply readFrameHeader_valid. }
  clear H2. set (h2 := set_base fr2 _). assert (Hw2 : wf h2) by (by destruct Hw). rewrite (bind_ok st_get _ h2 h2 h2 eq_refl).
  destruct (_ <? _); [by apply quiet_post; [split; [done..|by left]|]|].
  destruct (getReadBuf_post (E' := http2_error E) (Length fh) h2 Hw2) as (s & h3 & Hg & Hw3 & -> & Hl & Hc3 & Hf3 & _ & Hla3 & Hcase).
  rewrite (bind_ok _ _ _ _ _ Hg). clear Hg. set (s := mkSlice _ _ _) in *.
  assert (Hq3 : quiet h h3).
  { split; [done..|]. destruct Hcase as [[_ ->]|(Hgt & Ha & Harr)]; [by left|]. right. unfold len in Hgt. split; [by rewrite Ha|]. unfold array in *. rewrite Ha, Harr. split.
    - rewrite (app_nth2 (arrays h2)), Nat.sub_diag by lia. cbn [nth]. change (nth (readArr h2) (arrays h2) []) with (nth (readArr h) (arrays h) []) in *. rewrite length_replicate. lia.
    - intros a Hlt. by apply app_nth1. }
  apply bind_post. intros x h4 H4. unfold read_full_at in H4. destruct (ReadFull _ _ _) as [[rr r']|] eqn:Er; injection H4 as <- <-; [|by apply quiet_post].
  set (h4 := store_bytes _ _ _).
  assert (Hq4 : quiet h h4).
  { destruct Hq3 as [Q1 Q2 Q3]. split; [done..|]. destruct Q3 as [Q3|(Q3 & Q4 & Q5)]; [by left|]. right. split; [done|]. split.
    - change (readArr h4) with (arr s). unfold h4. rewrite array_store by (cbn; destruct Hw3; lia). change (array (set_base _ h3)) with (array h3). change (arr s) with (readArr h3).
      apply ReadFull_length in Er. rewrite bytes_of_length in Er by done. rewrite !length_app, length_take, length_drop. cbn in *. lia.
    - intros a Hlt. unfold h4. rewrite array_store_ne; [by apply Q5|]. cbn. lia. }
  destruct (rd_err rr) as [e|]; [by apply quiet_post|].
  assert (Hw4 : wf h4) by (destruct Hw3; split; [cbn; rewrite length_insert; done|done..]).
  assert (Hl4 : (off s + extent s <= length (array h4 (arr s)))%nat).
  { unfold h4. rewrite array_store by (cbn; destruct Hw3; lia). apply ReadFull_length in Er. rewrite bytes_of_length in Er by done. rewrite !length_app, length_take, length_drop. cbn in *. lia. }
  apply bind_post. intros x h5 H5. destruct (typeFrameParser_at_ok fh s h4 Hw4 Hv Hl4) as [[Hp Hok] _].
  unfold run_parser_at in H5. destruct (typeFrameParser_at fh s h4) as [o h6]. cbn [fst snd] in Hp, Hok.
  assert (Hx : forall f, x = Ok f -> o = Ok f).
  { intros f ->. unfold on_base, run_parser, fr_connError in H5. destruct o as [?|[t e]|?|]; [by injection H5 as -> _|destruct e; discriminate|discriminate..]. }
  apply on_base_same in H5. set (fr5 := base h5) in *. clearbody fr5. subst h5.
  assert (Hk : read_post h x (set_base fr5 h6)).
  { destruct Hq4 as [Q1 Q2 Q3]. assert (kept h h4) as Hk4 by by apply kept_cells.
    assert (target h4 = target h) as Htg by (unfold target; by rewrite Q1, Q2).
    split.
    - destruct Hp as [->|[c Hc]]; [by apply kept_cells|]. eapply kept_trans; [exact Hk4|]. by destruct (wr_kept _ _ _ Hc).
    - destruct Hp as [->|[c [[B1 B2 B3 B4] _ _ _ _]]]; [done|]. unfold moved, array in *. cbn [readArr set_base arrays]. by rewrite B2, B3.
    - intros p Hxp. destruct (Hok p (Hx _ Hxp)) as (-> & d & Hd & [[B1 B2 B3 B4] _ _ Hlt Hcell]). rewrite <- Htg.
      change (the_cell (set_base fr5 h6)) with (the_cell h6). rewrite Hcell. split_and!; try done. cbn [c_data]. by rewrite Hd. }
  destruct x as [f| | |]; [|exact Hk..]. set (h5 := set_base fr5 h6) in *.
  apply bind_post. intros x' h7 H7. unfold checkFrameOrder_at in H7. destruct (checkFrameOrder _ _) as [y fr7]. injection H7 as <- <-.
  destruct Hk as [K1 K2 K3]. destruct y; (split; [by destruct K1|exact K2|first [exact K3|by intros p]]).
Qed.


(** Calls of [ReadFrame], whatever they answer. *)
Fixpoint read_all (fuels : list nat) h : heap :=
  match fuels with [] => h | fuel :: fuels => read_all fuels (ReadFrame_at fuel h).2 end.

Lemma read_all_kept fuels : forall h, wf h -> kept h (read_all fuels h).
Proof.
  induction fuels as [|fuel fuels IH]; intros h Hw; cbn [read_all]; [apply kept_refl|].
  eapply kept_trans; [exact (rp_kept _ _ _ (ReadFrame_at_post fuel h Hw))|]. apply IH. by destruct (ReadFrame_refines fuel h Hw).
Qed.

Lemma read_all_wf fuels : forall h, wf h -> wf (read_all fuels h).
Proof. induction fuels as [|fuel fuels IH]; intros h Hw; cbn [read_all]; [done|]. apply IH. by destruct (ReadFrame_refines fuel h Hw). Qed.

Lemma Data_at_valid h p : valid (c_header (the_cell h p)) = true -> Data_at h p = Ok (bytes_of h (c_data (the_cell h p))).
Proof. intros Hv. unfold Data_at, DataFrame_Data, checked, checkValid, data_at. cbn [df_header data]. by rewrite Hv. Qed.

(** A [DataFrame] that [ReadFrame] returned is never invalidated: however often
    [ReadFrame] is called afterwards, [Data] does not panic. *)
Theorem DataFrame_never_invalidated fuel h p h1 fuels :
  wf h -> ReadFrame_at fuel h = (Ok (HeldData p), h1) -> exists d, Data_at (read_all fuels h1) p = Ok d.
Proof.
  intros Hw Hr. pose proof (ReadFrame_at_post fuel h Hw) as Hp. destruct (ReadFrame_refines fuel h Hw) as [Hw1 _]. rewrite Hr in Hp, Hw1. cbn [fst snd] in Hp, Hw1.
  destruct (rp_fresh _ _ _ Hp p eq_refl) as (_ & Hlt & Hv & _). eexists. apply Data_at_valid.
  by apply (kept_valid _ _ (read_all_kept fuels h1 Hw1)).
Qed.

(** With [SetReuseFrames] every [DataFrame] is the same record: the frame read
    last replaces the ones before, whose holders see its header and data. *)
Theorem reused_frames_are_one fuel h p h1 fuels fuel' q h2 c :
  wf h -> frameCache h = Some c -> ReadFrame_at fuel h = (Ok (HeldData p), h1) ->
  ReadFrame_at fuel' (read_all fuels h1) = (Ok (HeldData q), h2) -> q = p.
Proof.
  intros Hw Hc H1 H2. pose proof (ReadFrame_at_post fuel h Hw) as P1. destruct (ReadFrame_refines fuel h Hw) as [Hw1 _]. rewrite H1 in P1, Hw1. cbn [fst snd] in P1, Hw1.
  pose proof (read_all_kept fuels h1 Hw1) as K. pose proof (ReadFrame_at_post fuel' _ (read_all_wf fuels h1 Hw1)) as P2. rewrite H2 in P2. cbn [fst snd] in P2.
  destruct (rp_fresh _ _ _ P1 p eq_refl) as (-> & _), (rp_fresh _ _ _ P2 q eq_refl) as (-> & _).
  unfold target. by rewrite (kept_cache _ _ K), (kept_cache _ _ (rp_kept _ _ _ P1)), Hc.
Qed.

End Held.

(** The end of [ReadFrame_plain] does not change [readBuf]. *)
Lemma keeps_buffer {R W E} (m : res (option string * http2_error E) Frame) (fr : Framer R W) :
  readBuf ((let* f := run_parser m in checkFrameOrder f ;;; st_ret f) fr).2 = readBuf fr.
Proof.
  unfold st_bind, st_ret, run_parser, checkFrameOrder, fr_connError. by repeat (case_match; simplify_eq/=; try done).
Qed.

(** ** On a stream *)

Section Stream.
Context {W : Type}.
Notation heap := (@heap stream W).
Implicit Types h : heap.

(** C28: The next frame overwrites the data of an earlier one when its payload
    fits the read buffer, whatever the frame is and whether or not it is
    refused: [Data] of the [DataFrame] that the caller kept does not panic, as
    the comments promise, but answers with bytes of the new payload. *)
Theorem held_data_overwritten h fuel t fl sid d rest p :
  wf h -> (p < length (cells h))%nat -> frameCache h <> Some p -> valid (c_header (the_cell h p)) = true -> arr (c_data (the_cell h p)) = readArr h ->
  framer_ok (base h) -> 0 <= sid < 2 ^ 31 -> len d <= maxReadSize (base h) -> len d <= len (array h (readArr h)) ->
  unread (r (base h)) = frame_bytes t fl sid d ++ rest ->
  Data_at (E := Empty_set) (ReadFrame_at (S fuel) h).2 p =
    Ok (take (extent (c_data (the_cell h p))) (drop (off (c_data (the_cell h p))) (d ++ drop (length d) (array h (readArr h))))).
Proof.
  intros Hw Hp Hc Hv Ha Hok Hs Hm Hl Hu.
  destruct (ReadFrame_refines (S fuel) h Hw) as [_ Href]. pose proof (ReadFrame_at_post (S fuel) h Hw) as [[_ _ Hcell Hvalid _] Hbuf _].
  destruct (Href _ (sim_abs h Hw)) as (fr' & Hfr & (l & -> & _)). clear Href. rename Hfr into Href.
  rewrite (ReadFrame_bytes (abs h) fuel t fl sid d rest) in Href by done.
  assert (Hb : array (ReadFrame_at (S fuel) h).2 (readArr (ReadFrame_at (S fuel) h).2) = d ++ drop (length d) (array h (readArr h))).
  { change (readBuf (set_lastFrame (buffered (ReadFrame_at (S fuel) h).2) l) = d ++ drop (length d) (array h (readArr h))).
    apply (f_equal snd) in Href. cbn [snd] in Href. rewrite <- Href. rewrite keeps_buffer. unfold after_read.
    cbn [readBuf set_readBuf set_r set_headerBuf set_errDetail]. change (readBuf (abs h)) with (array h (readArr h)). by rewrite (proj2 (Z.leb_le _ _)). }
  destruct (ReadFrame_at (S fuel) h) as [x h']. cbn [snd] in *.
  destruct Hbuf as [Hbuf|(_ & Hlt & _)].
  - rewrite Data_at_valid by auto. rewrite Hcell by done. unfold bytes_of. rewrite Ha, <- Hbuf at 1. by rewrite Hb.
  - exfalso. rewrite Hb, length_app, length_drop in Hlt. unfold len in Hl. lia.
Qed.
End Stream.

(** A frame with five bytes of data, then one of three. *)
Definition two_frames : bytes := frame_bytes FrameData 0 1 (str "hello") ++ frame_bytes FrameData 0 3 (str "bye").
Definition after_one : @FrameHeld.heap stream unit := (ReadFrame_at 1 (NewFramer_at tt (mkStream two_frames))).2.

Lemma after_one_wf : wf after_one.
Proof.
  split; [vm_compute; lia|intros p Hp; vm_compute in Hp; discriminate|].
  intros f Hf. vm_compute in Hf. injection Hf as <-. split; [vm_compute; lia|done].
Qed.

Lemma ReadFrame_at_refines_witness :
  let '(x, h') := ReadFrame_at 1 after_one in
  wf h' /\ forall fr, sim after_one fr -> exists fr',
    ReadFrame_plain 1 fr = (res_map (frame_now h') x, fr') /\ sim h' fr' /\
    forall f, x = Ok f -> fr' = abs h'.
Proof. apply ReadFrame_at_refines. exact after_one_wf. Defined.

Lemma held_data_overwritten_witness :
  Data_at (E := Empty_set) after_one 0 = Ok (str "hello") /\ Data_at (E := Empty_set) (ReadFrame_at 1 after_one).2 0 = Ok (str "byelo").
Proof.
  split; [by vm_compute|].
  assert (len (str "bye") <= maxReadSize (base after_one)) as Hm by (vm_compute; discriminate).
  assert (len (str "bye") <= len (array after_one (readArr after_one))) as Hl by (vm_compute; discriminate).
  assert (framer_ok (base after_one)) as Hok by (split; [by vm_compute|vm_compute; split; discriminate]).
  assert (frameCache after_one <> Some 0%nat) as Hc by (vm_compute; discriminate).
  assert ((0 < length (cells after_one))%nat) as Hp by (vm_compute; lia).
  pose proof (held_data_overwritten after_one 0 FrameData 0 3 (str "bye") [] 0 after_one_wf Hp Hc ltac:(by vm_compute) ltac:(by vm_compute) Hok ltac:(lia) Hm Hl ltac:(by vm_compute)) as H.
  etransitivity; [exact H|by vm_compute].
Defined.
