(* ===== verification/FrameDebug.v ===== *)
(** * Frames as text

    [String] of frame headers and settings and [summarizeFrame], which the debug
    log prints: [src/http2/http2/frame.go], [http2.go], [errors.go].  The verb
    [%q] is a parameter.  [FrameHeader_String_inj]: the text of a header
    determines it; [summarizeFrame_total]: a valid frame has a text. *)
From Stdlib Require Import Ascii.
From stdpp Require Import pretty.
From S2P Require Import Prelude Io Http2Types Frame Framer FrameWire FrameRead FrameProps.

Local Open Scope string_scope.
Local Open Scope Z_scope.
Local Open Scope go_scope.

(** [%x] of a number below [16 ^ fuel]. *)
Definition hex_char (d : Z) : Ascii.ascii := Ascii.ascii_of_N (Z.to_N (if d <? 10 then d + 48 else d + 87)).
Fixpoint hex_string (fuel : nat) (n : Z) (acc : string) : string :=
  match fuel with
  | O => acc
  | S fuel => let acc := String (hex_char (n mod 16)) acc in if n / 16 =? 0 then acc else hex_string fuel (n / 16) acc
  end.
Definition hex (n : Z) : string := hex_string 8 n "".

Definition ErrCode_String (e : Z) : string :=
  match assoc_lookup e errCodeName with Some s => s | None => "unknown error code 0x" +:+ hex e end.

Definition settingName : list (Z * string) := [
  (SettingHeaderTableSize, "HEADER_TABLE_SIZE");
  (SettingEnablePush, "ENABLE_PUSH");
  (SettingMaxConcurrentStreams, "MAX_CONCURRENT_STREAMS");
  (SettingInitialWindowSize, "INITIAL_WINDOW_SIZE");
  (SettingMaxFrameSize, "MAX_FRAME_SIZE");
  (SettingMaxHeaderListSize, "MAX_HEADER_LIST_SIZE")].
Definition SettingID_String (s : Z) : string :=
  match assoc_lookup s settingName with Some v => v | None => "UNKNOWN_SETTING_" +:+ decimal s end.
Definition Setting_String (s : Setting) : string := "[" +:+ SettingID_String (ID s) +:+ " = " +:+ decimal (Val s) +:+ "]".

(** ** Headers *)

Definition flagName : list (Z * list (Z * string)) := [
  (FrameData, [(FlagDataEndStream, "END_STREAM"); (FlagDataPadded, "PADDED")]);
  (FrameHeaders, [(FlagHeadersEndStream, "END_STREAM"); (FlagHeadersEndHeaders, "END_HEADERS");
                  (FlagHeadersPadded, "PADDED"); (FlagHeadersPriority, "PRIORITY")]);
  (FrameSettings, [(FlagSettingsAck, "ACK")]);
  (FramePing, [(FlagPingAck, "ACK")]);
  (FrameContinuation, [(FlagContinuationEndHeaders, "END_HEADERS")]);
  (FramePushPromise, [(FlagPushPromiseEndHeaders, "END_HEADERS"); (FlagPushPromisePadded, "PADDED")])].
(** [flagName[t][f]]: the zero values where a key is missing. *)
Definition flag_name (t f : Z) : string := default "" (assoc_lookup f (default [] (assoc_lookup t flagName))).

(** The loop of [writeDebug] from bit [i], [n] bits being left. *)
Fixpoint flag_loop (t flags i : Z) (n : nat) (set : Z) (buf : string) : string :=
  match n with
  | O => buf
  | S n =>
      if Z.land flags (u8 (Z.shiftl 1 i)) =? 0 then flag_loop t flags (i + 1) n set buf
      else
        let set := set + 1 in
        let buf := if 1 <? set then buf +:+ "|" else buf in
        let name := flag_name t (u8 (Z.shiftl 1 i)) in
        let buf := if negb (bool_decide (name = "")) then buf +:+ name else buf +:+ "0x" +:+ hex (Z.shiftl 1 i) in
        flag_loop t flags (i + 1) n set buf
  end.

(** What [writeDebug] appends. *)
Definition writeDebug (h : FrameHeader) : string :=
  FrameType_String (Type_ h)
  +:+ (if negb (Flags h =? 0) then " flags=" +:+ flag_loop (Type_ h) (Flags h) 0 8 0 "" else "")
  +:+ (if negb (StreamID h =? 0) then " stream=" +:+ decimal (StreamID h) else "")
  +:+ " len=" +:+ decimal (Length h).

Definition FrameHeader_String (h : FrameHeader) : string := "[FrameHeader " +:+ writeDebug h +:+ "]".

(** ** Frames *)

Section Summary.
Context {E : Type} (quote : bytes -> string).
Notation P A := (res (option string * http2_error E) A).

(** [buf.Truncate(buf.Len() - 1)] *)
Fixpoint chop (s : string) : string :=
  match s with "" => "" | String c "" => "" | String c s => String c (chop s) end.

Definition setting_text (s : Setting) (st : Z * string) : (Z * string) * option (http2_error E) :=
  let n := st.1 + 1 in
  let buf := if n =? 1 then st.2 +:+ ", settings:" else st.2 in
  ((n, buf +:+ " " +:+ SettingID_String (ID s) +:+ "=" +:+ decimal (Val s) +:+ ","), None).

Definition summarizeFrame (f : Frame) : P string :=
  let buf := writeDebug (Header f) in
  match f with
  | FSettings f =>
      let? (n, buf) := res_map fst (ForEachSetting setting_text f (0, buf)) in
      Ok (if 0 <? n then chop buf else buf)
  | FData f =>
      let? _ := checkValid (df_header f) in
      let cut := if 256 <? len (data f) then take 256 (data f) else data f in
      let buf := buf +:+ " data=" +:+ quote cut in
      Ok (if 256 <? len (data f) then buf +:+ " (" +:+ decimal (len (data f) - 256) +:+ " bytes ommited)" else buf)
  | FWindowUpdate f =>
      let buf := if StreamID (wu_header f) =? 0 then buf +:+ " (conn)" else buf in
      Ok (buf +:+ " incr=" +:+ decimal (Increment f))
  | FPing f => Ok (buf +:+ " ping=" +:+ quote (ping_Data f))
  | FGoAway f =>
      Ok (buf +:+ " LastStreamID=" +:+ decimal (LastStreamID f) +:+ " ErrCode=" +:+ ErrCode_String (ga_ErrCode f)
          +:+ " Debug=" +:+ quote (debugData f))
  | FRSTStream f => Ok (buf +:+ " ErrCode=" +:+ ErrCode_String (rf_ErrCode f))
  | _ => Ok buf
  end.
End Summary.

Example header_text : FrameHeader_String (mkFrameHeader true FrameHeaders 0x2d 17 3) =
  "[FrameHeader HEADERS flags=END_STREAM|END_HEADERS|PADDED|PRIORITY stream=3 len=17]".
Proof. by vm_compute. Qed.
Example settings_text : summarizeFrame (E := Empty_set) (fun _ => "") (FSettings (mkSettingsFrame (mkFrameHeader true FrameSettings 0 12 0) [0; 3; 0; 0; 0; 100; 0; 9; 0; 0; 0; 1])) =
  Ok "SETTINGS len=12, settings: MAX_CONCURRENT_STREAMS=100, UNKNOWN_SETTING_9=1".
Proof. by vm_compute. Qed.

(** ** The text determines the header *)

(** [c] does not occur in [s]. *)
Fixpoint lacks (c : Ascii.ascii) (s : string) : bool :=
  match s with "" => true | String d s => negb (bool_decide (c = d)) && lacks c s end.

Lemma append_assoc (s1 s2 s3 : string) : (s1 +:+ s2) +:+ s3 = s1 +:+ s2 +:+ s3.
Proof. induction s1 as [|c s1 IH]; [done|]. change (String c ((s1 +:+ s2) +:+ s3) = String c (s1 +:+ s2 +:+ s3)). by rewrite IH. Qed.
Lemma lacks_app c s1 s2 : lacks c (s1 +:+ s2) = lacks c s1 && lacks c s2.
Proof. induction s1 as [|d s1 IH]; [done|]. change (String d s1 +:+ s2) with (String d (s1 +:+ s2)). cbn [lacks]. by rewrite IH, andb_assoc. Qed.

Lemma cut_at c a x b y : lacks c a = true -> lacks c b = true -> a +:+ String c x = b +:+ String c y -> a = b /\ x = y.
Proof.
  revert b. induction a as [|d a IH]; intros [|e b]; cbn [lacks]; rewrite ?andb_true_iff, ?negb_true_iff, ?bool_decide_eq_false.
  - by intros _ _ [= ->].
  - intros _ [H _] [= -> _]. done.
  - intros [H _] _ [= -> _]. done.
  - intros [_ Ha] [_ Hb] [= -> H]. by destruct (IH b Ha Hb H) as [-> ->].
Qed.

(** Decimal digits are none of the separators. *)
Lemma pretty_lacks c : (forall x, (x < 10)%N -> c <> pretty_N_char x) -> forall n : N, lacks c (pretty n) = true.
Proof.
  intros Hc n. assert (Hgo : forall (x : N) s, lacks c s = true -> lacks c (pretty_N_go x s) = true).
  { induction x as [x IH] using (well_founded_induction N.lt_wf_0). intros s Hs. destruct (decide (x = 0)%N) as [->|Hx]; [done|].
    rewrite pretty_N_go_step by lia. apply IH; [apply N.div_lt; lia|]. cbn [lacks]. rewrite andb_true_iff, negb_true_iff, bool_decide_eq_false.
    split; [|done]. apply Hc. apply N.mod_lt. lia. }
  unfold pretty, pretty_N. destruct (decide _); [|by apply Hgo]. cbn [lacks]. rewrite andb_true_r, negb_true_iff, bool_decide_eq_false. by apply (Hc 0%N).
Qed.

Definition space : Ascii.ascii := " "%char.
Definition bracket : Ascii.ascii := "]"%char.

Lemma decimal_lacks c n : c = space \/ c = bracket -> lacks c (decimal n) = true.
Proof.
  intros Hc. apply pretty_lacks. intros x Hx.
  assert (In x [0; 1; 2; 3; 4; 5; 6; 7; 8; 9]%N) as Hin by (cbn; lia). cbn in Hin.
  repeat (destruct Hin as [<-|Hin]; [by destruct Hc as [->| ->]|]). done.
Qed.
Lemma decimal_text_inj a b : 0 <= a -> 0 <= b -> decimal a = decimal b -> a = b.
Proof. intros Ha Hb H. unfold decimal in H. apply (inj (pretty (A:=N))) in H. lia. Qed.

Lemma assoc_lookup_In {A} k (l : list (Z * A)) v : assoc_lookup k l = Some v -> In (k, v) l.
Proof. induction l as [|[k' v'] l IH]; [done|]. cbn [assoc_lookup]. destruct (Z.eqb_spec k k') as [->|_]; [intros [= ->]; by left|]. intros H. right. auto. Qed.

(** *** Types *)

Lemma type_lacks t : lacks space (FrameType_String t) = true.
Proof.
  unfold FrameType_String. destruct (assoc_lookup t frameName) as [s|] eqn:Ht.
  - apply assoc_lookup_In in Ht. cbn in Ht. repeat (destruct Ht as [[= _ <-]|Ht]; [done|]). done.
  - rewrite lacks_app, decimal_lacks by (by left). done.
Qed.

Lemma unknown_type_ne s t : In s (map snd frameName) -> s <> "UNKNOWN_FRAME_TYPE_" +:+ decimal t.
Proof. intros Hs. cbn in Hs. repeat (destruct Hs as [<-|Hs]; [done|]). done. Qed.

Lemma type_inj t1 t2 : 0 <= t1 -> 0 <= t2 -> FrameType_String t1 = FrameType_String t2 -> t1 = t2.
Proof.
  intros H1 H2. unfold FrameType_String. destruct (assoc_lookup t1 frameName) as [s1|] eqn:E1, (assoc_lookup t2 frameName) as [s2|] eqn:E2.
  - apply assoc_lookup_In in E1, E2. cbn in E1, E2.
    intros <-. repeat (destruct E1 as [[= <- <-]|E1]; [repeat (destruct E2 as [E2|E2]; [congruence|]); done|]). done.
  - apply assoc_lookup_In in E1. apply (in_map snd) in E1. intros H. by apply unknown_type_ne in H.
  - apply assoc_lookup_In in E2. apply (in_map snd) in E2. intros H. symmetry in H. by apply unknown_type_ne in H.
  - intros H. apply (inj (String.append _)) in H. by apply decimal_text_inj.
Qed.

(** *** Flags *)

Definition flags_text (t flags : Z) : string := flag_loop t flags 0 8 0 "".

(** A type without names for its flags is like type 10. *)
Lemma flag_loop_unnamed t1 t2 : assoc_lookup t1 flagName = None -> assoc_lookup t2 flagName = None ->
  forall n flags i set buf, flag_loop t1 flags i n set buf = flag_loop t2 flags i n set buf.
Proof.
  intros H1 H2. induction n as [|n IH]; intros flags i set buf; [done|]. cbn [flag_loop]. unfold flag_name. rewrite H1, H2, IH. by destruct (_ =? _).
Qed.

(** All flag bytes, and the types that differ. *)
Definition all_flags : list Z := map Z.of_nat (seq 0 256).
Definition some_types : list Z := [FrameData; FrameHeaders; FrameSettings; FramePing; FrameContinuation; FramePushPromise; 10].

Lemma flags_text_check : forallb (fun t => let l := map (flags_text t) all_flags in bool_decide (NoDup l) && forallb (lacks space) l) some_types = true.
Proof. by vm_compute. Qed.

Lemma some_type t : exists t', In t' some_types /\ forall flags, flags_text t flags = flags_text t' flags.
Proof.
  destruct (assoc_lookup t flagName) as [l|] eqn:Ht.
  - exists t. split; [|done]. apply assoc_lookup_In, (in_map fst) in Ht. cbn in Ht |- *. tauto.
  - exists 10. split; [cbn; tauto|]. intros flags. by apply flag_loop_unnamed.
Qed.

Lemma flags_text_ok t : NoDup (map (flags_text t) all_flags) /\ Forall (fun s => lacks space s = true) (map (flags_text t) all_flags).
Proof.
  destruct (some_type t) as (t' & Hin & Heq). rewrite (map_ext _ _ Heq). pose proof flags_text_check as H. rewrite forallb_forall in H. specialize (H t' Hin).
  apply andb_true_iff in H as [H1 H2]. split; [by apply bool_decide_eq_true in H1|]. rewrite forallb_forall in H2. by apply List.Forall_forall.
Qed.

Lemma all_flags_lookup f : is_byte f -> all_flags !! Z.to_nat f = Some f.
Proof. intros Hf. unfold is_byte in Hf. unfold all_flags. rewrite list_lookup_fmap. rewrite lookup_seq_lt by lia. cbn. f_equal. lia. Qed.

#[local] Opaque flags_text all_flags.

Lemma flags_lacks t f : is_byte f -> lacks space (flags_text t f) = true.
Proof.
  intros Hf. destruct (flags_text_ok t) as [_ H]. rewrite List.Forall_forall in H. apply H. apply in_map. eapply list_elem_of_In, list_elem_of_lookup_2, (all_flags_lookup f Hf).
Qed.
Lemma flags_inj t f g : is_byte f -> is_byte g -> flags_text t f = flags_text t g -> f = g.
Proof.
  intros Hf Hg Heq. destruct (flags_text_ok t) as [H _].
  assert (forall x, is_byte x -> map (flags_text t) all_flags !! Z.to_nat x = Some (flags_text t x)) as Hl.
  { intros x Hx. change (map (flags_text t) all_flags) with (flags_text t <$> all_flags). by rewrite list_lookup_fmap, (all_flags_lookup x Hx). }
  pose proof (Hl f Hf) as H1. rewrite Heq in H1. pose proof (NoDup_lookup _ _ _ _ H H1 (Hl g Hg)).
  unfold is_byte in *. lia.
Qed.

(** *** Headers *)

(** A word that may be missing: a space, a first letter, more of the name and
    a text. *)
Definition word (b : bool) (c : ascii) (name text : string) : string :=
  if b then String space (String c (name +:+ text)) else "".

(** A text that goes on with another word than one that starts with [c]. *)
Definition goes_on (c : ascii) (s : string) : Prop := exists d y, d <> c /\ s = String space (String d y).

Lemma goes_on_word b c d name text s : d <> c -> goes_on c s -> goes_on c (word b d name text +:+ s).
Proof. intros Hd Hs. destruct b; [by exists d, ((name +:+ text) +:+ s)|done]. Qed.

Lemma word_inj c name b1 x1 r1 b2 x2 r2 :
  lacks space x1 = true -> lacks space x2 = true -> goes_on c r1 -> goes_on c r2 ->
  word b1 c name x1 +:+ r1 = word b2 c name x2 +:+ r2 -> b1 = b2 /\ (b1 = true -> x1 = x2) /\ r1 = r2.
Proof.
  intros H1 H2 (d1 & y1 & N1 & ->) (d2 & y2 & N2 & ->). destruct b1, b2; cbn [word].
  - intros [= H]. rewrite !append_assoc in H. apply (inj (String.append name)) in H. apply cut_at in H as [-> [= -> ->]]; [|done..]. done.
  - by intros [= <- _].
  - by intros [= -> _].
  - by intros [= -> ->].
Qed.

Record header_ok (h : FrameHeader) : Prop := {
  ho_Type : 0 <= Type_ h;
  ho_Flags : is_byte (Flags h);
  ho_Length : 0 <= Length h;
  ho_StreamID : 0 <= StreamID h }.

(** The text after the type. *)
Definition header_words (h : FrameHeader) : string :=
  word (negb (Flags h =? 0)) "f" "lags=" (flags_text (Type_ h) (Flags h)) +:+
  word (negb (StreamID h =? 0)) "s" "tream=" (decimal (StreamID h)) +:+
  " len=" +:+ decimal (Length h) +:+ "]".

Lemma header_text_words h : FrameHeader_String h = "[FrameHeader " +:+ FrameType_String (Type_ h) +:+ header_words h.
Proof.
  unfold FrameHeader_String, writeDebug, header_words. rewrite !append_assoc. do 4 f_equal.
Qed.

Lemma last_goes_on c s : c <> "l"%char -> goes_on c (" len=" +:+ s).
Proof. intros Hc. by exists "l"%char, ("en=" +:+ s). Qed.

Lemma words_space h : exists s, header_words h = String space s.
Proof.
  assert (goes_on "]" (header_words h)) as (d & y & _ & ->) by (apply goes_on_word; [done|]; apply goes_on_word; [done|]; by apply last_goes_on). by eexists.
Qed.

(** The text of a header determines its type, flags, stream and length. *)
Theorem FrameHeader_String_inj h1 h2 : header_ok h1 -> header_ok h2 -> FrameHeader_String h1 = FrameHeader_String h2 ->
  Type_ h1 = Type_ h2 /\ Flags h1 = Flags h2 /\ StreamID h1 = StreamID h2 /\ Length h1 = Length h2.
Proof.
  intros [T1 F1 L1 S1] [T2 F2 L2 S2]. rewrite !header_text_words. intros H. apply (inj (String.append _)) in H.
  destruct (words_space h1) as [s1 E1], (words_space h2) as [s2 E2]. rewrite E1, E2 in H.
  apply cut_at in H as [Ht Hw]; [|apply type_lacks..]. assert (header_words h1 = header_words h2) as Hh by (by rewrite E1, E2, Hw). clear E1 E2 Hw.
  apply type_inj in Ht; [|done..]. unfold header_words in Hh. rewrite <- Ht in Hh.
  apply word_inj in Hh as (B1 & X1 & Hh); [|by apply flags_lacks..|apply goes_on_word; [done|]; by apply last_goes_on|apply goes_on_word; [done|]; by apply last_goes_on].
  apply word_inj in Hh as (B2 & X2 & Hh); [|apply decimal_lacks; by left|apply decimal_lacks; by left|by apply last_goes_on..].
  apply (inj (String.append " len=")) in Hh. apply (cut_at bracket _ "" _ "") in Hh as [Hl _]; [|apply decimal_lacks; by right..].
  split; [done|]. split; [|split].
  - destruct (Z.eqb_spec (Flags h1) 0), (Z.eqb_spec (Flags h2) 0); try done; [congruence|]. eapply flags_inj; [done..|by apply X1].
  - destruct (Z.eqb_spec (StreamID h1) 0), (Z.eqb_spec (StreamID h2) 0); try done; [congruence|]. apply decimal_text_inj; [done..|by apply X2].
  - by apply decimal_text_inj.
Qed.

(** ** Every valid frame has a text *)

Lemma ForEach_total {E St} (fn : Setting -> St -> St * option (http2_error E)) f : (forall s st, (fn s st).2 = None) ->
  forall n i st, (i + n <= NumSettings f)%nat -> exists st', (ForEach_loop fn f i n st : res (option string * http2_error E) _) = Ok (st', None).
Proof.
  intros Hfn. induction n as [|n IH]; intros i st Hn; cbn [ForEach_loop]; [by eexists|].
  pose proof (Setting_at_no_panic (E := E) f i ltac:(lia)) as Hp. unfold Setting_at in *. unfold slice in *.
  destruct (_ && _); [|done]. cbn [res_bind] in *. destruct (_ && _); [|done]. cbn [res_bind].
  specialize (Hfn (mkSetting (be_val (take (i * 6 + 2 - i * 6) (drop (i * 6) (sf_p f)))) (be_val (take (i * 6 + 6 - (i * 6 + 2)) (drop (i * 6 + 2) (sf_p f))))) st).
  destruct (fn _ st) as [st' e]. cbn [snd] in Hfn. subst e. apply IH. lia.
Qed.

Theorem summarizeFrame_total {E} quote f : valid (Header f) = true -> exists s, (summarizeFrame quote f : res (option string * http2_error E) _) = Ok s.
Proof.
  intros Hv. destruct f as [f|f|f|f|f|f|f|f|f|f|f]; cbn [summarizeFrame Header] in *; try by eexists.
  - unfold checkValid. rewrite Hv. by eexists.
  - unfold ForEachSetting, checkValid. rewrite Hv. cbn [negb res_bind].
    destruct (ForEach_total (E := E) setting_text f ltac:(done) (NumSettings f) 0 (0, writeDebug (sf_header f)) ltac:(lia)) as [[n buf] ->]. by eexists.
Qed.
