(* ===== verification/WriteFrames.v ===== *)
(** * Frame writers and header encoding

    [src/http2/http2/write.go] and the rest of [http2.go]: the [writeFramer]
    types, [splitHeaderBlock], [encodeHeaders], the [sorter].  The state [wctx]
    is what a [writeContext] gives access to: the [Framer], and the HPACK
    encoder together with the buffer it writes to ([HeaderEncoder] returns
    both; the buffer is the encoder's writer).  [Flush] is a parameter, the
    class [Flusher]: the server's implementation is not in the repository.
    Logging is left out. *)
From S2P Require Import Prelude Hpack Io HpackEncode HpackDecode Httpguts Textproto Http2Types Frame Framer.
From stdpp Require Import sorting.

Local Open Scope Z_scope.
Local Open Scope go_scope.

(** ** Sorted keys *)

(** [a < b] on Go strings. *)
Fixpoint str_less (a b : bytes) : bool :=
  match a, b with
  | _, [] => false
  | [], _ :: _ => true
  | x :: a, y :: b => (x <? y) || ((x =? y) && str_less a b)
  end.

(** [!Less(j, i)]: what [sort.Sort] establishes between neighbours. *)
Definition str_le (a b : bytes) : Prop := str_less b a = false.

#[export] Instance str_le_dec a b : Decision (str_le a b).
Proof. unfold str_le. apply _. Defined.

(** [Keys]: Go visits a map in no particular order; [order] is the order it
    happens to take.  [sort.Sort] is a sorting algorithm of the standard
    library; [Keys_order] shows that neither choice matters. *)
Definition sort_strings (l : list bytes) : list bytes := merge_sort str_le l.

Definition Keys (order : list bytes) : list bytes := sort_strings order.

Definition header_keys (h : MIMEHeader) : list bytes :=
  match h with
  | None => []
  | Some m => (map_to_list m).*1
  end.

(** [h[k]] on a header that may be nil. *)
Definition header_at (h : MIMEHeader) (k : bytes) : list bytes :=
  match h with
  | None => []
  | Some m => values_at m k
  end.

(** ** Encoding headers *)

Notation EM := (stateful (Encoder bytes) Empty_set).

(** The error of [WriteField] is not looked at. *)
Definition encKV (k v : bytes) : EM unit := fun e =>
  match WriteField (mkHeaderField k v false) e with
  | (Ok _, e) => (Ok tt, e)
  | (Err _, e) => (Ok tt, e)
  | (Panic m, e) => (Panic m, e)
  | (NoFuel, e) => (NoFuel, e)
  end.

(** The inner loop over the values of a key. *)
Fixpoint encode_values (k : bytes) (isTE : bool) (vv : list bytes) : EM unit :=
  match vv with
  | [] => st_ret tt
  | v :: vv =>
      (if negb (ValidHeaderFieldValue v) then st_ret tt
       else if isTE && negb (bool_decide (v = str "trailers")) then st_ret tt
       else encKV k v) ;;;
      encode_values k isTE vv
  end.

Fixpoint encode_keys (h : MIMEHeader) (keys : list bytes) : EM unit :=
  match keys with
  | [] => st_ret tt
  | k :: keys =>
      (let vv := header_at h k in
       let (k, ascii) := lowerHeader k in
       if negb ascii then st_ret tt
       else if negb (validWireHeaderFieldName k) then st_ret tt
       else
         let isTE := bool_decide (k = str "transfer-encoding") in
         encode_values k isTE vv) ;;;
      encode_keys h keys
  end.

(** [keys] is [None] for the nil slice. *)
Definition encodeHeaders (h : MIMEHeader) (keys : option (list bytes)) : EM unit :=
  encode_keys h (match keys with None => Keys (header_keys h) | Some keys => keys end).

(** [httpCodeString] *)
Definition itoa (n : Z) : bytes :=
  str (if n <? 0 then "-" +:+ decimal (- n) else decimal n).

Definition httpCodeString (code : Z) : bytes :=
  match code with
  | 200 => str "200"
  | 404 => str "404"
  | _ => itoa code
  end.

(** ** The write context *)

Class Flusher (W E : Type) := FlushTo : W -> option (io_error E) * W.

Section Writers.
Context {R W E : Type} {RD : Reader R E} {WR : Writer W E} {FL : Flusher W E} {ED : EqDecision E}.

Record wctx : Type := mkCtx {
  cx_framer : Framer R W;
  cx_enc : Encoder bytes;
}.

Notation M := (stateful wctx (http2_error E)).

Definition with_framer {A} (m : stateful (Framer R W) (http2_error E) A) : M A := fun c =>
  let (r, f) := m (cx_framer c) in (r, mkCtx f (cx_enc c)).

Definition with_enc {A} (m : EM A) : M A := fun c =>
  let (r, e) := m (cx_enc c) in
  (match r with
   | Ok a => Ok a
   | Err x => match x with end
   | Panic s => Panic s
   | NoFuel => NoFuel
   end, mkCtx (cx_framer c) e).

(** [ctx.Flush()] *)
Definition Flush : M unit := fun c =>
  let (err, w') := FlushTo (w (cx_framer c)) in
  (match err with None => Ok tt | Some e => Err (IoError e) end,
   mkCtx (set_w (cx_framer c) w') (cx_enc c)).

(** [buf.Reset()] *)
Definition reset_buf : M unit := fun c =>
  let e := cx_enc c in
  (Ok tt, mkCtx (cx_framer c)
    (mkEncoder (HpackEncode.dynTab e) (minSize e) (maxSizeLimit e) (tableSizeUpdate e) []
       (HpackEncode.buf e))).

(** [buf.Bytes()] *)
Definition buf_bytes : M bytes := fun c => (Ok (HpackEncode.w (cx_enc c)), c).

(** ** [splitHeaderBlock] *)

Definition splitMaxFrameSize : nat := Z.to_nat 16384.

(** The loop; every turn takes at least one byte ([splitHeaderBlock_calls]). *)
Fixpoint split_loop (fuel : nat) (headerBlock : bytes) (first : bool)
    (fn : bytes -> bool -> bool -> M unit) : M unit :=
  match headerBlock with
  | [] => st_ret tt
  | _ =>
      match fuel with
      | O => fun c => (NoFuel, c)
      | S fuel =>
          let frag := take splitMaxFrameSize headerBlock in
          let headerBlock := drop (length frag) headerBlock in
          fn frag first (bool_decide (headerBlock = [])) ;;;
          split_loop fuel headerBlock false fn
      end
  end.

Definition splitHeaderBlock (headerBlock : bytes) (fn : bytes -> bool -> bool -> M unit) : M unit :=
  split_loop (length headerBlock) headerBlock true fn.

(** ** The [writeFramer] types *)

Record writeResHeaders : Type := mkResHeaders {
  rh_streamID : Z;
  rh_httpResCode : Z;  (* 0 means no ":status" line *)
  rh_h : MIMEHeader;
  rh_trailers : option (list bytes);
  rh_endStream : bool;
  rh_date : bytes;
  rh_contentType : bytes;
  rh_contentLength : bytes;
}.

(** What [writePushPromise] reads of its [*url.URL]; [RequestURI] is a method
    of the standard library, given by its result. *)
Record URL : Type := mkURL { u_Scheme : bytes; u_Host : bytes; u_RequestURI : bytes }.

Record writePushPromise : Type := mkPushPromise {
  wp_streamID : Z;
  wp_method : bytes;
  wp_url : URL;
  wp_h : MIMEHeader;
  wp_promisedID : Z;
}.

Inductive writeFramer : Type :=
  | flushFrameWriter
  | Wsettings (s : list Setting)
  | WgoAway (maxStreamID code : Z)
  | Wdata (streamID : Z) (p : bytes) (endStream : bool)
  | handlerPanicRST (StreamID : Z)
  | WstreamError (StreamID Code : Z)
  | WpingAck (pf : PingFrame)
  | WsettingsAck
  | WresHeaders (h : writeResHeaders)
  | WpushPromise (p : writePushPromise)
  | W100Continue (streamID : Z)
  | WwindowUpdate (streamID n : Z).

Definition enc_if (v : bytes) (k : string) : M unit :=
  if bool_decide (v = []) then st_ret tt else with_enc (encKV (str k) v).

(** [writeResHeaders.writeHeaderBlock] *)
Definition res_header_block (h : writeResHeaders) (frag : bytes) (firstFrag lastFrag : bool) : M unit :=
  if firstFrag then
    with_framer (WriteHeaders (mkHeadersFrameParam (rh_streamID h) frag (rh_endStream h) lastFrag 0
      zeroPriority))
  else with_framer (WriteContinuation (rh_streamID h) lastFrag frag).

(** The HPACK part of [writeResHeaders.writeFrame]. *)
Definition encode_response (h : writeResHeaders) : M unit :=
  reset_buf ;;;
  (if rh_httpResCode h =? 0 then st_ret tt
   else with_enc (encKV (str ":status") (httpCodeString (rh_httpResCode h)))) ;;;
  with_enc (encodeHeaders (rh_h h) (rh_trailers h)) ;;;
  enc_if (rh_contentType h) "content-type" ;;;
  enc_if (rh_contentLength h) "content-length" ;;;
  enc_if (rh_date h) "date".

Definition write_response (h : writeResHeaders) : M unit :=
  encode_response h ;;;
  let* headerBlock := buf_bytes in
  if bool_decide (headerBlock = []) && negb (bool_decide (is_Some (rh_trailers h)))
  then st_lift (Panic "unexpected empty hpack")
  else splitHeaderBlock headerBlock (res_header_block h).

(** [writePushPromise.writeHeaderBlock] *)
Definition push_header_block (p : writePushPromise) (frag : bytes) (firstFrag lastFrag : bool) : M unit :=
  if firstFrag then
    with_framer (WritePushPromise (mkPushPromiseParam (wp_streamID p) (wp_promisedID p) frag lastFrag 0))
  else with_framer (WriteContinuation (wp_streamID p) lastFrag frag).

Definition write_push_promise (p : writePushPromise) : M unit :=
  reset_buf ;;;
  with_enc (encKV (str ":method") (wp_method p)) ;;;
  with_enc (encKV (str ":scheme") (u_Scheme (wp_url p))) ;;;
  with_enc (encKV (str ":authority") (u_Host (wp_url p))) ;;;
  with_enc (encKV (str ":path") (u_RequestURI (wp_url p))) ;;;
  with_enc (encodeHeaders (wp_h p) None) ;;;
  let* headerBlock := buf_bytes in
  if bool_decide (headerBlock = []) then st_lift (Panic "unexpected empty hpack")
  else splitHeaderBlock headerBlock (push_header_block p).

Definition write_100_continue (streamID : Z) : M unit :=
  reset_buf ;;;
  with_enc (encKV (str ":status") (str "100")) ;;;
  let* b := buf_bytes in
  with_framer (WriteHeaders (mkHeadersFrameParam streamID b false true 0 zeroPriority)).

(** [writeGoAway.writeFrame]: the error of [Flush] is dropped. *)
Definition write_go_away (maxStreamID code : Z) : M unit := fun c =>
  match with_framer (WriteGoAway maxStreamID code []) c with
  | (Ok _, c) => (Ok tt, (Flush c).2)
  | (Err e, c) => (Err e, (Flush c).2)
  | (Panic m, c) => (Panic m, c)
  | (NoFuel, c) => (NoFuel, c)
  end.

Definition writeFrame (f : writeFramer) : M unit :=
  match f with
  | flushFrameWriter => Flush
  | Wsettings s => with_framer (WriteSettings s)
  | WgoAway maxStreamID code => write_go_away maxStreamID code
  | Wdata streamID p endStream => with_framer (WriteData streamID endStream p)
  | handlerPanicRST StreamID => with_framer (WriteRSTStream StreamID ErrCodeInternal)
  | WstreamError StreamID Code => with_framer (WriteRSTStream StreamID Code)
  | WpingAck pf => with_framer (WritePing true (ping_Data pf))
  | WsettingsAck => with_framer WriteSettingsAck
  | WresHeaders h => write_response h
  | WpushPromise p => write_push_promise p
  | W100Continue streamID => write_100_continue streamID
  | WwindowUpdate streamID n => with_framer (WriteWindowUpdate streamID n)
  end.

Definition staysWithinBuffer (f : writeFramer) (max : Z) : bool :=
  let frameHeaderLen := Z.of_nat frameHeaderLen in
  match f with
  | flushFrameWriter => false
  | Wsettings s => let settingSize := 6 in frameHeaderLen + settingSize * len s <=? max
  | WgoAway _ _ => false
  | Wdata _ p _ => frameHeaderLen + len p <=? max
  | handlerPanicRST _ | WstreamError _ _ | WwindowUpdate _ _ => frameHeaderLen + 4 <=? max
  | WpingAck pf => frameHeaderLen + len (ping_Data pf) <=? max
  | WsettingsAck => frameHeaderLen <=? max
  | WresHeaders _ | WpushPromise _ => false
  | W100Continue _ => 9 + 2 * (len (str ":status") + len (str "100")) <=? max
  end.
End Writers.
Arguments wctx R W : clear implicits.
