(* ===== verification/WriteProps.v ===== *)
(** * Properties of the frame writers

    Header keys are sorted whatever order the map is visited in; only valid
    fields are encoded; header blocks are cut into frames that carry exactly
    the block; and a writer that promises to stay within the buffer does. *)
From S2P Require Import Prelude Hpack Varint Huffman HuffmanSpec Tables Io HpackEncode HpackDecode HpackSync.
From S2P Require Import Httpguts Textproto Http2Types Frame Framer FrameWire WriteFrames.
From stdpp Require Import sorting.

Local Open Scope Z_scope.
Local Open Scope go_scope.

(** ** The order on strings *)

Lemma str_le_nil b : str_le [] b.
Proof. by destruct b. Qed.

Lemma str_le_cons x a y b : str_le (x :: a) (y :: b) <-> x < y \/ (x = y /\ str_le a b).
Proof.
  unfold str_le. simpl. destruct (Z.ltb_spec y x), (Z.eqb_spec y x); simpl.
  all: split; [intros ?|intros [?|[? ?]]]; try done; try lia; auto; left; lia.
Qed.

#[export] Instance str_le_trans : Transitive str_le.
Proof.
  intros a. induction a as [|x a IH]; intros [|y b] [|z c]; try done; try (intros; apply str_le_nil).
  rewrite !str_le_cons. intros [?|[-> H1]] [?|[-> H2]]; auto; [left; lia|right; eauto].
Qed.

#[export] Instance str_le_antisymm : AntiSymm (=) str_le.
Proof.
  intros a. induction a as [|x a IH]; intros [|y b]; try done.
  rewrite !str_le_cons. intros [?|[-> H1]] [?|[? H2]]; try lia. f_equal. by apply IH.
Qed.

#[export] Instance str_le_total : Total str_le.
Proof.
  intros a. induction a as [|x a IH]; intros b; [left; apply str_le_nil|].
  destruct b as [|y b]; [right; apply str_le_nil|]. rewrite !str_le_cons.
  destruct (Z.lt_total x y) as [?|[->|?]]; auto. destruct (IH b); auto.
Qed.

Lemma Keys_perm l l' : l ≡ₚ l' -> Keys l = Keys l'.
Proof.
  intros Hp. apply (Sorted_unique str_le); [apply Sorted_merge_sort, _..|].
  unfold Keys, sort_strings. by rewrite !merge_sort_Permutation.
Qed.

Lemma Keys_in l k : k ∈ Keys l <-> k ∈ l.
Proof. unfold Keys, sort_strings. by rewrite merge_sort_Permutation. Qed.

(** The keys of a header are sorted in Go's string order and are the same
    list whatever order the map is visited in: encoding a header is
    deterministic. *)
Theorem Keys_order m order :
  order ≡ₚ (map_to_list m).*1 ->
  Keys order = Keys (header_keys (Some m)) /\ Sorted str_le (Keys order) /\
  NoDup (Keys order) /\ forall k, k ∈ Keys order <-> is_Some (m !! k).
Proof.
  intros Hp. split; [by apply Keys_perm|]. split; [apply Sorted_merge_sort, _|].
  assert (Keys order ≡ₚ (map_to_list m).*1) as Hk.
  { unfold Keys, sort_strings. by rewrite merge_sort_Permutation. }
  split; [rewrite Hk; apply NoDup_fst_map_to_list|].
  intros k. rewrite Hk, list_elem_of_fmap. split.
  - intros ([k' v] & -> & Hin). exists v. by apply elem_of_map_to_list.
  - intros [v Hv]. exists (k, v). split; [done|]. by apply elem_of_map_to_list.
Qed.

Lemma Keys_order_witness :
  let m : gmap bytes (list bytes) := {[str "B" := [str "1"]; str "A" := []]} in
  Keys [str "B"; str "A"] = [str "A"; str "B"] /\
  Keys [str "B"; str "A"] = Keys (header_keys (Some m)).
Proof.
  intros m. split; [vm_compute; reflexivity|].
  refine (proj1 (Keys_order m [str "B"; str "A"] _)).
  assert ((map_to_list m).*1 = [str "A"; str "B"] \/ (map_to_list m).*1 = [str "B"; str "A"]) as [-> | ->]
    by (vm_compute; auto); [apply perm_swap|done].
Defined.

(** ** Cutting a header block *)

Section Split.
Context {R W E : Type} {RD : Reader R E} {WR : Writer W E}.
Notation M := (stateful (wctx R W) (http2_error E)).

(** The calls [splitHeaderBlock] makes for the fragments [frags]. *)
Fixpoint run_fragments (first : bool) (frags : list bytes) (fn : bytes -> bool -> bool -> M unit) :
    M unit :=
  match frags with
  | [] => st_ret tt
  | f :: fs => fn f first (bool_decide (fs = [])) ;;; run_fragments false fs fn
  end.

(** The fragments: all of the full size but the last. *)
Definition fragments_of (b : bytes) (frags : list bytes) : Prop :=
  concat frags = b /\
  Forall (fun f => (0 < length f <= splitMaxFrameSize)%nat) frags /\
  Forall (fun f => length f = splitMaxFrameSize) (removelast frags).

Lemma splitMaxFrameSize_val : splitMaxFrameSize = Z.to_nat 16384.
Proof. done. Qed.
#[local] Opaque splitMaxFrameSize.

Lemma splitMaxFrameSize_pos : (0 < splitMaxFrameSize)%nat.
Proof. rewrite splitMaxFrameSize_val. lia. Qed.

Lemma split_loop_fragments fuel b first fn :
  (length b <= fuel)%nat ->
  exists frags, fragments_of b frags /\
    forall c, split_loop fuel b first fn c = run_fragments first frags fn c.
Proof.
  pose proof splitMaxFrameSize_pos as Hpos.
  revert b first. induction fuel as [|fuel IH]; intros b first Hlen.
  - destruct b; [|simpl in Hlen; lia]. exists []. by repeat split.
  - destruct b as [|x b]; [exists []; by repeat split|]. cbn [split_loop].
    set (l := x :: b) in *. set (frag := take splitMaxFrameSize l).
    assert (0 < length frag <= splitMaxFrameSize)%nat as Hfrag.
    { unfold frag. rewrite length_take. unfold l. simpl length. lia. }
    set (rest := drop (length frag) l).
    assert (frag ++ rest = l) as Happ.
    { unfold rest, frag. rewrite length_take.
      destruct (Nat.le_ge_cases splitMaxFrameSize (length l)).
      - rewrite Nat.min_l by done. apply take_drop.
      - rewrite Nat.min_r, drop_all, app_nil_r by done. by apply take_ge. }
    assert (length l = (length frag + length rest)%nat) as Hll by (by rewrite <- length_app, Happ).
    destruct (IH rest false ltac:(lia)) as (frags & (Hc & Hf & Hl) & Hrun).
    exists (frag :: frags). split; [split; [|split]|].
    + simpl. by rewrite Hc.
    + by constructor.
    + destruct frags as [|f fs]; [done|]. constructor; [|done].
      destruct (decide (length l <= splitMaxFrameSize)%nat) as [Hs|Hs].
      * exfalso. assert (frag = l) as Hfl by (by apply take_ge). rewrite Hfl in Hll.
        assert (rest = []) as Hr by (apply length_zero_iff_nil; lia). rewrite Hr in Hc.
        apply Forall_cons_iff in Hf as [Hf _]. simpl in Hc. apply app_eq_nil in Hc as [-> _].
        simpl in Hf. lia.
      * unfold frag. rewrite length_take. lia.
    + intros c. cbn [run_fragments]. unfold st_bind.
      assert (bool_decide (rest = []) = bool_decide (frags = [])) as ->.
      { apply bool_decide_ext. rewrite <- Hc. split; [|by intros ->].
        destruct frags as [|f fs]; [done|]. apply Forall_cons_iff in Hf as [Hf _].
        intros [-> _]%app_eq_nil. simpl in Hf. lia. }
      destruct (fn frag first _ c) as [[[]|e|m|] c1]; [apply Hrun|done..].
Qed.

(** The fragments of a block are unique. *)
Lemma fragments_unique b fs gs : fragments_of b fs -> fragments_of b gs -> fs = gs.
Proof.
  pose proof splitMaxFrameSize_pos as Hpos.
  revert b gs. induction fs as [|f fs IH]; intros b [|g gs] (Hc & Hf & Hl) (Hc' & Hf' & Hl');
    [done|..]; simpl in Hc, Hc'.
  - subst b. apply Forall_cons_iff in Hf' as [Hf' _]. apply app_eq_nil in Hc' as [-> _].
    simpl in Hf'. lia.
  - subst b. apply Forall_cons_iff in Hf as [Hf _]. symmetry in Hc'. apply app_eq_nil in Hc' as [-> _].
    simpl in Hf. lia.
  - apply Forall_cons_iff in Hf as [Hf Hfs], Hf' as [Hg Hgs].
    assert (length f = length g) as Hfg.
    { assert (forall (f g : bytes) fs gs, (0 < length g <= splitMaxFrameSize)%nat ->
        Forall (fun f => length f = splitMaxFrameSize) (removelast (f :: fs)) ->
        f ++ concat fs = g ++ concat gs -> (length f <= splitMaxFrameSize)%nat ->
        (length g <= length f)%nat) as Hle.
      { clear. intros f g fs gs Hg Hl Heq Hf. destruct fs as [|f' fs].
        - apply (f_equal length) in Heq. simpl in Heq. rewrite app_nil_r, length_app in Heq. lia.
        - apply Forall_cons_iff in Hl as [-> _]. lia. }
      rewrite <- Hc' in Hc.
      apply Nat.le_antisymm; [apply (Hle g f gs fs)|apply (Hle f g fs gs)]; done || lia. }
    rewrite <- Hc' in Hc. apply app_inj_1 in Hc as [-> Hrest]; [|done]. f_equal.
    apply (IH (concat gs)).
    + split; [done|]. split; [done|]. destruct fs; [done|]. by apply Forall_cons_iff in Hl as [_ ?].
    + split; [done|]. split; [done|]. destruct gs; [done|]. by apply Forall_cons_iff in Hl' as [_ ?].
Qed.

(** [splitHeaderBlock] calls [fn] once per fragment, in order: the
    fragments make up exactly the block, none is empty, all but the last have
    the maximal size of 16384 bytes, the first call is flagged first and the
    last one last; an empty block makes no call; an error stops it. *)
Lemma splitHeaderBlock_fragments b :
  exists frags, fragments_of b frags /\
    forall (fn : bytes -> bool -> bool -> M unit) c,
      splitHeaderBlock b fn c = run_fragments true frags fn c.
Proof.
  destruct (split_loop_fragments (length b) b true (fun _ _ _ => st_ret tt) (Nat.le_refl _))
    as (frags & Hf & _).
  exists frags. split; [done|]. intros fn c.
  destruct (split_loop_fragments (length b) b true fn (Nat.le_refl _)) as (frags' & Hf' & Hrun).
  unfold splitHeaderBlock. rewrite Hrun. by rewrite (fragments_unique b frags frags').
Qed.
End Split.

(** ** Encoded headers *)

(** A field [encodeHeaders] may send: a lower-case token, a value without
    control bytes, and no transfer coding but "trailers". *)
Definition sendable (f : HeaderField) : Prop :=
  validWireHeaderFieldName (Name f) = true /\ ValidHeaderFieldValue (Value f) = true /\
  Sensitive f = false /\ (Name f = str "transfer-encoding" -> Value f = str "trailers").

Definition value_sent (k v : bytes) : bool :=
  ValidHeaderFieldValue v &&
  (negb (bool_decide (k = str "transfer-encoding")) || bool_decide (v = str "trailers")).

(** The fields of one key and of a list of keys. *)
Definition key_fields (h : MIMEHeader) (k : bytes) : list HeaderField :=
  let (lk, ascii) := asciiToLower k in
  if ascii && validWireHeaderFieldName lk
  then map (fun v => mkHeaderField lk v false) (filter (fun v => value_sent lk v) (header_at h k))
  else [].

Definition header_fields (h : MIMEHeader) (ks : list bytes) : list HeaderField :=
  flat_map (key_fields h) ks.

Fixpoint encode_fields (fs : list HeaderField) : EM unit :=
  match fs with
  | [] => st_ret tt
  | f :: fs => encKV (Name f) (Value f) ;;; encode_fields fs
  end.

Lemma encode_fields_app fs gs e :
  encode_fields (fs ++ gs) e = (encode_fields fs ;;; encode_fields gs) e.
Proof.
  revert e. induction fs as [|f fs IH]; intros e; [done|]. cbn [app encode_fields]. unfold st_bind.
  destruct (encKV _ _ e) as [[[]|x|m|] e1]; [apply IH|done..].
Qed.

Lemma encode_values_fields k vv e :
  encode_values k (bool_decide (k = str "transfer-encoding")) vv e =
  encode_fields (map (fun v => mkHeaderField k v false) (filter (fun v => value_sent k v) vv)) e.
Proof.
  revert e. induction vv as [|v vv IH]; intros e; [done|]. cbn [encode_values]. rewrite filter_cons.
  destruct (decide (value_sent k v)) as [Hv|Hv].
  all: try apply Is_true_true in Hv; try apply Is_true_false in Hv.
  all: unfold value_sent in Hv; unfold st_bind.
  all: destruct (ValidHeaderFieldValue v); cbn [negb andb] in *; try done; try apply IH.
  all: destruct (bool_decide (k = _)); cbn [negb andb orb] in *; try done.
  all: try (destruct (bool_decide (v = _)); cbn [negb] in *; try done; try apply IH).
  all: cbn [map encode_fields Name Value]; unfold st_bind.
  all: destruct (encKV k v e) as [[[]|x|m|] e1]; [apply IH|done..].
Qed.

Lemma encode_keys_fields h ks e : encode_keys h ks e = encode_fields (header_fields h ks) e.
Proof.
  revert e. induction ks as [|k ks IH]; intros e; [done|].
  cbn [encode_keys header_fields flat_map]. rewrite encode_fields_app. unfold st_bind at 1 2.
  unfold key_fields. rewrite (proj1 (header_caches_eq k)).
  destruct (asciiToLower k) as [lk []]; cbn [negb andb]; [|apply IH].
  destruct (validWireHeaderFieldName lk); cbn [negb]; [|apply IH].
  rewrite encode_values_fields.
  destruct (encode_fields _ e) as [[[]|x|m|] e1]; [apply IH|done..].
Qed.

(** [encKV] is [WriteField] on the encoder's buffer, which never fails. *)
Lemma encode_fields_WriteFields fs e e' :
  Forall (fun f => Sensitive f = false) fs ->
  WriteFields fs e = (Ok tt, e') -> encode_fields fs e = (Ok tt, e').
Proof.
  intros Hs. revert e. induction Hs as [|f fs Hf _ IH]; intros e H.
  - by injection H as ->.
  - cbn [WriteFields encode_fields] in *. unfold st_bind, encKV in *.
    assert (mkHeaderField (Name f) (Value f) false = f) as -> by (destruct f; simpl in *; congruence).
    destruct (WriteField f e) as [[[]|x|m|] e1]; [by apply IH|done..].
Qed.

Lemma key_fields_in h k f :
  f ∈ key_fields h k <->
  isASCIIPrint k = true /\ validWireHeaderFieldName (ascii_lower k) = true /\
  exists v, v ∈ header_at h k /\ value_sent (ascii_lower k) v = true /\
    f = mkHeaderField (ascii_lower k) v false.
Proof.
  unfold key_fields, asciiToLower. destruct (isASCIIPrint k); simpl.
  2: { split; [by intros ?%not_elem_of_nil|by intros (? & _)]. }
  destruct (validWireHeaderFieldName _); simpl.
  2: { split; [by intros ?%not_elem_of_nil|by intros (_ & ? & _)]. }
  rewrite list_elem_of_fmap. setoid_rewrite list_elem_of_filter. rewrite <- Is_true_true.
  split.
  - intros (v & -> & Hv & Hin). split; [done|]. split; [done|]. exists v.
    split; [done|]. split; [by apply Is_true_true|done].
  - intros (_ & _ & v & Hin & Hv & ->). exists v. split; [done|]. split; [by apply Is_true_true|done].
Qed.

Lemma header_fields_sendable h ks : Forall sendable (header_fields h ks).
Proof.
  apply Forall_forall. intros f Hin. apply list_elem_of_In, in_flat_map in Hin as (k & Hk & Hf).
  apply list_elem_of_In in Hf.
  apply key_fields_in in Hf as (_ & Hw & v & _ & Hv & ->). unfold sendable. simpl.
  unfold value_sent in Hv. apply andb_true_iff in Hv as [Hv Hte]. split_and!; try done.
  intros Heq. rewrite bool_decide_true in Hte by done. simpl in Hte. by apply bool_decide_eq_true in Hte.
Qed.

(** [encodeHeaders] hands the HPACK encoder exactly the fields that may be
    sent, in the order of the keys and of each key's values: every one is
    sendable, and no sendable value is left out; with nil [keys] all keys of
    the header are taken, sorted. *)
Theorem encodeHeaders_sendable h keys :
  let ks := match keys with None => Keys (header_keys h) | Some ks => ks end in
  let fs := header_fields h ks in
  (forall e e', WriteFields fs e = (Ok tt, e') -> encodeHeaders h keys e = (Ok tt, e')) /\
  Forall sendable fs /\
  forall f, f ∈ fs <-> exists k v, k ∈ ks /\ v ∈ header_at h k /\ isASCIIPrint k = true /\
    f = mkHeaderField (ascii_lower k) v false /\ sendable f.
Proof.
  intros ks fs. split_and!.
  - intros e e' H. unfold encodeHeaders. rewrite encode_keys_fields.
    apply encode_fields_WriteFields; [|done].
    eapply Forall_impl; [apply header_fields_sendable|]. by intros f (_ & _ & ? & _).
  - apply header_fields_sendable.
  - intros f. unfold fs, header_fields. rewrite list_elem_of_In, in_flat_map. split.
    + intros (k & Hk & Hf). apply list_elem_of_In in Hf.
      assert (sendable f) as Hs.
      { pose proof (header_fields_sendable h [k]) as Hall. rewrite Forall_forall in Hall.
        apply Hall. simpl. by rewrite app_nil_r. }
      apply key_fields_in in Hf as (Ha & _ & v & Hv & _ & ->). exists k, v.
      by rewrite list_elem_of_In.
    + intros (k & v & Hk & Hv & Ha & -> & Hw & Hval & _ & Hte). exists k.
      rewrite <- !list_elem_of_In. split; [done|]. apply key_fields_in. simpl in *.
      split; [done|]. split; [done|]. exists v. split; [done|]. split; [|done].
      unfold value_sent. rewrite Hval. simpl. apply orb_true_iff.
      destruct (decide (ascii_lower k = str "transfer-encoding")) as [He|He].
      * right. by apply bool_decide_eq_true, Hte.
      * left. by rewrite bool_decide_false.
Qed.

(** ** Staying within the buffer *)

Section Stays.
Context {R W E : Type} {WR : Writer W E} {FL : Flusher W E}.
Notation F := (Framer R W).

(** At most one [Write] of at most [n] bytes, and no [Flush]. *)
Definition one_write (n : Z) (x x' : W) : Prop :=
  x' = x \/ exists b, len b <= n /\ x' = (WriteTo x b).2.

Definition one_writes (n : Z) (m : stateful F (http2_error E) unit) : Prop :=
  forall f : F, one_write n (Framer.w f) (Framer.w (m f).2).

Lemma endWrite_one n (f : F) :
  3 <= len (wbuf f) <= n -> one_write n (Framer.w f) (Framer.w (endWrite (E:=E) f).2).
Proof.
  intros Hl. unfold endWrite. destruct (_ <=? _); [by left|].
  set (b := _ ++ drop 3 (wbuf f)).
  assert (len b = len (wbuf f)) as Hb.
  { unfold b. rewrite len_app. unfold len in *. rewrite length_drop. simpl length. lia. }
  right. exists b. split; [lia|]. destruct (WriteTo (w f) b) as [[k [err|]] w']; [done|].
  by destruct (negb _).
Qed.

(** A method that starts a frame, appends [v] and ends it. *)
Lemma frame_one n t fl sid (body : stateful F (http2_error E) unit) k :
  (forall f, exists v, len v = k /\ body f = (Ok tt, set_wbuf f (wbuf f ++ v))) ->
  9 + k <= n -> 0 <= k -> one_writes n (startWrite t fl sid ;;; body ;;; endWrite).
Proof.
  intros Hbody Hn Hk f. unfold st_bind, startWrite. set (h := [0; _; _; _; _; _; _; _; _]).
  destruct (Hbody (set_wbuf f h)) as (v & Hv & ->).
  apply (endWrite_one n (set_wbuf f (h ++ v))). cbn [set_wbuf wbuf]. rewrite len_app, Hv.
  change (len h) with 9. lia.
Qed.

Lemma guarded_one n bad err m : one_writes n m -> one_writes n (unless_allowed bad err ;;; m).
Proof.
  intros Hm f. unfold st_bind, unless_allowed. destruct (_ && _); [by left|apply Hm].
Qed.

Lemma append_body (v : bytes) :
  forall f : F, exists u, len u = len v /\
    (writeBytes v : stateful F (http2_error E) unit) f = (Ok tt, set_wbuf f (wbuf f ++ u)).
Proof. intros f. by exists v. Qed.

Lemma settings_body l :
  forall f : F, exists u, len u = 6 * len l /\
    (writeSettings l : stateful F (http2_error E) unit) f = (Ok tt, set_wbuf f (wbuf f ++ u)).
Proof.
  induction l as [|s l IH]; intros f.
  - exists []. rewrite app_nil_r. by destruct f.
  - cbn [writeSettings]. unfold st_bind, writeUint16, writeUint32, writeBytes.
    cbn [set_wbuf wbuf]. rewrite set_wbuf_twice.
    set (a := [_; _]). set (b := [_; _; _; _]).
    destruct (IH (set_wbuf f ((wbuf f ++ a) ++ b))) as (u & Hu & ->). cbn [set_wbuf wbuf].
    exists (a ++ b ++ u). rewrite <- !app_assoc. split; [|done].
    rewrite !len_app, Hu, len_cons. change (len a) with 2. change (len b) with 4. lia.
Qed.

Lemma one_writes_ext n (m m' : stateful F (http2_error E) unit) :
  (forall f, m f = m' f) -> one_writes n m -> one_writes n m'.
Proof. intros Heq Hm f. rewrite <- Heq. apply Hm. Qed.
End Stays.

(** *** The informational response

    Its size depends on the encoder: pending table size updates precede the
    field. *)

Lemma appendTableSize_len dst v : 0 <= v < 2 ^ 32 -> len (appendTableSize dst v) <= len dst + 6.
Proof.
  intros Hv. unfold appendTableSize. rewrite flagged_varint_nil, len_app, or_at_len by lia.
  pose proof (appendVarInt_len 5 5 v ltac:(lia) ltac:(lia) ltac:(simpl; lia)). lia.
Qed.

(** The ranges of the encoder's [uint32] fields, and the number of entries. *)
Record enc_ok (e : Encoder bytes) : Prop := {
  eo_min : 0 <= minSize e < 2 ^ 32;
  eo_max : 0 <= maxSize (HpackEncode.dynTab e) < 2 ^ 32;
  eo_wf : table_wf (table (HpackEncode.dynTab e));
  eo_few : len (dyn_ents e) < 2 ^ 32;
}.

Lemma flushTableSize_len e :
  enc_ok e -> len (HpackEncode.buf (flushTableSize (with_buf e []))) <= 12 /\
    HpackEncode.dynTab (flushTableSize (with_buf e [])) = HpackEncode.dynTab e /\
    HpackEncode.w (flushTableSize (with_buf e [])) = HpackEncode.w e.
Proof.
  intros [Hmin Hmax _ _]. unfold flushTableSize, with_buf. simpl.
  destruct (tableSizeUpdate e); simpl; [|split_and!; [unfold len; simpl; lia|done..]].
  split_and!; [|done..]. destruct (_ <? _).
  - pose proof (appendTableSize_len [] (minSize e) Hmin).
    pose proof (appendTableSize_len (appendTableSize [] (minSize e)) _ Hmax).
    unfold len in *. simpl length in *. lia.
  - pose proof (appendTableSize_len [] _ Hmax). unfold len in *. simpl length in *. lia.
Qed.

Definition status_100 : HeaderField := mkHeaderField (str ":status") (str "100") false.

Lemma status_100_static : search true staticTable status_100 = Ok (14, false).
Proof. vm_compute. reflexivity. Qed.
Lemma status_100_ok : field_ok status_100.
Proof. apply field_ok_check. vm_compute. reflexivity. Qed.
Lemma status_100_value : len (appendHpackString [] (Value status_100)) = 3.
Proof. vm_compute. reflexivity. Qed.

Lemma status_100_repr (e : Encoder bytes) :
  table_wf (table (HpackEncode.dynTab e)) -> len (dyn_ents e) < 2 ^ 32 ->
  exists t b, encodeField e status_100 =
    Ok (with_buf (with_dynTab e t) (HpackEncode.buf e ++ b)) /\ len b <= 6.
Proof.
  intros Hwf Hfew. destruct (searchTable_facts e status_100 Hwf) as (i & m & Hs & Hi & _ & _ & Hg).
  exists (sent_table e status_100 m), (repr status_100 i m (shouldIndex e status_100)).
  split; [apply encodeField_repr; [apply status_100_ok|lia|done]|].
  assert (m = false -> i = 14) as H14.
  { intros ->. unfold searchTable in Hs. rewrite status_100_static in Hs. simpl in Hs.
    destruct (search false _ _) as [[j m']|e1|s|]; try done. simpl in Hs.
    rewrite orb_false_r in Hs. by destruct m'; injection Hs. }
  unfold repr, repr_payload, prefix_of. destruct m.
  - rewrite len_app, or_at_len. change (len (@nil Z)) with 0.
    assert (i < 2 ^ 35) as Hsmall.
    { destruct (Z.eq_dec i 0) as [->|Hne]; [lia|]. destruct (Hg Hne) as (g & Hent & _).
      apply entry_at_table in Hent. lia. }
    pose proof (appendVarInt_len 7 5 i ltac:(lia) ltac:(lia) ltac:(simpl; lia)). lia.
  - rewrite H14 by done. simpl Z.eqb. cbv iota. rewrite app_nil_l, len_app, or_at_len, status_100_value.
    assert (1 <= (if shouldIndex e status_100 then 6 else 4) <= 8) as Hn by (destruct (shouldIndex _ _); lia).
    pose proof (appendVarInt_len _ 1 14 Hn ltac:(lia) ltac:(simpl; lia)). lia.
Qed.

Section Bound.
Context {R W E : Type} {RD : Reader R E} {WR : Writer W E} {FL : Flusher W E} {ED : EqDecision E}.
Notation F := (Framer R W).
Notation M := (stateful (wctx R W) (http2_error E)).

Lemma headers_one n (p : HeadersFrameParam) :
  hp_PadLength p = 0 -> hp_Priority p = zeroPriority -> 9 + len (hp_BlockFragment p) <= n ->
  one_writes n (WriteHeaders p : stateful F (http2_error E) unit).
Proof.
  intros Hp Hz Hn. unfold WriteHeaders. apply guarded_one. rewrite Hp, Hz. simpl negb. simpl Z.to_nat.
  eapply one_writes_ext.
  2: { apply (frame_one n FrameHeaders (Z.lor (Z.lor (Z.lor 0 (flag_if (hp_EndStream p) FlagHeadersEndStream))
         (flag_if (hp_EndHeaders p) FlagHeadersEndHeaders)) 0) (hp_StreamID p) _ _
         (append_body (hp_BlockFragment p))); [done|apply len_nonneg]. }
  intros f. unfold st_bind, startWrite, writeBytes, st_ret. cbn [set_wbuf wbuf].
  rewrite take_0, app_nil_r. done.
Qed.

Lemma continue_one sid (c : wctx R W) n :
  enc_ok (cx_enc c) -> 29 <= n ->
  one_write n (Framer.w (cx_framer c))
    (Framer.w (cx_framer (write_100_continue sid c : _ * wctx R W).2)).
Proof.
  intros Hok Hn. unfold write_100_continue. unfold st_bind at 1, reset_buf.
  set (e := mkEncoder _ _ _ _ _ _).
  assert (enc_ok e) as Hoe by (destruct Hok; by split).
  destruct (flushTableSize_len e Hoe) as (Hlen & Hdt & Hw).
  set (e1 := flushTableSize (with_buf e [])) in *.
  destruct (status_100_repr e1) as (t & b & Hrepr & Hb).
  { rewrite Hdt. apply Hoe. }
  { unfold dyn_ents. rewrite Hdt. apply Hoe. }
  set (block := HpackEncode.buf e1 ++ b).
  assert (len block <= 18) as Hblock by (unfold block; rewrite len_app; lia).
  assert (exists e2, encKV (str ":status") (str "100") e = (Ok tt, e2) /\ HpackEncode.w e2 = block)
    as (e2 & Henc & Hw2).
  { unfold encKV, WriteField. fold status_100. fold e1. rewrite Hrepr. cbn [with_buf with_dynTab].
    simpl. rewrite Z.eqb_refl. simpl. eexists. split; [done|]. by rewrite Hw. }
  unfold st_bind at 1, with_enc at 1. cbn [cx_enc cx_framer]. rewrite Henc. cbn [cx_framer].
  unfold st_bind, buf_bytes. cbn [cx_enc]. rewrite Hw2. unfold with_framer. cbn [cx_framer].
  pose proof (headers_one n (mkHeadersFrameParam sid block false true 0 zeroPriority)
    eq_refl eq_refl ltac:(simpl; lia) (cx_framer c)) as H1.
  destruct (WriteHeaders _ (cx_framer c)) as [r f']. exact H1.
Qed.

(** A frame writer that reports [staysWithinBuffer max] calls the
    connection's [Write] at most once, with at most [max] bytes, and never
    flushes: buffered output is not cut.  For the 100-continue response the
    estimate covers two pending table size updates and a newly indexed
    field. *)
Theorem staysWithinBuffer_bound (f : writeFramer) (max : Z) (c : wctx R W) :
  enc_ok (cx_enc c) -> staysWithinBuffer f max = true ->
  one_write max (Framer.w (cx_framer c)) (Framer.w (cx_framer (writeFrame f c : _ * wctx R W).2)).
Proof.
  intros Hok Hs.
  assert (forall m : stateful F (http2_error E) unit, one_writes max m ->
    one_write max (Framer.w (cx_framer c)) (Framer.w (cx_framer (with_framer m c).2))) as Hf.
  { intros m Hm. unfold with_framer. specialize (Hm (cx_framer c)). by destruct (m (cx_framer c)). }
  assert (forall v n, 9 + len v <= n -> n <= max -> forall t fl sid,
    one_writes max (startWrite t fl sid ;;; writeBytes v ;;; endWrite : stateful F (http2_error E) unit))
    as Hbytes.
  { intros v n Hv Hn t fl sid. apply (frame_one max t fl sid _ _ (append_body v)); [lia|apply len_nonneg]. }
  destruct f as [|s|a code|sid p es|sid|sid code|pf| |h|p|sid|sid n]; unfold staysWithinBuffer in Hs; try done;
    apply Z.leb_le in Hs; change (Z.of_nat frameHeaderLen) with 9 in Hs; cbn [writeFrame].
  - apply Hf. apply (frame_one max _ _ _ _ _ (settings_body s)); pose proof (len_nonneg s); lia.
  - apply Hf. unfold WriteData, WriteDataPadded, startWriteDataPadded.
    eapply one_writes_ext; [|apply (guarded_one max (negb (validStreamID sid)) errStreamID),
      (Hbytes p max ltac:(lia) ltac:(lia) FrameData (Z.lor (flag_if es FlagDataEndStream) 0) sid)].
    intros fr. unfold st_bind, unless_allowed. destruct (_ && _); [done|].
    unfold startWrite, writeBytes, st_ret. cbn [set_wbuf wbuf]. by rewrite app_nil_r.
  - apply Hf, guarded_one, (Hbytes _ max); [|lia]. unfold len. simpl length. lia.
  - apply Hf, guarded_one, (Hbytes _ max); [|lia]. unfold len. simpl length. lia.
  - apply Hf, (Hbytes _ max); lia.
  - apply Hf. eapply one_writes_ext; [|apply (Hbytes [] max); [unfold len; simpl; lia|lia]].
    intros fr. unfold st_bind, startWrite, writeBytes. cbn [set_wbuf wbuf]. by rewrite app_nil_r.
  - by apply continue_one.
  - apply Hf, guarded_one, (Hbytes _ max); [|lia]. unfold len. simpl length. lia.
Qed.
End Bound.

Lemma staysWithinBuffer_bound_witness :
  let c : wctx stream bytes := mkCtx (NewFramer [] (mkStream [])) enc0 in
  let FL : Flusher bytes Empty_set := fun b => (None, b) in
  staysWithinBuffer (W100Continue 1) 29 = true /\
  one_write (E := Empty_set) 29 []
    (Framer.w (cx_framer (writeFrame (W100Continue 1) c : _ * wctx stream bytes).2)).
Proof.
  intros c FL. split; [reflexivity|].
  apply (staysWithinBuffer_bound (W100Continue 1) 29 c); [|reflexivity].
  split; [by simpl|by simpl|apply initTable_wf|by simpl].
Defined.
