(* ===== verification/MetaHeaders.v ===== *)
(** * Header blocks merged and decoded

    [MetaHeadersFrame], [readMetaFrame] and [ReadFrame] of
    [src/http2/http2/frame.go]: a HEADERS frame and its CONTINUATION frames are
    read, their fragments fed to the HPACK decoder, and the decoded fields
    checked.

    The callback that [readMetaFrame] installs captures [remainSize],
    [sawRegular], [invalid], [mh.Fields] and [mh.Truncated]: the record
    [emit_env].  Logging is left out. *)
From S2P Require Import Prelude Io Hpack HpackDecode Httpguts Http2Types Frame Framer.
From S2P Require Import Tables.

Local Open Scope Z_scope.
Local Open Scope go_scope.

Record MetaHeadersFrame : Type := mkMetaHeadersFrame {
  mh_HeadersFrame : HeadersFrame;
  Fields : list HeaderField;
  Truncated : bool;
}.

(** What [ReadFrame] returns. *)
Inductive AnyFrame : Type :=
  | PlainFrame (f : Frame)
  | MetaFrame (mh : MetaHeadersFrame).

(** ** Methods of [MetaHeadersFrame] *)

Fixpoint PseudoValue_loop (l : list HeaderField) (pseudo : bytes) : bytes :=
  match l with
  | [] => []
  | hf :: l =>
      if negb (IsPseudo hf) then []
      else if bool_decide (drop 1 (Name hf) = pseudo) then Value hf
      else PseudoValue_loop l pseudo
  end.
Definition PseudoValue (mh : MetaHeadersFrame) (pseudo : bytes) : bytes :=
  PseudoValue_loop (Fields mh) pseudo.

Fixpoint RegularFields_loop (l : list HeaderField) : list HeaderField :=
  match l with
  | [] => []
  | hf :: l' => if negb (IsPseudo hf) then l else RegularFields_loop l'
  end.
Definition RegularFields (mh : MetaHeadersFrame) : list HeaderField :=
  RegularFields_loop (Fields mh).

Fixpoint PseudoFields_loop (l : list HeaderField) : list HeaderField :=
  match l with
  | [] => []
  | hf :: l' => if negb (IsPseudo hf) then [] else hf :: PseudoFields_loop l'
  end.
Definition PseudoFields (mh : MetaHeadersFrame) : list HeaderField :=
  PseudoFields_loop (Fields mh).

Definition request_pseudos : list bytes :=
  [str ":method"; str ":path"; str ":scheme"; str ":authority"].
Definition response_pseudos : list bytes := [str ":status"].

(** The loop of [checkPseudos]; [seen] is [pf[:i]]. *)
Fixpoint checkPseudos_loop (seen pf : list HeaderField) (isRequest isResponse : bool) :
    option header_error :=
  match pf with
  | [] => if isRequest && isResponse then Some errMixPseudoHeaderTypes else None
  | hf :: pf =>
      let next isRequest isResponse :=
        if existsb (fun hf2 => bool_decide (Name hf = Name hf2)) seen
        then Some (duplicatePseudoHeaderError (Name hf))
        else checkPseudos_loop (seen ++ [hf]) pf isRequest isResponse in
      if bool_decide (Name hf ∈ request_pseudos) then next true isResponse
      else if bool_decide (Name hf ∈ response_pseudos) then next isRequest true
      else Some (pseudoHeaderError (Name hf))
  end.
Definition checkPseudos (mh : MetaHeadersFrame) : option header_error :=
  checkPseudos_loop [] (PseudoFields mh) false false.

(** ** The callback *)

Record emit_env : Type := mkEmitEnv {
  remainSize : Z; (* uint32 *)
  sawRegular : bool;
  invalid : option header_error;
  env_Fields : list HeaderField;
  env_Truncated : bool;
}.

(** [strings.HasPrefix(hf.Name, ":")] *)
Definition has_colon (name : bytes) : bool :=
  match name with c :: _ => c =? 58 | [] => false end.

Definition meta_emit (hf : HeaderField) (st : emit_env * bool) : emit_env * bool :=
  let (env, enabled) := st in
  let inv := if negb (ValidHeaderFieldValue (Value hf))
             then Some (headerFieldValueError (Name hf)) else invalid env in
  let isPseudo := has_colon (Name hf) in
  let '(inv, saw) :=
    if isPseudo then
      (if sawRegular env then Some errPseudoAfterRegular else inv, sawRegular env)
    else
      (if negb (validWireHeaderFieldName (Name hf))
       then Some (headerFieldNameError (Name hf)) else inv, true) in
  match inv with
  | Some e => (mkEmitEnv (remainSize env) saw (Some e) (env_Fields env) (env_Truncated env), false)
  | None =>
      let size := Size hf in
      if remainSize env <? size then
        (mkEmitEnv (remainSize env) saw None (env_Fields env) true, false)
      else
        (mkEmitEnv (u32 (remainSize env - size)) saw None (env_Fields env ++ [hf])
           (env_Truncated env), enabled)
  end.

(** ** [readMetaFrame] and [ReadFrame] *)

Section Meta.
Context {R W E : Type} {RD : Reader R E} {ED : EqDecision E}.
Notation M := (stateful (Framer R W) (http2_error E)).

(** [uint32(int(v)) == v] holds for every [v] when [int] has 64 bits. *)
Definition maxHeaderStringLength (fr : Framer R W) : Z := maxHeaderListSize fr.

Definition hdec_Write (d : Decoder) (env : emit_env) (frag : bytes) : M (Decoder * emit_env) :=
  fun fr =>
    match Write meta_emit frag (d, env) with
    | (Ok _, (d, env)) => (Ok (d, env), set_ReadMetaHeaders fr (Some d))
    | (Err _, (d, _)) =>
        (Err (ConnectionError ErrCodeCompression), set_ReadMetaHeaders fr (Some d))
    | (Panic s, (d, _)) => (Panic s, set_ReadMetaHeaders fr (Some d))
    | (NoFuel, (d, _)) => (NoFuel, set_ReadMetaHeaders fr (Some d))
    end.

(** A header-block fragment of a frame: [HeaderBlockFragment] checks that
    the frame is still valid. *)
Definition fragment_of (h : FrameHeader) (frag : bytes) : M bytes :=
  if negb (valid h) then st_lift (Panic "Frame accessor called on non-owned Frame")
  else st_ret frag.

(** The [for] loop: [h] and [frag] are the frame [hc], [read] reads the next
    frame. *)
Fixpoint meta_loop (n : nat) (read : M AnyFrame) (h : FrameHeader) (frag : bytes)
    (d : Decoder) (env : emit_env) : M (Decoder * emit_env) :=
  let* frag := fragment_of h frag in
  let* (d, env) := hdec_Write d env frag in
  if Has (Flags h) FlagHeadersEndHeaders then st_ret (d, env)
  else
    match n with
    | O => st_lift NoFuel
    | S n =>
        let* f := read in
        let* fr := st_get in
        match f, ReadMetaHeaders fr with
        | PlainFrame (FContinuation c), Some d =>
            meta_loop n read (cf_header c) (cf_headerFragBuf c) d env
        | _, _ => st_lift (Panic "interface conversion")
        end
    end.

Definition invalidate (hf : HeadersFrame) : HeadersFrame :=
  let h := hf_header hf in
  mkHeadersFrame (mkFrameHeader false (Type_ h) (Flags h) (Length h) (StreamID h))
    (Priority hf) [].

Definition header_failure (id : Z) (e : header_error) : M AnyFrame := fun fr =>
  (Err (StreamError id ErrCodeProtocol (Some e)), set_errDetail fr (Some (detail_header e))).

Definition readMetaFrame (n : nat) (read : M AnyFrame) (hdec : Decoder) (hf : HeadersFrame) :
    M AnyFrame :=
  let* fr := st_get in
  if AllowIllegalReads fr then
    st_err (TextError "illegal use of AllowIllegalReads with ReadMetaHeaders")
  else
    let env := mkEmitEnv (maxHeaderListSize fr) false None [] false in
    let hdec := SetMaxStringLength (SetEmitEnabled hdec true) (maxHeaderStringLength fr) in
    let* (hdec, env) := meta_loop n read (hf_header hf) (headerFragBuf hf) hdec env in
    let mh := mkMetaHeadersFrame (invalidate hf) (env_Fields env) (env_Truncated env) in
    match Close (hdec, tt) with
    | (Ok _, (hdec, _)) =>
        st_mod (fun fr => set_ReadMetaHeaders fr (Some hdec)) ;;;
        match invalid env with
        | Some e => header_failure (StreamID (hf_header hf)) e
        | None =>
            match checkPseudos mh with
            | Some e => header_failure (StreamID (hf_header hf)) e
            | None => st_ret (MetaFrame mh)
            end
        end
    | (Err _, (hdec, _)) =>
        st_mod (fun fr => set_ReadMetaHeaders fr (Some hdec)) ;;;
        st_err (ConnectionError ErrCodeCompression)
    | (Panic s, _) => st_lift (Panic s)
    | (NoFuel, _) => st_lift NoFuel
    end.

(** [fuel] bounds the nesting and the number of CONTINUATION frames of a
    block, [rf] the calls of [Read] for each buffer. *)
Fixpoint ReadFrame (fuel rf : nat) : M AnyFrame :=
  match fuel with
  | O => st_lift NoFuel
  | S fuel =>
      let* f := ReadFrame_plain rf in
      let* fr := st_get in
      match ReadMetaHeaders fr with
      | Some hdec =>
          if Type_ (Header f) =? FrameHeaders then
            match f with
            | FHeaders hf => readMetaFrame fuel (ReadFrame fuel rf) hdec hf
            | _ => st_lift (Panic "interface conversion")
            end
          else st_ret (PlainFrame f)
      | None => st_ret (PlainFrame f)
      end
  end.
End Meta.
