(* ===== verification/MetaProps.v ===== *)
(** * What a [MetaHeadersFrame] guarantees

    The documented guarantee of [MetaHeadersFrame.Fields]: fields in the right
    order, known pseudo headers only, valid names and values, total size
    within the limit. *)
From S2P Require Import Prelude Io Hpack Huffman Tables HpackDecode Httpguts Http2Types.
From S2P Require Import Frame Framer MetaHeaders.

Local Open Scope Z_scope.
Local Open Scope go_scope.

(** ** Invariants of the callback's variables

    Whatever the decoder reads, it changes the captured variables only by
    calling the callback: an invariant of the callback is one of [Write]. *)
Section Env.
Context {S : Type} (emit : HeaderField -> S * bool -> S * bool).
Context (P : S -> Prop) (Hemit : forall hf s en, P s -> P (emit hf (s, en)).1).

Definition keeps {A} (m : stateful (Decoder * S) error A) : Prop :=
  forall d s, P s -> P (m (d, s)).2.2.

Lemma keeps_bind {A B} (m : stateful _ error A) (k : A -> stateful _ error B) :
  keeps m -> (forall a, keeps (k a)) -> keeps (st_bind m k).
Proof.
  intros Hm Hk d s Hs. specialize (Hm d s Hs). unfold st_bind.
  destruct (m (d, s)) as [[a|e|x|] [d' s']]; simpl in *; try done. by apply Hk.
Qed.
Lemma keeps_lift {A} (r : res error A) : keeps (st_lift r).
Proof. by intros d s. Qed.
Lemma keeps_get : keeps (get_d (S := S)).
Proof. by intros d s. Qed.
Lemma keeps_mod f : keeps (mod_d (S := S) f).
Proof. by intros d s. Qed.
Lemma keeps_ret {A} (a : A) : keeps (st_ret a).
Proof. by intros d s. Qed.
Lemma keeps_err {A} e : keeps (st_err e : stateful _ error A).
Proof. by intros d s. Qed.
Lemma keeps_callEmit hf : keeps (callEmit emit hf).
Proof.
  intros d s Hs. unfold callEmit. destruct (_ && _); [done|].
  destruct (emitEnabled d); [|done]. specialize (Hemit hf s true Hs).
  by destruct (emit hf (s, true)).
Qed.
Lemma keeps_discard m : keeps m -> keeps (discard m).
Proof.
  intros Hm d s Hs. specialize (Hm d s Hs). unfold discard.
  by destruct (m (d, s)) as [[] [? ?]].
Qed.

Hint Resolve keeps_bind keeps_lift keeps_get keeps_mod keeps_ret keeps_err keeps_callEmit
  keeps_discard : keeps.
Ltac solve_keeps :=
  repeat first
    [ apply keeps_bind; intros | apply keeps_discard
    | progress auto with keeps
    | match goal with |- keeps (match ?x with _ => _ end) => destruct x end ].

Lemma keeps_parse : keeps (parseHeaderFieldRepr emit).
Proof.
  unfold parseHeaderFieldRepr. apply keeps_bind; [apply keeps_get|]. intros d0.
  destruct (buf d0) as [|b p]; [apply keeps_lift|].
  unfold parseFieldIndexed, parseFieldLiteral, parseDynamicTableSizeUpdate. solve_keeps.
Qed.

Lemma keeps_Write_loop fuel : keeps (Write_loop emit fuel).
Proof.
  induction fuel as [|fuel IH]; intros d s Hs; simpl; destruct (buf d); try done.
  pose proof (keeps_parse d s Hs) as Hp.
  destruct (parseHeaderFieldRepr emit (d, s)) as [[a|e|x|] [d' s']]; simpl in *; try done.
  - by apply IH.
  - destruct e; try done. by destruct (_ && _).
Qed.

Lemma keeps_Write p : keeps (Write emit p).
Proof.
  intros d s Hs. unfold Write. destruct p as [|b p]; [done|].
  set (d1 := match saveBuf d with [] => _ | _ => _ end).
  pose proof (keeps_Write_loop (length (buf d1)) d1 s Hs) as Hl.
  by destruct (Write_loop _ _ _) as [[] [? ?]].
Qed.
End Env.

(** ** The callback's invariant *)

Definition pseudo (hf : HeaderField) : Prop := IsPseudo hf = true.
Definition regular (hf : HeaderField) : Prop := IsPseudo hf = false.

(** Pseudo headers first. *)
Definition split_fields (l ps rs : list HeaderField) : Prop :=
  l = ps ++ rs /\ Forall pseudo ps /\ Forall regular rs.

Record meta_inv (limit : Z) (env : emit_env) : Prop := {
  inv_remain : 0 <= remainSize env /\ remainSize env + sizes (env_Fields env) = limit;
  inv_values : Forall (fun hf => ValidHeaderFieldValue (Value hf) = true) (env_Fields env);
  inv_names : Forall (fun hf => regular hf -> validWireHeaderFieldName (Name hf) = true)
                (env_Fields env);
  inv_order : exists ps rs, split_fields (env_Fields env) ps rs /\
                (sawRegular env = false -> rs = []);
}.

Lemma meta_emit_inv limit hf env en :
  limit < 2 ^ 32 -> meta_inv limit env -> meta_inv limit (meta_emit hf (env, en)).1.
Proof.
  intros Hlim [[Hr0 Hr] Hv Hn (ps & rs & (Hl & Hps & Hrs) & Hsaw)].
  unfold meta_emit. change (has_colon (Name hf)) with (IsPseudo hf).
  destruct (ValidHeaderFieldValue (Value hf)) eqn:Ev; simpl negb; cbv iota.
  2: { destruct (IsPseudo hf); [|destruct (validWireHeaderFieldName (Name hf))];
       try destruct (sawRegular env) eqn:Es; simpl; split; simpl; try done;
       exists ps, rs; (split; [by split_and!|done || auto]). }
  assert (forall inv saw, (saw = false -> rs = []) ->
    meta_inv limit (mkEmitEnv (remainSize env) saw inv (env_Fields env) (env_Truncated env)) /\
    meta_inv limit (mkEmitEnv (remainSize env) saw inv (env_Fields env) true)) as Hsame.
  { intros inv saw Hs. split; split; simpl; try done; exists ps, rs; by split_and!. }
  assert (forall saw ps' rs', split_fields (env_Fields env ++ [hf]) ps' rs' ->
    (saw = false -> rs' = []) -> (regular hf -> validWireHeaderFieldName (Name hf) = true) ->
    Size hf <= remainSize env ->
    meta_inv limit (mkEmitEnv (u32 (remainSize env - Size hf)) saw None
      (env_Fields env ++ [hf]) (env_Truncated env))) as Hadd.
  { intros saw ps' rs' Hsplit Hs Hname Hsize. pose proof (Size_range hf).
    pose proof (sizes_nonneg (env_Fields env)).
    split; simpl; [rewrite u32_small, sizes_app by lia; simpl; lia| | |by exists ps', rs'].
    - apply Forall_app. split; [done|by constructor].
    - apply Forall_app. split; [done|by constructor]. }
  destruct (IsPseudo hf) eqn:Ep.
  - destruct (sawRegular env) eqn:Es; simpl; [by apply Hsame|].
    destruct (invalid env); simpl; [by apply Hsame|].
    destruct (Z.ltb_spec (remainSize env) (Size hf)); simpl; [by apply Hsame|].
    apply (Hadd false (ps ++ [hf]) []); [|done|by unfold regular; rewrite Ep|lia].
    rewrite Hsaw, app_nil_r in Hl by done. rewrite Hl. split; [by rewrite app_nil_r|].
    split; [|constructor]. apply Forall_app. split; [done|by constructor].
  - destruct (validWireHeaderFieldName (Name hf)) eqn:En; simpl; [|by apply Hsame].
    destruct (invalid env); simpl; [by apply Hsame|].
    destruct (Z.ltb_spec (remainSize env) (Size hf)); simpl; [by apply Hsame|].
    apply (Hadd true ps (rs ++ [hf])); [|done|done|lia].
    rewrite Hl. split; [by rewrite app_assoc|]. split; [done|].
    apply Forall_app. split; [done|by constructor].
Qed.

(** ** [checkPseudos] *)

Definition is_request (hf : HeaderField) : Prop := Name hf ∈ request_pseudos.
Definition is_response (hf : HeaderField) : Prop := Name hf ∈ response_pseudos.

Lemma existsb_name (hf : HeaderField) seen :
  existsb (fun hf2 => bool_decide (Name hf = Name hf2)) seen = bool_decide (Name hf ∈ map Name seen).
Proof.
  induction seen as [|g seen IH]; simpl; [done|]. rewrite IH. apply eq_true_iff_eq.
  by rewrite orb_true_iff, !bool_decide_eq_true, elem_of_cons.
Qed.

Lemma checkPseudos_loop_None seen pf a b :
  NoDup (map Name seen) ->
  checkPseudos_loop seen pf a b = None ->
  NoDup (map Name (seen ++ pf)) /\
  Forall (fun hf => is_request hf \/ is_response hf) pf /\
  ~ ((a = true \/ Exists is_request pf) /\ (b = true \/ Exists is_response pf)).
Proof.
  revert seen a b. induction pf as [|hf pf IH]; intros seen a b Hseen; simpl.
  - rewrite app_nil_r. destruct (a && b) eqn:Eab; [done|]. intros _. split_and!; try done.
    intros [[->|H1%Exists_nil] [->|H2%Exists_nil]]; done.
  - rewrite existsb_name. 
    assert (forall a' b', checkPseudos_loop (seen ++ [hf]) pf a' b' = None ->
      Name hf ∉ map Name seen ->
      NoDup (map Name (seen ++ hf :: pf)) /\
      Forall (fun hf => is_request hf \/ is_response hf) pf /\
      ~ ((a' = true \/ Exists is_request pf) /\ (b' = true \/ Exists is_response pf))) as Hstep.
    { intros a' b' Hc Hnot. replace (seen ++ hf :: pf) with ((seen ++ [hf]) ++ pf)
        by (by rewrite <- app_assoc). apply IH; [|done].
      rewrite map_app. apply list.NoDup_app. split; [done|]. split; [intros x Hx Hx'; apply list_elem_of_singleton in Hx'; by subst|].
      simpl. by apply list.NoDup_singleton. }
    destruct (bool_decide (Name hf ∈ request_pseudos)) eqn:Eq;
      [|destruct (bool_decide (Name hf ∈ response_pseudos)) eqn:Er; [|done]];
      (destruct (bool_decide (Name hf ∈ map Name seen)) eqn:Ed; [done|]);
      apply bool_decide_eq_false in Ed; intros Hc; destruct (Hstep _ _ Hc Ed) as (Hnd & Hall & Hmix);
      (split; [done|]).
    + apply bool_decide_eq_true in Eq. split; [constructor; [by left|done]|].
      rewrite !List.Exists_cons. intros [_ [Hb|[Hr|Hr]]]; apply Hmix; (split; [by left|]); [by left| |by right].
      exfalso. unfold is_response in Hr. revert Eq Hr. unfold request_pseudos, response_pseudos.
      rewrite !elem_of_cons, elem_of_nil. intros Hq Hs.
      destruct Hs as [Hs|[]]. rewrite Hs in Hq. by destruct_or! Hq.
    + apply bool_decide_eq_true in Er. apply bool_decide_eq_false in Eq.
      split; [constructor; [by right|done]|].
      rewrite !List.Exists_cons. intros [[Ha|[Hr|Hr]] _]; apply Hmix; (split; [|by left]);
        [by left|done|by right].
Qed.

Lemma pseudo_regular_split l ps rs :
  split_fields l ps rs -> PseudoFields_loop l = ps /\ RegularFields_loop l = rs.
Proof.
  intros (-> & Hps & Hrs). induction Hps as [|hf ps Hhf Hps IH]; simpl.
  - destruct Hrs as [|hf rs Hhf Hrs]; [done|]. simpl. by rewrite Hhf.
  - rewrite Hhf. simpl. destruct IH as [-> ->]. done.
Qed.

(** ** The guarantee *)

Record meta_valid (limit : Z) (mh : MetaHeadersFrame) : Prop := {
  mv_order : split_fields (Fields mh) (PseudoFields mh) (RegularFields mh);
  mv_known : Forall (fun hf => is_request hf \/ is_response hf) (PseudoFields mh);
  mv_distinct : NoDup (map Name (PseudoFields mh));
  mv_one_kind : ~ (Exists is_request (PseudoFields mh) /\ Exists is_response (PseudoFields mh));
  mv_names : Forall (fun hf => validWireHeaderFieldName (Name hf) = true) (RegularFields mh);
  mv_values : Forall (fun hf => ValidHeaderFieldValue (Value hf) = true) (Fields mh);
  mv_size : sizes (Fields mh) <= limit;
}.

Lemma meta_valid_intro limit env hf :
  meta_inv limit env ->
  let mh := mkMetaHeadersFrame hf (env_Fields env) (env_Truncated env) in
  checkPseudos mh = None -> meta_valid limit mh.
Proof.
  intros [[Hr0 Hr] Hv Hn (ps & rs & Hsplit & _)] mh Hc.
  destruct (pseudo_regular_split _ _ _ Hsplit) as [Hp Hg].
  assert (PseudoFields mh = ps) as Hps by exact Hp.
  assert (RegularFields mh = rs) as Hrs by exact Hg.
  unfold checkPseudos in Hc. apply checkPseudos_loop_None in Hc as (H1 & H2 & H3);
    [|constructor].
  split; try done; rewrite ?Hps, ?Hrs; try done.
  - rewrite <- Hps. intros [Ha Hb]. apply H3. auto.
  - destruct Hsplit as (Hl & _ & Hreg). rewrite Hl in Hn. apply Forall_app in Hn as [_ Hn].
    rewrite Forall_forall in *. intros x Hx. apply Hn; [done|]. by apply Hreg.
  - simpl. lia.
Qed.

(** ** Through [ReadFrame] *)

Section Framer.
Context {R W E : Type} {RD : Reader R E} {ED : EqDecision E}.
Notation M := (stateful (Framer R W) (http2_error E)).

Lemma st_bind_Ok {A B} (m : M A) (k : A -> M B) s b s2 :
  st_bind m k s = (Ok b, s2) -> exists a s1, m s = (Ok a, s1) /\ k a s1 = (Ok b, s2).
Proof. unfold st_bind. destruct (m s) as [[a|e|x|] s1]; [eauto|done..]. Qed.

Lemma hdec_Write_inv limit d env frag (fr : Framer R W) d' env' fr' :
  limit < 2 ^ 32 -> meta_inv limit env ->
  (hdec_Write d env frag : M _) fr = (Ok (d', env'), fr') -> meta_inv limit env'.
Proof.
  intros Hlim Hinv. unfold hdec_Write.
  pose proof (keeps_Write meta_emit (meta_inv limit)
    (fun hf s en => meta_emit_inv limit hf s en Hlim) frag d env Hinv) as Hk.
  destruct (Write meta_emit frag (d, env)) as [[n|e|x|] [d1 env1]]; try done.
  by intros [= <- <- <-].
Qed.

Lemma meta_loop_inv limit n (read : M AnyFrame) h frag d env (fr : Framer R W) d' env' fr' :
  limit < 2 ^ 32 -> meta_inv limit env ->
  meta_loop n read h frag d env fr = (Ok (d', env'), fr') -> meta_inv limit env'.
Proof.
  intros Hlim. revert h frag d env fr. induction n as [|n IH]; intros h frag d env fr Hinv Hr;
    cbn [meta_loop] in Hr; apply st_bind_Ok in Hr as (frag1 & fr1 & _ & Hr);
    apply st_bind_Ok in Hr as ([d1 env1] & fr2 & Hw & Hr);
    pose proof (hdec_Write_inv limit _ _ _ _ _ _ _ Hlim Hinv Hw) as Hinv1;
    destruct (Has _ _); try done.
  - by injection Hr as <- <- <-.
  - by injection Hr as <- <- <-.
  - apply st_bind_Ok in Hr as (f & fr3 & _ & Hr). apply st_bind_Ok in Hr as (fr4 & fr5 & _ & Hr).
    destruct f as [[]|]; try done. destruct (ReadMetaHeaders fr4) as [d2|]; [|done].
    by apply (IH _ _ _ _ _ Hinv1 Hr).
Qed.

Lemma readMetaFrame_valid n (read : M AnyFrame) hdec hf fr mh fr' :
  0 <= MaxHeaderListSize fr < 2 ^ 32 ->
  readMetaFrame n read hdec hf fr = (Ok (MetaFrame mh), fr') ->
  meta_valid (maxHeaderListSize fr) mh /\ mh_HeadersFrame mh = invalidate hf.
Proof.
  intros Hlim Hr. unfold readMetaFrame in Hr.
  apply st_bind_Ok in Hr as (fr0 & fr1 & [= <- <-] & Hr).
  destruct (AllowIllegalReads fr); [done|].
  apply st_bind_Ok in Hr as ([d1 env1] & fr2 & Hloop & Hr).
  assert (maxHeaderListSize fr < 2 ^ 32 /\ 0 <= maxHeaderListSize fr) as [Hl32 Hl0].
  { unfold maxHeaderListSize. destruct (_ =? 0); lia. }
  apply (meta_loop_inv (maxHeaderListSize fr)) in Hloop; [|done|].
  2: { split; simpl; [lia|constructor..|]. exists [], []. split; [|done].
       split; [done|split; constructor]. }
  destruct (Close (d1, tt)) as [[u|e|x|] [d2 []]]; [|done..].
  apply st_bind_Ok in Hr as (u1 & fr3 & _ & Hr).
  destruct (invalid env1); [done|].
  destruct (checkPseudos _) eqn:Hc; [done|]. injection Hr as <- <-.
  split; [|done]. by apply meta_valid_intro.
Qed.

Definition same_limit {A} (m : M A) : Prop :=
  forall fr, MaxHeaderListSize (m fr).2 = MaxHeaderListSize fr.

Lemma same_limit_bind {A B} (m : M A) (k : A -> M B) :
  same_limit m -> (forall a, same_limit (k a)) -> same_limit (st_bind m k).
Proof.
  intros Hm Hk fr. specialize (Hm fr). unfold st_bind.
  destruct (m fr) as [[a|e|x|] fr1]; simpl in *; try done. by rewrite Hk.
Qed.

Lemma same_limit_order f : same_limit (checkFrameOrder f : M unit).
Proof.
  intros fr. unfold checkFrameOrder, fr_connError.
  repeat (case_match; simpl; try done).
Qed.

Lemma same_limit_run m : same_limit (run_parser m : M Frame).
Proof. intros fr. unfold run_parser, fr_connError. repeat (case_match; simpl; try done). Qed.

Lemma same_limit_read rf b : same_limit (read_full rf b : M _).
Proof. intros fr. unfold read_full. by destruct (ReadFull rf (r fr) b) as [[? ?]|]. Qed.

Lemma same_limit_plain rf : same_limit (ReadFrame_plain rf : M Frame).
Proof.
  unfold ReadFrame_plain, readFrameHeader, getReadBuf.
  repeat first
    [ apply same_limit_bind; intros | apply same_limit_order | apply same_limit_run
    | apply same_limit_read
    | match goal with |- same_limit (match ?x with _ => _ end) => destruct x end
    | (intros fr; simpl; try done; by case_match) ].
Qed.

(** C3: every [MetaHeadersFrame] that [ReadFrame] returns keeps the promise
    documented at its [Fields]: pseudo headers first, known, distinct, and
    of a request or of a response but not both; regular names valid HTTP/2
    tokens; values without control bytes; total size within
    [MaxHeaderListSize] (16 MiB by default). *)
Theorem ReadFrame_meta_valid fuel rf fr mh fr' :
  0 <= MaxHeaderListSize fr < 2 ^ 32 ->
  (ReadFrame fuel rf : M AnyFrame) fr = (Ok (MetaFrame mh), fr') ->
  meta_valid (maxHeaderListSize fr) mh /\ valid (hf_header (mh_HeadersFrame mh)) = false.
Proof.
  intros Hlim Hr. destruct fuel as [|fuel]; [done|]. cbn [ReadFrame] in Hr.
  apply st_bind_Ok in Hr as (f & fr1 & Hplain & Hr).
  pose proof (same_limit_plain rf fr) as Hsame. rewrite Hplain in Hsame. simpl in Hsame.
  apply st_bind_Ok in Hr as (fr2 & fr3 & [= <- <-] & Hr).
  destruct (ReadMetaHeaders fr1) as [hdec|]; [|done].
  destruct (Type_ (Header f) =? FrameHeaders); [|done]. destruct f; try done.
  apply readMetaFrame_valid in Hr as [Hv Hh]; [|by rewrite Hsame].
  unfold maxHeaderListSize in *. rewrite Hsame in Hv. split; [done|]. by rewrite Hh.
Qed.
End Framer.

(** A GET request in one HEADERS frame: [:method], [:scheme], [:path] indexed,
    [:authority] literal. *)
Definition request_frame : bytes :=
  [0; 0; 9; 1; 5; 0; 0; 0; 1] ++ [130; 134; 132; 1; 4; 104; 111; 115; 116].
Definition request_framer : Framer stream bytes :=
  set_ReadMetaHeaders (NewFramer [] (mkStream request_frame))
    (Some (mkDecoder (mkDynamicTable initTable 0 4096 4096) true 0 [] [] true)).

Lemma ReadFrame_meta_valid_witness :
  exists mh fr', (ReadFrame 1 1 : stateful _ (http2_error Empty_set) _) request_framer
      = (Ok (MetaFrame mh), fr') /\
    map Value (Fields mh) = [str "GET"; str "http"; str "/"; str "host"] /\
    meta_valid (maxHeaderListSize request_framer) mh /\
    valid (hf_header (mh_HeadersFrame mh)) = false.
Proof.
  assert (exists mh fr', (ReadFrame 1 1 : stateful _ (http2_error Empty_set) _) request_framer
    = (Ok (MetaFrame mh), fr') /\
    map Value (Fields mh) = [str "GET"; str "http"; str "/"; str "host"]) as (mh & fr' & Hr & Hv)
    by (vm_compute; do 2 eexists; split; reflexivity).
  exists mh, fr'. split; [exact Hr|]. split; [exact Hv|].
  apply (ReadFrame_meta_valid 1 1 request_framer mh fr'); [vm_compute; split; congruence|exact Hr].
Defined.
