(* ===== verification/HeaderRoundtrip.v ===== *)
(** * Headers from server to peer

    What [writeResHeaders] writes - encoded, cut into a HEADERS and
    CONTINUATION frames - a peer's [ReadFrame] with [ReadMetaHeaders] puts
    together, decodes and validates to the same fields. *)
From S2P Require Import Prelude Hpack Varint Huffman HuffmanSpec Tables Io HpackEncode HpackDecode HpackSync DecodeProps.
From S2P Require Import Httpguts Textproto Http2Types Frame Framer FrameWire FrameRead WriteFrames WriteProps MetaHeaders MetaProps.

Local Open Scope Z_scope.
Local Open Scope go_scope.

#[local] Arguments be_bytes : simpl never.

(** The frames of a block. *)
Fixpoint continuations (sid : Z) (fs : list bytes) : list request :=
  match fs with
  | [] => []
  | f :: fs => RqContinuation sid (bool_decide (fs = [])) f :: continuations sid fs
  end.

Definition headers_request (sid : Z) (es : bool) (f : bytes) (fs : list bytes) : request :=
  RqHeaders (mkHeadersFrameParam sid f es (bool_decide (fs = [])) 0 zeroPriority).

Definition rq_bytes (q : request) : bytes :=
  frame_bytes (rq_type q) (rq_flags q) (rq_stream q) (rq_payload q).

Definition requests_bytes (qs : list request) : bytes := concat (map rq_bytes qs).

Lemma rq_bytes_length q : (9 <= length (rq_bytes q))%nat.
Proof.
  unfold rq_bytes, frame_bytes. rewrite !length_app, !length_be_bytes. simpl length. lia.
Qed.

Lemma requests_bytes_length qs : (length qs <= length (requests_bytes qs))%nat.
Proof.
  induction qs as [|q qs IH]; [done|]. unfold requests_bytes in *. cbn [map concat].
  rewrite length_app. pose proof (rq_bytes_length q). simpl length. lia.
Qed.

Lemma continuations_length sid fs : length (continuations sid fs) = length fs.
Proof. induction fs as [|f fs IH]; simpl; congruence. Qed.

#[local] Opaque splitMaxFrameSize frame_bytes.

Definition fragment_ok (f : bytes) : Prop := is_bytes f /\ len f <= 16384.

Lemma fragments_ok b fs :
  is_bytes b -> fragments_of b fs -> Forall fragment_ok fs /\ (length fs <= length b)%nat.
Proof.
  intros Hb (<- & Hf & _). split.
  - apply Forall_forall. intros f Hin. split.
    + unfold is_bytes in *. rewrite Forall_concat, Forall_forall in Hb. by apply Hb.
    + rewrite Forall_forall in Hf. specialize (Hf f Hin). rewrite splitMaxFrameSize_val in Hf.
      unfold len. lia.
  - clear Hb. induction Hf as [|f fs [Hf _] _ IH]; simpl; [lia|]. rewrite length_app. lia.
Qed.

(** ** Writing *)

Section Write.
Context {R : Type} {RD : Reader R Empty_set} {FL : Flusher bytes Empty_set}.
Notation C := (wctx R bytes).
Notation M := (stateful C (http2_error Empty_set)).

(** The framer has sent [b]; nothing else the context gives access to has
    changed, but [wbuf]. *)
Definition sent (c : C) (b : bytes) (c' : C) : Prop :=
  Framer.w (cx_framer c') = Framer.w (cx_framer c) ++ b /\ cx_enc c' = cx_enc c.

Lemma request_sent q (c : C) :
  request_ok q -> len (rq_payload q) < 2 ^ 24 ->
  exists c', with_framer (write_request q) c = (Ok tt, c') /\ sent c (rq_bytes q) c'.
Proof.
  intros Hq Hl. unfold with_framer. rewrite write_request_frame by done. unfold write_frame, send.
  rewrite (proj2 (Z.ltb_lt _ _)) by done. cbn [WriteTo buffer_Writer]. rewrite Z.eqb_refl. simpl negb.
  eexists. split; [reflexivity|]. by split.
Qed.

Lemma continuations_sent h (c : C) fs :
  stream_ok (rh_streamID h) -> Forall fragment_ok fs ->
  exists c', run_fragments false fs (res_header_block h : _ -> _ -> _ -> M unit) c = (Ok tt, c') /\
    sent c (requests_bytes (continuations (rh_streamID h) fs)) c'.
Proof.
  intros Hs Hf. revert c. induction Hf as [|f fs [Hb Hl] _ IH]; intros c.
  - exists c. split; [done|]. split; [by rewrite app_nil_r|done].
  - cbn [run_fragments continuations]. set (q := RqContinuation _ _ f).
    destruct (request_sent q c) as (c1 & Hc & Hw1 & He1);
      [by split|change (len f < 2 ^ 24); lia|].
    unfold st_bind. change (res_header_block h f false (bool_decide (fs = [])) c)
      with (with_framer (write_request q : stateful (Framer R bytes) (http2_error Empty_set) _) c).
    rewrite Hc. destruct (IH c1) as (c2 & Hr & Hw2 & He2). exists c2. split; [exact Hr|].
    split; [|congruence]. by rewrite Hw2, Hw1, <- app_assoc.
Qed.

Lemma block_sent h (c : C) f fs :
  stream_ok (rh_streamID h) -> Forall fragment_ok (f :: fs) ->
  exists c', run_fragments true (f :: fs) (res_header_block h : _ -> _ -> _ -> M unit) c = (Ok tt, c') /\
    sent c (requests_bytes (headers_request (rh_streamID h) (rh_endStream h) f fs ::
      continuations (rh_streamID h) fs)) c'.
Proof.
  intros Hs [[Hb Hl] Hf]%Forall_cons_iff. cbn [run_fragments].
  set (q := headers_request (rh_streamID h) (rh_endStream h) f fs).
  destruct (request_sent q c) as (c1 & Hc & Hw1 & He1).
  { unfold q, headers_request. simpl. unfold dep_ok, is_byte. simpl. split_and!; done || lia. }
  { unfold q, headers_request. simpl. rewrite app_nil_r. lia. }
  unfold st_bind. change (res_header_block h f true (bool_decide (fs = [])) c)
    with (with_framer (write_request q : stateful (Framer R bytes) (http2_error Empty_set) _) c).
  rewrite Hc. destruct (continuations_sent h c1 fs Hs Hf) as (c2 & Hr & Hw2 & He2).
  exists c2. split; [exact Hr|]. split; [|congruence]. by rewrite Hw2, Hw1, <- app_assoc.
Qed.

(** The fields of a response. *)
Definition opt_field (k : string) (v : bytes) : list HeaderField :=
  if bool_decide (v = []) then [] else [mkHeaderField (str k) v false].

Definition response_fields (h : writeResHeaders) : list HeaderField :=
  let keys := match rh_trailers h with None => Keys (header_keys (rh_h h)) | Some ks => ks end in
  (if rh_httpResCode h =? 0 then []
   else [mkHeaderField (str ":status") (httpCodeString (rh_httpResCode h)) false])
  ++ header_fields (rh_h h) keys
  ++ opt_field "content-type" (rh_contentType h)
  ++ opt_field "content-length" (rh_contentLength h)
  ++ opt_field "date" (rh_date h).

#[local] Notation wenc := (with_enc (R:=R) (W:=bytes) (E:=Empty_set)).

Lemma with_enc_st {A} (m : EM A) (c : C) :
  wenc m c =
    let (r, e) := m (cx_enc c) in
    (match r with Ok a => Ok a | Err x => match x with end | Panic s => Panic s | NoFuel => NoFuel end,
     mkCtx (cx_framer c) e).
Proof. done. Qed.

(** The HPACK calls of [writeFrame] are [WriteField] on these fields. *)
Lemma encode_response_fields h (c : C) :
  encode_response (E:=Empty_set) h c = (reset_buf (E:=Empty_set) ;;; wenc (encode_fields (response_fields h))) c.
Proof.
  unfold encode_response, response_fields, st_bind. unfold reset_buf at 1 2.
  set (c0 := mkCtx _ _). clearbody c0.
  set (keys := match rh_trailers h with None => _ | Some ks => ks end).
  assert (forall k v (c : C), enc_if (E:=Empty_set) v k c = wenc (encode_fields (opt_field k v)) c) as Hopt.
  { intros k v c1. unfold enc_if, opt_field. case_bool_decide; [by destruct c1|].
    rewrite !with_enc_st. cbn [encode_fields Name Value]. unfold st_bind.
    by destruct (encKV _ _ _) as [[[]|[]|s|] e1]. }
  assert (forall fs gs (c : C), wenc (encode_fields (fs ++ gs)) c =
    (wenc (encode_fields fs) ;;; wenc (encode_fields gs)) c) as Happ.
  { intros fs gs c1. unfold st_bind. rewrite !with_enc_st, encode_fields_app. unfold st_bind.
    by destruct (encode_fields fs (cx_enc c1)) as [[[]|[]|s|] e1]. }
  assert (forall c : C, (if rh_httpResCode h =? 0 then st_ret tt
     else wenc (encKV (str ":status") (httpCodeString (rh_httpResCode h)))) c =
    wenc (encode_fields (if rh_httpResCode h =? 0 then []
      else [mkHeaderField (str ":status") (httpCodeString (rh_httpResCode h)) false])) c) as Hst.
  { intros c1. destruct (_ =? 0); [by destruct c1|]. rewrite !with_enc_st.
    cbn [encode_fields Name Value]. unfold st_bind. by destruct (encKV _ _ _) as [[[]|[]|s|] e1]. }
  assert (forall c : C, wenc (encodeHeaders (rh_h h) (rh_trailers h)) c =
    wenc (encode_fields (header_fields (rh_h h) keys)) c) as Hh.
  { intros c1. rewrite !with_enc_st. unfold encodeHeaders. by rewrite encode_keys_fields. }
  rewrite Hst, Happ. unfold st_bind. destruct (wenc _ c0) as [[[]|e|s|] c1]; try done.
  rewrite Hh, Happ. unfold st_bind. destruct (wenc _ c1) as [[[]|e|s|] c2]; try done.
  rewrite Hopt, Happ. unfold st_bind. destruct (wenc _ c2) as [[[]|e|s|] c3]; try done.
  rewrite Hopt, Happ. unfold st_bind. destruct (wenc _ c3) as [[[]|e|s|] c4]; try done.
Qed.

Lemma response_fields_plain h : Forall (fun f => Sensitive f = false) (response_fields h).
Proof.
  assert (forall k v, Forall (fun f => Sensitive f = false) (opt_field k v)) as Hopt.
  { intros k v. unfold opt_field. case_bool_decide; by repeat constructor. }
  unfold response_fields. rewrite !Forall_app. split_and!; auto.
  - destruct (_ =? 0); by repeat constructor.
  - eapply List.Forall_impl; [|apply header_fields_sendable]. by intros f (_ & _ & ? & _).
Qed.

(** The whole of [writeFrame]: the block and its frames. *)
Lemma write_response_sent h (c : C) :
  stream_ok (rh_streamID h) -> response_fields h <> [] ->
  table_wf (table (HpackEncode.dynTab (cx_enc c))) -> tableSizeUpdate (cx_enc c) = false ->
  Forall (fun f => field_ok f /\ incremental (cx_enc c) f = false) (response_fields h) ->
  exists c' f fs,
    writeFrame (WresHeaders h) c = (Ok tt, c') /\
    concat (f :: fs) <> [] /\ Forall fragment_ok (f :: fs) /\ len (concat (f :: fs)) <= raw_sizes (response_fields h) /\
    Framer.w (cx_framer c') = Framer.w (cx_framer c) ++
      requests_bytes (headers_request (rh_streamID h) (rh_endStream h) f fs ::
        continuations (rh_streamID h) fs) /\
    HpackEncode.dynTab (cx_enc c') = HpackEncode.dynTab (cx_enc c) /\
    forall S (emit : HeaderField -> S * bool -> S * bool) d s s' fuel,
      table_wf (table (HpackDecode.dynTab d)) -> synced (cx_enc c) d ->
      Forall (hf_fits (maxStrLen d)) (response_fields h) -> emits emit s (response_fields h) s' ->
      emitEnabled d = true -> HpackDecode.buf d = concat (f :: fs) ->
      (length (concat (f :: fs)) <= fuel)%nat ->
      exists d', Write_loop emit fuel (d, s) = (Ok tt, (d', s')) /\
        HpackDecode.dynTab d' = HpackDecode.dynTab d /\ saveBuf d' = saveBuf d.
Proof.
  intros Hs Hne Hwf Hupd Hok. cbn [writeFrame]. unfold write_response.
  set (e0 := mkEncoder (HpackEncode.dynTab (cx_enc c)) (minSize (cx_enc c))
    (maxSizeLimit (cx_enc c)) (tableSizeUpdate (cx_enc c)) ([] : bytes) (HpackEncode.buf (cx_enc c))).
  destruct (WriteFields_block (response_fields h) e0 Hwf Hupd) as
    (e' & block & Hw & Hwb & Hdt & _ & Hlen & Hbytes & Hnil & Hdec).
  { eapply List.Forall_impl; [|exact Hok]. intros f [? Hf]. split; [done|].
    rewrite <- Hf. by apply incremental_dynTab. }
  apply (encode_fields_WriteFields _ _ _ (response_fields_plain h)) in Hw.
  unfold st_bind at 1. rewrite encode_response_fields. unfold st_bind at 1, reset_buf.
  fold e0. rewrite with_enc_st. cbn [cx_enc cx_framer]. rewrite Hw.
  simpl in Hwb. unfold st_bind, buf_bytes. cbn [cx_enc]. rewrite Hwb.
  specialize (Hnil Hne). rewrite bool_decide_false by done. cbn [andb]. cbv iota.
  destruct (splitHeaderBlock_fragments (R:=R) (W:=bytes) (E:=Empty_set) block) as (frags & Hfr & Hsplit). rewrite Hsplit.
  destruct (fragments_ok _ _ Hbytes Hfr) as [Hfok _]. destruct Hfr as (Hconc & _ & _).
  destruct frags as [|f fs]; [by symmetry in Hconc|].
  destruct (block_sent h (mkCtx (cx_framer c) e') f fs Hs Hfok) as (c' & Hrun & Hw' & He').
  exists c', f, fs. split_and!; try done.
  - by rewrite Hconc.
  - by rewrite Hconc.
  - by rewrite He'.
  - intros S emit d s s' fuel Hwd [Hents Hsize] Hfits Hemits Hen Hbuf Hfuel.
    eapply Hdec; try done; by rewrite <- Hconc.
Qed.
End Write.

(** ** Reading *)

Section Read.
Context {W : Type}.
Notation Fr := (Framer stream W).
Notation M := (stateful Fr (http2_error Empty_set)).

(** What a step of [ReadFrame] leaves alone. *)
Record same_setup (fr fr' : Fr) : Prop := {
  ss_ok : framer_ok fr -> framer_ok fr';
  ss_max : maxReadSize fr' = maxReadSize fr;
  ss_illegal : AllowIllegalReads fr' = AllowIllegalReads fr;
  ss_list : MaxHeaderListSize fr' = MaxHeaderListSize fr;
}.

#[local] Instance same_setup_trans : Transitive same_setup.
Proof. intros a b c [] []. split; [auto|congruence..]. Qed.

Lemma checkFrameOrder_next (fr : Fr) f :
  AllowIllegalReads fr = false -> may_follow fr (Type_ (Header f)) (StreamID (Header f)) ->
  Type_ (Header f) = FrameHeaders \/ Type_ (Header f) = FrameContinuation ->
  exists fr', (checkFrameOrder f : M unit) fr = (Ok tt, fr') /\
    same_setup fr fr' /\ r fr' = r fr /\ ReadMetaHeaders fr' = ReadMetaHeaders fr /\
    lastHeaderStream fr' =
      if Has (Flags (Header f)) FlagHeadersEndHeaders then 0 else StreamID (Header f).
Proof.
  intros Ha Hm Ht. unfold checkFrameOrder.
  change (AllowIllegalReads (set_lastFrame fr (Some f))) with (AllowIllegalReads fr).
  change (lastHeaderStream (set_lastFrame fr (Some f))) with (lastHeaderStream fr).
  rewrite Ha. assert (((Type_ (Header f) =? FrameHeaders) || (Type_ (Header f) =? FrameContinuation))
    = true) as -> by (by destruct Ht as [-> | ->]).
  assert (forall b : bool, exists fr' : Fr,
    (if b then (@Ok (http2_error Empty_set) _ tt, set_lastHeaderStream (set_lastFrame fr (Some f)) 0)
     else (Ok tt, set_lastHeaderStream (set_lastFrame fr (Some f)) (StreamID (Header f)))) = (Ok tt, fr') /\
    same_setup fr fr' /\ r fr' = r fr /\ ReadMetaHeaders fr' = ReadMetaHeaders fr /\
    lastHeaderStream fr' = if b then 0 else StreamID (Header f)) as Hend.
  { intros []; (eexists; split; [reflexivity|]); (split_and!; [by split|done..]). }
  destruct Hm as [Hm|[[H0 Hnc]|(H0 & Hc & Hs)]]; [congruence|..].
  - rewrite H0. cbn [negb Z.eqb]. rewrite (proj2 (Z.eqb_neq (Type_ _) FrameContinuation)) by done.
    apply Hend.
  - rewrite (proj2 (Z.eqb_neq _ 0)) by done. rewrite Hc, Hs, !Z.eqb_refl. cbn [negb].
    rewrite <- Hs. apply Hend.
Qed.

(** One frame of a block. *)
Lemma read_block_frame q (fr : Fr) rf rest :
  request_ok q -> readable q -> len (rq_payload q) <= maxReadSize fr -> framer_ok fr ->
  AllowIllegalReads fr = false -> may_follow fr (rq_type q) (rq_stream q) ->
  rq_type q = FrameHeaders \/ rq_type q = FrameContinuation ->
  unread (r fr) = rq_bytes q ++ rest ->
  exists fr', ReadFrame_plain (S rf) fr = (Ok (rq_frame q), fr') /\
    unread (r fr') = rest /\ same_setup fr fr' /\ ReadMetaHeaders fr' = ReadMetaHeaders fr /\
    lastHeaderStream fr' = if Has (rq_flags q) FlagHeadersEndHeaders then 0 else rq_stream q.
Proof.
  intros Hq Hr Hlen Hok Ha Hm Ht Hu.
  rewrite (ReadFrame_bytes fr rf _ _ _ _ rest Hok (rq_stream_range q Hq) Hlen Hu).
  unfold st_bind at 1, run_parser. rewrite (parse_request q Hq Hr : typeFrameParser _ _ _ = _).
  unfold st_bind, st_ret. set (fr1 := after_read _ _ _ _).
  assert (same_setup fr fr1) as Hss.
  { split; try done. intros [Hh Hmax]. split; [|exact Hmax]. unfold fr1, after_read.
    cbn [headerBuf set_readBuf set_r set_headerBuf]. by rewrite !length_app, !length_be_bytes. }
  destruct (checkFrameOrder_next fr1 (rq_frame q)) as (fr' & Hc & Hss' & Hrr & Hmh & Hls);
    [exact Ha|by rewrite Header_rq_frame|by rewrite Header_rq_frame|].
  rewrite Hc. exists fr'. split_and!; [done|by rewrite Hrr|by transitivity fr1|by rewrite Hmh|].
  by rewrite Hls, Header_rq_frame.
Qed.

(** The CONTINUATION frames: [meta_loop] on the fragments is [Write] on
    their concatenation. *)
Lemma meta_loop_reads sid fs : forall f h fuel k rf (fr : Fr) d env rest n d' env',
  stream_ok sid -> Forall fragment_ok (f :: fs) -> dec_ok d (len (concat (f :: fs))) ->
  valid h = true -> Has (Flags h) FlagHeadersEndHeaders = bool_decide (fs = []) ->
  framer_ok fr -> 16384 <= maxReadSize fr -> AllowIllegalReads fr = false ->
  lastHeaderStream fr = (if bool_decide (fs = []) then 0 else sid) ->
  unread (r fr) = requests_bytes (continuations sid fs) ++ rest ->
  (length fs <= fuel)%nat ->
  Write meta_emit (concat (f :: fs)) (d, env) = (Ok n, (d', env')) ->
  exists fr', meta_loop fuel (ReadFrame (S k) (S rf)) h f d env fr = (Ok (d', env'), fr') /\
    unread (r fr') = rest /\ same_setup fr fr' /\ lastHeaderStream fr' = 0 /\
    ReadMetaHeaders fr' = Some d'.
Proof.
  induction fs as [|g fs IH]; intros f h fuel k rf fr d env rest n d' env' Hs Hf Hd Hv Hh Hok Hmax Ha Hls Hu Hfuel Hw.
  - cbn [concat] in Hw. rewrite app_nil_r in Hw. exists (set_ReadMetaHeaders fr (Some d')).
    split; [|split_and!; [done|by split|done|done]].
    destruct fuel; cbn [meta_loop]; unfold st_bind, fragment_of; rewrite Hv; cbn [negb];
      unfold st_ret, hdec_Write; rewrite Hw, Hh; done.
  - destruct fuel as [|fuel]; [simpl in Hfuel; lia|].
    apply Forall_cons_iff in Hf as [[Hfb Hfl] Hfs]. cbn [concat] in Hd, Hw.
    rewrite len_app in Hd.
    assert (is_bytes (concat (g :: fs))) as Hb.
    { unfold is_bytes. apply Forall_concat. eapply List.Forall_impl; [|exact Hfs]. by intros x [? _]. }
    destruct (Write_two meta_emit d env f (concat (g :: fs)) n (d', env') Hd Hfb Hb Hw)
      as (d1 & env1 & Hw1 & Hd1 & Hw2).
    cbn [meta_loop]. unfold st_bind at 1, fragment_of. rewrite Hv. cbn [negb]. unfold st_ret at 1.
    unfold st_bind at 1, hdec_Write. rewrite Hw1, Hh. rewrite bool_decide_false by done. cbv iota.
    set (fr1 := set_ReadMetaHeaders fr (Some d1)). rewrite bool_decide_false in Hls by done.
    set (q := RqContinuation sid (bool_decide (fs = [])) g).
    pose proof (proj1 (Forall_cons_iff _ _ _) Hfs) as [[Hgb Hgl] _].
    destruct (read_block_frame q fr1 rf (requests_bytes (continuations sid fs) ++ rest))
      as (fr2 & Hr & Hu2 & Hss & Hmh & Hls2); try done.
    { change (len g <= maxReadSize fr). lia. }
    { right; right. change (lastHeaderStream fr1) with (lastHeaderStream fr).
      destruct Hs. cbn. split_and!; [lia|done|done]. }
    { by right. }
    { change (unread (r fr1)) with (unread (r fr)). rewrite Hu. cbn [continuations].
      unfold requests_bytes. cbn [map concat]. by rewrite <- app_assoc. }
    assert (Has (rq_flags q) FlagHeadersEndHeaders = bool_decide (fs = [])) as Hq
      by (cbn [q rq_flags]; by destruct (bool_decide _)).
    rewrite Hq in Hls2.
    unfold st_bind at 1. cbn [ReadFrame]. unfold st_bind at 1. rewrite Hr.
    unfold st_bind at 1, st_get at 1. rewrite Hmh. cbn [ReadMetaHeaders set_ReadMetaHeaders fr1].
    cbn [rq_frame q Header cf_header header_q Type_ rq_type].
    change (FrameContinuation =? FrameHeaders) with false. cbv iota. unfold st_ret at 1.
    unfold st_bind at 1, st_get at 1. rewrite Hmh. cbn [ReadMetaHeaders set_ReadMetaHeaders fr1 cf_header cf_headerFragBuf].
    destruct Hss as [Hss1 Hss2 Hss3 Hss4].
    destruct (IH g (header_q q) fuel k rf fr2 d1 env1 rest (len (concat (g :: fs))) d' env')
      as (fr' & Hl & Hu' & Hss' & Hls' & Hmh'); try done.
    { exact (Hss1 Hok). }
    { rewrite Hss2. done. }
    { rewrite Hss3. done. }
    { simpl in Hfuel. lia. }
    exists fr'. split; [exact Hl|]. split; [done|]. split; [|done].
    assert (same_setup fr fr2) by (by split). by transitivity fr2.
Qed.

(** *** The callback and the pseudo headers *)

Definition well_formed_field (hf : HeaderField) : Prop :=
  ValidHeaderFieldValue (Value hf) = true /\
  (IsPseudo hf = false -> validWireHeaderFieldName (Name hf) = true).

Lemma raw_sizes_app l l' : raw_sizes (l ++ l') = raw_sizes l + raw_sizes l'.
Proof. induction l as [|f l IH]; cbn [app raw_sizes]; lia. Qed.

Lemma raw_size_pos f : 32 <= raw_size f.
Proof. unfold raw_size. pose proof (len_nonneg (Name f)). pose proof (len_nonneg (Value f)). lia. Qed.

Lemma raw_sizes_nonneg l : 0 <= raw_sizes l.
Proof. induction l as [|f l IH]; cbn [raw_sizes]; [lia|]. pose proof (raw_size_pos f). lia. Qed.

Lemma Size_raw f : raw_size f < 2 ^ 32 -> Size f = raw_size f.
Proof. intros H. pose proof (raw_size_pos f). unfold Size, raw_size in *. apply u32_small. lia. Qed.

Lemma meta_emit_ok hf env :
  well_formed_field hf -> (IsPseudo hf = true -> sawRegular env = false) -> invalid env = None ->
  raw_size hf <= remainSize env -> remainSize env < 2 ^ 32 ->
  meta_emit hf (env, true) =
    (mkEmitEnv (remainSize env - raw_size hf) (sawRegular env || negb (IsPseudo hf)) None
       (env_Fields env ++ [hf]) (env_Truncated env), true).
Proof.
  intros [Hv Hn] Hp Hi Hle Hlt. unfold meta_emit. change (has_colon (Name hf)) with (IsPseudo hf).
  pose proof (raw_size_pos hf). rewrite Hv, Hi, Size_raw by lia.
  cbn [negb]. destruct (IsPseudo hf).
  - rewrite (Hp eq_refl). cbn [negb orb]. rewrite (proj2 (Z.ltb_ge _ _)), u32_small by lia. done.
  - rewrite (Hn eq_refl). cbn [negb]. rewrite orb_true_r, (proj2 (Z.ltb_ge _ _)), u32_small by lia. done.
Qed.

Lemma meta_emits fs env :
  Forall well_formed_field fs -> (exists ps rs, split_fields fs ps rs /\ (sawRegular env = true -> ps = [])) ->
  invalid env = None -> raw_sizes fs <= remainSize env -> remainSize env < 2 ^ 32 ->
  exists env', emits meta_emit env fs env' /\ env_Fields env' = env_Fields env ++ fs /\
    invalid env' = None /\ env_Truncated env' = env_Truncated env.
Proof.
  intros Hfs. revert env. induction Hfs as [|f fs Hf _ IH]; intros env (ps & rs & (Heq & Hps & Hrs) & Hsaw) Hi Hle Hlt.
  - exists env. by rewrite app_nil_r.
  - cbn [raw_sizes] in Hle. pose proof (raw_sizes_nonneg fs). pose proof (raw_size_pos f).
    assert (IsPseudo f = true -> sawRegular env = false) as Hp.
    { intros Hp. destruct (sawRegular env); [|done]. rewrite (Hsaw eq_refl) in Heq. simpl in Heq. subst rs.
      apply Forall_cons_iff in Hrs as [Hr _]. unfold regular in Hr. congruence. }
    pose proof (meta_emit_ok f env Hf Hp Hi ltac:(lia) Hlt) as He.
    destruct (IH (mkEmitEnv (remainSize env - raw_size f) (sawRegular env || negb (IsPseudo f)) None
       (env_Fields env ++ [f]) (env_Truncated env))) as (env' & H1 & H2 & H3 & H4); cbn [remainSize sawRegular invalid]; [|done|lia|lia|].
    { destruct ps as [|p ps]; simpl in Heq.
      - subst rs. apply Forall_cons_iff in Hrs as [Hr Hrs]. exists [], fs. by split.
      - injection Heq as <- ->. apply Forall_cons_iff in Hps as [Hf' Hps]. exists ps, rs. split; [by split|].
        unfold pseudo in Hf'. rewrite Hf', orb_false_r. intros Hs. by specialize (Hsaw Hs). }
    exists env'. split; [by eexists|]. cbn [env_Fields env_Truncated] in *. split; [|done].
    by rewrite H2, <- app_assoc.
Qed.

Lemma wire_name_regular n v b : validWireHeaderFieldName n = true -> IsPseudo (mkHeaderField n v b) = false.
Proof.
  intros Hn. unfold IsPseudo. simpl. destruct n as [|c n]; [done|].
  destruct (Z.eqb_spec c 58) as [->|]; [|done]. exfalso. revert Hn.
  unfold validWireHeaderFieldName. simpl. done.
Qed.

Lemma code_values :
  forallb (fun c => ValidHeaderFieldValue (httpCodeString c)) (seqZ 100 900) = true.
Proof. vm_compute. reflexivity. Qed.

(** What the theorem below asks of the response beside its sizes. *)
Record response_ok (h : writeResHeaders) : Prop := {
  ro_stream : stream_ok (rh_streamID h);
  ro_code : rh_httpResCode h = 0 \/ 100 <= rh_httpResCode h < 1000;
  ro_type : ValidHeaderFieldValue (rh_contentType h) = true;
  ro_length : ValidHeaderFieldValue (rh_contentLength h) = true;
  ro_date : ValidHeaderFieldValue (rh_date h) = true;
  ro_some : response_fields h <> [];
}.

Lemma response_fields_valid h :
  response_ok h -> exists ps rs, split_fields (response_fields h) ps rs /\
    Forall well_formed_field (response_fields h) /\
    (ps = [] \/ map Name ps = [str ":status"]).
Proof.
  intros [_ Hc Ht Hl Hd _]. unfold response_fields.
  set (ps := if rh_httpResCode h =? 0 then _ else _).
  set (keys := match rh_trailers h with None => _ | Some ks => ks end).
  set (rs := header_fields _ keys ++ _).
  assert (Forall well_formed_field ps /\ Forall pseudo ps /\ (ps = [] \/ map Name ps = [str ":status"]))
    as (Hp1 & Hp2 & Hp3).
  { unfold ps. destruct (Z.eqb_spec (rh_httpResCode h) 0) as [|Hne]; [by auto|].
    split_and!; [|by constructor|by right]. constructor; [|done]. split; [|done]. simpl Value.
    destruct Hc as [?|Hc]; [done|].
    pose proof (seqZ_forallb (fun c => ValidHeaderFieldValue (httpCodeString c)) 100 900
      (rh_httpResCode h) code_values ltac:(lia)) as Hv. exact Hv. }
  assert (forall k v, validWireHeaderFieldName (str k) = true -> ValidHeaderFieldValue v = true ->
    Forall (fun f => well_formed_field f /\ regular f) (opt_field k v)) as Hopt.
  { intros k v Hk Hv. unfold opt_field. case_bool_decide; [done|]. constructor; [|done].
    split; [by split|]. by apply wire_name_regular. }
  assert (Forall (fun f => well_formed_field f /\ regular f) rs) as Hr.
  { unfold rs. rewrite !Forall_app. split_and!; [|by apply Hopt..].
    eapply List.Forall_impl; [|apply header_fields_sendable].
    intros [n v b] (Hn & Hv & _). split; [by split|]. by apply wire_name_regular. }
  exists ps, rs. split; [split; [done|split; [done|]]|split; [apply Forall_app; split; [done|]|done]];
    (eapply List.Forall_impl; [|exact Hr]); by intros f [? ?].
Qed.
End Read.

Section Roundtrip.
Context {R W : Type} {RD : Reader R Empty_set} {FL : Flusher bytes Empty_set}.

(** A peer between two header blocks: its framer merges header blocks with
    the decoder [d] and admits [n] bytes of fields. *)
Record peer_ready (fr : Framer stream W) (d : Decoder) (n : Z) : Prop := {
  pr_ok : framer_ok fr;
  pr_max : 16384 <= maxReadSize fr;
  pr_illegal : AllowIllegalReads fr = false;
  pr_order : lastHeaderStream fr = 0;
  pr_dec : ReadMetaHeaders fr = Some d;
  pr_list : 0 <= MaxHeaderListSize fr < 2 ^ 32;
  pr_fits : n <= maxHeaderListSize fr;
  pr_table : table_wf (table (HpackDecode.dynTab d));
  pr_save : saveBuf d = [];
  pr_room : added d + n + 1 < 2 ^ 62;
}.

Lemma raw_fits m fs :
  raw_sizes fs <= m -> m < 2 ^ 63 -> Forall (hf_fits m) fs.
Proof.
  intros Hle Hm. induction fs as [|f fs IH]; [done|]. cbn [raw_sizes] in Hle.
  pose proof (raw_sizes_nonneg fs). pose proof (raw_size_pos f). constructor; [|apply IH; lia].
  pose proof (len_nonneg (Name f)). pose proof (len_nonneg (Value f)).
  unfold raw_size in *. split; right; lia.
Qed.

(** The decoder that [readMetaFrame] sets up accepts the whole block. *)
Lemma Write_of_loop {S} emit block (d d' : Decoder) (s s' : S) :
  block <> [] -> saveBuf d = [] ->
  Write_loop emit (length block) (set_buf d block, s) = (Ok tt, (d', s')) ->
  Write emit block (d, s) = (Ok (len block), (d', s')).
Proof.
  intros Hne Hs Hl. rewrite Write_loaded by done. unfold loaded. rewrite Hs.
  cbn [HpackDecode.buf set_buf]. by rewrite Hl.
Qed.

Lemma ReadFrame_headers n rf (fr fr1 : Framer stream W) hf d :
  ReadFrame_plain rf fr = (Ok (FHeaders hf), fr1) -> ReadMetaHeaders fr1 = Some d ->
  Type_ (hf_header hf) = FrameHeaders ->
  ReadFrame (S n) rf fr = readMetaFrame n (ReadFrame n rf) d hf fr1.
Proof.
  intros Hr Hd Ht. cbn [ReadFrame]. unfold st_bind at 1. rewrite Hr. unfold st_bind at 1, st_get at 1.
  rewrite Hd. cbn [Header]. by rewrite Ht.
Qed.

(** A block that a decoder with the table of [d] decodes to [fields]. *)
Definition decodes_to (fields : list HeaderField) (block : bytes) (d : Decoder) : Prop :=
  forall d0 env env', HpackDecode.dynTab d0 = HpackDecode.dynTab d ->
    Forall (hf_fits (maxStrLen d0)) fields -> emits meta_emit env fields env' ->
    emitEnabled d0 = true -> HpackDecode.buf d0 = block ->
    exists d2, Write_loop meta_emit (length block) (d0, env) = (Ok tt, (d2, env')) /\
      HpackDecode.dynTab d2 = HpackDecode.dynTab d /\ saveBuf d2 = saveBuf d0.

(** The HEADERS frame has been read: [readMetaFrame] reads the rest. *)
Lemma readMetaFrame_block fields sid f fs hf (fr : Framer stream W) d k rf rest :
  stream_ok sid -> Forall fragment_ok (f :: fs) -> concat (f :: fs) <> [] ->
  len (concat (f :: fs)) <= raw_sizes fields -> (length fs <= S k)%nat ->
  (exists ps rs, split_fields fields ps rs /\ Forall well_formed_field fields /\
     (ps = [] \/ map Name ps = [str ":status"])) ->
  decodes_to fields (concat (f :: fs)) d -> peer_ready (set_lastHeaderStream fr 0) d (raw_sizes fields) ->
  lastHeaderStream fr = (if bool_decide (fs = []) then 0 else sid) ->
  headerFragBuf hf = f -> valid (hf_header hf) = true ->
  Has (Flags (hf_header hf)) FlagHeadersEndHeaders = bool_decide (fs = []) ->
  unread (r fr) = requests_bytes (continuations sid fs) ++ rest ->
  exists fr' d', readMetaFrame (S k) (ReadFrame (S k) (S rf)) d hf fr =
      (Ok (MetaFrame (mkMetaHeadersFrame (invalidate hf) fields false)), fr') /\
    unread (r fr') = rest /\ lastHeaderStream fr' = 0 /\
    ReadMetaHeaders fr' = Some d' /\ HpackDecode.dynTab d' = HpackDecode.dynTab d.
Proof.
  intros Hs Hfr Hne Hlen Hk (ps & rs & Hsplit & Hvalid & Hps) Hdec
    [Hfok Hmax Hill _ _ Hlist Hfits Htab Hsave Hroom] Hls <- Hv Hflag Hu.
  unfold readMetaFrame. unfold st_bind at 1, st_get at 1. cbn in Hill. rewrite Hill.
  unfold maxHeaderStringLength. change (maxHeaderListSize (set_lastHeaderStream fr 0)) with (maxHeaderListSize fr) in *.
  set (lim := maxHeaderListSize fr) in *.
  assert (0 < lim < 2 ^ 32) as Hlim32.
  { unfold lim, maxHeaderListSize. cbn in Hlist. destruct (Z.eqb_spec (MaxHeaderListSize fr) 0); lia. }
  set (env0 := mkEmitEnv lim false None [] false).
  set (d0 := SetMaxStringLength (SetEmitEnabled d true) lim).
  destruct (meta_emits fields env0 Hvalid) as (env' & Hem & Hf' & Hi' & Ht'); [|done|simpl; lia|simpl; lia|].
  { exists ps, rs. by split. }
  set (block := concat (headerFragBuf hf :: fs)) in *.
  destruct (Hdec (set_buf d0 block) env0 env') as (d2 & Hloop & Hdt2 & Hsv2);
    try done; [apply raw_fits; simpl; lia|].
  apply (Write_of_loop meta_emit block d0 d2 env0 env' Hne Hsave) in Hloop.
  assert (dec_ok d0 (len block)) as Hdok.
  { split; [done|simpl; rewrite Hsave; constructor| |].
    - change (added d + len (saveBuf d) + len block + 1 < 2 ^ 62). rewrite Hsave.
      change (len (@nil Z)) with 0. lia.
    - right. change (maxStrLen d0) with lim. change (saveBuf d0) with (saveBuf d). rewrite Hsave.
      change (len (@nil Z)) with 0. lia. }
  destruct (meta_loop_reads sid fs (headerFragBuf hf) (hf_header hf) (S k) k rf fr d0 env0 rest
    (len block) d2 env' Hs Hfr Hdok) as (fr2 & Hl & Hu2 & _ & Hls2 & Hmh2); try done.
  unfold st_bind at 1. rewrite Hl. unfold Close. rewrite Hsv2.
  change (saveBuf (set_buf d0 block)) with (saveBuf d). rewrite Hsave.
  cbn [len length Z.of_nat Z.ltb Z.compare].
  unfold st_bind, st_mod. rewrite Hi'. unfold checkPseudos, PseudoFields. cbn [Fields].
  rewrite Hf', Ht'. cbn [env_Fields env0 app env_Truncated].
  destruct (pseudo_regular_split _ ps rs Hsplit) as [-> _].
  assert (checkPseudos_loop [] ps false false = None) as ->.
  { destruct Hps as [->|Hps]; [done|]. destruct ps as [|p [|? ?]]; try done. injection Hps as Hp.
    cbn [checkPseudos_loop]. rewrite Hp. vm_compute. reflexivity. }
  by eexists _, (set_firstField d2 true).
Qed.

End Roundtrip.

(** A compressed 200 answer, all of whose fields are in the static table. *)
Definition response_example : writeResHeaders :=
  mkResHeaders 1 200 (Some {[str "Accept-Encoding" := [str "gzip, deflate"]]}) None true [] [] [].

