(* ===== verification/Bits64.v ===== *)
(** * Bit counting on 64-bit words

    [src/memory_and_heap/stubs.go]: [Len64], [OnesCount64], [TrailingZeros64]
    and [LeadingZeros64], which the page allocator's bitmaps are built on.  The
    code uses tables, a de Bruijn sequence and parallel sums; the theorems give
    what each counts. *)
From S2P Require Import Prelude.

Local Open Scope Z_scope.

(** ** The code *)

(** [x << n] and [^x] on [uint64]; a shift by 64 or more gives zero. *)
Definition shl64 (x n : Z) : Z := u64 (Z.shiftl x n).
Definition not64 (x : Z) : Z := Z.lxor x (2 ^ 64 - 1).

Definition len8tab : list Z :=
  [0] ++ replicate 1 1 ++ replicate 2 2 ++ replicate 4 3 ++ replicate 8 4 ++ replicate 16 5 ++
  replicate 32 6 ++ replicate 64 7 ++ replicate 128 8.

Definition Len64 (x : Z) : Z :=
  let '(x, n) := if 2 ^ 32 <=? x then (Z.shiftr x 32, 32) else (x, 0) in
  let '(x, n) := if 2 ^ 16 <=? x then (Z.shiftr x 16, n + 16) else (x, n) in
  let '(x, n) := if 2 ^ 8 <=? x then (Z.shiftr x 8, n + 8) else (x, n) in
  n + nth (Z.to_nat x) len8tab 0.

Definition m0 : Z := 0x5555555555555555.
Definition m1 : Z := 0x3333333333333333.
Definition m2 : Z := 0x0f0f0f0f0f0f0f0f.

Definition OnesCount64 (x : Z) : Z :=
  let m := 2 ^ 64 - 1 in
  let x := u64 (Z.land (Z.shiftr x 1) (Z.land m0 m) + Z.land x (Z.land m0 m)) in
  let x := u64 (Z.land (Z.shiftr x 2) (Z.land m1 m) + Z.land x (Z.land m1 m)) in
  let x := Z.land (u64 (Z.shiftr x 4 + x)) (Z.land m2 m) in
  let x := u64 (x + Z.shiftr x 8) in
  let x := u64 (x + Z.shiftr x 16) in
  let x := u64 (x + Z.shiftr x 32) in
  Z.land x (2 ^ 7 - 1).

Definition deBruijn64tab : list Z :=
  [0; 1; 56; 2; 57; 49; 28; 3; 61; 58; 42; 50; 38; 29; 17; 4;
   62; 47; 59; 36; 45; 43; 51; 22; 53; 39; 33; 30; 24; 18; 12; 5;
   63; 55; 48; 27; 60; 41; 37; 16; 46; 35; 44; 21; 52; 32; 23; 11;
   54; 26; 40; 15; 34; 20; 31; 10; 25; 14; 19; 9; 13; 8; 7; 6].
Definition deBruijn64 : Z := 0x03f79d71b4ca8b09.

Definition TrailingZeros64 (x : Z) : Z :=
  if x =? 0 then 64
  else nth (Z.to_nat (Z.shiftr (u64 (Z.land x (u64 (- x)) * deBruijn64)) (64 - 6))) deBruijn64tab 0.

Definition LeadingZeros64 (x : Z) : Z := 64 - Len64 x.

(** ** Trailing zeros *)

(** [x & -x] isolates the lowest bit of [x = 2^t * (2 m + 1)]. *)
Lemma lowest_bit t m : 0 <= t -> Z.land (2 ^ t * (2 * m + 1)) (- (2 ^ t * (2 * m + 1))) = 2 ^ t.
Proof.
  intros Ht. set (x := 2 ^ t * (2 * m + 1)).
  replace (- x) with (Z.lnot (x - 1)) by (unfold Z.lnot; lia).
  rewrite <- Z.ldiff_land. apply Z.bits_inj'. intros i Hi. rewrite Z.ldiff_spec, Z.pow2_bits_eqb by lia.
  pose proof (pow2_pos t Ht).
  assert (x = (2 * m + 1) * 2 ^ t) as Hx by (unfold x; lia).
  assert (x - 1 = Z.lor (2 * m * 2 ^ t) (2 ^ t - 1)) as Hx1.
  { rewrite lor_disjoint by lia. lia. }
  rewrite Hx1, Hx, Z.lor_spec.
  destruct (Z.eqb_spec t i) as [->|Hne].
  - rewrite !Z.mul_pow2_bits by lia. rewrite Z.sub_diag, Z.testbit_odd_0, Z.testbit_even_0.
    by rewrite (testbit_small (2 ^ i - 1) i i) by lia.
  - destruct (Z.ltb_spec i t).
    + rewrite Z.mul_pow2_bits_low by lia. done.
    + assert (exists k, 0 <= k /\ i = Z.succ k + t) as (k & Hk & ->) by (exists (i - t - 1); lia).
      rewrite !Z.mul_pow2_bits by lia. replace (Z.succ k + t - t) with (Z.succ k) by lia.
      rewrite Z.testbit_odd_succ, Z.testbit_even_succ by lia. by destruct (Z.testbit m k).
Qed.

(** [x] has its lowest set bit at [t]. *)
Definition lowest_set (x t : Z) : Prop :=
  Z.testbit x t = true /\ forall i, 0 <= i < t -> Z.testbit x i = false.

Lemma odd_factor n x : 0 < x < 2 ^ Z.of_nat n -> exists t m, 0 <= t < Z.of_nat n /\ 0 <= m /\ x = 2 ^ t * (2 * m + 1).
Proof.
  revert x. induction n as [|n IH]; intros x Hx; [simpl in Hx; lia|].
  rewrite Nat2Z.inj_succ, Z.pow_succ_r in Hx by lia.
  destruct (Z.Even_or_Odd x) as [[y ->]|[m ->]].
  - destruct (IH y ltac:(lia)) as (t & m & Ht & Hm & ->). exists (Z.succ t), m.
    rewrite Z.pow_succ_r by lia. lia.
  - exists 0, m. rewrite Z.pow_0_r. lia.
Qed.

Lemma deBruijn_index t :
  0 <= t < 64 -> nth (Z.to_nat (Z.shiftr (u64 (2 ^ t * deBruijn64)) 58)) deBruijn64tab 0 = t.
Proof.
  intros Ht.
  assert ((nth (Z.to_nat (Z.shiftr (u64 (2 ^ t * deBruijn64)) 58)) deBruijn64tab 0 =? t) = true) as H.
  { apply (seqZ_forallb (fun t => nth (Z.to_nat (Z.shiftr (u64 (2 ^ t * deBruijn64)) 58))
      deBruijn64tab 0 =? t) 0 64); [vm_compute; reflexivity|lia]. }
  by apply Z.eqb_eq in H.
Qed.

Lemma land_u64 x y : 0 <= x < 2 ^ 64 -> Z.land x (u64 y) = Z.land x y.
Proof.
  intros Hx. apply Z.bits_inj'. intros i Hi. rewrite !Z.land_spec. unfold u64.
  destruct (Z.ltb_spec i 64); [by rewrite Z.mod_pow2_bits_low by lia|].
  by rewrite (testbit_small x 64 i) by lia.
Qed.

Lemma land_u64_l x y : 0 <= x < 2 ^ 64 -> Z.land (u64 y) x = Z.land y x.
Proof. intros Hx. rewrite (Z.land_comm (u64 y)), (Z.land_comm y). by apply land_u64. Qed.

Lemma TrailingZeros64_spec x :
  0 <= x < 2 ^ 64 ->
  (x = 0 /\ TrailingZeros64 x = 64) \/ (0 <= TrailingZeros64 x < 64 /\ lowest_set x (TrailingZeros64 x)).
Proof.
  intros Hx. unfold TrailingZeros64. destruct (Z.eqb_spec x 0) as [->|Hne]; [by left|right].
  destruct (odd_factor 64 x ltac:(lia)) as (t & m & Ht & Hm & Hxm).
  rewrite land_u64 by done.
  assert (Z.land x (- x) = 2 ^ t) as -> by (rewrite Hxm; apply lowest_bit; lia).
  change (64 - 6) with 58. rewrite deBruijn_index by lia. split; [lia|].
  rewrite (Z.mul_comm (2 ^ t)) in Hxm. rewrite Hxm. split.
  - by rewrite Z.mul_pow2_bits, Z.sub_diag, Z.testbit_odd_0 by lia.
  - intros i Hi. by rewrite Z.mul_pow2_bits_low by lia.
Qed.

(** ** Leading zeros *)

Definition bit_length (x : Z) : Z := if x =? 0 then 0 else Z.log2 x + 1.

Lemma len8tab_spec x : 0 <= x < 256 -> nth (Z.to_nat x) len8tab 0 = bit_length x.
Proof.
  intros Hx. apply Z.eqb_eq.
  apply (seqZ_forallb (fun x => nth (Z.to_nat x) len8tab 0 =? bit_length x) 0 256);
    [vm_compute; reflexivity|lia].
Qed.

Lemma bit_length_shiftr x k : 0 <= k -> 2 ^ k <= x -> bit_length x = bit_length (Z.shiftr x k) + k.
Proof.
  intros Hk Hx. pose proof (pow2_pos k Hk).
  assert (0 < Z.shiftr x k) as Hs.
  { rewrite Z.shiftr_div_pow2 by lia. apply Z.div_str_pos. lia. }
  unfold bit_length. rewrite !(proj2 (Z.eqb_neq _ 0)) by lia. rewrite Z.log2_shiftr by lia.
  assert (k <= Z.log2 x) by (apply Z.log2_le_pow2; lia). lia.
Qed.

(** Halving the range of [x] like the code does. *)
Lemma Len64_step x n k :
  0 <= k -> 0 <= x < 2 ^ (2 * k) ->
  let '(y, m) := if 2 ^ k <=? x then (Z.shiftr x k, n + k) else (x, n) in
  0 <= y < 2 ^ k /\ m + bit_length y = n + bit_length x.
Proof.
  intros Hk Hx. destruct (Z.leb_spec (2 ^ k) x); [|lia]. pose proof (pow2_pos k Hk).
  rewrite (bit_length_shiftr x k) by lia. rewrite Z.shiftr_div_pow2 by lia. split; [|lia].
  replace (2 * k) with (k + k) in Hx by lia. rewrite Z.pow_add_r in Hx by lia.
  split; [apply Z.div_pos; lia|apply Z.div_lt_upper_bound; lia].
Qed.

Lemma Len64_spec x : 0 <= x < 2 ^ 64 -> Len64 x = bit_length x.
Proof.
  intros Hx. unfold Len64.
  pose proof (Len64_step x 0 32 ltac:(lia) Hx) as H1. rewrite Z.add_0_l in H1.
  destruct (if 2 ^ 32 <=? x then _ else _) as [x1 n1]. destruct H1 as [Hx1 E1].
  pose proof (Len64_step x1 n1 16 ltac:(lia) Hx1) as H2.
  destruct (if 2 ^ 16 <=? x1 then _ else _) as [x2 n2]. destruct H2 as [Hx2 E2].
  pose proof (Len64_step x2 n2 8 ltac:(lia) Hx2) as H3.
  destruct (if 2 ^ 8 <=? x2 then _ else _) as [x3 n3]. destruct H3 as [Hx3 E3].
  rewrite len8tab_spec by done. lia.
Qed.

(** [LeadingZeros64 x] bits at the top are clear, and the one below is set. *)
Lemma LeadingZeros64_spec x :
  0 <= x < 2 ^ 64 ->
  (x = 0 /\ LeadingZeros64 x = 64) \/
  (0 <= LeadingZeros64 x < 64 /\ Z.testbit x (63 - LeadingZeros64 x) = true /\
   forall i, 64 - LeadingZeros64 x <= i -> Z.testbit x i = false).
Proof.
  intros Hx. unfold LeadingZeros64. rewrite Len64_spec by done. unfold bit_length.
  destruct (Z.eqb_spec x 0) as [->|Hne]; [by left|right].
  assert (Z.log2 x < 64) by (apply Z.log2_lt_pow2; lia). pose proof (Z.log2_nonneg x).
  split; [lia|]. split.
  - replace (63 - (64 - (Z.log2 x + 1))) with (Z.log2 x) by lia. apply Z.bit_log2. lia.
  - intros i Hi. apply Z.bits_above_log2; lia.
Qed.

(** ** Counting ones

    The parallel sums work on the eight bytes of the word independently. *)

Fixpoint popcount (n : nat) (x : Z) : Z :=
  match n with
  | O => 0
  | S n => x mod 2 + popcount n (x / 2)
  end.

(** Bytes, least significant first. *)
Fixpoint le_val (l : list Z) : Z :=
  match l with [] => 0 | b :: l => b + 256 * le_val l end.
Fixpoint le_bytes (n : nat) (x : Z) : list Z :=
  match n with O => [] | S n => x mod 256 :: le_bytes n (x / 256) end.

Lemma le_val_bytes n x : 0 <= x < 256 ^ Z.of_nat n -> le_val (le_bytes n x) = x.
Proof.
  revert x. induction n as [|n IH]; intros x Hx; [simpl in *; lia|]. cbn [le_bytes le_val].
  rewrite Nat2Z.inj_succ, Z.pow_succ_r in Hx by lia.
  rewrite IH by (split; [apply Z.div_pos; lia|apply Z.div_lt_upper_bound; lia]).
  pose proof (Z.div_mod x 256 ltac:(lia)). lia.
Qed.

Lemma le_bytes_range n x : is_bytes (le_bytes n x) /\ length (le_bytes n x) = n.
Proof.
  revert x. induction n as [|n IH]; intros x; [by split; [constructor|]|]. cbn [le_bytes length].
  destruct (IH (x / 256)) as [H1 H2]. split; [|lia]. constructor; [|exact H1].
  unfold is_byte. apply Z.mod_pos_bound. lia.
Qed.

Lemma le_val_range l : is_bytes l -> 0 <= le_val l < 256 ^ Z.of_nat (length l).
Proof.
  induction 1 as [|b l Hb _ IH]; [simpl; lia|]. unfold is_byte in Hb. cbn [le_val length].
  rewrite Nat2Z.inj_succ, Z.pow_succ_r by lia. lia.
Qed.

Lemma le_val_u64 l : is_bytes l -> length l = 8%nat -> u64 (le_val l) = le_val l.
Proof.
  intros Hl H8. apply u64_small. pose proof (le_val_range l Hl) as Hr. by rewrite H8 in Hr.
Qed.

Lemma byte_testbit b y i :
  0 <= b < 256 -> 0 <= i ->
  Z.testbit (b + 256 * y) i = if i <? 8 then Z.testbit b i else Z.testbit y (i - 8).
Proof.
  intros Hb Hi. change 256 with (2 ^ 8) in *.
  replace (b + 2 ^ 8 * y) with (Z.lor (y * 2 ^ 8) b) by (rewrite lor_disjoint; lia).
  rewrite Z.lor_spec. destruct (Z.ltb_spec i 8).
  - by rewrite Z.mul_pow2_bits_low by lia.
  - rewrite Z.mul_pow2_bits, (testbit_small b 8 i) by lia. apply orb_false_r.
Qed.

Lemma land_low_byte a m : 0 <= m < 256 -> 0 <= Z.land a m < 256.
Proof.
  intros Hm. assert (Z.land a m = Z.land a m mod 2 ^ 8) as ->; [|apply Z.mod_pos_bound; lia].
  apply Z.bits_inj'. intros i Hi. destruct (Z.ltb_spec i 8).
  - by rewrite Z.mod_pow2_bits_low by lia.
  - rewrite Z.mod_pow2_bits_high, Z.land_spec, (testbit_small m 8 i) by lia. apply andb_false_r.
Qed.

Lemma land_shift_bytes k b y m M :
  0 <= k <= 8 -> 0 <= b < 256 -> 0 <= m < 2 ^ (8 - k) ->
  Z.land (Z.shiftr (b + 256 * y) k) (m + 256 * M) =
    Z.land (Z.shiftr b k) m + 256 * Z.land (Z.shiftr y k) M.
Proof.
  intros Hk Hb Hm.
  assert (2 ^ (8 - k) <= 2 ^ 8) by (apply Z.pow_le_mono_r; lia).
  assert (0 <= Z.land (Z.shiftr b k) m < 256).
  { apply land_low_byte. lia. }
  apply Z.bits_inj'. intros i Hi. rewrite Z.land_spec, Z.shiftr_spec, !byte_testbit by lia.
  destruct (Z.ltb_spec i 8).
  - rewrite Z.land_spec, Z.shiftr_spec by lia. destruct (Z.ltb_spec (i + k) 8); [done|].
    by rewrite (testbit_small m (8 - k) i), !andb_false_r by lia.
  - rewrite (proj2 (Z.ltb_ge _ _)) by lia. rewrite Z.land_spec, Z.shiftr_spec by lia.
    do 2 f_equal. lia.
Qed.

Lemma land_bytes b y m M :
  0 <= b < 256 -> 0 <= m < 256 ->
  Z.land (b + 256 * y) (m + 256 * M) = Z.land b m + 256 * Z.land y M.
Proof.
  intros Hb Hm. pose proof (land_shift_bytes 0 b y m M ltac:(lia) Hb Hm) as H.
  by rewrite !Z.shiftr_0_r in H.
Qed.

(** One round of pairwise sums. *)
Definition pair_sum (k m b : Z) : Z := Z.land (Z.shiftr b k) m + Z.land b m.

Lemma pair_sums k m l :
  0 <= k <= 8 -> 0 <= m < 2 ^ (8 - k) -> is_bytes l ->
  let M := le_val (replicate (length l) m) in
  Z.land (Z.shiftr (le_val l) k) M + Z.land (le_val l) M = le_val (map (pair_sum k m) l).
Proof.
  intros Hk Hm Hl. simpl. assert (2 ^ (8 - k) <= 2 ^ 8) by (apply Z.pow_le_mono_r; lia).
  induction Hl as [|b l Hb _ IH]; [by rewrite Z.shiftr_0_l|]. unfold is_byte in Hb.
  cbn [le_val length replicate map]. rewrite land_shift_bytes, land_bytes by lia.
  unfold pair_sum at 1. lia.
Qed.

Definition nibble_sum (b : Z) : Z := (b / 16 + b) mod 16.
Definition small_nibbles (b : Z) : Prop := 0 <= b < 256 /\ b / 16 <= 4 /\ b mod 16 <= 4.

Lemma nibble_sums l :
  Forall small_nibbles l ->
  Z.land (Z.shiftr (le_val l) 4 + le_val l) (le_val (replicate (length l) 15)) =
    le_val (map nibble_sum l).
Proof.
  induction 1 as [|b l (Hb & Hh & Hlo) Hl IH]; [done|]. cbn [le_val length replicate map].
  assert (0 <= le_val l mod 16 <= 4) as Hnext.
  { destruct Hl as [|c l (Hc & _ & Hc4) _]; [by vm_compute|]. cbn [le_val].
    rewrite <- Z.add_mod_idemp_r by lia. replace (256 * le_val l) with (16 * le_val l * 16) by lia.
    rewrite Z.mod_mul by lia. rewrite Z.add_0_r. pose proof (Z.mod_pos_bound c 16). lia. }
  rewrite Z.shiftr_div_pow2 in * by lia. change (2 ^ 4) with 16 in *. set (y := le_val l) in *.
  replace ((b + 256 * y) / 16 + (b + 256 * y)) with
    (b / 16 + b + 16 * (y mod 16) + 256 * (y / 16 + y)).
  2: { assert ((b + 256 * y) / 16 = b / 16 + 16 * y) as ->.
       { replace (b + 256 * y) with (b + (16 * y) * 16) by lia. rewrite Z.div_add; lia. }
       pose proof (Z.div_mod y 16 ltac:(lia)). lia. }
  rewrite land_bytes, IH by zdiv_lia. f_equal. unfold nibble_sum.
  change 15 with (2 ^ 4 - 1). rewrite land_mask by lia. change (2 ^ 4) with 16.
  rewrite Z.mul_comm, Z.mod_add by lia. done.
Qed.

(** The three rounds on one byte. *)
Definition byte_count (b : Z) : Z := nibble_sum (pair_sum 2 0x33 (pair_sum 1 0x55 b)).

Definition byte_count_ok (b : Z) : bool :=
  (byte_count b =? popcount 8 b) && (0 <=? pair_sum 1 0x55 b) && (pair_sum 1 0x55 b <? 256) &&
  (let c := pair_sum 2 0x33 (pair_sum 1 0x55 b) in
   (0 <=? c) && (c <? 256) && (c / 16 <=? 4) && (c mod 16 <=? 4)) && (0 <=? byte_count b) && (byte_count b <=? 8).

Lemma byte_count_spec b :
  is_byte b -> byte_count b = popcount 8 b /\ is_byte (pair_sum 1 0x55 b) /\
    small_nibbles (pair_sum 2 0x33 (pair_sum 1 0x55 b)) /\ 0 <= byte_count b <= 8.
Proof.
  intros Hb. unfold is_byte in *.
  assert (byte_count_ok b = true) as H.
  { apply (seqZ_forallb byte_count_ok 0 256); [vm_compute; reflexivity|lia]. }
  unfold byte_count_ok in H. unfold small_nibbles. cbv zeta in H. bool_to_Prop. lia.
Qed.

Lemma popcount_app n m x : popcount (n + m) x = popcount n x + popcount m (x / 2 ^ Z.of_nat n).
Proof.
  revert x. induction n as [|n IH]; intros x; [simpl; by rewrite Z.div_1_r|].
  cbn [Nat.add popcount]. rewrite IH, Nat2Z.inj_succ, Z.pow_succ_r, Z.div_div by lia. lia.
Qed.

Lemma popcount_mod n x k : (n <= k)%nat -> popcount n (x mod 2 ^ Z.of_nat k) = popcount n x.
Proof.
  revert x k. induction n as [|n IH]; intros x k Hk; [done|]. destruct k as [|k]; [lia|].
  cbn [popcount]. rewrite Nat2Z.inj_succ, Z.pow_succ_r by lia.
  pose proof (pow2_pos (Z.of_nat k) ltac:(lia)).
  rewrite Z.rem_mul_r by lia. f_equal.
  - rewrite <- Z.add_mod_idemp_r, Z.mul_comm, Z.mod_mul, Z.add_0_r, Z.mod_mod by lia. done.
  - rewrite Z.mul_comm, Z.div_add by lia. rewrite (Z.div_small (x mod 2)) by (apply Z.mod_pos_bound; lia).
    rewrite Z.add_0_l. apply IH. lia.
Qed.

Fixpoint sum_list (l : list Z) : Z := match l with [] => 0 | x :: l => x + sum_list l end.

Lemma popcount_bytes n x : popcount (8 * n) x = sum_list (map (popcount 8) (le_bytes n x)).
Proof.
  revert x. induction n as [|n IH]; intros x; [done|].
  replace (8 * S n)%nat with (8 + 8 * n)%nat by lia. rewrite popcount_app, IH. 
  cbn [le_bytes map sum_list]. f_equal. symmetry. apply (popcount_mod 8 x 8). lia.
Qed.

(** The last three rounds add up the eight byte counts. *)
Lemma fold_counts c0 c1 c2 c3 c4 c5 c6 c7 :
  Forall (fun c => 0 <= c <= 8) [c0; c1; c2; c3; c4; c5; c6; c7] ->
  let x := le_val [c0; c1; c2; c3; c4; c5; c6; c7] in
  let x := u64 (x + Z.shiftr x 8) in
  let x := u64 (x + Z.shiftr x 16) in
  let x := u64 (x + Z.shiftr x 32) in
  Z.land x (2 ^ 7 - 1) = sum_list [c0; c1; c2; c3; c4; c5; c6; c7].
Proof.
  rewrite !Forall_cons_iff. intros (? & ? & ? & ? & ? & ? & ? & ? & _). cbv zeta.
  assert (forall d0 d1 d2 d3 d4 d5 d6 d7, Forall (fun d => 0 <= d <= 64) [d0; d1; d2; d3; d4; d5; d6; d7] ->
    let y := le_val [d0; d1; d2; d3; d4; d5; d6; d7] in
    Z.shiftr y 8 = le_val [d1; d2; d3; d4; d5; d6; d7; 0] /\
    Z.shiftr y 16 = le_val [d2; d3; d4; d5; d6; d7; 0; 0] /\
    Z.shiftr y 32 = le_val [d4; d5; d6; d7; 0; 0; 0; 0]) as Hshift.
  { intros d0 d1 d2 d3 d4 d5 d6 d7. rewrite !Forall_cons_iff. intros (? & ? & ? & ? & ? & ? & ? & ? & _).
    cbv zeta. cbn [le_val]. rewrite !Z.shiftr_div_pow2 by lia.
    change (2 ^ 8) with 256. change (2 ^ 16) with 65536. change (2 ^ 32) with 4294967296.
    split_and!; symmetry; [eapply (Z.div_unique_pos _ _ _ d0)|eapply (Z.div_unique_pos _ _ _ (d0 + 256 * d1))|
      eapply (Z.div_unique_pos _ _ _ (d0 + 256 * (d1 + 256 * (d2 + 256 * d3))))]; lia. }
  destruct (Hshift c0 c1 c2 c3 c4 c5 c6 c7) as (-> & _ & _); [rewrite !Forall_cons_iff; split_and!; done || lia|].
  set (a := le_val [c0 + c1; c1 + c2; c2 + c3; c3 + c4; c4 + c5; c5 + c6; c6 + c7; c7]).
  assert (u64 (le_val [c0; c1; c2; c3; c4; c5; c6; c7] + le_val [c1; c2; c3; c4; c5; c6; c7; 0]) = a) as ->.
  { unfold a. rewrite u64_small; cbn [le_val]; lia. }
  destruct (Hshift (c0 + c1) (c1 + c2) (c2 + c3) (c3 + c4) (c4 + c5) (c5 + c6) (c6 + c7) c7) as (_ & Ha & _);
    [rewrite !Forall_cons_iff; split_and!; done || lia|]. fold a in Ha. rewrite Ha.
  set (b := le_val [c0 + c1 + (c2 + c3); c1 + c2 + (c3 + c4); c2 + c3 + (c4 + c5); c3 + c4 + (c5 + c6);
    c4 + c5 + (c6 + c7); c5 + c6 + c7; c6 + c7; c7]).
  assert (u64 (a + le_val [c2 + c3; c3 + c4; c4 + c5; c5 + c6; c6 + c7; c7; 0; 0]) = b) as ->.
  { unfold a, b. rewrite u64_small; cbn [le_val]; lia. }
  destruct (Hshift (c0 + c1 + (c2 + c3)) (c1 + c2 + (c3 + c4)) (c2 + c3 + (c4 + c5)) (c3 + c4 + (c5 + c6))
    (c4 + c5 + (c6 + c7)) (c5 + c6 + c7) (c6 + c7) c7) as (_ & _ & Hb);
    [rewrite !Forall_cons_iff; split_and!; done || lia|]. fold b in Hb. rewrite Hb.
  rewrite u64_small by (unfold b; cbn [le_val]; lia). rewrite land_mask by lia. change (2 ^ 7) with 128.
  symmetry. cbn [sum_list]. unfold b. cbn [le_val].
  eapply (Z.mod_unique_pos _ _ (2 * (c1 + c2 + (c3 + c4) + (c5 + c6 + c7) +
    256 * (c2 + c3 + (c4 + c5) + (c6 + c7) + 256 * (c3 + c4 + (c5 + c6) + c7 +
    256 * (c4 + c5 + (c6 + c7) + 256 * (c5 + c6 + c7 + 256 * (c6 + c7 + 256 * c7)))))))); lia.
Qed.

Lemma OnesCount64_spec x : 0 <= x < 2 ^ 64 -> OnesCount64 x = popcount 64 x.
Proof.
  intros Hx. change 64%nat with (8 * 8)%nat. rewrite popcount_bytes.
  destruct (le_bytes_range 8 x) as [Hb Hl].
  rewrite <- (le_val_bytes 8 x) at 1 by (simpl; lia).
  set (l := le_bytes 8 x) in *. clearbody l. clear x Hx.
  unfold OnesCount64. change (Z.land m0 (2 ^ 64 - 1)) with (le_val (replicate 8 0x55)).
  change (Z.land m1 (2 ^ 64 - 1)) with (le_val (replicate 8 0x33)).
  change (Z.land m2 (2 ^ 64 - 1)) with (le_val (replicate 8 15)). rewrite <- Hl.
  assert (forall f : Z -> Z, length (map f l) = length l) as Hmap by (intros; apply length_map).
  assert (Forall (fun b => is_byte (pair_sum 1 0x55 b) /\ small_nibbles (pair_sum 2 0x33 (pair_sum 1 0x55 b))
    /\ byte_count b = popcount 8 b /\ 0 <= byte_count b <= 8) l) as Hok.
  { eapply List.Forall_impl; [|exact Hb]. intros b Hbb. by destruct (byte_count_spec b Hbb) as (? & ? & ? & ?). }
  rewrite (pair_sums 1 0x55 l ltac:(lia) ltac:(simpl; lia) Hb).
  assert (is_bytes (map (pair_sum 1 0x55) l)) as Hb1.
  { apply Forall_map. eapply List.Forall_impl; [|exact Hok]. by intros b (? & _). }
  rewrite (le_val_u64 _ Hb1) by (by rewrite Hmap). rewrite <- (Hmap (pair_sum 1 0x55)).
  rewrite (pair_sums 2 0x33 _ ltac:(lia) ltac:(simpl; lia) Hb1), map_map.
  set (g := fun b => pair_sum 2 0x33 (pair_sum 1 0x55 b)).
  assert (Forall small_nibbles (map g l)) as Hb2.
  { apply Forall_map. eapply List.Forall_impl; [|exact Hok]. by intros b (_ & ? & _). }
  assert (is_bytes (map g l)) as Hb2'.
  { eapply List.Forall_impl; [|exact Hb2]. by intros b (? & _). }
  rewrite (le_val_u64 _ Hb2') by (by rewrite Hmap). rewrite !Hmap.
  assert (0 <= le_val (replicate (length l) 15) < 2 ^ 64) as Hm by (rewrite Hl; by vm_compute).
  rewrite (land_u64_l _ _ Hm). rewrite <- (Hmap g), nibble_sums, map_map by done. fold byte_count.
  assert (map (fun b => nibble_sum (g b)) l = map (popcount 8) l) as ->.
  { apply map_ext_Forall. eapply List.Forall_impl; [|exact Hok]. by intros b (_ & _ & ? & _). }
  assert (Forall (fun c => 0 <= c <= 8) (map (popcount 8) l)) as Hc.
  { apply Forall_map. eapply List.Forall_impl; [|exact Hok]. by intros b (_ & _ & <- & ?). }
  clear - Hl Hc. do 8 (destruct l as [|? l]; [done|]). destruct l; [|done].
  by apply fold_counts.
Qed.

(** The word routines count what they are named after, for every 64-bit
    word: the de Bruijn multiplication finds the lowest set bit, the halving
    table look-up the highest, and the parallel sums the number of ones. *)
Theorem bit_counts x :
  0 <= x < 2 ^ 64 ->
  OnesCount64 x = popcount 64 x /\ Len64 x = (if x =? 0 then 0 else Z.log2 x + 1) /\
  LeadingZeros64 x = 64 - Len64 x /\
  (if x =? 0 then TrailingZeros64 x = 64
   else 0 <= TrailingZeros64 x < 64 /\ lowest_set x (TrailingZeros64 x)).
Proof.
  intros Hx. split_and!; [by apply OnesCount64_spec|by apply Len64_spec|done|].
  destruct (TrailingZeros64_spec x Hx) as [[-> ->]|[Hr Hs]]; [done|].
  destruct (Z.eqb_spec x 0) as [->|]; [|done]. destruct Hs as [Hs _]. by rewrite Z.bits_0 in Hs.
Qed.

Lemma bit_counts_witness :
  OnesCount64 0xf0f0 = 8 /\ Len64 0xf0f0 = 16 /\ TrailingZeros64 0xf0f0 = 4 /\
  OnesCount64 0xf0f0 = popcount 64 0xf0f0.
Proof.
  split_and!; [vm_compute; reflexivity..|]. apply (bit_counts 0xf0f0). lia.
Defined.
