(* ===== verification/PallocSum.v ===== *)
(** * Page summaries

    [pallocSum] and [mergeSummaries] of [src/memory_and_heap/mpagealloc.go]: for
    a block of pages the number of free pages at its start, the longest run of
    free pages, and the number of free pages at its end, packed into 64 bits.

    The specification is on the block itself, a list of booleans that are true
    for free pages: [summary_of].  Packing loses nothing, and merging the
    summaries of neighbouring blocks gives the summary of their
    concatenation. *)
From S2P Require Import Prelude Bits64.

Local Open Scope Z_scope.
Local Open Scope go_scope.

(** ** The code *)

Definition logPallocChunkPages : Z := 9.
Definition pallocChunkPages : Z := 2 ^ logPallocChunkPages.
Definition summaryLevels : Z := 5.
Definition summaryLevelBits : Z := 3.
Definition logMaxPackedValue : Z := logPallocChunkPages + (summaryLevels - 1) * summaryLevelBits.
Definition maxPackedValue : Z := 2 ^ logMaxPackedValue.

Definition packPallocSum (start max end_ : Z) : Z :=
  if max =? maxPackedValue then 2 ^ 63
  else
    Z.lor (Z.lor (Z.land start (maxPackedValue - 1))
      (shl64 (Z.land max (maxPackedValue - 1)) logMaxPackedValue))
      (shl64 (Z.land end_ (maxPackedValue - 1)) (2 * logMaxPackedValue)).

(** The test [uint64(p)&uint64(1<<63) != 0]. *)
Definition packed_max (p : Z) : bool := negb (Z.land p (2 ^ 63) =? 0).

Definition sum_start (p : Z) : Z :=
  if packed_max p then maxPackedValue else Z.land p (maxPackedValue - 1).
Definition sum_max (p : Z) : Z :=
  if packed_max p then maxPackedValue
  else Z.land (Z.shiftr p logMaxPackedValue) (maxPackedValue - 1).
Definition sum_end (p : Z) : Z :=
  if packed_max p then maxPackedValue
  else Z.land (Z.shiftr p (2 * logMaxPackedValue)) (maxPackedValue - 1).

Definition unpack (p : Z) : Z * Z * Z :=
  if packed_max p then (maxPackedValue, maxPackedValue, maxPackedValue)
  else (Z.land p (maxPackedValue - 1), Z.land (Z.shiftr p logMaxPackedValue) (maxPackedValue - 1),
        Z.land (Z.shiftr p (2 * logMaxPackedValue)) (maxPackedValue - 1)).

Definition freeChunkSum : Z :=
  Z.lor (Z.lor pallocChunkPages (Z.shiftl pallocChunkPages logMaxPackedValue))
    (Z.shiftl pallocChunkPages (2 * logMaxPackedValue)).

(** The loop of [mergeSummaries], from the summary with index [i] on. *)
Fixpoint merge_loop (sums : list Z) (i lg : Z) (acc : Z * Z * Z) : Z * Z * Z :=
  match sums with
  | [] => acc
  | p :: sums =>
      let '(start, max, end_) := acc in
      let '(si, mi, ei) := unpack p in
      let start := if start =? shl64 i lg then u64 (start + si) else start in
      let max := if max <? u64 (end_ + si) then u64 (end_ + si) else max in
      let max := if max <? mi then mi else max in
      let end_ := if ei =? shl64 1 lg then u64 (end_ + shl64 1 lg) else ei in
      merge_loop sums (i + 1) lg (start, max, end_)
  end.

Definition mergeSummaries (sums : list Z) (logMaxPagesPerSum : Z) : res Empty_set Z :=
  match sums with
  | [] => Panic "index out of range"
  | p :: sums =>
      let '(start, max, end_) := merge_loop sums 1 logMaxPagesPerSum (unpack p) in
      Ok (packPallocSum start max end_)
  end.

(** ** Blocks of pages *)

(** Free pages at the start of a block. *)
Fixpoint lead (l : list bool) : Z :=
  match l with true :: l => 1 + lead l | _ => 0 end.
Definition trail (l : list bool) : Z := lead (rev l).
(** The longest run, [run] pages of which have been seen. *)
Fixpoint longest_from (run : Z) (l : list bool) : Z :=
  match l with
  | [] => run
  | true :: l => longest_from (run + 1) l
  | false :: l => Z.max run (longest_from 0 l)
  end.
Definition longest (l : list bool) : Z := longest_from 0 l.

Definition summary_of (l : list bool) : Z * Z * Z := (lead l, longest l, trail l).

Definition pack (s : Z * Z * Z) : Z := let '(start, max, end_) := s in packPallocSum start max end_.

Lemma lead_range l : 0 <= lead l <= len l.
Proof.
  induction l as [|b l IH]; [done|]. rewrite len_cons. pose proof (len_nonneg l).
  destruct b; cbn [lead]; lia.
Qed.

Lemma lead_app a b : lead (a ++ b) = if lead a =? len a then len a + lead b else lead a.
Proof.
  induction a as [|[] a IH]; cbn [app lead]; [done| |].
  - rewrite IH, len_cons. destruct (Z.eqb_spec (lead a) (len a)), (Z.eqb_spec (1 + lead a) (1 + len a)); lia.
  - rewrite len_cons. pose proof (len_nonneg a). by rewrite (proj2 (Z.eqb_neq 0 (1 + len a))) by lia.
Qed.

Lemma len_rev {A} (l : list A) : len (rev l) = len l.
Proof. unfold len. by rewrite length_rev. Qed.

Lemma trail_range l : 0 <= trail l <= len l.
Proof. unfold trail. rewrite <- len_rev. apply lead_range. Qed.

Lemma trail_app a b : trail (a ++ b) = if trail b =? len b then len b + trail a else trail b.
Proof. unfold trail. rewrite rev_app_distr, lead_app, len_rev. done. Qed.

Lemma trail_full_lead l : trail l = len l <-> lead l = len l.
Proof.
  assert (forall l, lead l = len l <-> Forall (fun b => b = true) l) as H.
  { clear. intros l. induction l as [|[] l IH]; cbn [lead]; rewrite ?len_cons.
    - by split.
    - rewrite Forall_cons_iff, <- IH. split; [intros; split; [done|lia]|intros [_ ?]; lia].
    - pose proof (len_nonneg l). rewrite Forall_cons_iff. split; [lia|by intros [? _]]. }
  unfold trail. rewrite <- (len_rev l), H, len_rev, H. split; intros Hl.
  - rewrite <- (rev_involutive l). by apply Forall_rev.
  - by apply Forall_rev.
Qed.

Lemma longest_from_lead run l :
  0 <= run -> longest_from run l = Z.max (run + lead l) (longest l).
Proof.
  unfold longest. revert run. induction l as [|[] l IH]; intros run Hr; cbn [longest_from lead].
  - lia.
  - rewrite (IH (run + 1)), (IH (0 + 1)) by lia. pose proof (lead_range l). lia.
  - assert (0 <= longest_from 0 l) by (rewrite IH by lia; pose proof (lead_range l); lia). lia.
Qed.

Lemma longest_nonneg l : 0 <= longest l.
Proof.
  unfold longest. rewrite longest_from_lead by lia. pose proof (lead_range l).
  lia.
Qed.

Lemma lead_longest l : lead l <= longest l.
Proof. unfold longest at 1. rewrite longest_from_lead by lia. lia. Qed.

Lemma longest_app_from run a b :
  0 <= run ->
  longest_from run (a ++ b) =
    Z.max (longest_from run a)
      (Z.max (longest b) ((if trail a =? len a then run + len a else trail a) + lead b)).
Proof.
  revert run. induction a as [|x a IH]; intros run Hr; cbn [app longest_from].
  - rewrite longest_from_lead by lia. change (trail []) with 0. change (len (@nil bool)) with 0.
    rewrite Z.eqb_refl. pose proof (lead_range b). lia.
  - assert (trail (x :: a) = if trail a =? len a then len a + lead [x] else trail a) as Ht.
    { change (x :: a) with ([x] ++ a). by rewrite trail_app. }
    pose proof (trail_range a). pose proof (len_nonneg a). rewrite Ht, len_cons.
    destruct x; rewrite IH by lia; cbn [lead].
    + destruct (Z.eqb_spec (trail a) (len a)); [by rewrite (proj2 (Z.eqb_eq _ _)) by lia; f_equal; f_equal; lia|].
      rewrite (proj2 (Z.eqb_neq (trail a) (1 + len a))) by lia. done.
    + rewrite <- Z.max_assoc. f_equal.
      destruct (Z.eqb_spec (trail a) (len a)); (rewrite (proj2 (Z.eqb_neq _ (1 + len a))) by lia);
        f_equal; f_equal; lia.
Qed.

(** The three numbers of a concatenation. *)
Lemma longest_app a b : longest (a ++ b) = Z.max (longest a) (Z.max (longest b) (trail a + lead b)).
Proof.
  unfold longest at 1. rewrite longest_app_from by lia.
  destruct (Z.eqb_spec (trail a) (len a)) as [->|]; f_equal; f_equal; lia.
Qed.

(** ** Packing *)

Lemma longest_le l : longest l <= len l.
Proof.
  assert (forall run, 0 <= run -> longest_from run l <= run + len l) as H; [|by apply (H 0)].
  induction l as [|[] l IH]; intros run Hr; cbn [longest_from]; rewrite ?len_cons.
  - unfold len. simpl. lia.
  - specialize (IH (run + 1)). lia.
  - specialize (IH 0). pose proof (len_nonneg l). lia.
Qed.

Lemma longest_full l : longest l = len l -> lead l = len l.
Proof.
  induction l as [|[] l IH]; [done| |].
  - cbn [lead]. rewrite len_cons. intros H. change (true :: l) with ([true] ++ l) in H.
    rewrite longest_app in H. change (longest [true]) with 1 in H. change (trail [true]) with 1 in H.
    pose proof (longest_le l). pose proof (lead_range l). pose proof (len_nonneg l).
    destruct (Z.eq_dec (lead l) (len l)); [lia|].
    destruct (Z.eq_dec (len l) 0); lia.
  - rewrite len_cons. intros H. change (false :: l) with ([false] ++ l) in H.
    rewrite longest_app in H. change (longest [false]) with 0 in H. change (trail [false]) with 0 in H.
    pose proof (longest_le l). pose proof (lead_range l). lia.
Qed.

Lemma trail_longest l : trail l <= longest l.
Proof.
  pose proof (longest_app l []) as H. rewrite app_nil_r in H. change (lead []) with 0 in H. lia.
Qed.

(** A summary that can be packed. *)
Definition sum_ok (s : Z * Z * Z) : Prop :=
  let '(start, max, end_) := s in
  0 <= start <= max /\ 0 <= end_ <= max /\ max <= 2 ^ 21 /\
  (max = 2 ^ 21 -> start = 2 ^ 21 /\ end_ = 2 ^ 21).

Lemma summary_ok l : len l <= 2 ^ 21 -> sum_ok (summary_of l).
Proof.
  intros Hl. pose proof (lead_range l). pose proof (trail_range l). pose proof (lead_longest l).
  pose proof (trail_longest l). pose proof (longest_le l). unfold summary_of, sum_ok. split_and!; try lia; intros Hm.
  pose proof (longest_full l ltac:(lia)) as Hf. pose proof (proj2 (trail_full_lead l) Hf). lia.
Qed.

Lemma max_packed_value : maxPackedValue = 2 ^ 21 /\ logMaxPackedValue = 21.
Proof. done. Qed.

Lemma pack_small start max end_ :
  0 <= start < 2 ^ 21 -> 0 <= max < 2 ^ 21 -> 0 <= end_ < 2 ^ 21 ->
  packPallocSum start max end_ = end_ * 2 ^ 42 + (max * 2 ^ 21 + start).
Proof.
  intros Hs Hm He. unfold packPallocSum. destruct max_packed_value as [-> ->].
  rewrite (proj2 (Z.eqb_neq _ _)) by lia. rewrite !land_mask, !Z.mod_small by lia.
  change (2 * 21) with 42. unfold shl64. rewrite !Z.shiftl_mul_pow2, !u64_small by lia.
  rewrite (Z.lor_comm start), lor_disjoint by lia. rewrite Z.lor_comm, lor_disjoint by lia. done.
Qed.

Lemma unpack_pack s : sum_ok s -> unpack (pack s) = s.
Proof.
  destruct s as [[start max] end_]. intros (Hs & He & Hm & Hfull). unfold pack.
  destruct (Z.eq_dec max (2 ^ 21)) as [Hmax|Hmax].
  - destruct (Hfull Hmax) as [-> ->]. rewrite Hmax. reflexivity.
  - rewrite pack_small by lia. unfold unpack, packed_max. destruct max_packed_value as [-> ->].
    rewrite land_pow2, (testbit_small _ 63 63) by lia. cbn [Z.eqb negb].
    rewrite !land_mask, !Z.shiftr_div_pow2 by lia. change (2 * 21) with 42.
    replace (end_ * 2 ^ 42 + (max * 2 ^ 21 + start)) with ((end_ * 2 ^ 21 + max) * 2 ^ 21 + start) by lia.
    rewrite mod_pow2_add, (div_pow2_add _ start) by lia. rewrite mod_pow2_add by lia.
    replace ((end_ * 2 ^ 21 + max) * 2 ^ 21 + start) with (end_ * 2 ^ 42 + (max * 2 ^ 21 + start)) by lia.
    rewrite div_pow2_add, Z.mod_small by lia. done.
Qed.

(** [start], [max] and [end] read what [packPallocSum] wrote. *)
Lemma sum_accessors p : unpack p = (sum_start p, sum_max p, sum_end p).
Proof. unfold unpack, sum_start, sum_max, sum_end. by destruct (packed_max p). Qed.

(** ** Merging *)

Definition packed (b : list bool) : Z := pack (summary_of b).

Lemma merge_loop_spec lg bs : forall done_ : list bool, forall i : Z,
  0 <= lg -> 0 <= i -> len done_ = i * 2 ^ lg -> Forall (fun b => len b = 2 ^ lg) bs ->
  len done_ + len (concat bs) <= 2 ^ 21 ->
  merge_loop (map packed bs) i lg (summary_of done_) = summary_of (done_ ++ concat bs).
Proof.
  induction bs as [|b bs IH]; intros done_ i Hlg Hi Hdone Hbs Hle; [by rewrite app_nil_r|].
  apply Forall_cons_iff in Hbs as [Hb Hbs]. cbn [map concat merge_loop]. cbn [concat] in Hle.
  rewrite len_app in Hle. pose proof (len_nonneg (concat bs)). pose proof (len_nonneg done_).
  pose proof (pow2_pos lg Hlg).
  unfold packed at 1. rewrite unpack_pack by (apply summary_ok; lia). unfold summary_of at 1 2.
  pose proof (lead_range b). pose proof (lead_range done_). pose proof (trail_range done_).
  pose proof (trail_range b).
  assert (shl64 i lg = len done_ /\ shl64 1 lg = len b) as [-> ->].
  { unfold shl64. rewrite !Z.shiftl_mul_pow2, Z.mul_1_l, !u64_small by lia. lia. }
  rewrite !u64_small by lia.
  assert (longest (done_ ++ b) =
    let m := if longest done_ <? trail done_ + lead b then trail done_ + lead b else longest done_ in
    if m <? longest b then longest b else m) as Hmax.
  { rewrite longest_app. cbv zeta. destruct (Z.ltb_spec (longest done_) (trail done_ + lead b)).
    - destruct (Z.ltb_spec (trail done_ + lead b) (longest b)); lia.
    - destruct (Z.ltb_spec (longest done_) (longest b)); lia. }
  cbv zeta in Hmax. rewrite <- Hmax.
  assert ((if lead done_ =? len done_ then lead done_ + lead b else lead done_) = lead (done_ ++ b)) as ->.
  { rewrite lead_app. destruct (Z.eqb_spec (lead done_) (len done_)); lia. }
  assert ((if trail b =? len b then trail done_ + len b else trail b) = trail (done_ ++ b)) as ->.
  { rewrite trail_app. destruct (Z.eqb_spec (trail b) (len b)); lia. }
  change (lead (done_ ++ b), longest (done_ ++ b), trail (done_ ++ b)) with (summary_of (done_ ++ b)).
  rewrite IH; rewrite ?len_app; try done; try lia. by rewrite <- app_assoc.
Qed.

Lemma merge_packed lg bs :
  bs <> [] -> 0 <= lg -> Forall (fun b => len b = 2 ^ lg) bs -> len (concat bs) <= 2 ^ 21 ->
  mergeSummaries (map packed bs) lg = Ok (packed (concat bs)).
Proof.
  intros Hne Hlg Hbs Hle.
  destruct bs as [|b bs]; [done|]. apply Forall_cons_iff in Hbs as [Hb Hbs].
  cbn [map concat mergeSummaries] in *. rewrite len_app in Hle. pose proof (len_nonneg (concat bs)).
  unfold packed at 2. rewrite unpack_pack by (apply summary_ok; lia).
  rewrite merge_loop_spec by (done || lia). done.
Qed.

(** [mergeSummaries] on the summaries of neighbouring blocks of [2^lg]
    pages gives the summary of the whole: free pages at the start, longest free
    run (also across block boundaries) and free pages at the end, up to the
    [2^21] pages a packed summary can hold. *)
Theorem mergeSummaries_concat lg bs :
  bs <> [] -> 0 <= lg -> Forall (fun b => len b = 2 ^ lg) bs -> len (concat bs) <= 2 ^ 21 ->
  mergeSummaries (map packed bs) lg = Ok (packed (concat bs)) /\
  unpack (packed (concat bs)) = summary_of (concat bs).
Proof. intros Hne Hlg Hbs Hle. split; [by apply merge_packed|apply unpack_pack, summary_ok; lia]. Qed.

Lemma mergeSummaries_concat_witness :
  let a := [true; false; true; true] in let b := [true; true; false; true] in
  mergeSummaries (map packed [a; b]) 2 = Ok (packed (a ++ b)) /\
  unpack (packed (a ++ b)) = (1, 4, 1).
Proof.
  intros a b. destruct (mergeSummaries_concat 2 [a; b]) as [H1 H2]; [done|lia|by repeat constructor|by vm_compute|].
  split; [exact H1|]. exact H2.
Defined.
