(* ===== verification/PageBits.v ===== *)
(** * Page bitmaps

    [src/memory_and_heap/mpallocbits.go]: [pageBits], one bit for each of the
    512 pages of a chunk in eight 64-bit words, and [pallocBits] on top of it.
    In [pallocBits] a set bit means an allocated page.  An index out of the
    array panics. *)
From S2P Require Import Prelude Bits64 PallocSum.

Local Open Scope Z_scope.
Local Open Scope go_scope.

Abbreviation pageBits := (list Z).
#[local] Abbreviation M := (res Empty_set).

Definition notFound : Z := 2 ^ 64 - 1. (* ^uint(0) *)

(** [b[k]] and [b[k] = v] *)
Definition word (b : pageBits) (k : Z) : M Z :=
  match (if (0 <=? k) && (k <? len b) then b !! Z.to_nat k else None) with
  | Some w => Ok w
  | None => Panic "index out of range"
  end.
Definition set_word (b : pageBits) (k v : Z) : M pageBits :=
  let? _ := word b k in Ok (<[Z.to_nat k := v]> b).
Definition upd_word (b : pageBits) (k : Z) (f : Z -> Z) : M pageBits :=
  let? w := word b k in set_word b k (f w).

(** [(uint64(1) << n) - 1] and [^uint64(0) << n] *)
Definition low_ones (n : Z) : Z := u64 (shl64 1 n - 1).
Definition high_ones (n : Z) : Z := shl64 (2 ^ 64 - 1) n.

Definition get (b : pageBits) (i : Z) : M Z :=
  let? w := word b (i / 64) in Ok (Z.land (Z.shiftr w (i mod 64)) 1).

Definition block64 (b : pageBits) (i : Z) : M Z := word b (i / 64).

Definition set_ (b : pageBits) (i : Z) : M pageBits :=
  upd_word b (i / 64) (fun w => Z.lor w (shl64 1 (i mod 64))).

(** [for k := lo; k < hi; k++ { b[k] = v }] *)
Fixpoint fill (n : nat) (b : pageBits) (lo v : Z) : M pageBits :=
  match n with
  | O => Ok b
  | S n => let? b := set_word b lo v in fill n b (lo + 1) v
  end.

(** The case of a single word falls through to the code for several, which
    assigns where it should or. *)
Definition setRange (b : pageBits) (i n : Z) : M pageBits :=
  let? _ := word b (i / 64) in
  if n =? 1 then set_ b i
  else
    let j := u64 (i + n - 1) in
    let? b := (if i / 64 =? j / 64
               then upd_word b (i / 64) (fun w => Z.lor w (shl64 (low_ones n) (i mod 64)))
               else Ok b) in
    let? _ := word b (j / 64) in
    let? b := set_word b (i / 64) (high_ones (i mod 64)) in
    let? b := fill (Z.to_nat (j / 64 - (i / 64 + 1))) b (i / 64 + 1) (2 ^ 64 - 1) in
    set_word b (j / 64) (low_ones (j mod 64 + 1)).

Definition setAll (b : pageBits) : pageBits := map (fun _ => 2 ^ 64 - 1) b.

Definition setBlock64 (b : pageBits) (i v : Z) : M pageBits :=
  upd_word b (i / 64) (fun w => Z.lor w v).

Definition clear_ (b : pageBits) (i : Z) : M pageBits :=
  upd_word b (i / 64) (fun w => Z.ldiff w (shl64 1 (i mod 64))).

(** The loop starts at [i + 1], not at [i/64 + 1]. *)
Definition clearRange (b : pageBits) (i n : Z) : M pageBits :=
  let? _ := word b (i / 64) in
  if n =? 1 then clear_ b i
  else
    let j := u64 (i + n - 1) in
    if i / 64 =? j / 64
    then upd_word b (i / 64) (fun w => Z.ldiff w (shl64 (low_ones n) (i mod 64)))
    else
      let? _ := word b (j / 64) in
      let? b := upd_word b (i / 64) (fun w => Z.ldiff w (high_ones (i mod 64))) in
      let? b := fill (Z.to_nat (j / 64 - (i + 1))) b (i + 1) 0 in
      upd_word b (j / 64) (fun w => Z.ldiff w (low_ones (j mod 64 + 1))).

Definition clearAll (b : pageBits) : pageBits := map (fun _ => 0) b.

Definition clearBlock64 (b : pageBits) (i v : Z) : M pageBits :=
  upd_word b (i / 64) (fun w => Z.ldiff w v).

(** [for k := lo; k < hi; k++ { s += OnesCount64(b[k]) }] *)
Fixpoint count_words (n : nat) (b : pageBits) (lo s : Z) : M Z :=
  match n with
  | O => Ok s
  | S n => let? w := word b lo in count_words n b (lo + 1) (u64 (s + OnesCount64 w))
  end.

(** The fast path reads [b[64/i]]. *)
Definition popcntRange (b : pageBits) (i n : Z) : M Z :=
  if n =? 1 then
    if i =? 0 then Panic "integer divide by zero"
    else let? w := word b (64 / i) in Ok (Z.land (Z.shiftr w (i mod 64)) 1)
  else
    let? wi := word b (i / 64) in
    let j := u64 (i + n - 1) in
    if i / 64 =? j / 64 then Ok (OnesCount64 (Z.land (Z.shiftr wi (i mod 64)) (low_ones n)))
    else
      let? wj := word b (j / 64) in
      let? s := count_words (Z.to_nat (j / 64 - (i / 64 + 1))) b (i / 64 + 1)
                  (OnesCount64 (Z.shiftr wi (i mod 64))) in
      Ok (u64 (s + OnesCount64 (Z.land wj (low_ones (j mod 64 + 1))))).

(** ** [summarize] *)

(** The first loop: [start], [max], [cur]. *)
Fixpoint sum_words (b : pageBits) (start max cur : Z) : Z * Z * Z :=
  match b with
  | [] => (start, max, cur)
  | x :: b =>
      if x =? 0 then sum_words b start max (u64 (cur + 64))
      else
        let t := TrailingZeros64 x in
        let l := LeadingZeros64 x in
        let cur := u64 (cur + t) in
        let start := if start =? notFound then cur else start in
        let max := if max <? cur then cur else max in
        sum_words b start max l
  end.

(** [x&(x+1) == 0] *)
Definition low_run (x : Z) : bool := Z.land x (u64 (x + 1)) =? 0.

(** [for p > 0]: [None] is [continue outer]. *)
Fixpoint shrink (fuel : nat) (x p k : Z) : M (option (Z * Z)) :=
  if p <=? 0 then Ok (Some (x, k))
  else
    match fuel with
    | O => NoFuel
    | S fuel =>
        if p <=? k then
          let x := Z.lor x (Z.shiftr x (Z.land p 63)) in
          if low_run x then Ok None else Ok (Some (x, k))
        else
          let x := Z.lor x (Z.shiftr x (Z.land k 63)) in
          if low_run x then Ok None else shrink fuel x (u64 (p - k)) (u64 (k * 2))
    end.

(** The unbounded loop on one word; the result is [max]. *)
Fixpoint widen (fuel : nat) (x p k max : Z) : M Z :=
  match fuel with
  | O => NoFuel
  | S fuel =>
      let? r := shrink 64 x p k in
      match r with
      | None => Ok max
      | Some (x, k) =>
          let j := TrailingZeros64 (not64 x) in
          let x := Z.shiftr x (Z.land j 63) in
          let j := TrailingZeros64 x in
          let x := Z.shiftr x (Z.land j 63) in
          let max := u64 (max + j) in
          if low_run x then Ok max else widen fuel x j k max
      end
  end.

Definition sum_word (max x : Z) : M Z :=
  let x := Z.shiftr x (Z.land (TrailingZeros64 x) 63) in
  if low_run x then Ok max else widen 65 x max 1 max.

Fixpoint sum_inside (b : pageBits) (max : Z) : M Z :=
  match b with
  | [] => Ok max
  | x :: b => let? max := sum_word max x in sum_inside b max
  end.

Definition summarize (b : pageBits) : M Z :=
  let '(start, max, cur) := sum_words b notFound 0 0 in
  if start =? notFound then
    let n := 64 * len b in Ok (packPallocSum n n n)
  else
    let max := if max <? cur then cur else max in
    if 64 - 2 <=? max then Ok (packPallocSum start max cur)
    else let? max := sum_inside b max in Ok (packPallocSum start max cur).

(** ** [find] *)

(** [p] is decreased in every turn but the last. *)
Fixpoint bit_range_loop (fuel : nat) (c p k : Z) : M (option Z) :=
  if p <=? 0 then Ok (Some c)
  else
    match fuel with
    | O => NoFuel
    | S fuel =>
        if p <=? k then Ok (Some (Z.land c (Z.shiftr c (Z.land p 63))))
        else
          let c := Z.land c (Z.shiftr c (Z.land k 63)) in
          if c =? 0 then Ok None
          else bit_range_loop fuel c (u64 (p - k)) (u64 (k * 2))
    end.

Definition findBitRange64 (c n : Z) : M Z :=
  let? r := bit_range_loop 64 c (u64 (n - 1)) 1 in
  match r with
  | None => Ok 64
  | Some c => Ok (TrailingZeros64 c)
  end.

(** The loops take the words from index [i] on. *)
Fixpoint find1_loop (b : pageBits) (i : Z) : Z :=
  match b with
  | [] => notFound
  | x :: b => if not64 x =? 0 then find1_loop b (i + 1) else i * 64 + TrailingZeros64 (not64 x)
  end.

Definition words_from (b : pageBits) (searchIdx : Z) : pageBits := drop (Z.to_nat (searchIdx / 64)) b.

Definition find1 (b : pageBits) (searchIdx : Z) : Z :=
  find1_loop (words_from b searchIdx) (searchIdx / 64).

Fixpoint findSmallN_loop (b : pageBits) (i npages searchIdx end_ newSearchIdx : Z) : M (Z * Z) :=
  match b with
  | [] => Ok (notFound, newSearchIdx)
  | bi :: b =>
      if not64 bi =? 0 then findSmallN_loop b (i + 1) npages searchIdx 0 newSearchIdx
      else
        let newSearchIdx :=
          if newSearchIdx =? notFound then i * 64 + TrailingZeros64 (not64 bi) else newSearchIdx in
        let start := TrailingZeros64 bi in
        if npages <=? end_ + start then Ok (i * 64 - end_, newSearchIdx)
        else
          let? j := findBitRange64 (not64 bi) npages in
          if j <? 64 then Ok (i * 64 + j, searchIdx)
          else findSmallN_loop b (i + 1) npages searchIdx (LeadingZeros64 bi) newSearchIdx
  end.

Definition findSmallN (b : pageBits) (npages searchIdx : Z) : M (Z * Z) :=
  findSmallN_loop (words_from b searchIdx) (searchIdx / 64) npages searchIdx 0 notFound.

Fixpoint findLargeN_loop (b : pageBits) (i npages start size newSearchIdx : Z) : Z * Z :=
  match b with
  | [] => if size <? npages then (notFound, newSearchIdx) else (start, newSearchIdx)
  | x :: b =>
      if x =? 2 ^ 64 - 1 then findLargeN_loop b (i + 1) npages start 0 newSearchIdx
      else
        let newSearchIdx :=
          if newSearchIdx =? notFound then i * 64 + TrailingZeros64 (not64 x) else newSearchIdx in
        let top := LeadingZeros64 x in
        if size =? 0 then
          findLargeN_loop b (i + 1) npages (i * 64 + 64 - top) top newSearchIdx
        else
          let s := TrailingZeros64 x in
          if npages <=? s + size then (start, newSearchIdx)
          else if s <? 64 then
            findLargeN_loop b (i + 1) npages (i * 64 + 64 - top) top newSearchIdx
          else findLargeN_loop b (i + 1) npages start (size + 64) newSearchIdx
  end.

Definition findLargeN (b : pageBits) (npages searchIdx : Z) : Z * Z :=
  findLargeN_loop (words_from b searchIdx) (searchIdx / 64) npages notFound 0 notFound.

Definition find (b : pageBits) (npages searchIdx : Z) : M (Z * Z) :=
  if npages =? 1 then let addr := find1 b searchIdx in Ok (addr, addr)
  else if npages <=? 64 then findSmallN b npages searchIdx
  else Ok (findLargeN b npages searchIdx).

(** ** [pallocBits] and [pallocData] *)

Definition allocRange (b : pageBits) (i n : Z) : M pageBits := setRange b i n.
Definition allocAll (b : pageBits) : pageBits := setAll b.
Definition pages64 (b : pageBits) (i : Z) : M Z := block64 b i.
Definition allocPages64 (b : pageBits) (i alloc : Z) : M pageBits := setBlock64 b i alloc.

Record pallocData : Type := mkPallocData { pd_bits : pageBits; scavenged : pageBits }.

Definition pallocData_allocRange (m : pallocData) (i n : Z) : M pallocData :=
  let? b := allocRange (pd_bits m) i n in Ok (mkPallocData b (scavenged m)).
Definition pallocData_allocAll (m : pallocData) : pallocData :=
  mkPallocData (allocAll (pd_bits m)) (scavenged m).
