(* ===== verification/PageFind.v ===== *)
(** * Finding free pages

    [findBitRange64] and [find]: the doubling trick finds the first run of
    ones in a word, and the word-wise searches find the first run of free
    pages of a chunk. *)
From S2P Require Import Prelude Bits64 PallocSum PageBits.

Local Open Scope Z_scope.
Local Open Scope go_scope.

(** ** Runs of ones in a word *)

(** Bits [i .. i+n-1] of [c] are set. *)
Definition ones_at (c n i : Z) : Prop := forall t, 0 <= t < n -> Z.testbit c (i + t) = true.

(** [c] after shrinking its runs of ones by [w - 1]. *)
Definition shrunk (c0 w c : Z) : Prop :=
  0 <= c < 2 ^ 64 /\ forall i, 0 <= i -> Z.testbit c i = true <-> ones_at c0 w i.

Lemma land_range x y : 0 <= x < 2 ^ 64 -> 0 <= Z.land x y < 2 ^ 64.
Proof.
  intros Hx. assert (Z.land x y = Z.land x y mod 2 ^ 64) as ->; [|apply Z.mod_pos_bound; lia].
  apply Z.bits_inj'. intros i Hi. destruct (Z.ltb_spec i 64).
  - by rewrite Z.mod_pow2_bits_low by lia.
  - by rewrite Z.mod_pow2_bits_high, Z.land_spec, (testbit_small x 64 i) by lia.
Qed.

Lemma land_63 x : 0 <= x < 64 -> Z.land x 63 = x.
Proof. intros. change 63 with (2 ^ 6 - 1). rewrite land_mask by lia. by apply Z.mod_small. Qed.

Lemma shrunk_step c0 w c s :
  shrunk c0 w c -> 0 < s <= w -> s < 64 -> shrunk c0 (w + s) (Z.land c (Z.shiftr c (Z.land s 63))).
Proof.
  intros [Hr Hb] Hs H64. rewrite land_63 by lia. split; [by apply land_range|].
  intros i Hi. rewrite Z.land_spec, Z.shiftr_spec, andb_true_iff, !Hb by lia. split.
  - intros [H1 H2] t Ht. destruct (Z.ltb_spec t w); [apply H1; lia|].
    replace (i + t) with (i + s + (t - s)) by lia. apply H2. lia.
  - intros H. split; intros t Ht; [apply H; lia|].
    replace (i + s + t) with (i + (s + t)) by lia. apply H. lia.
Qed.

Lemma bit_range_loop_spec fuel c0 c p w :
  shrunk c0 w c -> 0 < w -> 0 <= p < 64 -> (Z.to_nat p <= fuel)%nat ->
  exists r, bit_range_loop fuel c p w = Ok r /\
    match r with
    | Some c' => shrunk c0 (w + p) c'
    | None => forall i, 0 <= i -> ~ ones_at c0 (w + p) i
    end.
Proof.
  revert c p w. induction fuel as [|fuel IH]; intros c p w Hc Hw Hp Hf; cbn [bit_range_loop];
    destruct (Z.leb_spec p 0).
  1,3: assert (p = 0) as -> by lia; rewrite Z.add_0_r; by eexists.
  - lia.
  - destruct (Z.leb_spec p w).
    + eexists. split; [done|]. apply shrunk_step; [done|lia|lia].
    + pose proof (shrunk_step c0 w c w Hc ltac:(lia) ltac:(lia)) as Hc'.
      set (c' := Z.land c (Z.shiftr c (Z.land w 63))) in *. destruct (Z.eqb_spec c' 0) as [Hz|Hz].
      * eexists. split; [done|]. intros i Hi Hall.
        assert (Z.testbit c' i = true) as Ht; [|by rewrite Hz, Z.bits_0 in Ht].
        apply Hc'; [done|]. intros t Ht. apply Hall. lia.
      * rewrite !u64_small by lia.
        destruct (IH c' (p - w) (w * 2)) as (r & Hr & Hspec); [|lia|lia|lia|].
        { replace (w * 2) with (w + w) by lia. exact Hc'. }
        exists r. split; [done|]. by replace (w * 2 + (p - w)) with (w + p) in Hspec by lia.
Qed.

(** The first run of [n] ones, or 64. *)
Lemma findBitRange64_spec c n :
  0 <= c < 2 ^ 64 -> 1 <= n <= 64 ->
  exists r, findBitRange64 c n = Ok r /\
    ((r = 64 /\ forall i, 0 <= i -> ~ ones_at c n i) \/
     (0 <= r < 64 /\ ones_at c n r /\ forall i, 0 <= i < r -> ~ ones_at c n i)).
Proof.
  intros Hc Hn. unfold findBitRange64. rewrite u64_small by lia.
  destruct (bit_range_loop_spec 64 c c (n - 1) 1) as (r & -> & Hr); [|lia..|].
  { split; [done|]. intros i Hi. split.
    - intros Hb t Ht. by replace (i + t) with i by lia.
    - intros Ho. rewrite <- (Z.add_0_r i). apply Ho. lia. }
  replace (1 + (n - 1)) with n in Hr by lia. cbn [res_bind]. destruct r as [c'|].
  - destruct Hr as [Hr Hb]. eexists. split; [done|].
    destruct (TrailingZeros64_spec c' Hr) as [[-> ->]|[Ht [Hs Hl]]].
    + left. split; [done|]. intros i Hi Ho. apply Hb in Ho; [|done]. by rewrite Z.bits_0 in Ho.
    + right. split; [done|]. split; [by apply Hb; [lia|]|].
      intros i Hi Ho. apply Hb in Ho; [|lia]. by rewrite Hl in Ho.
  - eexists. split; [done|]. by left.
Qed.

Lemma not64_spec x i : 0 <= x < 2 ^ 64 ->
  0 <= not64 x < 2 ^ 64 /\ (0 <= i < 64 -> Z.testbit (not64 x) i = negb (Z.testbit x i)) /\
  (not64 x = 0 <-> x = 2 ^ 64 - 1).
Proof.
  intros Hx. unfold not64.
  assert (forall j, 0 <= j < 64 -> Z.testbit (2 ^ 64 - 1) j = true) as H1.
  { intros j Hj. change (2 ^ 64 - 1) with (Z.ones 64). apply Z.ones_spec_low. lia. }
  assert (forall j, 64 <= j -> Z.testbit (2 ^ 64 - 1) j = false) as H2.
  { intros j Hj. change (2 ^ 64 - 1) with (Z.ones 64). apply Z.ones_spec_high. lia. }
  split; [|split].
  - assert (Z.lxor x (2 ^ 64 - 1) = Z.lxor x (2 ^ 64 - 1) mod 2 ^ 64) as ->; [|apply Z.mod_pos_bound; lia].
    apply Z.bits_inj'. intros j Hj. destruct (Z.ltb_spec j 64).
    + by rewrite Z.mod_pow2_bits_low by lia.
    + by rewrite Z.mod_pow2_bits_high, Z.lxor_spec, H2, (testbit_small x 64 j) by lia.
  - intros Hi. rewrite Z.lxor_spec, H1 by done. by destruct (Z.testbit x i).
  - by rewrite Z.lxor_eq_0_iff.
Qed.

(** ** Runs of free pages *)

Section Runs.
Context (free : Z -> Prop) (lo n : Z).

Definition run (p : Z) : Prop := forall q, p <= q < p + n -> free q.

(** [r] starts the first run of [n] free pages from [lo] on. *)
Definition first_fit (r : Z) : Prop := lo <= r /\ run r /\ forall p, lo <= p < r -> ~ run p.

(** The pages [lo .. pos) have been searched: they hold no run, and exactly
    [e] pages before [pos] are free. *)
Record scanned (pos e : Z) : Prop := {
  sc_low : 0 <= e /\ lo <= pos - e;
  sc_free : forall q, pos - e <= q < pos -> free q;
  sc_max : pos - e = lo \/ ~ free (pos - e - 1);
  sc_none : forall p, lo <= p -> p + n <= pos -> ~ run p;
}.

Lemma scanned_start : 0 < n -> scanned lo 0.
Proof. intros Hn. split; [lia|lia|left; lia|lia]. Qed.

Lemma crossing pos e p : scanned pos e -> lo <= p < pos -> run p -> pos - e <= p /\ pos < p + n.
Proof.
  intros [Hlow Hf Hm Hn] Hp Hr.
  destruct (Z.le_gt_cases (p + n) pos) as [Hle|Hgt]; [by destruct (Hn p); [lia|done|]|].
  split; [|done]. destruct (Z.le_gt_cases (pos - e) p) as [|Hlt]; [done|].
  destruct Hm as [Hm|Hm]; [lia|]. destruct Hm. apply Hr. lia.
Qed.

(** A run that ends in the first [t] pages of the next block. *)
Lemma found_across pos e t :
  scanned pos e -> (forall q, pos <= q < pos + t -> free q) -> n <= e + t -> first_fit (pos - e).
Proof.
  intros Hsc Ht Hn. pose proof (sc_low _ _ Hsc). split; [lia|]. split.
  - intros q Hq. destruct (Z.lt_ge_cases q pos); [apply (sc_free _ _ Hsc)|apply Ht]; lia.
  - intros p Hp Hr. pose proof (crossing pos e p Hsc ltac:(lia) Hr). lia.
Qed.

(** The next [w] pages hold no run of their own and the free pages at their
    start do not complete one. *)
Lemma none_before pos e t p :
  scanned pos e -> 0 <= t -> ~ free (pos + t) -> e + t < n -> lo <= p < pos -> ~ run p.
Proof.
  intros Hsc Ht Hf Hn Hp Hr. pose proof (crossing pos e p Hsc Hp Hr) as [H1 H2].
  apply Hf, Hr. lia.
Qed.

Lemma found_inside pos e t r :
  scanned pos e -> 0 <= t -> ~ free (pos + t) -> e + t < n ->
  pos <= r -> run r -> (forall p, pos <= p < r -> ~ run p) -> first_fit r.
Proof.
  intros Hsc Ht Hf Hn Hr Hrun Hfirst. pose proof (sc_low _ _ Hsc). split; [lia|]. split; [done|].
  intros p Hp. destruct (Z.lt_ge_cases p pos); [|apply Hfirst; lia].
  apply (none_before pos e t p Hsc Ht Hf Hn). lia.
Qed.

(** Going on to the next block of [w] pages, whose last [e'] are free. *)
Lemma scanned_next pos e t w e' :
  scanned pos e -> 0 <= t < w -> ~ free (pos + t) -> e + t < n ->
  (forall p, pos <= p -> p + n <= pos + w -> ~ run p) ->
  0 <= e' < w -> (forall q, pos + w - e' <= q < pos + w -> free q) -> ~ free (pos + w - e' - 1) ->
  scanned (pos + w) e'.
Proof.
  intros Hsc Ht Hf Hn Hin He' Hfree Hmax. pose proof (sc_low _ _ Hsc).
  split; [lia|done|by right|]. intros p Hp Hle.
  destruct (Z.lt_ge_cases p pos); [|apply Hin; lia].
  apply (none_before pos e t p Hsc ltac:(lia) Hf Hn). lia.
Qed.

(** A block of free pages that does not complete a run. *)
Lemma scanned_free pos e w :
  scanned pos e -> 0 <= w -> (forall q, pos <= q < pos + w -> free q) -> e + w < n ->
  scanned (pos + w) (e + w).
Proof.
  intros Hsc Hw Hfree Hn. pose proof (sc_low _ _ Hsc).
  replace (pos + w - (e + w)) with (pos - e) in * by lia.
  split; replace (pos + w - (e + w)) with (pos - e) by lia; [lia| |apply (sc_max _ _ Hsc)|].
  - intros q Hq. destruct (Z.lt_ge_cases q pos); [apply (sc_free _ _ Hsc)|apply Hfree]; lia.
  - intros p Hp Hle Hr. destruct (Z.lt_ge_cases p pos).
    + pose proof (crossing pos e p Hsc ltac:(lia) Hr). lia.
    + lia.
Qed.
End Runs.

(** ** Chunks *)

Definition pageBits_ok (b : pageBits) : Prop := length b = 8%nat /\ Forall (fun w => 0 <= w < 2 ^ 64) b.

(** Page [p] of the chunk is free. *)
Definition page_free (b : pageBits) (p : Z) : Prop :=
  exists w, 0 <= p /\ b !! Z.to_nat (p / 64) = Some w /\ Z.testbit w (p mod 64) = false.

Lemma page_free_word pre x b i q :
  i = len pre -> 0 <= q < 64 ->
  page_free (pre ++ x :: b) (i * 64 + q) <-> Z.testbit x q = false.
Proof.
  intros -> Hq. unfold page_free. pose proof (len_nonneg pre).
  replace ((len pre * 64 + q) / 64) with (len pre)
    by (rewrite Z.div_add_l, Z.div_small by lia; lia).
  rewrite Z.add_comm, Z.mod_add, Z.mod_small by lia.
  unfold len in *. rewrite Nat2Z.id, lookup_app_r, Nat.sub_diag by lia. simpl. split.
  - by intros (w & _ & [= ->] & ?).
  - intros ?. exists x. split; [lia|done].
Qed.

Lemma page_free_range b p : page_free b p -> 0 <= p < 64 * len b.
Proof.
  intros (w & Hp & Hw & _). split; [done|]. apply lookup_lt_Some in Hw.
  assert (0 <= p / 64) by (apply Z.div_pos; lia). unfold len.
  pose proof (Z.div_mod p 64 ltac:(lia)). pose proof (Z.mod_pos_bound p 64 ltac:(lia)). lia.
Qed.

(** What the searches promise: no run of [n] free pages from [lo] on, or the
    first one. *)
Definition search_result (b : pageBits) (lo n r : Z) : Prop :=
  (r = notFound /\ forall p, lo <= p -> ~ run (page_free b) n p) \/ first_fit (page_free b) lo n r.

Section Word.
Context (pre : pageBits) (x : Z) (b : pageBits) (i : Z).
Context (Hi : i = len pre) (Hx : 0 <= x < 2 ^ 64).
Notation free := (page_free (pre ++ x :: b)).

Lemma word_free q : 0 <= q < 64 -> free (i * 64 + q) <-> Z.testbit x q = false.
Proof. by apply page_free_word. Qed.

Lemma low_free q : i * 64 <= q < i * 64 + TrailingZeros64 x -> free q.
Proof.
  intros Hq. replace q with (i * 64 + (q - i * 64)) by lia.
  destruct (TrailingZeros64_spec x Hx) as [[E Ht]|[Ht [_ Hl]]]; rewrite word_free by lia.
  - rewrite E. apply Z.bits_0.
  - apply Hl. lia.
Qed.

Lemma low_full : TrailingZeros64 x < 64 -> ~ free (i * 64 + TrailingZeros64 x).
Proof.
  intros Hlt. destruct (TrailingZeros64_spec x Hx) as [[E Ht]|[Ht [Hs _]]]; [lia|].
  rewrite word_free by lia. congruence.
Qed.

Lemma high_free q : i * 64 + 64 - LeadingZeros64 x <= q < i * 64 + 64 -> free q.
Proof.
  intros Hq. replace q with (i * 64 + (q - i * 64)) by lia.
  destruct (LeadingZeros64_spec x Hx) as [[E Ht]|(Ht & _ & Hl)]; rewrite word_free by lia.
  - rewrite E. apply Z.bits_0.
  - apply Hl. lia.
Qed.

Lemma high_full : LeadingZeros64 x < 64 -> ~ free (i * 64 + 64 - LeadingZeros64 x - 1).
Proof.
  intros Hlt. destruct (LeadingZeros64_spec x Hx) as [[E Ht]|(Ht & Hs & _)]; [lia|].
  replace (i * 64 + 64 - LeadingZeros64 x - 1) with (i * 64 + (63 - LeadingZeros64 x)) by lia.
  rewrite word_free by lia. congruence.
Qed.

Lemma counts_range : 0 <= TrailingZeros64 x <= 64 /\ 0 <= LeadingZeros64 x <= 64 /\
  (TrailingZeros64 x = 64 <-> x = 0) /\ (LeadingZeros64 x = 64 <-> x = 0).
Proof.
  destruct (TrailingZeros64_spec x Hx) as [[H1 ->]|[Ht [Hs _]]],
    (LeadingZeros64_spec x Hx) as [[H2 ->]|(Hl & Hs' & _)]; try lia.
  - rewrite H1, Z.bits_0 in Hs'. done.
  - rewrite H2, Z.bits_0 in Hs. done.
  - assert (x <> 0) by (intros ->; by rewrite Z.bits_0 in Hs). lia.
Qed.

Lemma full_word q : x = 2 ^ 64 - 1 -> i * 64 <= q < i * 64 + 64 -> ~ free q.
Proof.
  intros Hf Hq. replace q with (i * 64 + (q - i * 64)) by lia. rewrite word_free by lia.
  rewrite Hf. change (2 ^ 64 - 1) with (Z.ones 64). by rewrite Z.ones_spec_low by lia.
Qed.

Lemma run_ones n p : 0 < n -> i * 64 <= p -> p + n <= i * 64 + 64 ->
  run free n p <-> ones_at (not64 x) n (p - i * 64).
Proof.
  intros Hn Hp Hpn. split.
  - intros Hr t Ht. specialize (Hr (p + t) ltac:(lia)).
    replace (p + t) with (i * 64 + (p - i * 64 + t)) in Hr by lia. rewrite word_free in Hr by lia.
    rewrite (proj1 (proj2 (not64_spec x _ Hx))) by lia. by rewrite Hr.
  - intros Ho q Hq. replace q with (i * 64 + (p - i * 64 + (q - p))) by lia. apply word_free; [lia|].
    specialize (Ho (q - p) ltac:(lia)). rewrite (proj1 (proj2 (not64_spec x _ Hx))) in Ho by lia.
    by destruct (Z.testbit x _).
Qed.
End Word.

Lemma scanned_end b lo n e p :
  scanned (page_free b) lo n (64 * len b) e -> 0 < n -> lo <= p -> ~ run (page_free b) n p.
Proof.
  intros Hsc Hn Hp Hr. destruct (Z.le_gt_cases (p + n) (64 * len b)).
  - by destruct (sc_none _ _ _ _ _ Hsc p).
  - specialize (Hr (p + n - 1) ltac:(lia)). apply page_free_range in Hr. lia.
Qed.

Lemma findSmallN_loop_spec b : forall pre i lo n s e ns,
  i = len pre -> Forall (fun w => 0 <= w < 2 ^ 64) b -> 1 <= n <= 64 -> e < n ->
  scanned (page_free (pre ++ b)) lo n (i * 64) e ->
  exists r ns', findSmallN_loop b i n s e ns = Ok (r, ns') /\ search_result (pre ++ b) lo n r.
Proof.
  induction b as [|x b IH]; intros pre i lo n s e ns Hi Hb Hn He Hsc.
  { eexists _, _. split; [done|]. left. split; [done|]. intros p Hp.
    rewrite app_nil_r in *. apply (scanned_end _ lo n e); [|lia|done]. rewrite <- Hi. by rewrite Z.mul_comm. }
  apply Forall_cons_iff in Hb as [Hx Hb]. cbn [findSmallN_loop].
  assert (i + 1 = len (pre ++ [x])) as Hi' by (rewrite len_app, len_cons, len_nil; lia).
  assert (pre ++ x :: b = (pre ++ [x]) ++ b) as Happ by (by rewrite <- app_assoc).
  pose proof (counts_range x Hx) as (Ht & Hl & Ht0 & Hl0).
  pose proof (not64_spec x 0 Hx) as (Hnr & _ & Hfull).
  destruct (Z.eqb_spec (not64 x) 0) as [Hz|Hz].
  - rewrite Happ. apply (IH _ _ lo); try done; [lia|]. rewrite <- Happ.
    replace ((i + 1) * 64) with (i * 64 + 64) by lia.
    assert (forall q, i * 64 <= q < i * 64 + 64 -> ~ page_free (pre ++ x :: b) q) as Hno
      by (intros q Hq; apply (full_word pre x b i Hi); [by apply Hfull|done]).
    apply (scanned_next _ lo n _ e 0); try done; try lia.
    + apply Hno. lia.
    + intros p Hp Hpn Hr. apply (Hno p); [lia|]. apply Hr. lia.
    + apply Hno. lia.
  - destruct (Z.leb_spec n (e + TrailingZeros64 x)) as [Hc|Hc].
    { eexists _, _. split; [done|]. right. apply (found_across _ lo n _ e (TrailingZeros64 x)); [done| |lia].
      intros q. by apply low_free. }
    assert (TrailingZeros64 x < 64) as Htl by (pose proof (sc_low _ _ _ _ _ Hsc); lia).
    assert (~ page_free (pre ++ x :: b) (i * 64 + TrailingZeros64 x)) as Hnf by (by apply low_full).
    destruct (findBitRange64_spec (not64 x) n Hnr Hn) as (j & -> & Hj). cbn [res_bind].
    destruct Hj as [[-> Hnone]|(Hj & Hones & Hfirst)].
    + simpl Z.ltb. cbv iota. rewrite Happ. apply (IH _ _ lo); try done; [|rewrite <- Happ].
      { destruct (Z.eq_dec (LeadingZeros64 x) 64) as [E|]; [apply Hl0, Ht0 in E; lia|].
        destruct (Z.lt_ge_cases (LeadingZeros64 x) n) as [|Hge]; [done|]. exfalso.
        apply (Hnone (64 - n)); [lia|]. intros t Htt.
        rewrite (proj1 (proj2 (not64_spec x _ Hx))) by lia.
        destruct (LeadingZeros64_spec x Hx) as [[? ?]|(_ & _ & Hz0)]; [lia|]. by rewrite Hz0 by lia. }
      replace ((i + 1) * 64) with (i * 64 + 64) by lia.
      assert (LeadingZeros64 x <> 64) as Hlne by (intros E; apply Hl0, Ht0 in E; lia).
      apply (scanned_next _ lo n _ e (TrailingZeros64 x)); try done; try lia.
      * intros p Hp Hpn Hr. apply (run_ones pre x b i Hi Hx) in Hr; [|lia..]. eapply Hnone; [|exact Hr]. lia.
      * intros q. by apply high_free.
      * apply high_full; [done|done|lia].
    + rewrite (proj2 (Z.ltb_lt j 64)) by lia. eexists _, _. split; [done|]. right.
      assert (forall p, i * 64 <= p < i * 64 + j -> ~ run (page_free (pre ++ x :: b)) n p) as Hbefore.
      { intros p Hp Hr. destruct (Z.le_gt_cases (p + n) (i * 64 + 64)).
        - apply (run_ones pre x b i Hi Hx) in Hr; [|lia..]. eapply Hfirst; [|exact Hr]. lia.
        - assert (j + n <= 64) as Hjn.
          { destruct (Z.le_gt_cases (j + n) 64) as [|Hgt]; [done|].
            specialize (Hones (64 - j) ltac:(lia)). by rewrite (testbit_small (not64 x) 64) in Hones by lia. }
          lia. }
      apply (found_inside _ lo n (i * 64) e (TrailingZeros64 x)); try done; try lia.
      apply (run_ones pre x b i Hi Hx); [lia..| |].
      * destruct (Z.le_gt_cases (j + n) 64) as [|Hgt]; [lia|].
        specialize (Hones (64 - j) ltac:(lia)). by rewrite (testbit_small (not64 x) 64) in Hones by lia.
      * by replace (i * 64 + j - i * 64) with j by lia.
Qed.

Lemma findLargeN_loop_spec b : forall pre i lo n start e ns,
  i = len pre -> Forall (fun w => 0 <= w < 2 ^ 64) b -> 64 < n -> e < n ->
  (0 < e -> start = i * 64 - e) ->
  scanned (page_free (pre ++ b)) lo n (i * 64) e ->
  search_result (pre ++ b) lo n (findLargeN_loop b i n start e ns).1.
Proof.
  induction b as [|x b IH]; intros pre i lo n start e ns Hi Hb Hn He Hst Hsc.
  { cbn [findLargeN_loop]. rewrite (proj2 (Z.ltb_lt _ _)) by lia. left. split; [done|]. intros p Hp.
    rewrite app_nil_r in *. apply (scanned_end _ lo n e); [|lia|done]. rewrite <- Hi. by rewrite Z.mul_comm. }
  apply Forall_cons_iff in Hb as [Hx Hb]. cbn [findLargeN_loop].
  assert (i + 1 = len (pre ++ [x])) as Hi' by (rewrite len_app, len_cons, len_nil; lia).
  assert (pre ++ x :: b = (pre ++ [x]) ++ b) as Happ by (by rewrite <- app_assoc).
  pose proof (counts_range x Hx) as (Ht & Hl & Ht0 & Hl0). pose proof (sc_low _ _ _ _ _ Hsc) as Hlow.
  set (ns' := if ns =? notFound then _ else _).
  (* pages counted from the top of a word that is not free throughout *)
  assert (forall t, 0 <= t < 64 -> ~ page_free (pre ++ x :: b) (i * 64 + t) -> e + t < n ->
    LeadingZeros64 x < 64 ->
    search_result (pre ++ x :: b) lo n
      (findLargeN_loop b (i + 1) n (i * 64 + 64 - LeadingZeros64 x) (LeadingZeros64 x) ns').1) as Hnext.
  { intros t Ht' Hf Het Hlz. rewrite Happ. apply IH; try done; [lia|lia|]. rewrite <- Happ.
    replace ((i + 1) * 64) with (i * 64 + 64) by lia.
    apply (scanned_next _ lo n _ e t); try done; try lia.
    - intros q. by apply high_free.
    - by apply high_full. }
  destruct (Z.eqb_spec x (2 ^ 64 - 1)) as [Hf|Hf].
  { rewrite Happ. apply IH; try done; [lia|]. rewrite <- Happ.
    replace ((i + 1) * 64) with (i * 64 + 64) by lia.
    assert (forall q, i * 64 <= q < i * 64 + 64 -> ~ page_free (pre ++ x :: b) q) as Hno
      by (intros q; by apply full_word).
    apply (scanned_next _ lo n _ e 0); try done; try lia; apply Hno; lia. }
  destruct (Z.eqb_spec e 0) as [->|He0].
  - destruct (Z.eq_dec (LeadingZeros64 x) 64) as [E|Hne].
    + rewrite E, Happ. apply IH; try done; [lia|]. rewrite <- Happ.
      replace ((i + 1) * 64) with (i * 64 + 64) by lia.
      apply (scanned_free _ lo n (i * 64) 0 64); [done|lia| |lia]. intros q Hq. apply (low_free pre x b i Hi Hx).
      assert (TrailingZeros64 x = 64) by (by apply Ht0, Hl0). lia.
    + assert (TrailingZeros64 x <> 64) as Htne by (intros E; by apply Hne, Hl0, Ht0).
      apply (Hnext (TrailingZeros64 x)); [lia| |lia|lia]. apply (low_full pre x b i Hi Hx). lia.
  - destruct (Z.leb_spec n (TrailingZeros64 x + e)) as [Hc|Hc].
    { right. cbn [fst]. rewrite Hst by lia.
      apply (found_across _ lo n _ e (TrailingZeros64 x)); [done| |lia]. intros q. by apply low_free. }
    destruct (Z.ltb_spec (TrailingZeros64 x) 64) as [Htl|Htl].
    + apply (Hnext (TrailingZeros64 x)); [lia| |lia|].
      * apply (low_full pre x b i Hi Hx). lia.
      * assert (LeadingZeros64 x <> 64) by (intros E; apply Hl0, Ht0 in E; lia). lia.
    + rewrite Happ. apply IH; try done; [lia| |].
      * intros _. rewrite Hst by lia. lia.
      * rewrite <- Happ. replace ((i + 1) * 64) with (i * 64 + 64) by lia.
        apply scanned_free; [done|lia| |lia]. intros q Hq. apply (low_free pre x b i Hi Hx). lia.
Qed.

Lemma find1_loop_spec b : forall pre i lo,
  i = len pre -> Forall (fun w => 0 <= w < 2 ^ 64) b ->
  scanned (page_free (pre ++ b)) lo 1 (i * 64) 0 ->
  search_result (pre ++ b) lo 1 (find1_loop b i).
Proof.
  induction b as [|x b IH]; intros pre i lo Hi Hb Hsc.
  { left. split; [done|]. intros p Hp.
    rewrite app_nil_r in *. apply (scanned_end _ lo 1 0); [|lia|done]. rewrite <- Hi. by rewrite Z.mul_comm. }
  apply Forall_cons_iff in Hb as [Hx Hb]. cbn [find1_loop].
  assert (i + 1 = len (pre ++ [x])) as Hi' by (rewrite len_app, len_cons, len_nil; lia).
  assert (pre ++ x :: b = (pre ++ [x]) ++ b) as Happ by (by rewrite <- app_assoc).
  pose proof (not64_spec x 0 Hx) as (Hnr & _ & Hfull). pose proof (sc_low _ _ _ _ _ Hsc) as Hlow.
  destruct (Z.eqb_spec (not64 x) 0) as [Hz|Hz].
  - rewrite Happ. apply IH; try done. rewrite <- Happ.
    replace ((i + 1) * 64) with (i * 64 + 64) by lia.
    assert (forall q, i * 64 <= q < i * 64 + 64 -> ~ page_free (pre ++ x :: b) q) as Hno
      by (intros q Hq; apply (full_word pre x b i Hi); [by apply Hfull|done]).
    apply (scanned_next _ lo 1 _ 0 0); try done; try lia; try (apply Hno; lia).
    intros p Hp Hpn Hr. apply (Hno p); [lia|]. apply Hr. lia.
  - right. destruct (TrailingZeros64_spec (not64 x) Hnr) as [[? _]|[Ht [Hs Hlow']]]; [done|].
    assert (forall q, 0 <= q < 64 -> page_free (pre ++ x :: b) (i * 64 + q) <->
      Z.testbit (not64 x) q = true) as Hfree.
    { intros q Hq. rewrite (page_free_word pre x b i q Hi Hq), (proj1 (proj2 (not64_spec x q Hx))) by done.
      by destruct (Z.testbit x q). }
    split; [lia|]. split.
    + intros q Hq. replace q with (i * 64 + TrailingZeros64 (not64 x)) by lia. by apply Hfree.
    + intros p Hp Hr. destruct (Z.lt_ge_cases p (i * 64)).
      * destruct (sc_none _ _ _ _ _ Hsc p); [lia|lia|done].
      * specialize (Hr p ltac:(lia)). replace p with (i * 64 + (p - i * 64)) in Hr by lia.
        rewrite Hfree, Hlow' in Hr by lia. done.
Qed.

(** C12: [find] is a first-fit search: from the word of [searchIdx] on it
    returns the start of the first run of [npages] free pages of the chunk, also
    when the run crosses words, and [^uint(0)] exactly when there is none. *)
Theorem find_first_fit b npages searchIdx :
  pageBits_ok b -> 1 <= npages -> 0 <= searchIdx < 512 ->
  exists r newSearchIdx, find b npages searchIdx = Ok (r, newSearchIdx) /\
    search_result b (64 * (searchIdx / 64)) npages r.
Proof.
  intros [Hlen Hb] Hn Hs. unfold find.
  set (i := searchIdx / 64).
  assert (0 <= i < 8) as Hi.
  { unfold i. split; [apply Z.div_pos; lia|apply Z.div_lt_upper_bound; lia]. }
  set (pre := take (Z.to_nat i) b).
  assert (i = len pre) as Hpre by (unfold pre, len; rewrite length_take; lia).
  assert (pre ++ words_from b searchIdx = b) as Happ by apply take_drop.
  assert (Forall (fun w => 0 <= w < 2 ^ 64) (words_from b searchIdx)) as Hw by (by apply Forall_drop).
  assert (scanned (page_free (pre ++ words_from b searchIdx)) (64 * i) npages (i * 64) 0) as Hsc.
  { rewrite (Z.mul_comm i). apply scanned_start. lia. }
  destruct (Z.eqb_spec npages 1) as [->|Hne]; [|destruct (Z.leb_spec npages 64)].
  - eexists _, _. split; [done|].
    pose proof (find1_loop_spec (words_from b searchIdx) pre i (64 * i) Hpre Hw Hsc) as Hspec.
    by rewrite Happ in Hspec.
  - destruct (findSmallN_loop_spec (words_from b searchIdx) pre i (64 * i) npages searchIdx 0 notFound)
      as (r & ns & Hr & Hspec); try done; try lia.
    exists r, ns. by rewrite Happ in Hspec.
  - unfold findLargeN. fold i.
    pose proof (findLargeN_loop_spec (words_from b searchIdx) pre i (64 * i) npages notFound 0 notFound
      Hpre Hw ltac:(lia) ltac:(lia) ltac:(lia) Hsc) as Hspec.
    destruct (findLargeN_loop _ _ _ _ _ _) as [r ns]. exists r, ns. by rewrite Happ in Hspec.
Qed.

Lemma find_first_fit_witness :
  let b := [0x0fff; 2 ^ 64 - 1; 1; 0; 0xf0; 0; 0; 0] in
  find b 70 0 = Ok (129, 12) /\
  exists r newSearchIdx, find b 70 0 = Ok (r, newSearchIdx) /\ search_result b 0 70 r.
Proof.
  intros b. split; [vm_compute; reflexivity|].
  apply (find_first_fit b 70 0); [|lia|lia]. split; [done|].
  unfold b. repeat (apply Forall_cons_iff; split; [lia|]). constructor.
Defined.
