(* ===== verification/PageSummary.v ===== *)
(** * Summarizing a chunk

    [summarize] computes the summary of the 512 pages of a chunk: the first
    loop handles the runs that touch word boundaries, the second finds longer
    runs inside words by shrinking all runs of zeros at once. *)
From S2P Require Import Prelude Bits64 PallocSum PageBits PageFind.

Local Open Scope Z_scope.
Local Open Scope go_scope.

(** ** Runs in lists *)

Definition window (l : list bool) (i n : Z) : Prop :=
  forall q, i <= q < i + n -> l !! Z.to_nat q = Some true.

Lemma window_cons b l i n : 0 <= i -> window (b :: l) (i + 1) n <-> window l i n.
Proof.
  intros Hi. split; intros Hw q Hq.
  - specialize (Hw (q + 1) ltac:(lia)). by replace (Z.to_nat (q + 1)) with (S (Z.to_nat q)) in Hw by lia.
  - replace (Z.to_nat q) with (S (Z.to_nat (q - 1))) by lia. apply Hw. lia.
Qed.

Lemma lead_window l n : 0 <= n -> n <= lead l <-> window l 0 n.
Proof.
  revert n. induction l as [|b l IH]; intros n Hn; cbn [lead].
  - split; [intros ? q ?; lia|]. intros Hw. destruct (Z.eq_dec n 0) as [|Hne]; [lia|].
    by specialize (Hw 0 ltac:(lia)).
  - destruct (Z.eq_dec n 0) as [->|Hne].
    { split; [intros ? q ?; lia|]. pose proof (lead_range l). destruct b; lia. }
    assert (window (b :: l) 0 n <-> b = true /\ window l 0 (n - 1)) as Hw.
    { rewrite <- (window_cons b l 0) by lia. split.
      - intros Hw. split; [specialize (Hw 0 ltac:(lia)); simpl in Hw; congruence|intros q Hq; apply Hw; lia].
      - intros [-> Hw] q Hq. destruct (Z.eq_dec q 0) as [->|]; [done|]. apply Hw. lia. }
    rewrite Hw. destruct b.
    + rewrite <- IH by lia. split; [intros; split; [done|lia]|intros [_ ?]; lia].
    + split; [lia|by intros [? _]].
Qed.

Lemma longest_cons b l : longest (b :: l) = Z.max (lead (b :: l)) (longest l).
Proof.
  unfold longest at 1. pose proof (lead_range l). pose proof (longest_nonneg l).
  destruct b; cbn [longest_from lead]; [rewrite longest_from_lead by lia; lia|].
  change (longest_from 0 l) with (longest l). lia.
Qed.

Lemma longest_window l n : 0 < n -> n <= longest l <-> exists i, 0 <= i /\ window l i n.
Proof.
  intros Hn. induction l as [|b l IH].
  - split; [unfold longest; simpl; lia|]. intros (i & Hi & Hw). by specialize (Hw i ltac:(lia)).
  - rewrite longest_cons. split.
    + intros Hle. destruct (Z.le_gt_cases n (lead (b :: l))) as [Hl|Hl].
      * exists 0. split; [lia|]. apply lead_window; [lia|done].
      * destruct (proj1 IH ltac:(lia)) as (i & Hi & Hw). exists (i + 1). split; [lia|]. by apply window_cons.
    + intros (i & Hi & Hw). destruct (Z.eq_dec i 0) as [->|Hne].
      * apply lead_window in Hw; lia.
      * enough (n <= longest l) by lia. apply IH. exists (i - 1). split; [lia|].
        apply (window_cons b); [lia|]. by replace (i - 1 + 1) with i by lia.
Qed.

(** ** The pages of a word *)

(** The [n] pages from bit [k] of [x] on. *)
Definition pages_of (x k n : Z) : list bool := map (fun i => negb (Z.testbit x i)) (seqZ k n).
Definition word_pages (x : Z) : list bool := pages_of x 0 64.
Definition page_list (b : pageBits) : list bool := concat (map word_pages b).

Lemma pages_of_len x k n : 0 <= n -> len (pages_of x k n) = n.
Proof. intros. unfold pages_of, len. rewrite length_map, length_seqZ. lia. Qed.

Lemma pages_of_lookup x k n q :
  0 <= q < n -> pages_of x k n !! Z.to_nat q = Some (negb (Z.testbit x (k + q))).
Proof.
  intros Hq. unfold pages_of. rewrite list_lookup_fmap, lookup_seqZ_lt by lia. simpl.
  do 3 f_equal. lia.
Qed.

Lemma pages_of_app x k n m : 0 <= n -> 0 <= m -> pages_of x k (n + m) = pages_of x k n ++ pages_of x (k + n) m.
Proof. intros. unfold pages_of. by rewrite seqZ_app, map_app by lia. Qed.

Lemma pages_of_one x k : pages_of x k 1 = [negb (Z.testbit x k)].
Proof. unfold pages_of. rewrite seqZ_cons by lia. by rewrite seqZ_nil. Qed.

Lemma pages_of_free x k n : 0 <= n -> (forall i, k <= i < k + n -> Z.testbit x i = false) ->
  pages_of x k n = replicate (Z.to_nat n) true.
Proof.
  intros Hn Hf. apply list_eq. intros q. destruct (Nat.lt_ge_cases q (Z.to_nat n)).
  - rewrite lookup_replicate_2 by done. replace q with (Z.to_nat (Z.of_nat q)) by lia.
    rewrite pages_of_lookup, Hf by lia. done.
  - rewrite !lookup_ge_None_2; [done|by rewrite length_replicate|].
    pose proof (pages_of_len x k n Hn). unfold len in *. lia.
Qed.

Lemma len_replicate {A} n (x : A) : len (replicate n x) = Z.of_nat n.
Proof. unfold len. by rewrite length_replicate. Qed.
Lemma lead_replicate n : lead (replicate n true) = Z.of_nat n.
Proof. induction n as [|n IH]; [done|]. cbn [replicate lead]. lia. Qed.
Lemma trail_replicate n : trail (replicate n true) = Z.of_nat n.
Proof. 
  pose proof (proj2 (trail_full_lead (replicate n true))) as H. rewrite lead_replicate in H.
  unfold len in H. rewrite length_replicate in H. by apply H.
Qed.
Lemma longest_replicate n : longest (replicate n true) = Z.of_nat n.
Proof.
  pose proof (lead_longest (replicate n true)). pose proof (longest_le (replicate n true)).
  rewrite lead_replicate in *. unfold len in *. rewrite length_replicate in *. lia.
Qed.

(** What lies between the lowest and the highest set bit of a word. *)
Definition core (x : Z) : list bool :=
  let t := TrailingZeros64 x in pages_of x t (64 - LeadingZeros64 x - t).

Lemma word_pages_split x :
  0 <= x < 2 ^ 64 -> x <> 0 ->
  word_pages x = replicate (Z.to_nat (TrailingZeros64 x)) true ++ core x
    ++ replicate (Z.to_nat (LeadingZeros64 x)) true /\
  0 <= TrailingZeros64 x < 64 - LeadingZeros64 x /\ LeadingZeros64 x < 64 /\
  lead (core x) = 0 /\ trail (core x) = 0 /\ longest (core x) <= 62.
Proof.
  intros Hx Hne. destruct (TrailingZeros64_spec x Hx) as [[? _]|[Ht [Hs Hl]]]; [done|].
  destruct (LeadingZeros64_spec x Hx) as [[? _]|(Hlz & Hs' & Hh)]; [done|].
  set (t := TrailingZeros64 x) in *. set (z := LeadingZeros64 x) in *.
  assert (t <= 63 - z) as Htz.
  { destruct (Z.le_gt_cases t (63 - z)) as [|Hgt]; [done|]. by rewrite Hh in Hs by lia. }
  assert (core x = [false] ++ pages_of x (t + 1) (63 - z - t)) as Hfirst.
  { unfold core. fold t z. replace (64 - z - t) with (1 + (63 - z - t)) by lia.
    rewrite pages_of_app by lia. f_equal. by rewrite pages_of_one, Hs. }
  assert (core x = pages_of x t (63 - z - t) ++ [false]) as Hlast.
  { unfold core. fold t z. replace (64 - z - t) with ((63 - z - t) + 1) by lia.
    rewrite pages_of_app by lia. f_equal. rewrite pages_of_one.
    replace (t + (63 - z - t)) with (63 - z) by lia. by rewrite Hs'. }
  split_and!; try lia.
  - unfold word_pages, core. fold t z. replace 64 with (t + ((64 - z - t) + z)) at 1 by lia.
    rewrite !pages_of_app by lia. f_equal; [apply pages_of_free; [lia|]; intros i Hi; apply Hl; lia|].
    f_equal. apply pages_of_free; [lia|]. intros i Hi. apply Hh. lia.
  - by rewrite Hfirst.
  - rewrite Hlast. by rewrite trail_app.
  - destruct (Z.eq_dec t (63 - z)) as [E|Htz'].
    { rewrite Hfirst. replace (63 - z - t) with 0 by lia. vm_compute. discriminate. }
    assert (core x = [false] ++ pages_of x (t + 1) (62 - z - t) ++ [false]) as ->.
    { rewrite Hfirst. f_equal. replace (63 - z - t) with ((62 - z - t) + 1) by lia.
      rewrite pages_of_app by lia. f_equal. rewrite pages_of_one.
      replace (t + 1 + (62 - z - t)) with (63 - z) by lia. by rewrite Hs'. }
    rewrite !longest_app. pose proof (longest_le (pages_of x (t + 1) (62 - z - t))) as Hle.
    rewrite pages_of_len in Hle by lia. pose proof (trail_range (pages_of x (t + 1) (62 - z - t))) as Htr.
    pose proof (lead_range (pages_of x (t + 1) (62 - z - t))) as Hlr. rewrite pages_of_len in Htr, Hlr by lia.
    rewrite lead_app. change (lead [false]) with 0. change (longest [false]) with 0. change (trail [false]) with 0.
    rewrite pages_of_len by lia. destruct (_ =? _); lia.
Qed.

(** ** The first loop *)

Lemma word_counts x : 0 <= x < 2 ^ 64 ->
  lead (word_pages x) = TrailingZeros64 x /\ trail (word_pages x) = LeadingZeros64 x /\
  longest (word_pages x) = (if x =? 0 then 64
    else Z.max (longest (core x)) (Z.max (TrailingZeros64 x) (LeadingZeros64 x))) /\
  len (word_pages x) = 64.
Proof.
  intros Hx. assert (len (word_pages x) = 64) as Hlen by (by apply pages_of_len).
  destruct (Z.eqb_spec x 0) as [->|Hne].
  - assert (word_pages 0 = replicate 64 true) as -> by reflexivity. by vm_compute.
  - destruct (word_pages_split x Hx Hne) as (Hw & Ht & Hl & Hcl & Hct & _). rewrite Hw in *.
    pose proof (counts_range x Hx) as (_ & Hz & _).
    assert (len (core x) <> 0) as Hc0.
    { intros E. rewrite !len_app, E in Hlen. unfold len in Hlen. rewrite !length_replicate in Hlen. lia. }
    pose proof (len_nonneg (core x)). pose proof (longest_nonneg (core x)).
    split_and!; [| | |done].
    + rewrite lead_app, lead_replicate, len_replicate, Z.eqb_refl.
      rewrite lead_app, Hcl. rewrite (proj2 (Z.eqb_neq 0 (len (core x)))) by lia. lia.
    + rewrite app_assoc, trail_app, trail_replicate, len_replicate, Z.eqb_refl.
      rewrite trail_app, Hct. rewrite (proj2 (Z.eqb_neq 0 (len (core x)))) by lia. lia.
    + rewrite !longest_app, !longest_replicate, trail_replicate, lead_app, Hcl, Hct, lead_replicate.
      rewrite (proj2 (Z.eqb_neq 0 (len (core x)))) by lia. lia.
Qed.

(** The longest run strictly inside a word. *)
Fixpoint inner (b : pageBits) : Z :=
  match b with
  | [] => 0
  | x :: b => Z.max (if x =? 0 then 0 else longest (core x)) (inner b)
  end.

Lemma inner_le b : Forall (fun w => 0 <= w < 2 ^ 64) b -> 0 <= inner b <= 62.
Proof.
  induction 1 as [|x b Hx _ IH]; cbn [inner]; [lia|].
  destruct (Z.eqb_spec x 0); [lia|]. pose proof (longest_nonneg (core x)).
  destruct (word_pages_split x Hx) as (_ & _ & _ & _ & _ & ?); [done|]. lia.
Qed.

(** [l]: the pages of the words done, [c] the longest run inside them. *)
Definition sum_state (l : list bool) (start max cur c : Z) : Prop :=
  start = (if lead l =? len l then notFound else lead l) /\ cur = trail l /\
  0 <= max /\ longest l = Z.max (Z.max max cur) c.

Lemma sum_words_spec b : forall l start max cur c,
  Forall (fun w => 0 <= w < 2 ^ 64) b -> len l + 64 * len b <= 2 ^ 32 -> 0 <= c ->
  sum_state l start max cur c ->
  let '(start', max', cur') := sum_words b start max cur in
  sum_state (l ++ page_list b) start' max' cur' (Z.max c (inner b)).
Proof.
  induction b as [|x b IH]; intros l start max cur c Hb Hlen Hc (Hst & Hcur & Hm & Hlong).
  { cbn [sum_words]. unfold page_list. cbn [map concat inner]. rewrite app_nil_r.
    split_and!; try done. lia. }
  apply Forall_cons_iff in Hb as [Hx Hb]. rewrite len_cons in Hlen. cbn [sum_words].
  destruct (word_counts x Hx) as (Hwl & Hwt & Hwm & Hwn).
  pose proof (counts_range x Hx) as (Ht & Hlz & Ht0 & Hl0).
  pose proof (len_nonneg l). pose proof (len_nonneg b). pose proof (lead_range l). pose proof (trail_range l).
  assert (l ++ page_list (x :: b) = (l ++ word_pages x) ++ page_list b) as ->.
  { unfold page_list. cbn [map concat]. by rewrite app_assoc. }
  assert (len (l ++ word_pages x) = len l + 64) as Hlen' by (by rewrite len_app, Hwn).
  destruct (Z.eqb_spec x 0) as [->|Hne].
  - cbn [inner]. rewrite Z.eqb_refl.
    replace (Z.max c (Z.max 0 (inner b))) with (Z.max c (inner b)) by lia.
    assert (lead (word_pages 0) = 64 /\ trail (word_pages 0) = 64) as [H64 H64'] by (split; vm_compute; reflexivity).
    apply IH; [done|lia|done|]. unfold sum_state. rewrite lead_app, trail_app, longest_app, Hwm, Hlen', Hwn, H64, H64'.
    rewrite Z.eqb_refl, u64_small by lia. split_and!; try lia.
    rewrite Hst. destruct (Z.eqb_spec (lead l) (len l)) as [E|E].
    + by rewrite (proj2 (Z.eqb_eq _ _)) by lia.
    + by rewrite (proj2 (Z.eqb_neq _ _)) by lia.
  - assert (TrailingZeros64 x < 64 /\ LeadingZeros64 x < 64) as [Htl Hll] by lia.
    rewrite u64_small by lia. cbn [inner]. rewrite (proj2 (Z.eqb_neq x 0)) by done.
    rewrite Z.max_assoc. pose proof (longest_nonneg (core x)).
    apply IH; [done|lia|lia|]. unfold sum_state.
    rewrite lead_app, trail_app, longest_app, Hwm, Hlen', Hwn, Hwl, Hwt.
    rewrite (proj2 (Z.eqb_neq (LeadingZeros64 x) 64)) by lia.
    split_and!; [|done| |].
    + rewrite Hst. destruct (Z.eqb_spec (lead l) (len l)) as [E|E].
      * rewrite Z.eqb_refl. assert (trail l = len l) as E' by (by apply trail_full_lead).
        rewrite (proj2 (Z.eqb_neq _ _)) by lia. lia.
      * unfold notFound. rewrite !(proj2 (Z.eqb_neq _ _)) by lia. done.
    + destruct (Z.ltb_spec max (cur + TrailingZeros64 x)); lia.
    + destruct (Z.ltb_spec max (cur + TrailingZeros64 x)); lia.
Qed.

(** ** Runs of zeros inside a word *)

(** [n] zero bits of [x] from [i] on, below a set bit. *)
Definition gap (x i n : Z) : Prop := 0 <= i /\ i + n <= Z.log2 x /\ forall t, 0 <= t < n -> Z.testbit x (i + t) = false.

(** [y] is [x] with every run of zeros shrunk by [m]: a zero is left where
    [m + 1] zeros of [x] start. *)
Definition smear (x m y : Z) : Prop :=
  0 < y < 2 ^ 64 /\ forall i, 0 <= i -> Z.testbit y i = true <-> exists t, 0 <= t <= m /\ Z.testbit x (i + t) = true.

Lemma lor_range x y : 0 <= x < 2 ^ 64 -> 0 <= y < 2 ^ 64 -> 0 <= Z.lor x y < 2 ^ 64.
Proof.
  intros Hx Hy. assert (Z.lor x y = Z.lor x y mod 2 ^ 64) as ->; [|apply Z.mod_pos_bound; lia].
  apply Z.bits_inj'. intros i Hi. destruct (Z.ltb_spec i 64).
  - by rewrite Z.mod_pow2_bits_low by lia.
  - by rewrite Z.mod_pow2_bits_high, Z.lor_spec, (testbit_small x 64 i), (testbit_small y 64 i) by lia.
Qed.

Lemma shiftr_range x k : 0 <= x < 2 ^ 64 -> 0 <= k -> 0 <= Z.shiftr x k < 2 ^ 64.
Proof.
  intros Hx Hk. rewrite Z.shiftr_div_pow2 by lia. pose proof (pow2_pos k Hk).
  split; [apply Z.div_pos; lia|]. apply Z.div_lt_upper_bound; [lia|]. nia.
Qed.

Lemma smear_step x m y k :
  smear x m y -> 0 < k <= m + 1 -> 0 <= m -> smear x (m + k) (Z.lor y (Z.shiftr y k)).
Proof.
  intros [Hr Hy] Hk Hm. split.
  - pose proof (lor_range y (Z.shiftr y k) ltac:(lia) (shiftr_range y k ltac:(lia) ltac:(lia))) as Hl.
    enough (Z.lor y (Z.shiftr y k) <> 0) by lia. intros H0. apply Z.lor_eq_0_iff in H0. lia.
  - intros i Hi. rewrite Z.lor_spec, Z.shiftr_spec, orb_true_iff, !Hy by lia. split.
    + intros [(t & Ht & Hb)|(t & Ht & Hb)]; [by exists t; split; [lia|]|].
      exists (k + t). split; [lia|]. by replace (i + (k + t)) with (i + k + t) by lia.
    + intros (t & Ht & Hb). destruct (Z.le_gt_cases t m); [left; by exists t; split; [lia|]|right].
      exists (t - k). split; [lia|]. by replace (i + k + (t - k)) with (i + t) by lia.
Qed.

Lemma smear_log2 x m y : 0 < x -> 0 <= m -> smear x m y -> Z.log2 y = Z.log2 x.
Proof.
  intros Hx Hm [Hr Hy]. pose proof (Z.log2_nonneg x). pose proof (Z.log2_nonneg y).
  assert (Z.testbit y (Z.log2 x) = true) as H1.
  { apply Hy; [lia|]. exists 0. rewrite Z.add_0_r. split; [lia|]. apply Z.bit_log2. lia. }
  assert (Z.testbit y (Z.log2 y) = true) as H2 by (apply Z.bit_log2; lia).
  apply Hy in H2 as (t & Ht & Hb); [|lia].
  assert (Z.log2 y + t <= Z.log2 x).
  { destruct (Z.le_gt_cases (Z.log2 y + t) (Z.log2 x)); [done|]. by rewrite Z.bits_above_log2 in Hb by lia. }
  assert (Z.log2 x <= Z.log2 y).
  { destruct (Z.le_gt_cases (Z.log2 x) (Z.log2 y)); [done|]. by rewrite Z.bits_above_log2 in H1 by lia. }
  lia.
Qed.

(** [x & (x+1) == 0]: no zero below the highest one. *)
Lemma low_run_spec y : 0 < y < 2 ^ 64 -> low_run y = true <-> forall i, 0 <= i <= Z.log2 y -> Z.testbit y i = true.
Proof.
  intros Hy. unfold low_run. rewrite Z.eqb_eq, land_u64 by lia.
  pose proof (Z.log2_nonneg y) as Hn. pose proof (Z.log2_spec y ltac:(lia)) as Hlog.
  pose proof (Z.bit_log2 y ltac:(lia)) as Htop.
  assert (forall i, Z.log2 y < i -> Z.testbit y i = false) as Habove
    by (intros i Hi; apply Z.bits_above_log2; lia).
  remember (Z.log2 y) as n eqn:En. clear En. rewrite Z.pow_succ_r in Hlog by lia.
  pose proof (pow2_pos n Hn). split.
  - intros H0. destruct (Z.eq_dec y (2 * 2 ^ n - 1)) as [E|Hne].
    + intros i Hi. rewrite E, <- Z.pow_succ_r, Z.sub_1_r, <- Z.ones_equiv by lia. apply Z.ones_spec_low. lia.
    + exfalso. assert (Z.testbit (Z.land y (y + 1)) n = true) as Hb; [|by rewrite H0, Z.bits_0 in Hb].
      rewrite Z.land_spec, Htop. simpl.
      assert (Z.log2 (y + 1) = n) as <-; [|apply Z.bit_log2; lia].
      apply Z.log2_unique; [lia|]. rewrite Z.pow_succ_r by lia. lia.
  - intros Hall. assert (y = Z.ones (Z.succ n)) as ->.
    { apply Z.bits_inj'. intros i Hi. destruct (Z.le_gt_cases i n).
      - rewrite Hall, Z.ones_spec_low by lia. done.
      - rewrite Z.ones_spec_high by lia. by apply Habove. }
    rewrite Z.ones_equiv. replace (Z.pred (2 ^ Z.succ n) + 1) with (2 ^ Z.succ n) by lia.
    rewrite land_pow2 by lia. rewrite <- Z.ones_equiv, Z.ones_spec_high by lia. done.
Qed.

Lemma smear_low_run x m y : 0 < x -> 0 <= m -> smear x m y ->
  low_run y = true <-> forall i, ~ gap x i (m + 1).
Proof.
  intros Hx Hm Hs. pose proof (smear_log2 x m y Hx Hm Hs) as Hlog. destruct Hs as [Hr Hy].
  rewrite low_run_spec, Hlog by done. split.
  - intros Hall i (Hi & Hle & Hz). specialize (Hall i ltac:(lia)). apply Hy in Hall as (t & Ht & Hb); [|lia].
    by rewrite Hz in Hb by lia.
  - intros Hno i Hi. destruct (Z.testbit y i) eqn:E; [done|]. exfalso.
    assert (forall t, 0 <= t <= m -> Z.testbit x (i + t) = false) as Hz.
    { intros t Ht. destruct (Z.testbit x (i + t)) eqn:Et; [|done].
      rewrite (proj2 (Hy i ltac:(lia))) in E; [done|]. by exists t. }
    apply (Hno i). split; [lia|]. split; [|intros t Ht; apply Hz; lia].
    destruct (Z.le_gt_cases (i + (m + 1)) (Z.log2 x)); [done|].
    specialize (Hz (Z.log2 x - i) ltac:(lia)). replace (i + (Z.log2 x - i)) with (Z.log2 x) in Hz by lia.
    by rewrite Z.bit_log2 in Hz by lia.
Qed.

Lemma gap_le x i n n' : gap x i n -> 0 <= n' <= n -> gap x i n'.
Proof. intros (Hi & Hl & Hz) Hn. split; [done|]. split; [lia|]. intros t Ht. apply Hz. lia. Qed.

Lemma smear_self x : 0 < x < 2 ^ 64 -> smear x 0 x.
Proof.
  intros Hx. split; [done|]. intros i Hi. split.
  - intros Hb. exists 0. split; [lia|]. by rewrite Z.add_0_r.
  - intros (t & Ht & Hb). by replace (i + t) with i in Hb by lia.
Qed.

Lemma shrink_spec fuel x : forall m y p k,
  0 < x -> 0 <= m -> smear x m y -> 0 < k <= m + 1 -> 0 <= p < 64 -> (Z.to_nat p <= fuel)%nat ->
  exists r, shrink fuel y p k = Ok r /\
    match r with
    | None => forall i, ~ gap x i (m + p + 1)
    | Some (y', k') => smear x (m + p) y' /\ 0 < k' <= m + p + 1 /\
        (if p =? 0 then y' = y else low_run y' = false)
    end.
Proof.
  induction fuel as [|fuel IH]; intros m y p k Hx Hm Hs Hk Hp Hf; cbn [shrink]; destruct (Z.leb_spec p 0).
  1,3: assert (p = 0) as -> by lia; rewrite Z.add_0_r; by eexists.
  - lia.
  - rewrite (proj2 (Z.eqb_neq p 0)) by lia. destruct (Z.leb_spec p k).
    + rewrite land_63 by lia. pose proof (smear_step x m y p Hs ltac:(lia) Hm) as Hs'.
      destruct (low_run _) eqn:E; eexists; (split; [done|]); cbv beta iota.
      * exact (proj1 (smear_low_run x (m + p) _ Hx ltac:(lia) Hs') E).
      * split; [done|]. split; [lia|done].
    + rewrite land_63 by lia. pose proof (smear_step x m y k Hs ltac:(lia) Hm) as Hs'.
      destruct (low_run _) eqn:E.
      * eexists. split; [done|]. cbv beta iota. intros i Hg.
        apply (proj1 (smear_low_run x (m + k) _ Hx ltac:(lia) Hs') E i).
        apply (gap_le x i (m + p + 1)); [done|lia].
      * rewrite !u64_small by lia.
        destruct (IH (m + k) (Z.lor y (Z.shiftr y k)) (p - k) (k * 2)) as (r & Hr & Hspec); try done; try lia.
        exists r. split; [done|]. rewrite (proj2 (Z.eqb_neq (p - k) 0)) in Hspec by lia.
        by replace (m + k + (p - k)) with (m + p) in Hspec by lia.
Qed.

(** The lowest run of zeros of [y] that is left, and what it says of [x]. *)
Lemma lowest_gap x M y :
  0 < x < 2 ^ 64 -> 0 <= M -> smear x M y -> low_run y = false ->
  let j := TrailingZeros64 (not64 y) in
  let y1 := Z.shiftr y (Z.land j 63) in
  let j2 := TrailingZeros64 y1 in
  let y2 := Z.shiftr y1 (Z.land j2 63) in
  let x' := Z.shiftr x (j + j2) in
  1 <= j2 < 64 /\ gap x j (M + j2) /\ 0 < x' < 2 ^ 64 /\ smear x' M y2 /\
  (forall i n, gap x i n -> n <= M + j2 \/ exists i', gap x' i' n) /\
  (forall i n, gap x' i n -> gap x (i + (j + j2)) n).
Proof.
  intros Hx HM Hs Hlow j y1 j2 y2 x'. pose proof (smear_log2 x M y ltac:(lia) HM Hs) as Hlog.
  destruct Hs as [Hr Hy].
  pose proof (not64_spec y 0 ltac:(lia)) as (Hnr & _ & Hfull).
  assert (forall i, 0 <= i < 64 -> Z.testbit (not64 y) i = negb (Z.testbit y i)) as Hneg
    by (intros i; apply not64_spec; lia).
  assert (Z.log2 y < 64) as Hlog64 by (apply Z.log2_lt_pow2; lia). pose proof (Z.log2_nonneg y) as Hlog0.
  assert (~ (forall i, 0 <= i <= Z.log2 y -> Z.testbit y i = true)) as Hzero.
  { intros Hall. apply (low_run_spec y Hr) in Hall. congruence. }
  destruct (TrailingZeros64_spec (not64 y) Hnr) as [[Hn0 _]|[Hj [Hjs Hjl]]].
  { exfalso. apply Hzero. intros i Hi. specialize (Hneg i ltac:(lia)). rewrite Hn0, Z.bits_0 in Hneg.
    by destruct (Z.testbit y i). }
  fold j in Hj, Hjs, Hjl.
  assert (forall i, 0 <= i < j -> Z.testbit y i = true) as Hones.
  { intros i Hi. specialize (Hjl i Hi). rewrite Hneg in Hjl by lia. by destruct (Z.testbit y i). }
  assert (Z.testbit y j = false) as Hyj by (rewrite Hneg in Hjs by lia; by destruct (Z.testbit y j)).
  assert (j < Z.log2 y) as Hjlog.
  { destruct (Z.lt_ge_cases j (Z.log2 y)) as [|Hge]; [done|]. exfalso. apply Hzero. intros i Hi.
    destruct (Z.eq_dec i j) as [->|]; [|apply Hones; lia].
    assert (j = Z.log2 y) as -> by lia. apply Z.bit_log2. lia. }
  assert (0 <= y1 < 2 ^ 64 /\ forall i, 0 <= i -> Z.testbit y1 i = Z.testbit y (i + j)) as [Hr1 Hb1].
  { unfold y1. rewrite land_63 by lia. split; [apply shiftr_range; lia|]. intros i Hi. by apply Z.shiftr_spec. }
  destruct (TrailingZeros64_spec y1 Hr1) as [[Hz1 _]|[Hj2 [Hj2s Hj2l]]].
  { exfalso. specialize (Hb1 (Z.log2 y - j) ltac:(lia)). rewrite Hz1, Z.bits_0 in Hb1.
    replace (Z.log2 y - j + j) with (Z.log2 y) in Hb1 by lia. by rewrite Z.bit_log2 in Hb1 by lia. }
  fold j2 in Hj2, Hj2s, Hj2l.
  assert (j2 <> 0) as Hj20 by (intros E; rewrite E, Hb1, Z.add_0_l in Hj2s by lia; congruence).
  rewrite Hb1 in Hj2s by lia.
  assert (forall i, j <= i < j + j2 -> Z.testbit y i = false) as Hzeros.
  { intros i Hi. specialize (Hj2l (i - j) ltac:(lia)). rewrite Hb1 in Hj2l by lia.
    by replace (i - j + j) with i in Hj2l by lia. }
  (* zeros of [y] are wide gaps of [x]; the set bit above ends the gap *)
  assert (forall i, j <= i < j + j2 + M -> Z.testbit x i = false) as Hxz.
  { intros i Hi. destruct (Z.testbit x i) eqn:E; [|done].
    rewrite <- (Hzeros (Z.min i (j + j2 - 1))) by lia. symmetry.
    apply Hy; [lia|]. exists (i - Z.min i (j + j2 - 1)). split; [lia|].
    by replace (Z.min i (j + j2 - 1) + (i - Z.min i (j + j2 - 1))) with i by lia. }
  assert (Z.testbit x (j + j2 + M) = true) as Hxd.
  { apply Hy in Hj2s as (t & Ht & Hb); [|lia]. replace (j2 + j + t) with (j + j2 + t) in Hb by lia.
    destruct (Z.eq_dec t M) as [->|]; [done|]. by rewrite Hxz in Hb by lia. }
  assert (j + j2 + M <= Z.log2 x) as Hdlog.
  { destruct (Z.le_gt_cases (j + j2 + M) (Z.log2 x)); [done|]. by rewrite Z.bits_above_log2 in Hxd by lia. }
  assert (0 <= x' < 2 ^ 64 /\ forall i, 0 <= i -> Z.testbit x' i = Z.testbit x (i + (j + j2))) as [Hx' Hbx'].
  { unfold x'. split; [apply shiftr_range; lia|]. intros i Hi. by apply Z.shiftr_spec. }
  assert (x' <> 0) as Hx'0.
  { intros E. specialize (Hbx' M HM). rewrite E, Z.bits_0 in Hbx'.
    replace (M + (j + j2)) with (j + j2 + M) in Hbx' by lia. congruence. }
  assert (Z.log2 x' = Z.log2 x - (j + j2)) as Hlog'.
  { unfold x'. rewrite Z.log2_shiftr by lia. lia. }
  assert (0 <= y2 < 2 ^ 64 /\ forall i, 0 <= i -> Z.testbit y2 i = Z.testbit y (i + (j + j2))) as [Hr2 Hb2].
  { unfold y2. rewrite land_63 by lia. split; [apply shiftr_range; lia|]. intros i Hi.
    rewrite Z.shiftr_spec, Hb1 by lia. f_equal. lia. }
  split_and!; try lia.
  - split; [lia|]. split; [lia|]. intros t Ht. apply Hxz. lia.
  - split.
    + enough (y2 <> 0) by lia. intros E. specialize (Hb2 0 ltac:(lia)). rewrite E, Z.bits_0 in Hb2.
      replace (0 + (j + j2)) with (j2 + j) in Hb2 by lia. congruence.
    + intros i Hi. rewrite Hb2, Hy by lia. split; intros (t & Ht & Hb); exists t; (split; [done|]).
      * rewrite Hbx' by lia. by replace (i + t + (j + j2)) with (i + (j + j2) + t) by lia.
      * rewrite Hbx' in Hb by lia. by replace (i + t + (j + j2)) with (i + (j + j2) + t) in Hb by lia.
  - intros i n (Hi & Hle & Hz). destruct (Z.le_gt_cases (j + j2) i) as [Hge|Hlt].
    + right. exists (i - (j + j2)). split; [lia|]. split; [lia|]. intros t Ht. rewrite Hbx' by lia.
      replace (i - (j + j2) + t + (j + j2)) with (i + t) by lia. by apply Hz.
    + left. destruct (Z.le_gt_cases n (M + j2)) as [|Hgt]; [done|]. exfalso.
      destruct (Z.lt_ge_cases i j) as [Hij|Hij].
      * specialize (Hones i ltac:(lia)). apply Hy in Hones as (t & Ht & Hb); [|lia]. by rewrite Hz in Hb by lia.
      * specialize (Hz (j + j2 + M - i) ltac:(lia)).
        replace (i + (j + j2 + M - i)) with (j + j2 + M) in Hz by lia. congruence.
  - intros i n (Hi & Hle & Hz). split; [lia|]. split; [lia|]. intros t Ht.
    specialize (Hz t Ht). rewrite Hbx' in Hz by lia. by replace (i + t + (j + j2)) with (i + (j + j2) + t) in Hz by lia.
Qed.

(** The result of the search in one word: [M] or the widest gap of [X]. *)
Definition widest (X M r : Z) : Prop :=
  M <= r /\ (r = M \/ exists i, gap X i r) /\ forall i n, gap X i n -> n <= r.

Lemma widen_spec X M0 fuel : forall x m y p k M,
  0 < X < 2 ^ 64 -> 0 <= M0 <= 62 -> 0 < x < 2 ^ 64 -> 0 <= m -> smear x m y -> 0 < k <= m + 1 ->
  0 <= p -> m + p = M -> (p = 0 -> low_run y = false) -> 65 <= Z.of_nat fuel + M ->
  M0 <= M -> (M = M0 \/ exists i, gap X i M) ->
  (forall i n, gap X i n -> n <= M \/ exists i', gap x i' n) ->
  (forall i n, gap x i n -> exists i', gap X i' n) ->
  exists r, widen fuel y p k M = Ok r /\ widest X M0 r.
Proof.
  induction fuel as [|fuel IH]; intros x m y p k M HX HM0 Hx Hm Hs Hk Hp HM Hp0 Hf Hge Hor H1 H2.
  all: assert (forall i n, gap X i n -> n < 64) as Hlt
    by (intros i n (? & ? & _); assert (Z.log2 X < 64) by (apply Z.log2_lt_pow2; lia); lia).
  all: assert (M < 64) as HM64 by (destruct Hor as [->|[i Hi]]; [lia|by apply (Hlt i)]).
  { lia. }
  cbn [widen].
  destruct (shrink_spec 64 x m y p k ltac:(lia) Hm Hs Hk ltac:(lia) ltac:(lia)) as (r & -> & Hr).
  rewrite HM in Hr. cbn [res_bind]. destruct r as [[y' k']|].
  - destruct Hr as (Hs' & Hk' & Hlow').
    assert (low_run y' = false) as Hlow by (destruct (Z.eqb_spec p 0) as [E|]; [subst y'; by apply Hp0|done]).
    pose proof (lowest_gap x M y' Hx ltac:(lia) Hs' Hlow) as Hg. cbv zeta in Hg.
    set (j := TrailingZeros64 (not64 y')) in *. set (y1 := Z.shiftr y' (Z.land j 63)) in *.
    set (j2 := TrailingZeros64 y1) in *. set (y2 := Z.shiftr y1 (Z.land j2 63)) in *.
    set (x' := Z.shiftr x (j + j2)) in *. clearbody x' y2 j2. clear y1.
    destruct Hg as (Hj2 & Hgap & Hx' & Hs2 & Hleft & Hback).
    destruct (H2 _ _ Hgap) as [i' Hi']. pose proof (Hlt _ _ Hi'). rewrite u64_small by lia.
    assert (forall i n, gap X i n -> n <= M + j2 \/ exists i', gap x' i' n) as H1'.
    { intros i n Hin. destruct (H1 i n Hin) as [|[i2 Hi2]]; [left; lia|]. by apply (Hleft i2). }
    destruct (low_run y2) eqn:E.
    + eexists. split; [done|]. split; [lia|]. split; [right; by eexists|].
      intros i n Hin. destruct (H1' i n Hin) as [|[i2 Hi2]]; [done|].
      destruct (Z.le_gt_cases n (M + j2)) as [|Hgt]; [done|].
      destruct (proj1 (smear_low_run x' M y2 ltac:(lia) ltac:(lia) Hs2) E i2). apply (gap_le x' i2 n); [done|lia].
    + apply (IH x' M y2 j2 k' (M + j2)); try done; try lia.
      * right. by exists i'.
      * intros i n Hin. exact (H2 _ _ (Hback i n Hin)).
  - eexists. split; [done|]. split; [done|]. split; [done|].
    intros i n Hin. destruct (H1 i n Hin) as [|[i' Hi']]; [done|].
    destruct (Z.le_gt_cases n M) as [|Hgt]; [done|]. destruct (Hr i'). apply (gap_le x i' n); [done|lia].
Qed.

(** Gaps of the word without its trailing zeros are the runs of its core. *)
Lemma core_gaps x n :
  0 <= x < 2 ^ 64 -> x <> 0 -> 0 < n ->
  let y := Z.shiftr x (Z.land (TrailingZeros64 x) 63) in
  0 < y < 2 ^ 64 /\ (n <= longest (core x) <-> exists i, gap y i n).
Proof.
  intros Hx Hne Hn y. destruct (word_pages_split x Hx Hne) as (_ & Ht & Hl & _).
  pose proof (counts_range x Hx) as (_ & Hz & _).
  destruct (LeadingZeros64_spec x Hx) as [[? _]|(_ & Htop & Habove)]; [done|].
  assert (y = Z.shiftr x (TrailingZeros64 x)) as Hy by (unfold y; by rewrite land_63 by lia).
  assert (forall i, 0 <= i -> Z.testbit y i = Z.testbit x (TrailingZeros64 x + i)) as Hb.
  { intros i Hi. rewrite Hy, Z.shiftr_spec by lia. f_equal. lia. }
  set (t := TrailingZeros64 x) in *. set (z := LeadingZeros64 x) in *.
  assert (0 < y < 2 ^ 64) as Hr.
  { pose proof (shiftr_range x t Hx ltac:(lia)). rewrite <- Hy in *. enough (y <> 0) by lia. intros E.
    specialize (Hb (63 - z - t) ltac:(lia)). rewrite E, Z.bits_0 in Hb.
    replace (t + (63 - z - t)) with (63 - z) in Hb by lia. congruence. }
  assert (Z.log2 y = 63 - z - t) as Hlog.
  { rewrite Hy, Z.log2_shiftr by lia. assert (Z.log2 x = 63 - z) as ->; [|lia].
    apply Z.le_antisymm.
    - destruct (Z.le_gt_cases (Z.log2 x) (63 - z)); [done|].
      pose proof (Z.bit_log2 x ltac:(lia)) as Hlb. by rewrite Habove in Hlb by lia.
    - destruct (Z.le_gt_cases (63 - z) (Z.log2 x)); [done|]. by rewrite Z.bits_above_log2 in Htop by lia. }
  split; [done|]. rewrite longest_window by done. unfold core. fold t z.
  split; intros (i & Hi).
  - destruct Hi as [Hi Hw]. exists i. split; [done|].
    assert (forall q, i <= q < i + n -> 0 <= q < 64 - z - t /\ Z.testbit y q = false) as Hq.
    { intros q Hq. specialize (Hw q Hq).
      assert (q < 64 - z - t) as Hlt.
      { destruct (Z.lt_ge_cases q (64 - z - t)) as [|Hge]; [done|].
        rewrite lookup_ge_None_2 in Hw; [done|].
        pose proof (pages_of_len x t (64 - z - t) ltac:(lia)). unfold len in *. lia. }
      rewrite pages_of_lookup in Hw by lia. rewrite Hb by lia.
      split; [lia|]. by destruct (Z.testbit x (t + q)). }
    assert (forall s, 0 <= s < n -> Z.testbit y (i + s) = false) as Hs by (intros s Hs; apply Hq; lia).
    split; [|done]. destruct (Z.le_gt_cases (i + n) (Z.log2 y)) as [|Hgt]; [done|].
    pose proof (Hq (i + n - 1) ltac:(lia)) as [? _]. specialize (Hs (Z.log2 y - i) ltac:(lia)).
    replace (i + (Z.log2 y - i)) with (Z.log2 y) in Hs by lia. by rewrite Z.bit_log2 in Hs by lia.
  - destruct Hi as (Hi & Hle & Hz0). exists i. split; [done|]. intros q Hq.
    rewrite pages_of_lookup, <- Hb by lia. specialize (Hz0 (q - i) ltac:(lia)).
    replace (i + (q - i)) with q in Hz0 by lia. by rewrite Hz0.
Qed.

Lemma sum_word_spec M x : 0 <= x < 2 ^ 64 -> 0 <= M <= 62 ->
  sum_word M x = Ok (Z.max M (if x =? 0 then 0 else longest (core x))).
Proof.
  intros Hx HM. unfold sum_word. destruct (Z.eqb_spec x 0) as [->|Hne].
  { replace (Z.max M 0) with M by lia. reflexivity. }
  destruct (core_gaps x 1 Hx Hne ltac:(lia)) as [Hr H1].
  set (y := Z.shiftr x _) in *. pose proof (longest_nonneg (core x)).
  destruct (low_run y) eqn:E.
  - assert (longest (core x) = 0) as ->.
    { destruct (Z.le_gt_cases 1 (longest (core x))) as [Hge|]; [|lia]. apply H1 in Hge as [i Hi].
      by destruct (proj1 (smear_low_run y 0 y ltac:(lia) ltac:(lia) (smear_self y Hr)) E i). }
    by replace (Z.max M 0) with M by lia.
  - destruct (widen_spec y M 65 y 0 y M 1 M) as (r & -> & Hge & Hor & Hall); try done; try lia.
    + by apply smear_self.
    + right. by exists i.
    + intros i n Hg. by exists i.
    + f_equal. assert (forall n, 0 < n -> n <= longest (core x) <-> exists i, gap y i n) as Hn
        by (intros n Hn; by apply core_gaps).
      apply Z.le_antisymm.
      * destruct Hor as [->|[i Hi]]; [lia|]. destruct (Z.le_gt_cases r 0); [lia|].
        enough (r <= longest (core x)) by lia. apply Hn; [lia|]. by exists i.
      * apply Z.max_lub; [done|]. destruct (Z.le_gt_cases (longest (core x)) 0); [lia|].
        destruct (proj1 (Hn (longest (core x)) ltac:(lia)) ltac:(lia)) as [i Hi]. by apply (Hall i).
Qed.

Lemma sum_inside_spec b M : Forall (fun w => 0 <= w < 2 ^ 64) b -> 0 <= M <= 62 ->
  sum_inside b M = Ok (Z.max M (inner b)).
Proof.
  intros Hb. revert M. induction Hb as [|x b Hx Hb IH]; intros M HM; cbn [sum_inside inner].
  - by replace (Z.max M 0) with M by lia.
  - rewrite sum_word_spec by done. cbn [res_bind].
    assert ((if x =? 0 then 0 else longest (core x)) <= 62).
    { pose proof (inner_le [x] ltac:(by constructor)) as H. cbn [inner] in H. lia. }
    rewrite IH by lia. f_equal. lia.
Qed.

(** ** The summary *)

Lemma summarize_packed (b : pageBits) :
  pageBits_ok b -> summarize b = Ok (packed (page_list b)).
Proof.
  intros [Hlen Hb].
  assert (len (page_list b) = 64 * len b) as Hn.
  { clear Hlen. unfold page_list. induction b as [|x b IH]; [done|]. apply Forall_cons_iff in Hb as [_ Hb].
    cbn [map concat]. rewrite len_app, (IH Hb), len_cons. unfold word_pages. rewrite pages_of_len; lia. }
  assert (len b = 8) as Hlen8 by (unfold len; lia). clear Hlen.
  pose proof (sum_words_spec b [] notFound 0 0 0 Hb) as Hs. cbn [app] in Hs. rewrite Hlen8 in *.
  specialize (Hs ltac:(vm_compute; discriminate) ltac:(lia) ltac:(by vm_compute)).
  unfold summarize, packed, pack, summary_of. destruct (sum_words b notFound 0 0) as [[start max] cur].
  destruct Hs as (Hst & Hcur & Hm & Hlong). pose proof (inner_le b Hb).
  pose proof (lead_range (page_list b)) as Hlr. rewrite Hn in *. 
  destruct (Z.eqb_spec (lead (page_list b)) (64 * 8)) as [E|E].
  - assert (trail (page_list b) = 64 * 8) as Ht by (rewrite <- Hn; apply trail_full_lead; lia).
    pose proof (lead_longest (page_list b)). pose proof (longest_le (page_list b)) as Hle.
    rewrite Hst, Z.eqb_refl, E, Ht, Hlen8. do 2 f_equal; lia.
  - unfold notFound in *. rewrite (proj2 (Z.eqb_neq _ _)) by lia.
    assert ((if max <? cur then cur else max) = Z.max max cur) as -> by (destruct (Z.ltb_spec max cur); lia).
    rewrite <- Hst, <- Hcur. pose proof (trail_range (page_list b)). destruct (Z.leb_spec (64 - 2) (Z.max max cur)).
    + do 2 f_equal. lia.
    + rewrite sum_inside_spec by (done || lia). cbn [res_bind]. do 2 f_equal. lia.
Qed.

(** C13: [summarize] computes, for any contents of a chunk's bitmap, exactly
    the packed summary of the list of its 512 pages: how many free pages it
    starts with, how many it ends with, and the length of its longest run of
    free pages wherever the run lies, also when it spans words; both loops end
    and no bit trick overflows. *)
Theorem summarize_correct (b : pageBits) :
  pageBits_ok b -> summarize b = Ok (packed (page_list b)).
Proof. apply summarize_packed. Qed.

Lemma summarize_correct_witness :
  summarize [0; 5; 2 ^ 63; 0; 0; 1; 2 ^ 64 - 1; 7] =
  Ok (packed (page_list [0; 5; 2 ^ 63; 0; 0; 1; 2 ^ 64 - 1; 7])).
Proof. apply summarize_correct. split; [reflexivity|]. repeat constructor; vm_compute; congruence. Defined.
