(* ===== verification/PageRange.v ===== *)
(** * Ranges of pages in a chunk

    What [setRange] does to each page of a bitmap: the words at both ends of the
    range are assigned, not or-ed, so it also frees pages outside its range. *)
From S2P Require Import Prelude Bits64 PallocSum PageBits PageFind PageSummary.

Local Open Scope Z_scope.
Local Open Scope go_scope.

(** ** Masks *)

Lemma ones_spec m : 0 <= m <= 64 -> u64 (shl64 1 m - 1) = Z.ones m.
Proof.
  intros Hm. destruct (decide (m = 64)) as [->|]; [done|]. unfold shl64. rewrite Z.shiftl_mul_pow2, Z.mul_1_l by lia.
  pose proof (Z.pow_lt_mono_r 2 m 64 ltac:(lia) ltac:(lia) ltac:(lia)). pose proof (pow2_pos m ltac:(lia)).
  rewrite !u64_small by (rewrite ?u64_small by lia; lia). rewrite Z.ones_equiv. lia.
Qed.

Lemma low_ones_bit m q : 0 <= m <= 64 -> 0 <= q -> Z.testbit (low_ones m) q = (q <? m).
Proof. intros Hm Hq. unfold low_ones. rewrite ones_spec, Z.testbit_ones by lia. destruct (Z.leb_spec 0 q); [done|lia]. Qed.

Lemma high_ones_bit m q : 0 <= m < 64 -> 0 <= q < 64 -> Z.testbit (high_ones m) q = (m <=? q).
Proof.
  intros Hm Hq. unfold high_ones, shl64, u64. rewrite Z.mod_pow2_bits_low by lia. rewrite Z.shiftl_spec by lia.
  change (2 ^ 64 - 1) with (Z.ones 64). rewrite Z.testbit_ones by lia.
  destruct (Z.leb_spec 0 (q - m)), (Z.leb_spec m q), (Z.ltb_spec (q - m) 64); cbn; lia || done.
Qed.

Lemma word_range v : 0 <= u64 v < 2 ^ 64.
Proof. apply u64_range. Qed.

(** ** Words *)

Lemma word_ok (b : pageBits) k : 0 <= k < len b -> exists w, b !! Z.to_nat k = Some w /\ word b k = Ok w.
Proof.
  intros Hk. destruct (lookup_lt_is_Some_2 b (Z.to_nat k)) as [w Hw]; [unfold len in Hk; lia|]. exists w. split; [done|].
  unfold word. destruct (Z.leb_spec 0 k), (Z.ltb_spec k (len b)); try lia. cbn. by rewrite Hw.
Qed.

Lemma set_word_ok (b : pageBits) k v : 0 <= k < len b -> set_word b k v = Ok (<[Z.to_nat k := v]> b).
Proof. intros Hk. unfold set_word. by destruct (word_ok b k Hk) as (w & _ & ->). Qed.

Lemma upd_word_ok (b : pageBits) k f : 0 <= k < len b -> exists w, b !! Z.to_nat k = Some w /\ upd_word b k f = Ok (<[Z.to_nat k := f w]> b).
Proof. intros Hk. destruct (word_ok b k Hk) as (w & Hw & E). exists w. split; [done|]. unfold upd_word. rewrite E. by apply set_word_ok. Qed.

Lemma len_insert (b : pageBits) k v : len (<[k := v]> b) = len b.
Proof. unfold len. by rewrite length_insert. Qed.

Lemma fill_ok n v : forall (b : pageBits) lo, 0 <= lo -> lo + Z.of_nat n <= len b ->
  exists b', fill n b lo v = Ok b' /\ len b' = len b /\
    forall k, 0 <= k -> b' !! Z.to_nat k = if decide (lo <= k < lo + Z.of_nat n) then Some v else b !! Z.to_nat k.
Proof.
  induction n as [|n IH]; intros b lo Hlo Hn; cbn [fill].
  - exists b. split; [done|]. split; [done|]. intros k Hk. by rewrite decide_False by lia.
  - rewrite set_word_ok by lia. cbn [res_bind]. destruct (IH (<[Z.to_nat lo := v]> b) (lo + 1)) as (b' & E & Hl & Hk); [lia|rewrite len_insert; lia|].
    exists b'. split; [done|]. split; [by rewrite Hl, len_insert|]. intros k Hk0. rewrite Hk by done.
    destruct (decide (k = lo)) as [->|].
    + rewrite decide_False, decide_True by lia. apply list_lookup_insert_eq. unfold len in Hn. lia.
    + rewrite list_lookup_insert_ne by lia. repeat case_decide; lia || done.
Qed.

(** A bitmap given by its words. *)
Lemma pageBits_of (b : pageBits) (f : Z -> Z) : len b = 8 ->
  (forall k, 0 <= k < 8 -> b !! Z.to_nat k = Some (f k) /\ 0 <= f k < 2 ^ 64) ->
  pageBits_ok b /\ forall q, 0 <= q < 512 -> page_free b q <-> Z.testbit (f (q / 64)) (q mod 64) = false.
Proof.
  intros Hl Hf. split.
  - split; [unfold len in Hl; lia|]. apply Forall_lookup. intros i w Hw. apply lookup_lt_Some in Hw as Hi. unfold len in Hl.
    destruct (Hf (Z.of_nat i)) as [E ?]; [lia|]. rewrite Nat2Z.id, Hw in E. by injection E as ->.
  - intros q Hq. destruct (Hf (q / 64)) as [E _]; [zdiv_lia|]. unfold page_free. split.
    + intros (w & _ & Hw & Hb). rewrite E in Hw. by injection Hw as ->.
    + intros Hb. exists (f (q / 64)). split; [lia|done].
Qed.

(** ** [setRange] *)

(** The words after [setRange b i n] when [j] is the last page of the range. *)
Definition range_word (b : pageBits) (i j k : Z) : Z :=
  if decide (k = j / 64) then low_ones (j mod 64 + 1)
  else if decide (k = i / 64) then high_ones (i mod 64)
  else if decide (i / 64 < k < j / 64) then 2 ^ 64 - 1
  else default 0 (b !! Z.to_nat k).

Lemma setRange_words b i n : pageBits_ok b -> 0 <= i -> 2 <= n -> i + n <= 512 ->
  exists b', setRange b i n = Ok b' /\ len b' = 8 /\
    forall k, 0 <= k < 8 -> b' !! Z.to_nat k = Some (range_word b i (i + n - 1) k) /\ 0 <= range_word b i (i + n - 1) k < 2 ^ 64.
Proof.
  intros [Hlen Hb] Hi Hn Hmax. assert (len b = 8) as Hl by (unfold len; lia). clear Hlen. unfold setRange.
  assert (0 <= i / 64 < 8) as Hi8 by zdiv_lia.
  destruct (word_ok b (i / 64)) as (wi & Hwi & ->); [lia|]. cbn [res_bind]. destruct (Z.eqb_spec n 1) as [|_]; [lia|].
  rewrite u64_small by lia. set (j := i + n - 1) in *. assert (i / 64 <= j / 64 < 8) as Hj8 by (unfold j; zdiv_lia).
  assert (exists b1, (if i / 64 =? j / 64 then upd_word b (i / 64) (fun w => Z.lor w (shl64 (low_ones n) (i mod 64))) else Ok b) = Ok b1 /\
    len b1 = 8 /\ forall k, 0 <= k -> k <> i / 64 -> b1 !! Z.to_nat k = b !! Z.to_nat k) as (b1 & -> & Hl1 & Hb1).
  { destruct (Z.eqb_spec (i / 64) (j / 64)) as [|_]; [|by exists b]. destruct (upd_word_ok b (i / 64) (fun w => Z.lor w (shl64 (low_ones n) (i mod 64)))) as (w & _ & ->); [lia|].
    eexists. split; [done|]. split; [by rewrite len_insert|]. intros k Hk Hne. apply list_lookup_insert_ne. lia. }
  cbn [res_bind]. destruct (word_ok b1 (j / 64)) as (wj & _ & ->); [lia|]. cbn [res_bind]. rewrite set_word_ok by lia. cbn [res_bind].
  destruct (fill_ok (Z.to_nat (j / 64 - (i / 64 + 1))) (2 ^ 64 - 1) (<[Z.to_nat (i / 64) := high_ones (i mod 64)]> b1) (i / 64 + 1)) as (b2 & -> & Hl2 & Hb2);
    [lia|rewrite len_insert; lia|]. cbn [res_bind]. rewrite len_insert in Hl2. rewrite set_word_ok by lia.
  eexists. split; [done|]. split; [by rewrite len_insert, Hl2|]. intros k Hk. unfold range_word.
  destruct (decide (k = j / 64)) as [->|Hkj].
  { split; [|apply u64_range]. apply list_lookup_insert_eq. unfold len in *. lia. }
  rewrite list_lookup_insert_ne by lia. rewrite Hb2 by lia. destruct (decide (k = i / 64)) as [->|Hki].
  { split; [|apply u64_range]. rewrite decide_False by lia. apply list_lookup_insert_eq. unfold len in *. lia. }
  rewrite list_lookup_insert_ne by lia. rewrite Hb1 by lia. destruct (decide (i / 64 < k < j / 64)).
  { rewrite decide_True by lia. done. }
  rewrite decide_False by lia. destruct (word_ok b k) as (w & Hw & _); [lia|]. rewrite Hw. split; [done|]. cbn.
  rewrite Forall_lookup in Hb. by apply (Hb (Z.to_nat k)).
Qed.

(** Page [q] is free after [setRange b i n]. *)
Definition free_after (b : pageBits) (i n q : Z) : Prop :=
  let j := i + n - 1 in
  if decide (n = 1) then page_free b q /\ q <> i
  else if decide (q / 64 = j / 64) then j < q
  else if decide (q / 64 = i / 64) then q < i
  else page_free b q /\ ~ (i <= q <= j).

Lemma setRange_effect b i n : pageBits_ok b -> 0 <= i -> 1 <= n -> i + n <= 512 ->
  exists b', setRange b i n = Ok b' /\ pageBits_ok b' /\ forall q, 0 <= q < 512 -> page_free b' q <-> free_after b i n q.
Proof.
  intros Hb Hi Hn Hmax. unfold free_after. destruct (decide (n = 1)) as [->|Hne].
  - unfold setRange. assert (len b = 8) as Hl by (destruct Hb; unfold len; lia).
    destruct (word_ok b (i / 64)) as (wi & Hwi & E); [zdiv_lia|]. rewrite E. cbn [res_bind]. rewrite Z.eqb_refl. unfold set_, upd_word. rewrite E. cbn [res_bind].
    rewrite set_word_ok by zdiv_lia. eexists. split; [done|].
    destruct (pageBits_of (<[Z.to_nat (i / 64) := Z.lor wi (shl64 1 (i mod 64))]> b)
      (fun k => if decide (k = i / 64) then Z.lor wi (shl64 1 (i mod 64)) else default 0 (b !! Z.to_nat k))) as [Hok Hfree].
    + by rewrite len_insert.
    + intros k Hk. destruct Hb as [_ Hb]. rewrite Forall_lookup in Hb. case_decide as Hki.
      * subst. split; [apply list_lookup_insert_eq; unfold len in Hl; zdiv_lia|]. apply lor_range; [by eapply Hb|apply u64_range].
      * rewrite list_lookup_insert_ne by zdiv_lia. destruct (word_ok b k) as (w & Hw & _); [lia|]. rewrite Hw. split; [done|]. by eapply Hb.
    + split; [done|]. intros q Hq. rewrite Hfree by done. unfold page_free. case_decide as Hk.
      * rewrite Z.lor_spec, orb_false_iff. assert (Z.testbit (shl64 1 (i mod 64)) (q mod 64) = bool_decide (q = i)) as ->.
        { unfold shl64. rewrite Z.shiftl_mul_pow2, Z.mul_1_l by zdiv_lia. pose proof (Z.pow_lt_mono_r 2 (i mod 64) 64 ltac:(lia) ltac:(lia) ltac:(zdiv_lia)).
          rewrite u64_small by (pose proof (pow2_pos (i mod 64)); zdiv_lia). rewrite Z.pow2_bits_eqb by zdiv_lia.
          case_bool_decide as Hqi; [subst; apply Z.eqb_refl|]. apply Z.eqb_neq. intros Hm. apply Hqi. zdiv_lia. }
        rewrite bool_decide_eq_false. split.
        -- intros [Hw Hqi]. split; [|done]. exists wi. rewrite Hk. split; [lia|done].
        -- intros [(w & _ & Hw & Hbit) Hqi]. split; [|done]. rewrite Hk, Hwi in Hw. by injection Hw as ->.
      * destruct (word_ok b (q / 64)) as (w & Hw & _); [zdiv_lia|]. rewrite Hw. cbn. split.
        -- intros Hbit. split; [exists w; split; [lia|done]|]. intros ->. done.
        -- intros [(w' & _ & Hw' & Hbit) _]. by injection Hw' as ->.
  - destruct (setRange_words b i n Hb Hi ltac:(lia) Hmax) as (b' & E & Hl & Hw). exists b'. split; [done|].
    destruct (pageBits_of b' _ Hl Hw) as [Hok Hfree]. split; [done|]. intros q Hq. rewrite Hfree by done. unfold range_word.
    set (j := i + n - 1). case_decide as Hj; [|case_decide as Hki; [|case_decide as Hmid]].
    + rewrite low_ones_bit by zdiv_lia. rewrite Z.ltb_ge. clear - Hj. zdiv_lia.
    + rewrite high_ones_bit by zdiv_lia. rewrite Z.leb_gt. clear - Hki. zdiv_lia.
    + split; [|intros [_ Hn']; exfalso; apply Hn'; zdiv_lia]. intros Hbit. exfalso. change (2 ^ 64 - 1) with (Z.ones 64) in Hbit.
      rewrite Z.testbit_ones in Hbit by lia. destruct (Z.leb_spec 0 (q mod 64)), (Z.ltb_spec (q mod 64) 64); try done; zdiv_lia.
    + destruct Hb as [Hb8 Hb]. destruct (word_ok b (q / 64)) as (w & Hw' & _); [unfold len; zdiv_lia|]. rewrite Hw'. unfold page_free. cbn. split.
      * intros Hbit. split; [exists w; split; [lia|done]|]. unfold j in *. zdiv_lia.
      * intros [(w2 & _ & Hw2 & Hbit) _]. rewrite Hw' in Hw2. by injection Hw2 as ->.
Qed.
