(* ===== verification/AddrRanges.v ===== *)
(** * Ranges of addresses

    [src/memory_and_heap/mranges.go]: addresses in the offset address space,
    ranges, and the sorted collection [addrRanges].  The slice and its capacity
    are a list and a number; [persistentalloc], which only provides the backing
    array, leaves no trace here. *)
From S2P Require Import Prelude Slice.

Local Open Scope Z_scope.
Local Open Scope go_scope.

(** ** [offAddr] *)

Definition arenaBaseOffset : Z := 0xffff800000000000.
Definition heapAddrBits : Z := 48.
Definition uintPtrMask : Z := 2 ^ 64 - 1.

(** An [offAddr] is its virtual address. *)
Abbreviation offAddr := Z.

Definition minOffAddr : offAddr := arenaBaseOffset.
Definition maxOffAddr : offAddr := Z.land (Z.shiftl 1 heapAddrBits - 1 + arenaBaseOffset) uintPtrMask.

Definition off_add (l : offAddr) (bytes : Z) : offAddr := u64 (l + bytes).
Definition off_sub (l : offAddr) (bytes : Z) : offAddr := u64 (l - bytes).
Definition diff (l1 l2 : offAddr) : Z := u64 (l1 - l2).
Definition lessThan (l1 l2 : offAddr) : bool := u64 (l1 - arenaBaseOffset) <? u64 (l2 - arenaBaseOffset).
Definition lessEqual (l1 l2 : offAddr) : bool := u64 (l1 - arenaBaseOffset) <=? u64 (l2 - arenaBaseOffset).
Definition off_equal (l1 l2 : offAddr) : bool := l1 =? l2.

(** ** [addrRange] *)

Record addrRange : Type := mkRange { base : offAddr; limit : offAddr }.

Definition makeAddrRange (b l : Z) : res Empty_set addrRange :=
  if negb (Bool.eqb (b <=? u64 (b - arenaBaseOffset)) (l <=? u64 (l - arenaBaseOffset)))
  then Panic "addr range base and limit are not in the same memory segment"
  else Ok (mkRange b l).

Definition size (a : addrRange) : Z :=
  if lessThan (base a) (limit a) then 0 else diff (limit a) (base a).

Definition contains (a : addrRange) (addr : Z) : bool := lessEqual (base a) addr && lessThan addr (limit a).

Definition subtract (a b : addrRange) : res Empty_set addrRange :=
  if lessThan (base b) (base a) && lessEqual (limit a) (limit b) then Ok (mkRange 0 0)
  else if lessThan (base a) (base b) && lessEqual (limit b) (limit a) then Panic "bad prune"
  else if lessThan (limit b) (limit a) && lessThan (base a) (limit b) then Ok (mkRange (limit b) (limit a))
  else if lessThan (base a) (base b) && lessThan (base b) (limit a) then Ok (mkRange (base a) (base b))
  else Ok a.

(** ** [addrRanges] *)

Record addrRanges : Type := mkRanges { ranges : list addrRange; ranges_cap : Z; totalBytes : Z }.

Definition ranges_init : addrRanges := mkRanges [] 16 0.

(** The binary search, until at most [iterMax] candidates are left. *)
Fixpoint succ_search (fuel : nat) (rs : list addrRange) (addr bot top : Z) : res Empty_set (Z + Z * Z) :=
  if 8 <? top - bot then
    match fuel with
    | O => NoFuel
    | S fuel =>
        let i := (top - bot) / 2 + bot in
        let? r := slice_get rs i in
        if contains r addr then Ok (inl (i + 1))
        else if lessThan addr (base r) then succ_search fuel rs addr bot i
        else succ_search fuel rs addr (i + 1) top
    end
  else Ok (inr (bot, top)).

(** The loop over the candidates [bot] to [top]; [n] of them are left. *)
Fixpoint succ_scan (n : nat) (rs : list addrRange) (addr i : Z) : res Empty_set Z :=
  match n with
  | O => Ok i
  | S n =>
      let? r := slice_get rs i in
      if lessThan addr (base r) then Ok i else succ_scan n rs addr (i + 1)
  end.

Definition findSucc (a : addrRanges) (addr : Z) : res Empty_set Z :=
  let? r := succ_search (length (ranges a)) (ranges a) addr 0 (len (ranges a)) in
  match r with
  | inl i => Ok i
  | inr (bot, top) => succ_scan (Z.to_nat (top - bot)) (ranges a) addr bot
  end.

Definition findAddrGreaterEqual (a : addrRanges) (addr : Z) : res Empty_set (Z * bool) :=
  let? i := findSucc a addr in
  if i =? 0 then let? r := slice_get (ranges a) 0 in Ok (base r, true)
  else
    let? r := slice_get (ranges a) (i - 1) in
    if contains r addr then Ok (addr, true)
    else if i <? len (ranges a) then let? r := slice_get (ranges a) i in Ok (base r, true)
    else Ok (0, false).

(** [a.ranges] with [r] at index [i]. *)
Definition insert_range (rs : list addrRange) (i : Z) (r : addrRange) : list addrRange :=
  take (Z.to_nat i) rs ++ r :: drop (Z.to_nat i) rs.
Definition delete_range (rs : list addrRange) (i : Z) : list addrRange :=
  take (Z.to_nat i) rs ++ drop (S (Z.to_nat i)) rs.

Definition add (a : addrRanges) (r : addrRange) : res Empty_set addrRanges :=
  if size r =? 0 then Panic "attempted to add zero-sized address range"
  else
    let? i := findSucc a (base r) in
    let rs := ranges a in
    let? coalesceDown := (if 0 <? i then let? x := slice_get rs (i - 1) in Ok (off_equal (limit x) (base r)) else Ok false) in
    let? coalesceUp := (if i <? len rs then let? x := slice_get rs i in Ok (off_equal (limit r) (base x)) else Ok false) in
    let? rs' :=
      (if coalesceUp && coalesceDown then
         let? x := slice_get rs (i - 1) in
         let? y := slice_get rs i in
         let? rs := slice_set rs (i - 1) (mkRange (base x) (limit y)) in
         Ok (delete_range rs i)
       else if coalesceDown then
         let? x := slice_get rs (i - 1) in slice_set rs (i - 1) (mkRange (base x) (limit r))
       else if coalesceUp then
         let? x := slice_get rs i in slice_set rs i (mkRange (base r) (limit x))
       else Ok (insert_range rs i r)) in
    let cap := if negb (coalesceUp || coalesceDown) && (ranges_cap a <? len rs + 1) then ranges_cap a * 2
               else ranges_cap a in
    Ok (mkRanges rs' cap (u64 (totalBytes a + size r))).

(** ** The order of the offset address space *)

Definition pos (x : offAddr) : Z := u64 (x - arenaBaseOffset).

Lemma lessThan_pos x y : lessThan x y = (pos x <? pos y).
Proof. done. Qed.
Lemma lessEqual_pos x y : lessEqual x y = (pos x <=? pos y).
Proof. done. Qed.
Lemma contains_pos r x : contains r x = true <-> pos (base r) <= pos x < pos (limit r).
Proof. unfold contains. rewrite lessThan_pos, lessEqual_pos, andb_true_iff, Z.leb_le, Z.ltb_lt. lia. Qed.

Definition nonempty (r : addrRange) : Prop := pos (base r) < pos (limit r).

(** Ranges that are not empty, in order, without overlap. *)
Definition sorted (rs : list addrRange) : Prop :=
  Forall nonempty rs /\
  forall i j a b, (i < j)%nat -> rs !! i = Some a -> rs !! j = Some b -> pos (limit a) <= pos (base b).

Definition represented (rs : list addrRange) (x : offAddr) : Prop := exists r, r ∈ rs /\ contains r x = true.

Lemma sorted_base rs i j a b :
  sorted rs -> (i <= j)%nat -> rs !! i = Some a -> rs !! j = Some b -> pos (base a) <= pos (base b).
Proof.
  intros [Hne Hs] Hij Ha Hb. destruct (decide (i = j)) as [->|]; [assert (a = b) as -> by congruence; lia|].
  specialize (Hs i j a b ltac:(lia) Ha Hb). rewrite Forall_forall in Hne.
  specialize (Hne a). unfold nonempty in Hne. specialize (Hne (proj1 (list_elem_of_In _ _) (list_elem_of_lookup_2 _ _ _ Ha))). lia.
Qed.

(** ** [findSucc] *)

(** [i] ranges have their base at or below [addr]. *)
Definition succ_index (rs : list addrRange) (addr : offAddr) (i : Z) : Prop :=
  0 <= i <= len rs /\
  forall k r, rs !! k = Some r -> (Z.of_nat k < i -> pos (base r) <= pos addr) /\ (i <= Z.of_nat k -> pos addr < pos (base r)).

(** The answer is in [bot, top]. *)
Definition narrowed (rs : list addrRange) (addr : offAddr) (bot top : Z) : Prop :=
  0 <= bot /\ bot <= top <= len rs /\
  forall k r, rs !! k = Some r -> (Z.of_nat k < bot -> pos (base r) <= pos addr) /\ (top <= Z.of_nat k -> pos addr < pos (base r)).

Lemma narrowed_below rs addr bot top i r : sorted rs -> rs !! i = Some r -> narrowed rs addr bot top ->
  bot <= Z.of_nat i < top -> pos (base r) <= pos addr -> narrowed rs addr (Z.of_nat i + 1) top.
Proof.
  intros Hs Hr (Hb & Ht & Hk) Hi Hle. split; [lia|]. split; [lia|]. intros k x Hx. split; [|by apply Hk].
  intros Hlt. pose proof (sorted_base rs k i x r Hs ltac:(lia) Hx Hr). lia.
Qed.

Lemma narrowed_above rs addr bot top i r : sorted rs -> rs !! i = Some r -> narrowed rs addr bot top ->
  bot <= Z.of_nat i < top -> pos addr < pos (base r) -> narrowed rs addr bot (Z.of_nat i).
Proof.
  intros Hs Hr (Hb & Ht & Hk) Hi Hlt. split; [lia|]. split; [lia|]. intros k x Hx. split; [by apply Hk|].
  intros Hle. pose proof (sorted_base rs i k r x Hs ltac:(lia) Hr Hx). lia.
Qed.

Lemma narrowed_done rs addr i : narrowed rs addr i i -> succ_index rs addr i.
Proof. intros (Hb & Ht & Hk). split; [lia|]. intros k r Hr. destruct (Hk k r Hr). split; intros; auto. Qed.

Lemma succ_search_ok fuel : forall rs addr bot top,
  sorted rs -> narrowed rs addr bot top -> top - bot <= Z.of_nat fuel ->
  (exists i, succ_search fuel rs addr bot top = Ok (inl i) /\ succ_index rs addr i) \/
  (exists b t, succ_search fuel rs addr bot top = Ok (inr (b, t)) /\ narrowed rs addr b t).
Proof.
  induction fuel as [|fuel IH]; intros rs addr bot top Hs Hn Hf; cbn [succ_search];
    (destruct (Z.ltb_spec 8 (top - bot)) as [Hlt|_]; [|right; by exists bot, top]); [lia|].
  pose proof Hn as (Hb & Ht & Hk). set (i := (top - bot) / 2 + bot). assert (bot <= i < top) as Hi by (unfold i; zdiv_lia).
  destruct (slice_get_lt rs i) as (r & Hr & ->); [lia|]. cbn [res_bind].
  assert (Z.of_nat (Z.to_nat i) = i) as Ei by lia.
  destruct (contains r addr) eqn:Hc.
  - left. exists (i + 1). split; [done|]. apply contains_pos in Hc. apply narrowed_done.
    rewrite <- Ei. destruct (narrowed_below rs addr bot top (Z.to_nat i) r) as (H1 & H2 & H3); [done|done|done|lia|lia|].
    split; [done|]. split; [lia|]. intros k x Hx. split; [by apply H3|]. intros Hle.
    pose proof (proj2 Hs (Z.to_nat i) k r x ltac:(lia) Hr Hx). lia.
  - rewrite lessThan_pos. destruct (Z.ltb_spec (pos addr) (pos (base r))) as [Ha|Ha].
    + apply IH; [done| |lia]. rewrite <- Ei. apply (narrowed_above rs addr bot top _ r); try done. lia.
    + apply IH; [done| |lia]. rewrite <- Ei. apply (narrowed_below rs addr bot top _ r); try done. lia.
Qed.

Lemma succ_scan_ok n : forall rs addr i,
  sorted rs -> narrowed rs addr i (i + Z.of_nat n) -> exists j, succ_scan n rs addr i = Ok j /\ succ_index rs addr j.
Proof.
  induction n as [|n IH]; intros rs addr i Hs Hn; cbn [succ_scan].
  { exists i. split; [done|]. apply narrowed_done. by replace (i + Z.of_nat 0) with i in Hn by lia. }
  pose proof Hn as (Hb & Ht & Hk). destruct (slice_get_lt rs i) as (r & Hr & ->); [lia|]. cbn [res_bind].
  assert (Z.of_nat (Z.to_nat i) = i) as Ei by lia.
  rewrite lessThan_pos. destruct (Z.ltb_spec (pos addr) (pos (base r))) as [Ha|Ha].
  - exists i. split; [done|]. apply narrowed_done.
    pose proof (narrowed_above rs addr i (i + Z.of_nat (S n)) _ r Hs Hr Hn ltac:(lia) Ha) as H. by rewrite Ei in H.
  - apply IH; [done|]. replace (i + 1 + Z.of_nat n) with (i + Z.of_nat (S n)) by lia.
    pose proof (narrowed_below rs addr i (i + Z.of_nat (S n)) _ r Hs Hr Hn ltac:(lia) ltac:(lia)) as H. by rewrite Ei in H.
Qed.

(** The binary search of [findSucc] ends, never leaves the slice and gives
    the number of ranges whose base is at or below the address, like a scan
    from the start: the index before which the address belongs. *)
Theorem findSucc_index a addr :
  sorted (ranges a) -> exists i, findSucc a addr = Ok i /\ succ_index (ranges a) addr i.
Proof.
  intros Hs. unfold findSucc. set (rs := ranges a) in *.
  destruct (succ_search_ok (length rs) rs addr 0 (len rs)) as [(i & -> & Hi)|(b & t & -> & Hn)].
  - done.
  - split; [lia|]. split; [pose proof (len_nonneg rs); lia|]. intros k r Hr. apply lookup_lt_Some in Hr. unfold len. lia.
  - unfold len. lia.
  - by exists i.
  - cbn [res_bind]. apply succ_scan_ok; [done|]. destruct Hn as (? & ? & ?).
    by replace (b + Z.of_nat (Z.to_nat (t - b))) with t by lia.
Qed.

Lemma succ_index_unique rs addr i j : succ_index rs addr i -> succ_index rs addr j -> i = j.
Proof.
  assert (forall i j, succ_index rs addr i -> succ_index rs addr j -> i < j -> False) as H.
  { intros x y [Hx Hx'] [Hy Hy'] Hlt. destruct (slice_get_lt rs x) as (r & Hr & _); [lia|].
    destruct (Hx' _ r Hr) as [_ H1]. destruct (Hy' _ r Hr) as [H2 _]. specialize (H1 ltac:(lia)). specialize (H2 ltac:(lia)). lia. }
  intros Hi Hj. destruct (Z.lt_trichotomy i j) as [?|[?|?]]; [by destruct (H i j)|done|by destruct (H j i)].
Qed.

(** ** [findAddrGreaterEqual] *)

(** On a collection that is not empty [findAddrGreaterEqual] finds the
    least address it holds that is not below the given one, and reports that
    there is none otherwise; on the empty collection it panics. *)
Theorem findAddrGreaterEqual_least a addr :
  sorted (ranges a) ->
  if decide (ranges a = []) then findAddrGreaterEqual a addr = Panic out_of_range
  else exists x ok, findAddrGreaterEqual a addr = Ok (x, ok) /\
    if ok : bool
    then represented (ranges a) x /\ pos addr <= pos x /\
         forall y, represented (ranges a) y -> pos addr <= pos y -> pos x <= pos y
    else forall y, represented (ranges a) y -> pos y < pos addr.
Proof.
  intros Hs. unfold findAddrGreaterEqual. destruct (findSucc_index a addr Hs) as (i & -> & Hi & Hk).
  set (rs := ranges a) in *. cbn [res_bind].
  assert (forall k r y, rs !! k = Some r -> contains r y = true -> pos (base r) <= pos y < pos (limit r)) as Hcon
    by (intros; by apply contains_pos).
  assert (forall j r, rs !! j = Some r -> represented rs (base r)) as Hbase.
  { intros j r Hr. exists r. split; [by eapply list_elem_of_lookup_2|]. apply contains_pos.
    destruct Hs as [Hne _]. rewrite Forall_forall in Hne. specialize (Hne r). unfold nonempty in Hne.
    specialize (Hne (proj1 (list_elem_of_In _ _) (list_elem_of_lookup_2 _ _ _ Hr))). lia. }
  assert (forall j r, rs !! j = Some r -> pos addr < pos (base r) ->
    (forall k x, rs !! k = Some x -> (k < j)%nat -> pos (limit x) <= pos addr) ->
    forall y, represented rs y -> pos addr <= pos y -> pos (base r) <= pos y) as Hleast.
  { intros j r Hr Hlt Hbefore y (x & Hx & Hy) Hay. apply list_elem_of_lookup in Hx as [k Hx].
    pose proof (Hcon k x y Hx Hy). destruct (decide (k < j)%nat) as [Hkj|Hkj].
    - specialize (Hbefore k x Hx Hkj). lia.
    - pose proof (sorted_base rs j k r x Hs ltac:(lia) Hr Hx). lia. }
  destruct (decide (rs = [])) as [E|Hne].
  { rewrite E in Hi |- *. change (len []) with 0 in Hi. by replace i with 0 by lia. }
  assert (0 < len rs) as Hpos by (destruct rs; [done|rewrite len_cons; pose proof (len_nonneg rs); lia]).
  destruct (Z.eqb_spec i 0) as [->|Hi0].
  - destruct (slice_get_lt rs 0) as (r & Hr & ->); [lia|]. cbn [res_bind]. exists (base r), true. split; [done|].
    destruct (Hk _ r Hr) as [_ H0]. specialize (H0 ltac:(lia)). split; [by eapply Hbase|]. split; [lia|].
    apply (Hleast _ r Hr H0). intros k x _ Hlt. lia.
  - destruct (slice_get_lt rs (i - 1)) as (r & Hr & ->); [lia|]. cbn [res_bind].
    destruct (Hk _ r Hr) as [H1 _]. specialize (H1 ltac:(lia)). destruct (contains r addr) eqn:Hc.
    { exists addr, true. split; [done|]. split; [exists r; split; [by eapply list_elem_of_lookup_2|done]|]. split; [lia|]. done. }
    assert (pos (limit r) <= pos addr) as Hl.
    { apply Z.nlt_ge. intros Hlt. apply not_true_iff_false in Hc. apply Hc, contains_pos. lia. }
    assert (forall k x, rs !! k = Some x -> Z.of_nat k < i -> pos (limit x) <= pos addr) as Hbefore.
    { intros k x Hx Hlt. destruct (decide (k = Z.to_nat (i - 1))) as [->|]; [by assert (x = r) as -> by congruence|].
      pose proof (proj2 Hs k (Z.to_nat (i - 1)) x r ltac:(lia) Hx Hr). lia. }
    destruct (Z.ltb_spec i (len rs)) as [Hlt|Hge].
    + destruct (slice_get_lt rs i) as (x & Hx & ->); [lia|]. cbn [res_bind]. exists (base x), true. split; [done|].
      destruct (Hk _ x Hx) as [_ H2]. specialize (H2 ltac:(lia)). split; [by eapply Hbase|]. split; [lia|].
      apply (Hleast _ x Hx H2). intros k y Hy Hkj. apply (Hbefore k y Hy). lia.
    + exists 0, false. split; [done|]. intros y (x & Hx & Hy). apply list_elem_of_lookup in Hx as [k Hx].
      pose proof (Hcon k x y Hx Hy). apply lookup_lt_Some in Hx as Hlen. specialize (Hbefore k x Hx). unfold len in *. lia.
Qed.

(** ** [add] and [subtract] *)

Lemma pos_inj x y : 0 <= x < 2 ^ 64 -> 0 <= y < 2 ^ 64 -> pos x = pos y -> x = y.
Proof. unfold pos, u64, arenaBaseOffset. intros. zdiv_lia. Qed.

(** The comparison in [size] is the wrong way round, so [add] takes every
    range that is not empty for an empty one and throws; it accepts only ranges
    whose limit is below their base. *)
Theorem add_rejects_ranges a r :
  0 <= base r < 2 ^ 64 -> 0 <= limit r < 2 ^ 64 ->
  (nonempty r -> size r = 0 /\ add a r = Panic "attempted to add zero-sized address range") /\
  (forall a', add a r = Ok a' -> pos (limit r) < pos (base r)).
Proof.
  intros Hb Hl. unfold nonempty, add, size. rewrite lessThan_pos.
  destruct (Z.ltb_spec (pos (base r)) (pos (limit r))) as [Hlt|Hge]; [by split|]. split; [lia|]. intros a' H.
  destruct (Z.eqb_spec (diff (limit r) (base r)) 0) as [|Hd]; [done|].
  assert (pos (limit r) <> pos (base r)); [|lia]. intros E. apply Hd. apply pos_inj in E; [|done..]. rewrite E. unfold diff.
  by rewrite Z.sub_diag.
Qed.

(** When the bases of two ranges differ and the second is not inside the
    first, [subtract] gives their difference. *)
Theorem subtract_difference a b :
  nonempty a -> nonempty b -> pos (base a) <> pos (base b) ->
  ~ (pos (base a) < pos (base b) /\ pos (limit b) <= pos (limit a)) ->
  exists r, subtract a b = Ok r /\ forall x, contains r x = contains a x && negb (contains b x).
Proof.
  unfold nonempty, subtract. intros Ha Hb Hne Hin. rewrite !lessThan_pos, !lessEqual_pos.
  assert (forall x, pos (base {| base := 0; limit := 0 |}) <= x < pos (limit {| base := 0; limit := 0 |}) -> False) as H0
    by (intros x; cbn; lia).
  destruct (Z.ltb_spec (pos (base b)) (pos (base a))), (Z.leb_spec (pos (limit a)) (pos (limit b))),
    (Z.ltb_spec (pos (base a)) (pos (base b))), (Z.leb_spec (pos (limit b)) (pos (limit a))),
    (Z.ltb_spec (pos (limit b)) (pos (limit a))), (Z.ltb_spec (pos (base a)) (pos (limit b))),
    (Z.ltb_spec (pos (base b)) (pos (limit a))); cbn [andb]; try lia; eexists; (split; [reflexivity|]);
    intros x; apply eq_true_iff_eq; rewrite andb_true_iff, negb_true_iff, <- not_true_iff_false, !contains_pos; cbn [base limit].
  all: try lia.
  all: split; [intros Hx; by apply H0 in Hx|lia].
Qed.

(** Ranges with the same base are not subtracted at all. *)
Lemma subtract_same_base a b :
  pos (base a) = pos (base b) -> pos (limit a) <= pos (limit b) -> subtract a b = Ok a.
Proof.
  intros E Hl. unfold subtract. rewrite !lessThan_pos, !lessEqual_pos, E, Z.ltb_irrefl. cbn [andb].
  destruct (Z.ltb_spec (pos (limit b)) (pos (limit a))); [lia|done].
Qed.

(** ** Examples *)

Definition example_ranges : addrRanges :=
  mkRanges (map (fun i => mkRange (0xc000000000 + i * 0x800000) (0xc000000000 + i * 0x800000 + 0x400000)) (seqZ 0 20)) 32
    (20 * 0x400000).

Lemma sorted_check rs :
  forallb (fun r => pos (base r) <? pos (limit r)) rs = true ->
  (forall i, In i (seq 0 (length rs)) -> forall j, In j (seq (S i) (length rs - S i)) ->
     match rs !! i, rs !! j with Some a, Some b => pos (limit a) <=? pos (base b) | _, _ => true end = true) -> sorted rs.
Proof.
  intros Hne Hs. split.
  - apply Forall_forall. intros r Hr. rewrite forallb_forall in Hne. apply Z.ltb_lt. by apply Hne.
  - intros i j a b Hij Ha Hb. apply lookup_lt_Some in Ha as Hi. apply lookup_lt_Some in Hb as Hj.
    specialize (Hs i ltac:(apply in_seq; lia) j ltac:(apply in_seq; lia)). rewrite Ha, Hb in Hs. by apply Z.leb_le.
Qed.

Lemma example_sorted : sorted (ranges example_ranges).
Proof.
  apply sorted_check; [by vm_compute|]. intros i Hi j Hj.
  assert (forallb (fun i => forallb (fun j => match ranges example_ranges !! i, ranges example_ranges !! j with
     Some a, Some b => pos (limit a) <=? pos (base b) | _, _ => true end) (seq (S i) (20 - S i))) (seq 0 20) = true) as H
    by (by vm_compute).
  rewrite forallb_forall in H. specialize (H i Hi). rewrite forallb_forall in H. by apply H.
Qed.

Lemma findSucc_index_witness :
  exists i, findSucc example_ranges 0xc001c00000 = Ok i /\ succ_index (ranges example_ranges) 0xc001c00000 i.
Proof. apply (findSucc_index example_ranges 0xc001c00000 example_sorted). Defined.

Lemma findAddrGreaterEqual_least_witness :
  exists x ok, findAddrGreaterEqual example_ranges 0xc000400000 = Ok (x, ok) /\
    if ok : bool
    then represented (ranges example_ranges) x /\ pos 0xc000400000 <= pos x /\
         forall y, represented (ranges example_ranges) y -> pos 0xc000400000 <= pos y -> pos x <= pos y
    else forall y, represented (ranges example_ranges) y -> pos y < pos 0xc000400000.
Proof. exact (findAddrGreaterEqual_least example_ranges 0xc000400000 example_sorted). Defined.

Lemma add_rejects_ranges_witness :
  let r := mkRange 0xc000000000 0xc004000000 in
  nonempty r /\ size r = 0 /\ add ranges_init r = Panic "attempted to add zero-sized address range".
Proof.
  split; [by vm_compute|]. apply (add_rejects_ranges ranges_init (mkRange 0xc000000000 0xc004000000)); by vm_compute.
Defined.

Lemma subtract_difference_witness :
  exists r, subtract (mkRange 0xc000000000 0xc004000000) (mkRange 0xc002000000 0xc006000000) = Ok r /\
    forall x, contains r x = contains (mkRange 0xc000000000 0xc004000000) x && negb (contains (mkRange 0xc002000000 0xc006000000) x).
Proof.
  apply (subtract_difference (mkRange 0xc000000000 0xc004000000) (mkRange 0xc002000000 0xc006000000)); [by vm_compute..|].
  intros [_ H]. by vm_compute in H.
Defined.
