(* ===== verification/Regions.v ===== *)
(** * Regions of memory

    A region is its first address and its size.  Lists of regions that have no
    byte in common, whatever their order. *)
From S2P Require Import Prelude.

Local Open Scope Z_scope.

Abbreviation region := (Z * Z)%type.

Definition inside (r : region) (x : Z) : Prop := r.1 <= x < r.1 + r.2.
Definition disjoint (r s : region) : Prop := forall x, inside r x -> inside s x -> False.

#[export] Instance inside_dec r x : Decision (inside r x).
Proof. unfold inside. apply _. Defined.
#[export] Instance disjoint_sym : Symmetric disjoint.
Proof. intros r s H x Hs Hr. by apply (H x). Qed.

Fixpoint apart (rs : list region) : Prop :=
  match rs with
  | [] => True
  | r :: rs => Forall (disjoint r) rs /\ apart rs
  end.

Lemma apart_cons r rs : apart (r :: rs) <-> Forall (disjoint r) rs /\ apart rs.
Proof. done. Qed.

Lemma apart_app l1 l2 : apart (l1 ++ l2) <-> apart l1 /\ apart l2 /\ Forall (fun r => Forall (disjoint r) l2) l1.
Proof.
  induction l1 as [|r l1 IH]; cbn [app].
  - split; [intros H; repeat split; [done|constructor]|by intros (_ & H & _)].
  - rewrite !apart_cons, IH, Forall_cons_iff, List.Forall_app. tauto.
Qed.

#[export] Instance apart_perm : Proper ((≡ₚ) ==> iff) apart.
Proof.
  intros l l' H. induction H as [|r l l' Hp IH|r s l|l1 l2 l3 _ IH1 _ IH2]; [done| | |by rewrite IH1].
  - rewrite !apart_cons, IH. by rewrite Hp.
  - rewrite !apart_cons, !Forall_cons_iff. split; intros ((H & ?) & ? & ?); repeat split; try done; by symmetry.
Qed.

Lemma apart_incl r s rs : (forall x, inside s x -> inside r x) -> apart (r :: rs) -> apart (s :: rs).
Proof.
  rewrite !apart_cons. intros Hs [H ?]. split; [|done]. eapply Forall_impl; [|exact H].
  intros t Ht x Hx Hx'. apply (Ht x); [by apply Hs|done].
Qed.

(** Cutting a region in two. *)
Lemma apart_split a m n rs : 0 <= m <= n -> apart ((a, n) :: rs) -> apart ((a, m) :: (a + m, n - m) :: rs).
Proof.
  rewrite !apart_cons, !Forall_cons_iff. intros Hm [H ?]. split; [split|split]; [| | |done].
  - unfold disjoint, inside. cbn. lia.
  - eapply Forall_impl; [|exact H]. unfold disjoint, inside. cbn. intros t Ht x Hx. apply Ht. lia.
  - eapply Forall_impl; [|exact H]. unfold disjoint, inside. cbn. intros t Ht x Hx. apply Ht. lia.
Qed.

Lemma apart_empty a n rs : n <= 0 -> apart rs -> apart ((a, n) :: rs).
Proof. intros Hn H. apply apart_cons. split; [|done]. apply Forall_forall. unfold disjoint, inside. cbn. lia. Qed.

Lemma apart_lookup rs i j r s : apart rs -> rs !! i = Some r -> rs !! j = Some s -> i <> j -> disjoint r s.
Proof.
  revert i j. induction rs as [|t rs IH]; intros i j; [done|]. rewrite apart_cons. intros [Ht Ha] Hi Hj Hne.
  rewrite Forall_forall in Ht.
  destruct i as [|i], j as [|j]; simplify_eq/=; [|symmetry|]; [| |eapply IH; eauto].
  - apply Ht. apply list_elem_of_In. by eapply list_elem_of_lookup_2.
  - apply Ht. apply list_elem_of_In. by eapply list_elem_of_lookup_2.
Qed.

(** A region none of whose bytes satisfies what the bytes of the others do. *)
Lemma apart_fresh r (P : Z -> Prop) rs :
  (forall x, inside r x -> ~ P x) -> Forall (fun s => forall x, inside s x -> P x) rs -> apart rs -> apart (r :: rs).
Proof.
  intros Hr Hs Ha. apply apart_cons. split; [|done]. eapply Forall_impl; [|exact Hs].
  intros s H x Hx Hx'. apply (Hr x); auto.
Qed.
