(* ===== verification/OsMem.v ===== *)
(** * Memory from the operating system

    [mem.go], [mem_linux.go] and [mstats.go] of [src/memory_and_heap], and the
    reservation helper of [malloc.go].  The system calls are the operations of
    the class [Kernel]; what the code relies on of them is the class
    [KernelOk].  Words written by the runtime are a map, absent words read as
    zero.  A [sysMemStat] pointer is [None] when it is nil. *)
From S2P Require Import Prelude.

Local Open Scope Z_scope.
Local Open Scope go_scope.

(** ** Constants *)

Definition PROT_NONE : Z := 0.
Definition PROT_RW : Z := Z.lor 1 2.
Definition MADV_DONTNEED : Z := 4.
Definition MADV_FREE : Z := 8.
Definition MADV_HUGEPAGE : Z := 14.
Definition MADV_NOHUGEPAGE : Z := 15.
Definition EAGAIN : Z := 11.
Definition ENOMEM : Z := 12.
Definition EACCES : Z := 13.

(** [physPageSize] is set by the OS initialisation code to the size of a page,
    4096 bytes on Linux. *)
Definition physPageSize : Z := 4096.

Definition alignUp (n a : Z) : Z := Z.ldiff (u64 (n + a - 1)) (u64 (a - 1)).
Definition alignDown (n a : Z) : Z := Z.ldiff n (u64 (a - 1)).

(** ** The kernel *)

(** [mmap addr n prot fixed] gives an address and an error number;
    [mapping k x] is the protection of the byte at [x], if it is mapped. *)
Class Kernel (K : Type) : Type := {
  mmap : Z -> Z -> Z -> bool -> K -> (Z * option Z) * K;
  munmap : Z -> Z -> K -> K;
  madvise : Z -> Z -> Z -> K -> Z * K;
  mapping : K -> Z -> option Z }.

(** Bytes [x] of the pages that [a, a+n) touches, for [a] at a page boundary. *)
Definition in_pages (a n x : Z) : bool := (a <=? x) && (x <? a + alignUp n physPageSize).

(** What mmap(2), munmap(2) and madvise(2) document for private anonymous
    mappings. *)
Class KernelOk (K : Type) `{!Kernel K} : Prop := {
  mmap_new a n prot k p k' : mmap a n prot false k = ((p, None), k') -> 0 < n ->
    0 < p /\ p mod physPageSize = 0 /\ p + alignUp n physPageSize <= 2 ^ 48 /\
    (forall x, in_pages p n x = true -> mapping k x = None) /\
    (forall x, mapping k' x = if in_pages p n x then Some prot else mapping k x);
  mmap_fixed a n prot k p k' : mmap a n prot true k = ((p, None), k') -> a mod physPageSize = 0 ->
    p = a /\ forall x, mapping k' x = if in_pages a n x then Some prot else mapping k x;
  mmap_error a n prot fixed k p e k' : mmap a n prot fixed k = ((p, Some e), k') ->
    forall x, mapping k' x = mapping k x;
  munmap_pages a n k x : a mod physPageSize = 0 ->
    mapping (munmap a n k) x = if in_pages a n x then None else mapping k x;
  madvise_keeps a n adv k x : mapping (snd (madvise a n adv k)) x = mapping k x }.

(** ** The state *)

Inductive sysMemStat : Type := mspan_sys | other_sys.

Record persistentAlloc : Type := mkPalloc { pa_base : Z; pa_off : Z }.

Record heap (K : Type) : Type := mkHeap {
  kern : K;
  words : gmap Z Z;
  stat_mspan : Z;
  stat_other : Z;
  has_p : bool;
  p_palloc : persistentAlloc;
  globalAlloc : persistentAlloc;
  persistentChunks : Z;
  adviseUnused : Z;
  madvdontneed : Z;
  harddecommit : Z;
  physHugePageSize : Z }.
Arguments mkHeap {K}.
Arguments kern {K}.
Arguments words {K}.
Arguments stat_mspan {K}.
Arguments stat_other {K}.
Arguments has_p {K}.
Arguments p_palloc {K}.
Arguments globalAlloc {K}.
Arguments persistentChunks {K}.
Arguments adviseUnused {K}.
Arguments madvdontneed {K}.
Arguments harddecommit {K}.
Arguments physHugePageSize {K}.
Definition set_kern {K : Type} (v : K) (x : heap K) : heap K :=
  mkHeap v (words x) (stat_mspan x) (stat_other x) (has_p x) (p_palloc x) (globalAlloc x) (persistentChunks x) (adviseUnused x) (madvdontneed x) (harddecommit x) (physHugePageSize x).
Definition set_words {K : Type} (v : gmap Z Z) (x : heap K) : heap K :=
  mkHeap (kern x) v (stat_mspan x) (stat_other x) (has_p x) (p_palloc x) (globalAlloc x) (persistentChunks x) (adviseUnused x) (madvdontneed x) (harddecommit x) (physHugePageSize x).
Definition set_stat_mspan {K : Type} (v : Z) (x : heap K) : heap K :=
  mkHeap (kern x) (words x) v (stat_other x) (has_p x) (p_palloc x) (globalAlloc x) (persistentChunks x) (adviseUnused x) (madvdontneed x) (harddecommit x) (physHugePageSize x).
Definition set_stat_other {K : Type} (v : Z) (x : heap K) : heap K :=
  mkHeap (kern x) (words x) (stat_mspan x) v (has_p x) (p_palloc x) (globalAlloc x) (persistentChunks x) (adviseUnused x) (madvdontneed x) (harddecommit x) (physHugePageSize x).
Definition set_has_p {K : Type} (v : bool) (x : heap K) : heap K :=
  mkHeap (kern x) (words x) (stat_mspan x) (stat_other x) v (p_palloc x) (globalAlloc x) (persistentChunks x) (adviseUnused x) (madvdontneed x) (harddecommit x) (physHugePageSize x).
Definition set_p_palloc {K : Type} (v : persistentAlloc) (x : heap K) : heap K :=
  mkHeap (kern x) (words x) (stat_mspan x) (stat_other x) (has_p x) v (globalAlloc x) (persistentChunks x) (adviseUnused x) (madvdontneed x) (harddecommit x) (physHugePageSize x).
Definition set_globalAlloc {K : Type} (v : persistentAlloc) (x : heap K) : heap K :=
  mkHeap (kern x) (words x) (stat_mspan x) (stat_other x) (has_p x) (p_palloc x) v (persistentChunks x) (adviseUnused x) (madvdontneed x) (harddecommit x) (physHugePageSize x).
Definition set_persistentChunks {K : Type} (v : Z) (x : heap K) : heap K :=
  mkHeap (kern x) (words x) (stat_mspan x) (stat_other x) (has_p x) (p_palloc x) (globalAlloc x) v (adviseUnused x) (madvdontneed x) (harddecommit x) (physHugePageSize x).
Definition set_adviseUnused {K : Type} (v : Z) (x : heap K) : heap K :=
  mkHeap (kern x) (words x) (stat_mspan x) (stat_other x) (has_p x) (p_palloc x) (globalAlloc x) (persistentChunks x) v (madvdontneed x) (harddecommit x) (physHugePageSize x).
Definition set_madvdontneed {K : Type} (v : Z) (x : heap K) : heap K :=
  mkHeap (kern x) (words x) (stat_mspan x) (stat_other x) (has_p x) (p_palloc x) (globalAlloc x) (persistentChunks x) (adviseUnused x) v (harddecommit x) (physHugePageSize x).
Definition set_harddecommit {K : Type} (v : Z) (x : heap K) : heap K :=
  mkHeap (kern x) (words x) (stat_mspan x) (stat_other x) (has_p x) (p_palloc x) (globalAlloc x) (persistentChunks x) (adviseUnused x) (madvdontneed x) v (physHugePageSize x).
Definition set_physHugePageSize {K : Type} (v : Z) (x : heap K) : heap K :=
  mkHeap (kern x) (words x) (stat_mspan x) (stat_other x) (has_p x) (p_palloc x) (globalAlloc x) (persistentChunks x) (adviseUnused x) (madvdontneed x) (harddecommit x) v.

Section OsMem.
Context {K : Type} `{!Kernel K}.
#[local] Abbreviation M := (stateful (heap K) Empty_set).

Definition throw {A} (s : string) : M A := st_lift (Panic s).

(** Calls of the kernel; new memory is zero. *)
Definition clear_words (a n : Z) (w : gmap Z Z) : gmap Z Z := filter (fun p => ~ (a <= p.1 < a + n)) w.
Definition call_mmap (addr n prot : Z) (fixed : bool) : M (Z * option Z) :=
  fun h =>
    let '((p, e), k) := mmap addr n prot fixed (kern h) in
    (Ok (p, e), set_kern k (match e with None => set_words (clear_words p (alignUp n physPageSize) (words h)) h | _ => h end)).
Definition call_munmap (a n : Z) : M unit := st_mod (fun h => set_kern (munmap a n (kern h)) h).
Definition call_madvise (a n adv : Z) : M Z :=
  fun h => let '(e, k) := madvise a n adv (kern h) in (Ok e, set_kern k h).

(** ** [mstats.go] *)

Definition load_stat (s : sysMemStat) (h : heap K) : Z := match s with mspan_sys => stat_mspan h | other_sys => stat_other h end.
Definition set_stat (s : sysMemStat) (v : Z) (h : heap K) : heap K :=
  match s with mspan_sys => set_stat_mspan v h | other_sys => set_stat_other v h end.

Definition stat_add (s : option sysMemStat) (n : Z) : M unit :=
  match s with
  | None => throw "invalid memory address or nil pointer dereference"
  | Some s => fun h =>
      let val := u64 (load_stat s h + n) in
      let h := set_stat s val h in
      if (0 <? n) && (i64 val <? n) || (n <? 0) && (i64 (i64 val + n) <? n)
      then (Panic "sysMemStat overflow", h) else (Ok tt, h)
  end.

(** ** [mem_linux.go] and [mem.go] *)

Definition sysAllocOS (n : Z) : M Z :=
  let* r := call_mmap 0 n PROT_RW false in
  match r with
  | (p, None) => st_ret p
  | (_, Some errno) => if (errno =? EACCES) || (errno =? EAGAIN) then throw "exit(2)" else st_ret 0
  end.

Definition sysAlloc (n : Z) (stat : option sysMemStat) : M Z := stat_add stat n ;;; sysAllocOS n.

Definition sysFreeOS (v n : Z) : M unit := call_munmap v n.
Definition sysFree (v n : Z) (stat : option sysMemStat) : M unit := stat_add stat (- n) ;;; sysFreeOS v n.

Definition sysReserveOS (v n : Z) : M Z :=
  let* r := call_mmap v n PROT_NONE false in
  match r with (p, None) => st_ret p | (_, Some _) => st_ret 0 end.
Definition sysReserve (v n : Z) : M Z := sysReserveOS v n.

Definition sysMapOS (v n : Z) : M unit :=
  let* r := call_mmap v n PROT_RW true in
  match r with
  | (p, None) => if negb (p =? v) then throw "runtime: cannot map pages in arena address space" else st_ret tt
  | (_, Some errno) =>
      if errno =? ENOMEM then throw "runtime: out of memory"
      else throw "runtime: cannot map pages in arena address space"
  end.
Definition sysMap (v n : Z) (stat : option sysMemStat) : M unit := stat_add stat n ;;; sysMapOS v n.

Definition sysHugePageOS (v n : Z) : M unit :=
  let* h := st_get in
  let size := physHugePageSize h in
  if negb (size =? 0) then
    let beg := alignUp v size in
    let end_ := alignDown (u64 (v + n)) size in
    if beg <? end_ then call_madvise beg (u64 (end_ - beg)) MADV_HUGEPAGE ;;; st_ret tt else st_ret tt
  else st_ret tt.

Definition sysUsedOS (v n : Z) : M unit :=
  let* h := st_get in
  (if 0 <? harddecommit h then
     let* r := call_mmap v n PROT_RW true in
     match r with
     | (p, None) => if negb (p =? v) then throw "runtime: cannot remap pages in address space" else st_ret tt
     | (_, Some errno) =>
         if errno =? ENOMEM then throw "runtime: out of memory"
         else throw "runtime: cannot remap pages in address space"
     end
   else st_ret tt) ;;;
  sysHugePageOS v n.

(** The remapping without protections, which the source does twice. *)
Definition decommit (v n : Z) : M unit :=
  let* h := st_get in
  if 0 <? harddecommit h then
    let* r := call_mmap v n PROT_NONE true in
    match r with
    | (p, None) => if negb (p =? v) then throw "runtime: cannot disable permissions in address space" else st_ret tt
    | (_, Some _) => throw "runtime: cannot disable permissions in address space"
    end
  else st_ret tt.

(** Keeps huge pages at the ends from covering memory still in use. *)
Definition split_huge_pages (v n : Z) : M unit :=
  let* h := st_get in
  let size := physHugePageSize h in
  if negb (size =? 0) then
    let head := if negb (Z.land v (u64 (size - 1)) =? 0) then alignDown v size else 0 in
    let tail := if negb (Z.land (u64 (v + n)) (u64 (size - 1)) =? 0) then alignDown (u64 (v + n - 1)) size else 0 in
    if negb (head =? 0) && (u64 (head + size) =? tail) then
      call_madvise head (u64 (2 * size)) MADV_NOHUGEPAGE ;;; st_ret tt
    else
      (if negb (head =? 0) then call_madvise head size MADV_NOHUGEPAGE ;;; st_ret tt else st_ret tt) ;;;
      (if negb (tail =? 0) && negb (tail =? head) then call_madvise tail size MADV_NOHUGEPAGE ;;; st_ret tt else st_ret tt)
  else st_ret tt.

Definition sysUnusedOS (v n : Z) : M unit :=
  split_huge_pages v n ;;;
  if negb (Z.land v (physPageSize - 1) =? 0) || negb (Z.land n (physPageSize - 1) =? 0) then throw "unaligned sysUnused"
  else
    let* h := st_get in
    let advise := if negb (madvdontneed h =? 0) then MADV_DONTNEED else adviseUnused h in
    let* errno := call_madvise v n advise in
    (if (advise =? MADV_FREE) && negb (errno =? 0) then
       st_mod (set_adviseUnused MADV_DONTNEED) ;;; call_madvise v n MADV_DONTNEED ;;; st_ret tt
     else st_ret tt) ;;;
    decommit v n ;;;
    decommit v n.

(** ** [sysReserveAligned] *)

Definition sysReserveAligned (v size align : Z) : M (Z * Z) :=
  let* p := sysReserve v (u64 (size + align)) in
  if p =? 0 then st_ret (0, 0)
  else if Z.land p (u64 (align - 1)) =? 0 then st_ret (p, u64 (size + align))
  else
    let pAligned := alignUp p align in
    sysFreeOS p (u64 (pAligned - p)) ;;;
    let end_ := u64 (pAligned + size) in
    let endLen := u64 (p + size + align - end_) in
    (if 0 <? endLen then sysFreeOS end_ endLen else st_ret tt) ;;;
    st_ret (pAligned, size).

(** ** Rounding *)

Section Align.
Context (k : Z) (Hk : 0 <= k < 64).

Lemma u64_pow2_pred : u64 (2 ^ k - 1) = Z.ones k.
Proof.
  rewrite Z.ones_equiv, <- Z.sub_1_r. apply u64_small. pose proof (pow2_pos k ltac:(lia)).
  pose proof (Z.pow_lt_mono_r 2 k 64 ltac:(lia) ltac:(lia) ltac:(lia)). lia.
Qed.

Lemma ldiff_ones n : Z.ldiff n (Z.ones k) = n / 2 ^ k * 2 ^ k.
Proof. by rewrite Z.ldiff_ones_r, Z.shiftr_div_pow2, Z.shiftl_mul_pow2 by lia. Qed.

Lemma alignDown_eq n : alignDown n (2 ^ k) = n / 2 ^ k * 2 ^ k.
Proof. unfold alignDown. by rewrite u64_pow2_pred, ldiff_ones. Qed.

Lemma alignUp_eq n : 0 <= n -> n + 2 ^ k <= 2 ^ 64 -> alignUp n (2 ^ k) = (n + 2 ^ k - 1) / 2 ^ k * 2 ^ k.
Proof.
  intros Hn Hle. pose proof (pow2_pos k ltac:(lia)). unfold alignUp. rewrite u64_pow2_pred, ldiff_ones.
  by rewrite u64_small by lia.
Qed.

(** The least multiple of [2^k] that is not below [n]. *)
Lemma alignUp_spec n : 0 <= n -> n + 2 ^ k <= 2 ^ 64 ->
  n <= alignUp n (2 ^ k) < n + 2 ^ k /\ alignUp n (2 ^ k) mod 2 ^ k = 0.
Proof.
  intros Hn Hle. rewrite alignUp_eq by done. pose proof (pow2_pos k ltac:(lia)).
  rewrite Z.mod_mul by lia. pose proof (Z.div_mod (n + 2 ^ k - 1) (2 ^ k) ltac:(lia)).
  pose proof (Z.mod_pos_bound (n + 2 ^ k - 1) (2 ^ k) ltac:(lia)). lia.
Qed.

Lemma alignUp_id n : 0 <= n -> n + 2 ^ k <= 2 ^ 64 -> n mod 2 ^ k = 0 -> alignUp n (2 ^ k) = n.
Proof.
  intros Hn Hle Hm. rewrite alignUp_eq by done. pose proof (pow2_pos k ltac:(lia)).
  apply Z.mod_divide in Hm as [q ->]; [|lia].
  replace (q * 2 ^ k + 2 ^ k - 1) with (2 ^ k - 1 + q * 2 ^ k) by lia. rewrite Z.div_add, Z.div_small by lia. lia.
Qed.

Lemma aligned_test n : (Z.land n (u64 (2 ^ k - 1)) =? 0) = (n mod 2 ^ k =? 0).
Proof. by rewrite u64_pow2_pred, Z.land_ones by lia. Qed.

End Align.

Lemma mod_mod_0 n a b : 0 <= a <= b -> n mod 2 ^ b = 0 -> n mod 2 ^ a = 0.
Proof. intros Hab Hn. rewrite <- (mod_pow2_mod_pow2 n b a) by lia. by rewrite Hn, Z.mod_0_l by (pose proof (pow2_pos a); lia). Qed.

Lemma page_pow2 : physPageSize = 2 ^ 12.
Proof. done. Qed.

(** ** Mappings *)

(** The bytes of [p, p+n) get the protection [prot], nothing else changes. *)
Definition remapped (p n : Z) (prot : option Z) (k k' : K) : Prop :=
  forall x, mapping k' x = if (p <=? x) && (x <? p + n) then prot else mapping k x.

Context `{!KernelOk K}.

Lemma in_pages_eq a n x : 0 <= n -> n + physPageSize <= 2 ^ 64 -> n mod physPageSize = 0 ->
  in_pages a n x = (a <=? x) && (x <? a + n).
Proof. intros ???. unfold in_pages. by rewrite page_pow2, alignUp_id. Qed.

Lemma sysFreeOS_ok v n h : v mod physPageSize = 0 -> 0 <= n -> n + physPageSize <= 2 ^ 64 -> n mod physPageSize = 0 ->
  exists h', sysFreeOS v n h = (Ok tt, h') /\ remapped v n None (kern h) (kern h').
Proof.
  intros Hv Hn Hl Hm. eexists. split; [reflexivity|]. intros x. cbn [kern set_kern].
  by rewrite munmap_pages, in_pages_eq.
Qed.

Lemma sysReserve_ok v n h : 0 < n -> n + physPageSize <= 2 ^ 64 -> n mod physPageSize = 0 ->
  exists p h', sysReserve v n h = (Ok p, h') /\
    (p = 0 /\ (forall x, mapping (kern h') x = mapping (kern h) x) \/
     0 < p /\ p mod physPageSize = 0 /\ p + n <= 2 ^ 48 /\
    (forall x, p <= x < p + n -> mapping (kern h) x = None) /\ remapped p n (Some PROT_NONE) (kern h) (kern h')).
Proof.
  intros Hn Hl Hm. unfold sysReserve, sysReserveOS, call_mmap, st_bind.
  destruct (mmap v n PROT_NONE false (kern h)) as [[p [e|]] k] eqn:E.
  - do 2 eexists. split; [reflexivity|]. left. split; [done|]. by eapply mmap_error.
  - apply mmap_new in E as (Hp & Ha & Hb & Hnone & Hmap); [|done]. do 2 eexists. split; [reflexivity|]. right.
    change (alignUp n physPageSize) with (alignUp n (2 ^ 12)) in Hb. rewrite alignUp_id in Hb by (done || unfold physPageSize in *; lia).
    split; [done|]. split; [done|]. split; [done|]. cbn [kern set_kern set_words]. split.
    + intros x Hx. apply Hnone. rewrite in_pages_eq by (done || lia). lia.
    + intros x. rewrite Hmap. by rewrite in_pages_eq by (done || lia).
Qed.

(** [sysReserveAligned] returns an aligned region of at least the size
    asked for that was free before, reserves exactly that region, and returns
    the rest of what it had to ask for; when the kernel refuses it returns
    [nil, 0] and changes nothing. *)
Theorem sysReserveAligned_exact v size a h :
  12 <= a <= 47 -> 0 < size -> size mod physPageSize = 0 -> size + 2 ^ a <= 2 ^ 48 ->
  exists p n h', sysReserveAligned v size (2 ^ a) h = (Ok (p, n), h') /\
    (p = 0 /\ n = 0 /\ (forall x, mapping (kern h') x = mapping (kern h) x) \/
     0 < p /\ p mod 2 ^ a = 0 /\ size <= n /\ (forall x, p <= x < p + n -> mapping (kern h) x = None) /\
     remapped p n (Some PROT_NONE) (kern h) (kern h')).
Proof.
  intros Ha Hs Hm Hle. pose proof (pow2_pos a ltac:(lia)) as Hpos. unfold sysReserveAligned.
  rewrite (u64_small (size + 2 ^ a)) by lia.
  assert (2 ^ a mod physPageSize = 0) as Hma.
  { replace a with (a - 12 + 12) by lia. rewrite Z.pow_add_r, page_pow2 by lia. by apply Z.mod_mul. }
  assert ((size + 2 ^ a) mod physPageSize = 0) as Hms by (by rewrite Z.add_mod, Hm, Hma by done).
  destruct (sysReserve_ok v (size + 2 ^ a) h) as (p & h1 & E & Hp); [lia|unfold physPageSize; lia|done|].
  unfold st_bind at 1. rewrite E. destruct Hp as [[-> Hp]|(Hp & Hpa & Hb & Hnone & Hmap)].
  { exists 0, 0, h1. split; [done|]. by left. }
  destruct (Z.eqb_spec p 0) as [|_]; [lia|]. rewrite aligned_test by lia.
  destruct (Z.eqb_spec (p mod 2 ^ a) 0) as [Hal|Hal].
  { exists p, (size + 2 ^ a), h1. split; [done|]. right. repeat (split; [done || lia|]). done. }
  destruct (alignUp_spec a ltac:(lia) p ltac:(lia) ltac:(lia)) as [Hup Hmod]. set (q := alignUp p (2 ^ a)) in *.
  assert (q mod physPageSize = 0) as Hqp by (apply (mod_mod_0 q 12 a); [lia|done]).
  rewrite (u64_small (q - p)), (u64_small (q + size)), (u64_small (p + size + 2 ^ a - (q + size))) by lia.
  destruct (sysFreeOS_ok p (q - p) h1) as (h2 & E2 & Hmap2); [done|lia|unfold physPageSize; lia|by rewrite Zminus_mod, Hqp, Hpa|].
  unfold st_bind at 1. rewrite E2.
  destruct (Z.ltb_spec 0 (p + size + 2 ^ a - (q + size))) as [Hend|Hend]; [|lia].
  destruct (sysFreeOS_ok (q + size) (p + size + 2 ^ a - (q + size)) h2) as (h3 & E3 & Hmap3).
  - by rewrite Z.add_mod, Hqp, Hm.
  - lia.
  - unfold physPageSize. lia.
  - replace (p + size + 2 ^ a - (q + size)) with (p + 2 ^ a - q) by lia.
    by rewrite Zminus_mod, Z.add_mod, Hpa, Hma, Hqp.
  - unfold st_bind. rewrite E3. exists q, size, h3. split; [done|]. right. split; [lia|]. split; [done|]. split; [lia|].
    split; [intros x Hx; apply Hnone; lia|]. intros x. rewrite Hmap3, Hmap2, Hmap.
    repeat match goal with |- context [(?a <=? ?b)] => destruct (Z.leb_spec a b)
      | |- context [(?a <? ?b)] => destruct (Z.ltb_spec a b) end; cbn [andb]; try lia; try done.
    all: symmetry; apply Hnone; lia.
Qed.

End OsMem.

(** ** A kernel

    The mappings made so far, the last one first.  New memory is put at the
    hint when nothing was ever mapped above it, and above everything else
    otherwise. *)

Definition space : Type := list (Z * Z * option Z).

Fixpoint space_mapping (k : space) (x : Z) : option Z :=
  match k with
  | [] => None
  | (a, n, prot) :: k => if (a <=? x) && (x <? a + n) then prot else space_mapping k x
  end.

Definition space_limit (k : space) : Z := foldr (fun r t => Z.max (r.1.1 + r.1.2) t) physPageSize k.
Definition space_top (k : space) : Z := alignUp (space_limit k) physPageSize.

Definition space_mmap (a n prot : Z) (fixed : bool) (k : space) : (Z * option Z) * space :=
  let m := alignUp n physPageSize in
  let p := if fixed || (a mod physPageSize =? 0) && (space_top k <=? a) then a else space_top k in
  if (n <=? 0) || (2 ^ 46 <? n) || negb (p mod physPageSize =? 0) then ((0, Some 22), k)
  else if (2 ^ 47 <? p + m) || (2 ^ 47 <? space_limit k)
  then ((0, Some ENOMEM), k)
  else ((p, None), (p, m, Some prot) :: k).

#[export] Instance space_kernel : Kernel space := {
  mmap := space_mmap;
  munmap a n k := (a, alignUp n physPageSize, None) :: k;
  madvise a n adv k := (0, k);
  mapping := space_mapping }.

Lemma space_above k : space_limit k <= 2 ^ 47 ->
  0 < space_top k /\ space_top k mod physPageSize = 0 /\ forall x, space_top k <= x -> space_mapping k x = None.
Proof.
  intros Hb. unfold space_top. set (t := space_limit k) in *.
  assert (physPageSize <= t /\ forall x, t <= x -> space_mapping k x = None) as [Ht Hk].
  { clear Hb. subst t. induction k as [|[[a n] prot] k [IH IH']]; [by split|].
    change (space_limit ((a, n, prot) :: k)) with (Z.max (a + n) (space_limit k)). cbn [space_mapping].
    split; [lia|]. intros x Hx. destruct (Z.ltb_spec x (a + n)); [lia|]. rewrite andb_false_r. apply IH'. lia. }
  destruct (alignUp_spec 12 ltac:(lia) t) as [Hup Hm]; [unfold physPageSize in Ht; lia|lia|].
  rewrite <- page_pow2 in Hup, Hm. unfold physPageSize in Ht. split; [lia|]. split; [done|]. intros x Hx. apply Hk. lia.
Qed.

#[export] Instance space_kernel_ok : KernelOk space.
Proof.
  split; cbn [mmap munmap madvise mapping space_kernel]; try done.
  - unfold space_mmap. intros a n prot k p k' E Hn. cbn [orb] in E. repeat case_match; try done.
    all: injection E as <- <-; bool_to_Prop.
      all: destruct (space_above k ltac:(lia)) as (Ht & Hm & Hk).
    all: split; [lia|]; split; [assumption|]; split; [lia|]; split; [|done].
    all: unfold in_pages; intros x Hx; apply Hk; lia.
  - unfold space_mmap. intros a n prot k p k' E Ha. cbn [orb] in E. repeat case_match; try done. by injection E as <- <-.
  - unfold space_mmap. intros a n prot fixed k p e k' E. repeat case_match; try done; by injection E as <- <- <-.
Qed.

(** The heap before the first allocation; the thread may run without a P. *)
Definition heap_init (p : bool) : heap space :=
  mkHeap [] ∅ 0 0 p (mkPalloc 0 0) (mkPalloc 0 0) 0 MADV_FREE 0 0 (2 ^ 21).

Lemma sysReserveAligned_exact_witness :
  exists p n h', sysReserveAligned 0xc000001000 (2 ^ 26) (2 ^ 26) (heap_init true) = (Ok (p, n), h') /\
    (p = 0 /\ n = 0 /\ (forall x, mapping (kern h') x = mapping (kern (heap_init true)) x) \/
     0 < p /\ p mod 2 ^ 26 = 0 /\ 2 ^ 26 <= n /\
     (forall x, p <= x < p + n -> mapping (kern (heap_init true)) x = None) /\
     remapped p n (Some PROT_NONE) (kern (heap_init true)) (kern h')).
Proof. apply (sysReserveAligned_exact 0xc000001000 (2 ^ 26) 26 (heap_init true)); by vm_compute. Defined.

(** An address at a page boundary only is moved up to the next arena. *)
Example sysReserveAligned_moves :
  fst (sysReserveAligned 0xc000001000 (2 ^ 26) (2 ^ 26) (heap_init true)) = Ok (0xc004000000, 2 ^ 26).
Proof. reflexivity. Qed.
