(* ===== verification/OffHeap.v ===== *)
(** * Memory outside the heap

    [persistentalloc] and the linear allocator of [malloc.go], and the fixed-size
    allocator of [mfixalloc.go] ([src/memory_and_heap]).  The only words these
    allocators read or write are the first words of chunks and of free blocks,
    at addresses that are multiples of eight.  Locks are empty in the source. *)
From S2P Require Import Prelude OsMem.

Local Open Scope Z_scope.
Local Open Scope go_scope.

Definition PtrSize : Z := 8.
Definition PageSize : Z := 8192.
Definition persistentChunkSize : Z := 256 * 1024.
Definition maxBlock : Z := 64 * 1024.
Definition FixAllocChunk : Z := 16 * 1024.

(** [f.first] and its argument stay together; the state of an allocator. *)
Record fixalloc (K : Type) : Type := mkFixalloc {
  f_size : Z;
  f_first : option (Z -> Z -> stateful (heap K) Empty_set unit);
  f_arg : Z;
  f_list : Z;
  f_nalloc : Z;
  f_chunk : Z;
  f_nchunk : Z;
  f_inuse : Z;
  f_stat : option sysMemStat;
  f_zero : bool }.
Arguments mkFixalloc {K}.
Arguments f_size {K}.
Arguments f_first {K}.
Arguments f_arg {K}.
Arguments f_list {K}.
Arguments f_nalloc {K}.
Arguments f_chunk {K}.
Arguments f_nchunk {K}.
Arguments f_inuse {K}.
Arguments f_stat {K}.
Arguments f_zero {K}.
Definition set_f_list {K : Type} (v : Z) (x : fixalloc K) : fixalloc K :=
  mkFixalloc (f_size x) (f_first x) (f_arg x) v (f_nalloc x) (f_chunk x) (f_nchunk x) (f_inuse x) (f_stat x) (f_zero x).
Definition set_f_chunk {K : Type} (v : Z) (x : fixalloc K) : fixalloc K :=
  mkFixalloc (f_size x) (f_first x) (f_arg x) (f_list x) (f_nalloc x) v (f_nchunk x) (f_inuse x) (f_stat x) (f_zero x).
Definition set_f_nchunk {K : Type} (v : Z) (x : fixalloc K) : fixalloc K :=
  mkFixalloc (f_size x) (f_first x) (f_arg x) (f_list x) (f_nalloc x) (f_chunk x) v (f_inuse x) (f_stat x) (f_zero x).
Definition set_f_inuse {K : Type} (v : Z) (x : fixalloc K) : fixalloc K :=
  mkFixalloc (f_size x) (f_first x) (f_arg x) (f_list x) (f_nalloc x) (f_chunk x) (f_nchunk x) v (f_stat x) (f_zero x).

Section OffHeap.
Context {K : Type} `{!Kernel K}.
#[local] Abbreviation M := (stateful (heap K) Empty_set).

(** ** Access to memory *)

Definition byte_rw (h : heap K) (x : Z) : bool := match mapping (kern h) x with Some p => p =? PROT_RW | None => false end.
Definition range_rw (a n : Z) (h : heap K) : bool := forallb (byte_rw h) (seqZ a n).
Definition fault : string := "unexpected fault address".

Definition load_word (a : Z) : M Z :=
  fun h => if range_rw a PtrSize h then (Ok (default 0 (words h !! a)), h) else (Panic fault, h).
Definition store_word (a v : Z) : M unit :=
  fun h => if range_rw a PtrSize h then (Ok tt, set_words (<[a := v]> (words h)) h) else (Panic fault, h).
Definition memclrNoHeapPointers (a n : Z) : M unit :=
  fun h => if range_rw a n h then (Ok tt, set_words (clear_words a n (words h)) h) else (Panic fault, h).

(** ** [persistentalloc] *)

(** [persistent]: the P's allocator when the thread runs with a P. *)
Definition persistent (h : heap K) : persistentAlloc := if has_p h then p_palloc h else globalAlloc h.
Definition set_persistent (pa : persistentAlloc) (h : heap K) : heap K :=
  if has_p h then set_p_palloc pa h else set_globalAlloc pa h.

Definition is_other (s : option sysMemStat) : bool := match s with Some other_sys => true | _ => false end.

(** A new chunk, linked in front of [persistentChunks] through its first word. *)
Definition persistent_chunk (align : Z) : M unit :=
  let* base := sysAlloc persistentChunkSize (Some other_sys) in
  st_mod (fun h => set_persistent (mkPalloc base (pa_off (persistent h))) h) ;;;
  if base =? 0 then throw "runtime: cannot allocate memory"
  else
    let* h := st_get in
    store_word base (persistentChunks h) ;;;
    st_mod (set_persistentChunks base) ;;;
    st_mod (fun h => set_persistent (mkPalloc base (alignUp PtrSize align)) h).

Definition persistentalloc1 (size align : Z) (sysStat : option sysMemStat) : M Z :=
  if size =? 0 then throw "persistentalloc: size == 0"
  else if negb (align =? 0) && negb (Z.land align (align - 1) =? 0) then throw "persistentalloc: align is not a power of 2"
  else if PageSize <? align then throw "persistentalloc: align is too large"
  else
    let align := if align =? 0 then 8 else align in
    if maxBlock <=? size then sysAlloc size sysStat
    else
      st_mod (fun h => set_persistent (mkPalloc (pa_base (persistent h)) (alignUp (pa_off (persistent h)) align)) h) ;;;
      let* h := st_get in
      (if (persistentChunkSize <? u64 (pa_off (persistent h) + size)) || (pa_base (persistent h) =? 0)
       then persistent_chunk align else st_ret tt) ;;;
      let* h := st_get in
      let base := pa_base (persistent h) in
      let off := pa_off (persistent h) in
      st_mod (set_persistent (mkPalloc base (u64 (off + size)))) ;;;
      (if negb (is_other sysStat) then stat_add sysStat size ;;; stat_add (Some other_sys) (- size) else st_ret tt) ;;;
      st_ret (u64 (base + off)).

Definition persistentalloc (size align : Z) (sysStat : option sysMemStat) : M Z := persistentalloc1 size align sysStat.

(** ** [fixalloc] *)

#[local] Abbreviation F := (stateful (fixalloc K * heap K) Empty_set).

Definition on_heap {A} (m : M A) : F A := fun s => let '(r, h) := m (snd s) in (r, (fst s, h)).
Definition upd (g : fixalloc K -> fixalloc K) : F unit := st_mod (fun s => (g (fst s), snd s)).

Definition init (size : Z) (first : option (Z -> Z -> M unit)) (arg : Z) (stat : option sysMemStat) : res Empty_set (fixalloc K) :=
  if FixAllocChunk <? size then Panic "runtime: fixalloc size too large"
  else
    let min := 8 in
    let size := if size <? min then min else size in
    Ok (mkFixalloc size first arg 0 (u32 (FixAllocChunk / size * size)) 0 0 0 stat true).

Definition alloc : F Z :=
  let* s := st_get in
  let f := fst s in
  if f_size f =? 0 then on_heap (throw "runtime: internal error")
  else if negb (f_list f =? 0) then
    let v := f_list f in
    let* next := on_heap (load_word v) in
    upd (set_f_list next) ;;;
    upd (fun f => set_f_inuse (u64 (f_inuse f + f_size f)) f) ;;;
    (if f_zero f then on_heap (memclrNoHeapPointers v (f_size f)) else st_ret tt) ;;;
    st_ret v
  else
    (if f_nchunk f <? f_size f then
       let* p := on_heap (persistentalloc (f_nalloc f) 0 (f_stat f)) in
       upd (set_f_chunk p) ;;;
       upd (fun f => set_f_nchunk (f_nalloc f) f)
     else st_ret tt) ;;;
    let* s := st_get in
    let f := fst s in
    let v := f_chunk f in
    match f_first f with None => st_ret tt | Some first => on_heap (first (f_arg f) v) end ;;;
    upd (fun f => set_f_chunk (u64 (f_chunk f + f_size f)) f) ;;;
    upd (fun f => set_f_nchunk (u32 (f_nchunk f - u32 (f_size f))) f) ;;;
    upd (fun f => set_f_inuse (u64 (f_inuse f + f_size f)) f) ;;;
    st_ret v.

Definition free (p : Z) : F unit :=
  upd (fun f => set_f_inuse (u64 (f_inuse f - f_size f)) f) ;;;
  let* s := st_get in
  on_heap (store_word p (f_list (fst s))) ;;;
  upd (set_f_list p).

End OffHeap.

(** ** [linearAlloc] *)

Record linearAlloc : Type := mkLinear { next : Z; mapped : Z; end_ : Z; mapMemory : bool }.

Definition linear_init (base size : Z) (mapMemory : bool) : linearAlloc :=
  let size := if u64 (base + size) <? base then u64 (size - 1) else size in
  mkLinear base base (u64 (base + size)) mapMemory.

Definition linear_alloc (l : linearAlloc) (size align : Z) : Z :=
  let p := alignUp (next l) align in
  if end_ l <? u64 (p + size) then 0 else p.
