(* ===== verification/PersistentProps.v ===== *)
(** * The persistent allocator hands out fresh memory

    Against the laws of the kernel: a block of [persistentalloc] is aligned,
    zero, mapped for reading and writing, and has no byte in common with any
    block handed out before. *)
From S2P Require Import Prelude OsMem Regions OffHeap.

Local Open Scope Z_scope.
Local Open Scope go_scope.

Section Persistent.
Context {K : Type} `{!Kernel K}.
Implicit Types h : heap K.

(** ** The invariant *)

(** What is left of the chunk of an allocator. *)
Definition rest (pa : persistentAlloc) : region :=
  (pa_base pa + pa_off pa, if pa_base pa =? 0 then 0 else persistentChunkSize - pa_off pa).

Definition pa_ok (pa : persistentAlloc) : Prop :=
  pa_base pa = 0 /\ pa_off pa = 0 \/
  0 < pa_base pa /\ pa_base pa mod physPageSize = 0 /\ pa_base pa + persistentChunkSize <= 2 ^ 48 /\
  0 <= pa_off pa <= persistentChunkSize.

(** The allocator that the thread does not use now. *)
Definition idle h : persistentAlloc := if has_p h then globalAlloc h else p_palloc h.

Definition mapped_rw h (r : region) : Prop := forall x, inside r x -> mapping (kern h) x = Some PROT_RW.
Definition zeroed h (r : region) : Prop := forall x, inside r x -> words h !! x = None.
Definition same_words (used : list region) h h' : Prop :=
  Forall (fun r => forall x, inside r x -> words h' !! x = words h !! x) used.

Definition regions h (used : list region) : list region := rest (persistent h) :: rest (idle h) :: used.

(** The memory in use and what is left of the chunks are apart and mapped, the
    rest of the chunks is zero and accounted for. *)
Record heap_inv h (used : list region) : Prop := {
  inv_pa : pa_ok (persistent h) /\ pa_ok (idle h);
  inv_apart : apart (regions h used);
  inv_mapped : Forall (mapped_rw h) (regions h used);
  inv_zero : zeroed h (rest (persistent h)) /\ zeroed h (rest (idle h));
  inv_stat : (rest (persistent h)).2 + (rest (idle h)).2 <= stat_other h /\ 0 <= stat_mspan h }.

Definition stats_small h : Prop := stat_mspan h <= 2 ^ 62 /\ stat_other h <= 2 ^ 62.

(** The kernel has no memory for a mapping of [n] bytes. *)
Definition refused (n : Z) h : Prop := exists q e k, mmap 0 n PROT_RW false (kern h) = ((q, Some e), k).

(** ** The parts of the state *)

Lemma persistent_set pa h : persistent (set_persistent pa h) = pa.
Proof. unfold persistent, set_persistent. by destruct (has_p h) eqn:E; cbn; rewrite E. Qed.
Lemma idle_set pa h : idle (set_persistent pa h) = idle h.
Proof. unfold idle, set_persistent. by destruct (has_p h) eqn:E; cbn; rewrite E. Qed.
Lemma set_set pa pa' h : set_persistent pa (set_persistent pa' h) = set_persistent pa h.
Proof. unfold set_persistent. by destruct (has_p h) eqn:E; cbn; rewrite E. Qed.
Lemma kern_set pa h : kern (set_persistent pa h) = kern h.
Proof. unfold set_persistent. by destruct (has_p h). Qed.
Lemma words_set pa h : words (set_persistent pa h) = words h.
Proof. unfold set_persistent. by destruct (has_p h). Qed.
Lemma stat_other_set pa h : stat_other (set_persistent pa h) = stat_other h.
Proof. unfold set_persistent. by destruct (has_p h). Qed.
Lemma stat_mspan_set pa h : stat_mspan (set_persistent pa h) = stat_mspan h.
Proof. unfold set_persistent. by destruct (has_p h). Qed.
Lemma load_stat_set pa s h : load_stat s (set_persistent pa h) = load_stat s h.
Proof. destruct s; [apply stat_mspan_set|apply stat_other_set]. Qed.

Lemma parts_words w h : persistent (set_words w h) = persistent h /\ idle (set_words w h) = idle h.
Proof. done. Qed.
Lemma parts_chunks c h : persistent (set_persistentChunks c h) = persistent h /\ idle (set_persistentChunks c h) = idle h.
Proof. done. Qed.

Hint Rewrite persistent_set idle_set set_set kern_set words_set stat_other_set stat_mspan_set load_stat_set : heap.

Lemma same_words_refl used h : same_words used h h.
Proof. by apply Forall_forall. Qed.
Lemma same_words_trans used h1 h2 h3 : same_words used h1 h2 -> same_words used h2 h3 -> same_words used h1 h3.
Proof. unfold same_words. rewrite !Forall_forall. intros H1 H2 r Hr x Hx. by rewrite (H2 r Hr x Hx), (H1 r Hr x Hx). Qed.
Lemma same_words_app l1 l2 h h' : same_words (l1 ++ l2) h h' <-> same_words l1 h h' /\ same_words l2 h h'.
Proof. apply List.Forall_app. Qed.

Lemma rest_nonneg pa : pa_ok pa -> 0 <= (rest pa).2.
Proof. unfold rest. intros [[-> _]|(? & _ & _ & ?)]; cbn; destruct (Z.eqb_spec (pa_base pa) 0); lia. Qed.

(** ** Statistics *)

Lemma stat_add_ok s n h : 0 <= load_stat s h + n < 2 ^ 63 -> 0 <= load_stat s h < 2 ^ 63 -> - 2 ^ 63 <= n < 2 ^ 63 ->
  stat_add (Some s) n h = (Ok tt, set_stat s (load_stat s h + n) h).
Proof.
  intros Hv Hl Hn. unfold stat_add. rewrite u64_small by lia. rewrite i64_small by lia.
  assert ((0 <? n) && (load_stat s h + n <? n) = false) as -> by (apply andb_false_iff; rewrite !Z.ltb_ge; lia).
  destruct (Z.ltb_spec n 0); [|done]. cbn [andb orb].
  assert (i64 (load_stat s h + n + n) <? n = false) as ->; [|done]. apply Z.ltb_ge. unfold i64.
  destruct (Z.ltb_spec (load_stat s h + n + n) (- 2 ^ 63)).
  - replace (load_stat s h + n + n + 2 ^ 63) with (load_stat s h + n + n + 2 ^ 63 + 2 ^ 64 + (-1) * 2 ^ 64) by lia.
    rewrite Z.mod_add, Z.mod_small; lia.
  - rewrite Z.mod_small; lia.
Qed.

(** ** [sysAlloc] *)

Context `{!KernelOk K}.

(** The state after a successful [sysAlloc]. *)
Definition allocated (p n : Z) (s : sysMemStat) (k : K) h : heap K :=
  set_kern k (set_words (clear_words p (alignUp n physPageSize) (words h)) (set_stat s (load_stat s h + n) h)).

Definition fresh (p n : Z) (k k' : K) : Prop :=
  0 < p /\ p mod physPageSize = 0 /\ p + n <= 2 ^ 48 /\
  exists m, n <= m /\ (forall x, p <= x < p + m -> mapping k x = None) /\ remapped p m (Some PROT_RW) k k' /\
    m = alignUp n physPageSize.

Lemma sysAlloc_ok n s h : 0 < n <= 2 ^ 46 -> 0 <= load_stat s h <= 2 ^ 62 ->
  (exists p k, sysAlloc n (Some s) h = (Ok p, allocated p n s k h) /\ fresh p n (kern h) k) \/
  refused n h /\ (fst (sysAlloc n (Some s) h) = Ok 0 \/ exists msg, fst (sysAlloc n (Some s) h) = Panic msg).
Proof.
  intros Hn Hs. unfold sysAlloc. rewrite (bind_ok _ _ _ _ _ (stat_add_ok s n h ltac:(lia) ltac:(lia) ltac:(lia))).
  set (h1 := set_stat s _ h). assert (kern h1 = kern h /\ words h1 = words h) as [Ek Ew] by (by destruct s).
  unfold sysAllocOS, call_mmap, st_bind. rewrite Ek. unfold refused.
  destruct (mmap 0 n PROT_RW false (kern h)) as [[p [e|]] k] eqn:E.
  - right. split; [by do 3 eexists|]. destruct ((e =? EACCES) || (e =? EAGAIN)); [right; by eexists|by left].
  - left. exists p, k. split; [by rewrite Ew|]. apply mmap_new in E as (Hp & Ha & Hb & Hnone & Hmap); [|lia].
    destruct (alignUp_spec 12 ltac:(lia) n ltac:(lia) ltac:(lia)) as [Hup _].
    change (2 ^ 12) with physPageSize in Hup.
    repeat (split; [done || lia|]). exists (alignUp n physPageSize). split; [lia|]. split; [|by split].
    intros x Hx. apply Hnone. unfold in_pages. lia.
Qed.

Lemma clear_words_lookup a n (w : gmap Z Z) x : clear_words a n w !! x = if decide (a <= x < a + n) then None else w !! x.
Proof.
  unfold clear_words. case_decide as Hx.
  - apply map_lookup_filter_None. right. cbn. intros v Hv Hn. by apply Hn.
  - destruct (w !! x) eqn:E; [by apply map_lookup_filter_Some|]. apply map_lookup_filter_None. by left.
Qed.

(** New memory is apart from everything that was mapped. *)
Lemma fresh_apart p n k' h rs : fresh p n (kern h) k' -> Forall (mapped_rw h) rs -> apart rs -> apart ((p, n) :: rs).
Proof.
  intros (Hp & Ha & Hb & m & Hm & Hnone & _) Hrs. apply (apart_fresh _ (fun x => mapping (kern h) x = Some PROT_RW)); [|done].
  intros x [Hx Hx']. cbn in Hx, Hx'. rewrite Hnone by lia. done.
Qed.

Lemma fresh_mapped p n s k' h : fresh p n (kern h) k' -> mapped_rw (allocated p n s k' h) (p, n).
Proof.
  intros (Hp & Ha & Hb & m & Hm & Hnone & Hre & _) x [Hx Hx']. cbn in Hx, Hx'. cbn [kern allocated set_kern]. rewrite Hre.
  destruct (Z.leb_spec p x), (Z.ltb_spec x (p + m)); cbn; lia || done.
Qed.

Lemma fresh_mapped_old p n s k' h rs : fresh p n (kern h) k' -> Forall (mapped_rw h) rs -> Forall (mapped_rw (allocated p n s k' h)) rs.
Proof.
  intros (Hp & Ha & Hb & m & Hm & Hnone & Hre & _) H. eapply Forall_impl; [|exact H]. intros r Hr x Hx. cbn [kern allocated set_kern].
  specialize (Hr x Hx). rewrite Hre. destruct (Z.leb_spec p x), (Z.ltb_spec x (p + m)); cbn; try done.
Qed.

Lemma fresh_zeroed p n s k' h : fresh p n (kern h) k' -> zeroed (allocated p n s k' h) (p, n).
Proof.
  intros (Hp & Ha & Hb & m & Hm & Hnone & Hre & Em) x [Hx Hx']. cbn in Hx, Hx'.
  cbn [words allocated set_kern set_words]. rewrite clear_words_lookup, <- Em. rewrite decide_True by lia. done.
Qed.

Lemma fresh_words p n s k' h r : fresh p n (kern h) k' -> mapped_rw h r -> forall x, inside r x -> words (allocated p n s k' h) !! x = words h !! x.
Proof.
  intros (Hp & Ha & Hb & m & Hm & Hnone & Hre & Em) Hr x Hx. cbn [words allocated set_kern set_words].
  rewrite clear_words_lookup, <- Em. rewrite decide_False; [done|]. intros Hx'. specialize (Hr x Hx). by rewrite Hnone in Hr.
Qed.

(** ** Preservation of the invariant *)

Lemma regions_swap (rp ri r : region) used : rp :: ri :: r :: used ≡ₚ r :: rp :: ri :: used.
Proof. solve_Permutation. Qed.

Lemma inv_used h used : heap_inv h used -> Forall (mapped_rw h) used.
Proof. intros [_ _ Hm _ _]. unfold regions in Hm. rewrite !Forall_cons_iff in Hm. by destruct Hm as (_ & _ & ?). Qed.

Lemma inv_allocated h used p n s k : heap_inv h used -> fresh p n (kern h) k -> 0 < n ->
  heap_inv (allocated p n s k h) ((p, n) :: used) /\ same_words used h (allocated p n s k h).
Proof.
  intros [Hpa Ha Hm Hz Hs] Hf Hn.
  assert (persistent (allocated p n s k h) = persistent h /\ idle (allocated p n s k h) = idle h) as [Ep Ei] by (by destruct s).
  pose proof (fresh_words p n s k h) as Hw.
  split.
  - split; unfold regions; rewrite ?Ep, ?Ei; [done| | | |].
    + rewrite regions_swap. by apply (fresh_apart p n k h).
    + rewrite regions_swap. apply Forall_cons_iff. split; [by apply fresh_mapped|by apply fresh_mapped_old].
    + unfold regions in Hm. rewrite !Forall_cons_iff in Hm. destruct Hm as (Hmp & Hmi & _).
      destruct Hz as [Hzp Hzi].
      split; intros x Hx; [rewrite (Hw _ Hf Hmp x Hx); by apply Hzp|rewrite (Hw _ Hf Hmi x Hx); by apply Hzi].
    + unfold allocated. destruct s; cbn [set_kern set_words set_stat stat_other stat_mspan set_stat_mspan set_stat_other load_stat]; lia.
  - apply Forall_forall. intros r Hr x Hx. apply Hw with r; [done| |done].
    unfold regions in Hm. rewrite !Forall_cons_iff in Hm. destruct Hm as (_ & _ & Hm). rewrite Forall_forall in Hm. by apply Hm.
Qed.

(** The invariant only depends on some parts of the state. *)
Lemma inv_ext h h' used : heap_inv h used ->
  persistent h' = persistent h -> idle h' = idle h -> kern h' = kern h ->
  (rest (persistent h)).2 + (rest (idle h)).2 <= stat_other h' -> 0 <= stat_mspan h' ->
  (forall x, inside (rest (persistent h)) x \/ inside (rest (idle h)) x -> words h' !! x = words h !! x) -> heap_inv h' used.
Proof.
  intros [Hpa Ha Hm [Hz1 Hz2] _] Ep Ei Ek Ho Hs Hw.
  split; unfold regions, mapped_rw, zeroed in *; rewrite ?Ep, ?Ei, ?Ek; try done.
  split; intros x Hx; [rewrite Hw by (by left)|rewrite Hw by (by right)]; auto.
Qed.

(** The region [(base + o, n)] leaves the chunk of the current allocator. *)
Lemma inv_take h used base o n : heap_inv h used -> 0 < base -> pa_base (persistent h) = base ->
  pa_off (persistent h) <= o -> 0 <= n -> o + n <= persistentChunkSize ->
  heap_inv (set_persistent (mkPalloc base (o + n)) h) ((base + o, n) :: used) /\ zeroed h (base + o, n) /\
  mapped_rw h (base + o, n) /\ n + (rest (mkPalloc base (o + n))).2 <= (rest (persistent h)).2.
Proof.
  intros [[Hp Hi] Ha Hm Hz Hs] Hb0 Hb Ho Hn Hc.
  destruct Hp as [[? _]|(_ & Hpage & H48 & Hoff)]; [lia|]. rewrite Hb in *.
  assert (rest (mkPalloc base (o + n)) = (base + (o + n), persistentChunkSize - (o + n))) as Er
    by (unfold rest; cbn; destruct (Z.eqb_spec base 0); [lia|done]).
  assert (rest (persistent h) = (base + pa_off (persistent h), persistentChunkSize - pa_off (persistent h))) as Er0
    by (unfold rest; rewrite Hb; destruct (Z.eqb_spec base 0); [lia|done]).
  unfold regions in Ha, Hm. rewrite !Forall_cons_iff in Hm. destruct Hm as (Hmp & Hmi & Hmu), Hz as [Hzp Hzi].
  rewrite Er0 in *. cbn [fst snd] in Hs.
  assert (forall x, inside (base + o, n) x -> inside (base + pa_off (persistent h), persistentChunkSize - pa_off (persistent h)) x) as Hin
    by (unfold inside; cbn; lia).
  assert (forall x, inside (base + (o + n), persistentChunkSize - (o + n)) x ->
    inside (base + pa_off (persistent h), persistentChunkSize - pa_off (persistent h)) x) as Hin' by (unfold inside; cbn; lia).
  split; [|split; [|split]].
  - split; unfold regions; autorewrite with heap; rewrite ?Er.
    + split; [right; cbn; lia|done].
    + rewrite regions_swap. apply (apart_incl _ (base + o, persistentChunkSize - o)) in Ha; [|unfold inside; cbn; lia].
      apply (apart_split _ n) in Ha; [|lia].
      by replace (base + (o + n)) with (base + o + n) by lia; replace (persistentChunkSize - (o + n)) with (persistentChunkSize - o - n) by lia.
    + rewrite !Forall_cons_iff. unfold mapped_rw. rewrite kern_set. unfold mapped_rw in *.
      split; [auto|]. split; [done|]. split; [auto|done].
    + unfold zeroed. rewrite words_set. unfold zeroed in *. split; [auto|done].
    + cbn [fst snd]. lia.
  - intros x Hx. auto.
  - intros x Hx. unfold mapped_rw in Hmp. auto.
  - rewrite Er. cbn [fst snd]. lia.
Qed.

(** ** Access to mapped memory *)

Lemma range_rw_ok a n h : mapped_rw h (a, n) -> range_rw a n h = true.
Proof.
  intros H. apply forallb_forall. intros x Hx. apply list_elem_of_In, elem_of_seqZ in Hx. unfold byte_rw.
  by rewrite (H x) by (unfold inside; cbn; lia).
Qed.

Lemma store_word_ok a v h : mapped_rw h (a, 8) -> store_word a v h = (Ok tt, set_words (<[a := v]> (words h)) h).
Proof. intros H. unfold store_word. by rewrite range_rw_ok. Qed.
Lemma load_word_ok a h : mapped_rw h (a, 8) -> load_word a h = (Ok (default 0 (words h !! a)), h).
Proof. intros H. unfold load_word. by rewrite range_rw_ok. Qed.

(** Sub-regions and permutations of the memory in use. *)
Lemma inv_perm h used used' : used ≡ₚ used' -> heap_inv h used -> heap_inv h used'.
Proof.
  intros Hp [Hpa Ha Hm Hz Hs]. split; unfold regions in *; [done| | |done|done]; by rewrite <- Hp.
Qed.

Lemma inv_split h a m n used : 0 <= m <= n -> heap_inv h ((a, n) :: used) -> heap_inv h ((a, m) :: (a + m, n - m) :: used).
Proof.
  intros Hm [Hpa Ha Hp Hz Hs]. split; unfold regions in *; [done| | |done|done].
  - rewrite regions_swap in Ha |- *. apply (apart_split _ m) in Ha; [|done].
    eapply apart_perm; [|exact Ha]. solve_Permutation.
  - rewrite regions_swap in Hp |- *. rewrite !Forall_cons_iff in *. destruct Hp as (Hr & ? & ? & ?). unfold mapped_rw, inside in *. cbn in *.
    repeat split; try done; intros x Hx; apply Hr; lia.
Qed.

Lemma inv_empty h a used : heap_inv h used -> heap_inv h ((a, 0) :: used).
Proof.
  intros [Hpa Ha Hp Hz Hs]. split; unfold regions in *; [done| | |done|done]; rewrite regions_swap.
  - by apply apart_empty.
  - apply Forall_cons_iff. split; [|done]. intros x Hx. unfold inside in Hx. cbn in Hx. lia.
Qed.

(** The thread gets or loses its P. *)
Lemma inv_has_p h b used : heap_inv h used -> heap_inv (set_has_p b h) used.
Proof.
  intros Hinv. destruct (decide (b = has_p h)) as [->|Hb].
  { by eapply inv_ext; [exact Hinv|..|apply Hinv|apply Hinv|]. }
  assert (persistent (set_has_p b h) = idle h /\ idle (set_has_p b h) = persistent h) as [Ep Ei].
  { unfold persistent, idle. cbn. destruct b, (has_p h); done. }
  destruct Hinv as [[Hp1 Hp2] Ha Hp [Hz1 Hz2] [Hs1 Hs2]].
  split; unfold regions, zeroed in *; rewrite ?Ep, ?Ei; [done| | |done|cbn [stat_other stat_mspan set_has_p]; lia].
  - eapply apart_perm; [|exact Ha]. apply Permutation_swap.
  - eapply Permutation_Forall; [apply Permutation_swap|exact Hp].
Qed.

Lemma inv_drop h r used : heap_inv h (r :: used) -> heap_inv h used.
Proof.
  intros [Hpa Ha Hm Hz Hs]. split; unfold regions in *; [done| | |done|done].
  - rewrite regions_swap in Ha. by apply apart_cons in Ha as [_ ?].
  - rewrite regions_swap in Hm. by apply Forall_cons_iff in Hm as [_ ?].
Qed.

(** A fresh region becomes the chunk of the current allocator; its first word
    is used for the list of chunks. *)
Lemma inv_new_chunk h used base o : heap_inv h ((base, persistentChunkSize) :: used) -> 0 < base ->
  base mod physPageSize = 0 -> base + persistentChunkSize <= 2 ^ 48 -> 8 <= o <= persistentChunkSize ->
  zeroed h (base, persistentChunkSize) -> persistentChunkSize + (rest (idle h)).2 <= stat_other h ->
  heap_inv (set_persistent (mkPalloc base o) h) ((base, 8) :: used).
Proof.
  intros [[Hp Hi] Ha Hm Hz Hs] Hb Hpage H48 Ho Hzero Hst.
  assert (rest (mkPalloc base o) = (base + o, persistentChunkSize - o)) as Er
    by (unfold rest; cbn; destruct (Z.eqb_spec base 0); [lia|done]).
  unfold regions in Ha, Hm. rewrite regions_swap in Ha, Hm. rewrite !Forall_cons_iff in Hm. destruct Hm as (Hmb & _ & Hmi & Hmu).
  apply apart_cons in Ha as [Hd Ha]. apply apart_cons in Ha as [_ Ha]. apply Forall_cons_iff in Hd as [_ Hd].
  assert (apart ((base, persistentChunkSize) :: rest (idle h) :: used)) as Ha' by (by apply apart_cons).
  split; unfold regions; autorewrite with heap; rewrite ?Er.
  - split; [right; cbn; lia|done].
  - rewrite regions_swap. apply (apart_split _ 8) in Ha'; [|unfold persistentChunkSize; lia].
    rewrite (Permutation_swap _ (base, 8)) in Ha'. rewrite (Permutation_swap _ (base, 8)).
    apply (apart_incl (base + 8, persistentChunkSize - 8)); [unfold inside; cbn; lia|done].
  - unfold mapped_rw in *. rewrite kern_set. rewrite !Forall_cons_iff.
    repeat split; try done; intros x Hx; apply Hmb; unfold inside in *; cbn in *; unfold persistentChunkSize in *; lia.
  - unfold zeroed in *. rewrite words_set. split; [|by apply Hz]. intros x Hx. apply Hzero. unfold inside in *; cbn in *; lia.
  - cbn [fst snd]. lia.
Qed.

(** A byte in use is in no other region. *)
Lemma inv_outside h r used x : heap_inv h (r :: used) -> inside r x ->
  ~ inside (rest (persistent h)) x /\ ~ inside (rest (idle h)) x /\ Forall (fun s => ~ inside s x) used.
Proof.
  intros [_ Ha _ _ _] Hx. unfold regions in Ha. rewrite regions_swap in Ha. apply apart_cons in Ha as [Hd _].
  rewrite !Forall_cons_iff in Hd. destruct Hd as (Hp & Hi & Hu). split; [|split]; [intros H; by apply (Hp x)|intros H; by apply (Hi x)|].
  eapply Forall_impl; [|exact Hu]. intros s Hs H. by apply (Hs x).
Qed.

Lemma same_words_insert used a v h h' : Forall (fun s => ~ inside s a) used -> words h' = <[a := v]> (words h) -> same_words used h h'.
Proof.
  intros Hu E. eapply Forall_impl; [|exact Hu]. intros s Hs x Hx. rewrite E. apply lookup_insert_ne. by intros ->.
Qed.

Lemma persistent_chunk_ok h used k : heap_inv h used -> stats_small h -> 0 <= k <= 13 ->
  (exists base h', persistent_chunk (2 ^ k) h = (Ok tt, h') /\ 0 < base /\ base mod physPageSize = 0 /\
     base + persistentChunkSize <= 2 ^ 48 /\ persistent h' = mkPalloc base (alignUp 8 (2 ^ k)) /\
     heap_inv h' ((base, 8) :: used) /\ same_words used h h' /\
     stat_mspan h' = stat_mspan h /\ stat_other h' = stat_other h + persistentChunkSize) \/
  refused persistentChunkSize h /\ exists msg, fst (persistent_chunk (2 ^ k) h) = Panic msg.
Proof.
  intros Hinv [_ Hs] Hk. pose proof (inv_stat _ _ Hinv) as [Hso Hsm]. destruct (inv_pa _ _ Hinv) as [Hp Hi].
  pose proof (rest_nonneg _ Hp). pose proof (rest_nonneg _ Hi) as Hri.
  unfold persistent_chunk.
  destruct (sysAlloc_ok persistentChunkSize other_sys h ltac:(unfold persistentChunkSize; lia) ltac:(cbn [load_stat]; lia))
    as [(base & k' & E & Hf)|[Href Hbad]].
  - left. rewrite (bind_ok _ _ _ _ _ E). set (h1 := allocated _ _ _ _ _).
    destruct (inv_allocated h used base persistentChunkSize other_sys k' Hinv Hf ltac:(done)) as [Hinv1 Hw1]. fold h1 in Hinv1, Hw1.
    pose proof (fresh_zeroed _ _ other_sys _ _ Hf) as Hz1. pose proof (fresh_mapped _ _ other_sys _ _ Hf) as Hm1. fold h1 in Hz1, Hm1.
    destruct Hf as (Hb & Hpg & H48 & _).
    assert (idle h1 = idle h /\ stat_other h1 = stat_other h + persistentChunkSize /\ stat_mspan h1 = stat_mspan h) as (Ei & Eo & Em) by done.
    step. destruct (Z.eqb_spec base 0) as [|_]; [lia|]. step.
    set (h2 := set_persistent _ h1).
    assert (mapped_rw h2 (base, 8)) as Hm2.
    { intros x Hx. unfold h2. rewrite kern_set. apply Hm1. unfold inside, persistentChunkSize in *. cbn in *. lia. }
    rewrite (bind_ok _ _ _ _ _ (store_word_ok base _ h2 Hm2)). step. unfold st_mod.
    destruct (alignUp_spec k ltac:(lia) 8 ltac:(lia)) as [Hup Hmod].
    { pose proof (Z.pow_le_mono_r 2 k 13 ltac:(lia) ltac:(lia)). lia. }
    pose proof (Z.pow_le_mono_r 2 k 13 ltac:(lia) ltac:(lia)) as Hk12.
    eexists base, _. split; [reflexivity|]. split; [done|]. split; [done|]. split; [done|].
    change PtrSize with 8. split; [by rewrite persistent_set|].
    set (w := <[base := _]> (words h2)). set (o := alignUp 8 (2 ^ k)) in *.
    assert (heap_inv (set_persistent (mkPalloc base o) h1) ((base, 8) :: used)) as Hinv2.
    { apply inv_new_chunk; try done; [unfold persistentChunkSize; lia|rewrite Ei, Eo; lia]. }
    destruct (inv_outside _ _ _ base Hinv2) as (Hop & Hoi & Hou); [unfold inside; cbn; lia|].
    autorewrite with heap in Hop, Hoi.
    split; [|split; [|autorewrite with heap; unfold h2; cbn [stat_mspan stat_other set_persistentChunks set_words]; by autorewrite with heap]].
    + eapply inv_ext; [exact Hinv2|..]; try (unfold h2; autorewrite with heap; reflexivity).
      all: try (autorewrite with heap; unfold h2; cbn [stat_mspan stat_other kern set_persistentChunks set_words]; by autorewrite with heap).
      * rewrite !idle_set. exact (idle_set _ h1).
      * pose proof (inv_stat _ _ Hinv2) as Hs2. autorewrite with heap in *. unfold h2. cbn [stat_other set_persistentChunks set_words].
        rewrite stat_other_set. lia.
      * intros x Hx. autorewrite with heap in Hx |- *. cbn [words set_persistentChunks set_words]. unfold w, h2. autorewrite with heap.
        apply lookup_insert_ne. intros <-. by destruct Hx.
    + apply (same_words_trans _ _ h1); [done|]. eapply same_words_insert; [exact Hou|]. autorewrite with heap. unfold w, h2. by autorewrite with heap.
  - right. split; [done|]. unfold st_bind at 1. destruct (sysAlloc _ _ h) as [r h1]. cbn [fst] in Hbad.
    destruct Hbad as [->|[msg ->]]; by eexists.
Qed.

Lemma inv_align h used k : heap_inv h used -> 0 <= k <= 13 ->
  let pa := mkPalloc (pa_base (persistent h)) (alignUp (pa_off (persistent h)) (2 ^ k)) in
  heap_inv (set_persistent pa h) used /\ pa_off pa mod 2 ^ k = 0 /\ 0 <= pa_off pa <= persistentChunkSize.
Proof.
  intros Hinv Hk. cbv zeta. pose proof (Z.pow_le_mono_r 2 k 13 ltac:(lia) ltac:(lia)) as Hk12. pose proof (pow2_pos k ltac:(lia)).
  destruct (inv_pa _ _ Hinv) as [[[Hb Ho]|(Hb & Hpage & H48 & Hoff)] _].
  - rewrite Ho, Hb, alignUp_id by first [apply Z.mod_0_l; lia|lia]. cbn [pa_off].
    split; [|split; [apply Z.mod_0_l; lia|done]].
    assert (mkPalloc 0 0 = persistent h) as E by (destruct (persistent h); cbn in *; congruence).
    eapply inv_ext; [exact Hinv|autorewrite with heap; try done..]; apply Hinv.
  - destruct (alignUp_spec k ltac:(lia) (pa_off (persistent h)) ltac:(lia)) as [Hup Hm]; [unfold persistentChunkSize in Hoff; lia|].
    set (o := alignUp _ _) in *. cbn [pa_off].
    assert (o <= persistentChunkSize).
    { assert (persistentChunkSize mod 2 ^ k = 0) as Hc by (apply (mod_mod_0 _ k 18); [lia|done]).
      apply Z.mod_divide in Hm as [q ->]; [|lia]. apply Z.mod_divide in Hc as [q' Hc]; [|lia].
      assert (q < q' + 1) by (apply (Z.mul_lt_mono_pos_r (2 ^ k)); lia).
      rewrite Hc. apply Z.mul_le_mono_nonneg_r; lia. }
    split; [|split; [done|lia]].
    destruct (inv_take h used (pa_base (persistent h)) o 0 Hinv) as (Hi & _); [done|done|lia|lia|lia|].
    rewrite Z.add_0_r in Hi. by apply inv_drop in Hi.
Qed.

(** The current allocator has [size] bytes at an offset aligned to [2^k]. *)
Definition room h (size k : Z) : Prop :=
  0 < pa_base (persistent h) /\ pa_base (persistent h) mod physPageSize = 0 /\
  pa_base (persistent h) + persistentChunkSize <= 2 ^ 48 /\
  0 <= pa_off (persistent h) /\ pa_off (persistent h) mod 2 ^ k = 0 /\ pa_off (persistent h) + size <= persistentChunkSize.

Definition hand_out (s : sysMemStat) (size : Z) (h : heap K) : res Empty_set Z * heap K :=
  (st_mod (set_persistent (mkPalloc (pa_base (persistent h)) (u64 (pa_off (persistent h) + size)))) ;;;
   (if negb (is_other (Some s)) then stat_add (Some s) size ;;; stat_add (Some other_sys) (- size) else st_ret tt) ;;;
   st_ret (u64 (pa_base (persistent h) + pa_off (persistent h)))) h.

Lemma hand_out_ok h used s size k : heap_inv h used -> room h size k -> 0 < size ->
  stat_mspan h <= 2 ^ 62 -> stat_other h <= 2 ^ 62 + persistentChunkSize ->
  let p := pa_base (persistent h) + pa_off (persistent h) in
  exists h', hand_out s size h = (Ok p, h') /\ heap_inv h' ((p, size) :: used) /\ zeroed h' (p, size) /\ words h' = words h.
Proof.
  cbv zeta. intros Hinv (Hb & Hpg & H48 & Ho & _ & Hr) Hs Hmax Hmax'. unfold hand_out.
  set (base := pa_base (persistent h)) in *. set (off := pa_off (persistent h)) in *. unfold persistentChunkSize in *.
  rewrite (u64_small (off + size)), (u64_small (base + off)) by lia. unfold st_mod at 1, st_bind at 1.
  destruct (inv_take h used base off size Hinv Hb eq_refl) as (Hinv1 & Hz & _ & Hrest); [fold off; lia|lia|unfold persistentChunkSize; lia|].
  set (h1 := set_persistent _ h) in *. assert (words h1 = words h) as Ew by apply words_set.
  assert (stat_mspan h1 = stat_mspan h /\ stat_other h1 = stat_other h) as [Em Eo] by (unfold h1; by autorewrite with heap).
  destruct (inv_stat _ _ Hinv) as [Hso Hsm]. destruct (inv_pa _ _ Hinv1) as [Hp1 Hi1]. pose proof (rest_nonneg _ Hp1). pose proof (rest_nonneg _ Hi1).
  assert (idle h1 = idle h /\ persistent h1 = mkPalloc base (off + size)) as [Ei Ep] by (unfold h1; by autorewrite with heap).
  rewrite Ei, Ep in *.
  destruct s; cbn [is_other negb].
  - unfold st_bind. rewrite stat_add_ok by (cbn [load_stat]; lia). set (h2 := set_stat _ _ h1).
    rewrite stat_add_ok by (cbn [load_stat]; change (stat_other h2) with (stat_other h1); lia).
    eexists. split; [reflexivity|]. split; [|split; [|done]].
    + eapply inv_ext; [exact Hinv1|done..| | |done]; cbn [load_stat set_stat stat_other set_stat_other stat_mspan set_stat_mspan h2];
        rewrite ?Ep, ?Ei; lia.
    + intros x Hx. change (words h1 !! x = None). rewrite Ew. by apply Hz.
  - exists h1. split; [done|]. split; [done|]. split; [|done]. intros x Hx. rewrite Ew. by apply Hz.
Qed.

Lemma bind_fst_panic {A B} (m : stateful (heap K) Empty_set A) (f : A -> stateful (heap K) Empty_set B) h msg :
  fst (m h) = Panic msg -> fst (st_bind m f h) = Panic msg.
Proof. unfold st_bind. destruct (m h) as [r h']. cbn. by intros ->. Qed.

Lemma get_room h used size k : heap_inv h used -> stats_small h -> 0 < size < maxBlock -> 0 <= k <= 13 ->
  pa_off (persistent h) mod 2 ^ k = 0 -> 0 <= pa_off (persistent h) <= persistentChunkSize ->
  let m := if (persistentChunkSize <? u64 (pa_off (persistent h) + size)) || (pa_base (persistent h) =? 0)
           then persistent_chunk (2 ^ k) else st_ret tt in
  (exists h' more, m h = (Ok tt, h') /\ room h' size k /\ heap_inv h' (more ++ used) /\ same_words used h h' /\
     stat_mspan h' <= 2 ^ 62 /\ stat_other h' <= 2 ^ 62 + persistentChunkSize) \/
  refused persistentChunkSize h /\ exists msg, fst (m h) = Panic msg.
Proof.
  cbv zeta. intros Hinv [Hs1 Hs2] Hsize Hk Hal Hoff. unfold persistentChunkSize, maxBlock in *.
  rewrite u64_small by lia. destruct (Z.ltb_spec (256 * 1024) (pa_off (persistent h) + size)) as [Hlt|Hge];
    [|destruct (Z.eqb_spec (pa_base (persistent h)) 0) as [Hb|Hb]]; cbn [orb].
  3: { left. exists h, []. split; [done|]. split; [|split; [done|split; [apply same_words_refl|lia]]].
       destruct (inv_pa _ _ Hinv) as [[[? _]|(? & ? & ? & ?)] _]; [done|].
       unfold room, persistentChunkSize in *. repeat split; try done; lia. }
  all: destruct (persistent_chunk_ok h used k) as [(base & h' & E & Hb0 & Hpg & H48 & Ep & Hinv' & Hw & Em & Eo)|Href]; try done.
  all: try (by right). all: left; exists h', [(base, 8)]; split; [done|].
  all: rewrite Em, Eo; split; [|split; [done|split; [done|unfold persistentChunkSize; lia]]].
  all: pose proof (Z.pow_le_mono_r 2 k 13 ltac:(lia) ltac:(lia)).
  all: destruct (alignUp_spec k ltac:(lia) 8 ltac:(lia)) as [Hup Hmod]; [lia|].
  all: unfold room, persistentChunkSize in *; rewrite Ep; cbn [pa_base pa_off]; repeat split; try done; lia.
Qed.

Lemma persistentalloc_ok h used size align k s :
  heap_inv h used -> stats_small h -> 0 < size <= 2 ^ 46 -> 0 <= k <= 13 -> align = 2 ^ k \/ align = 0 /\ k = 3 ->
  (exists p h' more, persistentalloc size align (Some s) h = (Ok p, h') /\
     0 < p /\ p mod 2 ^ Z.min k 12 = 0 /\ p + size <= 2 ^ 48 /\ zeroed h' (p, size) /\
     heap_inv h' ((p, size) :: more ++ used) /\ same_words used h h') \/
  refused (if maxBlock <=? size then size else persistentChunkSize) h /\
  (maxBlock <= size /\ fst (persistentalloc size align (Some s) h) = Ok 0 \/ exists msg, fst (persistentalloc size align (Some s) h) = Panic msg).
Proof.
  intros Hinv Hst Hsize Hk Hal. unfold persistentalloc, persistentalloc1.
  destruct (Z.eqb_spec size 0) as [|_]; [lia|].
  pose proof (Z.pow_le_mono_r 2 k 13 ltac:(lia) ltac:(lia)) as Hk12. pose proof (pow2_pos k ltac:(lia)) as Hkp.
  assert (negb (align =? 0) && negb (Z.land align (align - 1) =? 0) = false) as ->.
  { destruct Hal as [->|[-> _]]; [|done]. rewrite land_mask, Z.mod_same by lia. apply andb_false_r. }
  destruct (Z.ltb_spec PageSize align) as [|_]; [unfold PageSize in *; lia|].
  assert ((if align =? 0 then 8 else align) = 2 ^ k) as ->.
  { destruct Hal as [->|[-> ->]]; [|done]. destruct (Z.eqb_spec (2 ^ k) 0); lia. }
  destruct Hst as [Hs1 Hs2]. destruct (inv_stat _ _ Hinv) as [Hso Hsm]. destruct (inv_pa _ _ Hinv) as [Hp0 Hi0].
  pose proof (rest_nonneg _ Hp0). pose proof (rest_nonneg _ Hi0).
  destruct (Z.leb_spec maxBlock size) as [Hbig|Hsmall].
  - destruct (sysAlloc_ok size s h ltac:(lia) ltac:(destruct s; cbn [load_stat]; lia)) as [(p & k' & E & Hf)|[Href [Hnil|Hmsg]]];
      [left|right; split; [done|by left]|right; split; [done|by right]].
    destruct (inv_allocated h used p size s k' Hinv Hf ltac:(lia)) as [Hinv1 Hw1]. pose proof (fresh_zeroed _ _ s _ _ Hf).
    exists p, (allocated p size s k' h), []. destruct Hf as (Hp & Hpg & H48 & _). split; [done|]. split; [done|].
    split; [by apply (mod_mod_0 p (Z.min k 12) 12); [lia|]|]. done.
  - destruct (inv_align h used k Hinv Hk) as (Hinv1 & Hmod & Hoff). unfold st_mod at 1, st_bind at 1.
    set (h1 := set_persistent _ h) in *. assert (persistent h1 = mkPalloc (pa_base (persistent h)) (alignUp (pa_off (persistent h)) (2 ^ k))) as Ep
      by (unfold h1; by rewrite persistent_set).
    assert (words h1 = words h /\ kern h1 = kern h /\ stat_mspan h1 = stat_mspan h /\ stat_other h1 = stat_other h) as (Ew & Ek & Em & Eo)
      by (unfold h1; by autorewrite with heap).
    step. destruct (get_room h1 used size k) as [(h2 & more & E2 & Hroom & Hinv2 & Hw2 & Hm2 & Ho2)|[Href [msg E2]]]; try done.
    { unfold stats_small. by rewrite Em, Eo. }
    { lia. }
    { by rewrite Ep. }
    { by rewrite Ep. }
    + left. step_with E2. step. destruct (hand_out_ok h2 _ s size k Hinv2 Hroom ltac:(lia) Hm2 Ho2) as (h3 & E3 & Hinv3 & Hz3 & Ew3).
      destruct Hroom as (Hb & Hpg & H48 & Ho & Hom & Hr). unfold persistentChunkSize in *.
      exists (pa_base (persistent h2) + pa_off (persistent h2)), h3, more.
      split; [exact E3|]. split; [lia|]. split.
      { rewrite Z.add_mod by (pose proof (pow2_pos (Z.min k 12) ltac:(lia)); lia).
        by rewrite (mod_mod_0 (pa_off (persistent h2)) (Z.min k 12) k), (mod_mod_0 (pa_base (persistent h2)) (Z.min k 12) 12) by (done || lia). }
      split; [lia|]. split; [done|]. split; [done|]. apply (same_words_trans _ _ h2); [|by apply Forall_forall; intros; rewrite Ew3].
      eapply Forall_impl; [|exact Hw2]. intros r Hr' x Hx. by rewrite (Hr' x Hx), Ew.
    + right. split; [by unfold refused; rewrite <- Ek|]. right. exists msg.
      exact (bind_fst_panic _ _ h1 msg E2).
Qed.

(** C30: for every alignment it accepts (powers of two up to [_PageSize], and 0
    for 8), a block that [persistentalloc] returns is zero, mapped for reading and
    writing, and has no byte in common with any memory handed out before, whose
    words do not change; the invariant holds again with the block in use.  The
    block is aligned as asked up to a physical page of 4096 bytes; an alignment
    of 8192 gives 4096 only (see [persistentalloc_page]).  It returns nil, for a
    large block, or throws only when the kernel refuses memory. *)
Theorem persistentalloc_fresh h used size align k s :
  heap_inv h used -> stats_small h -> 0 < size <= 2 ^ 46 -> 0 <= k <= 13 -> align = 2 ^ k \/ align = 0 /\ k = 3 ->
  (exists p h' more, persistentalloc size align (Some s) h = (Ok p, h') /\
     0 < p /\ p mod 2 ^ Z.min k 12 = 0 /\ zeroed h' (p, size) /\ mapped_rw h' (p, size) /\
     Forall (disjoint (p, size)) used /\ same_words used h h' /\ heap_inv h' ((p, size) :: more ++ used)) \/
  refused (if maxBlock <=? size then size else persistentChunkSize) h /\
  (maxBlock <= size /\ fst (persistentalloc size align (Some s) h) = Ok 0 \/ exists msg, fst (persistentalloc size align (Some s) h) = Panic msg).
Proof.
  intros Hinv Hst Hs Hk Hal.
  destruct (persistentalloc_ok h used size align k s) as [(p & h' & more & E & Hp & Hm & _ & Hz & Hinv' & Hw)|]; try done; [left|by right].
  exists p, h', more. repeat (split; [done|]). split; [|split; [|by split]].
  - apply inv_used in Hinv'. by apply Forall_cons_iff in Hinv' as [? _].
  - destruct Hinv' as [_ Ha _ _ _]. unfold regions in Ha. rewrite regions_swap in Ha. apply apart_cons in Ha as [Hd _].
    rewrite !Forall_cons_iff, List.Forall_app in Hd. by destruct Hd as (_ & _ & _ & ?).
Qed.

End Persistent.

#[export] Hint Rewrite @persistent_set @idle_set @set_set @kern_set @words_set @stat_other_set @stat_mspan_set @load_stat_set : heap.

Lemma heap_init_inv p : heap_inv (heap_init p) [].
Proof.
  assert (forall pa, pa = mkPalloc 0 0 -> forall x, ~ inside (rest pa) x) as He by (intros ? -> x; unfold inside; cbn; lia).
  destruct p; (split; [split; by left| | | |done]).
  all: unfold regions, zeroed; rewrite ?Forall_cons_iff; cbn [apart]; rewrite ?Forall_cons_iff.
  all: repeat split; try done; try (intros x Hx; by destruct (He _ eq_refl x Hx)).
Qed.

Lemma persistentalloc_fresh_witness :
  exists p h' more, persistentalloc 100 64 (Some mspan_sys) (heap_init true) = (Ok p, h') /\
    0 < p /\ p mod 2 ^ Z.min 6 12 = 0 /\ zeroed h' (p, 100) /\ mapped_rw h' (p, 100) /\
    Forall (disjoint (p, 100)) [] /\ same_words [] (heap_init true) h' /\ heap_inv h' ((p, 100) :: more ++ []).
Proof.
  destruct (persistentalloc_fresh (heap_init true) [] 100 64 6 mspan_sys (heap_init_inv true)) as [H|[(q & e & k & H) _]].
  - by vm_compute.
  - by vm_compute.
  - by vm_compute.
  - by left.
  - exact H.
  - by vm_compute in H.
Defined.

(** Two calls: the second block follows the first in the chunk, whose first
    word links the list of chunks. *)
Example persistentalloc_twice :
  fst ((let* p := persistentalloc 100 64 (Some mspan_sys) in
        let* q := persistentalloc 24 0 (Some other_sys) in
        let* h := st_get in
        st_ret (p, q, persistentChunks h, stat_mspan h, stat_other h)) (heap_init true)) =
  Ok (4160, 4264, 4096, 100, persistentChunkSize - 100).
Proof. vm_compute. reflexivity. Qed.

(** The chunk is aligned to a page of the system only: a block aligned to a
    page of the runtime, which [persistentalloc] accepts, is not. *)
Example persistentalloc_page : 
  fst (persistentalloc 8192 PageSize (Some other_sys) (heap_init true)) = Ok 12288 /\ 12288 mod PageSize <> 0.
Proof. split; [vm_compute; reflexivity|done]. Qed.
