(* ===== verification/FixallocProps.v ===== *)
(** * The fixed-size allocator

    Blocks in use, free blocks and the rest of the chunk stay apart through any
    sequence of allocations, releases and writes; freed memory is zero again
    when it is handed out. *)
From stdpp Require Import relations.
From S2P Require Import Prelude OsMem Regions OffHeap PersistentProps.

Local Open Scope Z_scope.
Local Open Scope go_scope.

Section Fixalloc.
Context {K : Type} `{!Kernel K} `{!KernelOk K}.
Implicit Types (h : heap K) (f : fixalloc K).

(** ** The free list *)

(** From [a], the first words of the blocks [l] link them, to nil. *)
Fixpoint free_list (w : gmap Z Z) (a : Z) (l : list Z) : Prop :=
  match l with
  | [] => a = 0
  | x :: l => a = x /\ x <> 0 /\ free_list w (default 0 (w !! x)) l
  end.

Lemma free_list_ext w w' l : forall a, (forall x, x ∈ l -> w' !! x = w !! x) -> free_list w a l -> free_list w' a l.
Proof.
  induction l as [|x l IH]; intros a Hw; [done|]. intros (-> & Hx & Hl). split; [done|]. split; [done|].
  rewrite Hw by (by left). apply IH; [|done]. intros y Hy. apply Hw. by right.
Qed.

Definition blocks (n : Z) (l : list Z) : list region := map (fun a => (a, n)) l.

Lemma blocks_app n l1 l2 : blocks n (l1 ++ l2) = blocks n l1 ++ blocks n l2.
Proof. apply map_app. Qed.

Lemma block_outside n l x : 0 < n -> Forall (fun s => ~ inside s x) (blocks n l) -> x ∉ l.
Proof.
  intros Hn H Hx. rewrite Forall_forall in H. apply (H (x, n)); [|unfold inside; cbn; lia].
  apply in_map_iff. exists x. split; [done|]. by apply list_elem_of_In.
Qed.

(** ** The invariant *)

(** [live] are the blocks in use, [foreign] memory that others got from
    [persistentalloc]. *)
Record fix_inv f h (live : list Z) (foreign : list region) (frees : list Z) (extra : list region) : Prop := {
  fi_size : 8 <= f_size f <= FixAllocChunk;
  fi_nalloc : f_nalloc f = FixAllocChunk / f_size f * f_size f;
  fi_zero : f_zero f = true;
  fi_stat : exists s, f_stat f = Some s;
  fi_chunk : 0 <= f_nchunk f <= f_nalloc f /\ 0 <= f_chunk f /\ f_chunk f + f_nchunk f <= 2 ^ 48 /\ (f_chunk f = 0 -> f_nchunk f = 0);
  fi_inuse : f_inuse f = u64 (f_size f * len live);
  fi_list : free_list (words h) (f_list f) frees;
  fi_pos : Forall (fun a => 0 < a) (live ++ frees);
  fi_heap : heap_inv h (blocks (f_size f) (live ++ frees) ++ (f_chunk f, f_nchunk f) :: foreign ++ extra);
  fi_fresh : zeroed h (f_chunk f, f_nchunk f) }.

(** What [f.first] may do: use [persistentalloc] and its own memory. *)
Definition first_ok f : Prop :=
  forall g v h used, f_first f = Some g -> heap_inv h used ->
    (exists h' more, g (f_arg f) v h = (Ok tt, h') /\ heap_inv h' (more ++ used) /\ same_words used h h') \/
    exists msg, fst (g (f_arg f) v h) = Panic msg.

Definition first_throws f : Prop := exists g v h msg, f_first f = Some g /\ fst (g (f_arg f) v h) = Panic msg.

Lemma nalloc_bounds n : 8 <= n <= FixAllocChunk -> n <= FixAllocChunk / n * n <= FixAllocChunk.
Proof.
  intros Hn. pose proof (Z.div_mod FixAllocChunk n ltac:(lia)). pose proof (Z.mod_pos_bound FixAllocChunk n ltac:(lia)).
  assert (1 <= FixAllocChunk / n) by (apply Z.div_le_lower_bound; lia). nia.
Qed.

Lemma same_words_perm used used' h h' : used ≡ₚ used' -> same_words used h h' -> same_words used' h h'.
Proof. unfold same_words. by intros ->. Qed.

(** ** [alloc] from the free list *)

Lemma clear_ok a n h : mapped_rw h (a, n) ->
  memclrNoHeapPointers a n h = (Ok tt, set_words (clear_words a n (words h)) h).
Proof. intros H. unfold memclrNoHeapPointers. by rewrite range_rw_ok. Qed.

(** A change of the words of one region in use. *)
Lemma inv_write h w r used : heap_inv h (r :: used) -> (forall x, ~ inside r x -> w !! x = words h !! x) ->
  heap_inv (set_words w h) (r :: used) /\ same_words used h (set_words w h).
Proof.
  intros Hinv Hw. split.
  - eapply inv_ext; [exact Hinv|done..|apply Hinv|apply Hinv|]. intros x Hx. apply Hw. intros Hr.
    destruct (inv_outside _ _ _ x Hinv Hr) as (Hp & Hi & _). by destruct Hx.
  - destruct Hinv as [_ Ha _ _ _]. unfold regions in Ha. rewrite regions_swap in Ha. apply apart_cons in Ha as [Hd _].
    rewrite !Forall_cons_iff in Hd. destruct Hd as (_ & _ & Hd). eapply Forall_impl; [|exact Hd].
    intros s Hs x Hx. apply Hw. intros Hr. by apply (Hs x).
Qed.

Lemma on_heap_ok {A} (m : stateful (heap K) Empty_set A) f h r h' : m h = (r, h') -> on_heap m (f, h) = (r, (f, h')).
Proof. intros E. unfold on_heap. cbn [fst snd]. by rewrite E. Qed.

Lemma inv_mapped_used h r used : heap_inv h (r :: used) -> mapped_rw h r.
Proof. intros H. apply inv_used in H. by apply Forall_cons_iff in H as [? _]. Qed.

Lemma mapped_word h a n : 8 <= n -> mapped_rw h (a, n) -> mapped_rw h (a, 8).
Proof. intros Hn H x Hx. apply H. unfold inside in *; cbn in *; lia. Qed.

(** The free block [x] comes first among the regions in use. *)
Lemma free_first n x live frees rs :
  blocks n (live ++ x :: frees) ++ rs ≡ₚ (x, n) :: blocks n (live ++ frees) ++ rs.
Proof. rewrite !blocks_app. cbn [blocks map]. solve_Permutation. Qed.

Lemma alloc_free_list f h live foreign x frees extra : fix_inv f h live foreign (x :: frees) extra ->
  exists f' h', alloc (f, h) = (Ok x, (f', h')) /\ fix_inv f' h' (x :: live) foreign frees extra /\
    zeroed h' (x, f_size f) /\ same_words (blocks (f_size f) live ++ foreign) h h' /\
    f_size f' = f_size f /\ f_first f' = f_first f /\ f_arg f' = f_arg f.
Proof.
  intros [Hsize Hna Hzero Hstat Hchunk Huse (Hlist & Hx & Hl) Hpos Hheap Hfresh].
  apply (inv_perm _ _ _ (free_first _ _ _ _ _)) in Hheap. pose proof (inv_mapped_used _ _ _ Hheap) as Hmx.
  unfold alloc. step. cbn [fst snd]. destruct (Z.eqb_spec (f_size f) 0) as [|_]; [lia|].
  rewrite Hlist. destruct (Z.eqb_spec x 0) as [|_]; [done|]. cbn [negb].
  rewrite (bind_ok _ _ _ _ _ (on_heap_ok _ f h _ _ (load_word_ok x h (mapped_word _ _ _ (proj1 Hsize) Hmx)))). step. step.
  rewrite Hzero. rewrite (bind_ok _ _ _ _ _ (on_heap_ok _ _ h _ _ (clear_ok x _ h Hmx))).
  set (w := clear_words _ _ _). set (f' := set_f_inuse _ _). exists f', (set_words w h). split; [done|].
  destruct (inv_write h w _ _ Hheap) as [Hinv' Hw].
  { intros y Hy. unfold w. rewrite clear_words_lookup, decide_False; [done|]. exact Hy. }
  assert (forall y, ~ inside (x, f_size f) y -> w !! y = words h !! y) as Hout.
  { intros y Hy. unfold w. rewrite clear_words_lookup, decide_False; [done|]. exact Hy. }
  assert (zeroed (set_words w h) (x, f_size f)) as Hz.
  { intros y Hy. cbn [words set_words]. unfold w. by rewrite clear_words_lookup, decide_True by exact Hy. }
  rewrite blocks_app, <- app_assoc in Hw. rewrite !same_words_app in Hw. destruct Hw as (Hwl & Hwf & Hwr).
  apply (same_words_app [_]) in Hwr as [Hwc Hwr]. apply same_words_app in Hwr as [Hwr _].
  split; [|split; [done|split; [by apply same_words_app|done]]].
  split; try done.
  - cbn [f_inuse f' set_f_inuse set_f_list]. rewrite Huse, len_cons. change (f_size f') with (f_size f).
    unfold u64. rewrite Zplus_mod_idemp_l. f_equal. cbn [set_f_list f_size]. lia.
  - cbn [f_list f' set_f_inuse set_f_list words set_words]. eapply free_list_ext; [|exact Hl]. intros y Hy.
    unfold same_words in Hwf. rewrite Forall_forall in Hwf. apply (Hwf (y, f_size f)); [|unfold inside; cbn; lia].
    apply in_map_iff. exists y. split; [done|]. by apply list_elem_of_In.
  - rewrite <- Permutation_middle in Hpos. exact Hpos.
  - intros y Hy. cbn [words set_words]. apply Forall_cons_iff in Hwc as [Hwc _]. rewrite Hwc by done. by apply Hfresh.
Qed.

(** ** [alloc] from the chunk *)

Definition next_chunk (f : fixalloc K) : stateful (fixalloc K * heap K) Empty_set unit :=
  if f_nchunk f <? f_size f then
    let* p := on_heap (persistentalloc (f_nalloc f) 0 (f_stat f)) in
    upd (set_f_chunk p) ;;;
    upd (fun f => set_f_nchunk (f_nalloc f) f)
  else st_ret tt.

Lemma drop_middle h l r more rs : heap_inv h (more ++ l ++ r :: rs) -> heap_inv h (l ++ rs ++ more).
Proof. intros H. apply (inv_drop _ r). eapply inv_perm; [|exact H]. solve_Permutation. Qed.

Lemma next_chunk_ok f h live foreign extra : fix_inv f h live foreign [] extra -> stats_small h ->
  (exists f1 h1 more, next_chunk f (f, h) = (Ok tt, (f1, h1)) /\ fix_inv f1 h1 live foreign [] more /\
     f_size f <= f_nchunk f1 /\ same_words (blocks (f_size f) live ++ foreign) h h1 /\
     f_size f1 = f_size f /\ f_first f1 = f_first f /\ f_arg f1 = f_arg f) \/
  refused persistentChunkSize h /\ exists msg, fst (next_chunk f (f, h)) = Panic msg.
Proof.
  intros Hinv Hst. pose proof Hinv as [Hsize Hna Hzero [s Hs] Hchunk Huse Hlist Hpos Hheap Hfresh]. unfold next_chunk.
  destruct (Z.ltb_spec (f_nchunk f) (f_size f)) as [Hlt|Hge].
  2: { left. exists f, h, extra. repeat (split; [done|]). split; [apply same_words_refl|done]. }
  pose proof (nalloc_bounds _ Hsize) as Hb. rewrite <- Hna in Hb. unfold FixAllocChunk in Hb.
  rewrite Hs. destruct (persistentalloc_ok h _ (f_nalloc f) 0 3 s Hheap Hst) as [(p & h1 & more & E & Hp & Hm & H48 & Hz & Hinv1 & Hw)|[Href Hbad]];
    [lia|done|by right| |].
  - left. rewrite (bind_ok _ _ _ _ _ (on_heap_ok _ f h _ _ E)). step.
    set (f1 := set_f_chunk p f). change (upd _ (f1, h1)) with (@Ok Empty_set unit tt, (set_f_nchunk (f_nalloc f) f1, h1)).
    set (f2 := set_f_nchunk _ f1). exists f2, h1, (extra ++ more). split; [done|].
    rewrite app_nil_r in Hw, Hinv1. apply same_words_app in Hw as [Hwl Hw]. apply (same_words_app [_]) in Hw as [_ Hw].
    apply same_words_app in Hw as [Hwf _].
    split; [|split; [cbn [f2 f_nchunk set_f_nchunk]; lia|split; [by apply same_words_app|done]]].
    split; try done.
    + by exists s.
    + cbn [f2 f1 f_chunk f_nchunk set_f_nchunk set_f_chunk f_nalloc]. lia.
    + rewrite app_nil_r. cbn [f2 f1 f_chunk f_nchunk set_f_nchunk set_f_chunk f_nalloc f_size].
      change ((p, f_nalloc f) :: more ++ blocks (f_size f) live ++ (f_chunk f, f_nchunk f) :: foreign ++ extra) with
        (((p, f_nalloc f) :: more) ++ blocks (f_size f) live ++ (f_chunk f, f_nchunk f) :: foreign ++ extra) in Hinv1.
      apply drop_middle in Hinv1. eapply inv_perm; [|exact Hinv1]. solve_Permutation.
  - right. assert (maxBlock <=? f_nalloc f = false) as Hmb by (apply Z.leb_gt; unfold maxBlock; lia). rewrite Hmb in Href.
    split; [done|]. destruct Hbad as [[Hbad _]|[msg Hbad]].
    + apply Z.leb_gt in Hmb. lia.
    + exists msg. unfold st_bind, on_heap. cbn [fst snd]. destruct (persistentalloc _ _ _ h) as [r h1]. cbn [fst] in Hbad. by rewrite Hbad.
Qed.

(** The block at [f.chunk] moves from the chunk to the blocks in use. *)
Definition sliced (f : fixalloc K) : fixalloc K :=
  set_f_inuse (u64 (f_inuse f + f_size f))
    (set_f_nchunk (u32 (f_nchunk f - u32 (f_size f))) (set_f_chunk (u64 (f_chunk f + f_size f)) f)).

Lemma sliced_ok f h live foreign extra : fix_inv f h live foreign [] extra -> f_size f <= f_nchunk f ->
  fix_inv (sliced f) h (f_chunk f :: live) foreign [] extra /\ zeroed h (f_chunk f, f_size f).
Proof.
  intros [Hsize Hna Hzero Hstat (Hc & Hc0 & H48 & Hnil) Huse Hlist Hpos Hheap Hfresh] Hn.
  pose proof (nalloc_bounds _ Hsize) as Hb. rewrite <- Hna in Hb. unfold FixAllocChunk in *.
  assert (f_chunk f <> 0) as Hne by (intros E; specialize (Hnil E); lia).
  assert (u32 (f_nchunk f - u32 (f_size f)) = f_nchunk f - f_size f) as En by (rewrite !u32_small by (try rewrite u32_small by lia; lia); done).
  assert (u64 (f_chunk f + f_size f) = f_chunk f + f_size f) as Ec by (apply u64_small; lia).
  assert (forall x, inside (f_chunk f, f_size f) x -> inside (f_chunk f, f_nchunk f) x) as Hin by (unfold inside; cbn; lia).
  split; [|intros x Hx; by apply Hfresh, Hin].
  unfold sliced. rewrite En, Ec. split; cbn [f_size f_nalloc f_zero f_stat f_nchunk f_chunk f_inuse f_list set_f_inuse set_f_nchunk set_f_chunk]; try done.
  - lia.
  - rewrite Huse, len_cons. unfold u64. rewrite Zplus_mod_idemp_l. f_equal. lia.
  - apply Forall_cons_iff. split; [lia|done].
  - rewrite app_nil_r in *. cbn [blocks map app]. change (map _ live) with (blocks (f_size f) live). rewrite ?app_nil_r.
    apply (inv_perm _ _ ((f_chunk f, f_nchunk f) :: blocks (f_size f) live ++ foreign ++ extra)) in Hheap; [|solve_Permutation].
    apply (inv_split _ _ (f_size f)) in Hheap; [|lia]. eapply inv_perm; [|exact Hheap]. solve_Permutation.
  - intros x Hx. apply Hfresh. unfold inside in *; cbn in *; lia.
Qed.

Definition run_first (f : fixalloc K) : stateful (fixalloc K * heap K) Empty_set unit :=
  match f_first f with None => st_ret tt | Some first => on_heap (first (f_arg f) (f_chunk f)) end.

Lemma run_first_ok f h live foreign extra : fix_inv f h live foreign [] extra -> first_ok f ->
  (exists h' more, run_first f (f, h) = (Ok tt, (f, h')) /\ fix_inv f h' live foreign [] (extra ++ more) /\
     same_words (blocks (f_size f) live ++ foreign) h h') \/
  first_throws f /\ exists msg, fst (run_first f (f, h)) = Panic msg.
Proof.
  intros [Hsize Hna Hzero Hstat Hchunk Huse Hlist Hpos Hheap Hfresh] Hfirst. unfold run_first. destruct (f_first f) as [g|] eqn:Eg.
  2: { left. exists h, []. split; [done|]. split; [|apply same_words_refl]. by rewrite app_nil_r. }
  destruct (Hfirst g (f_chunk f) h _ Eg Hheap) as [(h' & more & E & Hinv' & Hw)|[msg E]].
  - left. exists h', more. split; [by apply on_heap_ok|]. apply same_words_app in Hw as [Hwl Hw].
    apply (same_words_app [_]) in Hw as [Hwc Hw]. apply same_words_app in Hw as [Hwf _]. rewrite app_nil_r in Hwl.
    split; [|by apply same_words_app]. split; try done.
    + eapply inv_perm; [|exact Hinv']. solve_Permutation.
    + intros x Hx. apply Forall_cons_iff in Hwc as [Hwc _]. rewrite Hwc by done. by apply Hfresh.
  - right. split; [by exists g, (f_chunk f), h, msg|]. exists msg. unfold on_heap. cbn [snd fst].
    destruct (g _ _ h) as [r h']. cbn in E |- *. exact E.
Qed.

Definition same_config f f' : Prop := f_size f' = f_size f /\ f_first f' = f_first f /\ f_arg f' = f_arg f.

Lemma bind_fst_throw {St A B} (m : stateful St Empty_set A) (k : A -> stateful St Empty_set B) s :
  (exists msg, fst (m s) = Panic msg) -> exists msg, fst (st_bind m k s) = Panic msg.
Proof. intros [msg E]. exists msg. unfold st_bind. destruct (m s) as [r s']. cbn in E |- *. by subst. Qed.

Lemma alloc_slice f h live foreign extra : fix_inv f h live foreign [] extra -> stats_small h -> first_ok f ->
  (exists p f' h' more, alloc (f, h) = (Ok p, (f', h')) /\ fix_inv f' h' (p :: live) foreign [] more /\
     zeroed h' (p, f_size f) /\ same_words (blocks (f_size f) live ++ foreign) h h' /\ same_config f f') \/
  (refused persistentChunkSize h \/ first_throws f) /\ exists msg, fst (alloc (f, h)) = Panic msg.
Proof.
  intros Hinv Hst Hfirst. pose proof Hinv as [Hsize _ _ _ _ _ Hlist _ _ _]. cbn in Hlist.
  unfold alloc. step. cbn [fst]. destruct (Z.eqb_spec (f_size f) 0); [lia|]. rewrite Hlist. cbn [Z.eqb negb].
  change (if f_nchunk f <? f_size f then _ else _) with (next_chunk f).
  destruct (next_chunk_ok f h live foreign extra Hinv Hst) as [(f1 & h1 & more & E1 & Hinv1 & Hn & Hw1 & Hc1)|[Href Hbad]];
    [|right; split; [by left|by apply bind_fst_throw]].
  step_with E1. step. cbn [fst]. change (match f_first f1 with None => _ | Some _ => _ end) with (run_first f1). destruct Hc1 as (Hs1 & Hf1 & Ha1).
  assert (first_ok f1) as Hfirst1 by (unfold first_ok; rewrite Hf1, Ha1; exact Hfirst).
  destruct (run_first_ok f1 h1 live foreign more Hinv1 Hfirst1) as [(h2 & more' & E2 & Hinv2 & Hw2)|[Hthrow Hbad]].
  2: { right. split; [right|by apply bind_fst_throw]. unfold first_throws in *. by rewrite <- Hf1, <- Ha1. }
  step_with E2. destruct (sliced_ok f1 h2 live foreign _ Hinv2) as [Hinv3 Hz]; [by rewrite Hs1|].
  left. exists (f_chunk f1), (sliced f1), h2, (more ++ more'). split; [done|]. split; [done|]. rewrite <- Hs1. split; [done|].
  split; [|done]. rewrite Hs1 in *. by apply (same_words_trans _ _ h1).
Qed.

(** ** [alloc] and [free] *)


Lemma alloc_ok f h live foreign frees extra : fix_inv f h live foreign frees extra -> stats_small h -> first_ok f ->
  (exists p f' h' frees' extra', alloc (f, h) = (Ok p, (f', h')) /\ fix_inv f' h' (p :: live) foreign frees' extra' /\
     zeroed h' (p, f_size f) /\ same_words (blocks (f_size f) live ++ foreign) h h' /\ same_config f f') \/
  (refused persistentChunkSize h \/ first_throws f) /\ exists msg, fst (alloc (f, h)) = Panic msg.
Proof.
  intros Hinv Hst Hfirst. destruct frees as [|x frees].
  - destruct (alloc_slice _ _ _ _ _ Hinv Hst Hfirst) as [(p & f' & h' & more & H)|H]; [left|by right].
    by exists p, f', h', [], more.
  - destruct (alloc_free_list _ _ _ _ _ _ _ Hinv) as (f' & h' & H). left. by exists x, f', h', frees, extra.
Qed.

Lemma free_ok f h l1 p l2 foreign frees extra : fix_inv f h (l1 ++ p :: l2) foreign frees extra ->
  exists f' h', free p (f, h) = (Ok tt, (f', h')) /\ fix_inv f' h' (l1 ++ l2) foreign (p :: frees) extra /\
    same_words (blocks (f_size f) (l1 ++ l2) ++ foreign) h h' /\ same_config f f'.
Proof.
  intros [Hsize Hna Hzero Hstat Hchunk Huse Hlist Hpos Hheap Hfresh].
  assert (heap_inv h ((p, f_size f) :: blocks (f_size f) (l1 ++ l2 ++ frees) ++ (f_chunk f, f_nchunk f) :: foreign ++ extra)) as Hheap'.
  { eapply inv_perm; [|exact Hheap]. rewrite !blocks_app. cbn [blocks map]. solve_Permutation. }
  assert (0 < p) as Hp by (rewrite <- app_assoc, Forall_app in Hpos; destruct Hpos as [_ Hpos]; by apply Forall_cons_iff in Hpos as [? _]).
  pose proof (inv_mapped_used _ _ _ Hheap') as Hmp. apply (mapped_word _ _ _ (proj1 Hsize)) in Hmp.
  unfold free. step. step. rewrite (bind_ok _ _ _ _ _ (on_heap_ok _ _ h _ _ (store_word_ok p _ h Hmp))).
  unfold upd, st_mod. cbn [fst snd]. set (f1 := set_f_inuse _ f). set (w := <[p := _]> (words h)). set (f' := set_f_list p f1).
  exists f', (set_words w h). split; [done|].
  destruct (inv_write h w _ _ Hheap') as [Hinv' Hw].
  { intros y Hy. unfold w. apply lookup_insert_ne. intros <-. apply Hy. unfold inside; cbn; lia. }
  rewrite (app_assoc l1), blocks_app, <- app_assoc in Hw. apply same_words_app in Hw as [Hwl Hw]. apply same_words_app in Hw as [Hwf Hw].
  apply (same_words_app [_]) in Hw as [Hwc Hw]. apply same_words_app in Hw as [Hwo _].
  split; [|split; [by apply same_words_app|done]]. split; try done.
  - change (f_inuse f') with (u64 (f_inuse f - f_size f)). change (f_size f') with (f_size f). rewrite Huse, !len_app, len_cons.
    unfold u64. rewrite Zminus_mod_idemp_l. f_equal. lia.
  - change (f_list f') with p. split; [done|]. split; [lia|]. cbn [words set_words].
    assert (w !! p = Some (f_list f)) as -> by apply lookup_insert_eq. cbn [default]. eapply free_list_ext; [|exact Hlist]. intros y Hy.
    unfold same_words in Hwf. rewrite Forall_forall in Hwf. apply (Hwf (y, f_size f)); [|unfold inside; cbn; lia].
    apply in_map_iff. exists y. split; [done|]. by apply list_elem_of_In.
  - assert ((l1 ++ l2) ++ p :: frees ≡ₚ (l1 ++ p :: l2) ++ frees) as E by solve_Permutation. by rewrite E.
  - eapply inv_perm; [|exact Hinv']. change (f_size f') with (f_size f). rewrite !blocks_app. cbn [blocks map]. solve_Permutation.
  - intros x Hx. apply Forall_cons_iff in Hwc as [Hwc _]. rewrite Hwc by done. by apply Hfresh.
Qed.

(** ** Runs *)

(** The allocator, the heap, the blocks in use and the memory of others.  Users
    write where they like in the memory they were given. *)
Abbreviation system := (fixalloc K * heap K * list Z * list region)%type.

Inductive fix_step : system -> system -> Prop :=
  | fix_alloc f h live foreign p f' h' : stats_small h -> alloc (f, h) = (Ok p, (f', h')) ->
      fix_step (f, h, live, foreign) (f', h', p :: live, foreign)
  | fix_free f h l1 p l2 foreign f' h' : free p (f, h) = (Ok tt, (f', h')) ->
      fix_step (f, h, l1 ++ p :: l2, foreign) (f', h', l1 ++ l2, foreign)
  | fix_write f h live foreign r a v : r ∈ blocks (f_size f) live ++ foreign -> inside r a ->
      fix_step (f, h, live, foreign) (f, set_words (<[a := v]> (words h)) h, live, foreign)
  | fix_persistent f h live foreign size align k s p h' : stats_small h -> 0 < size <= 2 ^ 46 -> 0 <= k <= 13 ->
      align = 2 ^ k \/ align = 0 /\ k = 3 -> persistentalloc size align (Some s) h = (Ok p, h') -> p <> 0 ->
      fix_step (f, h, live, foreign) (f, h', live, (p, size) :: foreign)
  | fix_sched f h live foreign b : fix_step (f, h, live, foreign) (f, set_has_p b h, live, foreign).

Definition sys_inv (st : system) : Prop :=
  let '(f, h, live, foreign) := st in first_ok f /\ exists frees extra, fix_inv f h live foreign frees extra.

Lemma first_ok_same f f' : same_config f f' -> first_ok f -> first_ok f'.
Proof. unfold first_ok. by intros (_ & -> & ->). Qed.

(** The invariant when only the heap changed. *)
Lemma fix_inv_heap f h h' live foreign foreign' frees extra extra' : fix_inv f h live foreign frees extra ->
  same_words (blocks (f_size f) frees) h h' -> same_words [(f_chunk f, f_nchunk f)] h h' ->
  heap_inv h' (blocks (f_size f) (live ++ frees) ++ (f_chunk f, f_nchunk f) :: foreign' ++ extra') ->
  fix_inv f h' live foreign' frees extra'.
Proof.
  intros [Hsize Hna Hzero Hstat Hchunk Huse Hlist Hpos Hheap Hfresh] Hw Hwc Hinv. split; try done.
  - eapply free_list_ext; [|exact Hlist]. intros y Hy. unfold same_words in Hw. rewrite Forall_forall in Hw.
    apply (Hw (y, f_size f)); [|unfold inside; cbn; lia]. apply in_map_iff. exists y. split; [done|]. by apply list_elem_of_In.
  - intros x Hx. apply Forall_cons_iff in Hwc as [Hwc _]. rewrite Hwc by done. by apply Hfresh.
Qed.

Lemma same_words_parts f h h' live frees foreign extra :
  same_words (blocks (f_size f) (live ++ frees) ++ (f_chunk f, f_nchunk f) :: foreign ++ extra) h h' ->
  same_words (blocks (f_size f) frees) h h' /\ same_words [(f_chunk f, f_nchunk f)] h h'.
Proof.
  rewrite blocks_app, <- app_assoc. intros Hw. apply same_words_app in Hw as [_ Hw]. apply same_words_app in Hw as [Hw1 Hw].
  by apply (same_words_app [_]) in Hw as [Hw2 _].
Qed.

(** The region [r] of a user among the regions in use. *)
Lemma user_first f live frees foreign extra r : r ∈ blocks (f_size f) live ++ foreign ->
  exists rest, blocks (f_size f) (live ++ frees) ++ (f_chunk f, f_nchunk f) :: foreign ++ extra ≡ₚ
    r :: rest ++ blocks (f_size f) frees ++ [(f_chunk f, f_nchunk f)].
Proof.
  intros Hr. apply list_elem_of_split in Hr as (l1 & l2 & E). exists (l1 ++ l2 ++ extra).
  transitivity ((blocks (f_size f) live ++ foreign) ++ extra ++ blocks (f_size f) frees ++ [(f_chunk f, f_nchunk f)]).
  { rewrite blocks_app. solve_Permutation. }
  rewrite E. solve_Permutation.
Qed.

Lemma users_apart f h live foreign frees extra : fix_inv f h live foreign frees extra -> apart (blocks (f_size f) live ++ foreign).
Proof.
  intros Hinv. destruct (fi_heap _ _ _ _ _ _ Hinv) as [_ Ha _ _ _]. unfold regions in Ha.
  assert (rest (persistent h) :: rest (idle h) :: blocks (f_size f) (live ++ frees) ++ (f_chunk f, f_nchunk f) :: foreign ++ extra ≡ₚ
    (blocks (f_size f) live ++ foreign) ++ rest (persistent h) :: rest (idle h) :: blocks (f_size f) frees ++ (f_chunk f, f_nchunk f) :: extra) as E
    by (rewrite blocks_app; solve_Permutation).
  rewrite E in Ha. by apply apart_app in Ha as [? _].
Qed.

Lemma rtc_preserve {A} (R : A -> A -> Prop) (P : A -> Prop) x y : rtc R x y -> (forall a b, R a b -> P a -> P b) -> P x -> P y.
Proof. intros H HR. induction H; [done|]. intros Hx. eauto. Qed.

Lemma fix_step_inv st st' : fix_step st st' -> sys_inv st -> sys_inv st'.
Proof.
  intros Hstep. destruct Hstep as [f h live foreign p f' h' Hst E|f h l1 p l2 foreign f' h' E|f h live foreign r a v Hr Ha|
      f h live foreign size align k s p h' Hst Hsize Hk Hal E Hp|f h live foreign b]; intros (Hfirst & frees & extra & Hinv).
  - destruct (alloc_ok _ _ _ _ _ _ Hinv Hst Hfirst) as [(q & f2 & h2 & frees' & extra' & E' & Hinv' & _ & _ & Hc)|(_ & msg & E')];
      rewrite E in E'; [|done]. injection E' as -> -> ->. split; [by eapply first_ok_same|by exists frees', extra'].
  - destruct (free_ok _ _ _ _ _ _ _ _ Hinv) as (f2 & h2 & E' & Hinv' & _ & Hc). rewrite E in E'. injection E' as -> ->.
    split; [by eapply first_ok_same|by exists (p :: frees), extra].
  - split; [done|]. exists frees, extra. destruct (user_first f live frees foreign extra r Hr) as [others Hperm].
    pose proof (inv_perm _ _ _ Hperm (fi_heap _ _ _ _ _ _ Hinv)) as Hheap.
    destruct (inv_write h (<[a := v]> (words h)) _ _ Hheap) as [Hinv' Hw].
    { intros x Hx. apply lookup_insert_ne. by intros <-. }
    apply same_words_app in Hw as [_ Hw]. apply same_words_app in Hw as [Hwf Hwc].
    eapply fix_inv_heap; [exact Hinv|done|done|]. eapply inv_perm; [|exact Hinv']. by symmetry.
  - split; [done|]. pose proof (fi_heap _ _ _ _ _ _ Hinv) as Hheap.
    destruct (persistentalloc_ok h _ size align k s Hheap Hst Hsize Hk Hal) as [(q & h2 & more & E' & _ & _ & _ & _ & Hinv' & Hw)|(_ & [[_ E']|[msg E']])];
      rewrite E in E'; cbn in E'; try congruence. injection E' as -> ->. apply same_words_parts in Hw as [Hwf Hwc].
    exists frees, (more ++ extra). eapply fix_inv_heap; [exact Hinv|done|done|]. eapply inv_perm; [|exact Hinv']. solve_Permutation.
  - split; [done|]. exists frees, extra. eapply fix_inv_heap; [exact Hinv|by apply Forall_forall|by apply Forall_forall|].
    by apply inv_has_p, Hinv.
Qed.

Lemma init_inv size first arg s f0 h foreign : 0 <= size -> init size first arg (Some s) = Ok f0 -> heap_inv h foreign ->
  fix_inv f0 h [] foreign [] [].
Proof.
  intros Hs E Hinv. unfold init in E. destruct (Z.ltb_spec FixAllocChunk size) as [|Hle]; [done|]. cbv zeta in E.
  set (n := if size <? 8 then 8 else size) in *. injection E as <-.
  assert (8 <= n <= FixAllocChunk) as Hn by (unfold n, FixAllocChunk in *; destruct (Z.ltb_spec size 8); lia).
  pose proof (nalloc_bounds n Hn) as Hb. unfold FixAllocChunk in Hb at 3. pose proof (Z.div_pos FixAllocChunk n ltac:(done) ltac:(lia)).
  split; cbn [f_size f_nalloc f_zero f_stat f_nchunk f_chunk f_inuse f_list]; try done.
  - rewrite u32_small by nia. done.
  - by exists s.
  - rewrite u32_small by nia. nia.
  - unfold u64. change (len []) with 0. by rewrite Z.mul_0_r.
  - cbn [blocks map app]. rewrite app_nil_r. by apply inv_empty.
  - intros x Hx. unfold inside in Hx. cbn in Hx. lia.
Qed.

(** C29: whatever blocks are allocated, released and written, and whatever others
    take from [persistentalloc], the blocks in use and the memory of others have
    no byte in common and are mapped, [inuse] counts the blocks in use, every
    block in use can be released, and [alloc] gives a zero block apart from all
    of them without changing a word of theirs; it throws only when the kernel
    refuses memory or [first] throws. *)
Theorem fixalloc_safe size first arg s f0 h0 foreign0 f h live foreign :
  0 <= size -> init size first arg (Some s) = Ok f0 -> first_ok f0 -> heap_inv h0 foreign0 ->
  rtc fix_step (f0, h0, [], foreign0) (f, h, live, foreign) ->
  apart (blocks (f_size f) live ++ foreign) /\
  Forall (mapped_rw h) (blocks (f_size f) live) /\
  f_inuse f = u64 (f_size f * len live) /\
  (forall p, p ∈ live -> fst (free p (f, h)) = Ok tt) /\
  (stats_small h ->
   (exists p f' h', alloc (f, h) = (Ok p, (f', h')) /\ 0 < p /\ zeroed h' (p, f_size f) /\
      Forall (disjoint (p, f_size f)) (blocks (f_size f) live ++ foreign) /\
      same_words (blocks (f_size f) live ++ foreign) h h') \/
   (refused persistentChunkSize h \/ first_throws f) /\ exists msg, fst (alloc (f, h)) = Panic msg).
Proof.
  intros Hs E Hfirst Hinv0 Hrun.
  assert (sys_inv (f, h, live, foreign)) as (Hf & frees & extra & Hinv).
  { apply (rtc_preserve _ sys_inv _ _ Hrun fix_step_inv). split; [done|]. exists [], []. by eapply init_inv. }
  pose proof (users_apart _ _ _ _ _ _ Hinv) as Hapart. pose proof (inv_used _ _ (fi_heap _ _ _ _ _ _ Hinv)) as Hmapped.
  split; [done|]. split; [by rewrite blocks_app, <- app_assoc, Forall_app in Hmapped; destruct Hmapped|].
  split; [apply Hinv|]. split.
  - intros p Hp. apply list_elem_of_split in Hp as (l1 & l2 & ->).
    by destruct (free_ok _ _ _ _ _ _ _ _ Hinv) as (f' & h' & -> & _).
  - intros Hst. destruct (alloc_ok _ _ _ _ _ _ Hinv Hst Hf) as [(p & f' & h' & fr' & ex' & E' & Hinv' & Hz & Hw & (Hsz & _))|]; [left|by right].
    exists p, f', h'. split; [done|]. pose proof (fi_pos _ _ _ _ _ _ Hinv') as Hpos. apply Forall_cons_iff in Hpos as [Hpos _].
    pose proof (users_apart _ _ _ _ _ _ Hinv') as Ha. rewrite Hsz in Ha. cbn [blocks map app] in Ha. apply apart_cons in Ha as [Ha _]. done.
Qed.

End Fixalloc.

(** A run: two blocks are allocated and the first is released. *)
Definition example_fixalloc : fixalloc space := mkFixalloc 96 None 0 0 (FixAllocChunk / 96 * 96) 0 0 0 (Some other_sys) true.

Definition next_state {A} (m : stateful (fixalloc space * heap space) Empty_set A) (s : fixalloc space * heap space) :
    fixalloc space * heap space := snd (m s).
Definition example_1 := next_state alloc (example_fixalloc, heap_init true).
Definition example_2 := next_state alloc (fst example_1, snd example_1).
Definition example_3 := next_state (free 4104) (fst example_2, snd example_2).

Lemma run_ok {A} (m : stateful (fixalloc space * heap space) Empty_set A) s a s' :
  s' = next_state m s -> fst (m s) = Ok a -> m s = (Ok a, (fst s', snd s')).
Proof. intros ->. unfold next_state. destruct (m s) as [r [f h]]. cbn. by intros ->. Qed.

Lemma example_run :
  rtc fix_step (example_fixalloc, heap_init true, [], []) (fst example_3, snd example_3, [4200], []).
Proof.
  apply (rtc_l _ _ (fst example_1, snd example_1, [4104], [])).
  { apply fix_alloc; [by vm_compute|]. refine (run_ok alloc _ _ _ eq_refl _). vm_compute. reflexivity. }
  apply (rtc_l _ _ (fst example_2, snd example_2, [4200; 4104], [])).
  { apply fix_alloc; [by vm_compute|]. refine (run_ok alloc _ _ _ eq_refl _). vm_compute. reflexivity. }
  apply rtc_once. apply (fix_free _ _ [4200] 4104 []). refine (run_ok (free 4104) _ _ _ eq_refl _). vm_compute. reflexivity.
Qed.

Lemma fixalloc_safe_witness :
  exists f h, apart (blocks (f_size f) [4200]) /\ f_inuse f = 96 /\ fst (free 4200 (f, h)) = Ok tt.
Proof.
  exists (fst example_3), (snd example_3).
  destruct (fixalloc_safe 96 None 0 other_sys example_fixalloc (heap_init true) [] (fst example_3) (snd example_3) [4200] [])
    as (Ha & _ & Hu & Hf & _).
  - done.
  - vm_compute. reflexivity.
  - intros g v h used Hg. discriminate Hg.
  - apply heap_init_inv.
  - exact example_run.
  - rewrite app_nil_r in Ha. split; [exact Ha|]. split; [rewrite Hu; vm_compute; reflexivity|apply Hf; by left].
Defined.
