(* ===== verification/PageAlloc.v ===== *)
(** * The page allocator

    [mpagealloc.go] and [mpagealloc_64bit.go] of [src/memory_and_heap]: the
    radix tree of summaries over the bitmaps of the chunks.  Entries of the
    sparse arrays [summary] and [chunks] that were never written read as zero,
    like the memory they live in; slices keep their length, their capacity is
    fixed by the level.  [scavenged] is not used in the source. *)
From S2P Require Import Prelude Slice Bits64 PallocSum PageBits AddrRanges OsMem OffHeap.

Local Open Scope Z_scope.
Local Open Scope go_scope.

(** ** Constants and indices *)

Definition pageSize : Z := PageSize.
Definition logPallocChunkBytes : Z := logPallocChunkPages + 13.
Definition pallocChunkBytes : Z := pallocChunkPages * pageSize.
Definition pallocSumBytes : Z := 8.
Definition summaryL0Bits : Z := heapAddrBits - logPallocChunkBytes - (summaryLevels - 1) * summaryLevelBits.
Definition pallocChunksL1Bits : Z := 13.
Definition pallocChunksL2Bits : Z := heapAddrBits - logPallocChunkBytes - pallocChunksL1Bits.
Definition pallocChunksL1Shift : Z := pallocChunksL2Bits.

(** Levels are numbered from the root. *)
Definition levels : list nat := [0; 1; 2; 3; 4]%nat.
Definition leaf : nat := 4.
Definition levelBits (l : nat) : Z := match l with O => summaryL0Bits | _ => summaryLevelBits end.
Definition levelShift (l : nat) : Z := heapAddrBits - summaryL0Bits - Z.of_nat l * summaryLevelBits.
Definition levelLogPages (l : nat) : Z := logPallocChunkPages + Z.of_nat (leaf - l) * summaryLevelBits.

Definition maxSearchAddr : offAddr := maxOffAddr.
Definition chunkIndex (p : Z) : Z := u64 (p - arenaBaseOffset) / pallocChunkBytes.
Definition chunkBase (ci : Z) : Z := u64 (u64 (ci * pallocChunkBytes) + arenaBaseOffset).
Definition chunkPageIndex (p : Z) : Z := p mod pallocChunkBytes / pageSize.
Definition chunk_l1 (i : Z) : Z := Z.shiftr i pallocChunksL1Shift.
Definition chunk_l2 (i : Z) : Z := Z.land i (Z.shiftl 1 pallocChunksL2Bits - 1).

Definition offAddrToLevelIndex (level : nat) (addr : offAddr) : Z := Z.shiftr (u64 (addr - arenaBaseOffset)) (levelShift level).
Definition levelIndexToOffAddr (level : nat) (idx : Z) : offAddr := u64 (u64 (Z.shiftl idx (levelShift level)) + arenaBaseOffset).
Definition addrsToSummaryRange (level : nat) (base limit : Z) : Z * Z :=
  (Z.shiftr (u64 (base - arenaBaseOffset)) (levelShift level), Z.shiftr (u64 (limit - arenaBaseOffset)) (levelShift level) + 1).
Definition blockAlignSummaryRange (level : nat) (lo hi : Z) : Z * Z :=
  let e := Z.shiftl 1 (levelBits level) in (alignDown lo e, alignUp hi e).

(** ** The state *)

Record pageAlloc : Type := mkPageAlloc {
  summary : list (gmap Z Z);
  sum_lens : list Z;
  sum_base : list Z;
  chunks : gmap Z pallocData;
  chunks_l1 : gmap Z Z;
  searchAddr : Z;
  start_ : Z;
  end_chunk : Z;
  inUse : addrRanges;
  pa_sysStat : option sysMemStat;
  summaryMappedReady : Z;
  test : bool }.
Definition set_summary (v : list (gmap Z Z)) (x : pageAlloc) : pageAlloc :=
  mkPageAlloc v (sum_lens x) (sum_base x) (chunks x) (chunks_l1 x) (searchAddr x) (start_ x) (end_chunk x) (inUse x) (pa_sysStat x) (summaryMappedReady x) (test x).
Definition set_sum_lens (v : list Z) (x : pageAlloc) : pageAlloc :=
  mkPageAlloc (summary x) v (sum_base x) (chunks x) (chunks_l1 x) (searchAddr x) (start_ x) (end_chunk x) (inUse x) (pa_sysStat x) (summaryMappedReady x) (test x).
Definition set_sum_base (v : list Z) (x : pageAlloc) : pageAlloc :=
  mkPageAlloc (summary x) (sum_lens x) v (chunks x) (chunks_l1 x) (searchAddr x) (start_ x) (end_chunk x) (inUse x) (pa_sysStat x) (summaryMappedReady x) (test x).
Definition set_chunks (v : gmap Z pallocData) (x : pageAlloc) : pageAlloc :=
  mkPageAlloc (summary x) (sum_lens x) (sum_base x) v (chunks_l1 x) (searchAddr x) (start_ x) (end_chunk x) (inUse x) (pa_sysStat x) (summaryMappedReady x) (test x).
Definition set_chunks_l1 (v : gmap Z Z) (x : pageAlloc) : pageAlloc :=
  mkPageAlloc (summary x) (sum_lens x) (sum_base x) (chunks x) v (searchAddr x) (start_ x) (end_chunk x) (inUse x) (pa_sysStat x) (summaryMappedReady x) (test x).
Definition set_searchAddr (v : Z) (x : pageAlloc) : pageAlloc :=
  mkPageAlloc (summary x) (sum_lens x) (sum_base x) (chunks x) (chunks_l1 x) v (start_ x) (end_chunk x) (inUse x) (pa_sysStat x) (summaryMappedReady x) (test x).
Definition set_start_ (v : Z) (x : pageAlloc) : pageAlloc :=
  mkPageAlloc (summary x) (sum_lens x) (sum_base x) (chunks x) (chunks_l1 x) (searchAddr x) v (end_chunk x) (inUse x) (pa_sysStat x) (summaryMappedReady x) (test x).
Definition set_end_chunk (v : Z) (x : pageAlloc) : pageAlloc :=
  mkPageAlloc (summary x) (sum_lens x) (sum_base x) (chunks x) (chunks_l1 x) (searchAddr x) (start_ x) v (inUse x) (pa_sysStat x) (summaryMappedReady x) (test x).
Definition set_inUse (v : addrRanges) (x : pageAlloc) : pageAlloc :=
  mkPageAlloc (summary x) (sum_lens x) (sum_base x) (chunks x) (chunks_l1 x) (searchAddr x) (start_ x) (end_chunk x) v (pa_sysStat x) (summaryMappedReady x) (test x).
Definition set_pa_sysStat (v : option sysMemStat) (x : pageAlloc) : pageAlloc :=
  mkPageAlloc (summary x) (sum_lens x) (sum_base x) (chunks x) (chunks_l1 x) (searchAddr x) (start_ x) (end_chunk x) (inUse x) v (summaryMappedReady x) (test x).
Definition set_summaryMappedReady (v : Z) (x : pageAlloc) : pageAlloc :=
  mkPageAlloc (summary x) (sum_lens x) (sum_base x) (chunks x) (chunks_l1 x) (searchAddr x) (start_ x) (end_chunk x) (inUse x) (pa_sysStat x) v (test x).
Definition set_test (v : bool) (x : pageAlloc) : pageAlloc :=
  mkPageAlloc (summary x) (sum_lens x) (sum_base x) (chunks x) (chunks_l1 x) (searchAddr x) (start_ x) (end_chunk x) (inUse x) (pa_sysStat x) (summaryMappedReady x) v.

Abbreviation M := (stateful pageAlloc Empty_set).
Definition pa_throw {A} (s : string) : M A := st_lift (Panic s).
Definition nil_deref : string := "invalid memory address or nil pointer dereference".

(** [cap(p.summary[l])] and an entry as memory holds it *)
Definition sum_cap (l : nat) : Z := Z.shiftl 1 (heapAddrBits - levelShift l).
Definition sum_at (p : pageAlloc) (l : nat) (i : Z) : Z := default 0 (default ∅ (summary p !! l) !! i).
Definition sum_len (p : pageAlloc) (l : nat) : Z := default 0 (sum_lens p !! l).
Definition sum_put (l : nat) (i v : Z) (p : pageAlloc) : pageAlloc := set_summary (alter (<[i := v]>) l (summary p)) p.

(** [p.summary[l][i]] and [p.summary[l][i] = v] *)
Definition get_sum (l : nat) (i : Z) : M Z :=
  fun p => if (0 <=? i) && (i <? sum_len p l) then (Ok (sum_at p l i), p) else (Panic out_of_range, p).
Definition set_sum (l : nat) (i v : Z) : M unit :=
  fun p => if (0 <=? i) && (i <? sum_len p l) then (Ok tt, sum_put l i v p) else (Panic out_of_range, p).
(** The indices [lo], [lo + 1], ... *)
Fixpoint indices (n : nat) (lo : Z) : list Z := match n with O => [] | S n => lo :: indices n (lo + 1) end.

(** [p.summary[l][lo:hi]], whose bounds are checked against the capacity *)
Definition slice_sums (l : nat) (lo hi : Z) : M (list Z) :=
  fun p => if (0 <=? lo) && (lo <=? hi) && (hi <=? sum_cap l) then (Ok (map (sum_at p l) (indices (Z.to_nat (hi - lo)) lo)), p)
           else (Panic "slice bounds out of range", p).

Definition empty_pallocData : pallocData := mkPallocData (replicate 8 0) (replicate 8 0).
Definition chunk_at (p : pageAlloc) (ci : Z) : pallocData := default empty_pallocData (chunks p !! ci).

(** [p.chunkOf(ci)]: the chunk behind the pointer, and a write through it. *)
Definition chunkOf (ci : Z) : M pallocData :=
  fun p => if Z.shiftl 1 pallocChunksL1Bits <=? chunk_l1 ci then (Panic out_of_range, p)
           else match chunks_l1 p !! chunk_l1 ci with Some _ => (Ok (chunk_at p ci), p) | None => (Panic nil_deref, p) end.
Definition put_chunk (ci : Z) (d : pallocData) : M unit := st_mod (fun p => set_chunks (<[ci := d]> (chunks p)) p).

(** ** [update] *)

Definition summarize_chunk (ci : Z) : M Z := let* d := chunkOf ci in st_lift (summarize (pd_bits d)).

(** [for c := ...; n more; c++ { summary[c] = p.chunkOf(c).summarize() }] *)
Fixpoint summarize_chunks (n : nat) (c : Z) : M unit :=
  match n with
  | O => st_ret tt
  | S n => let* y := summarize_chunk c in set_sum leaf c y ;;; summarize_chunks n (c + 1)
  end.

Fixpoint fill_sums (n : nat) (c v : Z) : M unit :=
  match n with O => st_ret tt | S n => st_mod (sum_put leaf c v) ;;; fill_sums n (c + 1) v end.

(** The leaves; the result is [false] when [update] returns at once. *)
Definition update_leaves (sc ec : Z) (contig alloc : bool) : M bool :=
  if sc =? ec then
    let* x := get_sum leaf sc in
    let* y := summarize_chunk sc in
    if x =? y then st_ret false else set_sum leaf sc y ;;; st_ret true
  else if contig then
    let* y := summarize_chunk sc in
    set_sum leaf sc y ;;;
    let* whole := slice_sums leaf (sc + 1) ec in
    fill_sums (length whole) (sc + 1) (if alloc then 0 else freeChunkSum) ;;;
    let* y := summarize_chunk ec in
    set_sum leaf ec y ;;;
    st_ret true
  else summarize_chunks (Z.to_nat (ec + 1 - sc)) sc ;;; st_ret true.

(** The loop over the blocks of level [l] from [i] on. *)
Fixpoint merge_blocks (n : nat) (l : nat) (i : Z) (changed : bool) : M bool :=
  match n with
  | O => st_ret changed
  | S n =>
      let* children := slice_sums (S l) (Z.shiftl i (levelBits (S l))) (Z.shiftl (i + 1) (levelBits (S l))) in
      let* sum := st_lift (mergeSummaries children (levelLogPages (S l))) in
      let* old := get_sum l i in
      if negb (old =? sum) then set_sum l i sum ;;; merge_blocks n l (i + 1) true
      else merge_blocks n l (i + 1) changed
  end.

(** The walk up the tree over the levels [ls]. *)
Fixpoint update_levels (ls : list nat) (base limit : Z) (changed : bool) : M unit :=
  match ls with
  | [] => st_ret tt
  | l :: ls =>
      if changed then
        let '(lo, hi) := addrsToSummaryRange l base (u64 (limit + 1)) in
        let* changed := merge_blocks (Z.to_nat (hi - lo)) l lo false in
        update_levels ls base limit changed
      else st_ret tt
  end.

Definition update (base npages : Z) (contig alloc : bool) : M unit :=
  let limit := u64 (base + npages * pageSize - 1) in
  let* go := update_leaves (chunkIndex base) (chunkIndex limit) contig alloc in
  if go then update_levels [3; 2; 1; 0]%nat base limit true else st_ret tt.

(** ** [allocRange] *)

Definition alloc_in_chunk (ci i n : Z) : M unit :=
  let* chunk := chunkOf ci in
  let* d := st_lift (pallocData_allocRange chunk i n) in
  put_chunk ci d.

Fixpoint alloc_chunks (n : nat) (c : Z) : M unit :=
  match n with
  | O => st_ret tt
  | S n => let* chunk := chunkOf c in put_chunk c (pallocData_allocAll chunk) ;;; alloc_chunks n (c + 1)
  end.

Definition allocRange (base npages : Z) : M Z :=
  let limit := u64 (base + npages * pageSize - 1) in
  let sc := chunkIndex base in
  let ec := chunkIndex limit in
  let si := chunkPageIndex base in
  let ei := chunkPageIndex limit in
  (if sc =? ec then alloc_in_chunk sc si (u64 (ei + 1 - si))
   else
     alloc_in_chunk sc si (pallocChunkPages - si) ;;;
     alloc_chunks (Z.to_nat (ec - (sc + 1))) (sc + 1) ;;;
     alloc_in_chunk ec 0 ei) ;;;
  update base npages true true ;;;
  st_ret 0.

(** ** [find] *)

Section Find.
(** [mheap_.arenas[0]]: nil, or the arenas that are registered. *)
Variable arenas : option (gmap Z Z).

Definition arenaIndex (p : Z) : Z := u64 (p - arenaBaseOffset) / 2 ^ 26.

Definition findMappedAddr (addr : offAddr) : M offAddr :=
  let* p := st_get in
  let ai := arenaIndex addr in
  let* slow := (if test p then st_ret true
                else match arenas with
                     | None => st_ret true
                     | Some l2 => if 2 ^ 22 <=? ai then pa_throw out_of_range
                                  else st_ret (default 0 (l2 !! ai) =? 0)
                     end) in
  if slow : bool then
    let* r := st_lift (findAddrGreaterEqual (inUse p) addr) in
    let '(vAddr, ok) := r in
    if ok : bool then st_ret vAddr else st_ret maxOffAddr
  else st_ret addr.

(** [firstFree]: [base] and [bound] *)
Definition freeWindow : Type := offAddr * offAddr.

Definition foundFree (addr : offAddr) (size : Z) (w : freeWindow) : res Empty_set freeWindow :=
  let '(base, bound) := w in
  let last := off_add addr (u64 (size - 1)) in
  if lessEqual base addr && lessEqual last bound then Ok (addr, last)
  else if negb (lessThan last base || lessThan bound addr) then Panic "range partially overlaps"
  else Ok w.

(** How the loop over the entries of a block ends: with a run of [size] pages
    from page [base] of the block, or below the entry [j]. *)
Inductive block_end : Type :=
  | Run (base size : Z)
  | Below (j : Z).

(** The loop over [entries] from index [j]; [i] is the index of the block and
    does not change, so the condition [i < len(entries)] does not either. *)
Fixpoint block_loop (fuel : nat) (l : nat) (npages i : Z) (entries : list Z) (j base size : Z) (w : freeWindow) :
    res Empty_set (block_end * freeWindow) :=
  if i <? len entries then
    match fuel with
    | O => NoFuel
    | S fuel =>
        let? sum := slice_get entries j in
        if sum =? 0 then block_loop fuel l npages i entries (j + 1) base 0 w
        else
          let lg := levelLogPages l in
          let? w := foundFree (levelIndexToOffAddr l (i + j)) (u64 (Z.shiftl 1 lg * pageSize)) w in
          let s := sum_start sum in
          if npages <=? u64 (size + s) then
            Ok (Run (if size =? 0 then shl64 j lg else base) (u64 (size + s)), w)
          else if npages <=? sum_max sum then Ok (Below j, w)
          else if (size =? 0) || (s <? shl64 1 lg) then
            let size := sum_end sum in
            block_loop fuel l npages i entries (j + 1) (u64 (shl64 (j + 1) lg - size)) size w
          else block_loop fuel l npages i entries (j + 1) base (u64 (size + shl64 1 lg)) w
    end
  else Ok (Run base size, w).

(** The first entry to look at: that of the search address in its own block. *)
Definition first_entry (l : nat) (i : Z) (searchAddr : offAddr) : Z :=
  let entriesPerBlock := Z.shiftl 1 (levelBits l) in
  let searchIdx := offAddrToLevelIndex l searchAddr in
  if Z.ldiff searchIdx (entriesPerBlock - 1) =? i then Z.land searchIdx (entriesPerBlock - 1) else 0.

(** The walk down: an address, no room, or the index of a chunk. *)
Inductive level_end : Type :=
  | At (addr : Z)
  | NoRoom
  | InChunk (ci : Z).

Fixpoint find_levels (ls : list nat) (npages i : Z) (w : freeWindow) : M (level_end * freeWindow) :=
  match ls with
  | [] => st_ret (InChunk i, w)
  | l :: ls =>
      let i := Z.shiftl i (levelBits l) in
      let* entries := slice_sums l i (i + Z.shiftl 1 (levelBits l)) in
      let* p := st_get in
      let* r := st_lift (block_loop (S (length entries)) l npages i entries (first_entry l i (searchAddr p)) 0 0 w) in
      match r with
      | (Below j, w) => find_levels ls npages (i + j) w
      | (Run base size, w) =>
          if npages <=? size then st_ret (At (off_add (levelIndexToOffAddr l i) (u64 (base * pageSize))), w)
          else match l with O => st_ret (NoRoom, w) | S _ => pa_throw "bad summary data" end
      end
  end.

Definition page_find (npages : Z) : M (Z * offAddr) :=
  let* r := find_levels levels npages 0 (minOffAddr, maxOffAddr) in
  match r with
  | (At addr, w) => let* m := findMappedAddr (fst w) in st_ret (addr, m)
  | (NoRoom, _) => st_ret (0, maxSearchAddr)
  | (InChunk ci, w) =>
      let* chunk := chunkOf ci in
      let* r := st_lift (PageBits.find (pd_bits chunk) npages 0) in
      let '(j, searchIdx) := r in
      if j =? notFound then pa_throw "bad summary data"
      else
        let addr := u64 (chunkBase ci + u64 (j * pageSize)) in
        let searchAddr := u64 (chunkBase ci + u64 (searchIdx * pageSize)) in
        let* w := st_lift (foundFree searchAddr (u64 (chunkBase (ci + 1) - searchAddr)) w) in
        let* m := findMappedAddr (fst w) in
        st_ret (addr, m)
  end.

End Find.
