(* ===== verification/PageTree.v ===== *)
(** * The tree of summaries

    What the radix tree of [pageAlloc] means: the entry [i] of level [l] is the
    packed summary of the pages of its [8^(4-l)] chunks.  [update] restores this
    after any change of the bitmaps in its range. *)
From S2P Require Import Prelude Slice Bits64 PallocSum PageBits PageFind PageSummary AddrRanges OsMem OffHeap PageAlloc.

Local Open Scope Z_scope.
Local Open Scope go_scope.

Section Tree.

(** The chunks the allocator was given ([grow]). *)
Variable known : Z -> bool.

Implicit Types p : pageAlloc.

(** ** The meaning of the tree *)

(** The pages of a chunk, free ones are [true]. *)
Definition chunk_pages p (ci : Z) : list bool :=
  if known ci then page_list (pd_bits (chunk_at p ci)) else replicate 512 false.

(** The pages below the entry [i] of level [l]. *)
Definition entry_pages p (l : nat) (i : Z) : list bool :=
  concat (map (chunk_pages p) (seqZ (i * 8 ^ Z.of_nat (leaf - l)) (8 ^ Z.of_nat (leaf - l)))).

Definition summaries_ok p : Prop := forall l i, (l <= leaf)%nat -> 0 <= i -> sum_at p l i = packed (entry_pages p l i).

(** The tables are large enough for the chunks. *)
Record pages_wf p : Prop := {
  wf_levels : length (summary p) = 5%nat;
  wf_lens l : (l <= leaf)%nat -> sum_len p l <= sum_cap l;
  wf_known ci : known ci = true -> 0 <= ci < 2 ^ 26 /\ is_Some (chunks_l1 p !! chunk_l1 ci) /\
    pageBits_ok (pd_bits (chunk_at p ci)) /\ forall l, (l <= leaf)%nat -> (ci + 1) / 8 ^ Z.of_nat (leaf - l) < sum_len p l }.

(** The same locally: the leaves, and every other entry from its children. *)
Definition leaf_ok p : Prop := forall ci, 0 <= ci -> sum_at p leaf ci = packed (chunk_pages p ci).
Definition children p (l : nat) (i : Z) : list Z := map (sum_at p (S l)) (seqZ (8 * i) 8).
Definition node_ok p (l : nat) (i : Z) : Prop := mergeSummaries (children p l i) (levelLogPages (S l)) = Ok (sum_at p l i).
Definition nodes_ok p (l : nat) : Prop := forall i, 0 <= i -> node_ok p l i.

Lemma len_page_list b : pageBits_ok b -> len (page_list b) = 512.
Proof.
  intros [Hlen Hb]. unfold page_list. do 9 (destruct b as [|? b]; try done).
Qed.

Lemma chunk_pages_len p ci : pages_wf p -> len (chunk_pages p ci) = 512.
Proof.
  intros Hwf. unfold chunk_pages. destruct (known ci) eqn:E; [|done]. by apply len_page_list, (wf_known p Hwf ci E).
Qed.

Lemma concat_len {A} n (ls : list (list A)) : Forall (fun l => len l = n) ls -> len (concat ls) = len ls * n.
Proof.
  induction 1 as [|l ls Hl _ IH]; [done|]. cbn [concat]. rewrite len_app, len_cons, IH, Hl. lia.
Qed.

Lemma len_seqZ a n : 0 <= n -> len (seqZ a n) = n.
Proof. intros. unfold len. rewrite length_seqZ. lia. Qed.

Lemma entry_pages_len p l i : pages_wf p -> (l <= leaf)%nat -> len (entry_pages p l i) = 2 ^ levelLogPages l.
Proof.
  intros Hwf Hl. unfold entry_pages. rewrite (concat_len 512), len_map, len_seqZ by first [apply Z.pow_nonneg; lia|apply List.Forall_map, Forall_true; intros; by apply chunk_pages_len].
  unfold leaf in *. do 5 (destruct l as [|l]; [done|]). lia.
Qed.

Lemma seqZ_shift a n : seqZ a n = map (Z.add a) (seqZ 0 n).
Proof. pose proof (fmap_add_seqZ a 0 n) as H. rewrite Z.add_0_r in H. symmetry. exact H. Qed.

(** The pages below an entry are those below its eight children. *)
Lemma seqZ_blocks (m n : nat) a : seqZ a (Z.of_nat n * Z.of_nat m) =
  concat (map (fun k => seqZ (a + k * Z.of_nat m) (Z.of_nat m)) (seqZ 0 (Z.of_nat n))).
Proof.
  revert a. induction n as [|n IH]; intros a; [done|].
  replace (Z.of_nat (S n) * Z.of_nat m) with (Z.of_nat m + Z.of_nat n * Z.of_nat m) by lia. rewrite seqZ_app by lia.
  rewrite (seqZ_cons 0) by lia. cbn [map concat]. f_equal; [f_equal; lia|].
  rewrite IH. replace (Z.pred (Z.of_nat (S n))) with (Z.of_nat n) by lia. f_equal.
  change (Z.succ 0) with 1. rewrite (seqZ_shift 1), map_map. apply map_ext. intros k. f_equal. lia.
Qed.

Lemma concat_map_concat {A B} (f : A -> list B) (ls : list (list A)) :
  concat (map f (concat ls)) = concat (map (fun l => concat (map f l)) ls).
Proof. induction ls as [|l ls IH]; [done|]. cbn [concat map]. by rewrite map_app, concat_app, IH. Qed.

Lemma entry_children p l i : (l < leaf)%nat ->
  entry_pages p l i = concat (map (entry_pages p (S l)) (seqZ (8 * i) 8)).
Proof.
  intros Hl. unfold entry_pages. set (m := Z.to_nat (8 ^ Z.of_nat (leaf - S l))).
  assert (8 ^ Z.of_nat (leaf - S l) = Z.of_nat m) as Hm by (unfold m; pose proof (Z.pow_pos_nonneg 8 (Z.of_nat (leaf - S l))); lia).
  assert (8 ^ Z.of_nat (leaf - l) = Z.of_nat 8 * Z.of_nat m) as ->.
  { rewrite <- Hm. replace (Z.of_nat (leaf - l)) with (1 + Z.of_nat (leaf - S l)) by lia. by rewrite Z.pow_add_r by lia. }
  rewrite Hm, seqZ_blocks, concat_map_concat, map_map. f_equal.
  rewrite (seqZ_shift (8 * i)), !map_map. apply map_ext. intros k. do 3 f_equal. lia.
Qed.

Lemma entry_leaf p ci : entry_pages p leaf ci = chunk_pages p ci.
Proof.
  unfold entry_pages. change (8 ^ Z.of_nat (leaf - leaf)) with 1. rewrite Z.mul_1_r, (seqZ_cons ci) by lia.
  change (seqZ (Z.succ ci) (Z.pred 1)) with (@nil Z). apply app_nil_r.
Qed.

Lemma children_packed p l i : pages_wf p -> (l < leaf)%nat ->
  mergeSummaries (map packed (map (entry_pages p (S l)) (seqZ (8 * i) 8))) (levelLogPages (S l)) = Ok (packed (entry_pages p l i)).
Proof.
  intros Hwf Hl. rewrite entry_children by done. apply merge_packed.
  - done.
  - unfold levelLogPages. unfold logPallocChunkPages, summaryLevelBits. lia.
  - apply List.Forall_map, Forall_true. intros k. apply entry_pages_len; [done|lia].
  - rewrite <- entry_children by done. rewrite entry_pages_len by (done || lia).
    unfold leaf in Hl. do 4 (destruct l as [|l]; [by vm_compute|]). lia.
Qed.

Lemma summaries_local p : pages_wf p -> summaries_ok p <-> leaf_ok p /\ forall l, (l < leaf)%nat -> nodes_ok p l.
Proof.
  intros Hwf. split.
  - intros Hs. split; [intros ci Hci; rewrite Hs by done; by rewrite entry_leaf|].
    intros l Hl i Hi. unfold node_ok, children. rewrite Hs by lia. rewrite <- children_packed by done. rewrite map_map.
    f_equal. apply map_ext_in. intros k Hk. apply list_elem_of_In, elem_of_seqZ in Hk. rewrite Hs by lia. done.
  - intros [Hleaf Hn]. assert (forall d l i, (l + d = leaf)%nat -> 0 <= i -> sum_at p l i = packed (entry_pages p l i)) as H.
    { induction d as [|d IH]; intros l i Hd Hi.
      - replace l with leaf by lia. by rewrite Hleaf, entry_leaf.
      - pose proof (Hn l ltac:(lia) i Hi) as Hnode. unfold node_ok, children in Hnode.
        rewrite (map_ext_in _ (fun k => packed (entry_pages p (S l) k))) in Hnode.
        + rewrite <- map_map, children_packed in Hnode by (done || lia). by injection Hnode.
        + intros k Hk. apply list_elem_of_In, elem_of_seqZ in Hk. apply IH; lia. }
    intros l i Hl Hi. apply (H (leaf - l)%nat); lia.
Qed.

(** ** Access to the tables *)

(** Only summaries changed. *)
Definition only_sums p p' : Prop := exists s, length s = length (summary p) /\ p' = set_summary s p.

Lemma only_sums_refl p : only_sums p p.
Proof. exists (summary p). split; [done|]. by destruct p. Qed.
Lemma only_sums_trans p1 p2 p3 : only_sums p1 p2 -> only_sums p2 p3 -> only_sums p1 p3.
Proof. intros (s & Hs & ->) (s' & Hs' & ->). exists s'. split; [cbn [summary set_summary] in Hs'; by rewrite Hs'|done]. Qed.
Lemma only_sums_put p l i v : only_sums p (sum_put l i v p).
Proof. eexists. split; [apply length_alter|done]. Qed.

Lemma only_sums_wf p p' : only_sums p p' -> pages_wf p -> pages_wf p'.
Proof. intros (s & Hs & ->) [H1 H2 H3]. split; [cbn [summary set_summary]; by rewrite Hs|exact H2|exact H3]. Qed.
Lemma only_sums_pages p p' ci : only_sums p p' -> chunk_pages p' ci = chunk_pages p ci.
Proof. by intros (s & _ & ->). Qed.
Lemma only_sums_len p p' l : only_sums p p' -> sum_len p' l = sum_len p l.
Proof. by intros (s & _ & ->). Qed.

Lemma sum_at_put p l i v l' j : length (summary p) = 5%nat -> (l <= leaf)%nat ->
  sum_at (sum_put l i v p) l' j = if decide (l = l' /\ i = j) then v else sum_at p l' j.
Proof.
  intros Hlen Hl. unfold sum_at, sum_put. cbn [summary set_summary].
  destruct (decide (l = l')) as [<-|Hne].
  - rewrite list_lookup_alter_eq. destruct (lookup_lt_is_Some_2 (summary p) l) as [m ->]; [unfold leaf in Hl; lia|]. cbn.
    destruct (decide (i = j)) as [<-|]; [by rewrite lookup_insert_eq, decide_True|].
    rewrite lookup_insert_ne by done. by rewrite decide_False by tauto.
  - rewrite list_lookup_alter_ne by done. by rewrite decide_False by tauto.
Qed.

Lemma get_sum_ok p l i : 0 <= i < sum_len p l -> get_sum l i p = (Ok (sum_at p l i), p).
Proof. intros Hi. unfold get_sum. destruct (Z.leb_spec 0 i), (Z.ltb_spec i (sum_len p l)); try lia. done. Qed.
Lemma set_sum_ok p l i v : 0 <= i < sum_len p l -> set_sum l i v p = (Ok tt, sum_put l i v p).
Proof. intros Hi. unfold set_sum. destruct (Z.leb_spec 0 i), (Z.ltb_spec i (sum_len p l)); try lia. done. Qed.
Lemma indices_seqZ n : forall lo, indices n lo = seqZ lo (Z.of_nat n).
Proof.
  induction n as [|n IH]; intros lo; [done|]. rewrite seqZ_cons by lia. cbn [indices]. rewrite IH. f_equal. f_equal. lia.
Qed.
Lemma slice_sums_ok p l lo hi : 0 <= lo <= hi -> hi <= sum_cap l -> slice_sums l lo hi p = (Ok (map (sum_at p l) (seqZ lo (hi - lo))), p).
Proof. intros Hi Hc. unfold slice_sums. rewrite indices_seqZ, Z2Nat.id by lia. destruct (Z.leb_spec 0 lo), (Z.leb_spec lo hi), (Z.leb_spec hi (sum_cap l)); try lia. done. Qed.

Lemma chunk_l1_eq ci : 0 <= ci -> chunk_l1 ci = ci / 2 ^ 13.
Proof. intros. unfold chunk_l1. by rewrite Z.shiftr_div_pow2 by done. Qed.

Lemma chunkOf_ok p ci : pages_wf p -> known ci = true -> chunkOf ci p = (Ok (chunk_at p ci), p).
Proof.
  intros Hwf Hk. destruct (wf_known p Hwf ci Hk) as (Hci & [r Hr] & _). unfold chunkOf. rewrite Hr.
  change (Z.shiftl 1 pallocChunksL1Bits) with (2 ^ 13). rewrite chunk_l1_eq by lia.
  destruct (Z.leb_spec (2 ^ 13) (ci / 2 ^ 13)); [zdiv_lia|done].
Qed.

Lemma summarize_chunk_ok p ci : pages_wf p -> known ci = true -> summarize_chunk ci p = (Ok (packed (chunk_pages p ci)), p).
Proof.
  intros Hwf Hk. unfold summarize_chunk. rewrite (bind_ok _ _ _ _ _ (chunkOf_ok p ci Hwf Hk)). unfold st_lift.
  rewrite summarize_packed by apply (wf_known p Hwf ci Hk). unfold chunk_pages. by rewrite Hk.
Qed.

(** ** The leaves *)

(** The leaves from [c] on, [n] of them, are those of the bitmaps; nothing else changed. *)
Definition leaves_set p p' (c n : Z) : Prop :=
  only_sums p p' /\
  (forall ci, c <= ci < c + n -> sum_at p' leaf ci = packed (chunk_pages p ci)) /\
  (forall l j, l <> leaf \/ ~ (c <= j < c + n) -> sum_at p' l j = sum_at p l j).

Lemma leaves_set_app p1 p2 p3 c n m : 0 <= n -> 0 <= m ->
  leaves_set p1 p2 c n -> leaves_set p2 p3 (c + n) m -> leaves_set p1 p3 c (n + m).
Proof.
  intros Hn Hm (Ho1 & Hs1 & Hk1) (Ho2 & Hs2 & Hk2). split; [by eapply only_sums_trans|]. split.
  - intros ci Hci. destruct (Z.lt_ge_cases ci (c + n)).
    + rewrite Hk2 by lia. apply Hs1. lia.
    + rewrite Hs2 by lia. by rewrite (only_sums_pages _ _ _ Ho1).
  - intros l j Hj. rewrite Hk2 by lia. apply Hk1. lia.
Qed.

Lemma leaves_set_nil p c : leaves_set p p c 0.
Proof. split; [apply only_sums_refl|]. split; [lia|done]. Qed.

Lemma leaves_set_put p c v : pages_wf p -> v = packed (chunk_pages p c) -> leaves_set p (sum_put leaf c v p) c 1.
Proof.
  intros Hwf Hv. split; [apply only_sums_put|]. split.
  - intros ci Hci. rewrite sum_at_put by (apply Hwf || done). rewrite decide_True; [by replace ci with c by lia|]. split; [done|lia].
  - intros l j Hj. rewrite sum_at_put by (apply Hwf || done). rewrite decide_False; [done|]. lia.
Qed.

Lemma known_len p c : pages_wf p -> known c = true -> 0 <= c < sum_len p leaf.
Proof.
  intros Hwf Hk. destruct (wf_known p Hwf c Hk) as (Hc & _ & _ & Hl). specialize (Hl leaf ltac:(done)).
  change (8 ^ Z.of_nat (leaf - leaf)) with 1 in Hl. rewrite Z.div_1_r in Hl. lia.
Qed.

Lemma set_leaf_ok p c : pages_wf p -> known c = true ->
  exists p', set_sum leaf c (packed (chunk_pages p c)) p = (Ok tt, p') /\ leaves_set p p' c 1.
Proof.
  intros Hwf Hk. eexists. split; [apply set_sum_ok; by apply known_len|]. by apply leaves_set_put.
Qed.

Lemma summarize_chunks_ok n : forall c p, pages_wf p -> (forall ci, c <= ci < c + Z.of_nat n -> known ci = true) ->
  exists p', summarize_chunks n c p = (Ok tt, p') /\ leaves_set p p' c (Z.of_nat n).
Proof.
  induction n as [|n IH]; intros c p Hwf Hk; cbn [summarize_chunks].
  - exists p. split; [done|apply leaves_set_nil].
  - assert (known c = true) as Hc by (apply Hk; lia).
    rewrite (bind_ok _ _ _ _ _ (summarize_chunk_ok p c Hwf Hc)). destruct (set_leaf_ok p c Hwf Hc) as (p1 & E1 & H1). step_with E1.
    destruct (IH (c + 1) p1) as (p2 & E2 & H2); [eapply only_sums_wf; [apply H1|done]|intros; apply Hk; lia|].
    exists p2. split; [done|]. replace (Z.of_nat (S n)) with (1 + Z.of_nat n) by lia. apply (leaves_set_app _ p1); [lia|lia|done|done].
Qed.

Lemma fill_sums_ok n v : forall c p, pages_wf p -> (forall ci, c <= ci < c + Z.of_nat n -> v = packed (chunk_pages p ci)) ->
  exists p', fill_sums n c v p = (Ok tt, p') /\ leaves_set p p' c (Z.of_nat n).
Proof.
  induction n as [|n IH]; intros c p Hwf Hk; cbn [fill_sums].
  - exists p. split; [done|apply leaves_set_nil].
  - step. assert (leaves_set p (sum_put leaf c v p) c 1) as H1 by (apply leaves_set_put; [done|apply Hk; lia]).
    destruct (IH (c + 1) (sum_put leaf c v p)) as (p2 & E2 & H2).
    + eapply only_sums_wf; [apply H1|done].
    + intros ci Hci. rewrite (only_sums_pages p) by apply H1. apply Hk. lia.
    + exists p2. split; [done|]. replace (Z.of_nat (S n)) with (1 + Z.of_nat n) by lia. apply (leaves_set_app _ (sum_put leaf c v p)); [lia|lia|done|done].
Qed.

Definition uniform (contig alloc : bool) p (sc ec : Z) : Prop :=
  contig = true -> forall c, sc < c < ec -> chunk_pages p c = replicate 512 (negb alloc).

Lemma uniform_sum alloc p c : chunk_pages p c = replicate 512 (negb alloc) ->
  (if alloc then 0 else freeChunkSum) = packed (chunk_pages p c).
Proof. intros ->. by destruct alloc; vm_compute. Qed.

Lemma update_leaves_ok sc ec contig alloc p : pages_wf p -> 0 <= sc <= ec -> (forall c, sc <= c <= ec -> known c = true) ->
  uniform contig alloc p sc ec ->
  exists go p', update_leaves sc ec contig alloc p = (Ok go, p') /\ leaves_set p p' sc (ec + 1 - sc) /\ (go = false -> p' = p).
Proof.
  intros Hwf Hle Hk Hu. unfold update_leaves. destruct (Z.eqb_spec sc ec) as [<-|Hne].
  - assert (known sc = true) as Hsc by (apply Hk; lia). replace (sc + 1 - sc) with 1 by lia.
    rewrite (bind_ok _ _ _ _ _ (get_sum_ok p leaf sc (known_len p sc Hwf Hsc))).
    rewrite (bind_ok _ _ _ _ _ (summarize_chunk_ok p sc Hwf Hsc)).
    destruct (Z.eqb_spec (sum_at p leaf sc) (packed (chunk_pages p sc))) as [E|_].
    + exists false, p. split; [done|]. split; [|done]. split; [apply only_sums_refl|]. split; [|done].
      intros ci Hci. by replace ci with sc by lia.
    + destruct (set_leaf_ok p sc Hwf Hsc) as (p1 & E1 & H1). step_with E1. by exists true, p1.
  - destruct contig.
    + assert (known sc = true /\ known ec = true) as [Hsc Hec] by (split; apply Hk; lia).
      rewrite (bind_ok _ _ _ _ _ (summarize_chunk_ok p sc Hwf Hsc)). destruct (set_leaf_ok p sc Hwf Hsc) as (p1 & E1 & H1). step_with E1.
      assert (pages_wf p1) as Hwf1 by (eapply only_sums_wf; [apply H1|done]).
      rewrite (bind_ok _ _ _ _ _ (slice_sums_ok p1 leaf (sc + 1) ec ltac:(lia)
        ltac:(pose proof (known_len p1 ec Hwf1 Hec); pose proof (wf_lens p1 Hwf1 leaf ltac:(done)); lia))).
      rewrite length_map, length_seqZ.
      destruct (fill_sums_ok (Z.to_nat (ec - (sc + 1))) (if alloc then 0 else freeChunkSum) (sc + 1) p1 Hwf1) as (p2 & E2 & H2).
      { intros ci Hci. apply uniform_sum. rewrite (only_sums_pages p) by apply H1. apply Hu; [done|lia]. }
      step_with E2. assert (pages_wf p2) as Hwf2 by (eapply only_sums_wf; [apply H2|done]).
      rewrite (bind_ok _ _ _ _ _ (summarize_chunk_ok p2 ec Hwf2 Hec)). destruct (set_leaf_ok p2 ec Hwf2 Hec) as (p3 & E3 & H3). step_with E3.
      exists true, p3. split; [done|]. split; [|done].
      replace (ec + 1 - sc) with (1 + (Z.of_nat (Z.to_nat (ec - (sc + 1))) + 1)) by lia.
      apply (leaves_set_app _ p1); [lia|lia|done|]. apply (leaves_set_app _ p2); [lia|lia|done|].
      by replace (sc + 1 + Z.of_nat (Z.to_nat (ec - (sc + 1)))) with ec by lia.
    + destruct (summarize_chunks_ok (Z.to_nat (ec + 1 - sc)) sc p Hwf) as (p1 & E1 & H1); [intros; apply Hk; lia|].
      step_with E1. exists true, p1. split; [done|]. split; [|done]. by replace (ec + 1 - sc) with (Z.of_nat (Z.to_nat (ec + 1 - sc))) by lia.
Qed.

(** ** The walk up *)

Lemma levelShift_eq l : levelShift l = 34 - 3 * Z.of_nat l.
Proof. unfold levelShift. change (heapAddrBits - summaryL0Bits) with 34. unfold summaryLevelBits. lia. Qed.

Lemma sum_cap_eq l : (l <= leaf)%nat -> sum_cap l = 2 ^ (14 + 3 * Z.of_nat l).
Proof.
  intros Hl. unfold sum_cap. rewrite levelShift_eq, Z.shiftl_mul_pow2 by (unfold heapAddrBits, leaf in *; lia).
  rewrite Z.mul_1_l. f_equal. unfold heapAddrBits. lia.
Qed.

Lemma merge_total p l i : exists v, mergeSummaries (children p l i) (levelLogPages (S l)) = Ok v.
Proof.
  unfold children. rewrite (seqZ_cons (8 * i)) by lia. cbn [map mergeSummaries].
  destruct (merge_loop _ _ _ _) as [[start max] end_]. by eexists.
Qed.

(** The entries [i] to [i + n] of level [l] agree with their children. *)
Definition blocks_set p p' (l : nat) (i n : Z) : Prop :=
  only_sums p p' /\
  (forall j, i <= j < i + n -> node_ok p' l j) /\
  (forall l' j, l' <> l \/ ~ (i <= j < i + n) -> sum_at p' l' j = sum_at p l' j).

Lemma node_ok_ext p p' l i : (forall j, sum_at p' (S l) j = sum_at p (S l) j) -> sum_at p' l i = sum_at p l i ->
  node_ok p l i -> node_ok p' l i.
Proof. intros Hc Hs. unfold node_ok, children. by rewrite Hs, (map_ext _ _ Hc). Qed.

Lemma merge_blocks_ok n l : (l < leaf)%nat -> forall i ch p, pages_wf p -> 0 <= i -> i + Z.of_nat n <= sum_len p l ->
  exists ch' p', merge_blocks n l i ch p = (Ok ch', p') /\ blocks_set p p' l i (Z.of_nat n) /\
    (ch' = false -> forall l' j, sum_at p' l' j = sum_at p l' j) /\ (ch = true -> ch' = true).
Proof.
  intros Hl. induction n as [|n IH]; intros i ch p Hwf Hi Hn; cbn [merge_blocks].
  - exists ch, p. split; [done|]. split; [|done]. split; [apply only_sums_refl|]. split; [lia|done].
  - assert (sum_len p l <= sum_cap l) as Hlen by (apply wf_lens; [done|lia]).
    assert (sum_cap (S l) = 8 * sum_cap l) as Hcap.
    { rewrite !sum_cap_eq by lia. replace (14 + 3 * Z.of_nat (S l)) with (3 + (14 + 3 * Z.of_nat l)) by lia. by rewrite Z.pow_add_r by lia. }
    assert (forall x, Z.shiftl x (levelBits (S l)) = 8 * x) as Hsh by (intros x; cbn [levelBits]; rewrite Z.shiftl_mul_pow2 by done; unfold summaryLevelBits; lia).
    rewrite !Hsh. rewrite (bind_ok _ _ _ _ _ (slice_sums_ok p (S l) (8 * i) (8 * (i + 1)) ltac:(lia) ltac:(lia))).
    replace (8 * (i + 1) - 8 * i) with 8 by lia. fold (children p l i).
    destruct (merge_total p l i) as [v Hv]. unfold st_lift at 1. rewrite Hv. step.
    rewrite (bind_ok _ _ _ _ _ (get_sum_ok p l i ltac:(lia))).
    destruct (Z.eqb_spec (sum_at p l i) v) as [E|E]; cbn [negb].
    + destruct (IH (i + 1) ch p Hwf) as (ch' & p' & E' & (Ho & Hset & Hkeep) & Hfalse & Htrue); [lia|lia|].
      exists ch', p'. split; [done|]. split; [|done]. split; [done|]. split; [|intros l' j Hj; apply Hkeep; lia].
      intros j Hj. destruct (decide (j = i)) as [->|]; [|apply Hset; lia].
      apply (node_ok_ext p); [intros j'; apply Hkeep; lia|apply Hkeep; lia|]. unfold node_ok. by rewrite Hv, E.
    + rewrite (bind_ok _ _ _ _ _ (set_sum_ok p l i v ltac:(lia))). set (p1 := sum_put l i v p).
      assert (only_sums p p1) as Ho1 by apply only_sums_put. assert (pages_wf p1) as Hwf1 by (by eapply only_sums_wf).
      destruct (IH (i + 1) true p1 Hwf1) as (ch' & p' & E' & (Ho & Hset & Hkeep) & Hfalse & Htrue); [lia|rewrite (only_sums_len _ _ _ Ho1); lia|].
      specialize (Htrue eq_refl). exists ch', p'. split; [done|]. split; [|by subst].
      assert (forall l' j, l' <> l \/ j <> i -> sum_at p1 l' j = sum_at p l' j) as Hp1.
      { intros l' j Hj. unfold p1. rewrite sum_at_put by (apply Hwf || lia). rewrite decide_False; [done|]. intros [-> ->]. lia. }
      split; [by eapply only_sums_trans|]. split.
      * intros j Hj. destruct (decide (j = i)) as [->|]; [|apply Hset; lia].
        apply (node_ok_ext p1); [intros j'; apply Hkeep; lia|apply Hkeep; lia|]. unfold node_ok.
        assert (children p1 l i = children p l i) as -> by (apply map_ext; intros j'; apply Hp1; lia).
        rewrite Hv. unfold p1. rewrite sum_at_put by (apply Hwf || lia). by rewrite decide_True.
      * intros l' j Hj. rewrite Hkeep by lia. apply Hp1. lia.
Qed.

(** Entries of level [l] for the bytes from [B] to [E]. *)
Definition lo_idx (l : nat) (B : Z) : Z := B / 2 ^ levelShift l.
Definition hi_idx (l : nat) (E : Z) : Z := E / 2 ^ levelShift l + 1.

Lemma parent_in_range l B E i k : (l < leaf)%nat -> 0 <= B -> 0 <= E -> 0 <= k < 8 ->
  lo_idx (S l) B <= 8 * i + k < hi_idx (S l) E -> lo_idx l B <= i < hi_idx l E.
Proof.
  intros Hl HB HE Hk. unfold lo_idx, hi_idx. rewrite !levelShift_eq. unfold leaf in Hl.
  replace (34 - 3 * Z.of_nat l) with (34 - 3 * Z.of_nat (S l) + 3) by lia.
  rewrite Z.pow_add_r, <- !Z.div_div by (try apply Z.pow_nonzero; lia). change (2 ^ 3) with 8.
  set (x := B / _). set (y := E / _). intros. zdiv_lia.
Qed.

Fixpoint down_from (l : nat) : list nat := l :: match l with O => [] | S l => down_from l end.

(** [p0] is the tree before the change. *)
Record partial (p0 p : pageAlloc) (l : nat) (B E : Z) : Prop := {
  pt_above l' : (l < l' < leaf)%nat -> nodes_ok p l';
  pt_below l' j : (l' <= l)%nat -> sum_at p l' j = sum_at p0 l' j;
  pt_level j : ~ (lo_idx (S l) B <= j < hi_idx (S l) E) -> sum_at p (S l) j = sum_at p0 (S l) j }.

Lemma node_below p0 p l B E i : (l < leaf)%nat -> 0 <= B -> 0 <= E -> 0 <= i -> partial p0 p l B E -> nodes_ok p0 l ->
  ~ (lo_idx l B <= i < hi_idx l E) -> node_ok p l i.
Proof.
  intros Hl HB HE Hi [_ Hbelow Hlevel] Hn Hout. unfold node_ok.
  assert (children p l i = children p0 l i) as ->; [|rewrite Hbelow by done; by apply Hn].
  apply map_ext_in. intros j Hj. apply list_elem_of_In, elem_of_seqZ in Hj. apply Hlevel. intros Hr. apply Hout.
  apply (parent_in_range l B E i (j - 8 * i)); lia.
Qed.

Lemma level_step p0 p l B E : (l < leaf)%nat -> 0 <= B -> B <= E -> pages_wf p -> hi_idx l E <= sum_len p l ->
  nodes_ok p0 l -> partial p0 p l B E ->
  exists ch p1, merge_blocks (Z.to_nat (hi_idx l E - lo_idx l B)) l (lo_idx l B) false p = (Ok ch, p1) /\ only_sums p p1 /\
    (forall l', (l <= l' < leaf)%nat -> nodes_ok p1 l') /\
    (forall l' j, l' <> l \/ ~ (lo_idx l B <= j < hi_idx l E) -> sum_at p1 l' j = sum_at p l' j) /\
    (ch = false -> forall l' j, sum_at p1 l' j = sum_at p l' j).
Proof.
  intros Hl HB HE Hwf Hlen Hn0 Hp.
  assert (0 < 2 ^ levelShift l) as Hpos by (apply Z.pow_pos_nonneg; [lia|rewrite levelShift_eq; unfold leaf in Hl; lia]).
  assert (0 <= lo_idx l B) as Hlo by (unfold lo_idx; by apply Z.div_pos).
  assert (lo_idx l B <= hi_idx l E) as Hle by (unfold lo_idx, hi_idx; pose proof (Z.div_le_mono B E _ Hpos HE); lia).
  destruct (merge_blocks_ok (Z.to_nat (hi_idx l E - lo_idx l B)) l Hl (lo_idx l B) false p Hwf Hlo) as (ch & p1 & E1 & (Ho & Hset & Hkeep) & Hfalse & _); [lia|].
  replace (lo_idx l B + Z.of_nat (Z.to_nat (hi_idx l E - lo_idx l B))) with (hi_idx l E) in * by lia.
  exists ch, p1. split; [done|]. split; [done|]. split; [|by split].
  intros l' Hl' i Hi. destruct (decide (l' = l)) as [->|].
  - destruct (decide (lo_idx l B <= i < hi_idx l E)) as [Hr|Hr]; [by apply Hset|].
    apply (node_ok_ext p); [intros; apply Hkeep; left; lia|apply Hkeep; by right|].
    exact (node_below p0 p _ B E i Hl HB ltac:(lia) Hi Hp Hn0 Hr).
  - apply (node_ok_ext p); [intros; apply Hkeep; left; lia|apply Hkeep; left; lia|]. apply (pt_above _ _ _ _ _ Hp); [lia|done].
Qed.

Lemma update_levels_cons l ls base limit B E : (l < leaf)%nat ->
  u64 (base - arenaBaseOffset) = B -> u64 (u64 (limit + 1) - arenaBaseOffset) = E ->
  update_levels (l :: ls) base limit true =
  (let* changed := merge_blocks (Z.to_nat (hi_idx l E - lo_idx l B)) l (lo_idx l B) false in update_levels ls base limit changed).
Proof.
  intros Hl HB HE. cbn [update_levels addrsToSummaryRange]. rewrite HB, HE, !Z.shiftr_div_pow2 by (rewrite levelShift_eq; unfold leaf in Hl; lia).
  done.
Qed.

Lemma update_levels_ok base limit B E p0 : 0 <= B -> B <= E ->
  u64 (base - arenaBaseOffset) = B -> u64 (u64 (limit + 1) - arenaBaseOffset) = E ->
  (forall l, (l < leaf)%nat -> nodes_ok p0 l) ->
  forall l p, (l < leaf)%nat -> pages_wf p -> (forall l', (l' <= l)%nat -> hi_idx l' E <= sum_len p l') -> partial p0 p l B E ->
  exists p', update_levels (down_from l) base limit true p = (Ok tt, p') /\ only_sums p p' /\
    (forall l', (l' < leaf)%nat -> nodes_ok p' l') /\ (forall j, sum_at p' leaf j = sum_at p leaf j).
Proof.
  intros HB HBE Hbase Hlimit Hn0 l. induction l as [|l IH]; intros p Hl Hwf Hlen Hp.
  all: cbn [down_from]; rewrite (update_levels_cons _ _ base limit B E Hl Hbase Hlimit).
  all: match goal with |- context [update_levels _ _ _ _] => idtac end.
  - destruct (level_step p0 p 0 B E Hl HB HBE Hwf (Hlen _ ltac:(done)) (Hn0 _ Hl) Hp) as (ch & p1 & E1 & Ho & Hn & Hkeep & _).
    step_with E1. exists p1. split; [by destruct ch|]. split; [done|]. split; [intros l' Hl'; apply Hn; lia|intros j; apply Hkeep; by left].
  - destruct (level_step p0 p (S l) B E Hl HB HBE Hwf (Hlen _ ltac:(done)) (Hn0 _ Hl) Hp) as (ch & p1 & E1 & Ho & Hn & Hkeep & Hfalse).
    step_with E1. destruct ch.
    + destruct (IH p1) as (p2 & E2 & Ho2 & Hn2 & Hleaf2);
        [lia|by eapply only_sums_wf|intros; rewrite (only_sums_len _ _ _ Ho); apply Hlen; lia| |].
      * split; [intros; apply Hn; lia| |].
        { intros l' j Hl'. rewrite Hkeep by (left; lia). apply (pt_below _ _ _ _ _ Hp). lia. }
        { intros j Hj. rewrite Hkeep by (right; lia). apply (pt_below _ _ _ _ _ Hp). lia. }
      * exists p2. split; [done|]. split; [by eapply only_sums_trans|]. split; [done|]. intros j. rewrite Hleaf2. apply Hkeep. left. lia.
    + specialize (Hfalse eq_refl). exists p1. split; [by destruct l|]. split; [done|]. split; [|intros; apply Hfalse].
      intros l' Hl'. destruct (decide (S l <= l')%nat); [apply Hn; lia|]. intros i Hi.
      apply (node_ok_ext p0); [|rewrite Hfalse; apply (pt_below _ _ _ _ _ Hp); lia|by apply Hn0].
      intros j. rewrite Hfalse. apply (pt_below _ _ _ _ _ Hp). lia.
Qed.

(** ** [update] *)

(** The position of an address in the offset address space, and the chunks of
    [npages] pages from it. *)
Definition first_chunk (base : Z) : Z := pos base / 2 ^ 22.
Definition last_chunk (base npages : Z) : Z := (pos base + npages * pageSize - 1) / 2 ^ 22.

Lemma u64_add_l x y : u64 (u64 x + y) = u64 (x + y).
Proof. unfold u64. apply Zplus_mod_idemp_l. Qed.

Lemma pos_add x n : 0 <= n -> pos x + n < 2 ^ 64 -> pos (u64 (x + n)) = pos x + n.
Proof.
  intros Hn Hlt. unfold pos, u64 in *. rewrite Zminus_mod_idemp_l. replace (x + n - arenaBaseOffset) with (x - arenaBaseOffset + n) by lia.
  rewrite <- Zplus_mod_idemp_l. apply Z.mod_small. pose proof (Z.mod_pos_bound (x - arenaBaseOffset) (2 ^ 64)). lia.
Qed.

Lemma chunkIndex_pos x : chunkIndex x = pos x / 2 ^ 22.
Proof. done. Qed.

Lemma update_tree_ok p0 p base npages contig alloc :
  let sc := first_chunk base in let ec := last_chunk base npages in
  1 <= npages -> pos base + npages * pageSize <= 2 ^ 48 ->
  pages_wf p0 -> summaries_ok p0 -> pages_wf p -> (forall l i, sum_at p l i = sum_at p0 l i) ->
  (forall c, ~ (sc <= c <= ec) -> chunk_pages p c = chunk_pages p0 c) ->
  (forall c, sc <= c <= ec -> known c = true) -> uniform contig alloc p sc ec ->
  exists p', update base npages contig alloc p = (Ok tt, p') /\ only_sums p p' /\ summaries_ok p'.
Proof.
  cbv zeta. intros Hn Hmax Hwf0 Hs0 Hwf Hsame Hout Hknown Hu. apply (summaries_local p0 Hwf0) in Hs0 as [Hleaf0 Hn0].
  unfold pageSize, PageSize in *. pose proof (u64_range (base - arenaBaseOffset)) as Hpos. fold (pos base) in Hpos.
  set (E := pos base + npages * 8192).
  assert (pos (u64 (base + npages * 8192 - 1)) = E - 1) as Hlim.
  { replace (base + npages * 8192 - 1) with (base + (npages * 8192 - 1)) by lia. rewrite pos_add by lia. unfold E. lia. }
  unfold update. change pageSize with 8192. rewrite !chunkIndex_pos, Hlim. fold (first_chunk base). change ((E - 1) / 2 ^ 22) with (last_chunk base npages).
  assert (0 <= first_chunk base <= last_chunk base npages) as Hle.
  { unfold first_chunk, last_chunk, pageSize, PageSize. split; [apply Z.div_pos; lia|apply Z.div_le_mono; lia]. }
  destruct (update_leaves_ok _ _ contig alloc p Hwf Hle Hknown Hu) as (go & p1 & E1 & (Ho1 & Hset1 & Hkeep1) & Hgo). step_with E1.
  assert (pages_wf p1) as Hwf1 by (by eapply only_sums_wf).
  assert (leaf_ok p1) as Hleaf1.
  { intros ci Hci. rewrite (only_sums_pages _ _ _ Ho1). destruct (decide (first_chunk base <= ci <= last_chunk base npages)); [apply Hset1; lia|].
    rewrite Hkeep1 by (right; lia). by rewrite Hsame, Hout, Hleaf0. }
  destruct go.
  2: { exists p1. split; [done|]. split; [done|]. apply summaries_local; [done|]. split; [done|]. intros l Hl i Hi.
       apply (node_ok_ext p0); [intros j|by rewrite (Hgo eq_refl), Hsame|by apply Hn0]. by rewrite (Hgo eq_refl), Hsame. }
  destruct (update_levels_ok base (u64 (base + npages * 8192 - 1)) (pos base) E p0) with (l := 3%nat) (p := p1) as (p2 & E2 & Ho2 & Hn2 & Hl2).
  - lia.
  - unfold E. lia.
  - done.
  - rewrite u64_add_l. replace (base + npages * 8192 - 1 + 1) with (base + npages * 8192) by lia.
    fold (u64 (base + npages * 8192)). fold (pos (u64 (base + npages * 8192))). rewrite pos_add by lia. done.
  - exact Hn0.
  - unfold leaf. lia.
  - exact Hwf1.
  - intros l Hl. destruct (wf_known p1 Hwf1 (last_chunk base npages)) as (_ & _ & _ & Hlen); [apply Hknown; lia|].
    specialize (Hlen l ltac:(unfold leaf; lia)). unfold hi_idx. enough (E / 2 ^ levelShift l <= (last_chunk base npages + 1) / 8 ^ Z.of_nat (leaf - l)) by lia.
    rewrite levelShift_eq. replace (34 - 3 * Z.of_nat l) with (22 + 3 * Z.of_nat (leaf - l)) by (unfold leaf; lia).
    rewrite Z.pow_add_r, <- Z.div_div by (try apply Z.pow_nonzero; try apply Z.pow_pos_nonneg; lia). rewrite Z.pow_mul_r by lia. change (2 ^ 3) with 8.
    apply Z.div_le_mono; [apply Z.pow_pos_nonneg; lia|]. unfold last_chunk, pageSize, PageSize. change (pos base + npages * 8192) with E. zdiv_lia.
  - split; [unfold leaf; lia| |].
    + intros l' j Hl'. rewrite Hkeep1 by (left; unfold leaf; lia). apply Hsame.
    + intros j Hj. change 4%nat with leaf. rewrite Hkeep1; [apply Hsame|]. right. intros Hr. apply Hj. unfold lo_idx, hi_idx. rewrite levelShift_eq. cbn.
      unfold first_chunk, last_chunk, pageSize, PageSize in Hr. change (pos base + npages * 8192) with E in Hr. zdiv_lia.
  - change [3; 2; 1; 0]%nat with (down_from 3). exists p2. split; [done|]. assert (only_sums p p2) by (by eapply only_sums_trans). split; [done|].
    apply summaries_local; [by eapply only_sums_wf|]. split; [|done]. intros ci Hci. rewrite (only_sums_pages _ _ _ Ho2), Hl2. by apply Hleaf1.
Qed.

End Tree.

(** ** A tree with two chunks *)

Module Demo.

(** The chunks of 0xc000000000, all pages free. *)
Definition heap_base : Z := 0xc000000000.
Definition c0 : Z := chunkIndex heap_base.
Definition two_known (ci : Z) : bool := (c0 <=? ci) && (ci <=? c0 + 1).
Definition path (l : nat) : Z := c0 / 8 ^ Z.of_nat (leaf - l).
Definition two_free : Z := packPallocSum 1024 1024 0.
Definition tree : list (gmap Z Z) :=
  map (fun l => {[ path l := two_free ]}) [0; 1; 2; 3]%nat ++ [ {[ c0 := freeChunkSum; c0 + 1 := freeChunkSum ]} ].
Definition pages : pageAlloc :=
  mkPageAlloc tree (map sum_cap levels) [0; 0; 0; 0; 0] {[ c0 := empty_pallocData; c0 + 1 := empty_pallocData ]} {[ chunk_l1 c0 := 1 ]}
    maxSearchAddr c0 (c0 + 2) (mkRanges [mkRange heap_base (heap_base + 2 * pallocChunkBytes)] 16 (2 * pallocChunkBytes)) None 0 true.

Lemma zero_bits_ok : pageBits_ok (replicate 8 0).
Proof. split; [done|]. apply Forall_replicate. done. Qed.

Lemma pages_ok : pages_wf two_known pages.
Proof.
  split; [done| |].
  - intros l Hl. unfold leaf in Hl. do 5 (destruct l as [|l]; [by vm_compute|]). lia.
  - intros ci Hk. assert (ci = c0 \/ ci = c0 + 1) as Hci by (unfold two_known in Hk; lia). split; [|split; [|split]].
    + change c0 with 33751040 in Hci. lia.
    + destruct Hci as [-> | ->]; by eexists.
    + destruct Hci as [-> | ->]; exact zero_bits_ok.
    + intros l Hl. unfold leaf in Hl. destruct Hci as [-> | ->]; do 5 (destruct l as [|l]; [by vm_compute|]); lia.
Qed.

Lemma sum_at_pages l i : (l < leaf)%nat -> sum_at pages l i = if decide (i = path l) then two_free else 0.
Proof.
  intros Hl. assert (summary pages !! l = Some {[ path l := two_free ]}) as E by (unfold leaf in Hl; do 4 (destruct l as [|l]; [done|]); lia).
  unfold sum_at. rewrite E. cbn [default]. unfold id. case_decide as Hi; [subst; by rewrite lookup_singleton_eq|by rewrite lookup_singleton_ne].
Qed.

Lemma leaf_at_pages ci : sum_at pages leaf ci = if two_known ci then freeChunkSum else 0.
Proof.
  change (sum_at pages leaf ci) with (default 0 (({[ c0 := freeChunkSum; c0 + 1 := freeChunkSum ]} : gmap Z Z) !! ci)). unfold two_known.
  destruct (decide (ci = c0)) as [->|]; [by vm_compute|]. destruct (decide (ci = c0 + 1)) as [->|]; [by vm_compute|].
  rewrite lookup_insert_ne, lookup_singleton_ne by done. destruct (Z.leb_spec c0 ci), (Z.leb_spec ci (c0 + 1)); cbn; lia || done.
Qed.

Lemma no_children l i : (l < leaf)%nat -> i <> path l -> children pages l i = replicate 8 0.
Proof.
  intros Hl Hi. change (replicate 8 0) with (map (fun _ => 0) (seqZ 0 8)). unfold children. rewrite seqZ_shift, map_map.
  apply map_ext_in. intros k Hk. apply list_elem_of_In, elem_of_seqZ in Hk. unfold leaf in Hl.
  do 3 (destruct l as [|l]; [rewrite sum_at_pages by (unfold leaf; lia); apply decide_False; intros E; apply Hi; revert E; vm_compute path; clear - Hk; lia|]).
  destruct l as [|l]; [|lia]. change (S (S (S (S 0)))) with leaf. rewrite leaf_at_pages. unfold two_known.
  assert (i <> 4218880) as Hi' by (revert Hi; by vm_compute path). change c0 with 33751040. destruct (Z.leb_spec 33751040 (8 * i + k)), (Z.leb_spec (8 * i + k) (33751040 + 1)); cbn; lia || done.
Qed.

Lemma pages_summaries : summaries_ok two_known pages.
Proof.
  apply summaries_local; [apply pages_ok|]. split.
  - intros ci _. rewrite leaf_at_pages. unfold chunk_pages. destruct (two_known ci) eqn:E; [|by vm_compute].
    assert (ci = c0 \/ ci = c0 + 1) as [-> | ->] by (unfold two_known in E; lia); by vm_compute.
  - intros l Hl i Hi. unfold node_ok. destruct (decide (i = path l)) as [->|Hne].
    + unfold leaf in Hl. do 4 (destruct l as [|l]; [by vm_compute|]). lia.
    + rewrite no_children, sum_at_pages, decide_False by done. unfold leaf in Hl. do 4 (destruct l as [|l]; [by vm_compute|]). lia.
Qed.

End Demo.

(** C15: the tree is right again after [update].  If every entry of a tree was
    the summary of the pages below it, and then bitmaps changed inside the given
    range only, [update] returns without an error, writes nothing but summaries,
    and afterwards every entry of every level, unpacked, again is the number of
    free pages at the start, the longest run and the number of free pages at the
    end of the pages below it.  With [contig] the chunks between the first and
    the last must be wholly allocated (or free) as the flag says. *)
Theorem update_summaries (known : Z -> bool) (p0 p : pageAlloc) (base npages : Z) (contig alloc : bool) :
  let sc := first_chunk base in let ec := last_chunk base npages in
  1 <= npages -> pos base + npages * pageSize <= 2 ^ 48 ->
  pages_wf known p0 -> summaries_ok known p0 -> pages_wf known p -> (forall l i, sum_at p l i = sum_at p0 l i) ->
  (forall c, ~ (sc <= c <= ec) -> chunk_pages known p c = chunk_pages known p0 c) ->
  (forall c, sc <= c <= ec -> known c = true) -> uniform known contig alloc p sc ec ->
  exists p', update base npages contig alloc p = (Ok tt, p') /\ only_sums p p' /\ pages_wf known p' /\
    forall l i, (l <= leaf)%nat -> 0 <= i -> unpack (sum_at p' l i) = summary_of (entry_pages known p' l i).
Proof.
  cbv zeta. intros Hn Hmax Hwf0 Hs0 Hwf Hsame Hout Hknown Hu.
  destruct (update_tree_ok known p0 p base npages contig alloc) as (p' & E & Ho & Hs); [done..|].
  assert (pages_wf known p') as Hwf' by (by eapply only_sums_wf).
  exists p'. split_and!; [done|done|done|]. intros l i Hl Hi. rewrite Hs by done. apply unpack_pack, summary_ok.
  rewrite entry_pages_len by done. unfold leaf in Hl. do 5 (destruct l as [|l]; [by vm_compute|]). lia.
Qed.

Definition used_pages : pageAlloc := set_chunks (<[Demo.c0 := mkPallocData (2 ^ 64 - 1 :: replicate 7 0) (replicate 8 0)]> (chunks Demo.pages)) Demo.pages.

Lemma used_pages_ok : pages_wf Demo.two_known used_pages.
Proof.
  destruct Demo.pages_ok as [H1 H2 H3]. split; [done|done|]. intros ci Hk. destruct (H3 ci Hk) as (Hci & Hl1 & Hb & Hl).
  split_and!; [lia|lia|done| |done]. unfold chunk_at, used_pages. cbn [chunks set_chunks].
  destruct (decide (ci = Demo.c0)) as [->|]; [|rewrite lookup_insert_ne by done; exact Hb].
  rewrite lookup_insert_eq. split; [done|]. apply Forall_cons; [done|]. by apply Forall_replicate.
Qed.

Lemma update_summaries_witness :
  exists p', update Demo.heap_base 64 true true used_pages = (Ok tt, p') /\ only_sums used_pages p' /\ pages_wf Demo.two_known p' /\
    forall l i, (l <= leaf)%nat -> 0 <= i -> unpack (sum_at p' l i) = summary_of (entry_pages Demo.two_known p' l i).
Proof.
  apply (update_summaries Demo.two_known Demo.pages used_pages Demo.heap_base 64 true true).
  - lia.
  - by vm_compute.
  - exact Demo.pages_ok.
  - exact Demo.pages_summaries.
  - exact used_pages_ok.
  - done.
  - intros c Hc. unfold chunk_pages, chunk_at, used_pages. cbn [chunks set_chunks]. rewrite lookup_insert_ne; [done|].
    intros <-. apply Hc. by vm_compute.
  - change (first_chunk Demo.heap_base) with Demo.c0. change (last_chunk Demo.heap_base 64) with Demo.c0. intros c Hc. by replace c with Demo.c0 by lia.
  - change (first_chunk Demo.heap_base) with Demo.c0. change (last_chunk Demo.heap_base 64) with Demo.c0. intros _ c Hc. lia.
Defined.
