(* ===== verification/PageAllocProps.v ===== *)
(** * Allocating pages

    [allocRange] against the bitmaps and the tree, with its effect on every
    page. *)
From S2P Require Import Prelude Slice Bits64 PallocSum PageBits PageFind PageSummary PageRange AddrRanges OsMem OffHeap PageAlloc PageTree.

Local Open Scope Z_scope.
Local Open Scope go_scope.

(** Page numbers, their chunk and their place in it. *)
Lemma mod512 x : 0 <= x mod 512 < 512.
Proof. zdiv_lia. Qed.
Lemma chunk_mono x y : x <= y -> x / 512 <= y / 512.
Proof. intros. zdiv_lia. Qed.
Lemma same_chunk_mod x y : x / 512 = y / 512 -> y mod 512 = x mod 512 + (y - x).
Proof. intros. zdiv_lia. Qed.

Lemma chunkPageIndex_pos x : chunkPageIndex x = pos x mod 2 ^ 22 / 8192.
Proof.
  unfold chunkPageIndex, pos, u64. change pallocChunkBytes with (2 ^ 22). change pageSize with 8192. f_equal.
  rewrite (mod_pow2_mod_pow2 _ 64 22) by lia. rewrite Zminus_mod. change (arenaBaseOffset mod 2 ^ 22) with 0. by rewrite Z.sub_0_r, Z.mod_mod.
Qed.

Lemma pos_range x : 0 <= pos x < 2 ^ 64.
Proof. apply u64_range. Qed.

Lemma page_split x : x / 2 ^ 22 = x / 8192 / 512 /\ x mod 2 ^ 22 / 8192 = (x / 8192) mod 512.
Proof.
  change (2 ^ 22) with (8192 * 512). split; [by rewrite Z.div_div|].
  rewrite Z.rem_mul_r by lia. rewrite Z.add_comm, Z.mul_comm, Z.div_add_l by lia.
  rewrite (Z.div_small (x mod 8192)) by (apply Z.mod_pos_bound; lia). lia.
Qed.

Section Alloc.
Variable known : Z -> bool.
Implicit Types p : pageAlloc.

(** ** Changes of chunks *)

Definition only_chunks p p' : Prop := exists cs, p' = set_chunks cs p.

Lemma only_chunks_refl p : only_chunks p p.
Proof. exists (chunks p). by destruct p. Qed.
Lemma only_chunks_trans p1 p2 p3 : only_chunks p1 p2 -> only_chunks p2 p3 -> only_chunks p1 p3.
Proof. intros [cs ->] [cs' ->]. by exists cs'. Qed.
Lemma only_chunks_sums p p' l i : only_chunks p p' -> sum_at p' l i = sum_at p l i.
Proof. by intros [cs ->]. Qed.

Lemma only_chunks_wf p p' : only_chunks p p' -> pages_wf known p ->
  (forall ci, known ci = true -> pageBits_ok (pd_bits (chunk_at p' ci))) -> pages_wf known p'.
Proof.
  intros [cs ->] [H1 H2 H3] Hb. split; [done|done|]. intros ci Hk. destruct (H3 ci Hk) as (H & H' & _ & H''). repeat split; try done; try lia.
  by apply Hb. by apply Hb.
Qed.

Lemma chunk_at_put p ci d c : chunk_at (set_chunks (<[ci := d]> (chunks p)) p) c = if decide (c = ci) then d else chunk_at p c.
Proof.
  unfold chunk_at. cbn [chunks set_chunks]. case_decide as Hc; [subst; by rewrite lookup_insert_eq|by rewrite lookup_insert_ne].
Qed.

(** The bitmap of [c] becomes [b]; nothing else changes. *)
Definition chunk_set p p' (c : Z) (b : pageBits) : Prop :=
  only_chunks p p' /\ pd_bits (chunk_at p' c) = b /\ forall c', c' <> c -> chunk_at p' c' = chunk_at p c'.

Lemma chunk_set_wf p p' c b : chunk_set p p' c b -> pageBits_ok b -> pages_wf known p -> pages_wf known p'.
Proof.
  intros (Ho & Hb & Hk) Hok Hwf. apply (only_chunks_wf p); [done|done|]. intros ci Hci. destruct (decide (ci = c)) as [->|]; [by rewrite Hb|].
  rewrite Hk by done. by apply (wf_known known p Hwf).
Qed.

Lemma alloc_in_chunk_ok p ci i n : pages_wf known p -> known ci = true -> 0 <= i -> 1 <= n -> i + n <= 512 ->
  exists p' b', alloc_in_chunk ci i n p = (Ok tt, p') /\ chunk_set p p' ci b' /\ pages_wf known p' /\
    forall q, 0 <= q < 512 -> page_free b' q <-> free_after (pd_bits (chunk_at p ci)) i n q.
Proof.
  intros Hwf Hk Hi Hn Hmax. destruct (wf_known known p Hwf ci Hk) as (_ & _ & Hb & _).
  destruct (setRange_effect _ i n Hb Hi Hn Hmax) as (b' & E & Hok & Hfree).
  unfold alloc_in_chunk. rewrite (bind_ok _ _ _ _ _ (chunkOf_ok known p ci Hwf Hk)). unfold st_lift, st_bind, pallocData_allocRange, PageBits.allocRange. rewrite E.
  cbn [res_bind]. eexists _, b'. split; [reflexivity|].
  assert (chunk_set p (set_chunks (<[ci := mkPallocData b' (scavenged (chunk_at p ci))]> (chunks p)) p) ci b') as Hset.
  { split; [by eexists|]. split; [by rewrite chunk_at_put, decide_True|]. intros c' Hc. by rewrite chunk_at_put, decide_False. }
  split; [done|]. split; [by eapply chunk_set_wf|done].
Qed.

(** An allocation of no pages from the first page of a chunk: the last page of
    the range is page [2^64 - 1]. *)
Lemma setRange_none b : pageBits_ok b -> setRange b 0 0 = Panic out_of_range.
Proof. intros [Hlen _]. do 9 (destruct b as [|? b]; try done). Qed.

Lemma alloc_none_panics p ci : pages_wf known p -> known ci = true -> alloc_in_chunk ci 0 0 p = (Panic out_of_range, p).
Proof.
  intros Hwf Hk. unfold alloc_in_chunk. rewrite (bind_ok _ _ _ _ _ (chunkOf_ok known p ci Hwf Hk)).
  unfold st_lift, st_bind, pallocData_allocRange, PageBits.allocRange. by rewrite setRange_none by apply (wf_known known p Hwf ci Hk).
Qed.

Lemma allocAll_ok b : pageBits_ok b -> pageBits_ok (allocAll b) /\ page_list (allocAll b) = replicate 512 false /\ forall q, ~ page_free (allocAll b) q.
Proof.
  intros [Hlen _]. unfold allocAll, setAll. assert (map (fun _ => 2 ^ 64 - 1) b = replicate 8 (2 ^ 64 - 1)) as ->.
  { clear - Hlen. do 9 (destruct b as [|? b]; try done). }
  split; [by split; [done|repeat constructor]|]. split; [by vm_compute|]. intros q (w & Hq & Hw & Hbit). apply lookup_replicate in Hw as [-> Hlt].
  change (2 ^ 64 - 1) with (Z.ones 64) in Hbit. rewrite Z.testbit_ones in Hbit by lia.
  destruct (Z.leb_spec 0 (q mod 64)), (Z.ltb_spec (q mod 64) 64); try done; zdiv_lia.
Qed.

Lemma alloc_chunks_ok n : forall c p, pages_wf known p -> (forall ci, c <= ci < c + Z.of_nat n -> known ci = true) ->
  exists p', alloc_chunks n c p = (Ok tt, p') /\ only_chunks p p' /\ pages_wf known p' /\
    forall ci, chunk_at p' ci = if decide (c <= ci < c + Z.of_nat n) then pallocData_allocAll (chunk_at p ci) else chunk_at p ci.
Proof.
  induction n as [|n IH]; intros c p Hwf Hk; cbn [alloc_chunks].
  - exists p. split; [done|]. split; [apply only_chunks_refl|]. split; [done|]. intros ci. by rewrite decide_False by lia.
  - assert (known c = true) as Hc by (apply Hk; lia). rewrite (bind_ok _ _ _ _ _ (chunkOf_ok known p c Hwf Hc)). step.
    set (p1 := set_chunks _ p). assert (chunk_set p p1 c (allocAll (pd_bits (chunk_at p c)))) as Hset.
    { split; [by eexists|]. unfold p1. split; [by rewrite chunk_at_put, decide_True|]. intros c' Hne. by rewrite chunk_at_put, decide_False. }
    assert (pages_wf known p1) as Hwf1 by (eapply chunk_set_wf; [exact Hset|apply allocAll_ok, (wf_known known p Hwf c Hc)|done]).
    destruct (IH (c + 1) p1 Hwf1) as (p2 & E2 & Ho2 & Hwf2 & H2); [intros; apply Hk; lia|].
    exists p2. split; [done|]. split; [eapply only_chunks_trans; [apply Hset|done]|]. split; [done|]. intros ci. rewrite H2. unfold p1. rewrite chunk_at_put.
    repeat case_decide; subst; lia || done.
Qed.

(** ** [allocRange] *)

(** The page [g] of the offset address space is free. *)
Definition free_page p (g : Z) : Prop := page_free (pd_bits (chunk_at p (g / 512))) (g mod 512).
Definition page_no (base : Z) : Z := pos base / pageSize.

Lemma chunk_pages_same p p' c : chunk_at p' c = chunk_at p c -> chunk_pages known p' c = chunk_pages known p c.
Proof. unfold chunk_pages. by intros ->. Qed.

(** [allocRange] in terms of page numbers. *)
Definition alloc_pages (base npages : Z) : M unit :=
  let g := page_no base in
  let last := g + npages - 1 in
  if g / 512 =? last / 512 then alloc_in_chunk (g / 512) (g mod 512) npages
  else
    alloc_in_chunk (g / 512) (g mod 512) (512 - g mod 512) ;;;
    alloc_chunks (Z.to_nat (last / 512 - (g / 512 + 1))) (g / 512 + 1) ;;;
    alloc_in_chunk (last / 512) 0 (last mod 512).

Lemma one_chunk_taken b i n q : pageBits_ok b -> 0 <= i -> 1 <= n -> i + n <= 512 -> i <= q < i + n -> ~ free_after b i n q.
Proof.
  intros _ Hi Hn Hmax Hq. unfold free_after. case_decide as H1; [intros [_ ?]; lia|]. case_decide as H2; [lia|]. case_decide as H3; [lia|].
  intros [_ ?]. lia.
Qed.

(** The last page of a range that crosses into its chunk is left alone or freed. *)
Lemma last_page_kept b q : 1 <= q < 512 -> page_free b q -> free_after b 0 q q.
Proof.
  intros Hq Hf. unfold free_after. case_decide as H1; [split; [done|lia]|]. case_decide as H2; [lia|]. case_decide as H3.
  - exfalso. apply H2. zdiv_lia.
  - split; [done|lia].
Qed.

Section Range.
Context (base npages : Z) (Hn : 1 <= npages) (Hal : base mod pageSize = 0) (Hmax : pos base + npages * pageSize <= 2 ^ 48).

Lemma pos_page : pos base = 8192 * page_no base /\ 0 <= page_no base.
Proof.
  unfold page_no, pageSize, PageSize in *. pose proof (pos_range base). assert (pos base mod 2 ^ 13 = 0) as Hm.
  { unfold pos, u64. rewrite (mod_pow2_mod_pow2 _ 64 13) by lia. rewrite Zminus_mod. change (2 ^ 13) with 8192. rewrite Hal. done. }
  change (2 ^ 13) with 8192 in Hm. zdiv_lia.
Qed.

Lemma range_chunks : first_chunk base = page_no base / 512 /\ last_chunk base npages = (page_no base + npages - 1) / 512.
Proof.
  destruct pos_page as [E H0]. unfold first_chunk, last_chunk. rewrite E. change pageSize with 8192.
  rewrite !(proj1 (page_split _)). split; [f_equal|f_equal]; zdiv_lia.
Qed.

Lemma allocRange_pages p : allocRange base npages p = (alloc_pages base npages ;;; update base npages true true ;;; st_ret 0) p.
Proof.
  destruct pos_page as [E H0]. unfold allocRange, alloc_pages. rewrite !chunkIndex_pos, !chunkPageIndex_pos.
  assert (pos (u64 (base + npages * pageSize - 1)) = 8192 * (page_no base + npages) - 1) as El.
  { replace (base + npages * pageSize - 1) with (base + (npages * pageSize - 1)) by lia. unfold pageSize, PageSize in *. rewrite pos_add by lia. lia. }
  rewrite El, E. set (g := page_no base) in *.
  destruct (page_split (8192 * g)) as [-> ->]. destruct (page_split (8192 * (g + npages) - 1)) as [-> ->].
  replace (8192 * g / 8192) with g by zdiv_lia. replace ((8192 * (g + npages) - 1) / 8192) with (g + npages - 1) by zdiv_lia.
  destruct (Z.eqb_spec (g / 512) ((g + npages - 1) / 512)) as [Ec|]; [|done].
  rewrite u64_small by zdiv_lia. by replace ((g + npages - 1) mod 512 + 1 - g mod 512) with npages by zdiv_lia.
Qed.

Local Abbreviation g0 := (page_no base).
Local Abbreviation last := (page_no base + npages - 1).

Lemma alloc_pages_ok p : pages_wf known p -> (forall c, g0 / 512 <= c <= last / 512 -> known c = true) ->
  g0 / 512 = last / 512 \/ last mod 512 <> 0 ->
  exists p', alloc_pages base npages p = (Ok tt, p') /\ only_chunks p p' /\ pages_wf known p' /\
    (forall c, ~ (g0 / 512 <= c <= last / 512) -> chunk_at p' c = chunk_at p c) /\
    (forall c, g0 / 512 < c < last / 512 -> chunk_pages known p' c = replicate 512 false) /\
    (forall g, g0 <= g < last \/ g0 / 512 = last / 512 /\ g = last -> ~ free_page p' g) /\
    (g0 / 512 <> last / 512 -> free_page p last -> free_page p' last).
Proof.
  intros Hwf Hk Hcross. destruct pos_page as [Epos H0]. unfold alloc_pages. cbv zeta.
  assert (g0 / 512 <= last / 512) as Hle by (apply Z.div_le_mono; lia).
  destruct (Z.eqb_spec (g0 / 512) (last / 512)) as [Ec|Ec].
  - pose proof (mod512 g0) as Hg0. pose proof (mod512 last) as Hl0. pose proof (same_chunk_mod _ _ Ec) as Hm.
    destruct (alloc_in_chunk_ok p (g0 / 512) (g0 mod 512) npages) as (p1 & b1 & E1 & (Ho & Hb & Hother) & Hwf1 & Hfree);
      [done|apply Hk; lia|lia|done|lia|].
    exists p1. split; [done|]. split; [done|]. split; [done|]. split; [intros c Hc; apply Hother; lia|]. split; [lia|]. split; [|lia].
    intros g Hg. unfold free_page. assert (g / 512 = g0 / 512) as E.
    { pose proof (chunk_mono g0 g ltac:(lia)). pose proof (chunk_mono g last ltac:(lia)). lia. }
    pose proof (same_chunk_mod _ _ (eq_sym E)). rewrite E, Hb, Hfree by apply mod512.
    apply one_chunk_taken; [apply (wf_known known p Hwf); apply Hk|..]; lia.
  - destruct Hcross as [|Hlast]; [done|]. pose proof (mod512 g0) as Hg0. pose proof (mod512 last) as Hl0.
    destruct (alloc_in_chunk_ok p (g0 / 512) (g0 mod 512) (512 - g0 mod 512)) as (p1 & b1 & E1 & (Ho1 & Hb1 & Hother1) & Hwf1 & Hfree1);
      [done|apply Hk; lia|lia|lia|lia|]. step_with E1.
    destruct (alloc_chunks_ok (Z.to_nat (last / 512 - (g0 / 512 + 1))) (g0 / 512 + 1) p1) as (p2 & E2 & Ho2 & Hwf2 & H2);
      [done|intros; apply Hk; lia|]. step_with E2.
    destruct (alloc_in_chunk_ok p2 (last / 512) 0 (last mod 512)) as (p3 & b3 & E3 & (Ho3 & Hb3 & Hother3) & Hwf3 & Hfree3);
      [done|apply Hk; lia|lia|lia|lia|].
    assert (chunk_at p2 (last / 512) = chunk_at p (last / 512)) as Hc2 by (rewrite H2, decide_False by lia; apply Hother1; lia).
    assert (forall c, g0 / 512 < c < last / 512 -> chunk_at p3 c = pallocData_allocAll (chunk_at p c)) as Hmid.
    { intros c Hc. rewrite Hother3, H2, decide_True by lia. by rewrite Hother1 by lia. }
    exists p3. split; [done|]. split; [eauto using only_chunks_trans|]. split; [done|].
    split; [intros c Hc; rewrite Hother3, H2, decide_False by lia; apply Hother1; lia|].
    split; [intros c Hc; unfold chunk_pages; rewrite Hk, Hmid by lia; apply allocAll_ok, (wf_known known p Hwf), Hk; lia|].
    assert (chunk_at p3 (g0 / 512) = chunk_at p1 (g0 / 512)) as Hc3 by (rewrite Hother3, H2, decide_False by lia; done).
    split.
    + intros g [Hg|[? _]]; [|done]. unfold free_page. pose proof (chunk_mono g0 g ltac:(lia)). pose proof (chunk_mono g last ltac:(lia)).
      pose proof (mod512 g). destruct (decide (g / 512 = g0 / 512)) as [E|]; [|destruct (decide (g / 512 = last / 512)) as [E|]].
      * pose proof (same_chunk_mod _ _ (eq_sym E)). rewrite E, Hc3, Hb1, Hfree1 by done.
        apply one_chunk_taken; [apply (wf_known known p Hwf); apply Hk|..]; lia.
      * pose proof (same_chunk_mod _ _ E). rewrite E, Hb3, Hfree3 by done.
        apply one_chunk_taken; [apply (wf_known known p2 Hwf2); apply Hk|..]; lia.
      * rewrite Hmid by lia. apply allocAll_ok, (wf_known known p Hwf), Hk. lia.
    + intros _. unfold free_page. rewrite Hb3, Hfree3, Hc2 by done. apply last_page_kept. lia.
Qed.

End Range.

(** C16: on a consistent tree [allocRange] keeps the tree consistent, allocates
    the pages it is asked for and touches no other chunk; but when the range
    crosses into another chunk its last page stays free, and when that page is
    the first of the chunk the call panics. *)
Theorem allocRange_effect p base npages :
  let g := page_no base in let last := g + npages - 1 in
  1 <= npages -> base mod pageSize = 0 -> pos base + npages * pageSize <= 2 ^ 48 ->
  pages_wf known p -> summaries_ok known p -> (forall c, g / 512 <= c <= last / 512 -> known c = true) ->
  if decide (g / 512 <> last / 512 /\ last mod 512 = 0) then fst (allocRange base npages p) = Panic "index out of range"
  else exists p', allocRange base npages p = (Ok 0, p') /\ pages_wf known p' /\ summaries_ok known p' /\
    (forall x, g <= x < last \/ g / 512 = last / 512 /\ x = last -> ~ free_page p' x) /\
    (g / 512 <> last / 512 -> free_page p last -> free_page p' last) /\
    (forall x, ~ (g / 512 <= x / 512 <= last / 512) -> free_page p' x <-> free_page p x).
Proof.
  cbv zeta. intros Hn Hal Hmax Hwf Hs Hk. rewrite allocRange_pages by done. destruct (pos_page base Hal) as [Epos H0].
  destruct (range_chunks base npages Hn Hal Hmax) as [Esc Eec]. set (g := page_no base) in *. set (last := g + npages - 1) in *.
  case_decide as Hc.
  - destruct Hc as [Hc Hl]. assert (g / 512 <= last / 512) as Hle by (apply Z.div_le_mono; unfold last; lia).
    unfold alloc_pages. fold g. fold last. rewrite (proj2 (Z.eqb_neq _ _) Hc), Hl.
    destruct (alloc_in_chunk_ok p (g / 512) (g mod 512) (512 - g mod 512)) as (p1 & b1 & E1 & _ & Hwf1 & _); [done|apply Hk; lia|zdiv_lia|zdiv_lia|zdiv_lia|].
    destruct (alloc_chunks_ok (Z.to_nat (last / 512 - (g / 512 + 1))) (g / 512 + 1) p1) as (p2 & E2 & _ & Hwf2 & _); [done|intros; apply Hk; lia|].
    rewrite <- bind_bind. step_with E1. rewrite <- bind_bind. step_with E2. rewrite (bind_panic _ _ _ _ _ (alloc_none_panics p2 (last / 512) Hwf2 ltac:(apply Hk; lia))). done.
  - destruct (alloc_pages_ok base npages Hn Hal p Hwf Hk) as (p1 & E1 & Ho1 & Hwf1 & Hother & Hmid & Htaken & Hlast).
    { destruct (decide (g / 512 = last / 512)); [by left|]. right. intros E. by apply Hc. }
    step_with E1.
    destruct (update_tree_ok known p p1 base npages true true) as (p2 & E2 & Ho2 & Hs2); try done.
    { intros l i. by apply only_chunks_sums. }
    { rewrite Esc, Eec. intros c Hout. apply chunk_pages_same. by apply Hother. }
    { rewrite Esc, Eec. exact Hk. }
    { rewrite Esc, Eec. intros _ c Hcc. by apply Hmid. }
    step_with E2. exists p2. split; [done|]. split; [by eapply only_sums_wf|]. split; [done|].
    assert (forall c, chunk_at p2 c = chunk_at p1 c) as Hsame by (destruct Ho2 as (s & _ & ->); done).
    unfold free_page in *. setoid_rewrite Hsame. split; [done|]. split; [done|]. intros x Hx. by rewrite Hother.
Qed.

End Alloc.

Lemma allocRange_effect_witness :
  exists p', allocRange Demo.heap_base 600 Demo.pages = (Ok 0, p') /\ pages_wf Demo.two_known p' /\ summaries_ok Demo.two_known p' /\
    ~ free_page p' (page_no Demo.heap_base) /\ free_page p' (page_no Demo.heap_base + 599).
Proof.
  pose proof (allocRange_effect Demo.two_known Demo.pages Demo.heap_base 600 ltac:(lia) ltac:(by vm_compute) ltac:(by vm_compute)
    Demo.pages_ok Demo.pages_summaries) as H.
  specialize (H ltac:(change (page_no Demo.heap_base / 512) with Demo.c0; change ((page_no Demo.heap_base + 600 - 1) / 512) with (Demo.c0 + 1);
    intros c Hc; assert (c = Demo.c0 \/ c = Demo.c0 + 1) as [-> | ->] by lia; done)).
  rewrite decide_False in H by (intros [_ Hc]; by vm_compute in Hc).
  destruct H as (p' & E & Hwf & Hs & Htaken & Hlast & _).
  exists p'. split_and!; [done..| |].
  - apply Htaken. lia.
  - replace (page_no Demo.heap_base + 599) with (page_no Demo.heap_base + 600 - 1) by lia. apply Hlast; [by vm_compute|].
    exists 0. split; [by vm_compute|]. split; [by vm_compute|done].
Defined.
