(* ===== verification/PageSearch.v ===== *)
(** * Searching the tree

    [find] against the pages: an address it returns starts a run of free pages
    of the length asked for.  Because the loop over a block tests the index of
    the block, not that of the entry, it neither stops at the end of the root
    level nor starts in any block but the first of the other levels. *)
From S2P Require Import Prelude Slice Bits64 PallocSum PageBits PageFind PageSummary PageRange AddrRanges OsMem OffHeap PageAlloc PageTree PageAllocProps.

Local Open Scope Z_scope.
Local Open Scope go_scope.

(** ** Pages in concatenations *)

Lemma lookup_concat {A} (n : nat) (ls : list (list A)) k r :
  Forall (fun l => length l = n) ls -> (r < n)%nat -> concat ls !! (k * n + r)%nat = ls !! k ≫= (fun l => l !! r).
Proof.
  intros Hls Hr. revert k. induction Hls as [|l ls Hl _ IH]; intros k; [done|]. cbn [concat]. destruct k as [|k].
  - rewrite lookup_app_l by lia. done.
  - rewrite lookup_app_r by lia. rewrite Hl. replace (S k * n + r - n)%nat with (k * n + r)%nat by lia. apply IH.
Qed.

(** The same with positions in [Z]. *)
Lemma lookup_concat_Z {A} n (ls : list (list A)) q :
  0 < n -> 0 <= q -> Forall (fun l => len l = n) ls ->
  concat ls !! Z.to_nat q = ls !! Z.to_nat (q / n) ≫= (fun l => l !! Z.to_nat (q mod n)).
Proof.
  intros Hn Hq Hls. pose proof (Z.mod_pos_bound q n Hn). pose proof (Z.div_pos q n Hq Hn).
  replace (Z.to_nat q) with (Z.to_nat (q / n) * Z.to_nat n + Z.to_nat (q mod n))%nat.
  - apply lookup_concat; [|lia]. eapply Forall_impl; [|exact Hls]. intros l Hl. unfold len in Hl. lia.
  - rewrite <- Z2Nat.inj_mul, <- Z2Nat.inj_add by nia. f_equal. rewrite (Z.div_mod q n) at 3 by lia. lia.
Qed.

Lemma page_list_lookup b q : pageBits_ok b -> 0 <= q < 512 -> page_list b !! Z.to_nat q = Some true <-> page_free b q.
Proof.
  intros [Hlen Hb] Hq. unfold page_list. rewrite (lookup_concat_Z 64) by first [lia|apply List.Forall_map, Forall_true; intros; by apply pages_of_len].
  rewrite list_lookup_fmap. destruct (lookup_lt_is_Some_2 b (Z.to_nat (q / 64))) as [w Hw]; [zdiv_lia|]. rewrite Hw. cbn.
  unfold word_pages. rewrite pages_of_lookup by zdiv_lia. rewrite Z.add_0_l. unfold page_free. split.
  - intros [= E]. exists w. split; [lia|]. split; [done|]. by apply negb_true_iff.
  - intros (w' & _ & Hw' & Hbit). rewrite Hw in Hw'. injection Hw' as <-. by rewrite Hbit.
Qed.

Lemma trail_window l n : 0 <= n -> n <= trail l -> window l (len l - n) n.
Proof.
  intros Hn Hle q Hq. pose proof (trail_range l) as Hr. assert (n <= len l) by lia. unfold trail in Hle. apply lead_window in Hle; [|done].
  specialize (Hle (len l - 1 - q) ltac:(lia)). rewrite rev_alt in Hle. change (rev_append l []) with (reverse l) in Hle.
  rewrite reverse_lookup in Hle by (unfold len in *; lia). rewrite <- Hle. f_equal. unfold len in *. lia.
Qed.

Section Search.
Variable known : Z -> bool.
Implicit Types p : pageAlloc.

(** Page [g] belongs to the allocator and is free. *)
Definition free_at p (g : Z) : Prop := known (g / 512) = true /\ free_page p g.

Lemma chunk_pages_lookup p g : pages_wf known p ->
  chunk_pages known p (g / 512) !! Z.to_nat (g mod 512) = Some true <-> free_at p g.
Proof.
  intros Hwf. unfold chunk_pages, free_at, free_page. destruct (known (g / 512)) eqn:E.
  - destruct (wf_known known p Hwf _ E) as (_ & _ & Hb & _). rewrite (page_list_lookup _ _ Hb (mod512 g)). naive_solver.
  - split; [|by intros [? _]]. intros H. by apply lookup_replicate in H as [? _].
Qed.

Lemma log_pages l : (l <= leaf)%nat -> 2 ^ levelLogPages l = 512 * 8 ^ Z.of_nat (leaf - l).
Proof. unfold leaf. intros Hl. do 5 (destruct l as [|l]; [by vm_compute|]). lia. Qed.

Lemma log_pages_max l : (l <= leaf)%nat -> 2 ^ levelLogPages l <= 2 ^ 21.
Proof. unfold leaf. intros Hl. do 5 (destruct l as [|l]; [by vm_compute|]). lia. Qed.

(** The page [o] below the entry [e] of level [l]. *)
Lemma entry_lookup p l e o : pages_wf known p -> (l <= leaf)%nat -> 0 <= o < 2 ^ levelLogPages l ->
  entry_pages known p l e !! Z.to_nat o = Some true <-> free_at p (e * 2 ^ levelLogPages l + o).
Proof.
  intros Hwf Hl Ho. pose proof (log_pages l Hl) as Hlog. set (m := 8 ^ Z.of_nat (leaf - l)) in *. rewrite <- (chunk_pages_lookup p _ Hwf).
  unfold entry_pages. fold m. rewrite (lookup_concat_Z 512) by first [lia|apply List.Forall_map, Forall_true; intros; by apply chunk_pages_len].
  assert (0 <= o / 512 < m) as Hc by (rewrite Hlog in Ho; clear - Ho; zdiv_lia).
  rewrite list_lookup_fmap, lookup_seqZ_lt by lia. cbn [option_fmap option_map mbind option_bind fmap].
  replace ((e * 2 ^ levelLogPages l + o) / 512) with (e * m + o / 512) by (rewrite Hlog; clear; zdiv_lia).
  replace ((e * 2 ^ levelLogPages l + o) mod 512) with (o mod 512); [rewrite Z2Nat.id by lia; done|].
  rewrite Hlog. replace (e * (512 * m) + o) with (o + (e * m) * 512) by lia. by rewrite Z.mod_add.
Qed.

(** ** A run of free pages *)

Definition free_run p (g n : Z) : Prop := forall x, g <= x < g + n -> free_at p x.

Lemma free_run_app p g n m : free_run p g n -> free_run p (g + n) m -> free_run p g (n + m).
Proof. intros H1 H2 x Hx. destruct (Z.lt_ge_cases x (g + n)); [apply H1|apply H2]; lia. Qed.
Lemma free_run_le p g n n' : n' <= n -> free_run p g n -> free_run p g n'.
Proof. intros Hle H x Hx. apply H. lia. Qed.

Section Entry.
Context (p : pageAlloc) (Hwf : pages_wf known p) (Hs : summaries_ok known p).
Context (l : nat) (Hl : (l <= leaf)%nat) (e : Z) (He : 0 <= e).
Local Abbreviation L := (2 ^ levelLogPages l).
Local Abbreviation pages := (entry_pages known p l e).

Lemma entry_len : len pages = L.
Proof. by apply entry_pages_len. Qed.

Lemma entry_window i n : 0 <= i -> i + n <= L -> PageSummary.window pages i n <-> free_run p (e * L + i) n.
Proof.
  intros Hi Hn. split.
  - intros H x Hx. replace x with (e * L + (x - e * L)) by lia. apply entry_lookup; [done|done|lia|]. apply H. lia.
  - intros H q Hq. apply (entry_lookup p l e q Hwf Hl ltac:(lia)). apply H. lia.
Qed.

Lemma entry_unpack : unpack (sum_at p l e) = summary_of pages.
Proof.
  rewrite Hs by done. apply unpack_pack, summary_ok. rewrite entry_len. by apply log_pages_max.
Qed.

Lemma entry_start : sum_start (sum_at p l e) = lead pages /\ sum_max (sum_at p l e) = longest pages /\ sum_end (sum_at p l e) = trail pages.
Proof. pose proof entry_unpack as E. rewrite sum_accessors in E. unfold summary_of in E. by injection E. Qed.

Lemma start_free : 0 <= sum_start (sum_at p l e) <= L /\ free_run p (e * L) (sum_start (sum_at p l e)).
Proof.
  destruct entry_start as (-> & _ & _). pose proof (lead_range pages) as Hr. rewrite entry_len in Hr. split; [done|].
  replace (e * L) with (e * L + 0) by lia. apply entry_window; [lia|lia|]. apply lead_window; lia.
Qed.

Lemma end_free : 0 <= sum_end (sum_at p l e) <= L /\ free_run p ((e + 1) * L - sum_end (sum_at p l e)) (sum_end (sum_at p l e)).
Proof.
  destruct entry_start as (_ & _ & ->). pose proof (trail_range pages) as Hr. rewrite entry_len in Hr. split; [done|].
  replace ((e + 1) * L - trail pages) with (e * L + (L - trail pages)) by lia. apply entry_window; [lia|lia|].
  rewrite <- entry_len. apply trail_window; lia.
Qed.

Lemma max_free n : 0 < n -> n <= sum_max (sum_at p l e) -> exists g, e * L <= g /\ g + n <= (e + 1) * L /\ free_run p g n.
Proof.
  intros Hn Hle. destruct entry_start as (_ & E & _). rewrite E in Hle. apply longest_window in Hle as (i & Hi & Hw); [|done].
  assert (i + n <= L) as Hin.
  { specialize (Hw (i + n - 1) ltac:(lia)). apply lookup_lt_Some in Hw. rewrite <- entry_len. unfold len. lia. }
  exists (e * L + i). split; [lia|]. split; [lia|]. by apply entry_window.
Qed.

End Entry.

(** ** The loop over a block *)

Section Block.
Context (p : pageAlloc) (Hwf : pages_wf known p) (Hs : summaries_ok known p).
Context (l : nat) (Hl : (l <= leaf)%nat) (i : Z) (Hi : 0 <= i) (n : Z) (Hn : 0 <= n <= 2 ^ 14) (npages : Z) (Hnp : 1 <= npages).
Local Abbreviation L := (2 ^ levelLogPages l).
Local Abbreviation entries := (map (sum_at p l) (seqZ i n)).

Lemma len_entries : len entries = n.
Proof. rewrite len_map, len_seqZ; lia. Qed.

Lemma entries_get j x : slice_get entries j = Ok x -> 0 <= j < n /\ x = sum_at p l (i + j).
Proof.
  intros H. apply slice_get_Some in H as [Hj Hx]. rewrite len_entries in Hj. split; [done|].
  rewrite list_lookup_fmap, lookup_seqZ_lt in Hx by lia. cbn in Hx. rewrite Z2Nat.id in Hx by lia. by injection Hx as <-.
Qed.

(** Before entry [j]: the last [size] pages are free, and start at page [base] of the block. *)
Definition run_before (j base size : Z) : Prop :=
  0 <= size /\ (0 < size -> 0 <= base /\ base + size = j * L /\ free_run p (i * L + base) size).

Definition block_found (r : block_end) : Prop :=
  match r with
  | Run b s => 0 <= b /\ b + s <= n * L /\ npages <= s /\ free_run p (i * L + b) s
  | Below j => 0 <= j < n /\ npages <= sum_max (sum_at p l (i + j))
  end.

Lemma L_range : 512 <= L <= 2 ^ 21.
Proof.
  split; [|by apply log_pages_max]. rewrite log_pages by done. pose proof (Z.pow_pos_nonneg 8 (Z.of_nat (leaf - l))). lia.
Qed.

Lemma log_range : 0 <= levelLogPages l < 64.
Proof. unfold levelLogPages, logPallocChunkPages, summaryLevelBits, leaf in *. lia. Qed.

Lemma shl_L j : 0 <= j <= 2 ^ 14 -> shl64 j (levelLogPages l) = j * L.
Proof.
  intros Hj. pose proof L_range. pose proof log_range. unfold shl64. rewrite Z.shiftl_mul_pow2 by lia. apply u64_small. nia.
Qed.

Lemma found_at_start j base size s : 0 <= j < n -> run_before j base size -> 0 <= s <= L -> free_run p ((i + j) * L) s ->
  npages <= u64 (size + s) ->
  block_found (Run (if size =? 0 then shl64 j (levelLogPages l) else base) (u64 (size + s))).
Proof.
  intros Hj [Hsz Hrun] Hr Hfree Hle. pose proof L_range as HL. cbn [block_found]. destruct (Z.eqb_spec size 0) as [->|Hne].
  - rewrite shl_L by lia. rewrite Z.add_0_l in *. rewrite u64_small in * by nia. split_and!; [nia|nia|done|].
    replace (i * L + j * L) with ((i + j) * L) by lia. done.
  - destruct Hrun as (Hb & Hend & Hrun); [lia|]. rewrite u64_small in * by nia. split_and!; [done|nia|done|].
    apply free_run_app; [done|]. replace (i * L + base + size) with ((i + j) * L) by lia. done.
Qed.

Lemma block_loop_sound fuel : forall j base size w r w', i < n -> 0 <= j -> run_before j base size ->
  block_loop fuel l npages i entries j base size w = Ok (r, w') -> block_found r.
Proof.
  pose proof L_range as HL. induction fuel as [|fuel IH]; intros j base size w r w' Hin Hj Hrun; cbn [block_loop];
    rewrite len_entries, (proj2 (Z.ltb_lt _ _) Hin); [done|].
  destruct (slice_get entries j) as [x| | |] eqn:Hx; try done. apply entries_get in Hx as [Hjn ->]. cbn [res_bind].
  destruct (Z.eqb_spec (sum_at p l (i + j)) 0) as [_|_].
  { apply IH; [done|lia|]. split; [lia|]. lia. }
  destruct (foundFree _ _ w) as [w1| | |]; try done. cbn [res_bind].
  destruct (start_free p Hwf Hs l Hl (i + j) ltac:(lia)) as [Hs0 Hsf]. destruct (end_free p Hwf Hs l Hl (i + j) ltac:(lia)) as [He0 Hef].
  destruct (Z.leb_spec npages (u64 (size + sum_start (sum_at p l (i + j))))) as [Hle|Hgt].
  { intros [= <- <-]. by apply found_at_start. }
  destruct (Z.leb_spec npages (sum_max (sum_at p l (i + j)))) as [Hle|_]; [by intros [= <- <-]|].
  rewrite !shl_L by lia. rewrite Z.mul_1_l. destruct ((size =? 0) || (sum_start (sum_at p l (i + j)) <? L)) eqn:E.
  - rewrite u64_small by nia. apply IH; [done|lia|]. split; [lia|]. intros _. split_and!; [nia|lia|].
    replace (i * L + ((j + 1) * L - sum_end (sum_at p l (i + j)))) with ((i + j + 1) * L - sum_end (sum_at p l (i + j))) by lia. done.
  - apply orb_false_iff in E as [E1 E2]. bool_to_Prop. destruct Hrun as [Hsz Hrun]. destruct Hrun as (Hb & Hend & Hrun); [lia|].
    assert (sum_start (sum_at p l (i + j)) = L) as E by lia. rewrite E in Hsf. rewrite u64_small by nia.
    apply IH; [done|lia|]. split; [lia|]. intros _. split_and!; [done|lia|]. apply free_run_app; [done|].
    replace (i * L + base + size) with ((i + j) * L) by lia. done.
Qed.

Lemma block_not_entered fuel j base size w : n <= i -> block_loop fuel l npages i entries j base size w = Ok (Run base size, w).
Proof. intros Hin. destruct fuel; cbn [block_loop]; by rewrite len_entries, (proj2 (Z.ltb_ge _ _) Hin). Qed.

End Block.

(** ** The walk down *)

Lemma first_entry_nonneg l i a : 0 <= first_entry l i a.
Proof.
  unfold first_entry. case_match; [|done]. apply Z.land_nonneg. left. unfold offAddrToLevelIndex. apply Z.shiftr_nonneg. apply u64_range.
Qed.

Lemma pos_sum a c : pos (u64 (u64 (u64 a + arenaBaseOffset) + u64 c)) = u64 (a + c).
Proof.
  unfold pos, u64. rewrite Zminus_mod_idemp_l. set (m := 2 ^ 64).
  replace ((a mod m + arenaBaseOffset) mod m + c mod m - arenaBaseOffset) with ((a mod m + arenaBaseOffset) mod m + (c mod m - arenaBaseOffset)) by lia.
  rewrite Zplus_mod_idemp_l. replace (a mod m + arenaBaseOffset + (c mod m - arenaBaseOffset)) with (a mod m + c mod m) by lia.
  by rewrite <- Zplus_mod.
Qed.

Lemma free_page_no p g n : pages_wf known p -> 1 <= n -> free_run p g n -> 0 <= g < 2 ^ 35.
Proof.
  intros Hwf Hn H. destruct (H g ltac:(lia)) as [Hk _]. destruct (wf_known known p Hwf _ Hk) as [Hc _]. clear - Hc. zdiv_lia.
Qed.

Lemma found_address p l i b n : pages_wf known p -> (l <= leaf)%nat -> 1 <= n -> 0 <= i -> 0 <= b -> free_run p (i * 2 ^ levelLogPages l + b) n ->
  pos (off_add (levelIndexToOffAddr l i) (u64 (b * pageSize))) = 8192 * (i * 2 ^ levelLogPages l + b).
Proof.
  intros Hwf Hl Hn Hi Hb Hrun. pose proof (free_page_no _ _ _ Hwf Hn Hrun) as Hg. unfold off_add, levelIndexToOffAddr. rewrite pos_sum.
  assert (levelShift l = 13 + levelLogPages l) as -> by (rewrite levelShift_eq; unfold levelLogPages, logPallocChunkPages, summaryLevelBits, leaf in *; lia).
  rewrite Z.shiftl_mul_pow2, Z.pow_add_r by (unfold levelLogPages, logPallocChunkPages, summaryLevelBits, leaf in *; lia).
  change (2 ^ 13) with 8192. change pageSize with 8192. rewrite u64_small by lia. lia.
Qed.

Lemma found_in_chunk p ci j n : pages_wf known p -> 1 <= n -> free_run p (ci * 512 + j) n ->
  pos (u64 (chunkBase ci + u64 (j * pageSize))) = 8192 * (ci * 512 + j).
Proof.
  intros Hwf Hn Hrun. pose proof (free_page_no _ _ _ Hwf Hn Hrun) as Hg. unfold chunkBase. rewrite pos_sum.
  change pallocChunkBytes with (512 * 8192). change pageSize with 8192. rewrite u64_small; lia.
Qed.

(** What the walk ends with. *)
Definition walk_ok p (npages : Z) (r : level_end) : Prop :=
  match r with
  | At a => exists g, pos a = 8192 * g /\ free_run p g npages
  | NoRoom => False
  | InChunk ci => known ci = true
  end.

Lemma find_levels_sound npages p : pages_wf known p -> summaries_ok known p -> 1 <= npages ->
  forall d l i w r w' p', (l + d = 5)%nat -> 0 <= i -> (l = 0%nat -> i = 0) -> (l = 5%nat -> known i = true) ->
  find_levels (drop l levels) npages i w p = (Ok (r, w'), p') -> p' = p /\ walk_ok p npages r.
Proof.
  intros Hwf Hs Hnp d. induction d as [|d IH]; intros l i w r w' p' Hd Hi H0 H5 H.
  { assert (l = 5)%nat as -> by lia. injection H as <- <- <-. split; [done|]. by apply H5. }
  assert (drop l levels = l :: drop (S l) levels) as E by (do 5 (destruct l as [|l]; [done|]); lia).
  rewrite E in H. cbn [find_levels] in H. rewrite Z.shiftl_mul_pow2 in H by (destruct l; done).
  assert (l <= leaf)%nat as Hl by (unfold leaf; lia). set (i' := i * 2 ^ levelBits l) in *.
  assert (0 <= i') as Hi' by (unfold i'; pose proof (Z.pow_nonneg 2 (levelBits l)); lia).
  assert (0 <= Z.shiftl 1 (levelBits l) <= 2 ^ 14) as Hn by (unfold leaf in Hl; do 5 (destruct l as [|l]; [done|]); lia).
  assert (l = 0%nat -> i' < Z.shiftl 1 (levelBits l)) as Hroot by (intros ->; unfold i'; rewrite H0 by done; done).
  unfold st_bind at 1 in H. unfold slice_sums in H. destruct (_ && _) in H; [|done]. rewrite indices_seqZ, Z2Nat.id in H by lia. replace (i' + Z.shiftl 1 (levelBits l) - i') with (Z.shiftl 1 (levelBits l)) in H by lia.
  set (n := Z.shiftl 1 (levelBits l)) in *. unfold st_bind at 1, st_get in H. unfold st_bind, st_lift in H.
  destruct (Z.lt_ge_cases i' n) as [Hin|Hout].
  - destruct (block_loop _ _ _ _ _ _ _ _ w) as [[r1 w1]| | |] eqn:Hloop; try done.
    apply (block_loop_sound p Hwf Hs l Hl i' Hi' n Hn npages Hnp) in Hloop; [|done|apply first_entry_nonneg|split; [lia|lia]].
    destruct r1 as [b s|j].
    + cbn [block_found] in Hloop. destruct Hloop as (Hb & _ & Hle & Hfree). rewrite (proj2 (Z.leb_le _ _) Hle) in H. injection H as <- <- <-.
      split; [done|]. cbn [walk_ok]. exists (i' * 2 ^ levelLogPages l + b). pose proof (free_run_le _ _ _ _ Hle Hfree) as Hrun. split; [|done].
      by eapply found_address.
    + destruct Hloop as [Hj Hmax]. apply (IH (S l)) in H; [done|lia|lia|done|]. intros Hl5. assert (l = leaf) as El by (unfold leaf; lia).
      destruct (max_free p Hwf Hs l Hl (i' + j) ltac:(lia) npages ltac:(lia) Hmax) as (g & Hg1 & Hg2 & Hg).
      destruct (Hg g ltac:(lia)) as [Hk _]. rewrite El in Hg1, Hg2. change (2 ^ levelLogPages leaf) with 512 in *.
      replace (g / 512) with (i' + j) in Hk by (clear - Hg1 Hg2 Hnp; zdiv_lia). done.
  - rewrite block_not_entered in H by (done || lia). rewrite (proj2 (Z.leb_gt npages 0)) in H by lia. destruct l; [|done]. specialize (Hroot eq_refl). lia.
Qed.

Lemma findMappedAddr_state arenas a p r p' : findMappedAddr arenas a p = (r, p') -> p' = p.
Proof.
  unfold findMappedAddr, pa_throw, st_bind, st_get, st_lift, st_ret. intros H. repeat (case_match; simplify_eq/=); try done.
Qed.

Lemma found_in_bits p ci n r lo : pages_wf known p -> 1 <= n -> known ci = true -> first_fit (page_free (pd_bits (chunk_at p ci))) lo n r -> 0 <= lo ->
  free_run p (ci * 512 + r) n.
Proof.
  intros Hwf Hn Hk (Hlo & Hrun & _) H0 x Hx. destruct (wf_known known p Hwf ci Hk) as (_ & _ & [Hlen _] & _).
  pose proof (Hrun (x - ci * 512) ltac:(lia)) as Hf. pose proof (page_free_range _ _ Hf) as Hr. unfold len in Hr. rewrite Hlen in Hr.
  assert (x / 512 = ci /\ x mod 512 = x - ci * 512) as [E1 E2] by (clear - Hr; zdiv_lia).
  unfold free_at, free_page. by rewrite E1, E2.
Qed.

#[local] Opaque find_levels st_bind.
Lemma page_find_free arenas npages p addr sa p' : pages_wf known p -> summaries_ok known p -> 1 <= npages ->
  page_find arenas npages p = (Ok (addr, sa), p') -> p' = p /\ exists g, pos addr = 8192 * g /\ free_run p g npages.
Proof.
  intros Hwf Hs Hnp H. unfold page_find in H. apply bind_inv in H as ([r w] & p1 & E & H).
  assert (levels = drop 0 levels) as Hd by done. rewrite Hd in E.
  destruct (find_levels_sound npages p Hwf Hs Hnp 5 0 0 (minOffAddr, maxOffAddr) r w p1 eq_refl ltac:(lia) ltac:(lia) ltac:(lia) E) as [-> Hr].
  destruct r as [a| |ci]; cbn [walk_ok] in Hr; [|done|].
  - apply bind_inv in H as (m & p2 & Em & H). apply findMappedAddr_state in Em as ->. by injection H as <- <- <-.
  - apply bind_inv in H as (c & p2 & Ec & H). rewrite (chunkOf_ok known p ci Hwf Hr) in Ec. injection Ec as <- <-.
    apply bind_inv in H as ([j ns] & p2 & Ef & H). apply lift_inv in Ef as [Ef ->].
    destruct (wf_known known p Hwf ci Hr) as (Hci & _ & Hb & _).
    destruct (find_first_fit _ npages 0 Hb Hnp ltac:(lia)) as (j' & ns' & Ef' & Hres). rewrite Ef in Ef'. injection Ef' as <- <-.
    destruct Hres as [[-> _]|Hfit]; [by rewrite Z.eqb_refl in H|]. destruct (j =? notFound); [done|].
    change (64 * (0 / 64)) with 0 in Hfit. pose proof (found_in_bits p ci _ _ _ Hwf Hnp Hr Hfit ltac:(lia)) as Hrun. clear Hfit.
    apply bind_inv in H as (w1 & p2 & Ew & H). apply lift_inv in Ew as [_ ->].
    apply bind_inv in H as (m & p2 & Em & H). apply findMappedAddr_state in Em as ->. injection H as <- <- <-.
    split; [done|]. exists (ci * 512 + j). split; [by eapply found_in_chunk|done].
Qed.

End Search.

(** C14: an address that [find] returns is that of free memory: the pages from it
    on, as many as were asked for, all belong to the allocator and are free in
    the bitmaps; and [find] changes nothing. *)
Theorem find_returns_free_pages (known : Z -> bool) (arenas : option (gmap Z Z)) (npages : Z) (p p' : pageAlloc) (addr sa : Z) :
  pages_wf known p -> summaries_ok known p -> 1 <= npages -> page_find arenas npages p = (Ok (addr, sa), p') ->
  p' = p /\ pos addr mod pageSize = 0 /\
  forall g, page_no addr <= g < page_no addr + npages -> known (g / 512) = true /\ free_page p g.
Proof.
  intros Hwf Hs Hnp H. destruct (page_find_free known arenas npages p addr sa p' Hwf Hs Hnp H) as (-> & g & Hg & Hfree).
  split; [done|]. unfold page_no. change pageSize with 8192. rewrite Hg, Z.mul_comm, Z.mod_mul, Z.div_mul by lia. split; [done|]. exact Hfree.
Qed.

Definition searchable : pageAlloc := Eval vm_compute in set_searchAddr Demo.heap_base Demo.pages.

Lemma searchable_eq : searchable = set_searchAddr Demo.heap_base Demo.pages.
Proof. by vm_compute. Qed.

Lemma searchable_ok : pages_wf Demo.two_known searchable /\ summaries_ok Demo.two_known searchable.
Proof. rewrite searchable_eq. split; [destruct Demo.pages_ok as [H1 H2 H3]; split; [exact H1|exact H2|exact H3]|exact Demo.pages_summaries]. Qed.

Lemma find_returns_free_pages_witness :
  page_find None 600 searchable = (Ok (Demo.heap_base, Demo.heap_base), searchable) /\
  forall g, page_no Demo.heap_base <= g < page_no Demo.heap_base + 600 -> Demo.two_known (g / 512) = true /\ free_page searchable g.
Proof.
  assert (page_find None 600 searchable = (Ok (Demo.heap_base, Demo.heap_base), searchable)) as E by by vm_compute.
  split; [exact E|].
  destruct (find_returns_free_pages Demo.two_known None 600 searchable searchable Demo.heap_base Demo.heap_base) as (_ & _ & H);
    [apply searchable_ok|apply searchable_ok|lia|exact E|exact H].
Defined.

(** ** Where the walk stops *)

Lemma full_block l npages i entries base w : 0 <= i < len entries -> Forall (fun x => x = 0) entries ->
  forall fuel j size, 0 <= j <= len entries -> len entries - j < Z.of_nat fuel ->
  block_loop fuel l npages i entries j base size w = Panic out_of_range.
Proof.
  intros Hi Hz fuel. induction fuel as [|fuel IH]; intros j size Hj Hf; [lia|]. cbn [block_loop]. rewrite (proj2 (Z.ltb_lt _ _)) by lia.
  destruct (decide (j = len entries)) as [->|].
  - unfold slice_get. rewrite (proj2 (Z.leb_le _ _)) by lia. by rewrite lookup_ge_None_2 by (unfold len; lia).
  - destruct (slice_get_lt entries j) as (x & Hx & ->); [lia|]. cbn [res_bind]. rewrite Forall_lookup in Hz. rewrite (Hz _ _ Hx), Z.eqb_refl.
    apply IH; lia.
Qed.

Lemma first_entry_lt i a : first_entry 0 i a < 2 ^ 14.
Proof.
  unfold first_entry. case_match; [|done]. change (Z.shiftl 1 (levelBits 0) - 1) with (Z.ones 14). rewrite Z.land_ones by lia.
  apply Z.mod_pos_bound. lia.
Qed.

Lemma root_entries p : slice_sums 0 (Z.shiftl 0 (levelBits 0)) (Z.shiftl 0 (levelBits 0) + Z.shiftl 1 (levelBits 0)) p =
  (Ok (map (sum_at p 0) (seqZ 0 (2 ^ 14))), p).
Proof.
  assert (Z.shiftl 0 (levelBits 0) = 0 /\ Z.shiftl 1 (levelBits 0) = 2 ^ 14) as [-> ->] by done. rewrite slice_sums_ok by done. by rewrite Z.sub_0_r.
Qed.

(** [find] cannot say that there is no room.  When no page of the address
    space is free (every summary of the root level is zero), the comment says
    that it returns address 0; but the loop over the root level runs past its
    last entry and panics, and so [allocToCache] cannot see address 0 either. *)
Theorem find_full_heap_panics (arenas : option (gmap Z Z)) (npages : Z) (p : pageAlloc) :
  (forall i, 0 <= i < 2 ^ 14 -> sum_at p 0 i = 0) -> page_find arenas npages p = (Panic out_of_range, p).
Proof.
  intros Hz. unfold page_find. apply bind_panic. unfold levels. cbn [find_levels]. rewrite (bind_ok _ _ _ _ _ (root_entries p)). unfold st_get. step.
  apply bind_panic. unfold st_lift. f_equal. set (es := map (sum_at p 0) _). assert (len es = 2 ^ 14) as El by (unfold es; by rewrite len_map, len_seqZ by lia).
  pose proof (first_entry_nonneg 0 (Z.shiftl 0 (levelBits 0)) (searchAddr p)). pose proof (first_entry_lt (Z.shiftl 0 (levelBits 0)) (searchAddr p)).
  assert (Forall (fun x => x = 0) es) as Hes.
  { apply List.Forall_map, List.Forall_forall. intros i Hi. apply list_elem_of_In, elem_of_seqZ in Hi. apply Hz. lia. }
  clearbody es. change (Z.shiftl 0 (levelBits 0)) with 0 in *. apply full_block; [lia|done|lia|]. unfold len in *. lia.
Qed.

Lemma find_full_heap_panics_witness :
  let p := set_summary (replicate 5 ∅) Demo.pages in page_find None 1 p = (Panic out_of_range, p).
Proof. apply (find_full_heap_panics None 1). intros i _. unfold sum_at. cbn. by rewrite lookup_empty. Defined.

(** [find] only looks into the first block of a level below the root.  When
    the search of the root level ends in its entry [j >= 1], which has room for
    the pages inside, the loop over the children of [j] is not entered and the
    program stops with "bad summary data". *)
Theorem find_below_root_throws (arenas : option (gmap Z Z)) (npages j : Z) (p : pageAlloc) (w : freeWindow) :
  1 <= npages -> 1 <= j < 2 ^ 14 ->
  block_loop (S (Z.to_nat (2 ^ 14))) 0 npages 0 (map (sum_at p 0) (seqZ 0 (2 ^ 14))) (first_entry 0 0 (searchAddr p)) 0 0 (minOffAddr, maxOffAddr)
    = Ok (Below j, w) ->
  page_find arenas npages p = (Panic "bad summary data", p).
Proof.
  intros Hn Hj H. unfold page_find. apply bind_panic. unfold levels. cbn [find_levels]. rewrite (bind_ok _ _ _ _ _ (root_entries p)). unfold st_get. step.
  rewrite length_map, length_seqZ. unfold st_lift at 1. change (Z.shiftl 0 (levelBits 0)) with 0. rewrite H. step.
  change (Z.shiftl 1 (levelBits 1)) with 8. rewrite Z.shiftl_mul_pow2 by done. change (2 ^ levelBits 1) with 8.
  rewrite (bind_ok _ _ _ _ _ (slice_sums_ok p 1 ((0 + j) * 8) ((0 + j) * 8 + 8) ltac:(lia) ltac:(change (sum_cap 1) with (2 ^ 17); clear - Hj; lia))). step.
  replace ((0 + j) * 8 + 8 - (0 + j) * 8) with 8 by lia. unfold st_lift at 1. rewrite block_not_entered by (unfold leaf; lia). step.
  by rewrite (proj2 (Z.leb_gt npages 0)) by lia.
Qed.

(** One page is in use, so the run of free pages is inside the entry of the root. *)
Definition one_used : pageAlloc := Eval vm_compute in snd (allocRange Demo.heap_base 1 searchable).

Lemma find_below_root_throws_witness :
  page_find None 600 one_used = (Panic "bad summary data", one_used) /\
  forall g, page_no Demo.heap_base + 64 <= g < page_no Demo.heap_base + 1024 -> free_page one_used g.
Proof.
  split.
  - apply (find_below_root_throws None 600 8240 one_used (Demo.heap_base, Demo.heap_base + 2 ^ 34 - 1)); [lia|lia|].
    change (2 ^ 14) with (Z.of_nat (Z.to_nat (2 ^ 14))) at 2. rewrite <- indices_seqZ. by vm_compute.
  - intros g Hg. change (page_no Demo.heap_base) with (Demo.c0 * 512) in Hg.
    assert (g / 512 = Demo.c0 \/ g / 512 = Demo.c0 + 1) as [E | E] by (clear - Hg; zdiv_lia); unfold free_page; rewrite E.
    + assert (pd_bits (chunk_at one_used Demo.c0) = 1 :: replicate 7 0) as -> by by vm_compute. exists 0. split; [apply mod512|]. split; [|by rewrite Z.testbit_0_l].
      replace (Z.to_nat (g mod 512 / 64)) with (S (Z.to_nat (g mod 512 / 64 - 1))) by (clear - Hg E; zdiv_lia). change ((replicate 7 0 : list Z) !! Z.to_nat (g mod 512 / 64 - 1) = Some 0).
      apply lookup_replicate. split; [done|]. clear - Hg E. zdiv_lia.
    + assert (pd_bits (chunk_at one_used (Demo.c0 + 1)) = replicate 8 0) as -> by by vm_compute. exists 0. split; [apply mod512|]. split; [|by rewrite Z.testbit_0_l].
      apply lookup_replicate. split; [done|]. clear. zdiv_lia.
Defined.
