(* ===== verification/PageCache.v ===== *)
(** * The page cache

    [mpagecache.go]: the cache of pages of a P, and what [pageCache.alloc] hands
    out and then takes out of the cache. *)
From S2P Require Import Prelude Bits64 PallocSum PageBits PageFind PageSummary PageRange OsMem PageAlloc.

Local Open Scope Z_scope.
Local Open Scope go_scope.

(** ** The cache *)

Record pageCache : Type := mkPageCache { cache_base : Z; cache : Z }.
Definition pageCachePages : Z := 64.

Definition cache_empty (c : pageCache) : bool := cache c =? 0.

(** The mask is [((1 << i) - 1) << i]. *)
Definition cache_allocN (c : pageCache) (npages : Z) : res Empty_set (Z * pageCache) :=
  let? i := findBitRange64 (cache c) npages in
  if 64 <=? i then Ok (0, c)
  else
    let mask := shl64 (u64 (shl64 1 i - 1)) i in
    Ok (u64 (cache_base c + i * pageSize), mkPageCache (cache_base c) (Z.ldiff (cache c) mask)).

Definition cache_alloc (c : pageCache) (npages : Z) : res Empty_set (Z * pageCache) :=
  if cache c =? 0 then Ok (0, c)
  else if npages =? 1 then
    let i := TrailingZeros64 (cache c) in
    Ok (u64 (cache_base c + i * pageSize), mkPageCache (cache_base c) (Z.ldiff (cache c) (shl64 1 i)))
  else cache_allocN c npages.

Section Cache.
(** [mheap_.arenas[0]], as [find] looks at it. *)
Variable arenas : option (gmap Z Z).

(** [chunkIdx(p.searchAddr.addr())] converts the address instead of computing its
    chunk; the [chunk] of the fast path is another variable than the one used
    after it, which is still nil. *)
Definition allocToCache : M pageCache :=
  let* p := st_get in
  let ci := searchAddr p in
  if end_chunk p <=? ci then st_ret (mkPageCache 0 0)
  else
    let* sum := get_sum leaf ci in
    if negb (sum =? 0) then
      let* chunk := chunkOf ci in
      let* r := st_lift (PageBits.find (pd_bits chunk) 1 (chunkPageIndex (searchAddr p))) in
      let '(j, _) := r in
      if j =? notFound then pa_throw "bad summary data"
      else
        let* _ := st_lift (pages64 (pd_bits chunk) j) in
        pa_throw nil_deref
    else
      let* r := page_find arenas 1 in
      let '(addr, _) := r in
      if addr =? 0 then st_mod (set_searchAddr maxSearchAddr) ;;; st_ret (mkPageCache 0 0)
      else
        let ci := chunkIndex addr in
        let* chunk := chunkOf ci in
        let* pages := st_lift (pages64 (pd_bits chunk) (chunkPageIndex addr)) in
        let c := mkPageCache (alignDown addr (64 * pageSize)) (not64 pages) in
        let cpi := chunkPageIndex (cache_base c) in
        let* b := st_lift (allocPages64 (pd_bits chunk) cpi (cache c)) in
        put_chunk ci (mkPallocData b (scavenged chunk)) ;;;
        update (cache_base c) pageCachePages false true ;;;
        st_mod (set_searchAddr (u64 (cache_base c + pageSize * (pageCachePages - 1)))) ;;;
        st_ret c.

End Cache.

(** ** Bits of words *)

Lemma ldiff_bit x y q : 0 <= q -> Z.testbit (Z.ldiff x y) q = Z.testbit x q && negb (Z.testbit y q).
Proof. intros. apply Z.ldiff_spec. Qed.

Lemma one_bit i q : 0 <= i < 64 -> 0 <= q -> Z.testbit (shl64 1 i) q = (q =? i).
Proof.
  intros Hi Hq. unfold shl64. rewrite Z.shiftl_mul_pow2, Z.mul_1_l by lia. pose proof (Z.pow_lt_mono_r 2 i 64 ltac:(lia) ltac:(lia) ltac:(lia)).
  rewrite u64_small by (pose proof (pow2_pos i); lia). rewrite Z.pow2_bits_eqb by lia. apply Z.eqb_sym.
Qed.

(** The bits of [((1 << i) - 1) << i]. *)
Lemma mask_bit i q : 0 <= i < 64 -> 0 <= q < 64 -> Z.testbit (shl64 (u64 (shl64 1 i - 1)) i) q = (i <=? q) && (q <? 2 * i).
Proof.
  intros Hi Hq. rewrite ones_spec by lia. unfold shl64, u64. rewrite Z.mod_pow2_bits_low by lia. rewrite Z.shiftl_spec by lia.
  destruct (Z.leb_spec i q).
  - rewrite Z.testbit_ones by lia. destruct (Z.leb_spec 0 (q - i)), (Z.ltb_spec (q - i) i), (Z.ltb_spec q (2 * i)); lia || done.
  - by rewrite Z.testbit_neg_r by lia.
Qed.

(** ** [alloc] *)

(** The pages taken out of the cache when [npages] are found at bit [i]. *)
Definition taken_out (npages i q : Z) : bool := if npages =? 1 then q =? i else (i <=? q) && (q <? 2 * i).

Lemma alloc_one_ok c : 0 <= cache c < 2 ^ 64 -> cache c <> 0 -> let i := TrailingZeros64 (cache c) in
  0 <= i < 64 /\ ones_at (cache c) 1 i /\ (forall k, 0 <= k < i -> ~ ones_at (cache c) 1 k) /\
  forall q, 0 <= q < 64 -> Z.testbit (Z.ldiff (cache c) (shl64 1 i)) q = Z.testbit (cache c) q && negb (q =? i).
Proof.
  intros Hc Hne i. destruct (TrailingZeros64_spec (cache c) Hc) as [[E _]|[Hi [Hset Hlow]]]; [done|]. fold i in Hi, Hset, Hlow.
  split; [done|]. split; [intros t Ht; by replace (i + t) with i by lia|]. split.
  - intros k Hk Ho. specialize (Ho 0 ltac:(lia)). rewrite Z.add_0_r, Hlow in Ho by lia. done.
  - intros q Hq. by rewrite ldiff_bit, one_bit by lia.
Qed.

(** C33: what the page cache hands out.  An allocation of [1 .. 64] pages returns
    the address of the first run of that many free pages of the cache, and no
    address exactly when there is none; one page is then removed from the cache,
    but of several pages found at bit [i] the pages [i .. 2i) are removed
    instead of [i .. i + npages), so that a run at bit 0 stays in the cache and
    is handed out again. *)
Theorem cache_alloc_effect (c : pageCache) (npages : Z) :
  0 <= cache c < 2 ^ 64 -> 1 <= npages <= 64 ->
  (cache_alloc c npages = Ok (0, c) /\ forall i, 0 <= i -> ~ ones_at (cache c) npages i) \/
  exists i c', cache_alloc c npages = Ok (u64 (cache_base c + i * pageSize), c') /\ 0 <= i < 64 /\
    ones_at (cache c) npages i /\ (forall k, 0 <= k < i -> ~ ones_at (cache c) npages k) /\
    cache_base c' = cache_base c /\
    forall q, 0 <= q < 64 -> Z.testbit (cache c') q = Z.testbit (cache c) q && negb (taken_out npages i q).
Proof.
  intros Hc Hn. unfold cache_alloc, taken_out. destruct (Z.eqb_spec (cache c) 0) as [E|Hne].
  { left. split; [done|]. intros i Hi Ho. specialize (Ho 0 ltac:(lia)). by rewrite E, Z.testbit_0_l in Ho. }
  destruct (Z.eqb_spec npages 1) as [->|_].
  { right. destruct (alloc_one_ok c Hc Hne) as (Hi & Ho & Hfirst & Hbits). eexists _, _. split; [done|]. split_and!; done || lia. }
  unfold cache_allocN. destruct (findBitRange64_spec (cache c) npages Hc Hn) as (i & -> & [[-> Hnone]|(Hi & Ho & Hfirst)]); cbn [res_bind].
  - left. by split.
  - right. rewrite (proj2 (Z.leb_gt 64 i)) by lia. eexists _, _. split; [done|]. cbn [cache cache_base]. split_and!; try done; try lia.
    intros q Hq. by rewrite ldiff_bit, mask_bit by lia.
Qed.

(** The pages 0 .. 4 are free; two pages are allocated twice. *)
Lemma cache_alloc_effect_witness :
  let c := mkPageCache 0xc000000000 31 in
  cache_alloc c 2 = Ok (0xc000000000, c) /\ ones_at (cache c) 2 0 /\
  forall q, 0 <= q < 64 -> Z.testbit (cache c) q = Z.testbit (cache c) q && negb (taken_out 2 0 q).
Proof.
  intros c. destruct (cache_alloc_effect c 2) as [[H Hnone]|(i & c' & H & Hi & Ho & Hfirst & _ & Hbits)]; [done|done| |].
  - exfalso. by vm_compute in H.
  - assert (i = 0) as ->.
    { destruct (decide (i = 0)) as [|Hne]; [done|]. exfalso. apply (Hfirst 0); [lia|]. intros t Ht. assert (t = 0 \/ t = 1) as [-> | ->] by lia; done. }
    assert (c' = c) as -> by (vm_compute in H; injection H as <-; done). split_and!; [exact H|exact Ho|exact Hbits].
Defined.
