(* ===== verification/PageGrow.v ===== *)
(** * Growing the page allocator

    [init], [sysInit], [grow] and [sysGrow] of [mpagealloc.go] and
    [mpagealloc_64bit.go], over memory from the system, and [grow] on an
    allocator that owns no memory yet, as [init] leaves it. *)
From S2P Require Import Prelude Slice Bits64 PallocSum PageBits AddrRanges OsMem OffHeap PageAlloc PageTree.

Local Open Scope Z_scope.
Local Open Scope go_scope.

(** ** [init] and [grow], over memory from the system *)

Section Grow.
Context {K : Type} `{!Kernel K}.
#[local] Abbreviation G := (stateful (pageAlloc * heap K) Empty_set).

Definition on_os {A} (m : stateful (heap K) Empty_set A) : G A := fun s => let '(r, h) := m (snd s) in (r, (fst s, h)).
Definition on_pages {A} (m : M A) : G A := fun s => let '(r, p) := m (fst s) in (r, (p, snd s)).
Definition get_pages : G pageAlloc := fun s => (Ok (fst s), s).
Definition set_pages (f : pageAlloc -> pageAlloc) : G unit := on_pages (st_mod f).

Fixpoint sysInit_levels (ls : list nat) : G unit :=
  match ls with
  | [] => st_ret tt
  | l :: ls =>
      let entries := Z.shiftl 1 (heapAddrBits - levelShift l) in
      let b := alignUp (u64 (entries * pallocSumBytes)) physPageSize in
      let* r := on_os (sysReserve 0 b) in
      if r =? 0 then st_lift (Panic "failed to reserve page summary memory")
      else
        set_pages (fun p => set_sum_base (<[l := r]> (sum_base p)) (set_sum_lens (<[l := 0]> (sum_lens p)) p)) ;;;
        sysInit_levels ls
  end.
Definition sysInit : G unit := sysInit_levels levels.

Definition init (sysStat : option sysMemStat) : G unit :=
  if logMaxPackedValue <? levelLogPages 0 then st_lift (Panic "root level max pages doesn't fit in summary")
  else
    set_pages (set_pa_sysStat sysStat) ;;;
    (let* _ := on_os (persistentalloc (16 * 16) PtrSize sysStat) in set_pages (set_inUse ranges_init)) ;;;
    sysInit ;;;
    set_pages (set_searchAddr maxSearchAddr).

Definition addrRangeToSummaryRange (level : nat) (r : addrRange) : Z * Z :=
  let '(lo, hi) := addrsToSummaryRange level (base r) (limit r) in blockAlignSummaryRange level lo hi.

Definition summaryRangeToSumAddrRange (level : nat) (sumIdxBase sumIdxLimit : Z) : G addrRange :=
  let baseOffset := alignDown (u64 (sumIdxBase * pallocSumBytes)) physPageSize in
  let limitOffset := alignUp (u64 (sumIdxLimit * pallocSumBytes)) physPageSize in
  let* p := get_pages in
  if sum_len p level <=? 0 then st_lift (Panic out_of_range)
  else
    let b := default 0 (sum_base p !! level) in
    st_ret (mkRange (u64 (b + baseOffset)) (u64 (b + limitOffset))).

Definition addrRangeToSumAddrRange (level : nat) (r : addrRange) : G addrRange :=
  let '(lo, hi) := addrRangeToSummaryRange level r in summaryRangeToSumAddrRange level lo hi.

Definition grow_level (inUseIndex base limit : Z) (l : nat) : G unit :=
  let* r := st_lift (makeAddrRange base limit) in
  let '(needIdxBase, needIdxLimit) := addrRangeToSummaryRange l r in
  let* p := get_pages in
  (if sum_len p l <? needIdxLimit then
     if sum_cap l <? needIdxLimit then st_lift (Panic "slice bounds out of range")
     else set_pages (fun p => set_sum_lens (<[l := needIdxLimit]> (sum_lens p)) p)
   else st_ret tt) ;;;
  let* need := summaryRangeToSumAddrRange l needIdxBase needIdxLimit in
  let rs := ranges (inUse p) in
  let* need := (if 0 <? inUseIndex then
                  let* r := st_lift (slice_get rs (inUseIndex - 1)) in
                  let* used := addrRangeToSumAddrRange l r in
                  st_lift (subtract need used)
                else st_ret need) in
  let* need := (if inUseIndex <? len rs then
                  let* r := st_lift (slice_get rs inUseIndex) in
                  let* used := addrRangeToSumAddrRange l r in
                  st_lift (subtract need used)
                else st_ret need) in
  if AddrRanges.size need =? 0 then st_ret tt
  else
    on_os (sysMap (AddrRanges.base need) (AddrRanges.size need) (pa_sysStat p)) ;;;
    set_pages (fun p => set_summaryMappedReady (u64 (summaryMappedReady p + AddrRanges.size need)) p).

Fixpoint grow_levels (inUseIndex base limit : Z) (ls : list nat) : G unit :=
  match ls with
  | [] => st_ret tt
  | l :: ls => grow_level inUseIndex base limit l ;;; grow_levels inUseIndex base limit ls
  end.

Definition sysGrow (base limit : Z) : G unit :=
  if negb (base mod pallocChunkBytes =? 0) || negb (limit mod pallocChunkBytes =? 0)
  then st_lift (Panic "sysGrow bounds not aligned to pallocChunkBytes")
  else
    let* p := get_pages in
    let* inUseIndex := st_lift (findSucc (inUse p) base) in
    grow_levels inUseIndex base limit levels.

(** The size of a block of 8192 bitmaps of 128 bytes. *)
Definition l2_bytes : Z := 2 ^ 13 * 128.

Fixpoint grow_chunks (n : nat) (c : Z) : G unit :=
  match n with
  | O => st_ret tt
  | S n =>
      let* p := get_pages in
      (if Z.shiftl 1 pallocChunksL1Bits <=? chunk_l1 c then st_lift (Panic out_of_range)
       else match chunks_l1 p !! chunk_l1 c with
            | Some _ => st_ret tt
            | None =>
                let* r := on_os (sysAlloc l2_bytes (pa_sysStat p)) in
                if r =? 0 then st_lift (Panic "pageAlloc: out of memory")
                else set_pages (fun p => set_chunks_l1 (<[chunk_l1 c := r]> (chunks_l1 p)) p)
            end) ;;;
      grow_chunks n (c + 1)
  end.

Definition grow (base size : Z) : G unit :=
  let limit := alignUp (u64 (base + size)) pallocChunkBytes in
  let base := alignDown base pallocChunkBytes in
  sysGrow base limit ;;;
  let start := chunkIndex base in
  let end_ := chunkIndex limit in
  set_pages (fun p => if (start_ p =? 0) || (start <? start_ p) then set_start_ start p else p) ;;;
  set_pages (fun p => if end_chunk p <? end_ then set_end_chunk end_ p else p) ;;;
  let* r := st_lift (makeAddrRange base limit) in
  let* p := get_pages in
  let* rs := st_lift (AddrRanges.add (inUse p) r) in
  set_pages (set_inUse rs) ;;;
  set_pages (fun p => if lessThan base (searchAddr p) then set_searchAddr base p else p) ;;;
  grow_chunks (Z.to_nat (chunkIndex limit - chunkIndex base)) (chunkIndex base) ;;;
  on_pages (update base (size / pageSize) true false).

(** ** An allocator without memory *)

(** No memory yet, and five reserved tables in the lower half of the address space. *)
Record fresh (p : pageAlloc) : Prop := {
  fr_inUse : ranges (inUse p) = [];
  fr_lens : length (sum_lens p) = 5%nat;
  fr_base : Forall (fun b => 0 <= b < 2 ^ 46) (sum_base p) }.

(** [grow_level] when nothing is in use: it never maps memory. *)
Lemma need_size b lo hi : 0 <= b < 2 ^ 46 -> 0 <= lo <= hi -> hi <= 2 ^ 40 ->
  AddrRanges.size (mkRange (u64 (b + lo)) (u64 (b + hi))) = 0.
Proof.
  intros Hb Hlo Hhi. unfold AddrRanges.size. cbn [AddrRanges.base AddrRanges.limit]. rewrite lessThan_pos.
  destruct (Z.ltb_spec (pos (u64 (b + lo))) (pos (u64 (b + hi)))) as [|Hge]; [done|].
  unfold pos, diff, arenaBaseOffset in *.
  assert (forall x, 0 <= x < 2 ^ 47 -> u64 (u64 x - 0xffff800000000000) = x + 2 ^ 47) as Hpos.
  { intros x Hx. rewrite (u64_small x) by lia. unfold u64. replace (x - 0xffff800000000000) with (x + 2 ^ 47 + (-1) * 2 ^ 64) by lia.
    rewrite Z.mod_add, Z.mod_small; lia. }
  rewrite !Hpos in Hge by lia. replace hi with lo by lia. by rewrite Z.sub_diag.
Qed.

Lemma alignUp_le k m y : 0 <= k < 32 -> 0 <= y < 2 ^ k * m -> m <= 2 ^ 27 -> y + 1 <= alignUp (y + 1) (2 ^ k) <= 2 ^ k * m.
Proof.
  intros Hk Hy Hm. pose proof (pow2_pos k ltac:(lia)) as Hp. pose proof (Z.pow_le_mono_r 2 k 31 ltac:(lia) ltac:(lia)) as Hp31. change (2 ^ 31) with 2147483648 in Hp31.
  split; [apply alignUp_spec; nia|]. rewrite alignUp_eq by nia. replace (y + 1 + 2 ^ k - 1) with (y + 1 * 2 ^ k) by lia. rewrite Z.div_add by lia.
  assert (y / 2 ^ k < m) by (apply Z.div_lt_upper_bound; lia). nia.
Qed.

Lemma alignDown_le k n : 0 <= k < 64 -> 0 <= n -> 0 <= alignDown n (2 ^ k) <= n.
Proof.
  intros Hk Hn. rewrite alignDown_eq by done. pose proof (pow2_pos k ltac:(lia)). pose proof (Z.div_pos n (2 ^ k) Hn ltac:(lia)).
  pose proof (Z.mul_div_le n (2 ^ k) ltac:(lia)). nia.
Qed.

(** The addresses of the lower half of the address space. *)
Definition low_range (B E : Z) : Prop := 0 <= B <= E /\ E < 2 ^ 47.

Lemma off_pos x : 0 <= x < 2 ^ 47 -> u64 (x - arenaBaseOffset) = x + 2 ^ 47.
Proof.
  intros Hx. unfold u64, arenaBaseOffset. replace (x - 0xffff800000000000) with (x + 2 ^ 47 + (-1) * 2 ^ 64) by lia. rewrite Z.mod_add, Z.mod_small; lia.
Qed.

Lemma makeAddrRange_low B E : low_range B E -> makeAddrRange B E = Ok (mkRange B E).
Proof.
  intros [HB HE]. unfold makeAddrRange. rewrite !off_pos by lia. by rewrite !(proj2 (Z.leb_le _ _)) by lia.
Qed.

Lemma summary_range l B E : (l <= leaf)%nat -> low_range B E ->
  let '(lo, hi) := addrRangeToSummaryRange l (mkRange B E) in 0 <= lo <= hi /\ 0 < hi <= sum_cap l.
Proof.
  intros Hl [HB HE]. unfold addrRangeToSummaryRange, addrsToSummaryRange, blockAlignSummaryRange. cbn [AddrRanges.base AddrRanges.limit].
  rewrite !off_pos by lia. rewrite levelShift_eq, sum_cap_eq by done. rewrite !Z.shiftr_div_pow2 by (unfold leaf in Hl; lia).
  set (S := 34 - 3 * Z.of_nat l). assert (0 <= levelBits l < 32 /\ levelBits l <= 14 + 3 * Z.of_nat l) as [Hb Hbl] by (destruct l; unfold levelBits, summaryLevelBits; change summaryL0Bits with 14; lia).
  rewrite Z.shiftl_mul_pow2, Z.mul_1_l by lia. pose proof (pow2_pos S ltac:(unfold S, leaf in *; lia)) as HS.
  assert (0 <= (B + 2 ^ 47) / 2 ^ S) as Hx by (apply Z.div_pos; lia).
  pose proof (Z.div_le_mono (B + 2 ^ 47) (E + 2 ^ 47) (2 ^ S) HS ltac:(lia)) as Hxy.
  assert ((E + 2 ^ 47) / 2 ^ S < 2 ^ (14 + 3 * Z.of_nat l)) as Hy.
  { apply Z.div_lt_upper_bound; [lia|]. rewrite <- Z.pow_add_r by (unfold S, leaf in *; lia). replace (S + (14 + 3 * Z.of_nat l)) with 48 by (unfold S; lia). lia. }
  pose proof (alignDown_le (levelBits l) _ ltac:(lia) Hx) as Hlo.
  destruct (alignUp_le (levelBits l) (2 ^ (14 + 3 * Z.of_nat l - levelBits l)) ((E + 2 ^ 47) / 2 ^ S)) as [H1 H2].
  - lia.
  - rewrite <- Z.pow_add_r by lia. replace (levelBits l + (14 + 3 * Z.of_nat l - levelBits l)) with (14 + 3 * Z.of_nat l) by lia. lia.
  - apply Z.pow_le_mono_r; [lia|]. unfold leaf in Hl. lia.
  - rewrite <- Z.pow_add_r in H2 by lia. replace (levelBits l + (14 + 3 * Z.of_nat l - levelBits l)) with (14 + 3 * Z.of_nat l) in H2 by lia. lia.
Qed.

Lemma sum_cap_le l : (l <= leaf)%nat -> sum_cap l <= 2 ^ 26.
Proof. intros Hl. rewrite sum_cap_eq by done. apply Z.pow_le_mono_r; [lia|]. unfold leaf in Hl. lia. Qed.

Lemma fresh_lens p l n : fresh p -> fresh (set_sum_lens (<[l := n]> (sum_lens p)) p).
Proof. intros [H1 H2 H3]. split; [done| |done]. cbn. by rewrite length_insert. Qed.

Lemma need_fresh l lo hi (p : pageAlloc) (h : heap K) : fresh p -> 0 < sum_len p l -> 0 <= lo <= hi -> hi <= 2 ^ 26 ->
  exists r, summaryRangeToSumAddrRange l lo hi (p, h) = (Ok r, (p, h)) /\ AddrRanges.size r = 0.
Proof.
  intros Hf Hl Hlo Hhi. unfold summaryRangeToSumAddrRange, pallocSumBytes. rewrite !u64_small by lia. unfold get_pages. step.
  rewrite (proj2 (Z.leb_gt _ _)) by (cbn [fst]; lia). eexists. split; [reflexivity|]. cbn [fst].
  change physPageSize with (2 ^ 12). pose proof (alignDown_le 12 (lo * 8) ltac:(lia) ltac:(lia)). pose proof (alignUp_spec 12 ltac:(lia) (hi * 8) ltac:(lia) ltac:(lia)).
  apply need_size; [|lia|lia]. pose proof (fr_base _ Hf) as Hb. rewrite Forall_lookup in Hb. destruct (sum_base p !! l) as [b|] eqn:E; [by eapply Hb|done].
Qed.

Lemma grow_level_fresh l B E (s : pageAlloc * heap K) : (l <= leaf)%nat -> low_range B E -> fresh (fst s) ->
  exists p', grow_level 0 B E l s = (Ok tt, (p', snd s)) /\ fresh p' /\ inUse p' = inUse (fst s).
Proof.
  intros Hl Hr Hf. unfold grow_level. rewrite (makeAddrRange_low _ _ Hr). step. pose proof (summary_range l B E Hl Hr) as Hs.
  destruct (addrRangeToSummaryRange l (mkRange B E)) as [lo hi]. destruct Hs as [Hlo Hhi]. step. pose proof (sum_cap_le l Hl) as Hcap.
  assert (exists p1, (if sum_len (fst s) l <? hi then
     if sum_cap l <? hi then st_lift (Panic "slice bounds out of range")
     else set_pages (fun p => set_sum_lens (<[l := hi]> (sum_lens p)) p)
   else st_ret tt) s = (Ok tt, (p1, snd s)) /\ fresh p1 /\ inUse p1 = inUse (fst s) /\ 0 < sum_len p1 l) as (p1 & E1 & Hf1 & Hu1 & Hl1).
  { destruct (Z.ltb_spec (sum_len (fst s) l) hi).
    - rewrite (proj2 (Z.ltb_ge _ _)) by lia. eexists. split; [reflexivity|]. split; [by apply fresh_lens|]. split; [done|].
      unfold sum_len. cbn [sum_lens set_sum_lens fst]. rewrite list_lookup_insert_eq; [cbn; lia|]. rewrite (fr_lens _ Hf). unfold leaf in Hl. lia.
    - exists (fst s). split; [by destruct s|]. split; [done|]. split; [done|]. lia. }
  step_with E1. destruct (need_fresh l lo hi p1 (snd s) Hf1 Hl1 Hlo ltac:(lia)) as (r & E2 & Hsz). step_with E2.
  rewrite (fr_inUse _ Hf). step. step. rewrite Hsz. by exists p1.
Qed.

Lemma grow_levels_fresh ls : forall B E (s : pageAlloc * heap K), Forall (fun l => (l <= leaf)%nat) ls -> low_range B E -> fresh (fst s) ->
  exists p', grow_levels 0 B E ls s = (Ok tt, (p', snd s)) /\ fresh p' /\ inUse p' = inUse (fst s).
Proof.
  induction ls as [|l ls IH]; intros B E s Hls Hr Hf; cbn [grow_levels].
  - exists (fst s). by destruct s.
  - apply Forall_cons_iff in Hls as [Hl Hls]. destruct (grow_level_fresh l B E s Hl Hr Hf) as (p1 & E1 & Hf1 & Hu1). step_with E1.
    destruct (IH B E (p1, snd s) Hls Hr Hf1) as (p2 & E2 & Hf2 & Hu2). exists p2. split; [done|]. split; [done|]. by rewrite Hu2.
Qed.

Lemma sysGrow_fresh B E (s : pageAlloc * heap K) : low_range B E -> B mod pallocChunkBytes = 0 -> E mod pallocChunkBytes = 0 -> fresh (fst s) ->
  exists p', sysGrow B E s = (Ok tt, (p', snd s)) /\ fresh p' /\ inUse p' = inUse (fst s).
Proof.
  intros Hr HB HE Hf. unfold sysGrow. rewrite HB, HE. cbn [Z.eqb negb orb]. unfold get_pages. step. unfold findSucc. rewrite (fr_inUse _ Hf). step.
  apply grow_levels_fresh; [|done|done]. repeat constructor.
Qed.

Lemma add_zero_size a B E : low_range B E -> B < E -> AddrRanges.add a (mkRange B E) = Panic "attempted to add zero-sized address range".
Proof.
  intros [HB HE] Hlt. unfold AddrRanges.add, AddrRanges.size. cbn [AddrRanges.base AddrRanges.limit]. unfold lessThan.
  rewrite !off_pos by lia. by rewrite (proj2 (Z.ltb_lt _ _)) by lia.
Qed.

Lemma fresh_start p st : fresh p -> fresh (if (start_ p =? 0) || (st <? start_ p) then set_start_ st p else p).
Proof. intros [H1 H2 H3]. case_match; by split. Qed.
Lemma fresh_end_chunk p e : fresh p -> fresh (if end_chunk p <? e then set_end_chunk e p else p).
Proof. intros [H1 H2 H3]. case_match; by split. Qed.

End Grow.

(** The page allocator never gets memory.  On the state [init] leaves, a
    [grow] of any range of the lower half of the address space ends in a throw
    of [addrRanges.add], which takes every proper range for an empty one; for
    the same reason no summary memory was mapped before: nothing was asked of
    the system, and the ranges in use are still none. *)
Theorem grow_never_grows {K : Type} `{!Kernel K} (base size : Z) (s : pageAlloc * heap K) :
  0 <= base -> 0 < size -> base + size + pallocChunkBytes < 2 ^ 47 -> fresh (fst s) ->
  exists p', grow base size s = (Panic "attempted to add zero-sized address range", (p', snd s)) /\ fresh p'.
Proof.
  intros Hb Hsz Hmax Hf. unfold grow. rewrite (u64_small (base + size)) by (unfold pallocChunkBytes, pallocChunkPages, pageSize, PageSize in *; lia).
  change pallocChunkBytes with (2 ^ 22) in *.
  pose proof (alignDown_le 22 base ltac:(lia) Hb) as HB. destruct (alignUp_spec 22 ltac:(lia) (base + size) ltac:(lia) ltac:(lia)) as [HE HEm].
  assert (alignDown base (2 ^ 22) mod 2 ^ 22 = 0) as HBm by (rewrite alignDown_eq by lia; by apply Z.mod_mul).
  set (B := alignDown base (2 ^ 22)) in *. set (E := alignUp (base + size) (2 ^ 22)) in *.
  assert (low_range B E) as Hr by (unfold low_range; lia).
  destruct (sysGrow_fresh B E s Hr HBm HEm Hf) as (p1 & E1 & Hf1 & Hu1). step_with E1. step. step.
  rewrite (makeAddrRange_low _ _ Hr). step. unfold get_pages. step.
  eexists. split; [apply bind_panic; unfold st_lift; rewrite (add_zero_size _ B E) by (done || lia); reflexivity|].
  cbn [fst]. apply fresh_end_chunk, fresh_start. done.
Qed.

(** A growth of 64 MB after [init]. *)
Definition fresh_pages : pageAlloc :=
  mkPageAlloc (replicate 5 ∅) (replicate 5 0) [2 ^ 40; 2 ^ 41; 2 ^ 42; 2 ^ 43; 2 ^ 44] ∅ ∅ maxSearchAddr 0 0 ranges_init None 0 false.

Lemma grow_never_grows_witness :
  exists p', grow 0xc000000000 (2 ^ 26) (fresh_pages, heap_init true) = (Panic "attempted to add zero-sized address range", (p', heap_init true)) /\ fresh p'.
Proof.
  apply (grow_never_grows 0xc000000000 (2 ^ 26) (fresh_pages, heap_init true)); [lia|lia|by vm_compute|]. split; [done|done|]. repeat constructor; done.
Defined.
