(* ===== verification/Spans.v ===== *)
(** * Spans

    The parts of [mheap.go] and [sizeclasses.go] ([src/memory_and_heap]) about a
    single span: size classes, the record [mspan], its initialisation, and
    [allocNeedsZero] with the other threads that raise [zeroedBase] meanwhile.
    Memory is read and written by words, as in OffHeap.  A thread is interrupted
    between two atomic accesses only: the state carries what the others will do,
    one action per access. *)
From S2P Require Import Prelude Slice AddrRanges OsMem OffHeap PageAlloc.

Local Open Scope Z_scope.
Local Open Scope go_scope.

(** ** Size classes *)

Definition NumSizeClasses : Z := 68.
Definition class_to_size : list Z := [
  0; 8; 16; 24; 32; 48; 64; 80; 96; 112; 128; 144; 160; 176; 192; 208; 224;
  240; 256; 288; 320; 352; 384; 416; 448; 480; 512; 576; 640; 704; 768; 896; 1024; 1152;
  1280; 1408; 1536; 1792; 2048; 2304; 2688; 3072; 3200; 3456; 4096; 4864; 5376; 6144; 6528; 6784; 6912;
  8192; 9472; 9728; 10240; 10880; 12288; 13568; 14336; 16384; 18432; 19072; 20480; 21760; 24576; 27264; 28672; 32768].
Definition class_to_divmagic : list Z :=
  map (fun s => if s =? 0 then 0 else (2 ^ 32 - 1) / s + 1) class_to_size.

Definition numSpanClasses : Z := Z.shiftl NumSizeClasses 1.
Definition bool2int (b : bool) : Z := if b then 1 else 0.
Definition makeSpanClass (sizeclass : Z) (noscan : bool) : Z := Z.lor (u8 (Z.shiftl sizeclass 1)) (u8 (bool2int noscan)).
(** [int8(sc >> 1)]: below 128 for every [uint8]. *)
Definition sizeclass (sc : Z) : Z := Z.shiftr sc 1.
Definition noscan (sc : Z) : bool := negb (Z.land sc 1 =? 0).

(** ** Arena indices *)

Definition logHeapArenaBytes : Z := 26.
Definition heapArenaBytes : Z := Z.shiftl 1 logHeapArenaBytes.
Definition arenaL1Bits : Z := 0.
Definition arenaL2Bits : Z := heapAddrBits - logHeapArenaBytes - arenaL1Bits.
Definition arenaL1Shift : Z := arenaL2Bits.
Definition arenaBits : Z := arenaL1Bits + arenaL2Bits.
Definition arena_l1 (i : Z) : Z := if arenaL1Bits =? 0 then 0 else Z.shiftr i arenaL1Shift.
Definition arena_l2 (i : Z) : Z := if arenaL1Bits =? 0 then i else Z.land i (Z.shiftl 1 arenaL2Bits - 1).

(** ** [mspan] *)

Inductive mSpanState : Type := mSpanDead | mSpanInUse | mSpanManual.
Definition span_state_code (s : mSpanState) : Z := match s with mSpanDead => 0 | mSpanInUse => 1 | mSpanManual => 2 end.
Definition span_state (v : Z) : option mSpanState :=
  if v =? 0 then Some mSpanDead else if v =? 1 then Some mSpanInUse else if v =? 2 then Some mSpanManual else None.

Inductive spanAllocType : Type := spanAllocHeap | spanAllocStack.
Definition manual (t : spanAllocType) : bool := match t with spanAllocHeap => false | spanAllocStack => true end.

Record mspan : Type := mkSpan {
  sp_next : Z;
  sp_prev : Z;
  sp_list : Z;
  startAddr : Z;
  npages : Z;
  freeindex : Z;
  nelems : Z;
  allocCache : Z;
  allocBits : Z;
  divMul : Z;
  allocCount : Z;
  spanclass : Z;
  state : Z;
  needzero : Z;
  elemsize : Z;
  freeIndexForScan : Z }.
Definition set_sp_next (v : Z) (s : mspan) : mspan :=
  mkSpan v (sp_prev s) (sp_list s) (startAddr s) (npages s) (freeindex s) (nelems s) (allocCache s) (allocBits s) (divMul s) (allocCount s) (spanclass s) (state s) (needzero s) (elemsize s) (freeIndexForScan s).
Definition set_sp_prev (v : Z) (s : mspan) : mspan :=
  mkSpan (sp_next s) v (sp_list s) (startAddr s) (npages s) (freeindex s) (nelems s) (allocCache s) (allocBits s) (divMul s) (allocCount s) (spanclass s) (state s) (needzero s) (elemsize s) (freeIndexForScan s).
Definition set_sp_list (v : Z) (s : mspan) : mspan :=
  mkSpan (sp_next s) (sp_prev s) v (startAddr s) (npages s) (freeindex s) (nelems s) (allocCache s) (allocBits s) (divMul s) (allocCount s) (spanclass s) (state s) (needzero s) (elemsize s) (freeIndexForScan s).
Definition set_startAddr (v : Z) (s : mspan) : mspan :=
  mkSpan (sp_next s) (sp_prev s) (sp_list s) v (npages s) (freeindex s) (nelems s) (allocCache s) (allocBits s) (divMul s) (allocCount s) (spanclass s) (state s) (needzero s) (elemsize s) (freeIndexForScan s).
Definition set_npages (v : Z) (s : mspan) : mspan :=
  mkSpan (sp_next s) (sp_prev s) (sp_list s) (startAddr s) v (freeindex s) (nelems s) (allocCache s) (allocBits s) (divMul s) (allocCount s) (spanclass s) (state s) (needzero s) (elemsize s) (freeIndexForScan s).
Definition set_freeindex (v : Z) (s : mspan) : mspan :=
  mkSpan (sp_next s) (sp_prev s) (sp_list s) (startAddr s) (npages s) v (nelems s) (allocCache s) (allocBits s) (divMul s) (allocCount s) (spanclass s) (state s) (needzero s) (elemsize s) (freeIndexForScan s).
Definition set_nelems (v : Z) (s : mspan) : mspan :=
  mkSpan (sp_next s) (sp_prev s) (sp_list s) (startAddr s) (npages s) (freeindex s) v (allocCache s) (allocBits s) (divMul s) (allocCount s) (spanclass s) (state s) (needzero s) (elemsize s) (freeIndexForScan s).
Definition set_allocCache (v : Z) (s : mspan) : mspan :=
  mkSpan (sp_next s) (sp_prev s) (sp_list s) (startAddr s) (npages s) (freeindex s) (nelems s) v (allocBits s) (divMul s) (allocCount s) (spanclass s) (state s) (needzero s) (elemsize s) (freeIndexForScan s).
Definition set_allocBits (v : Z) (s : mspan) : mspan :=
  mkSpan (sp_next s) (sp_prev s) (sp_list s) (startAddr s) (npages s) (freeindex s) (nelems s) (allocCache s) v (divMul s) (allocCount s) (spanclass s) (state s) (needzero s) (elemsize s) (freeIndexForScan s).
Definition set_divMul (v : Z) (s : mspan) : mspan :=
  mkSpan (sp_next s) (sp_prev s) (sp_list s) (startAddr s) (npages s) (freeindex s) (nelems s) (allocCache s) (allocBits s) v (allocCount s) (spanclass s) (state s) (needzero s) (elemsize s) (freeIndexForScan s).
Definition set_allocCount (v : Z) (s : mspan) : mspan :=
  mkSpan (sp_next s) (sp_prev s) (sp_list s) (startAddr s) (npages s) (freeindex s) (nelems s) (allocCache s) (allocBits s) (divMul s) v (spanclass s) (state s) (needzero s) (elemsize s) (freeIndexForScan s).
Definition set_spanclass (v : Z) (s : mspan) : mspan :=
  mkSpan (sp_next s) (sp_prev s) (sp_list s) (startAddr s) (npages s) (freeindex s) (nelems s) (allocCache s) (allocBits s) (divMul s) (allocCount s) v (state s) (needzero s) (elemsize s) (freeIndexForScan s).
Definition set_state (v : Z) (s : mspan) : mspan :=
  mkSpan (sp_next s) (sp_prev s) (sp_list s) (startAddr s) (npages s) (freeindex s) (nelems s) (allocCache s) (allocBits s) (divMul s) (allocCount s) (spanclass s) v (needzero s) (elemsize s) (freeIndexForScan s).
Definition set_needzero (v : Z) (s : mspan) : mspan :=
  mkSpan (sp_next s) (sp_prev s) (sp_list s) (startAddr s) (npages s) (freeindex s) (nelems s) (allocCache s) (allocBits s) (divMul s) (allocCount s) (spanclass s) (state s) v (elemsize s) (freeIndexForScan s).
Definition set_elemsize (v : Z) (s : mspan) : mspan :=
  mkSpan (sp_next s) (sp_prev s) (sp_list s) (startAddr s) (npages s) (freeindex s) (nelems s) (allocCache s) (allocBits s) (divMul s) (allocCount s) (spanclass s) (state s) (needzero s) v (freeIndexForScan s).
Definition set_freeIndexForScan (v : Z) (s : mspan) : mspan :=
  mkSpan (sp_next s) (sp_prev s) (sp_list s) (startAddr s) (npages s) (freeindex s) (nelems s) (allocCache s) (allocBits s) (divMul s) (allocCount s) (spanclass s) (state s) (needzero s) (elemsize s) v.

(** [s.state.set] and [s.state.get] *)
Definition state_set (v : mSpanState) (s : mspan) : mspan := set_state (span_state_code v) s.
Definition state_get (s : mspan) : Z := state s.

(** [span.init(base, npages)] *)
Definition span_init (base npages : Z) (s : mspan) : mspan :=
  set_allocBits 0 (set_freeindex 0 (set_needzero 0 (set_elemsize 0 (set_spanclass 0 (set_allocCount 0
    (set_npages npages (set_startAddr base (set_sp_list 0 (set_sp_prev 0 (set_sp_next 0 s)))))))))).

(** ** Atomic accesses *)

Section Atomic.
Context {K : Type} `{!Kernel K}.
#[local] Abbreviation M := (stateful (heap K) Empty_set).

(** What the other threads do before the accesses to come, and memory. *)
Abbreviation shared := (list (heap K -> heap K) * heap K)%type.
#[local] Abbreviation P := (stateful shared Empty_set).

Definition interrupt : P unit :=
  fun s => match fst s with [] => (Ok tt, s) | f :: others => (Ok tt, (others, f (snd s))) end.
Definition mem {A} (m : M A) : P A := fun s => let '(r, h) := m (snd s) in (r, (fst s, h)).

Definition Loaduintptr (a : Z) : P Z := interrupt ;;; mem (load_word a).
Definition StorepNoWB (a v : Z) : P unit := interrupt ;;; mem (store_word a v).
Definition Xadduintptr (a d : Z) : P Z :=
  interrupt ;;;
  let* v := mem (load_word a) in
  mem (store_word a (u64 (v + d))) ;;;
  st_ret (u64 (v + d)).
Definition Casuintptr (a old new : Z) : P bool :=
  interrupt ;;;
  let* v := mem (load_word a) in
  if v =? old then mem (store_word a new) ;;; st_ret true else st_ret false.

(** ** [allocNeedsZero] *)

(** [h.arenas[0]]: nil, or the addresses of the arenas' metadata, whose only
    field is [zeroedBase]. *)
Variable arenas : option (gmap Z Z).

Definition arena_of (ai : Z) : P Z :=
  match arenas with
  | None => st_lift (Panic nil_deref)
  | Some l2 =>
      if Z.shiftl 1 arenaL2Bits <=? arena_l2 ai then st_lift (Panic out_of_range)
      else match l2 !! arena_l2 ai with Some a => st_ret a | None => st_lift (Panic nil_deref) end
  end.

(** The loop that raises [zeroedBase] to [arenaLimit]. *)
Fixpoint raise_zeroed (fuel : nat) (ha arenaBase arenaLimit zeroedBase : Z) : P unit :=
  if zeroedBase <? arenaLimit then
    match fuel with
    | O => st_lift NoFuel
    | S fuel =>
        let* swapped := Casuintptr ha zeroedBase arenaLimit in
        if swapped : bool then st_ret tt
        else
          let* zeroedBase := Loaduintptr ha in
          if (zeroedBase <=? arenaLimit) && (arenaBase <? zeroedBase)
          then st_lift (Panic "potentially overlapping in-use allocations detected")
          else raise_zeroed fuel ha arenaBase arenaLimit zeroedBase
    end
  else st_ret tt.

(** The loop over the arenas of the range. *)
Fixpoint needs_zero (fuel : nat) (base npage : Z) (needZero : bool) : P bool :=
  if 0 <? npage then
    match fuel with
    | O => st_lift NoFuel
    | S fuel =>
        let* ha := arena_of (arenaIndex base) in
        let* zeroedBase := Loaduintptr ha in
        let arenaBase := base mod heapArenaBytes in
        let needZero := if arenaBase <? zeroedBase then true else needZero in
        let arenaLimit := u64 (arenaBase + npage * pageSize) in
        let arenaLimit := if heapArenaBytes <? arenaLimit then heapArenaBytes else arenaLimit in
        let* s := st_get in
        raise_zeroed (S (length (fst s))) ha arenaBase arenaLimit zeroedBase ;;;
        let n := u64 (arenaLimit - arenaBase) in
        needs_zero fuel (u64 (base + n)) (u64 (npage - n / pageSize)) needZero
    end
  else st_ret needZero.

Definition allocNeedsZero (base npage : Z) : P bool := needs_zero (Z.to_nat npage) base npage false.

End Atomic.
