(* ===== verification/NeedsZero.v ===== *)
(** * Which memory needs zeroing

    [allocNeedsZero] while other threads do the same for other ranges: it says
    that memory needs no zeroing only when it was never handed out, and raises
    [zeroedBase] of every arena above the range. *)
From S2P Require Import Prelude Slice AddrRanges Regions OsMem OffHeap PersistentProps PageAlloc PageTree Spans.

Local Open Scope Z_scope.
Local Open Scope go_scope.

Section NeedsZero.
Context {K : Type} `{!Kernel K}.
Abbreviation arenaBytes := (2 ^ 26).

Context (l2 : gmap Z Z) (B E : Z) (HB : 0 <= B < E) (HE : E <= 2 ^ 48) (HBal : B mod 8192 = 0) (HEal : E mod 8192 = 0).

(** The arenas of the bytes [B, E) of the offset address space, and the part of
    the range in each. *)
Definition in_range (ai : Z) : Prop := B / arenaBytes <= ai <= (E - 1) / arenaBytes.
Definition lo (ai : Z) : Z := Z.max 0 (B - ai * arenaBytes).
Definition hi (ai : Z) : Z := Z.min arenaBytes (E - ai * arenaBytes).
Definition meta (ai : Z) : Z := default 0 (l2 !! ai).
Definition zeroed_base (h : heap K) (ai : Z) : Z := default 0 (words h !! meta ai).

(** Every arena of the range has its metadata in memory of its own. *)
Definition metadata_ok (h : heap K) : Prop :=
  forall ai, in_range ai -> (exists a, l2 !! ai = Some a) /\ mapped_rw h (meta ai, 8) /\ 0 <= zeroed_base h ai <= arenaBytes /\
    forall aj, in_range aj -> meta aj = meta ai -> aj = ai.

(** What another thread may do: unmap nothing, and raise [zeroedBase] to the end
    of a range that does not meet the part in that arena. *)
Definition other_range (h h' : heap K) : Prop :=
  (forall r, mapped_rw h r -> mapped_rw h' r) /\
  forall ai, in_range ai -> zeroed_base h' ai = zeroed_base h ai \/
    zeroed_base h ai <= zeroed_base h' ai <= arenaBytes /\ ~ (lo ai < zeroed_base h' ai <= hi ai).
Definition others_ok (e : list (heap K -> heap K)) : Prop := Forall (fun f => forall h, metadata_ok h -> other_range h (f h)) e.

(** [zeroedBase] only grows. *)
Definition grows (h h' : heap K) : Prop := forall ai, in_range ai -> zeroed_base h ai <= zeroed_base h' ai.

Lemma grows_refl h : grows h h.
Proof. intros ai _. lia. Qed.
Lemma grows_trans h1 h2 h3 : grows h1 h2 -> grows h2 h3 -> grows h1 h3.
Proof. intros H1 H2 ai Hai. specialize (H1 ai Hai). specialize (H2 ai Hai). lia. Qed.

Lemma other_ok h h' : metadata_ok h -> other_range h h' -> metadata_ok h' /\ grows h h'.
Proof.
  intros Hm [Hmap Hz]. split.
  - intros ai Hai. destruct (Hm ai Hai) as (Ha & Hrw & Hr & Hinj). split; [done|]. split; [by apply Hmap|]. split; [|done].
    destruct (Hz ai Hai) as [->|[? _]]; lia.
  - intros ai Hai. destruct (Hz ai Hai); lia.
Qed.

Lemma lo_hi ai : in_range ai -> 0 <= lo ai < hi ai /\ hi ai <= arenaBytes.
Proof. unfold in_range, lo, hi. intros Hai. clear HBal HEal HE. split; zdiv_lia. Qed.

(** ** Accesses *)

Lemma interrupt_ok e h : metadata_ok h -> others_ok e ->
  exists e' h', interrupt (e, h) = (Ok tt, (e', h')) /\ metadata_ok h' /\ others_ok e' /\ grows h h' /\
    (e = [] /\ e' = [] /\ h' = h \/ length e = S (length e') /\ other_range h h').
Proof.
  intros Hm He. destruct e as [|f e]; cbn [interrupt fst snd].
  - exists [], h. split_and!; try done; [apply grows_refl|by left].
  - apply Forall_cons_iff in He as [Hf He]. specialize (Hf h Hm). exists e, (f h). destruct (other_ok h (f h) Hm Hf) as [Hm' Hg]. split_and!; try done. by right.
Qed.

Lemma load_meta ai e h : metadata_ok h -> in_range ai -> mem (load_word (meta ai)) (e, h) = (Ok (zeroed_base h ai), (e, h)).
Proof. intros Hm Hai. unfold mem. cbn [snd fst]. rewrite load_word_ok by apply (Hm ai Hai). done. Qed.

Definition raised (ai v : Z) (h : heap K) : heap K := set_words (<[meta ai := v]> (words h)) h.

Lemma store_meta ai v e h : metadata_ok h -> in_range ai -> mem (store_word (meta ai) v) (e, h) = (Ok tt, (e, raised ai v h)).
Proof. intros Hm Hai. unfold mem. cbn [snd fst]. rewrite store_word_ok by apply (Hm ai Hai). done. Qed.

Lemma zeroed_raised ai v h aj : metadata_ok h -> in_range ai -> in_range aj ->
  zeroed_base (raised ai v h) aj = if decide (aj = ai) then v else zeroed_base h aj.
Proof.
  intros Hm Hai Haj. unfold zeroed_base, raised. cbn [words set_words]. case_decide as Hd; [subst; by rewrite lookup_insert_eq|].
  rewrite lookup_insert_ne; [done|]. intros Heq. apply Hd. by apply (Hm ai Hai).
Qed.

Lemma raised_ok ai v h : metadata_ok h -> in_range ai -> zeroed_base h ai <= v <= arenaBytes ->
  metadata_ok (raised ai v h) /\ grows h (raised ai v h).
Proof.
  intros Hm Hai Hv. split.
  - intros aj Haj. destruct (Hm aj Haj) as (Ha & Hrw & Hr & Hinj). split; [done|]. split; [exact Hrw|]. split; [|done].
    rewrite zeroed_raised by done. case_decide; [|done]. pose proof (Hm ai Hai) as (_ & _ & ? & _). lia.
  - intros aj Haj. rewrite zeroed_raised by done. case_decide; [subst|]; lia.
Qed.

(** ** The loop that raises [zeroedBase] *)

Lemma raise_ok fuel : forall ai e h, in_range ai -> metadata_ok h -> others_ok e -> (length e < fuel)%nat ->
  exists e' h', raise_zeroed fuel (meta ai) (lo ai) (hi ai) (zeroed_base h ai) (e, h) = (Ok tt, (e', h')) /\
    metadata_ok h' /\ others_ok e' /\ grows h h' /\ hi ai <= zeroed_base h' ai /\
    (e = [] -> e' = [] /\ forall aj, in_range aj -> aj <> ai -> zeroed_base h' aj = zeroed_base h aj).
Proof.
  induction fuel as [|fuel IH]; intros ai e h Hai Hm He Hlen; [lia|]. cbn [raise_zeroed].
  destruct (Z.ltb_spec (zeroed_base h ai) (hi ai)) as [Hlt|Hge].
  2: { exists e, h. split_and!; try done. apply grows_refl. }
  unfold Casuintptr. destruct (interrupt_ok e h Hm He) as (e1 & h1 & E1 & Hm1 & He1 & Hg1 & Hstep1).
  rewrite <- !bind_bind. step_with E1. rewrite <- !bind_bind. rewrite (bind_ok _ _ _ _ _ (load_meta ai e1 h1 Hm1 Hai)). cbv beta.
  destruct (Z.eqb_spec (zeroed_base h1 ai) (zeroed_base h ai)) as [Eq|Hne].
  - rewrite <- !bind_bind. rewrite (bind_ok _ _ _ _ _ (store_meta ai (hi ai) e1 h1 Hm1 Hai)). cbv beta. step.
    destruct (lo_hi ai Hai) as [Hlo Hhi]. destruct (raised_ok ai (hi ai) h1 Hm1 Hai ltac:(lia)) as [Hm2 Hg2].
    exists e1, (raised ai (hi ai) h1). split_and!; try done.
    + by eapply grows_trans.
    + rewrite zeroed_raised by done. by rewrite decide_True.
    + intros ->. destruct Hstep1 as [(_ & -> & ->)|[? _]]; [|done]. split; [done|]. intros aj Haj Hd. rewrite zeroed_raised by done. by rewrite decide_False.
  - step. destruct Hstep1 as [(_ & _ & ->)|[Hl1 Ho1]]; [done|]. unfold Loaduintptr.
    destruct (interrupt_ok e1 h1 Hm1 He1) as (e2 & h2 & E2 & Hm2 & He2 & Hg2 & Hstep2).
    rewrite <- !bind_bind. step_with E2. rewrite (bind_ok _ _ _ _ _ (load_meta ai e2 h2 Hm2 Hai)). cbv beta.
    assert (~ (lo ai < zeroed_base h2 ai <= hi ai)) as Hout.
    { destruct Ho1 as [_ Ho1]. destruct (Ho1 ai Hai) as [?|[_ Hout1]]; [lia|]. destruct Hstep2 as [(_ & _ & ->)|[_ [_ Ho2]]]; [done|].
      destruct (Ho2 ai Hai) as [->|[_ ?]]; done. }
    assert ((zeroed_base h2 ai <=? hi ai) && (lo ai <? zeroed_base h2 ai) = false) as ->.
    { apply not_true_iff_false. intros Ht. apply Hout. bool_to_Prop. lia. }
    assert (length e2 < fuel)%nat as Hlen2 by (destruct Hstep2 as [(-> & -> & _)|[? _]]; cbn in *; lia).
    destruct (IH ai e2 h2 Hai Hm2 He2 Hlen2) as (e3 & h3 & E3 & Hm3 & He3 & Hg3 & Hhi & _). exists e3, h3. split_and!; try done.
    + eapply grows_trans; [exact Hg1|]. by eapply grows_trans.
    + intros ->. done.
Qed.

(** ** The loop over the arenas *)

(** The arenas whose part of the range starts at or after [p]. *)
Definition rest (p ai : Z) : Prop := in_range ai /\ p <= Z.max B (ai * arenaBytes).

(** A position the loop reaches, with [npage] pages to go. *)
Definition at_pos (p npage : Z) : Prop := B <= p /\ p + npage * 8192 = E /\ 0 <= npage /\ (p = B \/ p mod arenaBytes = 0 \/ npage = 0).

Lemma at_step p npage : at_pos p npage -> 0 < npage -> let ai := p / arenaBytes in let n := hi ai - lo ai in
  in_range ai /\ lo ai = p mod arenaBytes /\ hi ai = Z.min arenaBytes (p mod arenaBytes + npage * 8192) /\
  0 < n <= arenaBytes /\ 1 <= n / 8192 <= npage /\ at_pos (p + n) (npage - n / 8192) /\
  (forall aj, rest p aj <-> aj = ai \/ rest (p + n) aj).
Proof.
  intros (Hp & Hend & Hn & Hal) Hpos ai n. assert (in_range ai) as Hin by (unfold in_range, ai; clear - Hp Hend Hpos; split; zdiv_lia).
  assert (lo ai = p mod arenaBytes) as Hlo.
  { unfold lo, ai. destruct Hal as [->|[Hm|?]]; [clear - HB; zdiv_lia|clear - HB Hp Hm; zdiv_lia|lia]. }
  assert (hi ai = Z.min arenaBytes (p mod arenaBytes + npage * 8192)) as Hhi.
  { unfold hi, ai. f_equal. clear - Hend. zdiv_lia. }
  destruct (lo_hi ai Hin) as [Hlh Hle]. assert (n mod 8192 = 0) as Hn8.
  { unfold n. rewrite Hlo, Hhi. assert (p mod 8192 = 0) by (clear - Hend HEal; zdiv_lia). clear - H. zdiv_lia. }
  assert (1 <= n / 8192 <= npage) as Hn1 by (unfold n in *; rewrite Hlo, Hhi in *; clear - Hn8 Hlh Hpos; zdiv_lia).
  assert (0 < n <= arenaBytes) as Hn2 by (unfold n; lia).
  do 5 (split; [done|]). split.
  - unfold at_pos. split_and!; [unfold n; lia|clear - Hend Hn8; zdiv_lia|lia|].
    destruct (Z.min_spec arenaBytes (p mod arenaBytes + npage * 8192)) as [[_ E1]|[_ E1]]; rewrite E1 in Hhi; unfold n; rewrite Hhi, Hlo.
    + right. left. clear. zdiv_lia.
    + right. right. replace (p mod arenaBytes + npage * 8192 - p mod arenaBytes) with (npage * 8192) by lia. rewrite Z.div_mul by lia. lia.
  - assert (p = ai * arenaBytes + lo ai) as Hsplit by (rewrite Hlo; unfold ai; clear; zdiv_lia).
    intros aj. unfold rest. split.
    + intros [Hj Hpj]. destruct (Z.lt_trichotomy aj ai) as [Hlt|[->|Hgt]]; [|by left|].
      * exfalso. assert (p = B) as -> by lia. destruct Hj as [Hj _]. unfold ai in Hlt. lia.
      * right. split; [done|]. unfold n. lia.
    + intros [->|[Hj Hpj]]; [|split; [done|lia]]. split; [done|]. destruct Hal as [->|[Hm|?]]; [lia| |lia]. rewrite <- Hlo in Hm. lia.
Qed.

Lemma arena_of_ok base e h : metadata_ok h -> in_range (arenaIndex base) -> arena_of (Some l2) (arenaIndex base) (e, h) = (Ok (meta (arenaIndex base)), (e, h)).
Proof.
  intros Hm Hai. unfold arena_of. change (arena_l2 (arenaIndex base)) with (arenaIndex base). change (Z.shiftl 1 arenaL2Bits) with (2 ^ 22).
  rewrite (proj2 (Z.leb_gt _ _)) by (clear - Hai HE HB; unfold in_range in Hai; zdiv_lia).
  destruct (Hm _ Hai) as ([a Ha] & _). unfold meta. by rewrite Ha.
Qed.

Lemma mod_pos_arena base : base mod heapArenaBytes = pos base mod arenaBytes.
Proof.
  unfold pos, u64. change heapArenaBytes with arenaBytes. rewrite (mod_pow2_mod_pow2 _ 64 26) by lia. rewrite Zminus_mod.
  change (arenaBaseOffset mod arenaBytes) with 0. by rewrite Z.sub_0_r, Z.mod_mod.
Qed.

(** What the loop has done when it returns [b]. *)
Definition zeroed_outcome (p : Z) (need : bool) (h : heap K) (e e' : list (heap K -> heap K)) (h' : heap K) (b : bool) : Prop :=
  metadata_ok h' /\ others_ok e' /\ grows h h' /\
  (forall ai, rest p ai -> hi ai <= zeroed_base h' ai) /\
  (b = false -> need = false /\ forall ai, rest p ai -> zeroed_base h ai <= lo ai) /\
  (e = [] -> b = true -> need = true \/ exists ai, rest p ai /\ lo ai < zeroed_base h ai).

Lemma needs_zero_ok fuel : forall base npage need e h, at_pos (pos base) npage -> npage <= Z.of_nat fuel -> metadata_ok h -> others_ok e ->
  exists b e' h', needs_zero (Some l2) fuel base npage need (e, h) = (Ok b, (e', h')) /\ zeroed_outcome (pos base) need h e e' h' b.
Proof.
  induction fuel as [|fuel IH]; intros base npage need e h Hp Hf Hm He; cbn [needs_zero].
  all: destruct (Z.ltb_spec 0 npage) as [Hpos|Hz]; [try lia|].
  1,3: exists need, e, h; split; [done|]; assert (forall ai, ~ rest (pos base) ai) as Hno
    by (intros ai [Hai Hr]; destruct Hp as (_ & Hend & _); destruct (lo_hi ai Hai) as [Hlh _]; unfold lo, hi in Hlh; lia);
    unfold zeroed_outcome; split_and!; try done; [apply grows_refl|intros ai Hai; by destruct (Hno ai)|intros; split; [done|intros ai Hai; by destruct (Hno ai)]|by left].
  destruct (at_step _ _ Hp Hpos) as (Hai & Hlo & Hhi & Hn & Hn8 & Hnext & Hrest). change (pos base / arenaBytes) with (arenaIndex base) in *.
  set (ai := arenaIndex base) in *. destruct (lo_hi ai Hai) as [Hlh Hle].
  rewrite (bind_ok _ _ _ _ _ (arena_of_ok base e h Hm Hai)). unfold Loaduintptr.
  destruct (interrupt_ok e h Hm He) as (e1 & h1 & E1 & Hm1 & He1 & Hg1 & Hstep1). rewrite <- bind_bind. step_with E1.
  rewrite (bind_ok _ _ _ _ _ (load_meta ai e1 h1 Hm1 Hai)). rewrite mod_pos_arena, <- Hlo.
  assert ((if heapArenaBytes <? u64 (lo ai + npage * pageSize) then heapArenaBytes else u64 (lo ai + npage * pageSize)) = hi ai) as ->.
  { change heapArenaBytes with arenaBytes. change pageSize with 8192. destruct Hp as (Hpb & Hend & _). pose proof (Z.mod_pos_bound (pos base) arenaBytes ltac:(lia)).
    rewrite u64_small by lia. rewrite Hhi, Hlo. destruct (Z.ltb_spec arenaBytes (pos base mod arenaBytes + npage * 8192)); lia. }
  unfold st_get. step. destruct (raise_ok (S (length e1)) ai e1 h1 Hai Hm1 He1 ltac:(lia)) as (e2 & h2 & E2 & Hm2 & He2 & Hg2 & Hhi2 & Hquiet).
  step_with E2. rewrite (u64_small (hi ai - lo ai)) by lia. change (_ / pageSize) with ((hi ai - lo ai) / 8192). rewrite (u64_small (npage - _)) by (destruct Hp; lia).
  assert (pos (u64 (base + (hi ai - lo ai))) = pos base + (hi ai - lo ai)) as Epos.
  { destruct Hp as (_ & Hend & _). apply pos_add; [lia|]. clear - Hend Hn8 Hn HE Hnext. destruct Hnext as (_ & H & ? & _). lia. }
  rewrite <- Epos in Hnext, Hrest.
  destruct (IH _ _ (if lo ai <? zeroed_base h1 ai then true else need) e2 h2 Hnext ltac:(lia) Hm2 He2) as (b & e3 & h3 & E3 & Hm3 & He3 & Hg3 & Hhi3 & Hfalse & Htrue).
  exists b, e3, h3. split; [exact E3|]. unfold zeroed_outcome. split_and!; try done.
  - eapply grows_trans; [exact Hg1|]. by eapply grows_trans.
  - intros aj Haj. apply Hrest in Haj as [->|Haj]; [|by apply Hhi3]. specialize (Hg3 ai Hai). lia.
  - intros ->. destruct (Hfalse eq_refl) as [Hneed Hall]. destruct (Z.ltb_spec (lo ai) (zeroed_base h1 ai)); [done|]. split; [done|].
    intros aj Haj. apply Hrest in Haj as [->|Haj]; [specialize (Hg1 ai Hai); lia|]. specialize (Hall aj Haj). destruct Haj as [Haj _].
    specialize (Hg1 aj Haj). specialize (Hg2 aj Haj). lia.
  - intros -> ->. destruct Hstep1 as [(_ & -> & ->)|[? _]]; [|done]. destruct (Hquiet eq_refl) as [-> Hsame].
    destruct (Htrue eq_refl eq_refl) as [Hneed|(aj & Haj & Hlt)].
    + destruct (Z.ltb_spec (lo ai) (zeroed_base h ai)); [|by left]. right. exists ai. split; [|done]. apply Hrest. by left.
    + right. exists aj. split; [apply Hrest; by right|]. destruct (decide (aj = ai)) as [->|]; [|by rewrite <- Hsame by (apply Haj || done)].
      exfalso. destruct Haj as [_ Haj]. rewrite Epos in Haj. destruct Hp as (Hpb & _).
      assert (ai * arenaBytes <= pos base) by (unfold ai, arenaIndex; fold (pos base); clear; zdiv_lia). lia.
Qed.

End NeedsZero.

(** C22: when new memory need not be cleared.  While other threads raise
    [zeroedBase] for ranges that do not meet this one, [allocNeedsZero] returns;
    every arena's [zeroedBase] then lies above the part of the range in it and
    none went down; and the answer [false] means that all of the range lay above
    [zeroedBase], that is, was never handed out.  Without other threads the
    answer is exact. *)
Theorem allocNeedsZero_fresh {K : Type} `{!Kernel K} (l2 : gmap Z Z) (base npage : Z) (e : list (heap K -> heap K)) (h : heap K) :
  let B := pos base in let E := pos base + npage * pageSize in
  1 <= npage -> E <= 2 ^ 48 -> base mod pageSize = 0 -> metadata_ok l2 B E h -> others_ok l2 B E e ->
  exists b e' h', allocNeedsZero (Some l2) base npage (e, h) = (Ok b, (e', h')) /\
    (forall ai, in_range B E ai -> zeroed_base l2 h ai <= zeroed_base l2 h' ai /\ hi E ai <= zeroed_base l2 h' ai) /\
    (b = false -> forall ai, in_range B E ai -> zeroed_base l2 h ai <= lo B ai) /\
    (e = [] -> b = true <-> exists ai, in_range B E ai /\ lo B ai < zeroed_base l2 h ai).
Proof.
  cbv zeta. change pageSize with 8192. intros Hn HE Hal Hm He. pose proof (u64_range (base - arenaBaseOffset)) as Hr. fold (pos base) in Hr.
  assert (pos base mod 8192 = 0) as HB.
  { unfold pos, u64. change 8192 with (2 ^ 13). rewrite (mod_pow2_mod_pow2 _ 64 13) by lia. rewrite Zminus_mod. change (2 ^ 13) with 8192. by rewrite Hal. }
  destruct (needs_zero_ok l2 (pos base) (pos base + npage * 8192) ltac:(lia) HE ltac:(clear - HB; zdiv_lia) (Z.to_nat npage) base npage false e h)
    as (b & e' & h' & Hrun & _ & _ & Hg & Hhi & Hfalse & Htrue); [|lia|done|done|].
  { unfold at_pos. split_and!; [lia|lia|lia|by left]. }
  assert (forall ai, in_range (pos base) (pos base + npage * 8192) ai -> rest (pos base) (pos base + npage * 8192) (pos base) ai) as Hall by (intros ai Hai; split; [done|lia]).
  exists b, e', h'. split_and!; [exact Hrun| | |].
  - intros ai Hai. split; [by apply Hg|by apply Hhi, Hall].
  - intros Hb ai Hai. by apply Hfalse, Hall.
  - intros He0. split.
    + intros Hb. destruct (Htrue He0 Hb) as [?|(ai & [Hai _] & Hlt)]; [done|]. by exists ai.
    + intros (ai & Hai & Hlt). destruct b; [done|]. destruct (Hfalse eq_refl) as [_ Hle]. specialize (Hle ai (Hall ai Hai)). lia.
Qed.

(** The last page of one arena, which was in use before, and the first of the
    next; another thread takes pages further up in the second arena. *)
Definition two_arenas : gmap Z Z := {[ arenaIndex 0xc000000000 := 4096; arenaIndex 0xc000000000 + 1 := 4104 ]}.
Definition metadata_heap : heap space := set_words {[ 4096 := 2 ^ 26 ]} (set_kern [(4096, 4096, Some PROT_RW)] (heap_init true)).
Definition other_thread (h : heap space) : heap space := set_words (<[4104 := Z.max 16384 (default 0 (words h !! 4104))]> (words h)) h.

Lemma two_arenas_range ai : in_range (pos (0xc000000000 + 2 ^ 26 - 8192)) (pos (0xc000000000 + 2 ^ 26 - 8192) + 2 * 8192) ai ->
  ai = arenaIndex 0xc000000000 \/ ai = arenaIndex 0xc000000000 + 1.
Proof.
  unfold in_range. change (pos (0xc000000000 + 2 ^ 26 - 8192)) with (arenaIndex 0xc000000000 * 2 ^ 26 + 2 ^ 26 - 8192).
  generalize (arenaIndex 0xc000000000). intros a Ha. clear - Ha. zdiv_lia.
Qed.

Lemma metadata_heap_ok : metadata_ok two_arenas (pos (0xc000000000 + 2 ^ 26 - 8192)) (pos (0xc000000000 + 2 ^ 26 - 8192) + 2 * 8192) metadata_heap.
Proof.
  intros ai Hai. apply two_arenas_range in Hai.
  assert (forall a, a = 4096 \/ a = 4104 -> mapped_rw metadata_heap (a, 8)) as Hmap.
  { intros a Ha x Hx. unfold inside in Hx. cbn [fst snd] in Hx. change (space_mapping [(4096, 4096, Some PROT_RW)] x = Some PROT_RW). cbn [space_mapping].
    change (4096 + 4096) with 8192. destruct (Z.leb_spec 4096 x), (Z.ltb_spec x 8192); try lia; done. }
  split_and!.
  - destruct Hai as [-> | ->]; by eexists.
  - destruct Hai as [-> | ->]; apply Hmap; by vm_compute; auto.
  - by destruct Hai as [-> | ->]; vm_compute.
  - by destruct Hai as [-> | ->]; vm_compute.
  - intros aj Haj Heq. apply two_arenas_range in Haj. destruct Hai as [-> | ->], Haj as [-> | ->]; try done; by vm_compute in Heq.
Qed.

Lemma other_thread_ok : others_ok two_arenas (pos (0xc000000000 + 2 ^ 26 - 8192)) (pos (0xc000000000 + 2 ^ 26 - 8192) + 2 * 8192) [other_thread].
Proof.
  apply Forall_singleton. intros h Hm. split; [done|]. intros ai Hai. destruct (Hm ai Hai) as (_ & _ & Hz & _). apply two_arenas_range in Hai.
  unfold zeroed_base, other_thread in *. cbn [words set_words]. destruct Hai as [-> | ->].
  - left. by rewrite lookup_insert_ne.
  - change (meta two_arenas (arenaIndex 824633720832 + 1)) with 4104 in *. rewrite lookup_insert_eq. cbn [default]. unfold id in *. set (v := from_option _ 0 _) in *. right.
    change (hi (pos (824633720832 + 2 ^ 26 - 8192) + 2 * 8192) (arenaIndex 824633720832 + 1)) with 8192. change (2 ^ 26) with 67108864 in *. lia.
Qed.

Lemma allocNeedsZero_fresh_witness :
  exists b e' h', allocNeedsZero (Some two_arenas) (0xc000000000 + 2 ^ 26 - 8192) 2 ([other_thread], metadata_heap) = (Ok b, (e', h')) /\
    8192 <= zeroed_base two_arenas h' (arenaIndex 0xc000000000 + 1).
Proof.
  destruct (allocNeedsZero_fresh two_arenas (0xc000000000 + 2 ^ 26 - 8192) 2 [other_thread] metadata_heap) as (b & e' & h' & H & Hz & _).
  - lia.
  - by vm_compute.
  - by vm_compute.
  - exact metadata_heap_ok.
  - exact other_thread_ok.
  - exists b, e', h'. split; [exact H|]. apply (Hz (arenaIndex 0xc000000000 + 1)). by vm_compute.
Defined.
