(* ===== verification/GcBits.v ===== *)
(** * Mark and allocation bits

    The arenas of bitmaps of [mheap.go]: [tryAlloc], which needs no lock, and
    [newMarkBits].  An arena is 64 KB of memory: the counter [free], the link
    [next], and the bits.  [gcBitsArenas] is a struct at a fixed address. *)
From S2P Require Import Prelude Slice AddrRanges Regions OsMem OffHeap PersistentProps FixallocProps PageAlloc Spans.

Local Open Scope Z_scope.
Local Open Scope go_scope.

Definition gcBitsChunkBytes : Z := Z.shiftl 64 10.
Definition gcBitsHeaderBytes : Z := 16.
(** [len(b.bits)] *)
Definition gcBitsLen : Z := gcBitsChunkBytes - gcBitsHeaderBytes.

(** [gcBits]: the address of the byte of bit [n], and its mask in that byte. *)
Definition addb (p n : Z) : Z := u64 (p + n).
Definition bytep (b n : Z) : Z := addb b n.
Definition bitp (b n : Z) : Z * Z := (bytep b (n / 8), u8 (Z.shiftl 1 (n mod 8))).

Section GcBits.
Context {K : Type} `{!Kernel K}.
#[local] Abbreviation P := (stateful (list (heap K -> heap K) * heap K) Empty_set).

(** The address of [gcBitsArenas]: a lock and four pointers. *)
Variable gcBitsArenas : Z.
Definition arenas_free : Z := gcBitsArenas + 8.
Definition arenas_next : Z := gcBitsArenas + 16.

(** Fields of an arena. *)
Definition b_free (b : Z) : Z := b.
Definition b_next (b : Z) : Z := b + 8.
Definition b_bits (b start : Z) : Z := b + gcBitsHeaderBytes + start.

Definition tryAlloc (b bytes : Z) : P Z :=
  if b =? 0 then st_ret 0
  else
    let* free := Loaduintptr (b_free b) in
    if gcBitsLen <? u64 (free + bytes) then st_ret 0
    else
      let* end_ := Xadduintptr (b_free b) bytes in
      if gcBitsLen <? end_ then st_ret 0
      else
        let start := u64 (end_ - bytes) in
        if gcBitsLen <=? start then st_lift (Panic out_of_range) else st_ret (b_bits b start).

(** The field [bits] is at offset 16, so the counter starts at zero. *)
Definition newArenaMayUnlock : P Z :=
  let* free := mem (load_word arenas_free) in
  let* result :=
    (if free =? 0 then
       let* result := mem (sysAlloc gcBitsChunkBytes None) in
       if result =? 0 then mem (throw "runtime: cannot allocate memory") else st_ret result
     else
       let* next := mem (load_word (b_next free)) in
       mem (store_word arenas_free next) ;;;
       mem (memclrNoHeapPointers free gcBitsChunkBytes) ;;;
       st_ret free) in
  mem (store_word (b_next result) 0) ;;;
  mem (store_word (b_free result) 0) ;;;
  st_ret result.

Definition newMarkBits (nelems : Z) : P Z :=
  let bytesNeeded := u64 (u64 (nelems + 63) / 64 * 8) in
  let* head := Loaduintptr arenas_next in
  let* p := tryAlloc head bytesNeeded in
  if negb (p =? 0) then st_ret p
  else
    let* next := mem (load_word arenas_next) in
    let* p := tryAlloc next bytesNeeded in
    if negb (p =? 0) then st_ret p
    else
      let* fresh := newArenaMayUnlock in
      let* next := mem (load_word arenas_next) in
      let* p := tryAlloc next bytesNeeded in
      if negb (p =? 0) then
        let* free := mem (load_word arenas_free) in
        mem (store_word (b_next fresh) free) ;;;
        mem (store_word arenas_free fresh) ;;;
        st_ret p
      else
        let* p := tryAlloc fresh bytesNeeded in
        if p =? 0 then mem (throw "markBits overflow")
        else
          let* next := mem (load_word arenas_next) in
          mem (store_word (b_next fresh) next) ;;;
          StorepNoWB arenas_next fresh ;;;
          st_ret p.

Definition newAllocBits (nelems : Z) : P Z := newMarkBits nelems.

(** ** [tryAlloc] *)

Section TryAlloc.
Context (b : Z) (Hb : 0 < b) (Hbmax : b + gcBitsChunkBytes < 2 ^ 63).

Definition counter (h : heap K) : Z := default 0 (words h !! b_free b).

(** The arena is in memory, and its bits from the counter on are zero. *)
Definition arena_ok (h : heap K) : Prop :=
  mapped_rw h (b, gcBitsChunkBytes) /\ 0 <= counter h < 2 ^ 62 /\
  forall x, b_bits b (counter h) <= x < b + gcBitsChunkBytes -> words h !! x = None.

(** Other threads unmap nothing, take bits by raising the counter (at most 2^40,
    for every one of them tested it before), and write only bits they took. *)
Definition other_bits (h h' : heap K) : Prop :=
  (forall r, mapped_rw h r -> mapped_rw h' r) /\ counter h <= counter h' <= Z.max (counter h) (2 ^ 40) /\
  forall x, b_bits b (counter h') <= x < b + gcBitsChunkBytes -> words h' !! x = words h !! x.

Lemma other_arena h h' : arena_ok h -> other_bits h h' -> arena_ok h'.
Proof.
  intros (Hm & Hc & Hz) (Hmap & Hc' & Hsame). split; [by apply Hmap|]. split; [lia|]. intros x Hx. rewrite Hsame by done. apply Hz. unfold b_bits in *. lia.
Qed.

Definition bits_others (e : list (heap K -> heap K)) : Prop := Forall (fun f => forall h, arena_ok h -> other_bits h (f h)) e.

Lemma interrupt_bits e h : arena_ok h -> bits_others e ->
  exists e' h', interrupt (e, h) = (Ok tt, (e', h')) /\ arena_ok h' /\ bits_others e' /\ counter h <= counter h' <= Z.max (counter h) (2 ^ 40) /\
    (e = [] -> e' = [] /\ h' = h).
Proof.
  intros Ha He. destruct e as [|f e]; cbn [interrupt fst snd].
  - exists [], h. split_and!; try done; lia.
  - apply Forall_cons_iff in He as [Hf He]. specialize (Hf h Ha). exists e, (f h). split_and!; try done; [by eapply other_arena|apply Hf|apply Hf].
Qed.

Definition set_counter (v : Z) (h : heap K) : heap K := set_words (<[b_free b := v]> (words h)) h.

Lemma counter_mapped h : arena_ok h -> mapped_rw h (b_free b, 8).
Proof. intros (Hm & _) x Hx. apply Hm. change gcBitsChunkBytes with 65536. unfold inside, b_free in *. cbn [fst snd] in *. lia. Qed.

Lemma load_counter e h : arena_ok h -> mem (load_word (b_free b)) (e, h) = (Ok (counter h), (e, h)).
Proof. intros Ha. unfold mem. cbn [fst snd]. by rewrite load_word_ok by by apply counter_mapped. Qed.
Lemma store_counter v e h : arena_ok h -> mem (store_word (b_free b) v) (e, h) = (Ok tt, (e, set_counter v h)).
Proof. intros Ha. unfold mem. cbn [fst snd]. by rewrite store_word_ok by by apply counter_mapped. Qed.

Lemma counter_set v h : counter (set_counter v h) = v.
Proof. unfold counter, set_counter. cbn [words set_words]. by rewrite lookup_insert_eq. Qed.

Lemma set_counter_ok v h : arena_ok h -> counter h <= v < 2 ^ 62 -> arena_ok (set_counter v h).
Proof.
  intros (Hm & Hc & Hz) Hv. split; [exact Hm|]. rewrite counter_set. split; [lia|]. intros x Hx. unfold set_counter. cbn [words set_words].
  rewrite lookup_insert_ne; [apply Hz; unfold b_bits in *; lia|]. unfold b_bits, b_free, gcBitsHeaderBytes in *. lia.
Qed.

(** What [tryAlloc] did: [p] are [bytes] bytes of zero bits above everything the
    arena had given out before, or there was no room. *)
Definition bits_taken (h h' : heap K) (bytes p : Z) : Prop :=
  exists start, p = b_bits b start /\ counter h <= start /\ start + bytes <= gcBitsLen /\ counter h' = start + bytes /\
    forall x, p <= x < p + bytes -> words h' !! x = None.

Lemma tryAlloc_ok bytes e h : 0 < bytes < 2 ^ 40 -> arena_ok h -> bits_others e ->
  exists p e' h', tryAlloc b bytes (e, h) = (Ok p, (e', h')) /\ arena_ok h' /\ bits_others e' /\
    (bits_taken h h' bytes p \/ p = 0 /\ gcBitsLen < counter h' + bytes) /\
    (e = [] -> e' = [] /\ (counter h + bytes <= gcBitsLen -> p = b_bits b (counter h) /\ h' = set_counter (counter h + bytes) h) /\
      (gcBitsLen < counter h + bytes -> p = 0 /\ h' = h)).
Proof.
  intros Hbytes Ha He. unfold tryAlloc. rewrite (proj2 (Z.eqb_neq b 0)) by lia. unfold Loaduintptr.
  destruct (interrupt_bits e h Ha He) as (e1 & h1 & E1 & Ha1 & He1 & Hc1 & Hq1). rewrite <- bind_bind. step_with E1.
  rewrite (bind_ok _ _ _ _ _ (load_counter e1 h1 Ha1)). pose proof Ha as (_ & Hc & _). pose proof Ha1 as (_ & Hr1 & _). assert (gcBitsLen = 65520) as EL by done.
  rewrite (u64_small (counter h1 + bytes)) by lia. destruct (Z.ltb_spec gcBitsLen (counter h1 + bytes)) as [Hfull|Hroom].
  { exists 0, e1, h1. split_and!; try done; [by right|]. intros E. destruct (Hq1 E) as [-> ->]. split_and!; [done|lia|done]. }
  unfold Xadduintptr. destruct (interrupt_bits e1 h1 Ha1 He1) as (e2 & h2 & E2 & Ha2 & He2 & Hc2 & Hq2). rewrite <- !bind_bind. step_with E2.
  rewrite <- !bind_bind. rewrite (bind_ok _ _ _ _ _ (load_counter e2 h2 Ha2)). pose proof Ha2 as (_ & Hr2 & Hz2). rewrite (u64_small (counter h2 + bytes)) by lia.
  rewrite <- !bind_bind. rewrite (bind_ok _ _ _ _ _ (store_counter (counter h2 + bytes) e2 h2 Ha2)). step.
  assert (arena_ok (set_counter (counter h2 + bytes) h2)) as Ha3 by (apply set_counter_ok; [done|lia]).
  destruct (Z.ltb_spec gcBitsLen (counter h2 + bytes)) as [Hlost|Hgot].
  - exists 0, e2, (set_counter (counter h2 + bytes) h2). split_and!; try done.
    + right. rewrite counter_set. split; [done|lia].
    + intros E. destruct (Hq1 E) as [-> ->]. destruct (Hq2 eq_refl) as [-> ->]. split_and!; [done|lia|lia].
  - rewrite (u64_small (_ - bytes)) by lia. replace (counter h2 + bytes - bytes) with (counter h2) by lia. rewrite (proj2 (Z.leb_gt _ _)) by lia.
    exists (b_bits b (counter h2)), e2, (set_counter (counter h2 + bytes) h2). split_and!; try done.
    + left. exists (counter h2). rewrite counter_set. split_and!; [done|lia|lia|done|]. intros x Hx. unfold set_counter. cbn [words set_words].
      unfold b_bits, b_free, gcBitsHeaderBytes in *. rewrite lookup_insert_ne by lia. apply Hz2. unfold gcBitsLen, gcBitsHeaderBytes in Hgot. lia.
    + intros E. destruct (Hq1 E) as [-> ->]. destruct (Hq2 eq_refl) as [-> ->]. split_and!; [done|done|lia].
Qed.

End TryAlloc.

(** ** [newMarkBits] without other threads *)

Definition put (x v : Z) (h : heap K) : heap K := set_words (<[x := v]> (words h)) h.
Definition word_at (h : heap K) (x : Z) : Z := default 0 (words h !! x).

Lemma load_at x h : mapped_rw h (x, 8) -> mem (load_word x) ([], h) = (Ok (word_at h x), ([], h)).
Proof. intros Hm. unfold mem. cbn [fst snd]. by rewrite load_word_ok. Qed.
Lemma store_at x v h : mapped_rw h (x, 8) -> mem (store_word x v) ([], h) = (Ok tt, ([], put x v h)).
Proof. intros Hm. unfold mem. cbn [fst snd]. by rewrite store_word_ok. Qed.
Lemma word_put x v h y : word_at (put x v h) y = if decide (y = x) then v else word_at h y.
Proof. unfold word_at, put. cbn [words set_words]. case_decide as Hd; [subst; by rewrite lookup_insert_eq|by rewrite lookup_insert_ne]. Qed.

(** The arena [a] has no room for [bytes]: there is none, or it is full. *)
Definition no_room (a bytes : Z) (h : heap K) : Prop := a = 0 \/ 0 < a /\ a + gcBitsChunkBytes < 2 ^ 63 /\ arena_ok a h /\ gcBitsLen < counter a h + bytes.

Lemma tryAlloc_none a bytes h : 0 < bytes < 2 ^ 40 -> no_room a bytes h -> tryAlloc a bytes ([], h) = (Ok 0, ([], h)).
Proof.
  intros Hb [->|(Ha & Hmax & Hok & Hfull)]; [done|].
  destruct (tryAlloc_ok a Ha bytes [] h Hb Hok ltac:(by constructor)) as (p & e' & h' & E & _ & _ & _ & Hq).
  destruct (Hq eq_refl) as (-> & _ & Hnone). destruct (Hnone Hfull) as [-> ->]. exact E.
Qed.

(** The struct [gcBitsArenas] is in memory, and the arenas are apart from it. *)
Definition globals_ok (h : heap K) : Prop := mapped_rw h (gcBitsArenas, 40).

Lemma global_mapped h x : globals_ok h -> gcBitsArenas <= x <= gcBitsArenas + 32 -> mapped_rw h (x, 8).
Proof. intros Hg Hx y Hy. apply Hg. unfold inside in *. cbn [fst snd] in *. lia. Qed.

Lemma bytes_needed n : 1 <= n <= 2 ^ 40 -> let bytes := u64 (u64 (n + 63) / 64 * 8) in bytes = (n + 63) / 64 * 8 /\ 0 < bytes < 2 ^ 40 /\ n <= 8 * bytes.
Proof.
  intros Hn bytes. assert (bytes = (n + 63) / 64 * 8) as E by (unfold bytes; rewrite (u64_small (n + 63)) by lia; apply u64_small; clear - Hn; zdiv_lia).
  rewrite E. clear - Hn. split_and!; zdiv_lia.
Qed.

Section Fresh.
Context (n : Z) (Hn : 1 <= n <= 2 ^ 40) (h : heap K) (Hg : globals_ok h).
Local Abbreviation bytes := (u64 (u64 (n + 63) / 64 * 8)).
Local Abbreviation a := (word_at h arenas_next).
Local Abbreviation r := (word_at h arenas_free).

Lemma load_next : mem (load_word arenas_next) ([], h) = (Ok a, ([], h)).
Proof. apply load_at, global_mapped; [done|unfold arenas_next; lia]. Qed.
Lemma load_pool : mem (load_word arenas_free) ([], h) = (Ok r, ([], h)).
Proof. apply load_at, global_mapped; [done|unfold arenas_free; lia]. Qed.

(** The head arena has room. *)
Lemma newMarkBits_head : 0 < a -> a + gcBitsChunkBytes < 2 ^ 63 -> arena_ok a h -> counter a h + bytes <= gcBitsLen ->
  newMarkBits n ([], h) = (Ok (b_bits a (counter a h)), ([], set_counter a (counter a h + bytes) h)).
Proof.
  intros Ha Hmax Hok Hroom. unfold newMarkBits, Loaduintptr. rewrite <- bind_bind. step. rewrite (bind_ok _ _ _ _ _ load_next).
  destruct (bytes_needed n Hn) as (_ & Hb & _).
  destruct (tryAlloc_ok a Ha bytes [] h Hb Hok ltac:(by constructor)) as (p & e' & h' & E & _ & _ & _ & Hq).
  destruct (Hq eq_refl) as (-> & Hgot & _). destruct (Hgot Hroom) as [-> ->]. step_with E.
  pose proof Hok as (_ & Hc & _). rewrite (proj2 (Z.eqb_neq _ 0)); [done|]. unfold b_bits, gcBitsHeaderBytes. lia.
Qed.

(** It has none, and there is no arena to recycle: the statistic is nil. *)
Lemma newMarkBits_nil : no_room a bytes h -> r = 0 -> newMarkBits n ([], h) = (Panic nil_deref, ([], h)).
Proof.
  intros Hno Hr. destruct (bytes_needed n Hn) as (_ & Hb & _). pose proof (tryAlloc_none _ _ _ Hb Hno) as E.
  unfold newMarkBits, Loaduintptr. rewrite <- bind_bind. step. rewrite (bind_ok _ _ _ _ _ load_next). step_with E.
  rewrite (bind_ok _ _ _ _ _ load_next). step_with E. apply bind_panic. unfold newArenaMayUnlock.
  rewrite (bind_ok _ _ _ _ _ load_pool). rewrite Hr. cbn [Z.eqb]. apply bind_panic, bind_panic. done.
Qed.

(** *** A recycled arena *)

(** The first arena of the pool is in memory, apart from the struct and from the head arena. *)
Record pool_ok : Prop := {
  po_pos : 0 < r /\ r + gcBitsChunkBytes < 2 ^ 63;
  po_mapped : mapped_rw h (r, gcBitsChunkBytes);
  po_global : r + gcBitsChunkBytes <= gcBitsArenas \/ gcBitsArenas + 40 <= r;
  po_head : a = 0 \/ (r + gcBitsChunkBytes <= a \/ a + gcBitsChunkBytes <= r) /\ (a + gcBitsChunkBytes <= gcBitsArenas \/ gcBitsArenas + 40 <= a) }.

Definition cleared (h1 : heap K) : heap K := set_words (clear_words r gcBitsChunkBytes (words h1)) h1.
Definition recycled : heap K := put (b_free r) 0 (put (b_next r) 0 (cleared (put arenas_free (word_at h (b_next r)) h))).

Lemma recycled_word x : words recycled !! x =
  if decide (x = r \/ x = r + 8) then Some 0 else if decide (r <= x < r + gcBitsChunkBytes) then None
  else if decide (x = arenas_free) then Some (word_at h (b_next r)) else words h !! x.
Proof.
  unfold recycled, cleared, put. cbn [words set_words]. unfold b_free, b_next. destruct (decide (x = r)) as [->|].
  { rewrite lookup_insert_eq. by rewrite decide_True by auto. }
  rewrite lookup_insert_ne by done. destruct (decide (x = r + 8)) as [->|].
  { rewrite lookup_insert_eq. by rewrite decide_True by auto. }
  rewrite lookup_insert_ne by done. rewrite clear_words_lookup. rewrite (decide_False (P := x = r \/ x = r + 8)) by tauto.
  case_decide; [done|]. case_decide; [subst; by rewrite lookup_insert_eq|by rewrite lookup_insert_ne].
Qed.

Lemma recycle_ok : pool_ok -> newArenaMayUnlock ([], h) = (Ok r, ([], recycled)).
Proof.
  intros [[Hr Hmax] Hm _ _]. unfold newArenaMayUnlock. rewrite (bind_ok _ _ _ _ _ load_pool). rewrite (proj2 (Z.eqb_neq r 0)) by lia.
  assert (forall k : Z, 0 <= k <= 8 -> forall h1 : heap K, kern h1 = kern h -> mapped_rw h1 (r + k, 8)) as Hrm.
  { intros k Hk h1 E x Hx. rewrite E. apply Hm. change gcBitsChunkBytes with 65536. unfold inside in *. cbn [fst snd] in *. lia. }
  rewrite <- !bind_bind. rewrite (bind_ok _ _ _ _ _ (load_at (b_next r) h (Hrm 8 ltac:(lia) h eq_refl))).
  rewrite <- !bind_bind. rewrite (bind_ok _ _ _ _ _ (store_at arenas_free (word_at h (b_next r)) h ltac:(apply global_mapped; [done|unfold arenas_free; lia]))).
  set (h1 := put arenas_free _ h).
  assert (mem (memclrNoHeapPointers r gcBitsChunkBytes) ([], h1) = (Ok tt, ([], cleared h1))) as E2 by (unfold mem; cbn [fst snd]; by rewrite clear_ok).
  rewrite <- !bind_bind. rewrite (bind_ok _ _ _ _ _ E2). step.
  rewrite (bind_ok _ _ _ _ _ (store_at (b_next r) 0 (cleared h1) (Hrm 8 ltac:(lia) _ eq_refl))).
  assert (mapped_rw (put (b_next r) 0 (cleared h1)) (b_free r, 8)) as Hm3 by (pose proof (Hrm 0 ltac:(lia) (put (b_next r) 0 (cleared h1)) eq_refl) as H3; by rewrite Z.add_0_r in H3).
  rewrite (bind_ok _ _ _ _ _ (store_at (b_free r) 0 _ Hm3)). done.
Qed.

Lemma recycled_globals : globals_ok recycled.
Proof. exact Hg. Qed.

Lemma recycled_next : pool_ok -> word_at recycled arenas_next = a.
Proof.
  intros [_ _ Hgl _]. unfold word_at at 1. rewrite recycled_word. change gcBitsChunkBytes with 65536 in *. unfold arenas_next, arenas_free in *.
  rewrite !decide_False by lia. done.
Qed.

Lemma recycled_arena : pool_ok -> arena_ok r recycled /\ counter r recycled = 0.
Proof.
  intros [[Hr Hmax] Hm _ _]. assert (counter r recycled = 0) as Hc by (unfold counter, b_free; rewrite recycled_word; by rewrite decide_True by auto).
  split; [|done]. split; [exact Hm|]. rewrite Hc. split; [lia|]. intros x Hx. unfold b_bits, gcBitsHeaderBytes in Hx. rewrite recycled_word.
  rewrite decide_False by lia. by rewrite decide_True by lia.
Qed.

Lemma recycled_no_room : pool_ok -> no_room a bytes h -> no_room a bytes recycled.
Proof.
  intros [[Hr Hmax] Hm _ Hh] [Ha|(Ha & Hamax & (Ham & Hc & Hz) & Hfull)]; [by left|]. right. destruct Hh as [?|[Hh1 Hh2]]; [lia|].
  change gcBitsChunkBytes with 65536 in *.
  assert (forall x, a <= x < a + 65536 -> words recycled !! x = words h !! x) as Hsame.
  { intros x Hx. rewrite recycled_word. change gcBitsChunkBytes with 65536. unfold arenas_free in *. rewrite !decide_False by lia. done. }
  assert (counter a recycled = counter a h) as Ec by (unfold counter, b_free; rewrite Hsame by lia; done).
  split; [done|]. split; [done|]. split; [|by rewrite Ec]. split; [exact Ham|]. split; [by rewrite Ec|].
  intros x Hx. rewrite Ec in Hx. unfold b_bits, gcBitsHeaderBytes in *. change gcBitsChunkBytes with 65536 in *. rewrite Hsame by lia. apply Hz. lia.
Qed.

(** The bits come from the recycled arena, which becomes the head. *)
Definition recycled_head (h' : heap K) : Prop :=
  word_at h' arenas_next = r /\ word_at h' (b_next r) = a /\ word_at h' arenas_free = word_at h (b_next r) /\
  counter r h' = bytes /\ forall x, b_bits r 0 <= x < b_bits r 0 + bytes -> words h' !! x = None.

Lemma newMarkBits_recycle : pool_ok -> no_room a bytes h ->
  if gcBitsLen <? bytes then fst (newMarkBits n ([], h)) = Panic "markBits overflow"
  else exists h', newMarkBits n ([], h) = (Ok (b_bits r 0), ([], h')) /\ recycled_head h'.
Proof.
  intros Hp Hno. destruct (bytes_needed n Hn) as (_ & Hb & _). pose proof (tryAlloc_none _ _ _ Hb Hno) as E.
  pose proof (recycled_arena Hp) as [Har Hcr]. pose proof (recycled_next Hp) as En.
  pose proof (load_at arenas_next recycled (global_mapped recycled arenas_next recycled_globals ltac:(unfold arenas_next; lia))) as Eln. rewrite En in Eln.
  pose proof (tryAlloc_none _ _ _ Hb (recycled_no_room Hp Hno)) as E2. pose proof Hp as [[Hr Hmax] Hm Hgl _].
  unfold newMarkBits, Loaduintptr. rewrite <- bind_bind. step. rewrite (bind_ok _ _ _ _ _ load_next). step_with E.
  rewrite (bind_ok _ _ _ _ _ load_next). step_with E. rewrite (bind_ok _ _ _ _ _ (recycle_ok Hp)). rewrite (bind_ok _ _ _ _ _ Eln). step_with E2.
  destruct (tryAlloc_ok r Hr bytes [] recycled Hb Har ltac:(by constructor)) as (p & e' & h' & E3 & _ & _ & _ & Hq). destruct (Hq eq_refl) as (-> & Hgot & Hnone).
  rewrite Hcr in Hgot, Hnone. destruct (Z.ltb_spec gcBitsLen bytes) as [Hbig|Hfit].
  - destruct Hnone as [-> ->]; [lia|]. step_with E3. done.
  - destruct Hgot as [-> ->]; [lia|]. step_with E3. rewrite (proj2 (Z.eqb_neq _ 0)) by (unfold b_bits, gcBitsHeaderBytes; lia).
    set (h5 := set_counter r (0 + bytes) recycled).
    assert (word_at h5 arenas_next = a) as En5.
    { rewrite <- En. unfold h5, set_counter. change (set_words _ recycled) with (put (b_free r) (0 + bytes) recycled). rewrite word_put, decide_False; [done|].
      change gcBitsChunkBytes with 65536 in *. unfold arenas_next, b_free. lia. }
    pose proof (load_at arenas_next h5 (global_mapped h5 arenas_next Hg ltac:(unfold arenas_next; lia))) as El5. rewrite En5 in El5.
    rewrite (bind_ok _ _ _ _ _ El5).
    assert (mapped_rw h5 (b_next r, 8)) as Hm5.
    { intros x Hx. apply Hm. change gcBitsChunkBytes with 65536. unfold inside, b_next in *. cbn [fst snd] in *. lia. }
    rewrite (bind_ok _ _ _ _ _ (store_at (b_next r) a h5 Hm5)). set (h6 := put (b_next r) a h5).
    unfold StorepNoWB. rewrite <- bind_bind. step. rewrite (bind_ok _ _ _ _ _ (store_at arenas_next r h6 (global_mapped h6 arenas_next Hg ltac:(unfold arenas_next; lia)))).
    exists (put arenas_next r h6). split; [done|]. unfold recycled_head, counter.
    unfold h6, h5, set_counter. change (set_words _ recycled) with (put (b_free r) (0 + bytes) recycled).
    rewrite !word_put. fold (word_at (put arenas_next r (put (b_next r) a (put (b_free r) (0 + bytes) recycled))) (b_free r)). rewrite !word_put.
    assert (gcBitsArenas + 40 <= r \/ r + 65536 <= gcBitsArenas) as Hgl' by (change gcBitsChunkBytes with 65536 in *; lia).
    assert (arenas_free = gcBitsArenas + 8) as Eaf by done. assert (arenas_next = gcBitsArenas + 16) as Ean by done. split_and!.
    + by rewrite decide_True.
    + rewrite decide_False by (unfold b_next; lia). by rewrite decide_True.
    + rewrite !decide_False by (unfold b_free, b_next; lia). change (word_at recycled arenas_free) with (default 0 (words recycled !! arenas_free)). rewrite recycled_word.
      change gcBitsChunkBytes with 65536. rewrite !decide_False by (unfold b_next, b_free; lia). by rewrite decide_True.
    + rewrite !decide_False by (unfold b_free, b_next; lia). by rewrite decide_True.
    + intros x Hx. unfold b_bits, gcBitsHeaderBytes in Hx. unfold gcBitsLen, gcBitsHeaderBytes in Hfit. change gcBitsChunkBytes with 65536 in *.
      unfold put. cbn [words set_words]. rewrite !lookup_insert_ne by (unfold b_free, b_next; lia). apply Har. rewrite Hcr. unfold b_bits, gcBitsHeaderBytes.
      change gcBitsChunkBytes with 65536. lia.
Qed.

End Fresh.

End GcBits.

(** C23: bits are handed out once.  Whatever other threads take from the same
    arena between the accesses of [tryAlloc], a pointer it returns is to [bytes]
    zero bytes inside the arena, above everything given out before and below
    everything given out later; nil means that there was not enough room; and
    without other threads it is nil only then. *)
Theorem tryAlloc_fresh {K : Type} `{!Kernel K} (b bytes : Z) (e : list (heap K -> heap K)) (h : heap K) :
  0 < b -> 0 < bytes < 2 ^ 40 -> arena_ok b h -> bits_others b e ->
  exists p e' h', tryAlloc b bytes (e, h) = (Ok p, (e', h')) /\ arena_ok b h' /\
    (bits_taken b h h' bytes p \/ p = 0 /\ gcBitsLen < counter b h' + bytes) /\
    (e = [] -> counter b h + bytes <= gcBitsLen -> p = b_bits b (counter b h)).
Proof.
  intros Hb Hbytes Ha He. destruct (tryAlloc_ok b Hb bytes e h Hbytes Ha He) as (p & e' & h' & E & Ha' & _ & Hp & Hq).
  exists p, e', h'. split; [exact E|]. split; [exact Ha'|]. split; [exact Hp|]. intros He0 Hroom. by apply (Hq He0).
Qed.

(** [newMarkBits], branch by branch: the bits come from the head arena when
    it has room; otherwise the first arena of the pool is cleared, becomes the
    head and gives its first bits, or the program stops with "markBits overflow"
    when they do not fit into an arena; with an empty pool it stops at a nil
    statistic, so that no arena is ever obtained from the system. *)
Theorem newMarkBits_outcomes {K : Type} `{!Kernel K} (g n : Z) (h : heap K) :
  let a := word_at h (arenas_next g) in let r := word_at h (arenas_free g) in let bytes := (n + 63) / 64 * 8 in
  1 <= n <= 2 ^ 40 -> globals_ok g h ->
  (0 < a -> a + gcBitsChunkBytes < 2 ^ 63 -> arena_ok a h -> counter a h + bytes <= gcBitsLen ->
    newMarkBits g n ([], h) = (Ok (b_bits a (counter a h)), ([], set_counter a (counter a h + bytes) h))) /\
  (no_room a bytes h -> r = 0 -> newMarkBits g n ([], h) = (Panic nil_deref, ([], h))) /\
  (no_room a bytes h -> pool_ok g h ->
    if gcBitsLen <? bytes then fst (newMarkBits g n ([], h)) = Panic "markBits overflow"
    else exists h', newMarkBits g n ([], h) = (Ok (b_bits r 0), ([], h')) /\ recycled_head g n h h').
Proof.
  cbv zeta. intros Hn Hg. destruct (bytes_needed n Hn) as (E & _). rewrite <- E. split_and!.
  - by apply newMarkBits_head.
  - by apply newMarkBits_nil.
  - intros Hno Hp. by apply newMarkBits_recycle.
Qed.

(** The struct at 4096, the head arena at 8192, 65 bytes of which are used up to
    the last 16, and a pool of one arena after it. *)
Definition bits_heap (used : Z) : heap space :=
  set_words {[ 4104 := 73728; 4112 := 8192; 8192 := used; 73736 := 12345 ]} (set_kern [(4096, 135168, Some PROT_RW)] (heap_init true)).

Lemma bits_heap_mapped used a m : 4096 <= a -> a + m <= 139264 -> mapped_rw (bits_heap used) (a, m).
Proof.
  intros Ha Hm x Hx. unfold inside in Hx. cbn [fst snd] in Hx. change (space_mapping [(4096, 135168, Some PROT_RW)] x = Some PROT_RW). cbn [space_mapping].
  change (4096 + 135168) with 139264. destruct (Z.leb_spec 4096 x), (Z.ltb_spec x 139264); try lia; done.
Qed.

Lemma bits_heap_word used x : words (bits_heap used) !! x =
  if decide (x = 4104) then Some 73728 else if decide (x = 4112) then Some 8192 else if decide (x = 8192) then Some used else if decide (x = 73736) then Some 12345 else None.
Proof.
  unfold bits_heap. cbn [words set_words].
  case_decide as H1; [subst; reflexivity|]. case_decide as H2; [subst; reflexivity|]. case_decide as H3; [subst; reflexivity|]. case_decide as H4; [subst; reflexivity|].
  rewrite !lookup_insert_ne by lia. apply lookup_singleton_ne. lia.
Qed.

Lemma bits_heap_arena used : 0 <= used < 65520 -> arena_ok 8192 (bits_heap used).
Proof.
  intros Hu. assert (counter 8192 (bits_heap used) = used) as Hc by (unfold counter, b_free; by rewrite bits_heap_word).
  split; [by apply bits_heap_mapped|]. rewrite Hc. split; [lia|]. intros x Hx. unfold b_bits, gcBitsHeaderBytes in Hx. change gcBitsChunkBytes with 65536 in Hx.
  rewrite bits_heap_word. by rewrite !decide_False by lia.
Qed.

(** Another thread takes 64 bytes when there is room for them. *)
Definition taker (h : heap space) : heap space :=
  if counter 8192 h + 64 <=? gcBitsLen then set_counter 8192 (counter 8192 h + 64) h else h.

Lemma taker_ok : bits_others 8192 [taker; taker].
Proof.
  assert (forall h, arena_ok 8192 h -> other_bits 8192 h (taker h)) as H; [|apply Forall_cons; [exact H|]; apply Forall_cons; [exact H|by apply Forall_nil]].
  intros h Ha. unfold taker. change gcBitsLen with 65520. destruct (Z.leb_spec (counter 8192 h + 64) 65520) as [Hle|_]; [|split_and!; done || lia].
  split; [done|]. rewrite counter_set. split; [lia|]. intros x Hx. unfold set_counter. cbn [words set_words]. rewrite lookup_insert_ne; [done|].
  pose proof Ha as (_ & Hc & _). unfold b_bits, b_free, gcBitsHeaderBytes in *. lia.
Qed.

Lemma tryAlloc_fresh_witness :
  exists p e' h', tryAlloc 8192 8 ([taker; taker], bits_heap 16) = (Ok p, (e', h')) /\ p = b_bits 8192 144 /\
    (bits_taken 8192 (bits_heap 16) h' 8 p \/ p = 0 /\ gcBitsLen < counter 8192 h' + 8).
Proof.
  destruct (tryAlloc_fresh 8192 8 [taker; taker] (bits_heap 16)) as (p & e' & h' & E & _ & Hp & _); [lia|lia|by apply bits_heap_arena|exact taker_ok|].
  exists p, e', h'. split; [exact E|]. split; [|exact Hp]. apply (f_equal fst) in E. vm_compute in E. by injection E as <-.
Defined.

Lemma newMarkBits_outcomes_witness :
  newMarkBits 4096 100 ([], bits_heap 32) = (Ok (b_bits 8192 32), ([], set_counter 8192 48 (bits_heap 32))) /\
  exists h', newMarkBits 4096 100 ([], bits_heap 65512) = (Ok (b_bits 73728 0), ([], h')) /\ recycled_head 4096 100 (bits_heap 65512) h'.
Proof.
  assert (forall used, globals_ok 4096 (bits_heap used)) as Hg by (intros; by apply bits_heap_mapped). split.
  - apply (newMarkBits_outcomes 4096 100 (bits_heap 32)); [lia|apply Hg|by vm_compute|by vm_compute|by apply bits_heap_arena|by vm_compute].
  - apply (newMarkBits_outcomes 4096 100 (bits_heap 65512)); [lia|apply Hg| |].
    + right. split_and!; [by vm_compute|by vm_compute|by apply bits_heap_arena..|by vm_compute].
    + split; [by vm_compute|by apply bits_heap_mapped|right; by vm_compute|right; split; [right|right]; by vm_compute].
Defined.
