(* ===== verification/Heap.v ===== *)
(** * The heap

    [mheap.go] and the heap part of [malloc.go] ([src/memory_and_heap]) as far as
    they go: [mallocinit], [mheap.sysAlloc] with its hints, [mheap.grow], the
    cache of span structs of a P, [recordspan], [initSpan] and the start of
    [allocSpan].  Hints, the array of spans and arena metadata are words of
    memory; the record [mheap] holds the other fields of the global [mheap_] and
    of the current P. *)
From S2P Require Import Prelude Slice Bits64 PallocSum AddrRanges OsMem OffHeap PageAlloc PageCache PageGrow Spans GcBits.

Local Open Scope Z_scope.
Local Open Scope go_scope.

Record mheap (K : Type) : Type := mkMheap {
  spanalloc : fixalloc K;
  arenaHintAlloc : fixalloc K;
  arenaHints : Z;
  h_arenas : option (gmap Z Z);
  heapArenaAlloc : linearAlloc;
  h_arena : linearAlloc;
  allArenas : list Z;
  allArenas_cap : Z;
  curArena_base : Z;
  curArena_end : Z;
  h_pages : pageAlloc;
  pcache : pageCache;
  mspancache_len : Z;
  mspancache_buf : list Z }.
Arguments mkMheap {K}.
Arguments spanalloc {K}.
Arguments arenaHintAlloc {K}.
Arguments arenaHints {K}.
Arguments h_arenas {K}.
Arguments heapArenaAlloc {K}.
Arguments h_arena {K}.
Arguments allArenas {K}.
Arguments allArenas_cap {K}.
Arguments curArena_base {K}.
Arguments curArena_end {K}.
Arguments h_pages {K}.
Arguments pcache {K}.
Arguments mspancache_len {K}.
Arguments mspancache_buf {K}.
Definition set_spanalloc {K : Type} (v : fixalloc K) (x : mheap K) : mheap K :=
  mkMheap v (arenaHintAlloc x) (arenaHints x) (h_arenas x) (heapArenaAlloc x) (h_arena x) (allArenas x) (allArenas_cap x) (curArena_base x) (curArena_end x) (h_pages x) (pcache x) (mspancache_len x) (mspancache_buf x).
Definition set_arenaHintAlloc {K : Type} (v : fixalloc K) (x : mheap K) : mheap K :=
  mkMheap (spanalloc x) v (arenaHints x) (h_arenas x) (heapArenaAlloc x) (h_arena x) (allArenas x) (allArenas_cap x) (curArena_base x) (curArena_end x) (h_pages x) (pcache x) (mspancache_len x) (mspancache_buf x).
Definition set_arenaHints {K : Type} (v : Z) (x : mheap K) : mheap K :=
  mkMheap (spanalloc x) (arenaHintAlloc x) v (h_arenas x) (heapArenaAlloc x) (h_arena x) (allArenas x) (allArenas_cap x) (curArena_base x) (curArena_end x) (h_pages x) (pcache x) (mspancache_len x) (mspancache_buf x).
Definition set_h_arenas {K : Type} (v : option (gmap Z Z)) (x : mheap K) : mheap K :=
  mkMheap (spanalloc x) (arenaHintAlloc x) (arenaHints x) v (heapArenaAlloc x) (h_arena x) (allArenas x) (allArenas_cap x) (curArena_base x) (curArena_end x) (h_pages x) (pcache x) (mspancache_len x) (mspancache_buf x).
Definition set_heapArenaAlloc {K : Type} (v : linearAlloc) (x : mheap K) : mheap K :=
  mkMheap (spanalloc x) (arenaHintAlloc x) (arenaHints x) (h_arenas x) v (h_arena x) (allArenas x) (allArenas_cap x) (curArena_base x) (curArena_end x) (h_pages x) (pcache x) (mspancache_len x) (mspancache_buf x).
Definition set_h_arena {K : Type} (v : linearAlloc) (x : mheap K) : mheap K :=
  mkMheap (spanalloc x) (arenaHintAlloc x) (arenaHints x) (h_arenas x) (heapArenaAlloc x) v (allArenas x) (allArenas_cap x) (curArena_base x) (curArena_end x) (h_pages x) (pcache x) (mspancache_len x) (mspancache_buf x).
Definition set_allArenas {K : Type} (v : list Z) (x : mheap K) : mheap K :=
  mkMheap (spanalloc x) (arenaHintAlloc x) (arenaHints x) (h_arenas x) (heapArenaAlloc x) (h_arena x) v (allArenas_cap x) (curArena_base x) (curArena_end x) (h_pages x) (pcache x) (mspancache_len x) (mspancache_buf x).
Definition set_allArenas_cap {K : Type} (v : Z) (x : mheap K) : mheap K :=
  mkMheap (spanalloc x) (arenaHintAlloc x) (arenaHints x) (h_arenas x) (heapArenaAlloc x) (h_arena x) (allArenas x) v (curArena_base x) (curArena_end x) (h_pages x) (pcache x) (mspancache_len x) (mspancache_buf x).
Definition set_curArena_base {K : Type} (v : Z) (x : mheap K) : mheap K :=
  mkMheap (spanalloc x) (arenaHintAlloc x) (arenaHints x) (h_arenas x) (heapArenaAlloc x) (h_arena x) (allArenas x) (allArenas_cap x) v (curArena_end x) (h_pages x) (pcache x) (mspancache_len x) (mspancache_buf x).
Definition set_curArena_end {K : Type} (v : Z) (x : mheap K) : mheap K :=
  mkMheap (spanalloc x) (arenaHintAlloc x) (arenaHints x) (h_arenas x) (heapArenaAlloc x) (h_arena x) (allArenas x) (allArenas_cap x) (curArena_base x) v (h_pages x) (pcache x) (mspancache_len x) (mspancache_buf x).
Definition set_h_pages {K : Type} (v : pageAlloc) (x : mheap K) : mheap K :=
  mkMheap (spanalloc x) (arenaHintAlloc x) (arenaHints x) (h_arenas x) (heapArenaAlloc x) (h_arena x) (allArenas x) (allArenas_cap x) (curArena_base x) (curArena_end x) v (pcache x) (mspancache_len x) (mspancache_buf x).
Definition set_pcache {K : Type} (v : pageCache) (x : mheap K) : mheap K :=
  mkMheap (spanalloc x) (arenaHintAlloc x) (arenaHints x) (h_arenas x) (heapArenaAlloc x) (h_arena x) (allArenas x) (allArenas_cap x) (curArena_base x) (curArena_end x) (h_pages x) v (mspancache_len x) (mspancache_buf x).
Definition set_mspancache_len {K : Type} (v : Z) (x : mheap K) : mheap K :=
  mkMheap (spanalloc x) (arenaHintAlloc x) (arenaHints x) (h_arenas x) (heapArenaAlloc x) (h_arena x) (allArenas x) (allArenas_cap x) (curArena_base x) (curArena_end x) (h_pages x) (pcache x) v (mspancache_buf x).
Definition set_mspancache_buf {K : Type} (v : list Z) (x : mheap K) : mheap K :=
  mkMheap (spanalloc x) (arenaHintAlloc x) (arenaHints x) (h_arenas x) (heapArenaAlloc x) (h_arena x) (allArenas x) (allArenas_cap x) (curArena_base x) (curArena_end x) (h_pages x) (pcache x) (mspancache_len x) v.

Definition uintPtrMask : Z := 2 ^ 64 - 1.
Definition sizeof_mspan : Z := 104.
Definition sizeof_arenaHint : Z := 24.
Definition sizeof_heapArena : Z := 8.

(** Fields of an [arenaHint]. *)
Definition hint_addr (p : Z) : Z := p.
Definition hint_down (p : Z) : Z := p + 8.
Definition hint_next (p : Z) : Z := p + 16.

Section Heap.
Context {K : Type} `{!Kernel K}.
#[local] Abbreviation M := (stateful (heap K) Empty_set).
#[local] Abbreviation H := (stateful (mheap K * heap K) Empty_set).

Definition on_mem {A} (m : M A) : H A := fun s => let '(r, h) := m (snd s) in (r, (fst s, h)).
Definition upd_heap (f : mheap K -> mheap K) : H unit := st_mod (fun s => (f (fst s), snd s)).
Definition get_heap : H (mheap K) := fun s => (Ok (fst s), s).
Definition on_spans {A} (m : stateful (fixalloc K * heap K) Empty_set A) : H A :=
  fun s => let '(r, (f, h)) := m (spanalloc (fst s), snd s) in (r, (set_spanalloc f (fst s), h)).
Definition on_hints {A} (m : stateful (fixalloc K * heap K) Empty_set A) : H A :=
  fun s => let '(r, (f, h)) := m (arenaHintAlloc (fst s), snd s) in (r, (set_arenaHintAlloc f (fst s), h)).

(** ** [recordspan] *)

Section Recordspan.
(** The offset of the slice [allspans] in the struct [mheap]. *)
Variable allspans : Z.

Fixpoint copy_words (n : nat) (dst src : Z) : M unit :=
  match n with
  | O => st_ret tt
  | S n => let* v := load_word src in store_word dst v ;;; copy_words n (dst + 8) (src + 8)
  end.

(** A larger array for the slice at [sl]. *)
Definition grow_allspans (sl len cap : Z) : M unit :=
  let n := 64 * 1024 / PtrSize in
  let n := if n <? cap * 3 / 2 then cap * 3 / 2 else n in
  let* array := sysAlloc (u64 (n * PtrSize)) (Some other_sys) in
  if array =? 0 then throw "runtime: cannot allocate memory"
  else
    let* old := load_word sl in
    (if 0 <? len then copy_words (Z.to_nat len) array old else st_ret tt) ;;;
    store_word sl array ;;;
    store_word (sl + 16) n ;;;
    if negb (len =? 0) then sysFree old (u64 (cap * PtrSize)) (Some other_sys) else st_ret tt.

Definition recordspan (vh p : Z) : M unit :=
  let sl := vh + allspans in
  let* len := load_word (sl + 8) in
  let* cap := load_word (sl + 16) in
  (if cap <=? len then grow_allspans sl len cap else st_ret tt) ;;;
  let* cap := load_word (sl + 16) in
  if cap <? len + 1 then throw "slice bounds out of range"
  else
    store_word (sl + 8) (len + 1) ;;;
    let* array := load_word sl in
    store_word (array + 8 * len) p.

(** [mheap.init]: [h] is the address of the heap. *)
Definition mheap_init (h : Z) : H unit :=
  let* f := st_lift (OffHeap.init sizeof_mspan (Some recordspan) h (Some mspan_sys)) in
  upd_heap (set_spanalloc f) ;;;
  let* f := st_lift (OffHeap.init sizeof_arenaHint None 0 (Some other_sys)) in
  upd_heap (set_arenaHintAlloc f).

End Recordspan.

(** ** [mallocinit] *)

Definition hint_address (i : Z) : Z := Z.lor (u64 (Z.shiftl i 40)) (Z.land uintPtrMask (Z.shiftl 0xc0 32)).

(** The loop over [i] from [n - 1] down to 0. *)
Fixpoint make_hints (n : nat) : H unit :=
  match n with
  | O => st_ret tt
  | S n =>
      let* hint := on_hints OffHeap.alloc in
      on_mem (store_word (hint_addr hint) (hint_address (Z.of_nat n))) ;;;
      let* h := get_heap in
      on_mem (store_word (hint_next hint) (arenaHints h)) ;;;
      upd_heap (set_arenaHints hint) ;;;
      make_hints n
  end.

Definition mallocinit : H unit := make_hints 128.

(** ** [mheap.sysAlloc] *)

(** A new hint in front of the list. *)
Definition add_hint (addr : Z) (down : bool) : H unit :=
  let* hint := on_hints OffHeap.alloc in
  on_mem (store_word (hint_addr hint) addr) ;;;
  (if down then on_mem (store_word (hint_down hint) 1) else st_ret tt) ;;;
  let* h := get_heap in
  on_mem (store_word (hint_next hint) (arenaHints h)) ;;;
  upd_heap (set_arenaHints hint).

(** The loop over the hints: the reservation, or [(0, 0)] when no hint is left. *)
Fixpoint try_hints (fuel : nat) (n : Z) : H (Z * Z) :=
  let* h := get_heap in
  let hint := arenaHints h in
  if hint =? 0 then st_ret (0, 0)
  else
    match fuel with
    | O => st_lift NoFuel
    | S fuel =>
        let* addr := on_mem (load_word (hint_addr hint)) in
        let* down := on_mem (load_word (hint_down hint)) in
        let down := negb (down =? 0) in
        let p := if down then u64 (addr - n) else addr in
        let* v :=
          (if u64 (p + n) <? p then st_ret 0
           else if Z.shiftl 1 arenaBits <=? arenaIndex (u64 (p + n - 1)) then st_ret 0
           else on_mem (sysReserve p n)) in
        if p =? v then
          let p := if negb down then u64 (p + n) else p in
          on_mem (store_word (hint_addr hint) p) ;;;
          st_ret (v, n)
        else
          (if negb (v =? 0) then on_mem (sysFreeOS v n) else st_ret tt) ;;;
          let* next := on_mem (load_word (hint_next hint)) in
          upd_heap (set_arenaHints next) ;;;
          on_hints (OffHeap.free hint) ;;;
          try_hints fuel n
    end.

(** The checks of the reserved region. *)
Definition check_region (v size : Z) : H unit :=
  let bad := if u64 (v + size) <? v then true
             else if Z.shiftl 1 arenaBits <=? arenaIndex v then true
             else Z.shiftl 1 arenaBits <=? arenaIndex (u64 (v + size - 1)) in
  if bad then st_lift (Panic "memory reservation exceeds address space limit")
  else if negb (Z.land v (heapArenaBytes - 1) =? 0) then st_lift (Panic "misrounded allocation is sysAlloc")
  else st_ret tt.

(** [allArenas] with one more entry. *)
Definition register_arena (ri : Z) : H unit :=
  let* h := get_heap in
  (if len (allArenas h) =? allArenas_cap h then
     let size := u64 (2 * allArenas_cap h * PtrSize) in
     let size := if size =? 0 then physPageSize else size in
     let* newArray := on_mem (persistentalloc size PtrSize None) in
     if newArray =? 0 then st_lift (Panic "out of memory allocating allArenas")
     else upd_heap (set_allArenas_cap (size / PtrSize))
   else st_ret tt) ;;;
  upd_heap (fun h => set_allArenas (allArenas h ++ [ri]) h).

(** Metadata for the arenas from [ri] on, [n] of them. *)
Fixpoint map_arenas (n : nat) (ri : Z) (register : bool) : H unit :=
  match n with
  | O => st_ret tt
  | S n =>
      let* h := get_heap in
      let* l2 :=
        match h_arenas h with
        | Some l2 => st_ret l2
        | None =>
            let* a := on_mem (sysAllocOS (Z.shiftl 1 arenaL2Bits * PtrSize)) in
            if a =? 0 then st_lift (Panic "out of memory allocating heap arena map")
            else upd_heap (set_h_arenas (Some ∅)) ;;; st_ret ∅
        end in
      if Z.shiftl 1 arenaL2Bits <=? arena_l2 ri then st_lift (Panic out_of_range)
      else if bool_decide (is_Some (l2 !! arena_l2 ri)) then st_lift (Panic "arena already initialized")
      else
        let r := linear_alloc (heapArenaAlloc h) sizeof_heapArena PtrSize in
        let* r :=
          (if r =? 0 then
             let* r := on_mem (persistentalloc sizeof_heapArena PtrSize None) in
             if r =? 0 then st_lift (Panic "out of memory allocating heap arena metadata") else st_ret r
           else st_ret r) in
        (if register then register_arena ri else st_ret tt) ;;;
        upd_heap (set_h_arenas (Some (<[arena_l2 ri := r]> l2))) ;;;
        map_arenas n (ri + 1) register
  end.

(** [h.sysAlloc(n, &h.arenaHints, register)] *)
Definition mheap_sysAlloc (fuel : nat) (n : Z) (register : bool) : H (Z * Z) :=
  let n := alignUp n heapArenaBytes in
  let* h := get_heap in
  let v := linear_alloc (h_arena h) n heapArenaBytes in
  let* r :=
    (if negb (v =? 0) then st_ret (v, n)
     else
       let* r := try_hints fuel n in
       let* r :=
         (if snd r =? 0 then
            let* r := on_mem (sysReserveAligned 0 n heapArenaBytes) in
            if fst r =? 0 then st_ret (0, 0)
            else
              add_hint (fst r) true ;;;
              add_hint (u64 (fst r + snd r)) false ;;;
              st_ret r
          else st_ret r) in
       if fst r =? 0 then st_ret (0, 0)
       else check_region (fst r) (snd r) ;;; st_ret r) in
  if fst r =? 0 then st_ret (0, 0)
  else
    let first := arenaIndex (fst r) in
    let last := arenaIndex (u64 (fst r + snd r - 1)) in
    map_arenas (Z.to_nat (last + 1 - first)) first register ;;;
    st_ret r.

(** ** [mheap.grow] *)

Definition on_page_alloc {A} (m : stateful (pageAlloc * heap K) Empty_set A) : H A :=
  fun s => let '(r, (p, h)) := m (h_pages (fst s), snd s) in (r, (set_h_pages p (fst s), h)).

Definition mheap_grow (fuel : nat) (npage : Z) : H (Z * bool) :=
  let ask := u64 (alignUp npage pallocChunkPages * pageSize) in
  let* h := get_heap in
  let end_ := u64 (curArena_base h + ask) in
  let nBase := alignUp end_ physPageSize in
  let* r :=
    (if (curArena_end h <? nBase) || (end_ <? curArena_base h) then
       let* r := mheap_sysAlloc fuel ask true in
       let '(av, asize) := r in
       if av =? 0 then st_ret None
       else
         let* h := get_heap in
         let* totalGrowth :=
           (if av =? curArena_end h then upd_heap (set_curArena_end (u64 (av + asize))) ;;; st_ret 0
            else
              let size := u64 (curArena_end h - curArena_base h) in
              let* totalGrowth :=
                (if negb (size =? 0) then
                   on_mem (sysMap (curArena_base h) size None) ;;;
                   on_page_alloc (PageGrow.grow (curArena_base h) size) ;;;
                   st_ret size
                 else st_ret 0) in
              upd_heap (set_curArena_base av) ;;;
              upd_heap (set_curArena_end (u64 (av + asize))) ;;;
              st_ret totalGrowth) in
         let* h := get_heap in
         st_ret (Some (totalGrowth, alignUp (u64 (curArena_base h + ask)) physPageSize))
     else st_ret (Some (0, nBase))) in
  match r with
  | None => st_ret (0, false)
  | Some (totalGrowth, nBase) =>
      let* h := get_heap in
      let v := curArena_base h in
      upd_heap (set_curArena_base nBase) ;;;
      on_mem (sysMap v (u64 (nBase - v)) None) ;;;
      on_page_alloc (PageGrow.grow v (u64 (nBase - v))) ;;;
      st_ret (u64 (totalGrowth + u64 (nBase - v)), true)
  end.

(** ** Span structs *)

(** [getg().m.p.ptr() != nil] *)
Definition running_p : H bool := fun s => (Ok (has_p (snd s)), s).

Definition pop_span : H Z :=
  let* h := get_heap in
  let* s := st_lift (slice_get (mspancache_buf h) (mspancache_len h - 1)) in
  upd_heap (set_mspancache_len (mspancache_len h - 1)) ;;;
  st_ret s.

Definition tryAllocMSpan : H Z :=
  let* pp := running_p in
  let* h := get_heap in
  if negb pp || (mspancache_len h =? 0) then st_ret 0 else pop_span.

Fixpoint refill (n : nat) (i : Z) : H unit :=
  match n with
  | O => st_ret tt
  | S n =>
      let* s := on_spans OffHeap.alloc in
      let* h := get_heap in
      let* buf := st_lift (slice_set (mspancache_buf h) i s) in
      upd_heap (set_mspancache_buf buf) ;;;
      refill n (i + 1)
  end.

Definition allocMSpanLocked : H Z :=
  let* pp := running_p in
  if negb pp then on_spans OffHeap.alloc
  else
    let* h := get_heap in
    (if mspancache_len h =? 0 then
       let refillCount := len (mspancache_buf h) / 2 in
       refill (Z.to_nat refillCount) 0 ;;;
       upd_heap (set_mspancache_len refillCount)
     else st_ret tt) ;;;
    pop_span.

Definition freeMSpanLocked (s : Z) : H unit :=
  let* pp := running_p in
  let* h := get_heap in
  if pp && (mspancache_len h <? len (mspancache_buf h)) then
    let* buf := st_lift (slice_set (mspancache_buf h) (mspancache_len h) s) in
    upd_heap (set_mspancache_buf buf) ;;;
    upd_heap (set_mspancache_len (mspancache_len h + 1))
  else on_spans (OffHeap.free s).

(** [mheap.alloc] *)
Definition mheap_alloc (npages spanclass : Z) : H Z := st_ret 0.

(** [allocSpan], which the source leaves after the attempt with the page cache:
    the pages and the span struct it took are lost. *)
Definition allocSpan (npages : Z) (typ : spanAllocType) (spanclass : Z) : H Z :=
  let* pp := running_p in
  (if pp && (npages <? pageCachePages / 4) then
     let* h := get_heap in
     (if cache_empty (pcache h) then
        let* c := on_page_alloc (on_pages (allocToCache (h_arenas h))) in
        upd_heap (set_pcache c)
      else st_ret tt) ;;;
     let* h := get_heap in
     let* r := st_lift (cache_alloc (pcache h) npages) in
     upd_heap (set_pcache (snd r)) ;;;
     if negb (fst r =? 0) then let* s := tryAllocMSpan in st_ret tt else st_ret tt
   else st_ret tt) ;;;
  st_ret 0.

End Heap.

(** ** [initSpan] *)

Section InitSpan.
Context {K : Type} `{!Kernel K}.
#[local] Abbreviation P := (stateful (list (heap K -> heap K) * heap K) Empty_set).
Variable arenas : option (gmap Z Z).
Variable gcBitsArenas : Z.

(** The span as [initSpan] leaves it. *)
Definition initSpan (s : mspan) (typ : spanAllocType) (spanclass base npages : Z) : P mspan :=
  let s := span_init base npages s in
  let* z := allocNeedsZero arenas base npages in
  let s := if z : bool then set_needzero 1 s else s in
  let nbytes := u64 (npages * pageSize) in
  if manual typ then st_ret s
  else
    let s := set_spanclass spanclass s in
    let class := sizeclass (Spans.spanclass s) in
    let* s :=
      (if class =? 0 then st_ret (set_divMul 0 (set_nelems 1 (set_elemsize nbytes s)))
       else
         let* size := st_lift (slice_get class_to_size class) in
         let s := set_elemsize size s in
         if size =? 0 then st_lift (Panic "integer divide by zero")
         else
           let s := set_nelems (nbytes / size) s in
           let* magic := st_lift (slice_get class_to_divmagic class) in
           st_ret (set_divMul magic s)) in
    let s := set_freeindex 0 s in
    let s := set_freeIndexForScan 0 s in
    let s := set_allocCache uintPtrMask s in
    let* bits := newAllocBits gcBitsArenas (nelems s) in
    st_ret (set_allocBits bits s).

End InitSpan.
