(* ===== verification/Hints.v ===== *)
(** * Arena hints

    [mallocinit] builds the list of hints that [mheap.sysAlloc] follows: the
    first hint whose address the kernel grants gives the reservation. *)
From S2P Require Import Prelude AddrRanges OsMem Regions OffHeap PersistentProps FixallocProps PageAlloc PageCache PageGrow Spans Heap.

Local Open Scope Z_scope.
Local Open Scope go_scope.

(** An [arenaHint] at [hint_block]. *)
Record arenaHint : Type := mkHint { hint_block : Z; hint_at : Z; grows_down : bool }.

Section Hints.
Context {K : Type} `{!Kernel K} `{!KernelOk K}.
Implicit Types (h : heap K) (f : fixalloc K) (m : mheap K) (s : mheap K * heap K).

(** ** The list *)

Definition word (w : gmap Z Z) (a : Z) : Z := default 0 (w !! a).

Fixpoint hint_list (w : gmap Z Z) (p : Z) (l : list arenaHint) : Prop :=
  match l with
  | [] => p = 0
  | e :: l =>
      p = hint_block e /\ word w (hint_addr p) = hint_at e /\ negb (word w (hint_down p) =? 0) = grows_down e /\
      hint_list w (word w (hint_next p)) l
  end.

Lemma hint_list_ext w w' l : Forall (fun e => forall x, inside (hint_block e, 24) x -> w' !! x = w !! x) l ->
  forall p, hint_list w p l -> hint_list w' p l.
Proof.
  unfold word. induction 1 as [|e l He Hl IH]; intros p; cbn [hint_list]; [done|]. intros (-> & Ha & Hd & Hn). unfold word in *.
  unfold hint_addr, hint_down, hint_next in *.
  rewrite !He by (unfold inside; cbn; lia). by split_and!; auto.
Qed.

(** The hints and the allocator of their blocks. *)
Record hints_inv s (l : list arenaHint) (foreign : list region) : Prop := {
  hi_fix : exists frees extra, fix_inv (arenaHintAlloc (fst s)) (snd s) (map hint_block l) foreign frees extra;
  hi_first : f_first (arenaHintAlloc (fst s)) = None;
  hi_size : f_size (arenaHintAlloc (fst s)) = 24;
  hi_list : hint_list (words (snd s)) (arenaHints (fst s)) l }.

(** ** Changes of memory *)

(** A write into the block of one hint, [e]. *)
Lemma fix_inv_write f h w live1 p live2 foreign frees extra : fix_inv f h (live1 ++ p :: live2) foreign frees extra ->
  (forall x, ~ inside (p, f_size f) x -> w !! x = words h !! x) ->
  fix_inv f (set_words w h) (live1 ++ p :: live2) foreign frees extra /\
  same_words (blocks (f_size f) (live1 ++ live2) ++ foreign) h (set_words w h).
Proof.
  intros Hinv Hw. pose proof (fi_heap _ _ _ _ _ _ Hinv) as Hheap.
  assert (blocks (f_size f) ((live1 ++ p :: live2) ++ frees) ++ (f_chunk f, f_nchunk f) :: foreign ++ extra ≡ₚ
    (p, f_size f) :: (blocks (f_size f) (live1 ++ live2) ++ foreign) ++ blocks (f_size f) frees ++ [(f_chunk f, f_nchunk f)] ++ extra) as E.
  { rewrite !blocks_app. cbn [blocks map]. solve_Permutation. }
  destruct (inv_write h w _ _ (inv_perm _ _ _ E Hheap) Hw) as [Hinv' Hs].
  apply same_words_app in Hs as [Hs Hr]. apply same_words_app in Hr as [Hf Hr]. apply same_words_app in Hr as [Hc _].
  split; [|done]. eapply fix_inv_heap; [exact Hinv|done|done|]. eapply inv_perm; [symmetry; exact E|exact Hinv'].
Qed.

(** A change of the kernel that leaves mapped memory as it is. *)
Definition keeps_mapped h h' : Prop :=
  persistent h' = persistent h /\ idle h' = idle h /\ stat_other h' = stat_other h /\ stat_mspan h' = stat_mspan h /\
  forall x, mapping (kern h) x = Some PROT_RW -> mapping (kern h') x = Some PROT_RW /\ words h' !! x = words h !! x.

Lemma inv_kern h h' used : keeps_mapped h h' -> heap_inv h used -> heap_inv h' used /\ same_words used h h'.
Proof.
  intros (Ep & Ei & Eo & Em & Hk) [Hpa Ha Hm [Hzp Hzi] Hs].
  assert (Forall (fun r => mapped_rw h' r /\ forall x, inside r x -> words h' !! x = words h !! x) (regions h used)) as Hall.
  { eapply Forall_impl; [|exact Hm]. intros r Hr. split; intros x Hx; by apply Hk, Hr. }
  unfold regions in *. rewrite !Forall_cons_iff in Hall. destruct Hall as ([Hp Hpw] & [Hi Hiw] & Hu). split.
  - split; unfold regions; rewrite ?Ep, ?Ei, ?Eo, ?Em; try done.
    + rewrite !Forall_cons_iff. split; [done|]. split; [done|]. eapply Forall_impl; [|exact Hu]. by intros r [? _].
    + split; intros x Hx; [rewrite Hpw by done; by apply Hzp|rewrite Hiw by done; by apply Hzi].
  - eapply Forall_impl; [|exact Hu]. by intros r [_ ?].
Qed.

Lemma fix_inv_kern f h h' live foreign frees extra : keeps_mapped h h' -> fix_inv f h live foreign frees extra ->
  fix_inv f h' live foreign frees extra /\ same_words (blocks (f_size f) live ++ foreign) h h'.
Proof.
  intros Hk Hinv. destruct (inv_kern h h' _ Hk (fi_heap _ _ _ _ _ _ Hinv)) as [Hheap Hw].
  pose proof Hw as Hw'. rewrite blocks_app, <- app_assoc in Hw. apply same_words_app in Hw as [Hl Hw]. apply same_words_app in Hw as [_ Hw].
  apply (same_words_app [_]) in Hw as [_ Hw]. apply same_words_app in Hw as [Hf _].
  split; [|by apply same_words_app]. apply same_words_parts in Hw' as [? ?]. by eapply fix_inv_heap.
Qed.

Lemma keeps_mapped_trans h1 h2 h3 : keeps_mapped h1 h2 -> keeps_mapped h2 h3 -> keeps_mapped h1 h3.
Proof.
  intros (Hp & Hi & Ho & Hm & Hk) (Hp' & Hi' & Ho' & Hm' & Hk'). split; [congruence|]. split; [congruence|]. split; [congruence|].
  split; [congruence|]. intros x Hx. destruct (Hk x Hx) as [Hx' <-]. by apply Hk'.
Qed.

Definition same_mapping h h' : Prop := forall x, mapping (kern h') x = mapping (kern h) x.

(** [h'] is [h] with [p, p+n) reserved, which was free. *)
Definition reserved (p n : Z) h h' : Prop :=
  (forall x, p <= x < p + n -> mapping (kern h) x = None) /\ remapped p n (Some PROT_NONE) (kern h) (kern h').

Lemma reserved_mapped p n h h' x : reserved p n h h' -> mapping (kern h) x = Some PROT_RW -> mapping (kern h') x = Some PROT_RW.
Proof. intros [Hn Hr] Hx. rewrite Hr. destruct (Z.leb_spec p x), (Z.ltb_spec x (p + n)); cbn [andb]; try done. by rewrite Hn in Hx. Qed.

Lemma sysReserve_keeps v n h : 0 < n -> n + physPageSize <= 2 ^ 64 -> n mod physPageSize = 0 ->
  exists p h', sysReserve v n h = (Ok p, h') /\ keeps_mapped h h' /\
    (p = 0 /\ same_mapping h h' \/ 0 < p /\ p mod physPageSize = 0 /\ p + n <= 2 ^ 48 /\ reserved p n h h').
Proof.
  intros Hn Hl Hm. destruct (sysReserve_ok v n h Hn Hl Hm) as (p & h' & E & Hp). exists p, h'. split; [done|].
  assert (keeps_mapped h h') as Hk; [|split; [done|destruct Hp as [[-> Hp]|(? & ? & ? & ? & ?)]; [by left|by right]]].
  unfold sysReserve, sysReserveOS, call_mmap, st_bind in E.
  destruct (mmap v n PROT_NONE false (kern h)) as [[q [e|]] k] eqn:Em; injection E as <- <-.
  - split_and!; try done. intros x Hx. cbn [kern set_kern words]. split; [|done]. by rewrite (mmap_error _ _ _ _ _ _ _ _ Em).
  - destruct (mmap_new _ _ _ _ _ _ Em Hn) as (_ & _ & _ & Hnone & Hmap). split_and!; try done. intros x Hx. cbn [kern set_kern words set_words].
    rewrite Hmap, clear_words_lookup. destruct (in_pages q n x) eqn:Ei; [by rewrite Hnone in Hx|]. split; [done|].
    rewrite decide_False; [done|]. unfold in_pages in Ei. lia.
Qed.

Lemma free_reserved q n h h1 : q mod physPageSize = 0 -> 0 < n -> n + physPageSize <= 2 ^ 64 -> n mod physPageSize = 0 ->
  reserved q n h h1 -> keeps_mapped h h1 -> exists h2, sysFreeOS q n h1 = (Ok tt, h2) /\ keeps_mapped h h2 /\ same_mapping h h2.
Proof.
  intros Hq Hn Hl Hm [Hnone Hr] (Ep & Ei & Eo & Em & Hk). eexists. split; [reflexivity|].
  assert (forall x, mapping (munmap q n (kern h1)) x = mapping (kern h) x) as Hsame.
  { intros x. rewrite munmap_pages, in_pages_eq, Hr by (done || lia).
    destruct (Z.leb_spec q x), (Z.ltb_spec x (q + n)); cbn [andb]; try done. symmetry. apply Hnone. lia. }
  split; [|done]. split_and!; try done. intros x Hx. cbn [kern set_kern words]. split; [by rewrite Hsame|]. by apply Hk.
Qed.

(** ** Access to a hint *)

Lemma on_mem_ok {A} (c : stateful (heap K) Empty_set A) m h r h' : c h = (r, h') -> on_mem c (m, h) = (r, (m, h')).
Proof. intros E. unfold on_mem. cbn [fst snd]. by rewrite E. Qed.
Lemma on_hints_ok {A} (c : stateful (fixalloc K * heap K) Empty_set A) m h r f h' : c (arenaHintAlloc m, h) = (r, (f, h')) ->
  on_hints c (m, h) = (r, (set_arenaHintAlloc f m, h')).
Proof. intros E. unfold on_hints. cbn [fst snd]. by rewrite E. Qed.

Lemma load_field h b k : mapped_rw h (b, 24) -> k = 0 \/ k = 8 \/ k = 16 -> load_word (b + k) h = (Ok (word (words h) (b + k)), h).
Proof. intros Hm Hk. apply load_word_ok. intros x Hx. apply Hm. unfold inside in *; cbn in *; lia. Qed.

Lemma head_mapped m h e l foreign : hints_inv (m, h) (e :: l) foreign -> 0 < hint_block e /\ mapped_rw h (hint_block e, 24).
Proof.
  intros [(frees & extra & Hinv) _ Hsz _]. cbn [fst snd] in *. split.
  - pose proof (fi_pos _ _ _ _ _ _ Hinv) as Hp. by apply Forall_cons_iff in Hp as [? _].
  - pose proof (fi_heap _ _ _ _ _ _ Hinv) as Hh. rewrite Hsz in Hh. by apply inv_mapped_used in Hh.
Qed.

Lemma blocks_words l h h' : same_words (blocks 24 (map hint_block l)) h h' ->
  Forall (fun e => forall x, inside (hint_block e, 24) x -> words h' !! x = words h !! x) l.
Proof. unfold same_words, blocks. rewrite !List.Forall_map. done. Qed.

(** The first hint gets the address [a]. *)
Lemma set_head m h e l foreign a : hints_inv (m, h) (e :: l) foreign ->
  hints_inv (m, set_words (<[hint_addr (hint_block e) := a]> (words h)) h) (mkHint (hint_block e) a (grows_down e) :: l) foreign /\
  same_words foreign h (set_words (<[hint_addr (hint_block e) := a]> (words h)) h).
Proof.
  intros [(frees & extra & Hinv) Hf Hsz (Hp & Ha & Hd & Hl)]. cbn [fst snd] in *. set (w := <[_ := _]> _).
  destruct (fix_inv_write _ h w [] (hint_block e) (map hint_block l) _ _ _ Hinv) as [Hinv' Hw].
  { intros x Hx. apply lookup_insert_ne. intros <-. apply Hx. rewrite Hsz. unfold inside, hint_addr. cbn. lia. }
  apply same_words_app in Hw as [Hwl Hwf]. cbn [app] in Hwl. rewrite Hsz in Hwl. split; [|done].
  split; cbn [fst snd]; [by exists frees, extra|done|done|]. cbn [hint_list hint_block hint_at grows_down words set_words].
  unfold word, w, hint_addr, hint_down, hint_next in *. rewrite Hp in *. rewrite lookup_insert_eq, !lookup_insert_ne by lia.
  split_and!; try done. eapply hint_list_ext; [|exact Hl]. by apply blocks_words in Hwl.
Qed.

Lemma free_kern p f h r f' h' : OffHeap.free p (f, h) = (r, (f', h')) -> kern h' = kern h.
Proof.
  unfold OffHeap.free, st_bind, upd, st_mod, st_get, on_heap, store_word. cbn [fst snd]. destruct (range_rw p PtrSize h); by intros [= _ _ <-].
Qed.

(** The first hint is dropped and its block released. *)
Lemma drop_head m h e l foreign : hints_inv (m, h) (e :: l) foreign ->
  exists m' h', on_hints (OffHeap.free (hint_block e)) (set_arenaHints (word (words h) (hint_next (hint_block e))) m, h) = (Ok tt, (m', h')) /\
    hints_inv (m', h') l foreign /\ kern h' = kern h /\ same_words foreign h h'.
Proof.
  intros [(frees & extra & Hinv) Hf Hsz (Hp & Ha & Hd & Hl)]. cbn [fst snd] in *.  rewrite Hp in Ha, Hd, Hl.
  destruct (free_ok _ h [] (hint_block e) (map hint_block l) foreign frees extra Hinv) as (f' & h' & E & Hinv' & Hw & (Hsz' & Hf' & _)).
  cbn [app] in *. do 2 eexists. split; [apply on_hints_ok; exact E|].
  apply same_words_app in Hw as [Hwl Hwf]. rewrite Hsz in Hwl. split; [|split; [|done]].
  - split; cbn [fst snd arenaHintAlloc arenaHints set_arenaHintAlloc set_arenaHints]; [by exists (hint_block e :: frees), extra|congruence|congruence|].
    eapply hint_list_ext; [|exact Hl]. by apply blocks_words in Hwl.
  - exact (free_kern _ _ _ _ _ _ E).
Qed.

(** The list after a call of the kernel. *)
Lemma hints_inv_kern m h h' l foreign : keeps_mapped h h' -> hints_inv (m, h) l foreign -> hints_inv (m, h') l foreign /\ same_words foreign h h'.
Proof.
  intros Hk [(frees & extra & Hinv) Hf Hsz Hl]. cbn [fst snd] in *. destruct (fix_inv_kern _ _ _ _ _ _ _ Hk Hinv) as [Hinv' Hw].
  apply same_words_app in Hw as [Hwl Hwf]. rewrite Hsz in Hwl. split; [|done]. split; cbn [fst snd]; [by exists frees, extra|done|done|].
  eapply hint_list_ext; [|exact Hl]. by apply blocks_words in Hwl.
Qed.

(** ** The reservation *)

Lemma reserved_ext p n h h1 h' : same_mapping h h1 -> reserved p n h1 h' -> reserved p n h h'.
Proof. intros Hs [Hn Hr]. split; [intros x Hx; rewrite <- Hs; by apply Hn|]. intros x. rewrite Hr. by rewrite Hs. Qed.

Definition hint_ok (n : Z) (e : arenaHint) : Prop := 0 < hint_at e < 2 ^ 64 /\ (grows_down e = true -> hint_at e <> n).

(** Where the hint [e] asks for [n] bytes, and its address afterwards. *)
Definition asked (n : Z) (e : arenaHint) : Z := if grows_down e then u64 (hint_at e - n) else hint_at e.
Definition moved (n : Z) (e : arenaHint) : arenaHint :=
  mkHint (hint_block e) (if grows_down e then asked n e else asked n e + n) (grows_down e).

(** What a hint does. *)
Definition ask_hint (n : Z) (e : arenaHint) : stateful (mheap K * heap K) Empty_set Z :=
  if u64 (asked n e + n) <? asked n e then st_ret 0
  else if Z.shiftl 1 arenaBits <=? arenaIndex (u64 (asked n e + n - 1)) then st_ret 0
  else on_mem (sysReserve (asked n e) n).

Lemma asked_pos n e : 0 < n <= 2 ^ 46 -> hint_ok n e -> 0 < asked n e < 2 ^ 64.
Proof.
  intros Hn [Ha Hd]. unfold asked. destruct (grows_down e); [|done]. specialize (Hd eq_refl).
  unfold u64. clear - Hn Ha Hd. zdiv_lia.
Qed.

(** Addresses the processor does not have: the range wraps around, or its last
    byte lies between the two halves of the address space. *)
Definition out_of_range (n : Z) (e : arenaHint) : Prop :=
  2 ^ 64 <= asked n e + n \/ 2 ^ 47 <= asked n e + n - 1 < 2 ^ 64 - 2 ^ 47.

#[export] Instance out_of_range_dec n e : Decision (out_of_range n e).
Proof. unfold out_of_range. apply _. Defined.

(** What the kernel answers when it is asked for [n] bytes at [p]: an address,
    or 0. *)
Definition answer (p n : Z) (k : K) : Z * K :=
  match mmap p n PROT_NONE false k with ((q, None), k) => (q, k) | ((_, Some _), k) => (0, k) end.

(** The hint [e] is refused, and [k'] is what is left of [k]: it is out of range,
    or the kernel answers another address; what is there is given back. *)
Inductive hint_refused (n : Z) (e : arenaHint) (k : K) : K -> Prop :=
  | refused_range : out_of_range n e -> hint_refused n e k k
  | refused_kernel v k1 : ~ out_of_range n e -> answer (asked n e) n k = (v, k1) -> v <> asked n e ->
      hint_refused n e k (if v =? 0 then k1 else munmap v n k1).

Inductive all_refused (n : Z) : list arenaHint -> K -> K -> Prop :=
  | all_refused_nil k : all_refused n [] k k
  | all_refused_cons e l k k1 k2 : hint_refused n e k k1 -> all_refused n l k1 k2 -> all_refused n (e :: l) k k2.

(** The hint [e] is granted. *)
Definition hint_granted (n : Z) (e : arenaHint) (k k' : K) : Prop :=
  ~ out_of_range n e /\ answer (asked n e) n k = (asked n e, k').

(** The two tests of the code are that. *)
Lemma range_check n a : 0 < n <= 2 ^ 46 -> 0 < a < 2 ^ 64 ->
  2 ^ 64 <= a + n \/ 2 ^ 47 <= a + n - 1 < 2 ^ 64 - 2 ^ 47 <->
  u64 (a + n) < a \/ 2 ^ 22 <= arenaIndex (u64 (a + n - 1)).
Proof.
  intros Hn Ha. unfold arenaIndex. change arenaBaseOffset with (2 ^ 64 - 2 ^ 47).
  destruct (Z.le_gt_cases (2 ^ 64) (a + n)) as [Hle|Hgt].
  - split; [|by left]. intros _. left. unfold u64. clear - Hn Ha Hle. zdiv_lia.
  - rewrite (u64_small (a + n)), (u64_small (a + n - 1)) by lia.
    set (x := a + n - 1) in *. assert (0 <= x < 2 ^ 64) as Hx by (unfold x; lia).
    assert (2 ^ 22 <= u64 (x - (2 ^ 64 - 2 ^ 47)) / 2 ^ 26 <-> 2 ^ 47 <= x < 2 ^ 64 - 2 ^ 47) as ->; [|lia].
    clearbody x. clear - Hx. unfold u64. zdiv_lia.
Qed.

Lemma ask_hint_range n e : 0 < n <= 2 ^ 46 -> hint_ok n e ->
  ask_hint n e = if decide (out_of_range n e) then st_ret 0 else on_mem (sysReserve (asked n e) n).
Proof.
  intros Hn He. pose proof (asked_pos n e Hn He) as Ha. unfold ask_hint. change (Z.shiftl 1 arenaBits) with (2 ^ 22).
  pose proof (range_check n (asked n e) Hn Ha : out_of_range n e <-> _) as Hr.
  destruct (Z.ltb_spec (u64 (asked n e + n)) (asked n e)) as [Hw|Hw]; [rewrite decide_True; tauto|].
  destruct (Z.leb_spec (2 ^ 22) (arenaIndex (u64 (asked n e + n - 1)))); [rewrite decide_True; tauto|].
  rewrite decide_False; [done|]. rewrite Hr. lia.
Qed.

Lemma sysReserve_answer p n h v h' : sysReserve p n h = (Ok v, h') -> answer p n (kern h) = (v, kern h').
Proof.
  unfold sysReserve, sysReserveOS, call_mmap, answer, st_bind.
  destruct (mmap p n PROT_NONE false (kern h)) as [[q [e|]] k]; by intros [= <- <-].
Qed.

Lemma ask_hint_ok n e m h : 0 < n <= 2 ^ 46 -> n mod physPageSize = 0 -> hint_ok n e ->
  exists v h', ask_hint n e (m, h) = (Ok v, (m, h')) /\ keeps_mapped h h' /\
    (v = 0 /\ same_mapping h h' \/ 0 < v /\ v mod physPageSize = 0 /\ v + n <= 2 ^ 48 /\ reserved v n h h') /\
    if decide (out_of_range n e) then v = 0 /\ h' = h else answer (asked n e) n (kern h) = (v, kern h').
Proof.
  intros Hn Hm He. rewrite ask_hint_range by done. assert (keeps_mapped h h) as Hrefl by (split_and!; done).
  destruct (decide (out_of_range n e)).
  { exists 0, h. split; [done|]. split; [done|]. split; [by left|done]. }
  destruct (sysReserve_keeps (asked n e) n h) as (v & h' & E & Hk & Hv); [lia|unfold physPageSize; lia|done|].
  exists v, h'. split; [by apply on_mem_ok|]. split; [done|]. split; [done|]. by eapply sysReserve_answer.
Qed.

(** What is there at another address is given back. *)
Lemma give_back n v m h h1 : 0 < n <= 2 ^ 46 -> n mod physPageSize = 0 -> keeps_mapped h h1 ->
  v = 0 /\ same_mapping h h1 \/ 0 < v /\ v mod physPageSize = 0 /\ v + n <= 2 ^ 48 /\ reserved v n h h1 ->
  exists h2, (if negb (v =? 0) then on_mem (sysFreeOS v n) else st_ret tt) (m, h1) = (Ok tt, (m, h2)) /\
    keeps_mapped h h2 /\ same_mapping h h2 /\ kern h2 = if v =? 0 then kern h1 else munmap v n (kern h1).
Proof.
  intros Hn Hm Hk Hv. destruct (Z.eqb_spec v 0) as [->|Hv0].
  - exists h1. split; [done|]. split; [done|]. split; [|done]. destruct Hv as [[_ ?]|(? & _)]; [done|lia].
  - destruct Hv as [[? _]|(_ & Hpg & H48 & Hres)]; [done|].
    destruct (free_reserved v n h h1 Hpg ltac:(lia) ltac:(unfold physPageSize; lia) Hm Hres Hk) as (h2 & E2 & ? & ?).
    exists h2. split; [by apply on_mem_ok|]. split; [done|]. split; [done|]. by injection E2 as <-.
Qed.

Lemma try_hints_cons m h e l foreign fuel n : hints_inv (m, h) (e :: l) foreign ->
  try_hints (S fuel) n (m, h) =
  (let* v := ask_hint n e in
   if asked n e =? v then
     on_mem (store_word (hint_addr (hint_block e)) (if grows_down e then asked n e else u64 (asked n e + n))) ;;; st_ret (v, n)
   else
     (if negb (v =? 0) then on_mem (sysFreeOS v n) else st_ret tt) ;;;
     let* next := on_mem (load_word (hint_next (hint_block e))) in
     upd_heap (set_arenaHints next) ;;;
     on_hints (OffHeap.free (hint_block e)) ;;;
     try_hints fuel n) (m, h).
Proof.
  intros Hinv. destruct (head_mapped _ _ _ _ _ Hinv) as [Hpos Hm]. destruct Hinv as [_ _ _ (Hp & Ha & Hd & _)].
  cbn [fst snd] in *. rewrite Hp in Ha, Hd. cbn [try_hints]. erewrite bind_ok by reflexivity. cbv beta zeta. cbn [fst].
  rewrite Hp. destruct (Z.eqb_spec (hint_block e) 0) as [|_]; [lia|].
  pose proof (load_field h _ 0 Hm ltac:(tauto)) as E0. rewrite Z.add_0_r in E0.
  rewrite (bind_ok _ _ _ _ _ (on_mem_ok _ m h _ _ E0)). cbv beta.
  rewrite (bind_ok _ _ _ _ _ (on_mem_ok _ m h _ _ (load_field h _ 8 Hm ltac:(tauto)))). cbv beta zeta.
  unfold hint_addr, hint_down in Ha, Hd. rewrite Ha, Hd. unfold ask_hint, asked. by destruct (grows_down e).
Qed.

Lemma try_hints_ok m h l foreign n :
  hints_inv (m, h) l foreign -> 0 < n <= 2 ^ 46 -> n mod physPageSize = 0 -> Forall (hint_ok n) l ->
  exists r m' h', try_hints (length l) n (m, h) = (Ok r, (m', h')) /\ same_words foreign h h' /\
    (r = (0, 0) /\ all_refused n l (kern h) (kern h') /\ hints_inv (m', h') [] foreign /\ same_mapping h h' \/
     exists l1 e l2 k, l = l1 ++ e :: l2 /\ all_refused n l1 (kern h) k /\ hint_granted n e k (kern h') /\
       r = (asked n e, n) /\ asked n e + n <= 2 ^ 48 /\
       reserved (asked n e) n h h' /\ hints_inv (m', h') (moved n e :: l2) foreign).
Proof.
  intros Hinv Hn Hm. revert m h Hinv. induction l as [|e l IH]; intros m h Hinv Hok.
  { exists (0, 0), m, h. pose proof (hi_list _ _ _ Hinv) as Hl. cbn [hint_list fst] in Hl. split.
    - cbn [try_hints length]. step. by rewrite Hl.
    - split; [apply same_words_refl|]. left. split; [done|]. split; [constructor|]. by split. }
  apply Forall_cons_iff in Hok as [He Hok]. pose proof (asked_pos n e Hn He) as Hpos. cbn [length].
  rewrite (try_hints_cons _ _ _ _ _ _ _ Hinv).
  destruct (ask_hint_ok n e m h Hn Hm He) as (v & h1 & E1 & Hk & Hv & Hans). step_with E1.
  destruct (hints_inv_kern _ _ _ _ _ Hk Hinv) as [Hinv1 Hw1].
  destruct (head_mapped _ _ _ _ _ Hinv1) as [Hb Hmap].
  destruct (Z.eqb_spec (asked n e) v) as [<-|Hne].
  - destruct Hv as [[? _]|(_ & _ & H48 & Hres)]; [lia|].
    destruct (set_head _ _ _ _ _ (hint_at (moved n e)) Hinv1) as [Hinv2 Hw2].
    assert ((if grows_down e then asked n e else u64 (asked n e + n)) = hint_at (moved n e)) as ->.
    { cbn [hint_at moved]. destruct (grows_down e); [done|]. apply u64_small. lia. }
    assert (8 <= 24) as H24 by lia. rewrite (bind_ok _ _ _ _ _ (on_mem_ok _ m h1 _ _ (store_word_ok _ _ h1 (mapped_word h1 (hint_block e) 24 H24 Hmap)))).
    do 3 eexists. split; [reflexivity|]. split; [by eapply same_words_trans|]. right.
    exists [], e, l, (kern h). split; [done|]. split; [constructor|]. split; [|split; [done|split; [done|split; [exact Hres|exact Hinv2]]]].
    destruct (decide _) as [|Hr]; [lia|]. by split.
  - destruct (give_back n v m h h1 Hn Hm Hk Hv) as (h2 & E2 & Hk2 & Hs2 & Ek2).
    rewrite (bind_ok _ _ _ _ _ E2). destruct (hints_inv_kern _ _ _ _ _ Hk2 Hinv) as [Hinv2 Hw2].
    destruct (head_mapped _ _ _ _ _ Hinv2) as [_ Hmap2].
    rewrite (bind_ok _ _ _ _ _ (on_mem_ok _ m h2 _ _ (load_field h2 _ 16 Hmap2 ltac:(tauto)))).
    erewrite (bind_ok _ _ (m, h2)) by reflexivity. cbn [fst snd].
    destruct (drop_head _ _ _ _ _ Hinv2) as (m3 & h3 & E3 & Hinv3 & Ek3 & Hw3). rewrite (bind_ok _ _ _ _ _ E3).
    assert (hint_refused n e (kern h) (kern h3)) as Href.
    { rewrite Ek3, Ek2. destruct (decide (out_of_range n e)) as [Hr|Hr]; [destruct Hans as [-> ->]; by constructor|]. by constructor. }
    destruct (IH m3 h3 Hinv3 Hok) as (r & m' & h' & E & Hw & Hr). exists r, m', h'. split; [exact E|].
    split; [by do 2 (eapply same_words_trans; [eassumption|])|].
    assert (same_mapping h h3) as Hs by (intros x; by rewrite Ek3, Hs2).
    destruct Hr as [(-> & Ha & Hi & Hsm)|(l1 & e' & l2 & k & -> & Ha & Hg & -> & H48 & Hres & Hi)].
    + left. split; [done|]. split; [by econstructor|]. split; [done|]. intros x. by rewrite Hsm, Hs.
    + right. exists (e :: l1), e', l2, k. split; [done|]. split; [by econstructor|]. do 3 (split; [done|]). split; [|done].
      by eapply reserved_ext.
Qed.

(** C17: the search for address space asks the kernel hint by hint and takes the
    first that it grants at the hint's address, or at the [n] bytes below it for a
    hint that grows down: exactly those bytes, free before, are reserved, and the
    hint moves past them.  Every hint before it was refused: it was out of range,
    or the kernel, asked at its address, answered another, which was given back;
    those hints are dropped.  With every hint refused none is left and nothing
    is mapped.  The memory of others does not change, and a turn of the loop for
    each hint is enough. *)
Theorem try_hints_reserves m h l foreign n :
  hints_inv (m, h) l foreign -> 0 < n <= 2 ^ 46 -> n mod physPageSize = 0 -> Forall (hint_ok n) l ->
  exists r m' h', try_hints (length l) n (m, h) = (Ok r, (m', h')) /\ same_words foreign h h' /\
    (r = (0, 0) /\ all_refused n l (kern h) (kern h') /\ hints_inv (m', h') [] foreign /\ same_mapping h h' \/
     exists l1 e l2 k, l = l1 ++ e :: l2 /\ all_refused n l1 (kern h) k /\ hint_granted n e k (kern h') /\
       r = (asked n e, n) /\ asked n e + n <= 2 ^ 48 /\
       reserved (asked n e) n h h' /\ hints_inv (m', h') (moved n e :: l2) foreign).
Proof. apply try_hints_ok. Qed.

(** ** [mallocinit] *)

(** A block that the chunk still holds. *)
Lemma alloc_chunk f h live foreign extra : fix_inv f h live foreign [] extra -> f_first f = None -> f_size f <= f_nchunk f ->
  alloc (f, h) = (Ok (f_chunk f), (sliced f, h)).
Proof.
  intros [Hsize _ _ _ _ _ Hlist _ _ _] Hf Hn. cbn in Hlist. unfold alloc. step. cbn [fst].
  destruct (Z.eqb_spec (f_size f) 0) as [|_]; [lia|]. rewrite Hlist. cbn [Z.eqb negb].
  destruct (Z.ltb_spec (f_nchunk f) (f_size f)) as [|_]; [lia|]. step. step. cbn [fst]. by rewrite Hf.
Qed.

Lemma make_hints_ok n : forall m h l foreign extra,
  fix_inv (arenaHintAlloc m) h (map hint_block l) foreign [] extra -> f_first (arenaHintAlloc m) = None ->
  f_size (arenaHintAlloc m) = 24 -> hint_list (words h) (arenaHints m) l -> 24 * Z.of_nat n <= f_nchunk (arenaHintAlloc m) ->
  exists m' h' l', make_hints n (m, h) = (Ok tt, (m', h')) /\ hints_inv (m', h') (l' ++ l) foreign /\ same_words foreign h h' /\
    map (fun e => (hint_at e, grows_down e)) l' = map (fun i => (hint_address i, false)) (seqZ 0 (Z.of_nat n)).
Proof.
  induction n as [|n IH]; intros m h l foreign extra Hinv Hf Hsz Hl Hn.
  { exists m, h, []. split; [done|]. split; [|split; [apply same_words_refl|done]]. split; cbn [fst snd]; eauto. }
  cbn [make_hints]. pose proof (alloc_chunk _ _ _ _ _ Hinv Hf ltac:(rewrite Hsz; lia)) as E.
  rewrite (bind_ok _ _ _ _ _ (on_hints_ok _ m h _ _ _ E)).
  destruct (sliced_ok _ _ _ _ _ Hinv ltac:(rewrite Hsz; lia)) as [Hinv1 Hz]. rewrite Hsz in Hz.
  set (b := f_chunk (arenaHintAlloc m)) in *. set (m1 := set_arenaHintAlloc _ m).
  change (map hint_block l) with ([] ++ map hint_block l) in Hinv1. change (b :: _ ++ _) with ([] ++ b :: map hint_block l) in Hinv1.
  assert (mapped_rw h (b, 24)) as Hmap.
  { pose proof (fi_heap _ _ _ _ _ _ Hinv1) as Hh. change (f_size (sliced (arenaHintAlloc m))) with (f_size (arenaHintAlloc m)) in Hh.
    rewrite Hsz in Hh. by apply inv_mapped_used in Hh. }
  assert (forall k, k = 0 \/ k = 16 -> mapped_rw h (b + k, 8)) as Hmk.
  { intros k Hk x Hx. apply Hmap. unfold inside in *; cbn in *; lia. }
  pose proof (Hmk 0 ltac:(tauto)) as Hm0. rewrite Z.add_0_r in Hm0.
  rewrite (bind_ok _ _ _ _ _ (on_mem_ok _ m1 h _ _ (store_word_ok b _ h Hm0))). erewrite bind_ok by reflexivity. cbn [fst].
  set (a := hint_address (Z.of_nat n)). set (h1 := set_words _ h).
  rewrite (bind_ok _ _ _ _ _ (on_mem_ok _ m1 h1 _ _ (store_word_ok (hint_next b) _ h1 (Hmk 16 ltac:(tauto))))).
  erewrite (bind_ok _ _ (m1, _)) by reflexivity. cbn [fst snd].
  set (w := <[hint_next b := arenaHints m]> (<[b := a]> (words h))). change (set_words _ h1) with (set_words w h).
  assert (forall x, ~ inside (b, 24) x -> w !! x = words h !! x) as Hw.
  { intros x Hx. unfold w, hint_next. rewrite !lookup_insert_ne; [done|..]; intros <-; apply Hx; unfold inside; cbn; lia. }
  destruct (fix_inv_write _ h w [] b _ _ _ _ Hinv1) as [Hinv2 Hw2].
  { intros x Hx. apply Hw. by rewrite <- Hsz. }
  change (f_size (sliced (arenaHintAlloc m))) with (f_size (arenaHintAlloc m)) in Hw2. rewrite Hsz in Hw2.
  apply same_words_app in Hw2 as [Hwl Hwf]. cbn [app] in *.
  destruct (IH (set_arenaHints b m1) (set_words w h) (mkHint b a false :: l) foreign extra) as (m' & h' & l' & E' & Hi & Hw' & Hmapl);
    cbn [arenaHintAlloc arenaHints set_arenaHints set_arenaHintAlloc m1 words set_words]; try done.
  - cbn [hint_list hint_block hint_at grows_down]. unfold word, hint_addr, hint_down. split; [done|].
    unfold w, hint_next. rewrite lookup_insert_eq. rewrite !(lookup_insert_ne _ (b + 16)) by lia.
    rewrite lookup_insert_eq, lookup_insert_ne by lia. rewrite (Hz (b + 8)) by (unfold inside; cbn; lia). split; [done|]. split; [done|].
    eapply hint_list_ext; [|exact Hl]. by apply blocks_words in Hwl.
  - change (f_nchunk (sliced (arenaHintAlloc m))) with (u32 (f_nchunk (arenaHintAlloc m) - u32 (f_size (arenaHintAlloc m)))).
    pose proof (fi_chunk _ _ _ _ _ _ Hinv) as [Hc _]. pose proof (nalloc_bounds _ (fi_size _ _ _ _ _ _ Hinv)) as Hb.
    rewrite <- (fi_nalloc _ _ _ _ _ _ Hinv) in Hb. unfold FixAllocChunk in Hb. rewrite Hsz. change (u32 24) with 24.
    rewrite u32_small by lia. lia.
  - exists m', h', (l' ++ [mkHint b a false]). split; [exact E'|]. rewrite <- app_assoc. split; [exact Hi|].
    split; [by eapply same_words_trans|]. rewrite seqZ_S, !map_app. by rewrite Hmapl.
Qed.

Lemma hint_addresses : map hint_address (seqZ 0 128) = map (fun i => 0xc000000000 + i * 2 ^ 40) (seqZ 0 128).
Proof. vm_compute. reflexivity. Qed.

(** The list of hints at start. *)
Definition initial_hints (l : list arenaHint) : Prop :=
  map (fun e => (hint_at e, grows_down e)) l = map (fun i => (0xc000000000 + i * 2 ^ 40, false)) (seqZ 0 128).

(** The first allocation takes a chunk. *)
Lemma next_chunk_full f f1 h h1 : f_nchunk f < f_size f -> next_chunk f (f, h) = (Ok tt, (f1, h1)) -> f_nchunk f1 = f_nalloc f.
Proof.
  intros Hlt. unfold next_chunk. destruct (Z.ltb_spec (f_nchunk f) (f_size f)); [|lia]. unfold st_bind, on_heap. cbn [fst snd].
  destruct (persistentalloc _ _ _ h) as [[p|e|msg|] h2]; try done. by intros [= <- _].
Qed.

Lemma alloc_next_chunk f f1 h h1 : f_list f = 0 -> f_list f1 = 0 -> f_size f <> 0 -> same_config f f1 -> f_size f <= f_nchunk f1 ->
  next_chunk f (f, h) = (Ok tt, (f1, h1)) -> alloc (f, h) = alloc (f1, h1).
Proof.
  intros Hl Hl1 Hs (Hs1 & Hf1 & Ha1) Hn E. unfold alloc. step. erewrite (bind_ok _ _ (f1, h1)) by reflexivity. cbn [fst].
  rewrite Hs1, Hl, Hl1. destruct (Z.eqb_spec (f_size f) 0); [done|]. cbn [Z.eqb negb].
  change (if f_nchunk f <? f_size f then _ else _) with (next_chunk f). rewrite (bind_ok _ _ _ _ _ E).
  destruct (Z.ltb_spec (f_nchunk f1) (f_size f)); [lia|]. by erewrite (bind_ok (st_ret tt)) by reflexivity.
Qed.

Lemma alloc_no_chunk f h msg : f_list f = 0 -> f_size f <> 0 -> fst (next_chunk f (f, h)) = Panic msg -> fst (alloc (f, h)) = Panic msg.
Proof.
  intros Hl Hs E. unfold alloc. step. cbn [fst]. destruct (Z.eqb_spec (f_size f) 0); [done|]. rewrite Hl. cbn [Z.eqb negb].
  change (if f_nchunk f <? f_size f then _ else _) with (next_chunk f). unfold st_bind at 1.
  destruct (next_chunk f (f, h)) as [r s]. cbn [fst] in E. by subst r.
Qed.

Lemma mallocinit_ok m h foreign :
  OffHeap.init sizeof_arenaHint None 0 (Some other_sys) = Ok (arenaHintAlloc m) -> arenaHints m = 0 -> heap_inv h foreign -> stats_small h ->
  (exists m' h' l, mallocinit (m, h) = (Ok tt, (m', h')) /\ hints_inv (m', h') l foreign /\ initial_hints l /\ same_words foreign h h') \/
  refused persistentChunkSize h /\ exists msg, fst (mallocinit (m, h)) = Panic msg.
Proof.
  intros Hi H0 Hheap Hst. pose proof (init_inv sizeof_arenaHint _ _ _ _ _ _ ltac:(unfold sizeof_arenaHint; lia) Hi Hheap) as Hinv.
  assert (f_first (arenaHintAlloc m) = None /\ f_size (arenaHintAlloc m) = 24 /\ f_nchunk (arenaHintAlloc m) = 0 /\
    f_nalloc (arenaHintAlloc m) = 682 * 24 /\ f_list (arenaHintAlloc m) = 0) as (Hf & Hsz & Hn & Hna & Hl) by (by injection Hi as <-).
  destruct (next_chunk_ok _ _ _ _ _ Hinv Hst) as [(f1 & h1 & more & E1 & Hinv1 & Hn1 & Hw1 & Hc)|[Href [msg Hbad]]].
  - left. pose proof (next_chunk_full (arenaHintAlloc m) f1 h h1 ltac:(rewrite Hn, Hsz; done) E1) as Hfull. destruct Hc as (Hs1 & Hf1 & Ha1).
    destruct (make_hints_ok 128 (set_arenaHintAlloc f1 m) h1 [] foreign more) as (m' & h' & l & E & Hi' & Hw & Hmapl);
      cbn [arenaHintAlloc arenaHints set_arenaHintAlloc hint_list]; try done; try congruence; [rewrite Hfull, Hna; done|].
    rewrite app_nil_r in Hi'. exists m', h', l. split.
    + rewrite <- E. unfold mallocinit. change 128%nat with (S 127). cbn [make_hints]. unfold st_bind at 1. unfold st_bind at 6.
      unfold on_hints. cbn [fst snd arenaHintAlloc set_arenaHintAlloc].
      assert (alloc (arenaHintAlloc m, h) = alloc (f1, h1)) as ->; [|done].
      apply alloc_next_chunk; [done|exact (fi_list _ _ _ _ _ _ Hinv1)|rewrite Hsz; done|by split|lia|done].
    + split; [done|]. split; [unfold initial_hints; rewrite Hmapl|by apply same_words_app in Hw1 as [_ ?]; eapply same_words_trans].
      change (Z.of_nat 128) with 128.
      rewrite <- (map_map hint_address (fun a => (a, false))), hint_addresses, map_map. done.
  - right. split; [done|]. unfold mallocinit. change 128%nat with (S 127). cbn [make_hints]. apply bind_fst_throw. exists msg.
    unfold on_hints. cbn [fst snd]. pose proof (alloc_no_chunk (arenaHintAlloc m) h msg Hl ltac:(by rewrite Hsz) Hbad) as E.
    by destruct (alloc (arenaHintAlloc m, h)) as [r [f' h']].
Qed.

(** With the allocator of hints as [mheap.init] leaves it, [mallocinit] makes
    a list of 128 hints that grow up, from 0xc000000000 on and 1 TiB apart, in
    memory apart from that of others, which does not change; it throws only
    when the kernel refuses memory. *)
Theorem mallocinit_hints m h foreign :
  OffHeap.init sizeof_arenaHint None 0 (Some other_sys) = Ok (arenaHintAlloc m) -> arenaHints m = 0 -> heap_inv h foreign -> stats_small h ->
  (exists m' h' l, mallocinit (m, h) = (Ok tt, (m', h')) /\ hints_inv (m', h') l foreign /\ initial_hints l /\ same_words foreign h h') \/
  refused persistentChunkSize h /\ exists msg, fst (mallocinit (m, h)) = Panic msg.
Proof. apply mallocinit_ok. Qed.

End Hints.

Lemma initial_hints_ok n l : initial_hints l -> Forall (hint_ok n) l.
Proof.
  intros Hl. assert (Forall (fun p => 0 < p.1 < 2 ^ 64 /\ p.2 = false) (map (fun e => (hint_at e, grows_down e)) l)) as H.
  { rewrite Hl. apply List.Forall_map, List.Forall_forall. intros i Hi. apply list_elem_of_In, elem_of_seqZ in Hi. cbn. lia. }
  rewrite List.Forall_map in H. eapply Forall_impl; [|exact H]. cbn. intros e [? E]. split; [done|]. by rewrite E.
Qed.

(** A heap before [mallocinit]. *)
Definition example_heap : mheap space :=
  mkMheap (mkFixalloc 104 None 0 0 0 0 0 0 None true) (mkFixalloc 24 None 0 0 (682 * 24) 0 0 0 (Some other_sys) true) 0 None
    (mkLinear 0 0 0 false) (mkLinear 0 0 0 false) [] 0 0 0 fresh_pages (mkPageCache 0 0) 0 [].

Lemma space_accepts : ~ refused persistentChunkSize (heap_init true).
Proof. intros (q & e & k & E). discriminate E. Qed.

Lemma mallocinit_hints_witness :
  exists m h l, mallocinit (example_heap, heap_init true) = (Ok tt, (m, h)) /\ hints_inv (m, h) l [] /\ initial_hints l.
Proof.
  destruct (mallocinit_hints example_heap (heap_init true) []) as [(m & h & l & E & Hi & Hl & _)|[Href _]].
  - reflexivity.
  - reflexivity.
  - apply heap_init_inv.
  - vm_compute. split; discriminate.
  - exists m, h, l. split; [exact E|]. split; [exact Hi|exact Hl].
  - destruct (space_accepts Href).
Defined.

Lemma try_hints_reserves_witness :
  exists m h l r m' h', initial_hints l /\ try_hints (length l) (2 ^ 26) (m, h) = (Ok r, (m', h')) /\
    (r = (0, 0) /\ all_refused (2 ^ 26) l (kern h) (kern h') /\ hints_inv (m', h') [] [] /\ same_mapping h h' \/
     exists l1 e l2 k, l = l1 ++ e :: l2 /\ all_refused (2 ^ 26) l1 (kern h) k /\ hint_granted (2 ^ 26) e k (kern h') /\
       r = (asked (2 ^ 26) e, 2 ^ 26) /\ asked (2 ^ 26) e + 2 ^ 26 <= 2 ^ 48 /\
       reserved (asked (2 ^ 26) e) (2 ^ 26) h h' /\ hints_inv (m', h') (moved (2 ^ 26) e :: l2) []).
Proof.
  destruct (mallocinit_ok example_heap (heap_init true) [] eq_refl eq_refl (heap_init_inv true)) as [(m & h & l & _ & Hi & Hl & _)|[Href _]].
  - vm_compute. split; discriminate.
  - destruct (try_hints_reserves m h l [] (2 ^ 26) Hi) as (r & m' & h' & E & _ & Hr); [lia|done|by apply initial_hints_ok|].
    exists m, h, l, r, m', h'. split; [exact Hl|]. split; [exact E|exact Hr].
  - destruct (space_accepts Href).
Defined.

(** The first reservations of a program are contiguous. *)
Example first_arenas :
  let '(r, s) := mallocinit (example_heap, heap_init true) in
  let '(r1, s1) := try_hints 128 (2 ^ 26) s in
  let '(r2, s2) := try_hints 128 (2 ^ 27) s1 in
  r1 = Ok (0xc000000000, 2 ^ 26) /\ r2 = Ok (0xc004000000, 2 ^ 27).
Proof. vm_compute. by split. Qed.
