(* ===== verification/HeapGrow.v ===== *)
(** * The heap cannot grow

    [mheap.sysAlloc] and [mheap.grow] pass nil where the memory they take must
    be counted: whatever the kernel answers, no arena is ever returned. *)
From S2P Require Import Prelude Bits64 PallocSum AddrRanges OsMem Regions OffHeap PersistentProps FixallocProps PageAlloc PageCache PageGrow Spans Heap Hints.

Local Open Scope Z_scope.
Local Open Scope go_scope.

(** ** Computations that do not run out of fuel *)

Section Total.
Context {St : Type}.

Definition total {A} (c : stateful St Empty_set A) : Prop := forall s, wp c (fun _ _ => True) s.

Lemma total_bind {A B} (c : stateful St Empty_set A) (k : A -> stateful St Empty_set B) :
  total c -> (forall a, total (k a)) -> total (st_bind c k).
Proof. intros Hc Hk s. wp_step. eapply wp_weaken; [apply Hc|]. intros a s' _. apply Hk. Qed.
Lemma total_ret {A} (a : A) : total (st_ret a).
Proof. done. Qed.
Lemma total_panic {A} msg : total (@st_lift St Empty_set A (Panic msg)).
Proof. done. Qed.
Lemma total_mod f : total (@st_mod St Empty_set f).
Proof. done. Qed.
Lemma total_get : total (@st_get St Empty_set).
Proof. done. Qed.
Lemma total_if {A} (b : bool) (c c' : stateful St Empty_set A) : total c -> total c' -> total (if b then c else c').
Proof. by destruct b. Qed.

End Total.

Create HintDb total.
#[export] Hint Resolve total_ret total_panic total_mod total_get : total.
Ltac solve_total := repeat first [solve [auto with total] | apply total_if | apply total_bind; [|intros ?]].

Section Grow.
Context {K : Type} `{!Kernel K}.
Implicit Types (h : heap K) (m : mheap K).

Lemma total_load a : total (@load_word K _ a).
Proof. intros h. unfold wp, load_word. by destruct (range_rw a PtrSize h). Qed.
Lemma total_store a v : total (@store_word K _ a v).
Proof. intros h. unfold wp, store_word. by destruct (range_rw a PtrSize h). Qed.
Lemma total_clear a n : total (@memclrNoHeapPointers K _ a n).
Proof. intros h. unfold wp, memclrNoHeapPointers. by destruct (range_rw a n h). Qed.
Lemma total_mmap a n prot fixed : total (@call_mmap K _ a n prot fixed).
Proof. intros h. unfold wp, call_mmap. by destruct (mmap a n prot fixed (kern h)) as [[p e] k]. Qed.
Lemma total_stat s n : total (@stat_add K s n).
Proof. intros h. unfold wp, stat_add, throw, st_lift. destruct s; [|done]. by destruct (_ || _). Qed.
Lemma total_throw {A} msg : total (@throw K A msg).
Proof. done. Qed.
#[local] Hint Resolve total_throw total_load total_store total_clear total_mmap total_stat : total.

Lemma total_sysAllocOS n : total (@sysAllocOS K _ n).
Proof. apply total_bind; [auto with total|]. intros [p [e|]]; solve_total. Qed.
#[local] Hint Resolve total_sysAllocOS : total.
Lemma total_sysReserve v n : total (@sysReserve K _ v n).
Proof. apply total_bind; [auto with total|]. intros [p [e|]]; auto with total. Qed.
Lemma total_sysFreeOS v n : total (@sysFreeOS K _ v n).
Proof. unfold sysFreeOS, call_munmap. auto with total. Qed.
Lemma total_sysMap v n s : total (@sysMap K _ v n s).
Proof.
  apply total_bind; [auto with total|]. intros _. apply total_bind; [auto with total|].
  intros [p [e|]]; solve_total.
Qed.
#[local] Hint Resolve total_sysReserve total_sysFreeOS : total.

Lemma total_persistentalloc size align s : total (@persistentalloc K _ size align s).
Proof.
  unfold persistentalloc, persistentalloc1, persistent_chunk, sysAlloc.
  solve_total.
Qed.
#[local] Hint Resolve total_persistentalloc : total.

(** A block that nobody counts is never returned. *)
Lemma persistentalloc_nil size align Q h : 0 < size < maxBlock -> wp (persistentalloc size align None) Q h.
Proof.
  intros Hs. unfold persistentalloc, persistentalloc1. destruct (Z.eqb_spec size 0); [lia|].
  destruct (negb _ && _); [done|]. destruct (_ <? _); [done|]. cbv zeta. destruct (Z.leb_spec maxBlock size); [lia|].
  wp_step. cbn [wp st_mod]. wp_step. cbn [wp st_get]. wp_step.
  eapply wp_weaken; [|intros [] h1 _; wp_step; apply wp_ok with h1 h1; [done|]; wp_step; eapply wp_ok; [reflexivity|]; cbn [is_other negb]; wp_step; by wp_step].
  apply total_if; unfold persistent_chunk, sysAlloc; [|auto with total].
  solve_total.
Qed.

(** ** The parts of the heap *)

(** A heap whose linear allocators are not set up, as on every 64-bit machine. *)
Definition no_linear m : Prop :=
  h_arena m = mkLinear 0 0 0 false /\ heapArenaAlloc m = mkLinear 0 0 0 false /\ f_first (arenaHintAlloc m) = None.

Lemma linear_nil size align : 0 < size < 2 ^ 64 -> align = 8 \/ align = heapArenaBytes -> linear_alloc (mkLinear 0 0 0 false) size align = 0.
Proof.
  intros Hs Ha. unfold linear_alloc. cbn [next end_]. assert (alignUp 0 align = 0) as -> by (by destruct Ha as [->| ->]).
  rewrite u64_small by lia. destruct (Z.ltb_spec 0 (0 + size)); [done|lia].
Qed.

Lemma wp_on_mem {A} (c : stateful (heap K) Empty_set A) Q m h : wp c (fun a h' => Q a (m, h')) h -> wp (on_mem c) Q (m, h).
Proof. unfold wp, on_mem. cbn [fst snd]. by destruct (c h) as [[] ?]. Qed.
Lemma wp_on_heap {A} (c : stateful (heap K) Empty_set A) (Q : A -> fixalloc K * heap K -> Prop) f h :
  wp c (fun a h' => Q a (f, h')) h -> wp (on_heap c) Q (f, h).
Proof. unfold wp, on_heap. cbn [fst snd]. by destruct (c h) as [[] ?]. Qed.
Lemma wp_on_hints {A} (c : stateful (fixalloc K * heap K) Empty_set A) (Q : A -> mheap K * heap K -> Prop) m h :
  wp c (fun a s => Q a (set_arenaHintAlloc (fst s) m, snd s)) (arenaHintAlloc m, h) -> wp (on_hints c) Q (m, h).
Proof. unfold wp, on_hints. cbn [fst snd]. by destruct (c _) as [[] [? ?]]. Qed.

(** A call whose result does not matter. *)
Lemma wp_total {St A} (c : stateful St Empty_set A) (Q : A -> St -> Prop) s : total c -> (forall a s', Q a s') -> wp c Q s.
Proof. intros Hc HQ. eapply wp_weaken; [apply Hc|auto]. Qed.

#[local] Abbreviation first_none := (fun (f : fixalloc K) => f_first f = None).

Lemma alloc_wp f h : first_none f -> wp alloc (fun _ s => first_none (fst s)) (f, h).
Proof.
  intros Hf. unfold alloc. wp_step. eapply wp_ok; [reflexivity|]. cbn [fst].
  destruct (_ =? 0); [done|]. destruct (negb _).
  - wp_step. apply wp_on_heap, wp_total; [auto with total|]. intros next h1. wp_step. eapply wp_ok; [reflexivity|].
    wp_step. eapply wp_ok; [reflexivity|]. wp_step. cbn [fst snd].
    apply (wp_weaken _ (fun _ s => first_none (fst s))); [|by intros _ s Hs; apply wp_ret].
    destruct (f_zero f); [by apply wp_on_heap, wp_total; [auto with total|]|done].
  - wp_step. apply (wp_weaken _ (fun _ s => first_none (fst s))).
    + destruct (_ <? _); [|done]. wp_step. apply wp_on_heap, wp_total; [auto with total|]. intros p h1. wp_step.
      eapply wp_ok; [reflexivity|]. eapply wp_ok; [reflexivity|]. done.
    + intros _ [f1 h1] Hf1. cbn [fst] in Hf1. wp_step. eapply wp_ok; [reflexivity|]. cbn [fst]. rewrite Hf1. wp_step. apply wp_ret.
      do 3 (wp_step; eapply wp_ok; [reflexivity|]). by apply wp_ret.
Qed.

Lemma add_hint_wp a d m h : no_linear m -> wp (add_hint a d) (fun _ s => no_linear (fst s)) (m, h).
Proof.
  intros (Ha & Hm & Hf). unfold add_hint. wp_step. apply wp_on_hints. eapply wp_weaken; [by apply alloc_wp|]. intros hint [f h1] Hf1.
  cbn [fst snd] in *. wp_step. apply wp_on_mem, wp_total; [auto with total|]. intros _ h2. wp_step.
  apply (wp_weaken _ (fun _ s => fst s = set_arenaHintAlloc f m)).
  - destruct d; [by apply wp_on_mem, wp_total; [auto with total|]|done].
  - intros _ [m3 h3] E. cbn [fst] in E. subst m3. wp_step. eapply wp_ok; [reflexivity|]. wp_step. apply wp_on_mem, wp_total; [auto with total|].
    intros _ h4. eapply wp_ok; [reflexivity|]. done.
Qed.

(** Metadata for one arena is enough to crash. *)
Lemma map_arenas_wp n ri register m h Q : no_linear m -> wp (map_arenas (S n) ri register) Q (m, h).
Proof.
  intros Hm. cbn [map_arenas]. wp_step. eapply wp_ok; [reflexivity|]. cbn [fst]. wp_step.
  apply (wp_weaken _ (fun _ s => True)).
  - destruct (h_arenas m); [done|]. wp_step. apply wp_on_mem, wp_total; [auto with total|]. intros a h1.
    destruct (a =? 0); [done|]. wp_step. eapply wp_ok; [reflexivity|]. done.
  - intros l2 [m1 h1] _. destruct (_ <=? _); [done|]. destruct (bool_decide _); [done|]. wp_step.
    destruct Hm as (_ & Hm & _). rewrite Hm. rewrite linear_nil by (unfold sizeof_heapArena; auto || lia). cbn [Z.eqb].
    wp_step. by apply wp_on_mem, persistentalloc_nil.
Qed.

(** ** What the search leaves alone *)

Definition linears m : linearAlloc * linearAlloc := (h_arena m, heapArenaAlloc m).
Definition frame {A} (c : stateful (mheap K * heap K) Empty_set A) : Prop := forall s, linears (fst (snd (c s))) = linears (fst s).

Lemma frame_bind {A B} (c : stateful (mheap K * heap K) Empty_set A) (k : A -> stateful (mheap K * heap K) Empty_set B) :
  frame c -> (forall a, frame (k a)) -> frame (st_bind c k).
Proof. intros Hc Hk s. specialize (Hc s). unfold st_bind. destruct (c s) as [[a| | |] s']; cbn [fst snd] in *; [by rewrite Hk|done..]. Qed.
Lemma frame_ret {A} (a : A) : frame (st_ret a).
Proof. done. Qed.
Lemma frame_lift {A} (r : res Empty_set A) : frame (st_lift r).
Proof. done. Qed.
Lemma frame_get : frame get_heap.
Proof. done. Qed.
Lemma frame_set p : frame (upd_heap (set_arenaHints p)).
Proof. done. Qed.
Lemma frame_on_mem {A} (c : stateful (heap K) Empty_set A) : frame (on_mem c).
Proof. intros [m h]. unfold on_mem. cbn [fst snd]. by destruct (c h). Qed.
Lemma frame_on_hints {A} (c : stateful (fixalloc K * heap K) Empty_set A) : frame (on_hints c).
Proof. intros [m h]. unfold on_hints. cbn [fst snd]. by destruct (c _) as [r [f h']]. Qed.
Lemma frame_if {A} (b : bool) (c c' : stateful (mheap K * heap K) Empty_set A) : frame c -> frame c' -> frame (if b then c else c').
Proof. by destruct b. Qed.
#[local] Hint Resolve frame_ret frame_lift frame_get frame_set frame_on_mem frame_on_hints : frame.
#[local] Ltac solve_frame := repeat first [solve [auto with frame] | apply frame_if | apply frame_bind; [|intros ?]].

Lemma frame_try_hints fuel n : frame (try_hints fuel n).
Proof. induction fuel as [|fuel IH]; cbn [try_hints]; solve_frame. Qed.

Lemma frame_mallocinit : frame mallocinit.
Proof. unfold mallocinit. generalize 128%nat. intros n. induction n as [|n IH]; cbn [make_hints]; solve_frame. Qed.

(** ** [mheap.sysAlloc] and [mheap.grow] *)

Context `{!KernelOk K}.

Lemma arenaIndex_le p q : 0 <= p <= q -> q < 2 ^ 48 -> arenaIndex p <= arenaIndex q.
Proof.
  unfold arenaIndex, u64. change arenaBaseOffset with (2 ^ 64 - 2 ^ 47). intros Hp Hq. apply Z.div_le_mono; [lia|].
  assert (forall x, 0 <= x < 2 ^ 48 -> (x - (2 ^ 64 - 2 ^ 47)) mod 2 ^ 64 = x + 2 ^ 47) as E.
  { intros x Hx. rewrite <- (Z.mod_add _ 1), Z.mod_small; lia. }
  rewrite !E; lia.
Qed.

(** A region below the top of the address space. *)
Definition usable (r : Z * Z) : Prop := fst r = 0 \/ 0 < fst r /\ 0 < snd r /\ fst r + snd r <= 2 ^ 48.

Lemma sysReserveAligned_wp v n h : 0 < n <= 2 ^ 46 -> n mod physPageSize = 0 ->
  wp (sysReserveAligned v n heapArenaBytes) (fun r _ => usable r) h.
Proof.
  intros Hn Hm. change heapArenaBytes with (2 ^ 26). unfold sysReserveAligned. rewrite (u64_small (n + 2 ^ 26)) by lia.
  assert ((n + 2 ^ 26) mod physPageSize = 0) as Hm' by (by rewrite Z.add_mod, Hm).
  destruct (sysReserve_ok v (n + 2 ^ 26) h) as (p & h1 & E & Hp); [lia|unfold physPageSize; lia|done|].
  wp_step. eapply wp_ok; [exact E|]. destruct (Z.eqb_spec p 0); [by left|]. destruct Hp as [[? _]|(Hp & _ & Hb & _)]; [done|].
  destruct (_ =? 0); [right; cbn [fst snd]; lia|].
  destruct (alignUp_spec 26 ltac:(lia) p ltac:(lia) ltac:(lia)) as [Hup _].
  wp_step. apply wp_total; [apply total_sysFreeOS|]. intros _ h2. wp_step.
  apply wp_total; [apply total_if; [apply total_sysFreeOS|auto with total]|]. intros _ h3. right. cbn [fst snd]. lia.
Qed.

Lemma mheap_sysAlloc_wp m h l foreign n register : hints_inv (m, h) l foreign -> no_linear m -> 0 < n <= 2 ^ 45 ->
  Forall (hint_ok (alignUp n heapArenaBytes)) l -> wp (mheap_sysAlloc (length l) n register) (fun r _ => r = (0, 0)) (m, h).
Proof.
  intros Hinv Hm Hn Hok. unfold mheap_sysAlloc. cbv zeta. change heapArenaBytes with (2 ^ 26) in *.
  destruct (alignUp_spec 26 ltac:(lia) n ltac:(lia) ltac:(lia)) as [HN Hmod]. set (N := alignUp n (2 ^ 26)) in *.
  wp_step. eapply wp_ok; [reflexivity|]. cbn [fst]. pose proof Hm as (Ha & _). rewrite Ha, linear_nil by (auto || lia). cbn [Z.eqb negb].
  wp_step. wp_step.
  assert (N mod physPageSize = 0) as HNp by (apply (mod_mod_0 N 12 26); [lia|done]).
  destruct (try_hints_ok m h l foreign N Hinv ltac:(lia) HNp Hok) as (r & m1 & h1 & E & _ & Hr). eapply wp_ok; [exact E|].
  assert (no_linear m1) as Hm1.
  { pose proof (frame_try_hints (length l) N (m, h)) as Hf. rewrite E in Hf. cbn [fst snd] in Hf. injection Hf as Hf1 Hf2.
    destruct Hm as (Ha1 & Ha2 & _). unfold no_linear. rewrite Hf1, Hf2. split; [done|]. split; [done|].
    by destruct Hr as [(_ & _ & [_ Hf _ _] & _)|(? & ? & ? & ? & _ & _ & _ & _ & _ & _ & [_ Hf _ _])]. }
  assert (usable r /\ (snd r = 0 -> fst r = 0)) as [Hr' Hr0].
  { destruct Hr as [(-> & _)|(l1 & e & l2 & k & -> & _ & _ & -> & H48 & _)]; [split; [by left|done]|]. cbn [fst snd]. split; [|lia].
    right. apply Forall_app in Hok as [_ Hok]. apply Forall_cons_iff in Hok as [He _].
    pose proof (asked_pos N e ltac:(lia) He). cbn [fst snd]. lia. }
  apply (wp_weaken _ (fun r s => usable r /\ no_linear (fst s))).
  - wp_step. apply (wp_weaken _ (fun r s => usable r /\ no_linear (fst s))).
    + destruct (Z.eqb_spec (snd r) 0) as [Hs0|Hs0]; [|apply wp_ret; by split].
      wp_step. apply wp_on_mem. eapply wp_weaken; [apply (sysReserveAligned_wp 0 N h1); [lia|done]|]. intros r2 h2 Hr2.
      destruct (Z.eqb_spec (fst r2) 0) as [|Hne]; [by split; [left|]|].
      wp_step. eapply wp_weaken; [by apply add_hint_wp|]. intros _ [m3 h3] Hm3.
      wp_step. eapply wp_weaken; [by apply add_hint_wp|]. intros _ [m4 h4] Hm4. apply wp_ret. by split.
    + intros r2 s2 [Hr2 Hm2]. destruct (Z.eqb_spec (fst r2) 0); [by split; [left|]|]. wp_step. unfold check_region. cbv zeta.
      destruct (if u64 _ <? _ then _ else _); [done|]. destruct (negb _); [done|]. apply wp_ret, wp_ret. by split.
  - intros r2 [m2 h2] [Hr2 Hm2]. cbn [fst] in Hm2. destruct (Z.eqb_spec (fst r2) 0) as [|Hne]; [done|].
    destruct Hr2 as [?|(Hp & Hs & Hb)]; [done|]. rewrite (u64_small (fst r2 + snd r2 - 1)) by lia.
    pose proof (arenaIndex_le (fst r2) (fst r2 + snd r2 - 1) ltac:(lia) ltac:(lia)) as Hle.
    destruct (Z.to_nat _) as [|k] eqn:Ek; [lia|]. wp_step. by apply map_arenas_wp.
Qed.

(** [mheap.grow] never makes the heap larger: it gives 0 and false, or
    crashes on the nil statistics it hands down, even when the kernel grants
    every reservation. *)
Theorem mheap_grow_fails m h l foreign npage : hints_inv (m, h) l foreign -> no_linear m -> 0 < npage <= 2 ^ 31 ->
  Forall (hint_ok (alignUp (u64 (alignUp npage pallocChunkPages * pageSize)) heapArenaBytes)) l ->
  (exists s, mheap_grow (length l) npage (m, h) = (Ok (0, false), s)) \/ exists msg, fst (mheap_grow (length l) npage (m, h)) = Panic msg.
Proof.
  intros Hinv Hm Hn Hok. cut (wp (mheap_grow (length l) npage) (fun r _ => r = (0, false)) (m, h)).
  { intros Hw. apply wp_inv in Hw as [(r & s & E & ->)|Hw]; [left; by exists s|by right]. }
  unfold mheap_grow. cbv zeta. destruct (alignUp_spec 9 ltac:(lia) npage ltac:(lia) ltac:(lia)) as [Hup _].
  change (2 ^ 9) with pallocChunkPages in Hup. set (ask := u64 _) in *.
  assert (0 < ask <= 2 ^ 45) as Hask.
  { unfold ask. change pallocChunkPages with 512 in *. change pageSize with 8192. rewrite u64_small; lia. }
  clearbody ask. wp_step. eapply wp_ok; [reflexivity|]. cbn [fst]. wp_step.
  apply (wp_weaken _ (fun r s => r = None \/ exists v, r = Some v)).
  - destruct (_ || _); [|right; by eexists]. wp_step. eapply wp_weaken; [by eapply mheap_sysAlloc_wp|]. intros r s ->. by left.
  - intros r [m1 h1] [->|[[t b] ->]]; [done|]. wp_step. eapply wp_ok; [reflexivity|]. wp_step. eapply wp_ok; [reflexivity|].
    wp_step. apply wp_on_mem. unfold sysMap. wp_step. done.
Qed.

End Grow.

(** The first growth, after [mallocinit]: the reservation at 0xc000000000 is
    granted, and lost. *)
Lemma mheap_grow_fails_witness :
  exists m h l, initial_hints l /\
    ((exists s, mheap_grow (length l) 1 (m, h) = (Ok (0, false), s)) \/ exists msg, fst (mheap_grow (length l) 1 (m, h)) = Panic msg).
Proof.
  destruct (mallocinit_ok example_heap (heap_init true) [] eq_refl eq_refl (heap_init_inv true)) as [(m & h & l & E & Hi & Hl & _)|[Href _]].
  - vm_compute. split; discriminate.
  - exists m, h, l. split; [exact Hl|]. apply (mheap_grow_fails m h l [] 1 Hi); [|lia|by apply initial_hints_ok].
    pose proof (frame_mallocinit (example_heap, heap_init true)) as Hf. rewrite E in Hf. injection Hf as Ha Hm.
    split; [exact Ha|]. split; [exact Hm|]. apply Hi.
  - destruct (space_accepts Href).
Defined.

Example first_growth :
  fst (mheap_grow 128 1 (snd (mallocinit (example_heap, heap_init true)))) = Panic "invalid memory address or nil pointer dereference".
Proof. vm_compute. reflexivity. Qed.
