(* ===== verification/SpanProps.v ===== *)
(** * Spans are laid out for their size class

    [initSpan] gives every small object of a span an index that the
    multiplication by [divMul] recovers from its offset. *)
From S2P Require Import Prelude Slice AddrRanges OsMem OffHeap PageAlloc Spans GcBits Heap.

Local Open Scope Z_scope.
Local Open Scope go_scope.

(** ** Size classes *)

Lemma sizeclass_makeSpanClass c ns : 0 <= c < 128 -> sizeclass (makeSpanClass c ns) = c /\ noscan (makeSpanClass c ns) = ns.
Proof.
  intros Hc. assert (forallb (fun c => forallb (fun b => (sizeclass (makeSpanClass c b) =? c) && Bool.eqb (noscan (makeSpanClass c b)) b) [true; false])
    (map Z.of_nat (seq 0 128)) = true) as H by (vm_compute; reflexivity).
  rewrite forallb_forall in H. specialize (H c). rewrite forallb_forall in H.
  specialize (H ltac:(apply in_map_iff; exists (Z.to_nat c); rewrite in_seq; lia) ns ltac:(destruct ns; cbn; auto)).
  apply andb_true_iff in H as [H1 H2]. apply Z.eqb_eq in H1. apply Bool.eqb_prop in H2. done.
Qed.

Lemma class_sizes : Forall (fun s => 8 <= s <= 2 ^ 15) (tail class_to_size).
Proof.
  assert (forallb (fun s => (8 <=? s) && (s <=? 2 ^ 15)) (tail class_to_size) = true) as H by (vm_compute; reflexivity).
  rewrite forallb_forall in H. apply List.Forall_forall. intros s Hs. specialize (H s Hs). bool_to_Prop. lia.
Qed.

(** The two tables at a class other than 0. *)
Lemma class_tables c : 0 < c < 68 -> exists size, slice_get class_to_size c = Ok size /\ 8 <= size <= 2 ^ 15 /\
  nth (Z.to_nat c) class_to_size 0 = size /\ slice_get class_to_divmagic c = Ok ((2 ^ 32 - 1) / size + 1).
Proof.
  intros Hc. assert (exists size, class_to_size !! Z.to_nat c = Some size) as [size E1] by (apply lookup_lt_is_Some_2; change (length class_to_size) with 68%nat; lia).
  assert (8 <= size <= 2 ^ 15) as Hs.
  { pose proof class_sizes as H. rewrite List.Forall_forall in H. apply H. replace (Z.to_nat c) with (S (Z.to_nat (c - 1))) in E1 by lia.
    apply list_elem_of_In. rewrite <- lookup_tail in E1. by eapply list_elem_of_lookup_2. }
  exists size. unfold slice_get, class_to_divmagic. rewrite list_lookup_fmap, E1. cbn [fmap option_fmap option_map].
  destruct (Z.eqb_spec size 0); [lia|]. destruct (Z.leb_spec 0 c); [|lia]. split; [done|]. split; [done|]. split; [|done]. by apply nth_lookup_Some.
Qed.

(** Rounding [2^32 / d] up divides small numbers by [d]. *)
Lemma magic_divides d n : 0 < d <= 2 ^ 15 -> 0 <= n <= 2 ^ 17 -> n * ((2 ^ 32 - 1) / d + 1) / 2 ^ 32 = n / d.
Proof.
  intros Hd Hn. pose proof (Z.div_mod (2 ^ 32 - 1) d ltac:(lia)) as Em. pose proof (Z.mod_pos_bound (2 ^ 32 - 1) d ltac:(lia)) as Hm.
  pose proof (Z.div_mod n d ltac:(lia)) as En. pose proof (Z.mod_pos_bound n d ltac:(lia)) as Hr.
  set (m := (2 ^ 32 - 1) / d + 1) in *. set (q := n / d) in *. set (r := n mod d) in *.
  assert (m * d = 2 ^ 32 + (d - 1 - (2 ^ 32 - 1) mod d)) as E by lia. set (e := d - 1 - (2 ^ 32 - 1) mod d) in *.
  symmetry. apply (Z.div_unique _ _ _ (n * m - q * 2 ^ 32)); [|lia]. left.
  assert (0 <= e < 2 ^ 15) as He by lia. clearbody e m q r. clear Em Hm.
  assert ((n * m - q * 2 ^ 32) * d = r * 2 ^ 32 + n * e) as Eq.
  { replace ((n * m - q * 2 ^ 32) * d) with (n * (m * d) - q * d * 2 ^ 32) by ring. rewrite E, En. ring. }
  assert (0 <= n * e < 2 ^ 32) by nia. nia.
Qed.

(** ** [initSpan] *)

Definition class_size (c nbytes : Z) : Z := if c =? 0 then nbytes else nth (Z.to_nat c) class_to_size 0.

(** A heap span of size class [c] over [[base, base + n * pageSize)]. *)
Record span_layout (sp : mspan) (sc base n : Z) (z : bool) (bits : Z) : Prop := {
  sl_place : startAddr sp = base /\ Spans.npages sp = n /\ sp_next sp = 0 /\ sp_prev sp = 0 /\ sp_list sp = 0;
  sl_class : spanclass sp = sc /\ elemsize sp = class_size (sizeclass sc) (n * pageSize);
  sl_zero : needzero sp = bool2int z;
  sl_free : freeindex sp = 0 /\ freeIndexForScan sp = 0 /\ allocCount sp = 0 /\ allocCache sp = 2 ^ 64 - 1 /\ allocBits sp = bits;
  sl_fit : 0 < elemsize sp /\ nelems sp * elemsize sp <= n * pageSize < nelems sp * elemsize sp + elemsize sp \/ sizeclass sc = 0 /\ nelems sp = 1;
  sl_index : sizeclass sc <> 0 -> n * pageSize <= 2 ^ 17 ->
    forall i off, 0 <= i < nelems sp -> 0 <= off < elemsize sp -> (i * elemsize sp + off) * divMul sp / 2 ^ 32 = i }.

Section InitSpan.
Context {K : Type} `{!Kernel K}.

Definition object_count (c nbytes : Z) : Z := if c =? 0 then 1 else nbytes / class_size c nbytes.

(** C24: a heap span that [initSpan] sets up for a size class is described by its
    fields: place, class, element size and number of elements that fit and fill
    the span, no object allocated, allocation bits, and [needzero] as
    [allocNeedsZero] answered; the multiplication by [divMul] gives the index of
    an object from every offset inside it. *)
Theorem initSpan_layout arenas g sp0 c ns base n z bits (st st1 st2 : list (heap K -> heap K) * heap K) :
  0 <= c < 68 -> 0 < n -> n * pageSize < 2 ^ 64 ->
  allocNeedsZero arenas base n st = (Ok z, st1) -> newAllocBits g (object_count c (n * pageSize)) st1 = (Ok bits, st2) ->
  exists sp, initSpan arenas g sp0 spanAllocHeap (makeSpanClass c ns) base n st = (Ok sp, st2) /\
    span_layout sp (makeSpanClass c ns) base n z bits.
Proof.
  intros Hc Hn Hmax Ez Eb. destruct (sizeclass_makeSpanClass c ns ltac:(lia)) as [Esc _]. unfold initSpan. cbv zeta.
  rewrite (bind_ok _ _ _ _ _ Ez). cbn [manual]. rewrite (u64_small (n * pageSize)) by (change pageSize with 8192 in *; lia).
  set (s1 := set_spanclass _ _). assert (spanclass s1 = makeSpanClass c ns) as -> by (unfold s1; by destruct z). rewrite Esc.
  unfold object_count, class_size in *.
  destruct (Z.eqb_spec c 0) as [->|Hc0].
  - step. rewrite (bind_ok _ _ _ _ _ Eb). eexists. split; [reflexivity|]. unfold s1. split; rewrite ?Esc.
    + destruct z; by repeat split.
    + destruct z; by repeat split.
    + by destruct z.
    + destruct z; by repeat split.
    + right. by destruct z.
    + done.
  - destruct (class_tables c ltac:(lia)) as (size & E1 & Hs & Enth & E2). rewrite Enth in *.
    rewrite (bind_ok _ _ st1 (set_divMul ((2 ^ 32 - 1) / size + 1) (set_nelems (n * pageSize / size) (set_elemsize size s1))) st1);
      [|unfold st_bind, st_lift; rewrite E1; destruct (Z.eqb_spec size 0); [lia|]; by rewrite E2].
    rewrite (bind_ok _ _ _ _ _ Eb).
    eexists. split; [reflexivity|]. pose proof (Z.div_mod (n * pageSize) size ltac:(lia)) as Ed. pose proof (Z.mod_pos_bound (n * pageSize) size ltac:(lia)) as Hr.
    pose proof (Z.div_pos (n * pageSize) size) as Hq. unfold s1. split; rewrite ?Esc.
    + destruct z; by repeat split.
    + unfold class_size. rewrite Enth. destruct (Z.eqb_spec c 0); [done|]. destruct z; by repeat split.
    + by destruct z.
    + destruct z; by repeat split.
    + left. change (0 < size /\ n * pageSize / size * size <= n * pageSize < n * pageSize / size * size + size). clear - Hs Ed Hr. lia.
    + intros _ Hsmall i off. change (0 <= i < n * pageSize / size -> 0 <= off < size -> (i * size + off) * ((2 ^ 32 - 1) / size + 1) / 2 ^ 32 = i).
      clear - Hs Ed Hr Hsmall Hq. intros Hi Hoff. rewrite magic_divides by nia.
      rewrite Z.div_add_l by lia. rewrite Z.div_small by lia. lia.
Qed.

End InitSpan.

(** One page for objects of 48 bytes. *)
Definition span_heap : heap space := set_words {[ 4112 := 8192 ]} (set_kern [(4096, 2 ^ 18, Some PROT_RW)] (heap_init true)).
Definition span_arenas : option (gmap Z Z) := Some {[ arenaIndex 0xc000000000 := 8000 ]}.
Definition zero_span : mspan := mkSpan 0 0 0 0 0 0 0 0 0 0 0 0 0 0 0 0.
Definition span_zeroed : list (heap space -> heap space) * heap space := snd (allocNeedsZero span_arenas 0xc000000000 1 ([], span_heap)).
Definition span_bits : list (heap space -> heap space) * heap space := snd (newAllocBits 4096 170 span_zeroed).

Lemma initSpan_layout_witness :
  exists sp, initSpan span_arenas 4096 zero_span spanAllocHeap (makeSpanClass 5 true) 0xc000000000 1 ([], span_heap) = (Ok sp, span_bits) /\
    nelems sp = 170 /\ elemsize sp = 48 /\ allocBits sp = 8208.
Proof.
  destruct (initSpan_layout span_arenas 4096 zero_span 5 true 0xc000000000 1 false 8208 ([], span_heap) span_zeroed span_bits) as (sp & E & Hl).
  - lia.
  - lia.
  - done.
  - vm_compute. reflexivity.
  - vm_compute. reflexivity.
  - exists sp. split; [exact E|]. destruct Hl as [_ [_ He] _ (_ & _ & _ & _ & Hb) Hf _].
    split; [|split; [exact He|exact Hb]]. change (class_size _ _) with 48 in He. change (1 * pageSize) with 8192 in Hf.
    change (sizeclass (makeSpanClass 5 true)) with 5 in Hf. rewrite He in Hf. lia.
Defined.
