(* ===== verification/Goroutine.v ===== *)
(** * Goroutines, sudogs, channels: the data of the runtime

    [src/channels_and_select/runtime2.go] and the types of [chan.go].  Pointers
    are numbers and [0] is [nil]; objects live in one heap per type.  One M
    runs the code: [curg] is its current goroutine (0 while on g0), [pp] its P.

    [stolen] and [stolen_next] say what other Ps do between two atomic accesses
    of this P: how many goroutines they take from its run queue, and whether
    they take [runnext].  [calls] records the calls of [lock] and [unlock],
    whose bodies are empty in the repository.  Assembly (stack switches, [gogo])
    and preemption requests are left out. *)
From S2P Require Import Prelude.

Local Open Scope Z_scope.
Local Open Scope go_scope.

Abbreviation ptr := Z.

(** ** [runtime2.go] *)

Definition Gidle : Z := 0.
Definition Grunnable : Z := 1.
Definition Grunning : Z := 2.
Definition Gsyscall : Z := 3.
Definition Gwaiting : Z := 4.
(** The value of [iota] here; the comment in the source says 9. *)
Definition Gpreempted : Z := 5.
Definition Gscan : Z := 0x1000.
Definition Gscanrunning : Z := Gscan + Grunning.
Definition Gscanpreempted : Z := Gscan + Gpreempted.

Definition waitReasonChanReceiveNilChan : Z := 3.
Definition waitReasonChanSendNilChan : Z := 4.
Definition waitReasonSelectNoCases : Z := 10.
Definition waitReasonChanReceive : Z := 14.
Definition waitReasonChanSend : Z := 15.

Definition waitReasonSyncMutexLock : Z := 21.
Definition waitReasonSyncRWMutexRLock : Z := 22.
Definition waitReasonSyncRWMutexLock : Z := 23.

Definition waitReasonStrings : list string := [
  "";
  "GC assist marking";
  "IO wait";
  "chan receive (nil chan)";
  "chan send (nil chan)";
  "dumping heap";
  "garbage collection";
  "garbage collection scan";
  "panicwait";
  "select";
  "select (no cases)";
  "GC assist wait";
  "GC sweep wait";
  "GC scavenge wait";
  "chan receive";
  "chan send";
  "finalizer wait";
  "force gc (idle)";
  "semacquire";
  "sleep";
  "sync.Cond.Wait";
  "sync.Mutex.Lock";
  "sync.RWMutex.RLock";
  "sync.RWMutex.Lock";
  "trace reader (blocked)";
  "wait for GC cycle";
  "GC worker (idle)";
  "GC worker (active)";
  "preempted";
  "debug call";
  "GC mark termination";
  "stopping the world"].

Definition waitReason_String (w : Z) : string :=
  if (w <? 0) || (u8 (len waitReasonStrings) <=? w) then "unknown wait reason"
  else default "unknown wait reason" (waitReasonStrings !! Z.to_nat w).

Definition isMutexWait (w : Z) : bool :=
  (w =? waitReasonSyncMutexLock) || (w =? waitReasonSyncRWMutexRLock) || (w =? waitReasonSyncRWMutexLock).

Record g : Type := mkG {
  atomicstatus : Z;
  g_m : ptr;
  param : ptr;
  schedlink : ptr;
  waitsince : Z;
  waitreason : Z;
  preempt : bool;
  activeStackChans : bool;
  parkingOnChan : bool;
  waiting : ptr }.
Definition set_atomicstatus (v : Z) (x : g) : g :=
  mkG v (g_m x) (param x) (schedlink x) (waitsince x) (waitreason x) (preempt x) (activeStackChans x)
    (parkingOnChan x) (waiting x).
Definition set_g_m (v : ptr) (x : g) : g :=
  mkG (atomicstatus x) v (param x) (schedlink x) (waitsince x) (waitreason x) (preempt x)
    (activeStackChans x) (parkingOnChan x) (waiting x).
Definition set_param (v : ptr) (x : g) : g :=
  mkG (atomicstatus x) (g_m x) v (schedlink x) (waitsince x) (waitreason x) (preempt x)
    (activeStackChans x) (parkingOnChan x) (waiting x).
Definition set_schedlink (v : ptr) (x : g) : g :=
  mkG (atomicstatus x) (g_m x) (param x) v (waitsince x) (waitreason x) (preempt x)
    (activeStackChans x) (parkingOnChan x) (waiting x).
Definition set_waitsince (v : Z) (x : g) : g :=
  mkG (atomicstatus x) (g_m x) (param x) (schedlink x) v (waitreason x) (preempt x)
    (activeStackChans x) (parkingOnChan x) (waiting x).
Definition set_waitreason (v : Z) (x : g) : g :=
  mkG (atomicstatus x) (g_m x) (param x) (schedlink x) (waitsince x) v (preempt x) (activeStackChans x)
    (parkingOnChan x) (waiting x).
Definition set_preempt (v : bool) (x : g) : g :=
  mkG (atomicstatus x) (g_m x) (param x) (schedlink x) (waitsince x) (waitreason x) v
    (activeStackChans x) (parkingOnChan x) (waiting x).
Definition set_activeStackChans (v : bool) (x : g) : g :=
  mkG (atomicstatus x) (g_m x) (param x) (schedlink x) (waitsince x) (waitreason x) (preempt x) v
    (parkingOnChan x) (waiting x).
Definition set_parkingOnChan (v : bool) (x : g) : g :=
  mkG (atomicstatus x) (g_m x) (param x) (schedlink x) (waitsince x) (waitreason x) (preempt x)
    (activeStackChans x) v (waiting x).
Definition set_waiting (v : ptr) (x : g) : g :=
  mkG (atomicstatus x) (g_m x) (param x) (schedlink x) (waitsince x) (waitreason x) (preempt x)
    (activeStackChans x) (parkingOnChan x) v.

Record sudog : Type := mkSudog {
  sg_g : ptr;
  next : ptr;
  prev : ptr;
  elem : ptr;
  releasetime : Z;
  isSelect : bool;
  success : bool;
  waitlink : ptr;
  sg_c : ptr }.
Definition set_sg_g (v : ptr) (x : sudog) : sudog :=
  mkSudog v (next x) (prev x) (elem x) (releasetime x) (isSelect x) (success x) (waitlink x) (sg_c x).
Definition set_next (v : ptr) (x : sudog) : sudog :=
  mkSudog (sg_g x) v (prev x) (elem x) (releasetime x) (isSelect x) (success x) (waitlink x) (sg_c x).
Definition set_prev (v : ptr) (x : sudog) : sudog :=
  mkSudog (sg_g x) (next x) v (elem x) (releasetime x) (isSelect x) (success x) (waitlink x) (sg_c x).
Definition set_elem (v : ptr) (x : sudog) : sudog :=
  mkSudog (sg_g x) (next x) (prev x) v (releasetime x) (isSelect x) (success x) (waitlink x) (sg_c x).
Definition set_releasetime (v : Z) (x : sudog) : sudog :=
  mkSudog (sg_g x) (next x) (prev x) (elem x) v (isSelect x) (success x) (waitlink x) (sg_c x).
Definition set_isSelect (v : bool) (x : sudog) : sudog :=
  mkSudog (sg_g x) (next x) (prev x) (elem x) (releasetime x) v (success x) (waitlink x) (sg_c x).
Definition set_success (v : bool) (x : sudog) : sudog :=
  mkSudog (sg_g x) (next x) (prev x) (elem x) (releasetime x) (isSelect x) v (waitlink x) (sg_c x).
Definition set_waitlink (v : ptr) (x : sudog) : sudog :=
  mkSudog (sg_g x) (next x) (prev x) (elem x) (releasetime x) (isSelect x) (success x) v (sg_c x).
Definition set_sg_c (v : ptr) (x : sudog) : sudog :=
  mkSudog (sg_g x) (next x) (prev x) (elem x) (releasetime x) (isSelect x) (success x) (waitlink x) v.

Record p : Type := mkP {
  schedtick : Z;
  runqhead : Z;
  runqtail : Z;
  runq : list ptr;
  runnext : ptr;
  sudogcache : list ptr;
  sudogcache_cap : Z }.
Definition set_schedtick (v : Z) (x : p) : p :=
  mkP v (runqhead x) (runqtail x) (runq x) (runnext x) (sudogcache x) (sudogcache_cap x).
Definition set_runqhead (v : Z) (x : p) : p :=
  mkP (schedtick x) v (runqtail x) (runq x) (runnext x) (sudogcache x) (sudogcache_cap x).
Definition set_runqtail (v : Z) (x : p) : p :=
  mkP (schedtick x) (runqhead x) v (runq x) (runnext x) (sudogcache x) (sudogcache_cap x).
Definition set_runq (v : list ptr) (x : p) : p :=
  mkP (schedtick x) (runqhead x) (runqtail x) v (runnext x) (sudogcache x) (sudogcache_cap x).
Definition set_runnext (v : ptr) (x : p) : p :=
  mkP (schedtick x) (runqhead x) (runqtail x) (runq x) v (sudogcache x) (sudogcache_cap x).
Definition set_sudogcache (v : list ptr) (x : p) : p :=
  mkP (schedtick x) (runqhead x) (runqtail x) (runq x) (runnext x) v (sudogcache_cap x).
Definition set_sudogcache_cap (v : Z) (x : p) : p :=
  mkP (schedtick x) (runqhead x) (runqtail x) (runq x) (runnext x) (sudogcache x) v.

Record gQueue : Type := mkGQueue { q_head : ptr; q_tail : ptr }.

Record schedt : Type := mkSched {
  sched_sudogcache : ptr;
  sched_runq : gQueue;
  sched_runqsize : Z }.
Definition set_sched_sudogcache (v : ptr) (x : schedt) : schedt :=
  mkSched v (sched_runq x) (sched_runqsize x).
Definition set_sched_runq (v : gQueue) (x : schedt) : schedt :=
  mkSched (sched_sudogcache x) v (sched_runqsize x).
Definition set_sched_runqsize (v : Z) (x : schedt) : schedt :=
  mkSched (sched_sudogcache x) (sched_runq x) v.

(** ** [chan.go] *)

Record waitq : Type := mkWaitq { wq_first : ptr; wq_last : ptr }.

Record hchan (V : Type) : Type := mkHchan {
  qcount : Z;
  dataqsiz : Z;
  buf : list V;
  closed : Z;
  sendx : Z;
  recvx : Z;
  recvq : waitq;
  sendq : waitq }.
Arguments mkHchan {V}.
Arguments qcount {V}.
Arguments dataqsiz {V}.
Arguments buf {V}.
Arguments closed {V}.
Arguments sendx {V}.
Arguments recvx {V}.
Arguments recvq {V}.
Arguments sendq {V}.
Definition set_qcount {V : Type} (v : Z) (x : hchan V) : hchan V :=
  mkHchan v (dataqsiz x) (buf x) (closed x) (sendx x) (recvx x) (recvq x) (sendq x).
Definition set_dataqsiz {V : Type} (v : Z) (x : hchan V) : hchan V :=
  mkHchan (qcount x) v (buf x) (closed x) (sendx x) (recvx x) (recvq x) (sendq x).
Definition set_buf {V : Type} (v : list V) (x : hchan V) : hchan V :=
  mkHchan (qcount x) (dataqsiz x) v (closed x) (sendx x) (recvx x) (recvq x) (sendq x).
Definition set_closed {V : Type} (v : Z) (x : hchan V) : hchan V :=
  mkHchan (qcount x) (dataqsiz x) (buf x) v (sendx x) (recvx x) (recvq x) (sendq x).
Definition set_sendx {V : Type} (v : Z) (x : hchan V) : hchan V :=
  mkHchan (qcount x) (dataqsiz x) (buf x) (closed x) v (recvx x) (recvq x) (sendq x).
Definition set_recvx {V : Type} (v : Z) (x : hchan V) : hchan V :=
  mkHchan (qcount x) (dataqsiz x) (buf x) (closed x) (sendx x) v (recvq x) (sendq x).
Definition set_recvq {V : Type} (v : waitq) (x : hchan V) : hchan V :=
  mkHchan (qcount x) (dataqsiz x) (buf x) (closed x) (sendx x) (recvx x) v (sendq x).
Definition set_sendq {V : Type} (v : waitq) (x : hchan V) : hchan V :=
  mkHchan (qcount x) (dataqsiz x) (buf x) (closed x) (sendx x) (recvx x) (recvq x) v.

(** ** The world *)

Inductive mutex : Type := hchan_lock (c : ptr) | sudoglock | sched_lock.
Inductive event : Type := Lock (l : mutex) | Unlock (l : mutex).

Record world (V : Type) : Type := mkWorld {
  chans : gmap ptr (hchan V);
  sudogs : gmap ptr sudog;
  gs : gmap ptr g;
  mem : gmap ptr V;
  pp : p;
  sched : schedt;
  curg : ptr;
  calls : list event;
  stolen : list Z;
  stolen_next : list bool }.
Arguments mkWorld {V}.
Arguments chans {V}.
Arguments sudogs {V}.
Arguments gs {V}.
Arguments mem {V}.
Arguments pp {V}.
Arguments sched {V}.
Arguments curg {V}.
Arguments calls {V}.
Arguments stolen {V}.
Arguments stolen_next {V}.
Definition set_chans {V : Type} (v : gmap ptr (hchan V)) (x : world V) : world V :=
  mkWorld v (sudogs x) (gs x) (mem x) (pp x) (sched x) (curg x) (calls x) (stolen x) (stolen_next x).
Definition set_sudogs {V : Type} (v : gmap ptr sudog) (x : world V) : world V :=
  mkWorld (chans x) v (gs x) (mem x) (pp x) (sched x) (curg x) (calls x) (stolen x) (stolen_next x).
Definition set_gs {V : Type} (v : gmap ptr g) (x : world V) : world V :=
  mkWorld (chans x) (sudogs x) v (mem x) (pp x) (sched x) (curg x) (calls x) (stolen x) (stolen_next x).
Definition set_mem {V : Type} (v : gmap ptr V) (x : world V) : world V :=
  mkWorld (chans x) (sudogs x) (gs x) v (pp x) (sched x) (curg x) (calls x) (stolen x) (stolen_next x).
Definition set_pp {V : Type} (v : p) (x : world V) : world V :=
  mkWorld (chans x) (sudogs x) (gs x) (mem x) v (sched x) (curg x) (calls x) (stolen x) (stolen_next x).
Definition set_sched {V : Type} (v : schedt) (x : world V) : world V :=
  mkWorld (chans x) (sudogs x) (gs x) (mem x) (pp x) v (curg x) (calls x) (stolen x) (stolen_next x).
Definition set_curg {V : Type} (v : ptr) (x : world V) : world V :=
  mkWorld (chans x) (sudogs x) (gs x) (mem x) (pp x) (sched x) v (calls x) (stolen x) (stolen_next x).
Definition set_calls {V : Type} (v : list event) (x : world V) : world V :=
  mkWorld (chans x) (sudogs x) (gs x) (mem x) (pp x) (sched x) (curg x) v (stolen x) (stolen_next x).
Definition set_stolen {V : Type} (v : list Z) (x : world V) : world V :=
  mkWorld (chans x) (sudogs x) (gs x) (mem x) (pp x) (sched x) (curg x) (calls x) v (stolen_next x).
Definition set_stolen_next {V : Type} (v : list bool) (x : world V) : world V :=
  mkWorld (chans x) (sudogs x) (gs x) (mem x) (pp x) (sched x) (curg x) (calls x) (stolen x) v.

Section Access.
Context {V : Type}.
#[local] Abbreviation M := (stateful (world V) Empty_set).

Definition panic {A} (s : string) : M A := st_lift (Panic s).
Definition nil_deref : string := "invalid memory address or nil pointer dereference".

Definition load {T} (heap : world V -> gmap ptr T) (a : ptr) : M T :=
  fun w => match heap w !! a with Some x => (Ok x, w) | None => (Panic nil_deref, w) end.
Definition update {T} (heap : world V -> gmap ptr T) (set : gmap ptr T -> world V -> world V)
    (a : ptr) (f : T -> T) : M unit :=
  fun w => match heap w !! a with
           | Some x => (Ok tt, set (<[a := f x]> (heap w)) w)
           | None => (Panic nil_deref, w)
           end.

Definition get_g : ptr -> M g := load gs.
Definition upd_g : ptr -> (g -> g) -> M unit := update gs set_gs.
Definition get_sg : ptr -> M sudog := load sudogs.
Definition upd_sg : ptr -> (sudog -> sudog) -> M unit := update sudogs set_sudogs.
Definition get_c : ptr -> M (hchan V) := load chans.
Definition upd_c : ptr -> (hchan V -> hchan V) -> M unit := update chans set_chans.

Definition get_pp : M p := fun w => (Ok (pp w), w).
Definition upd_pp (f : p -> p) : M unit := st_mod (fun w => set_pp (f (pp w)) w).
Definition get_sched : M schedt := fun w => (Ok (sched w), w).
Definition upd_sched (f : schedt -> schedt) : M unit := st_mod (fun w => set_sched (f (sched w)) w).

Definition lock (l : mutex) : M unit := st_mod (fun w => set_calls (calls w ++ [Lock l]) w).
Definition unlock (l : mutex) : M unit := st_mod (fun w => set_calls (calls w ++ [Unlock l]) w).

(** Memory of element values. *)
Definition memload (a : ptr) : M V := load mem a.
Definition memstore (a : ptr) (v : V) : M unit := update mem set_mem a (fun _ => v).

End Access.

(** ** Linked lists

    [chain h pv a l]: following [nxt] from [a] visits the nodes [l] and ends at
    nil; [back pv n] relates each node to the one before it. *)
Section Chain.
Context {N : Type} (nxt : N -> ptr) (back : ptr -> N -> Prop).

Fixpoint chain (h : gmap ptr N) (pv a : ptr) (l : list ptr) : Prop :=
  match l with
  | [] => a = 0
  | x :: l => a = x /\ x <> 0 /\ exists n, h !! x = Some n /\ back pv n /\ chain h x (nxt n) l
  end.

(** First and last node of a queue. *)
Definition queue_of (h : gmap ptr N) (f t : ptr) (l : list ptr) : Prop :=
  chain h 0 f l /\ t = List.last l 0 /\ NoDup l.

Lemma chain_cons h pv a x l :
  chain h pv a (x :: l) -> a = x /\ x <> 0 /\ exists n, h !! x = Some n /\ back pv n /\ chain h x
    (nxt n) l.
Proof. done. Qed.

Lemma chain_empty h pv l : chain h pv 0 l <-> l = [].
Proof. destruct l as [|x l]; [done|]. split; [intros (E & Hx & _); congruence|done]. Qed.

Lemma chain_lookup h pv a l x : chain h pv a l -> x ∈ l -> x <> 0 /\ exists n, h !! x = Some n.
Proof.
  revert pv a. induction l as [|y l IH]; intros pv a H Hx; [by apply not_elem_of_nil in Hx|].
  destruct H as (_ & Hy & n & Hn & _ & H). apply elem_of_cons in Hx as [->|Hx]; [by eauto|by eapply IH].
Qed.

(** Writing outside the list does not change it. *)
Lemma chain_insert_ne h pv a l x n : x ∉ l -> chain h pv a l -> chain (<[x := n]> h) pv a l.
Proof.
  revert pv a. induction l as [|y l IH]; intros pv a Hx H; [done|]. apply not_elem_of_cons in Hx as [Hxy
    Hx].
  destruct H as (-> & Hy & m & Hm & Hb & H). split; [done|]. split; [done|]. exists m.
  rewrite lookup_insert_ne by done. auto.
Qed.

(** Writing a node's other fields does not change it. *)
Lemma chain_insert_same h pv a l x n n' :
  h !! x = Some n -> nxt n' = nxt n -> (forall q, back q n -> back q n') ->
  chain h pv a l -> chain (<[x := n']> h) pv a l.
Proof.
  intros Hx Hn Hb. revert pv a. induction l as [|y l IH]; intros pv a H; [done|].
  destruct H as (-> & Hy & m & Hm & Hbm & H). split; [done|]. split; [done|].
  destruct (decide (x = y)) as [<-|Hne].
  - exists n'. rewrite lookup_insert_eq. assert (m = n) as -> by congruence. rewrite Hn. auto.
  - exists m. rewrite lookup_insert_ne by done. auto.
Qed.

Lemma chain_ext h h' pv a l : (forall x, x ∈ l -> h' !! x = h !! x) -> chain h pv a l -> chain h' pv a l.
Proof.
  revert pv a. induction l as [|y l IH]; intros pv a Heq H; [done|].
  destruct H as (-> & Hy & m & Hm & Hb & H). split; [done|]. split; [done|]. exists m.
  rewrite Heq by set_solver. split_and!; [done|done|]. apply IH; [|done]. intros x Hx. apply Heq. set_solver.
Qed.

Lemma chain_back h pv pv' a l :
  (forall x n, head l = Some x -> h !! x = Some n -> back pv n -> back pv' n) ->
  chain h pv a l -> chain h pv' a l.
Proof.
  destruct l as [|x l]; [done|]. intros Hb (-> & Hx & n & Hn & H1 & H2). split; [done|]. split; [done|].
  exists n. eauto.
Qed.

(** Linking a node behind the last one. *)
Lemma chain_snoc h pv a l y x ny ny' nx :
  chain h pv a (l ++ [y]) -> NoDup (l ++ [y]) -> x ∉ l ++ [y] -> x <> 0 ->
  h !! y = Some ny -> nxt ny' = x -> (forall q, back q ny -> back q ny') ->
  h !! x = Some nx -> nxt nx = 0 -> back y nx ->
  chain (<[y := ny']> h) pv a ((l ++ [y]) ++ [x]).
Proof.
  intros H Hnd Hx Hx0 Hy Hny Hb Hhx Hnx Hbx. revert pv a H. induction l as [|z l IH]; intros pv a H; cbn
    [app] in *.
  - destruct H as (-> & Hy0 & n & Hn & Hbn & _). split; [done|]. split; [done|]. exists ny'.
    rewrite lookup_insert_eq. assert
    (n = ny) as -> by congruence. split_and!; auto. rewrite Hny. split; [done|].
    split; [done|]. exists nx. rewrite lookup_insert_ne by set_solver. done.
  - destruct H as (-> & Hz0 & n & Hn & Hbn & H). apply list.NoDup_cons in Hnd as [Hz Hnd].
    apply not_elem_of_cons in Hx as [_ Hx]. split; [done|]. split; [done|]. exists n.
    rewrite lookup_insert_ne by set_solver. auto.
Qed.

End Chain.
