(* ===== verification/Sched.v ===== *)
(** * Parking and readying goroutines

    [src/channels_and_select/proc.go]: the queues linked through [schedlink],
    the P's run queue, the status changes and [gopark]/[goready].  [schedule]
    is empty in the repository.  A loop on a failing status CAS waits for the
    garbage collector; nobody else changes a status here, so it is [NoFuel]. *)
From S2P Require Import Prelude Goroutine.

Local Open Scope Z_scope.
Local Open Scope go_scope.

Section Sched.
Context {V : Type}.
#[local] Abbreviation M := (stateful (world V) Empty_set).

(** ** [gQueue] and [gList] *)

Definition gQueue_empty (q : gQueue) : bool := q_head q =? 0.

Definition gQueue_push (q : gQueue) (gp : ptr) : M gQueue :=
  upd_g gp (set_schedlink (q_head q)) ;;;
  st_ret (mkGQueue gp (if q_tail q =? 0 then gp else q_tail q)).

Definition gQueue_pushBack (q : gQueue) (gp : ptr) : M gQueue :=
  upd_g gp (set_schedlink 0) ;;;
  if negb (q_tail q =? 0) then
    upd_g (q_tail q) (set_schedlink gp) ;;; st_ret (mkGQueue (q_head q) gp)
  else st_ret (mkGQueue gp gp).

Definition gQueue_pushBackAll (q q2 : gQueue) : M gQueue :=
  if q_tail q2 =? 0 then st_ret q
  else
    upd_g (q_tail q2) (set_schedlink 0) ;;;
    if negb (q_tail q =? 0) then
      upd_g (q_tail q) (set_schedlink (q_head q2)) ;;; st_ret (mkGQueue (q_head q) (q_tail q2))
    else st_ret (mkGQueue (q_head q2) (q_tail q2)).

Definition gQueue_pop (q : gQueue) : M (ptr * gQueue) :=
  let gp := q_head q in
  if negb (gp =? 0) then
    let* x := get_g gp in
    let h := schedlink x in
    st_ret (gp, mkGQueue h (if h =? 0 then 0 else q_tail q))
  else st_ret (gp, q).

(** A [gList] is its head. *)
Definition gList_empty (l : ptr) : bool := l =? 0.

Definition gList_push (l gp : ptr) : M ptr := upd_g gp (set_schedlink l) ;;; st_ret gp.

Definition gList_pushAll (l : ptr) (q : gQueue) : M ptr :=
  if negb (gQueue_empty q) then upd_g (q_tail q) (set_schedlink l) ;;; st_ret (q_head q)
  else st_ret l.

Definition gList_pop (l : ptr) : M (ptr * ptr) :=
  if negb (l =? 0) then let* x := get_g l in st_ret (l, schedlink x) else st_ret (l, l).

(** ** The run queue of a P *)

Definition runq_len : Z := 256.

Definition runq_at (pp : p) (i : Z) : ptr := default 0 (runq pp !! Z.to_nat (i mod runq_len)).

(** [int32] arithmetic. *)
Definition i32 (z : Z) : Z := (z + 2 ^ 31) mod 2 ^ 32 - 2 ^ 31.

Definition globrunqputbatch (batch : gQueue) (n : Z) : M unit :=
  let* s := get_sched in
  let* q := gQueue_pushBackAll (sched_runq s) batch in
  upd_sched (fun s => set_sched_runqsize (i32 (sched_runqsize s + n)) (set_sched_runq q s)).

(** [batch[i].schedlink.set(batch[i+1])] *)
Fixpoint link_batch (batch : list ptr) : M unit :=
  match batch with
  | a :: (b :: _) as l => upd_g a (set_schedlink b) ;;; link_batch l
  | _ => st_ret tt
  end.

(** What the other Ps take from the run queue before the next CAS. *)
Definition steal : M unit :=
  fun w => match stolen w with
           | [] => (Ok tt, w)
           | k :: l => (Ok tt, set_stolen l (set_pp (set_runqhead (u32 (runqhead (pp w) + k)) (pp w)) w))
           end.

Definition runqputslow (gp : ptr) (h t : Z) : M bool :=
  let n := u32 (t - h) / 2 in
  if negb (n =? runq_len / 2) then panic "runqputslow: queue is not full"
  else
    let* pp := get_pp in
    let batch := map (fun i => runq_at pp (u32 (h + i))) (seqZ 0 n) in
    steal ;;;
    let* pp := get_pp in
    if negb (runqhead pp =? h) then st_ret false
    else
      upd_pp (set_runqhead (u32 (h + n))) ;;;
      let batch := batch ++ [gp] in
      link_batch batch ;;;
      let q := mkGQueue (List.hd 0 batch) (List.last batch 0) in
      lock sched_lock ;;;
      globrunqputbatch q (n + 1) ;;;
      unlock sched_lock ;;;
      st_ret true.

(** [retryNext]: the CAS fails when another P took [runnext] meanwhile. *)
Fixpoint put_runnext (others : list bool) (gp : ptr) : M ptr :=
  let* pp := get_pp in
  let oldnext := runnext pp in
  match others with
  | true :: others =>
      if oldnext =? 0 then upd_pp (set_runnext gp) ;;; st_ret oldnext
      else upd_pp (set_runnext 0) ;;; put_runnext others gp
  | _ => upd_pp (set_runnext gp) ;;; st_ret oldnext
  end.

(** [retry]: after the store into the queue the code goes on to
    [runqputslow]. *)
Fixpoint runqput_retry (fuel : nat) (gp : ptr) : M unit :=
  match fuel with
  | O => st_lift NoFuel
  | S fuel =>
      let* pp := get_pp in
      let h := runqhead pp in
      let t := runqtail pp in
      (if u32 (t - h) <? runq_len then
         upd_pp (fun pp => set_runq (<[Z.to_nat (t mod runq_len) := gp]> (runq pp)) pp) ;;;
         upd_pp (set_runqtail (u32 (t + 1)))
       else st_ret tt) ;;;
      let* ok := runqputslow gp h t in
      if (ok : bool) then st_ret tt else runqput_retry fuel gp
  end.

Definition runqput (gp : ptr) (next : bool) : M unit :=
  let retry gp := fun w => runqput_retry (2 + length (stolen w)) gp w in
  if next then
    let* w := st_get in
    let* oldnext := put_runnext (stolen_next w) gp in
    if oldnext =? 0 then st_ret tt else retry oldnext
  else retry gp.

(** ** Status changes *)

Definition casgstatus (gp : ptr) (oldval newval : Z) : M unit :=
  if negb (Z.land oldval Gscan =? 0) || negb (Z.land newval Gscan =? 0) || (oldval =? newval)
  then panic "casgstatus: bad incoming values"
  else
    let* x := get_g gp in
    if atomicstatus x =? oldval then upd_g gp (set_atomicstatus newval)
    else if (oldval =? Gwaiting) && (atomicstatus x =? Grunnable)
    then panic "casgstatus: waiting for Gwaiting but is Grunnable"
    else st_lift NoFuel.

Definition ready (gp : ptr) (next : bool) : M unit :=
  let* x := get_g gp in
  if negb (Z.ldiff (atomicstatus x) Gscan =? Gwaiting) then panic "bad g->statius in ready"
  else casgstatus gp Gwaiting Grunnable ;;; runqput gp next.

Definition goready (gp : ptr) : M unit := ready gp true.

(** The M is the number 1. *)
Definition execute (gp : ptr) (inheritTime : bool) : M unit :=
  st_mod (set_curg gp) ;;;
  upd_g gp (set_g_m 1) ;;;
  casgstatus gp Grunnable Grunning ;;;
  upd_g gp (fun x => set_preempt false (set_waitsince 0 x)) ;;;
  if inheritTime then st_ret tt else upd_pp (fun pp => set_schedtick (u32 (schedtick pp + 1)) pp).

Definition dropg : M unit :=
  let* w := st_get in
  upd_g (curg w) (set_g_m 0) ;;;
  st_mod (set_curg 0).

(** The result tells whether the goroutine stays parked. *)
Definition park_m (gp : ptr) (unlockf : option (ptr -> M bool)) : M bool :=
  casgstatus gp Grunning Gwaiting ;;;
  dropg ;;;
  match unlockf with
  | Some fn =>
      let* ok := fn gp in
      if (ok : bool) then st_ret true
      else casgstatus gp Gwaiting Grunnable ;;; execute gp true ;;; st_ret false
  | None => st_ret true
  end.

Definition gopark (unlockf : option (ptr -> M bool)) (reason : Z) : M bool :=
  let* w := st_get in
  let gp := curg w in
  let* x := get_g gp in
  let status := atomicstatus x in
  if negb (status =? Grunning) && negb (status =? Gscanrunning) then panic "gopark: bad g status"
  else
    upd_g gp (set_waitreason reason) ;;;
    park_m gp unlockf.

(** ** The cache of sudogs *)

(** [new(sudog)] *)
Definition new_sudog : M ptr :=
  fun w =>
    let a := fresh (0 :: elements (dom (sudogs w))) in
    (Ok a, set_sudogs (<[a := mkSudog 0 0 0 0 0 false false 0 0]> (sudogs w)) w).

(** The loop that refills the local cache from the central one. *)
Fixpoint refill (fuel : nat) : M unit :=
  let* pp := get_pp in
  let* s := get_sched in
  if (len (sudogcache pp) <? sudogcache_cap pp / 2) && negb (sched_sudogcache s =? 0) then
    match fuel with
    | O => st_lift NoFuel
    | S fuel =>
        let a := sched_sudogcache s in
        let* x := get_sg a in
        upd_sched (set_sched_sudogcache (next x)) ;;;
        upd_sg a (set_next 0) ;;;
        upd_pp (fun pp => set_sudogcache (sudogcache pp ++ [a]) pp) ;;;
        refill fuel
    end
  else st_ret tt.

Definition acquireSudog : M ptr :=
  let* pp := get_pp in
  (if len (sudogcache pp) =? 0 then
     lock sudoglock ;;;
     refill (Z.to_nat (sudogcache_cap pp)) ;;;
     unlock sudoglock ;;;
     let* pp := get_pp in
     if len (sudogcache pp) =? 0 then
       let* a := new_sudog in upd_pp (fun pp => set_sudogcache (sudogcache pp ++ [a]) pp)
     else st_ret tt
   else st_ret tt) ;;;
  let* pp := get_pp in
  let s := List.last (sudogcache pp) 0 in
  upd_pp (set_sudogcache (removelast (sudogcache pp))) ;;;
  let* x := get_sg s in
  if negb (elem x =? 0) then panic "acquireSudog: found s.elem != nil in cache" else st_ret s.

End Sched.
