(* ===== verification/SchedProps.v ===== *)
(** * Properties of the run queues

    [gQueue] and [gList] are lists linked through [schedlink]; [runqput] and
    the overflow into the global queue. *)
From S2P Require Import Prelude Goroutine Sched.

Local Open Scope Z_scope.
Local Open Scope go_scope.

(** ** Computing with [stateful] *)

Section Compute.
Context {V : Type}.
Implicit Types w : world V.

Lemma load_ok {T} (heap : world V -> gmap ptr T) a x w :
  heap w !! a = Some x -> load heap a w = (Ok x, w).
Proof. unfold load. by intros ->. Qed.

Lemma update_ok {T} (heap : world V -> gmap ptr T) set a f x w :
  heap w !! a = Some x -> update heap set a f w = (Ok tt, set (<[a := f x]> (heap w)) w).
Proof. unfold update. by intros ->. Qed.

Lemma upd_g_ok a f x w : gs w !! a = Some x -> upd_g a f w = (Ok tt, set_gs (<[a := f x]> (gs w)) w).
Proof. apply (update_ok gs set_gs). Qed.
Lemma get_g_ok a x w : gs w !! a = Some x -> get_g a w = (Ok x, w).
Proof. apply (load_ok gs). Qed.

End Compute.

#[export] Hint Rewrite @lookup_insert_eq : world.

Ltac step_load :=
  match goal with
  | |- context [st_bind (load ?heap ?a) ?k ?w] =>
      rewrite (bind_ok (load heap a) k w _ w) by (eapply load_ok; eassumption); cbn beta iota zeta
  end.

Section Queues.
Context {V : Type}.
Implicit Types w : world V.

Definition g_queue (h : gmap ptr g) (q : gQueue) (l : list ptr) : Prop :=
  queue_of schedlink (fun _ _ => True) h (q_head q) (q_tail q) l.

Definition g_list (h : gmap ptr g) (a : ptr) (l : list ptr) : Prop :=
  chain schedlink (fun _ _ => True) h 0 a l /\ NoDup l.

(** Only the links of the goroutines in [l] change from [h] to [h']. *)
Definition relinked (h h' : gmap ptr g) (l : list ptr) : Prop :=
  forall x, (x ∉ l -> h' !! x = h !! x) /\ forall n, h !! x = Some n -> exists k, h' !! x = Some (set_schedlink k n).

Lemma relinked_refl h l : relinked h h l.
Proof. intros x. split; [done|]. intros n Hn. exists (schedlink n). rewrite Hn. by destruct n. Qed.

Lemma relinked_one h x n k : h !! x = Some n -> relinked h (<[x := set_schedlink k n]> h) [x].
Proof.
  intros Hn y. split; [intros Hy; rewrite lookup_insert_ne by set_solver; done|]. intros m Hm.
  destruct (decide (x = y)) as [<-|Hne]; [exists k; rewrite lookup_insert_eq; congruence|].
  rewrite lookup_insert_ne by done. exists (schedlink m). rewrite Hm. by destruct m.
Qed.

Lemma relinked_trans h h' h'' l l' : relinked h h' l -> relinked h' h'' l' -> relinked h h'' (l ++ l').
Proof.
  intros H1 H2 x. split.
  - intros Hx. rewrite (proj1 (H2 x)), (proj1 (H1 x)) by set_solver. done.
  - intros n Hn. destruct (proj2 (H1 x) n Hn) as [k Hk]. destruct (proj2 (H2 x) _ Hk) as [k' Hk'].
    exists k'. by rewrite Hk'.
Qed.

Lemma queue_tail_in h q l : g_queue h q l -> l <> [] -> q_tail q ∈ l /\ q_tail q <> 0 /\ exists n, h !! q_tail q = Some n.
Proof.
  intros (Hc & -> & _) Hl. destruct (exists_last Hl) as (l' & x & ->). rewrite last_last in *.
  assert (x ∈ l' ++ [x]) as Hx by set_solver. split; [done|].
  destruct (chain_lookup _ _ _ _ _ _ _ Hc Hx) as [H1 H2]. done.
Qed.

Lemma queue_nil h q l : g_queue h q l -> q_head q = 0 <-> l = [].
Proof.
  intros (Hc & _ & _). destruct l as [|x l]; [by rewrite Hc|]. destruct Hc as (-> & Hx & _). split; [done|]. done.
Qed.

Lemma queue_tail_nil h q l : g_queue h q l -> q_tail q = 0 <-> l = [].
Proof.
  intros Hq. split; [|intros ->; by destruct Hq as (_ & -> & _)]. intros Ht.
  destruct l as [|x l]; [done|]. destruct (queue_tail_in h q (x :: l) Hq) as (_ & ? & _); done.
Qed.

(** Any list may come before the first node. *)
Lemma chain_any h pv pv' a l :
  chain schedlink (fun _ _ => True) h pv a l -> chain schedlink (fun _ _ => True) h pv' a l.
Proof. by apply chain_back. Qed.

Lemma chain_app_link h pv a b l y l2 ny :
  chain schedlink (fun _ _ => True) h pv a (l ++ [y]) ->
  chain schedlink (fun _ _ => True) h 0 b l2 -> NoDup ((l ++ [y]) ++ l2) -> h !! y = Some ny ->
  chain schedlink (fun _ _ => True) (<[y := set_schedlink b ny]> h) pv a ((l ++ [y]) ++ l2).
Proof.
  intros H H2 Hnd Hy. revert pv a H. induction l as [|z l IH]; intros pv a H; cbn [app] in *.
  - destruct H as (-> & Hy0 & _). split; [done|]. split; [done|]. exists (set_schedlink b ny).
    rewrite lookup_insert_eq. split_and!; [done|done|]. apply list.NoDup_cons in Hnd as [Hn _].
    apply chain_insert_ne; [done|]. by apply chain_any with 0.
  - destruct H as (-> & Hz & n & Hn & _ & H). apply list.NoDup_cons in Hnd as [Hz' Hnd].
    split; [done|]. split; [done|]. exists n. rewrite lookup_insert_ne by set_solver. auto.
Qed.

(** The chain of [batch], whose last link may be stale. *)
Definition batch_ok (h : gmap ptr g) (a : ptr) (b : list ptr) : Prop :=
  exists n, h !! List.last b 0 = Some n /\
            chain schedlink (fun _ _ => True) (<[List.last b 0 := set_schedlink 0 n]> h) 0 a b.

Lemma link_batch_ok b w : b <> [] -> NoDup b -> Forall (fun x => x <> 0 /\ is_Some (gs w !! x)) b ->
  exists h, link_batch b w = (Ok tt, set_gs h w) /\ relinked (gs w) h b /\ batch_ok h (hd 0 b) b.
Proof.
  revert w. induction b as [|a b IH]; intros w Hb Hnd Hall; [done|]. clear Hb.
  apply Forall_cons_iff in Hall as [[Ha0 [n Hn]] Hall]. apply list.NoDup_cons in Hnd as [Ha Hnd].
  destruct b as [|c b].
  { exists (gs w). split; [by destruct w|]. split; [apply relinked_refl|]. exists n. cbn [List.last hd].
    split; [done|]. split; [done|]. split; [done|]. eexists. rewrite lookup_insert_eq. done. }
  set (h1 := <[a := set_schedlink c n]> (gs w)).
  destruct (IH (set_gs h1 w)) as (h & Hl & Hr & m & Hm & Hc); [done|done| |].
  { eapply List.Forall_impl; [|exact Hall]. cbn. intros x [Hx [nx Hnx]]. split; [done|]. subst h1.
    destruct (decide (x = a)) as [->|]; [rewrite lookup_insert_eq; eauto|rewrite lookup_insert_ne by done; eauto]. }
  exists h. split.
  { cbn [link_batch]. rewrite (bind_ok _ _ _ _ _ (upd_g_ok a _ n w Hn)). exact Hl. }
  split; [exact (relinked_trans _ _ _ [a] (c :: b) (relinked_one _ _ _ _ Hn) Hr)|].
  change (List.last (a :: c :: b) 0) with (List.last (c :: b) 0). exists m. split; [done|].
  assert (List.last (c :: b) 0 ∈ c :: b) as Hin.
  { destruct (exists_last (l := c :: b)) as (l' & x & ->); [done|]. rewrite last_last. set_solver. }
  split; [done|]. split; [done|]. exists (set_schedlink c n). split; [|split; [done|by apply chain_any with 0]].
  rewrite lookup_insert_ne by set_solver. rewrite (proj1 (Hr a) Ha). apply lookup_insert_eq.
Qed.

Lemma pushBackAll_ok q q2 l l2 w :
  g_queue (gs w) q l -> l2 <> [] -> batch_ok (gs w) (q_head q2) l2 -> q_tail q2 = List.last l2 0 ->
  NoDup (l ++ l2) ->
  exists h q', gQueue_pushBackAll q q2 w = (Ok q', set_gs h w) /\ g_queue h q' (l ++ l2) /\
    relinked (gs w) h (l ++ l2).
Proof.
  intros Hq Hl2 (n & Hn & Hc2) Ht2 Hnd. unfold gQueue_pushBackAll.
  destruct (exists_last Hl2) as (l2' & y & E). assert (q_tail q2 = y) as Hy by (by rewrite Ht2, E, last_last).
  rewrite E, last_last in Hn, Hc2.
  assert (y <> 0) as Hy0 by (apply (chain_lookup _ _ _ _ _ _ y Hc2); set_solver).
  rewrite Hy, (proj2 (Z.eqb_neq y 0) Hy0).
  rewrite (bind_ok _ _ _ _ _ (upd_g_ok y _ n w Hn)).
  set (h1 := <[y := set_schedlink 0 n]> (gs w)) in *. rewrite <- E in Hc2.
  assert (y ∈ l2) as Hyl by (rewrite E; set_solver).
  destruct (decide (l = [])) as [->|Hl].
  - rewrite (proj2 (queue_tail_nil _ _ _ Hq) eq_refl). cbn [Z.eqb negb app]. exists h1. eexists.
    split; [reflexivity|]. split; [split; [exact Hc2|split; [|done]]; by rewrite E, last_last|].
    intros x. destruct (relinked_one (gs w) y n 0 Hn x) as [H1 H2]. split; [intros Hx; apply H1; set_solver|exact H2].
  - destruct (queue_tail_in _ _ _ Hq Hl) as (Htl & Ht0 & m & Hm). rewrite (proj2 (Z.eqb_neq _ 0) Ht0). cbn [negb].
    assert (q_tail q <> y) as Hne.
    { intros Ey. apply list.NoDup_app in Hnd as (_ & Hd & _). apply (Hd y); [by rewrite <- Ey|done]. }
    assert (h1 !! q_tail q = Some m) as Hm1 by (unfold h1; by rewrite lookup_insert_ne).
    rewrite (bind_ok _ _ _ _ _ (upd_g_ok (q_tail q) _ m (set_gs h1 w) Hm1)). cbn [gs set_gs].
    exists (<[q_tail q := set_schedlink (q_head q2) m]> h1). eexists. split; [reflexivity|]. cbn [q_head q_tail].
    destruct Hq as (Hc & Ht & Hnd1). destruct (exists_last Hl) as (l' & z & El).
    assert (q_tail q = z) as Hz by (by rewrite Ht, El, last_last). rewrite Hz in *. split.
    + split; [|split; [by rewrite E, app_assoc, last_last|done]]. rewrite El.
      apply chain_app_link; [|done|by rewrite <- El|done]. rewrite <- El. apply chain_insert_ne; [|done].
      intros Hin. apply list.NoDup_app in Hnd as (_ & Hd & _). by apply (Hd y).
    + intros x. destruct (relinked_trans _ _ _ _ _ (relinked_one (gs w) y n 0 Hn) (relinked_one h1 z m (q_head q2) Hm1) x)
        as [H1 H2]. split; [intros Hx; apply H1; set_solver|exact H2].
Qed.

End Queues.

(** ** The run queue *)

Section RunQueue.
Context {V : Type}.
Implicit Types w : world V.

(** The goroutines in a P's queue, oldest first. *)
Definition runq_size (pp : p) : Z := u32 (runqtail pp - runqhead pp).
Definition local_runq (pp : p) : list ptr :=
  map (fun i => runq_at pp (u32 (runqhead pp + i))) (seqZ 0 (runq_size pp)).

Definition runq_ok (pp : p) : Prop := len (runq pp) = runq_len /\ runq_size pp <= runq_len.

Lemma u32_mod_256 a : u32 a mod runq_len = a mod runq_len.
Proof. unfold u32, runq_len. apply Z.mod_mod_divide. by exists (2 ^ 24). Qed.

Lemma u32_add_u32 a b : u32 (u32 a + b) = u32 (a + b).
Proof. unfold u32. by rewrite Zplus_mod_idemp_l. Qed.

Lemma local_runq_len pp : len (local_runq pp) = runq_size pp.
Proof. unfold local_runq, len. rewrite length_map, length_seqZ. pose proof (u32_range (runqtail pp - runqhead pp)).
  unfold runq_size. lia. Qed.

(** Storing at the tail. *)
Lemma runq_store pp gp :
  runq_ok pp -> runq_size pp < runq_len ->
  local_runq (set_runqtail (u32 (runqtail pp + 1))
    (set_runq (<[Z.to_nat (runqtail pp mod runq_len) := gp]> (runq pp)) pp)) = local_runq pp ++ [gp].
Proof.
  intros [Hl Hs] Hlt. set (pp' := set_runqtail _ _). pose proof (u32_range (runqtail pp - runqhead pp)) as Hr.
  assert (runq_size pp' = runq_size pp + 1) as Hsz.
  { unfold runq_size, pp'. cbn. fold (runq_size pp) in *. unfold u32 in *. rewrite Zminus_mod_idemp_l.
    unfold runq_size, u32, runq_len in *.
    replace (runqtail pp + 1 - runqhead pp) with (runqtail pp - runqhead pp + 1) by lia.
    rewrite <- Zplus_mod_idemp_l. apply Z.mod_small. lia. }
  unfold local_runq at 1. rewrite Hsz. fold (runq_size pp) in Hr. rewrite seqZ_app by lia. rewrite map_app.
  assert (forall i, 0 <= i <= runq_size pp ->
    runq_at pp' (u32 (runqhead pp' + i)) = if i =? runq_size pp then gp else runq_at pp (u32 (runqhead pp + i))) as Hat.
  { intros i Hi. unfold runq_at, pp'. cbn. rewrite !u32_mod_256.
    assert (runqtail pp mod runq_len = (runqhead pp + runq_size pp) mod runq_len) as ->.
    { unfold runq_size. rewrite <- (Zplus_mod_idemp_r (u32 _)), u32_mod_256, Zplus_mod_idemp_r. f_equal. lia. }
    unfold len, runq_len in *. pose proof (Z.mod_pos_bound (runqhead pp + i) 256 ltac:(lia)).
    destruct (Z.eqb_spec i (runq_size pp)) as [->|Hne]; [rewrite list_lookup_insert_eq by lia; done|].
    rewrite list_lookup_insert_ne; [done|]. intros E.
    apply Z2Nat.inj in E; [|apply Z.mod_pos_bound; lia|apply Z.mod_pos_bound; lia].
    pose proof (Z.div_mod (runqhead pp + i) 256 ltac:(lia)).
    pose proof (Z.div_mod (runqhead pp + runq_size pp) 256 ltac:(lia)). lia. }
  f_equal.
  - unfold local_runq. apply map_ext_in. intros i Hi. apply list_elem_of_In, elem_of_seqZ in Hi.
    rewrite Hat by lia. by rewrite (proj2 (Z.eqb_neq i (runq_size pp))) by lia.
  - change (0 + runq_size pp) with (runq_size pp). rewrite seqZ_cons by lia. rewrite seqZ_nil by lia. cbn [map].
    rewrite Hat by lia. by rewrite Z.eqb_refl.
Qed.

(** Advancing the head. *)
Lemma runq_advance pp n :
  0 <= n <= runq_size pp ->
  local_runq (set_runqhead (u32 (runqhead pp + n)) pp) = drop (Z.to_nat n) (local_runq pp).
Proof.
  intros Hn. set (pp' := set_runqhead _ _). pose proof (u32_range (runqtail pp - runqhead pp)) as Hr.
  assert (runq_size pp' = runq_size pp - n) as Hsz.
  { unfold runq_size, pp'. cbn. unfold runq_size, u32 in *. rewrite Zminus_mod_idemp_r.
    replace (runqtail pp - (runqhead pp + n)) with (runqtail pp - runqhead pp - n) by lia.
    rewrite <- Zminus_mod_idemp_l. apply Z.mod_small. lia. }
  unfold local_runq. rewrite Hsz. replace (runq_size pp) with (n + (runq_size pp - n)) at 2 by lia.
  rewrite seqZ_app by lia. rewrite map_app, drop_app_length'.
  - apply list_eq. intros q. rewrite !list_lookup_fmap. destruct (decide (Z.of_nat q < runq_size pp - n)).
    + rewrite !lookup_seqZ_lt by lia. cbn. f_equal. unfold runq_at, pp'. cbn. rewrite u32_add_u32.
      do 3 f_equal. f_equal. f_equal. lia.
    + by rewrite !lookup_seqZ_ge by lia.
  - rewrite length_map, length_seqZ. lia.
Qed.

Lemma runqputslow_ok gp w gl :
  runq_ok (pp w) -> runq_size (pp w) = runq_len -> 0 <= runqhead (pp w) < 2 ^ 32 -> stolen w = [] ->
  g_queue (gs w) (sched_runq (sched w)) gl ->
  let batch := take 128 (local_runq (pp w)) ++ [gp] in
  NoDup (gl ++ batch) -> Forall (fun x => x <> 0 /\ is_Some (gs w !! x)) batch ->
  exists w', runqputslow gp (runqhead (pp w)) (runqtail (pp w)) w = (Ok true, w') /\
    local_runq (pp w') = drop 128 (local_runq (pp w)) /\
    g_queue (gs w') (sched_runq (sched w')) (gl ++ batch) /\
    sched_runqsize (sched w') = i32 (sched_runqsize (sched w) + 129) /\
    runnext (pp w') = runnext (pp w) /\ relinked (gs w) (gs w') (gl ++ batch).
Proof.
  intros Hok Hfull Hh Hst Hq batch Hnd Hb. unfold runqputslow. fold (runq_size (pp w)). rewrite Hfull.
  change (negb (runq_len / 2 =? runq_len / 2)) with false. cbn iota.
  set (n := runq_len / 2) in *. step. assert (steal w = (Ok tt, w)) as Es by (unfold steal; by rewrite Hst).
  step_with Es. step. rewrite Z.eqb_refl. cbn [negb]. step.
  set (w1 := set_pp _ w).
  assert (map (fun i => runq_at (pp w) (u32 (runqhead (pp w) + i))) (seqZ 0 n) = take 128 (local_runq (pp w))) as ->.
  { unfold local_runq. rewrite Hfull. change runq_len with (n + 128). rewrite seqZ_app by done. by rewrite map_app. }
  fold batch. assert (batch <> []) as Hne by (unfold batch; by destruct (take _ _)).
  destruct (link_batch_ok batch w1 Hne) as (h1 & Hl & Hr1 & Hbk); [by apply list.NoDup_app in Hnd as (_ & _ & ?)|done|].
  step_with Hl. step. set (w2 := set_calls _ _).
  assert (g_queue h1 (sched_runq (sched w)) gl) as Hq1.
  { destruct Hq as (Hc & Ht & Hnd'). split; [|done]. eapply chain_ext; [|exact Hc]. intros x Hx.
    apply Hr1. intros Hin. apply list.NoDup_app in Hnd as (_ & Hd & _). by apply (Hd x). }
  destruct (pushBackAll_ok (sched_runq (sched w)) (mkGQueue (hd 0 batch) (List.last batch 0)) gl batch w2)
    as (h2 & q2 & Hp & Hq2 & Hr2); try done.
  unfold globrunqputbatch. erewrite bind_ok.
  2: { step. step_with Hp. reflexivity. }
  cbn beta iota zeta. step. eexists. split; [reflexivity|]. cbn. split_and!; try done.
  - pose proof (runq_advance (pp w) n) as Ha. rewrite Ha by (rewrite Hfull; done). done.
  - pose proof (relinked_trans _ _ _ _ _ Hr1 Hr2) as Hr. intros x. destruct (Hr x) as [H1 H2].
    split; [intros Hx; apply H1; set_solver|exact H2].
Qed.

(** What [runqput] does with a goroutine.  When the local queue of 256 is
    full, its older half and then the new goroutine go to the back of the global
    queue, in order and without losing any, and the younger half stays.  When the
    local queue has room the goroutine is stored and then, because the return
    after the store is missing, the overflow path throws. *)
Theorem runqput_outcomes w gp gl :
  runq_ok (pp w) -> 0 <= runqhead (pp w) < 2 ^ 32 -> stolen w = [] ->
  g_queue (gs w) (sched_runq (sched w)) gl ->
  NoDup (gl ++ local_runq (pp w) ++ [gp]) ->
  Forall (fun x => x <> 0 /\ is_Some (gs w !! x)) (local_runq (pp w) ++ [gp]) ->
  (runq_size (pp w) = runq_len ->
     exists w', runqput gp false w = (Ok tt, w') /\
       local_runq (pp w') = drop 128 (local_runq (pp w)) /\
       g_queue (gs w') (sched_runq (sched w')) (gl ++ take 128 (local_runq (pp w)) ++ [gp]) /\
       sched_runqsize (sched w') = i32 (sched_runqsize (sched w) + 129)) /\
  (runq_size (pp w) < runq_len ->
     exists w', runqput gp false w = (Panic "runqputslow: queue is not full", w') /\
       local_runq (pp w') = local_runq (pp w) ++ [gp]).
Proof.
  intros Hok Hh Hst Hq Hnd Hall. unfold runqput. rewrite Hst. cbn [length Nat.add runqput_retry]. split; intros Hsz.
  - destruct (runqputslow_ok gp w gl Hok Hsz Hh Hst Hq) as (w' & Hs & H1 & H2 & H3 & _).
    + rewrite <- (take_drop 128 (local_runq (pp w))) in Hnd. clear -Hnd. revert Hnd.
      rewrite <- (app_assoc (take 128 _)), !list.NoDup_app. set_solver.
    + apply List.Forall_app in Hall as [H1 H2]. apply List.Forall_app. split; [by apply Forall_take|done].
    + exists w'. split; [|done]. step. fold (runq_size (pp w)). rewrite (proj2 (Z.ltb_ge _ _)) by lia.
      step. step_with Hs. reflexivity.
  - eexists. split.
    + step. fold (runq_size (pp w)). rewrite (proj2 (Z.ltb_lt _ _)) by lia. erewrite bind_ok; [|by step].
      cbn beta iota zeta. unfold runqputslow. fold (runq_size (pp w)).
      assert (runq_size (pp w) / 2 <> runq_len / 2) as Hne by (unfold runq_len in *; zdiv_lia).
      rewrite (proj2 (Z.eqb_neq _ _) Hne). reflexivity.
    + cbn. by apply runq_store.
Qed.

End RunQueue.

(** ** What the scheduler leaves alone *)

Section Quiet.
Context {V : Type}.
Implicit Types w : world V.

(** Nothing changes but run queues, links between goroutines and the record of
    lock calls. *)
Record quiet w w' : Prop := {
  q_chans : chans w' = chans w;
  q_sudogs : sudogs w' = sudogs w;
  q_mem : mem w' = mem w;
  q_curg : curg w' = curg w;
  q_cache : sudogcache (pp w') = sudogcache (pp w);
  q_central : sched_sudogcache (sched w') = sched_sudogcache (sched w);
  q_status : forall a, atomicstatus <$> gs w' !! a = atomicstatus <$> gs w !! a }.

#[export] Instance quiet_preorder : PreOrder quiet.
Proof. split; [by constructor|]. intros a b d [] []. constructor; try congruence. Qed.

Definition keeps {A} (R : world V -> world V -> Prop) (m : stateful (world V) Empty_set A) : Prop :=
  forall w, R w (snd (m w)).

Lemma preserves_bind {A B} (R : world V -> world V -> Prop) `{!PreOrder R} (m : stateful (world V) Empty_set A)
    (k : A -> stateful (world V) Empty_set B) :
  keeps R m -> (forall a, keeps R (k a)) -> keeps R (st_bind m k).
Proof.
  intros Hm Hk w. specialize (Hm w). unfold st_bind. destruct (m w) as [[a|e|s|] w1]; try done.
  etrans; [exact Hm|apply Hk].
Qed.

Lemma preserves_pure {A} (R : world V -> world V -> Prop) `{!PreOrder R} (m : stateful (world V) Empty_set A) :
  (forall w, snd (m w) = w) -> keeps R m.
Proof. intros H w. by rewrite H. Qed.

(** A call that does not change the state. *)
Ltac by_pure := apply preserves_pure; [apply _|done].

Lemma load_pure {T} (heap : world V -> gmap ptr T) a w : snd (load heap a w) = w.
Proof. unfold load. by destruct (heap w !! a). Qed.

(** Changing a goroutine without its status. *)
Lemma quiet_upd_g a f : (forall x, atomicstatus (f x) = atomicstatus x) -> keeps quiet (upd_g a f).
Proof.
  intros Hf w. unfold upd_g, update. destruct (gs w !! a) as [x|] eqn:E; [|done]. constructor; try done.
  intros b. cbn. destruct (decide (a = b)) as [<-|]; [rewrite lookup_insert_eq, E; cbn; by rewrite Hf|].
  by rewrite lookup_insert_ne.
Qed.

Lemma quiet_upd_pp f : (forall x, sudogcache (f x) = sudogcache x) -> keeps quiet (upd_pp f).
Proof. intros Hf w. by constructor; cbn. Qed.

Lemma quiet_upd_sched f : (forall x, sched_sudogcache (f x) = sched_sudogcache x) -> keeps quiet (upd_sched f).
Proof. intros Hf w. by constructor; cbn. Qed.

Lemma quiet_link_batch b : keeps quiet (link_batch b).
Proof.
  induction b as [|x [|y b] IH]; [by_pure..|]. apply preserves_bind; [apply _|by apply quiet_upd_g|done].
Qed.

Lemma quiet_pushBackAll q q2 : keeps quiet (gQueue_pushBackAll q q2).
Proof.
  unfold gQueue_pushBackAll. destruct (_ =? 0); [by_pure|].
  apply preserves_bind; [apply _|by apply quiet_upd_g|intros _]. destruct (negb _); [|by_pure].
  apply preserves_bind; [apply _|by apply quiet_upd_g|intros _; by_pure].
Qed.

Lemma quiet_steal : keeps quiet (steal (V:=V)).
Proof. intros w. unfold steal. destruct (stolen w); [done|]. by constructor. Qed.

Lemma quiet_runqputslow gp h t : keeps quiet (runqputslow gp h t).
Proof.
  unfold runqputslow. destruct (negb _); [by_pure|].
  apply preserves_bind; [apply _|by_pure|intros ?]. apply preserves_bind; [apply _|apply quiet_steal|intros _].
  apply preserves_bind; [apply _|by_pure|intros ?]. destruct (negb _); [by_pure|].
  apply preserves_bind; [apply _|by apply quiet_upd_pp|intros _]. apply preserves_bind; [apply _|apply quiet_link_batch|intros _].
  apply preserves_bind; [apply _|intros w; by constructor|intros _].
  apply preserves_bind; [apply _| |intros _; apply preserves_bind; [apply _|intros w; by constructor|intros _; by_pure]].
  unfold globrunqputbatch. apply preserves_bind; [apply _|by_pure|intros ?].
  apply preserves_bind; [apply _|apply quiet_pushBackAll|intros ?; by apply quiet_upd_sched].
Qed.

Lemma quiet_runqput gp next : keeps quiet (runqput gp next).
Proof.
  assert (forall fuel gp, keeps quiet (runqput_retry (V:=V) fuel gp)) as Hretry.
  { induction fuel as [|fuel IH]; intros a; [by_pure|].
    cbn [runqput_retry]. apply preserves_bind; [apply _|by_pure|intros x]. apply preserves_bind; [apply _| |intros _].
    - destruct (_ <? _); [|by_pure]. apply preserves_bind; [apply _|by apply quiet_upd_pp|intros _; by apply quiet_upd_pp].
    - apply preserves_bind; [apply _|apply quiet_runqputslow|intros [|]; [by_pure|apply IH]]. }
  assert (forall others, keeps quiet (put_runnext (V:=V) others gp)) as Hnext.
  { assert (keeps quiet (let* pp := get_pp (V:=V) in upd_pp (set_runnext gp) ;;; st_ret (runnext pp))) as Hcas.
    { apply preserves_bind; [apply _|by_pure|intros x].
      apply preserves_bind; [apply _|by apply quiet_upd_pp|intros _; by_pure]. }
    induction others as [|[|] others IH]; cbn [put_runnext]; try exact Hcas.
    apply preserves_bind; [apply _|by_pure|intros x]. destruct (_ =? 0).
    - apply preserves_bind; [apply _|by apply quiet_upd_pp|intros _; by_pure].
    - apply preserves_bind; [apply _|by apply quiet_upd_pp|intros _; apply IH]. }
  unfold runqput. destruct next; [|intros w; apply Hretry].
  apply preserves_bind; [apply _|by_pure|intros w]. apply preserves_bind; [apply _|apply Hnext|intros old].
  destruct (old =? 0); [by_pure|intros w'; apply Hretry].
Qed.

End Quiet.

(** A P whose queue holds the goroutines 1 to 256, and goroutine 257. *)
Definition full_world : world unit :=
  mkWorld ∅ ∅ (list_to_map (map (fun i => (i, mkG Grunnable 0 0 0 0 0 false false false 0)) (seqZ 1 257))) ∅
    (mkP 0 0 256 (seqZ 1 256) 0 [] 0) (mkSched 0 (mkGQueue 0 0) 0) 0 [] [] [].

Lemma runqput_outcomes_witness :
  exists w', runqput 257 false full_world = (Ok tt, w') /\
    local_runq (pp w') = drop 128 (local_runq (pp full_world)) /\
    g_queue (gs w') (sched_runq (sched w')) ([] ++ take 128 (local_runq (pp full_world)) ++ [257]) /\
    sched_runqsize (sched w') = i32 (0 + 129).
Proof.
  apply (runqput_outcomes full_world 257 []); try reflexivity.
  - split; vm_compute; congruence.
  - split; vm_compute; congruence.
  - split; [reflexivity|]. split; [reflexivity|constructor].
  - apply (bool_decide_unpack _). vm_compute. exact I.
  - apply (bool_decide_unpack _). vm_compute. exact I.
Defined.
