(* ===== verification/Chan.v ===== *)
(** * Channels

    [src/channels_and_select/chan.go].  An operation either returns or parks
    the goroutine: [call] holds the result or what runs when the goroutine is
    scheduled again.  An element is a value of [V]; element pointers are
    pointers into the memory [mem], and the slots of the circular buffer are a
    list.  [typedmemmove], [typedmemclr] and [memmove], whose bodies are empty
    in the repository, copy and clear as their comments say.

    The operations run between [lock] and [unlock], so each is one step; they
    ready goroutines with [goready] of [Sched]. *)
From S2P Require Import Prelude Goroutine Sched.

Local Open Scope Z_scope.
Local Open Scope go_scope.

Section Chan.
Context {V : Type} (zero : V).
#[local] Abbreviation M := (stateful (world V) Empty_set).

(** A call that returned, or parked with the rest of its body. *)
Inductive call (A : Type) : Type := Ret (a : A) | Park (resume : M A).
Arguments Ret {A} a.
Arguments Park {A} resume.
#[local] Abbreviation ret a := (st_ret (Ret a)).

(** ** [waitq] *)

Definition enqueue (q : waitq) (sgp : ptr) : M waitq :=
  upd_sg sgp (set_next 0) ;;;
  let x := wq_last q in
  if x =? 0 then upd_sg sgp (set_prev 0) ;;; st_ret (mkWaitq sgp sgp)
  else
    upd_sg sgp (set_prev x) ;;;
    upd_sg x (set_next sgp) ;;;
    st_ret (mkWaitq (wq_first q) sgp).

Definition dequeue (q : waitq) : M (ptr * waitq) :=
  let sgp := wq_first q in
  if sgp =? 0 then st_ret (0, q)
  else
    let* s := get_sg sgp in
    let y := next s in
    if y =? 0 then st_ret (sgp, mkWaitq 0 0)
    else
      upd_sg y (set_prev 0) ;;;
      upd_sg sgp (set_next 0) ;;;
      st_ret (sgp, mkWaitq y (wq_last q)).

Definition recvq_dequeue (c : ptr) : M ptr :=
  let* h := get_c c in
  let* r := dequeue (recvq h) in
  upd_c c (set_recvq (snd r)) ;;; st_ret (fst r).
Definition sendq_dequeue (c : ptr) : M ptr :=
  let* h := get_c c in
  let* r := dequeue (sendq h) in
  upd_c c (set_sendq (snd r)) ;;; st_ret (fst r).
Definition recvq_enqueue (c sg : ptr) : M unit :=
  let* h := get_c c in
  let* q := enqueue (recvq h) sg in
  upd_c c (set_recvq q).
Definition sendq_enqueue (c sg : ptr) : M unit :=
  let* h := get_c c in
  let* q := enqueue (sendq h) sg in
  upd_c c (set_sendq q).

(** ** Elements *)

Definition MulUintptr (a b : Z) : Z * bool :=
  if (Z.lor a b <? Z.shiftl 1 (4 * 8)) || (a =? 0) then (u64 (a * b), false)
  else (u64 (a * b), (2 ^ 64 - 1) / a <? b).

Definition chanbuf_load (h : hchan V) (i : Z) : M V :=
  match (if 0 <=? i then buf h !! Z.to_nat i else None) with
  | Some v => st_ret v
  | None => panic "read outside the buffer"
  end.
Definition chanbuf_store (c : ptr) (i : Z) (v : V) : M unit :=
  let* h := get_c c in
  let* _ := chanbuf_load h i in
  upd_c c (set_buf (<[Z.to_nat i := v]> (buf h))).

(** [if ep != nil { typedmemmove(c.elemtype, ep, src) }] and the clearing. *)
Definition copy_out (ep : ptr) (v : V) : M unit := if ep =? 0 then st_ret tt else memstore ep v.
Definition clear_out (ep : ptr) : M unit := copy_out ep zero.

Definition full (h : hchan V) : bool :=
  if dataqsiz h =? 0 then wq_first (recvq h) =? 0 else qcount h =? dataqsiz h.

Definition empty (h : hchan V) : bool :=
  if dataqsiz h =? 0 then wq_first (sendq h) =? 0 else qcount h =? 0.

(** [x++; if x == c.dataqsiz { x = 0 }] *)
Definition advance (h : hchan V) (x : Z) : Z := let x := u64 (x + 1) in if x =? dataqsiz h then 0 else x.

(** ** [makechan] *)

Record elemtype : Type := mkElem { el_size : Z; el_align : Z; el_ptrdata : Z }.

Definition hchanSize : Z := 112.
Definition maxAlign : Z := 8.
Definition maxAlloc : Z := 2 ^ 48.

Definition makechan (elem : elemtype) (size : Z) : M ptr :=
  if 2 ^ 16 <=? el_size elem then panic "makechan: invalid channel element type"
  else if negb (hchanSize mod maxAlign =? 0) || (maxAlign <? el_align elem) then panic "makechan: bad alignment"
  else
    let '(mem, overflow) := MulUintptr (el_size elem) (u64 size) in
    if overflow || (maxAlloc - hchanSize <? mem) || (size <? 0) then panic "makechan: size out of range"
    else fun w =>
      let c := fresh (0 :: elements (dom (chans w))) in
      let h := mkHchan 0 (u64 size) (repeat zero (Z.to_nat size)) 0 0 0 (mkWaitq 0 0) (mkWaitq 0 0) in
      (Ok c, set_chans (<[c := h]> (chans w)) w).

(** The check that [size] fits an [int] holds on a 64-bit platform. *)
Definition makechan64 (elem : elemtype) (size : Z) : M ptr :=
  if negb (i64 size =? size) then panic "makechan: size out of range" else makechan elem (i64 size).

(** ** Parking on a channel *)

Definition chanparkcommit (c gp : ptr) : M bool :=
  upd_g gp (set_activeStackChans true) ;;;
  upd_g gp (set_parkingOnChan false) ;;;
  unlock (hchan_lock c) ;;;
  st_ret true.

(** The sudog of the current goroutine for the element [ep]; [chansend] also
    records the channel in it. *)
Definition new_waiter (ep c : ptr) : M ptr :=
  let* w := st_get in
  let gp := curg w in
  let* mysg := acquireSudog in
  upd_sg mysg (fun s => set_isSelect false (set_sg_g gp (set_waitlink 0 (set_elem ep (set_releasetime 0 s))))) ;;;
  (if c =? 0 then st_ret tt else upd_sg mysg (set_sg_c c)) ;;;
  upd_g gp (fun x => set_param 0 (set_waiting mysg x)) ;;;
  st_ret mysg.

Definition park_on (c : ptr) (reason : Z) : M bool :=
  let* w := st_get in
  upd_g (curg w) (set_parkingOnChan true) ;;;
  gopark (Some (chanparkcommit c)) reason.

(** ** Send *)

(** A waiting receiver is taken off the queue and [true] is returned: the call
    of [send] is commented out, and so is the [unlock] it would do. *)
Definition chansend (c ep : ptr) (block : bool) : M (call bool) :=
  if c =? 0 then
    if negb block then ret false
    else gopark None waitReasonChanSendNilChan ;;; st_ret (Park (panic "unreachable"))
  else
    let* h := get_c c in
    if negb block && (closed h =? 0) && full h then ret false
    else
      lock (hchan_lock c) ;;;
      if negb (closed h =? 0) then unlock (hchan_lock c) ;;; panic "send on closed channel"
      else
        let* sg := recvq_dequeue c in
        if negb (sg =? 0) then ret true
        else if qcount h <? dataqsiz h then
          let* v := memload ep in
          chanbuf_store c (sendx h) v ;;;
          upd_c c (fun h => set_qcount (u64 (qcount h + 1)) (set_sendx (advance h (sendx h)) h)) ;;;
          unlock (hchan_lock c) ;;;
          ret true
        else if negb block then unlock (hchan_lock c) ;;; ret false
        else
          let* mysg := new_waiter ep c in
          sendq_enqueue c mysg ;;;
          park_on c waitReasonChanSend ;;;
          st_ret (Park (st_ret true)).

(** [send] is not called by [chansend]. *)
Definition send (c sg ep : ptr) : M unit :=
  let* s := get_sg sg in
  (if negb (elem s =? 0) then
     let* v := memload ep in
     memstore (elem s) v ;;; upd_sg sg (set_elem 0)
   else st_ret tt) ;;;
  unlock (hchan_lock c) ;;;
  upd_g (sg_g s) (set_param sg) ;;;
  upd_sg sg (set_success true) ;;;
  goready (sg_g s).

(** ** Receive *)

Definition recv (c sg ep : ptr) : M unit :=
  let* h := get_c c in
  let* s := get_sg sg in
  (if dataqsiz h =? 0 then
     if negb (ep =? 0) then let* v := memload (elem s) in memstore ep v else st_ret tt
   else
     let* v := chanbuf_load h (recvx h) in
     copy_out ep v ;;;
     let* v := memload (elem s) in
     chanbuf_store c (recvx h) v ;;;
     upd_c c (fun h => let x := advance h (recvx h) in set_sendx x (set_recvx x h))) ;;;
  upd_sg sg (set_elem 0) ;;;
  unlock (hchan_lock c) ;;;
  upd_sg sg (set_success true) ;;;
  goready (sg_g s).

(** A receiver that was parked reports [true, true] whatever woke it. *)
Definition chanrecv (c ep : ptr) (block : bool) : M (call (bool * bool)) :=
  if c =? 0 then
    if negb block then ret (false, false)
    else gopark None waitReasonChanReceiveNilChan ;;; st_ret (Park (panic "unreachable"))
  else
    let* h := get_c c in
    if negb block && empty h && (closed h =? 0) then ret (false, false)
    else if negb block && empty h then clear_out ep ;;; ret (true, false)
    else
      lock (hchan_lock c) ;;;
      if negb (closed h =? 0) && (qcount h =? 0) then
        unlock (hchan_lock c) ;;; clear_out ep ;;; ret (true, false)
      else
        let* sg := (if closed h =? 0 then sendq_dequeue c else st_ret 0) in
        if negb (sg =? 0) then recv c sg ep ;;; ret (true, true)
        else if 0 <? qcount h then
          let* v := chanbuf_load h (recvx h) in
          copy_out ep v ;;;
          chanbuf_store c (recvx h) zero ;;;
          upd_c c (fun h => set_qcount (u64 (qcount h - 1)) (set_recvx (advance h (recvx h)) h)) ;;;
          unlock (hchan_lock c) ;;;
          ret (true, true)
        else if negb block then unlock (hchan_lock c) ;;; ret (false, false)
        else
          let* mysg := new_waiter ep 0 in
          recvq_enqueue c mysg ;;;
          park_on c waitReasonChanReceive ;;;
          st_ret (Park (st_ret (true, true))).

(** ** Close *)

(** [for { sg := q.dequeue(); if sg == nil { break }; ...; glist.push(gp) }] *)
Fixpoint release (dequeue : M ptr) (body : ptr -> M ptr) (fuel : nat) (glist : ptr) : M ptr :=
  let* sg := dequeue in
  if sg =? 0 then st_ret glist
  else
    match fuel with
    | O => st_lift NoFuel
    | S fuel =>
        let* gp := body sg in
        let* glist := gList_push glist gp in
        release dequeue body fuel glist
    end.

Definition release_reader (sg : ptr) : M ptr :=
  let* s := get_sg sg in
  (if negb (elem s =? 0) then memstore (elem s) zero ;;; upd_sg sg (set_elem 0) else st_ret tt) ;;;
  upd_g (sg_g s) (set_param sg) ;;;
  upd_sg sg (set_success false) ;;;
  st_ret (sg_g s).

Definition release_writer (sg : ptr) : M ptr :=
  let* s := get_sg sg in
  upd_sg sg (set_elem 0) ;;;
  upd_sg sg (set_success false) ;;;
  st_ret (sg_g s).

Fixpoint ready_all (fuel : nat) (glist : ptr) : M unit :=
  if gList_empty glist then st_ret tt
  else
    match fuel with
    | O => st_lift NoFuel
    | S fuel =>
        let* r := gList_pop glist in
        upd_g (fst r) (set_schedlink 0) ;;;
        goready (fst r) ;;;
        ready_all fuel (snd r)
    end.

(** No loop runs more often than there are sudogs or goroutines. *)
Definition closechan (c : ptr) : M unit :=
  if c =? 0 then panic "close of nil channel"
  else
    lock (hchan_lock c) ;;;
    let* h := get_c c in
    if negb (closed h =? 0) then unlock (hchan_lock c) ;;; panic "close of closed channel"
    else
      upd_c c (set_closed 1) ;;;
      let* w := st_get in
      let* glist := release (recvq_dequeue c) release_reader (size (sudogs w)) 0 in
      let* glist := release (sendq_dequeue c) release_writer (size (sudogs w)) glist in
      unlock (hchan_lock c) ;;;
      ready_all (size (gs w)) glist.

End Chan.
Arguments Ret {V A} a.
Arguments Park {V A} resume.
