(* ===== verification/ChanLists.v ===== *)
(** * Lists of a channel

    The linked wait queues and the circular buffer represent lists. *)
From S2P Require Import Prelude Goroutine Sched SchedProps Chan.

Local Open Scope Z_scope.
Local Open Scope go_scope.

Section WaitQueue.
Context {V : Type}.
Implicit Types w : world V.

Lemma upd_sg_ok a f x w : sudogs w !! a = Some x -> upd_sg a f w = (Ok tt, set_sudogs (<[a := f x]> (sudogs w)) w).
Proof. apply (update_ok sudogs set_sudogs). Qed.
Lemma get_sg_ok a x w : sudogs w !! a = Some x -> get_sg a w = (Ok x, w).
Proof. apply (load_ok sudogs). Qed.
Lemma upd_c_ok a f x w : chans w !! a = Some x -> upd_c a f w = (Ok tt, set_chans (<[a := f x]> (chans w)) w).
Proof. apply (update_ok chans set_chans). Qed.
Lemma get_c_ok a x w : chans w !! a = Some x -> get_c a w = (Ok x, w).
Proof. apply (load_ok chans). Qed.

(** The queue [q] holds the sudogs [l], first to last. *)
Definition waitq_of (h : gmap ptr sudog) (q : waitq) (l : list ptr) : Prop :=
  queue_of next (fun pv s => prev s = pv) h (wq_first q) (wq_last q) l.

(** Only links of the sudogs in [l] change from [h] to [h']. *)
Definition rechained (h h' : gmap ptr sudog) (l : list ptr) : Prop :=
  forall a, (a ∉ l -> h' !! a = h !! a) /\ exists n pv, h' !! a = (fun s => set_next n (set_prev pv s)) <$> h !! a.

Lemma same_links (o : option sudog) : exists n pv, o = (fun s => set_next n (set_prev pv s)) <$> o.
Proof. destruct o as [s|]; [exists (next s), (prev s); by destruct s|by exists 0, 0]. Qed.

Lemma rechained_refl h l : rechained h h l.
Proof. intros a. split; [done|]. apply same_links. Qed.

Lemma rechained_one h a s n pv : h !! a = Some s -> rechained h (<[a := set_next n (set_prev pv s)]> h) [a].
Proof.
  intros Hs b. split; [intros Hb; by rewrite lookup_insert_ne by set_solver|].
  destruct (decide (a = b)) as [<-|Hne]; [exists n, pv; by rewrite lookup_insert_eq, Hs|].
  rewrite lookup_insert_ne by done. apply same_links.
Qed.

Lemma rechained_weaken h h' l l' : (forall a, a ∈ l -> a ∈ l') -> rechained h h' l -> rechained h h' l'.
Proof. intros Hl H a. destruct (H a) as [H1 H2]. split; [|done]. intros Ha. apply H1. intros ?. by apply Ha, Hl. Qed.

Lemma rechained_trans h h' h'' l : rechained h h' l -> rechained h' h'' l -> rechained h h'' l.
Proof.
  intros H1 H2 a. split.
  - intros Ha. by rewrite (proj1 (H2 a) Ha), (proj1 (H1 a) Ha).
  - destruct (proj2 (H1 a)) as (n & pv & Hk), (proj2 (H2 a)) as (n' & pv' & Hk').
    exists n', pv'. rewrite Hk', Hk. by destruct (h !! a).
Qed.

Lemma waitq_first h q l : waitq_of h q l -> wq_first q = hd 0 l.
Proof. intros (Hc & _). destruct l as [|x l]; [done|]. by destruct Hc as [-> _]. Qed.

Lemma waitq_nil h q l : waitq_of h q l -> wq_first q = 0 <-> l = [].
Proof.
  intros (Hc & _). destruct l as [|x l]; [by rewrite Hc|]. destruct Hc as (-> & Hx & _). split; done.
Qed.

Lemma waitq_other h h' q l l' :
  (forall a, a ∈ l -> a ∉ l') -> rechained h h' l' -> waitq_of h q l -> waitq_of h' q l.
Proof.
  intros Hd Hr (Hc & Ht & Hnd). split; [|done]. eapply chain_ext; [|exact Hc]. intros x Hx. apply Hr. by apply Hd.
Qed.

Lemma dequeue_nil q w : waitq_of (sudogs w) q [] -> dequeue q w = (Ok (0, q), w).
Proof. intros Hq. unfold dequeue. by rewrite (proj2 (waitq_nil _ _ _ Hq) eq_refl). Qed.

Lemma dequeue_ok q x l w :
  waitq_of (sudogs w) q (x :: l) ->
  exists h q', dequeue q w = (Ok (x, q'), set_sudogs h w) /\ waitq_of h q' l /\ rechained (sudogs w) h (x :: l).
Proof.
  intros (Hc & Ht & Hnd). destruct Hc as (Hf & Hx0 & s & Hs & Hpv & Hc).
  apply list.NoDup_cons in Hnd as [Hx Hnd].
  unfold dequeue. rewrite Hf, (proj2 (Z.eqb_neq x 0) Hx0). step_with (get_sg_ok x s w Hs).
  destruct l as [|y l].
  - cbn in Hc. rewrite Hc. cbn [Z.eqb]. exists (sudogs w), (mkWaitq 0 0). split; [by destruct w|].
    split; [split; [done|split; [done|constructor]]|apply rechained_refl].
  - destruct Hc as (Hy & Hy0 & t & Ht' & Hpt & Hc). rewrite Hy, (proj2 (Z.eqb_neq y 0) Hy0).
    step_with (upd_sg_ok y (set_prev 0) t w Ht').
    assert (sudogs (set_sudogs (<[y := set_prev 0 t]> (sudogs w)) w) !! x = Some s) as Hs'
      by (cbn; rewrite lookup_insert_ne by set_solver; done).
    step_with (upd_sg_ok x (set_next 0) s _ Hs'). do 2 eexists. split; [reflexivity|].
    apply list.NoDup_cons in Hnd as [Hyl Hnd]. split; [split; [|split]|].
    + cbn. split; [done|]. split; [done|]. exists (set_prev 0 t). cbn.
      rewrite lookup_insert_ne, lookup_insert_eq by set_solver. split_and!; [done|done|].
      apply chain_insert_ne; [set_solver|]. apply chain_insert_ne; [set_solver|]. done.
    + rewrite Ht. done.
    + by apply list.NoDup_cons.
    + eapply rechained_trans.
      * eapply (rechained_weaken _ _ [y]); [set_solver|]. replace (set_prev 0 t) with (set_next (next t) (set_prev 0 t)) by (by destruct t).
        by apply rechained_one.
      * eapply (rechained_weaken _ _ [x]); [set_solver|]. cbn.
        replace (set_next 0 s) with (set_next 0 (set_prev (prev s) s)) by (by destruct s).
        apply rechained_one. rewrite lookup_insert_ne by set_solver. done.
Qed.

Lemma enqueue_ok q x l s w :
  waitq_of (sudogs w) q l -> x ∉ l -> x <> 0 -> sudogs w !! x = Some s ->
  exists h q', enqueue q x w = (Ok q', set_sudogs h w) /\ waitq_of h q' (l ++ [x]) /\
    rechained (sudogs w) h (x :: l).
Proof.
  intros (Hc & Ht & Hnd) Hx Hx0 Hs. unfold enqueue. step_with (upd_sg_ok x (set_next 0) s w Hs).
  set (h1 := <[x := set_next 0 s]> (sudogs w)). set (w1 := set_sudogs h1 w).
  assert (sudogs w1 !! x = Some (set_next 0 s)) as Hs1 by (apply lookup_insert_eq).
  assert (forall pv, rechained (sudogs w) (<[x := set_prev pv (set_next 0 s)]> h1) (x :: l)) as Hr.
  { intros pv. eapply (rechained_weaken _ _ [x]); [set_solver|]. unfold h1. rewrite insert_insert_eq.
    change (set_prev pv (set_next 0 s)) with (set_next 0 (set_prev pv s)). by apply rechained_one. }
  destruct (decide (l = [])) as [->|Hl].
  - cbn in Ht. rewrite Ht. cbn [Z.eqb]. step_with (upd_sg_ok x (set_prev 0) _ w1 Hs1).
    do 2 eexists. split; [reflexivity|]. split; [|apply Hr]. split; [|split; [done|apply NoDup_singleton]].
    cbn. split; [done|]. split; [done|]. eexists. rewrite lookup_insert_eq. done.
  - destruct (exists_last Hl) as (l' & y & El). assert (wq_last q = y) as Hy by (by rewrite Ht, El, last_last).
    destruct (chain_lookup _ _ _ _ _ _ y Hc) as [Hy0 [t Hyt]]; [set_solver|]. rewrite Hy, (proj2 (Z.eqb_neq y 0) Hy0).
    step_with (upd_sg_ok x (set_prev y) _ w1 Hs1).
    assert (x <> y) as Hxy by set_solver.
    set (h2 := <[x := set_prev y (set_next 0 s)]> h1).
    assert (sudogs (set_sudogs h2 w1) !! y = Some t) as Hyt2 by (cbn; unfold h2, h1; rewrite !lookup_insert_ne by done; done).
    step_with (upd_sg_ok y (set_next x) t (set_sudogs h2 w1) Hyt2). do 2 eexists. split; [reflexivity|].
    assert (chain next (fun pv s => prev s = pv) h2 0 (wq_first q) l) as Hc2
      by (unfold h2, h1; do 2 (apply chain_insert_ne; [done|]); done).
    split; [split; [|split]|].
    + rewrite El in *. cbn [wq_first]. apply chain_snoc with (ny := t) (nx := set_prev y (set_next 0 s)); try done.
      unfold h2. apply lookup_insert_eq.
    + by rewrite last_last.
    + apply list.NoDup_app. split_and!; [done| |apply NoDup_singleton]. set_solver.
    + eapply rechained_trans; [apply (Hr y)|]. eapply (rechained_weaken _ _ [y]); [set_solver|].
      replace (set_next x t) with (set_next x (set_prev (prev t) t)) by (by destruct t). by apply rechained_one.
Qed.

(** ** The cache *)

(** No cached sudog is in use; all are clear. *)
Definition cache_ok w (busy : list ptr) : Prop :=
  exists central,
    chain next (fun _ _ => True) (sudogs w) 0 (sched_sudogcache (sched w)) central /\
    NoDup (sudogcache (pp w) ++ central) /\
    Forall (fun a => a <> 0 /\ a ∉ busy /\ exists s, sudogs w !! a = Some s /\ elem s = 0)
      (sudogcache (pp w) ++ central).

(** From [w] to [w'] only sudogs that are not in use, the caches and the record
    of lock calls change. *)
Record fetched (busy : list ptr) w w' : Prop := {
  f_chans : chans w' = chans w;
  f_gs : gs w' = gs w;
  f_mem : mem w' = mem w;
  f_curg : curg w' = curg w;
  f_runnext : runnext (pp w') = runnext (pp w);
  f_stolen : stolen_next w' = stolen_next w;
  f_busy : forall a, a ∈ busy -> sudogs w' !! a = sudogs w !! a }.

#[export] Instance fetched_preorder busy : PreOrder (fetched busy).
Proof.
  split; [by constructor|]. intros a b d [] []. constructor; try congruence.
  intros x Hx. rewrite f_busy1 by done. by apply f_busy0.
Qed.

Lemma refill_ok busy fuel : forall w,
  cache_ok w busy -> sudogcache_cap (pp w) / 2 - len (sudogcache (pp w)) <= Z.of_nat fuel ->
  exists w', refill fuel w = (Ok tt, w') /\ cache_ok w' busy /\ fetched busy w w'.
Proof.
  induction fuel as [|fuel IH]; intros w Hc Hf; cbn [refill]; step; step.
  all: destruct (len (sudogcache (pp w)) <? sudogcache_cap (pp w) / 2) eqn:Hlt; cbn [andb]; [|by exists w].
  { bool_to_Prop. lia. }
  destruct (Z.eqb_spec (sched_sudogcache (sched w)) 0) as [E|Hne]; [by exists w|]. cbn [negb]. bool_to_Prop.
  destruct Hc as ([|a central] & Hch & Hnd & Hall); [done|]. destruct Hch as (Ha & Ha0 & s & Hs & _ & Hch).
  rewrite Ha. step_with (get_sg_ok a s w Hs). step. set (w1 := set_sched _ w).
  step_with (upd_sg_ok a (set_next 0) s w1 Hs). step. set (w2 := set_pp _ _).
  assert (a ∉ sudogcache (pp w) /\ a ∉ central) as [Hac Hac'].
  { apply list.NoDup_app in Hnd as (_ & Hd & Hn). apply list.NoDup_cons in Hn as [? _]. split; [|done].
    intros Hin. apply (Hd a Hin). set_solver. }
  assert (a ∉ busy) as Hab.
  { apply List.Forall_app in Hall as [_ Hall]. apply Forall_cons_iff in Hall as [(_ & ? & _) _]. done. }
  destruct (IH w2) as (w' & Hr & Hc' & Hf').
  - exists central. cbn. split; [apply chain_insert_ne; [done|by apply chain_back with a; [|done]]|].
    rewrite <- app_assoc. split; [done|]. eapply List.Forall_impl; [|exact Hall]. cbn.
    intros b (Hb0 & Hbb & sb & Hsb & Hse). split; [done|]. split; [done|].
    destruct (decide (a = b)) as [<-|]; [exists (set_next 0 s); rewrite lookup_insert_eq; split; [done|]; cbn; congruence|].
    exists sb. by rewrite lookup_insert_ne.
  - cbn. rewrite len_app. change (len [a]) with 1. lia.
  - exists w'. split; [done|]. split; [done|]. etrans; [|exact Hf']. constructor; try done.
    intros b Hb. cbn. rewrite lookup_insert_ne; [done|congruence].
Qed.

Lemma fresh_not_in (X : list ptr) : fresh X ∉ X.
Proof. apply infinite_is_fresh. Qed.

Lemma cache_take w busy cache a :
  sudogcache (pp w) = cache ++ [a] -> cache_ok w busy ->
  a <> 0 /\ a ∉ busy /\ (exists s, sudogs w !! a = Some s /\ elem s = 0) /\
  cache_ok (set_pp (set_sudogcache cache (pp w)) w) (a :: busy).
Proof.
  intros E (central & Hch & Hnd & Hall). rewrite E, <- app_assoc in *. cbn [app] in *.
  pose proof Hall as Hall'. apply List.Forall_app in Hall' as [H1 H2]. apply Forall_cons_iff in H2 as [(? & ? & ?) H3].
  split_and!; try done. exists central. cbn. split; [done|].
  assert (NoDup (cache ++ central) /\ a ∉ cache ++ central) as [Hnd' Ha].
  { apply list.NoDup_app in Hnd as (Hn1 & Hd & Hn2). apply list.NoDup_cons in Hn2 as [Ha Hn2].
    split; [apply list.NoDup_app; split_and!; [done|set_solver|done]|set_solver]. }
  split; [done|]. assert (Forall (fun b => b <> a) (cache ++ central)) as Hne.
  { apply Forall_forall. intros b Hb ->. apply Ha. by apply list_elem_of_In. }
  pose proof (proj2 (List.Forall_app _ _ _) (conj H1 H3)) as Happ.
  apply Forall_forall. intros b Hb. rewrite Forall_forall in Happ, Hne. specialize (Happ b Hb). specialize (Hne b Hb).
  destruct Happ as (? & ? & ?). split; [done|]. split; [set_solver|done].
Qed.

Lemma acquireSudog_ok busy w :
  cache_ok w busy -> (forall a, a ∈ busy -> is_Some (sudogs w !! a)) ->
  exists a s w', acquireSudog w = (Ok a, w') /\ a <> 0 /\ a ∉ busy /\ sudogs w' !! a = Some s /\ elem s = 0 /\
    cache_ok w' (a :: busy) /\ fetched busy w w'.
Proof.
  intros Hc Hbusy. unfold acquireSudog. step.
  assert (exists w1, (if len (sudogcache (pp w)) =? 0 then
     lock sudoglock ;;;
     refill (Z.to_nat (sudogcache_cap (pp w))) ;;;
     unlock sudoglock ;;;
     let* pp := get_pp in
     if len (sudogcache pp) =? 0 then
       let* a := new_sudog in upd_pp (fun pp => set_sudogcache (sudogcache pp ++ [a]) pp)
     else st_ret tt
   else st_ret tt) w = (Ok tt, w1) /\ cache_ok w1 busy /\ fetched busy w w1 /\ sudogcache (pp w1) <> [])
    as (w1 & Ew & Hc1 & Hf1 & Hne).
  { destruct (Z.eqb_spec (len (sudogcache (pp w))) 0) as [E|Hne].
    2:{ exists w. split_and!; try done. intros E. by rewrite E in Hne. }
    step. set (w0 := set_calls _ w). assert (fetched busy w w0) as Hf0 by (by constructor).
    destruct (refill_ok busy (Z.to_nat (sudogcache_cap (pp w))) w0) as (w1 & Hr & Hc1 & Hf1); [done| |].
    { change (pp w0) with (pp w). pose proof (len_nonneg (sudogcache (pp w))).
      assert (sudogcache_cap (pp w) / 2 <= Z.max (sudogcache_cap (pp w)) 0) by zdiv_lia. lia. }
    step_with Hr. step. step. set (w2 := set_calls _ w1).
    assert (fetched busy w w2) as Hf2 by (etrans; [exact Hf0|]; etrans; [exact Hf1|]; by constructor).
    change (pp w2) with (pp w1). destruct (Z.eqb_spec (len (sudogcache (pp w1))) 0) as [E1|Hne1].
    2:{ exists w2. split_and!; try done. intros E1. apply Hne1. change (pp w1) with (pp w2). by rewrite E1. }
    step. set (a := fresh _). pose proof (fresh_not_in (0 :: elements (dom (sudogs w2)))) as Hfr. fold a in Hfr.
    apply not_elem_of_cons in Hfr as [Ha0 Hfr]. rewrite elem_of_elements, not_elem_of_dom in Hfr.
    assert (forall b, is_Some (sudogs w2 !! b) -> b <> a) as Hba by (intros b [x Hx] ->; congruence).
    eexists. split; [reflexivity|]. cbn. apply len_0_nil in E1.
    destruct Hc1 as (central & Hch & Hnd & Hall). change (sudogs w2) with (sudogs w1) in *.
    change (pp w2) with (pp w1) in *. rewrite E1 in *. cbn [app] in *.
    assert (a ∉ central) as Hac.
    { intros Hin. rewrite Forall_forall in Hall. destruct (Hall a) as (_ & _ & s & Hs & _); [by apply list_elem_of_In|congruence]. }
    split; [|split; [|done]].
    - exists central. cbn. split; [by apply chain_insert_ne|]. split; [by apply list.NoDup_cons|].
      constructor.
      + split; [done|]. split; [|eexists; rewrite lookup_insert_eq; done]. intros Hin.
        destruct (Hbusy a Hin) as [s Hs]. rewrite <- (f_busy _ _ _ Hf2 a Hin) in Hs. cbn in Hs. congruence.
      + eapply List.Forall_impl; [|exact Hall]. cbn. intros b (? & ? & s & Hs & ?). split_and!; try done.
        exists s. rewrite lookup_insert_ne; [done|]. intros ->. congruence.
    - etrans; [exact Hf2|]. constructor; try done. cbn. intros b Hb. rewrite lookup_insert_ne; [done|].
      intros E2. destruct (Hbusy b Hb) as [s Hs]. rewrite <- (f_busy _ _ _ Hf2 b Hb) in Hs. cbn in Hs. congruence. }
  step_with Ew. step. destruct (exists_last Hne) as (cache & a & E). rewrite E, last_last, removelast_last.
  destruct (cache_take w1 busy cache a E Hc1) as (Ha0 & Hab & (s & Hs & Hse) & Hc2).
  step. set (w2 := set_pp _ w1) in *. assert (sudogs w2 !! a = Some s) as Hs2 by done.
  step_with (get_sg_ok a s w2 Hs2). rewrite Hse. cbn [Z.eqb negb]. exists a, s, w2. split_and!; try done.
  etrans; [exact Hf1|]. by constructor.
Qed.

End WaitQueue.

(** ** The circular buffer of a channel *)

Section Ring.
Context {V : Type} (zero : V).
Implicit Types h : hchan V.

(** The slot of the [i]-th value. *)
Definition slot h (i : Z) : nat := Z.to_nat ((recvx h + i) mod dataqsiz h).

Record ring h (q : list V) : Prop := {
  r_size : 0 <= dataqsiz h < 2 ^ 63;
  r_buf : len (buf h) = dataqsiz h;
  r_count : qcount h = len q;
  r_le : len q <= dataqsiz h;
  r_none : dataqsiz h = 0 -> recvx h = 0 /\ sendx h = 0;
  r_some : 0 < dataqsiz h -> 0 <= recvx h < dataqsiz h /\ sendx h = (recvx h + len q) mod dataqsiz h /\
    forall i, 0 <= i < len q -> buf h !! slot h i = q !! Z.to_nat i }.

Lemma mod_next x n : 0 <= x < n -> (x + 1) mod n = if x + 1 =? n then 0 else x + 1.
Proof.
  intros Hx. destruct (Z.eqb_spec (x + 1) n) as [->|Hne]; [by apply Z.mod_same; lia|by apply Z.mod_small; lia].
Qed.

Lemma advance_mod h x : 0 <= x < dataqsiz h -> dataqsiz h < 2 ^ 63 -> advance h x = (x + 1) mod dataqsiz h.
Proof. intros Hx Hn. unfold advance. rewrite u64_small by lia. by rewrite mod_next. Qed.

Lemma slot_inj r n i j : 0 < n -> 0 <= i < n -> 0 <= j < n -> (r + i) mod n = (r + j) mod n -> i = j.
Proof.
  intros Hn Hi Hj E. pose proof (Z.div_mod (r + i) n ltac:(lia)). pose proof (Z.div_mod (r + j) n ltac:(lia)).
  rewrite E in *. assert ((r + i) / n = (r + j) / n) by nia. nia.
Qed.

Lemma slot_lt h i : 0 < dataqsiz h -> len (buf h) = dataqsiz h -> (slot h i < length (buf h))%nat.
Proof.
  intros Hn Hb. unfold slot, len in *. pose proof (Z.mod_pos_bound (recvx h + i) (dataqsiz h) Hn). lia.
Qed.

Lemma slot_ne h i j : 0 <= i < dataqsiz h -> 0 <= j < dataqsiz h -> i <> j -> slot h i <> slot h j.
Proof.
  intros Hi Hj Hne E. unfold slot in E. pose proof (Z.mod_pos_bound (recvx h + i) (dataqsiz h) ltac:(lia)).
  pose proof (Z.mod_pos_bound (recvx h + j) (dataqsiz h) ltac:(lia)).
  apply Hne, (slot_inj (recvx h) (dataqsiz h)); lia.
Qed.

Lemma lookup_snoc_Z (q : list V) v i : 0 <= i <= len q ->
  (q ++ [v]) !! Z.to_nat i = if i =? len q then Some v else q !! Z.to_nat i.
Proof.
  intros Hi. unfold len in *. destruct (Z.eqb_spec i (Z.of_nat (length q))) as [->|Hne].
  - rewrite Nat2Z.id. rewrite lookup_app_r, Nat.sub_diag by lia. done.
  - by rewrite lookup_app_l by lia.
Qed.

Lemma ring_push h q v :
  ring h q -> len q < dataqsiz h ->
  ring (set_qcount (u64 (qcount h + 1)) (set_sendx (advance h (sendx h))
          (set_buf (<[Z.to_nat (sendx h) := v]> (buf h)) h))) (q ++ [v]).
Proof.
  intros [Hs Hb Hc Hle _ Hr] Hlt. pose proof (len_nonneg q). destruct Hr as (Hrx & Hsx & Hq); [lia|].
  assert (0 <= sendx h < dataqsiz h) as Hsr by (rewrite Hsx; apply Z.mod_pos_bound; lia).
  assert (len (q ++ [v]) = len q + 1) as Hl by (rewrite len_app; reflexivity).
  constructor; cbn; rewrite ?Hl; try done; try lia.
  - unfold len. rewrite length_insert. exact Hb.
  - rewrite u64_small; lia.
  - intros _. split; [done|]. split.
    + rewrite advance_mod, Hsx by lia. rewrite Zplus_mod_idemp_l. f_equal. lia.
    + intros i Hi. unfold slot. cbn. fold (slot h i). rewrite lookup_snoc_Z by lia. rewrite Hsx. fold (slot h (len q)).
      destruct (Z.eqb_spec i (len q)) as [->|Hne]; [by apply list_lookup_insert_eq, slot_lt; lia|].
      rewrite list_lookup_insert_ne by (apply slot_ne; lia). apply Hq. lia.
Qed.

(** The first value, and the slots of the others after [recvx] moves on. *)
Lemma ring_head h v q :
  ring h (v :: q) -> 0 < dataqsiz h /\ 0 <= recvx h < dataqsiz h /\ buf h !! Z.to_nat (recvx h) = Some v.
Proof.
  intros [Hs Hb Hc Hle _ Hr]. rewrite len_cons in *. pose proof (len_nonneg q). assert (0 < dataqsiz h) as Hn by lia.
  destruct (Hr Hn) as (Hrx & _ & Hq). split; [done|]. split; [done|]. specialize (Hq 0 ltac:(lia)).
  unfold slot in Hq. by rewrite Z.add_0_r, Z.mod_small in Hq by lia.
Qed.

Lemma slot_next h h' i :
  0 <= recvx h < dataqsiz h -> dataqsiz h < 2 ^ 63 -> dataqsiz h' = dataqsiz h -> recvx h' = advance h (recvx h) ->
  slot h' i = slot h (i + 1).
Proof.
  intros Hrx Hn Hd Hr. unfold slot. rewrite Hd, Hr, advance_mod by done. rewrite Zplus_mod_idemp_l. do 2 f_equal. lia.
Qed.

Lemma ring_pop h v q :
  ring h (v :: q) ->
  ring (set_qcount (u64 (qcount h - 1)) (set_recvx (advance h (recvx h))
          (set_buf (<[Z.to_nat (recvx h) := zero]> (buf h)) h))) q.
Proof.
  intros Hring. destruct (ring_head h v q Hring) as (Hn & Hrx & _). destruct Hring as [Hs Hb Hc Hle _ Hr].
  rewrite len_cons in *. pose proof (len_nonneg q). destruct (Hr Hn) as (_ & Hsx & Hq).
  assert (0 <= advance h (recvx h) < dataqsiz h) as Ha.
  { rewrite advance_mod by lia. apply Z.mod_pos_bound. lia. }
  constructor; cbn; try done; try lia.
  - unfold len. rewrite length_insert. exact Hb.
  - rewrite u64_small; lia.
  - intros _. split; [done|]. split.
    + rewrite Hsx, advance_mod by lia. rewrite Zplus_mod_idemp_l. f_equal. lia.
    + intros i Hi. rewrite (slot_next h) by (done || lia).
      assert (Z.to_nat (recvx h) = slot h 0) as -> by (unfold slot; rewrite Z.add_0_r, Z.mod_small by lia; done).
      rewrite list_lookup_insert_ne by (apply slot_ne; lia). rewrite Hq by lia.
      replace (Z.to_nat (i + 1)) with (S (Z.to_nat i)) by lia. done.
Qed.

(** Receiving from a full buffer: the sender's value takes the slot that was
    read. *)
Lemma ring_swap h v q v' :
  ring h (v :: q) -> len (v :: q) = dataqsiz h ->
  ring (set_sendx (advance h (recvx h)) (set_recvx (advance h (recvx h))
          (set_buf (<[Z.to_nat (recvx h) := v']> (buf h)) h))) (q ++ [v']).
Proof.
  intros Hring Hfull. destruct (ring_head h v q Hring) as (Hn & Hrx & _). destruct Hring as [Hs Hb Hc Hle _ Hr].
  rewrite len_cons in *. pose proof (len_nonneg q). destruct (Hr Hn) as (_ & _ & Hq).
  assert (len (q ++ [v']) = dataqsiz h) as Hl by (rewrite len_app; change (len [v']) with 1; lia).
  assert (0 <= advance h (recvx h) < dataqsiz h) as Ha.
  { rewrite advance_mod by lia. apply Z.mod_pos_bound. lia. }
  constructor; cbn; rewrite ?Hl; try done; try lia.
  - unfold len. rewrite length_insert. exact Hb.
  - intros _. split; [done|]. split.
    + rewrite <- Zplus_mod_idemp_r, Z.mod_same, Z.add_0_r by lia. by rewrite Z.mod_small.
    + intros i Hi. rewrite (slot_next h) by (done || lia). rewrite lookup_snoc_Z by lia.
      assert (Z.to_nat (recvx h) = slot h 0) as -> by (unfold slot; rewrite Z.add_0_r, Z.mod_small by lia; done).
      destruct (Z.eqb_spec i (len q)) as [->|Hne].
      * assert (slot h (len q + 1) = slot h 0) as ->.
        { unfold slot. f_equal. rewrite Z.add_0_r. replace (len q + 1) with (dataqsiz h) by lia.
          rewrite <- Zplus_mod_idemp_r, Z.mod_same, Z.add_0_r by lia. done. }
        apply list_lookup_insert_eq, slot_lt; lia.
      * rewrite list_lookup_insert_ne by (apply slot_ne; lia). rewrite Hq by lia.
        replace (Z.to_nat (i + 1)) with (S (Z.to_nat i)) by lia. done.
Qed.

End Ring.
