(* ===== verification/ChanProps.v ===== *)
(** * Channels are queues

    The contents of a channel are the values in its buffer followed by those of
    the senders waiting: [chansend] appends to them and [chanrecv] takes the
    first, as long as no receiver waits.  What happens with waiting receivers,
    and on close, is stated as it is.  [makechan] checks that the buffer fits
    the address space, with a multiplication that reports overflow. *)
From S2P Require Import Prelude Goroutine Sched SchedProps Chan ChanLists.

Local Open Scope Z_scope.
Local Open Scope go_scope.

(** ** Readying goroutines *)

Definition status {V} (w : world V) (gp : ptr) : option Z := atomicstatus <$> gs w !! gp.

(** [gp] was made runnable; otherwise only run queues changed. *)
Record readied {V} (gp : ptr) (w w' : world V) : Prop := {
  rd_chans : chans w' = chans w;
  rd_sudogs : sudogs w' = sudogs w;
  rd_mem : mem w' = mem w;
  rd_curg : curg w' = curg w;
  rd_cache : sudogcache (pp w') = sudogcache (pp w);
  rd_central : sched_sudogcache (sched w') = sched_sudogcache (sched w);
  rd_status : forall a, status w' a = if decide (a = gp) then Some Grunnable else status w a }.

Section Ready.
Context {V : Type}.
Implicit Types w : world V.

Lemma runqput_free gp w :
  runnext (pp w) = 0 -> stolen_next w = [] ->
  runqput gp true w = (Ok tt, set_pp (set_runnext gp (pp w)) w).
Proof.
  intros Hn Ho. unfold runqput. step. rewrite Ho. cbn [put_runnext]. step. by rewrite Hn.
Qed.

Lemma casgstatus_ok gp a b w x :
  Z.land a Gscan = 0 -> Z.land b Gscan = 0 -> a <> b -> gs w !! gp = Some x -> atomicstatus x = a ->
  casgstatus gp a b w = (Ok tt, set_gs (<[gp := set_atomicstatus b x]> (gs w)) w).
Proof.
  intros Ha Hb Hab Hx Hs. unfold casgstatus. rewrite Ha, Hb, (proj2 (Z.eqb_neq a b) Hab). cbn [Z.eqb negb orb].
  step_with (get_g_ok gp x w Hx). rewrite Hs, Z.eqb_refl. by apply upd_g_ok.
Qed.

Lemma casgstatus_fails gp w x :
  gs w !! gp = Some x -> atomicstatus x <> Gwaiting -> fst (casgstatus gp Gwaiting Grunnable w) <> Ok tt.
Proof.
  intros Hx Hne. unfold casgstatus. change (negb (Z.land Gwaiting Gscan =? 0) || negb (Z.land Grunnable Gscan =? 0)
    || (Gwaiting =? Grunnable)) with false. cbn iota. step_with (get_g_ok gp x w Hx).
  rewrite (proj2 (Z.eqb_neq _ _) Hne). by destruct (_ && _).
Qed.

Lemma status_set_gs gp x x' w a : gs w !! gp = Some x ->
  status (set_gs (<[gp := x']> (gs w)) w) a = if decide (a = gp) then Some (atomicstatus x') else status w a.
Proof.
  intros Hx. unfold status. cbn. destruct (decide (a = gp)) as [->|]; [by rewrite lookup_insert_eq|].
  by rewrite lookup_insert_ne.
Qed.

(** [goready] makes the goroutine runnable when it returns. *)
Lemma goready_readied gp w w' : goready gp w = (Ok tt, w') -> readied gp w w'.
Proof.
  intros H. unfold goready, ready, get_g in H.
  destruct (gs w !! gp) as [x|] eqn:Hx.
  2:{ unfold st_bind, load in H. by rewrite Hx in H. }
  rewrite (bind_ok _ _ _ _ _ (load_ok gs gp x w Hx)) in H. cbn beta in H.
  destruct (negb _) eqn:E; [done|].
  destruct (Z.eqb_spec (atomicstatus x) Gwaiting) as [Ex|Ex].
  - rewrite (bind_ok _ _ _ _ _ (casgstatus_ok gp Gwaiting Grunnable w x eq_refl eq_refl ltac:(done) Hx Ex)) in H.
    set (w1 := set_gs _ w) in H. pose proof (quiet_runqput gp true w1) as Hq. rewrite H in Hq. cbn [snd] in Hq.
    destruct Hq as [? ? ? ? ? ? Hst]. constructor; try done. intros a. unfold status at 1. rewrite Hst.
    change (atomicstatus <$> gs w1 !! a) with (status w1 a). exact (status_set_gs gp x _ w a Hx).
  - pose proof (casgstatus_fails gp w x Hx Ex) as Hf. unfold st_bind in H.
    destruct (casgstatus gp Gwaiting Grunnable w) as [[[]|?|?|] ?]; cbn in Hf; congruence.
Qed.

(** Readying a waiting goroutine comes down to putting it into [runnext]. *)
Lemma goready_runqput gp w : status w gp = Some Gwaiting ->
  exists w1, goready gp w = runqput gp true w1 /\ pp w1 = pp w /\ stolen_next w1 = stolen_next w /\
    forall a, schedlink <$> gs w1 !! a = schedlink <$> gs w !! a.
Proof.
  intros Hst. unfold status in Hst. destruct (gs w !! gp) as [x|] eqn:Hx; [|done]. injection Hst as Hst.
  exists (set_gs (<[gp := set_atomicstatus Grunnable x]> (gs w)) w). split_and!; [|done..|].
  - unfold goready, ready. step_with (get_g_ok gp x w Hx). rewrite Hst.
    change (negb (Z.ldiff Gwaiting Gscan =? Gwaiting)) with false. cbn iota.
    by step_with (casgstatus_ok gp Gwaiting Grunnable w x eq_refl eq_refl ltac:(done) Hx Hst).
  - intros a. cbn. destruct (decide (gp = a)) as [<-|]; [by rewrite lookup_insert_eq, Hx|by rewrite lookup_insert_ne].
Qed.

(** It works while [runnext] is free. *)
Lemma goready_works gp w :
  runnext (pp w) = 0 -> stolen_next w = [] -> status w gp = Some Gwaiting ->
  exists w', goready gp w = (Ok tt, w') /\ pp w' = set_runnext gp (pp w) /\ stolen_next w' = [] /\
    forall a, schedlink <$> gs w' !! a = schedlink <$> gs w !! a.
Proof.
  intros Hn Ho Hst. destruct (goready_runqput gp w Hst) as (w1 & -> & Hp & Hs & Hl).
  exists (set_pp (set_runnext gp (pp w1)) w1). rewrite runqput_free by congruence.
  split_and!; [done|by cbn; rewrite Hp|by cbn; rewrite Hs|exact Hl].
Qed.

(** Otherwise the goroutine that was in [runnext] moves to the local run queue,
    and when there is room for it [runqput] goes on to the overflow path. *)
Lemma goready_throws gp w :
  runnext (pp w) <> 0 -> stolen_next w = [] -> runq_size (pp w) < runq_len -> status w gp = Some Gwaiting ->
  exists w', goready gp w = (Panic "runqputslow: queue is not full", w').
Proof.
  intros Hn Ho Hsz Hst. destruct (goready_runqput gp w Hst) as (w1 & -> & Hp & Hs & _).
  unfold runqput. step. rewrite Hs, Ho. cbn [put_runnext]. step.
  rewrite Hp, (proj2 (Z.eqb_neq _ 0) Hn). cbn [Nat.add runqput_retry].
  step. fold (runq_size (pp w)). cbn [pp set_pp runqtail runqhead set_runnext]. fold (runq_size (pp w)).
  rewrite (proj2 (Z.ltb_lt _ _)) by done. erewrite bind_ok; [|by step]. cbn beta iota zeta.
  unfold runqputslow. fold (runq_size (pp w)).
  pose proof (u32_range (runqtail (pp w) - runqhead (pp w))) as Hr. fold (runq_size (pp w)) in Hr.
  assert (runq_size (pp w) / 2 <> runq_len / 2) as Hne by (unfold runq_len in *; zdiv_lia).
  rewrite (proj2 (Z.eqb_neq _ _) Hne). by eexists.
Qed.

End Ready.

(** ** The state of a channel *)

Section Inv.
Context {V : Type} (zero : V).
Implicit Types w : world V.

(** The goroutine and the element of a sudog. *)
Definition view (h : gmap ptr sudog) (a : ptr) : option (ptr * ptr) := (fun s => (sg_g s, elem s)) <$> h !! a.

(** [a] is the sudog of a parked goroutine that sends [v], or that receives. *)
Definition sender w (a : ptr) (v : V) : Prop :=
  exists gp e, view (sudogs w) a = Some (gp, e) /\ e <> 0 /\ mem w !! e = Some v /\ status w gp = Some Gwaiting /\ gp <> 0.
Definition receiver w (a : ptr) : Prop :=
  exists gp e, view (sudogs w) a = Some (gp, e) /\ (e = 0 \/ is_Some (mem w !! e)) /\ status w gp = Some Gwaiting /\ gp <> 0.

Definition parked w (a : ptr) : option ptr := fst <$> view (sudogs w) a.

(** Channel [c] is [h]: [q] in its buffer, senders [ss] and receivers [rs]
    waiting. *)
Record chan_inv w (c : ptr) (h : hchan V) (q : list V) (ss : list (ptr * V)) (rs : list ptr) : Prop := {
  ci_c : c <> 0;
  ci_get : chans w !! c = Some h;
  ci_ring : ring h q;
  ci_recvq : waitq_of (sudogs w) (recvq h) rs;
  ci_sendq : waitq_of (sudogs w) (sendq h) (map fst ss);
  ci_ss : Forall (fun x => sender w x.1 x.2) ss;
  ci_rs : Forall (receiver w) rs;
  ci_nodup : NoDup (map (parked w) (map fst ss ++ rs));
  ci_full : ss <> [] -> len q = dataqsiz h;
  ci_empty : rs <> [] -> q = [] /\ ss = [];
  ci_closed : (closed h = 0 \/ closed h = 1) /\ (closed h <> 0 -> ss = [] /\ rs = []) }.

(** The values a receiver gets, in order. *)
Definition contents (q : list V) (ss : list (ptr * V)) : list V := q ++ map snd ss.

Lemma view_rechained h h' l a : rechained h h' l -> view h' a = view h a.
Proof. intros Hr. destruct (proj2 (Hr a)) as (n & pv & E). unfold view. rewrite E. by destruct (h !! a). Qed.

Lemma sender_ext w w' a v :
  view (sudogs w') a = view (sudogs w) a ->
  (forall gp e, view (sudogs w) a = Some (gp, e) -> status w' gp = status w gp /\ mem w' !! e = mem w !! e) ->
  sender w a v -> sender w' a v.
Proof. intros Hv He (gp & e & Hve & ? & ? & ?). destruct (He gp e Hve) as [E1 E2]. exists gp, e. by rewrite Hv, E1, E2. Qed.

Lemma receiver_ext w w' a :
  view (sudogs w') a = view (sudogs w) a ->
  (forall gp e, view (sudogs w) a = Some (gp, e) -> status w' gp = status w gp) ->
  (forall e, is_Some (mem w !! e) -> is_Some (mem w' !! e)) ->
  receiver w a -> receiver w' a.
Proof.
  intros Hv He Hm (gp & e & Hve & Hex & ?). exists gp, e. rewrite Hv, (He gp e Hve). split; [done|]. split; [|done].
  destruct Hex as [?|?]; [by left|right; by apply Hm].
Qed.

(** The invariant only depends on the channel, the sudogs waiting and their
    goroutines and elements. *)
Lemma chan_inv_ext w w' c h q ss rs :
  chans w' !! c = Some h -> sudogs w' = sudogs w ->
  (forall gp, status w gp = Some Gwaiting -> status w' gp = Some Gwaiting) ->
  (forall x gp e, x ∈ ss -> view (sudogs w) x.1 = Some (gp, e) -> mem w' !! e = mem w !! e) ->
  (forall e, is_Some (mem w !! e) -> is_Some (mem w' !! e)) ->
  chan_inv w c h q ss rs -> chan_inv w' c h q ss rs.
Proof.
  intros Hc Hs Hst Hm Hm' []. constructor; try done; rewrite ?Hs; try done.
  - apply Forall_forall. intros x Hx. rewrite Forall_forall in ci_ss0. destruct (ci_ss0 x Hx) as (gp & e & Hv & ? & ? & ?).
    exists gp, e. rewrite Hs, (Hm x gp e) by (done || by apply list_elem_of_In). naive_solver.
  - eapply List.Forall_impl; [|exact ci_rs0]. intros a (gp & e & Hv & He & ?). exists gp, e. rewrite Hs.
    naive_solver.
  - unfold parked in *. by rewrite Hs.
Qed.

Lemma memload_ok a v w : mem w !! a = Some v -> memload a w = (Ok v, w).
Proof. apply (load_ok mem). Qed.
Lemma memstore_ok a v v0 w : mem w !! a = Some v0 -> memstore a v w = (Ok tt, set_mem (<[a := v]> (mem w)) w).
Proof. apply (update_ok mem set_mem). Qed.

(** ** Queues inside the channel *)

Lemma set_same w c h : chans w !! c = Some h -> set_chans (<[c := h]> (chans w)) w = w.
Proof. intros H. rewrite insert_id by done. by destruct w. Qed.

Lemma recvq_dequeue_nil c h w : chans w !! c = Some h -> waitq_of (sudogs w) (recvq h) [] -> recvq_dequeue c w = (Ok 0, w).
Proof.
  intros Hc Hq. unfold recvq_dequeue. step_with (get_c_ok c h w Hc). step_with (dequeue_nil _ w Hq).
  step_with (upd_c_ok c (set_recvq (recvq h)) h w Hc). cbn. unfold st_ret. do 2 f_equal.
  replace (set_recvq (recvq h) h) with h by (by destruct h). by apply set_same.
Qed.

Lemma sendq_dequeue_nil c h w : chans w !! c = Some h -> waitq_of (sudogs w) (sendq h) [] -> sendq_dequeue c w = (Ok 0, w).
Proof.
  intros Hc Hq. unfold sendq_dequeue. step_with (get_c_ok c h w Hc). step_with (dequeue_nil _ w Hq).
  step_with (upd_c_ok c (set_sendq (sendq h)) h w Hc). cbn. unfold st_ret. do 2 f_equal.
  replace (set_sendq (sendq h) h) with h by (by destruct h). by apply set_same.
Qed.

Lemma recvq_dequeue_cons c h w x l :
  chans w !! c = Some h -> waitq_of (sudogs w) (recvq h) (x :: l) ->
  exists hs q', recvq_dequeue c w = (Ok x, set_chans (<[c := set_recvq q' h]> (chans w)) (set_sudogs hs w)) /\
    waitq_of hs q' l /\ rechained (sudogs w) hs (x :: l).
Proof.
  intros Hc Hq. destruct (dequeue_ok _ _ _ _ Hq) as (hs & q' & Hd & Hq' & Hr). exists hs, q'.
  split; [|done]. unfold recvq_dequeue. step_with (get_c_ok c h w Hc). step_with Hd.
  by step_with (upd_c_ok c (set_recvq q') h (set_sudogs hs w) Hc).
Qed.

Lemma sendq_dequeue_cons c h w x l :
  chans w !! c = Some h -> waitq_of (sudogs w) (sendq h) (x :: l) ->
  exists hs q', sendq_dequeue c w = (Ok x, set_chans (<[c := set_sendq q' h]> (chans w)) (set_sudogs hs w)) /\
    waitq_of hs q' l /\ rechained (sudogs w) hs (x :: l).
Proof.
  intros Hc Hq. destruct (dequeue_ok _ _ _ _ Hq) as (hs & q' & Hd & Hq' & Hr). exists hs, q'.
  split; [|done]. unfold sendq_dequeue. step_with (get_c_ok c h w Hc). step_with Hd.
  by step_with (upd_c_ok c (set_sendq q') h (set_sudogs hs w) Hc).
Qed.

Lemma chanbuf_store_ok c h w i v :
  chans w !! c = Some h -> 0 <= i < len (buf h) ->
  chanbuf_store c i v w =
    (Ok tt, set_chans (<[c := set_buf (<[Z.to_nat i := v]> (buf h)) h]> (chans w)) w).
Proof.
  intros Hc Hi. unfold chanbuf_store. step_with (get_c_ok c h w Hc).
  destruct (lookup_lt_is_Some_2 (buf h) (Z.to_nat i)) as [x Hx]; [unfold len in *; lia|].
  assert (chanbuf_load h i w = (Ok x, w)) as El.
  { unfold chanbuf_load. by rewrite (proj2 (Z.leb_le 0 i)), Hx by lia. }
  step_with El. by apply upd_c_ok.
Qed.

(** Only channel [c] and the record of lock calls change. *)
Record chan_only (c : ptr) w w' : Prop := {
  co_chans : forall a, a <> c -> chans w' !! a = chans w !! a;
  co_sudogs : sudogs w' = sudogs w;
  co_gs : gs w' = gs w;
  co_mem : mem w' = mem w;
  co_pp : pp w' = pp w;
  co_sched : sched w' = sched w;
  co_curg : curg w' = curg w;
  co_next : stolen_next w' = stolen_next w }.

(** Sending when the buffer has room. *)
Lemma chansend_buffers c ep block w h q ss v :
  chan_inv w c h q ss [] -> closed h = 0 -> len q < dataqsiz h -> mem w !! ep = Some v ->
  exists h' w', chansend c ep block w = (Ok (Ret true), w') /\
    chan_inv w' c h' (q ++ [v]) ss [] /\ chan_only c w w' /\ closed h' = closed h.
Proof.
  intros Hinv Hcl Hlt Hv. assert (ss = []) as ->.
  { destruct ss; [done|]. pose proof (ci_full _ _ _ _ _ _ Hinv ltac:(done)). lia. }
  pose proof Hinv as [Hc0 Hget Hring Hrq Hsq _ _ _ _ _ _]. pose proof Hring as [Hsz Hb Hcnt Hle _ Hpos].
  pose proof (len_nonneg q). destruct (Hpos ltac:(lia)) as (Hrx & Hsx & _).
  assert (full h = false) as Hfull.
  { unfold full. rewrite (proj2 (Z.eqb_neq _ _)) by lia. apply Z.eqb_neq. lia. }
  unfold chansend. rewrite (proj2 (Z.eqb_neq c 0) Hc0). step_with (get_c_ok c h w Hget).
  rewrite Hfull, andb_false_r. step. set (w1 := set_calls _ w). rewrite Hcl. cbn [Z.eqb negb].
  step_with (recvq_dequeue_nil c h w1 Hget Hrq). rewrite (proj2 (Z.ltb_lt _ _)) by lia.
  step_with (memload_ok ep v w1 Hv).
  assert (0 <= sendx h < len (buf h)) as Hi by (rewrite Hb, Hsx; apply Z.mod_pos_bound; lia).
  step_with (chanbuf_store_ok c h w1 (sendx h) v Hget Hi).
  set (h1 := set_buf _ h). set (w2 := set_chans _ w1).
  assert (chans w2 !! c = Some h1) as Hget1 by apply lookup_insert_eq.
  step_with (upd_c_ok c (fun h => set_qcount (u64 (qcount h + 1)) (set_sendx (advance h (sendx h)) h)) h1 w2 Hget1).
  step. exists (set_qcount (u64 (qcount h1 + 1)) (set_sendx (advance h1 (sendx h1)) h1)). eexists.
  split; [reflexivity|]. split.
  - constructor; try done; try apply lookup_insert_eq; try (by constructor).
    + exact (ring_push h q v Hring Hlt).
    + by split; [left|].
  - split; [|done]. constructor; try done. intros a Ha. cbn. by rewrite !lookup_insert_ne by done.
Qed.

(** ** Receiving *)

Lemma waitq_of_nil h h' q : waitq_of h q [] -> waitq_of h' q [].
Proof. done. Qed.

Lemma copy_out_ok ep v w :
  (ep = 0 \/ is_Some (mem w !! ep)) ->
  exists w', copy_out ep v w = (Ok tt, w') /\ w' = set_mem (mem w') w /\
    (ep <> 0 -> mem w' !! ep = Some v) /\ (forall e, e <> ep -> mem w' !! e = mem w !! e) /\
    (forall e, is_Some (mem w !! e) -> is_Some (mem w' !! e)).
Proof.
  intros Hep. unfold copy_out. destruct (Z.eqb_spec ep 0) as [->|Hne].
  { exists w. split_and!; try done. by destruct w. }
  destruct Hep as [?|[x Hx]]; [done|]. exists (set_mem (<[ep := v]> (mem w)) w).
  split; [by apply (memstore_ok ep v x)|]. split; [done|]. cbn. split_and!.
  - intros _. apply lookup_insert_eq.
  - intros e He. by rewrite lookup_insert_ne.
  - intros e He. destruct (decide (ep = e)) as [<-|]; [rewrite lookup_insert_eq; eauto|by rewrite lookup_insert_ne].
Qed.

Lemma chanbuf_load_ok h i v w : 0 <= i -> buf h !! Z.to_nat i = Some v -> chanbuf_load h i w = (Ok v, w).
Proof. intros Hi Hv. unfold chanbuf_load. by rewrite (proj2 (Z.leb_le 0 i) Hi), Hv. Qed.

(** Receiving from the buffer when no sender waits. *)
Lemma chanrecv_buffered c ep block w h q v :
  chan_inv w c h (v :: q) [] [] -> (ep = 0 \/ is_Some (mem w !! ep)) ->
  exists h' w', chanrecv zero c ep block w = (Ok (Ret (true, true)), w') /\
    chan_inv w' c h' q [] [] /\ (ep <> 0 -> mem w' !! ep = Some v) /\
    gs w' = gs w /\ sudogs w' = sudogs w /\ curg w' = curg w /\ closed h' = closed h /\ pp w' = pp w /\
    sched w' = sched w.
Proof.
  intros Hinv Hep. pose proof Hinv as [Hc0 Hget Hring Hrq Hsq _ _ _ _ _ Hcl].
  destruct (ring_head h v q Hring) as (Hn & Hrx & Hv). pose proof Hring as [_ Hb Hcnt _ _ _]. rewrite len_cons in Hcnt.
  pose proof (len_nonneg q).
  assert (empty h = false) as He by (unfold empty; rewrite (proj2 (Z.eqb_neq _ _)) by lia; apply Z.eqb_neq; lia).
  unfold chanrecv. rewrite (proj2 (Z.eqb_neq c 0) Hc0). step_with (get_c_ok c h w Hget).
  rewrite He, andb_false_r. cbn [andb]. step. set (w1 := set_calls _ w).
  rewrite (proj2 (Z.eqb_neq (qcount h) 0)), andb_false_r by lia.
  assert ((if closed h =? 0 then sendq_dequeue c else st_ret 0) w1 = (Ok 0, w1)) as Ed
    by (destruct (closed h =? 0); [by apply (sendq_dequeue_nil c h)|done]).
  step_with Ed. rewrite (proj2 (Z.ltb_lt _ _)) by lia.
  step_with (chanbuf_load_ok h (recvx h) v w1 (proj1 Hrx) Hv).
  destruct (copy_out_ok ep v w1 Hep) as (w2 & Eo & Ew & Hm & Hm1 & Hm2). step_with Eo.
  assert (chans w2 !! c = Some h) as Hget2 by (by rewrite Ew).
  step_with (chanbuf_store_ok c h w2 (recvx h) zero Hget2 ltac:(lia)).
  set (h1 := set_buf _ h). set (w3 := set_chans _ w2). assert (chans w3 !! c = Some h1) as Hget3 by apply lookup_insert_eq.
  step_with (upd_c_ok c (fun h => set_qcount (u64 (qcount h - 1)) (set_recvx (advance h (recvx h)) h)) h1 w3 Hget3).
  step. exists (set_qcount (u64 (qcount h1 - 1)) (set_recvx (advance h1 (recvx h1)) h1)). eexists.
  split; [reflexivity|]. split.
  - constructor; try done; try apply lookup_insert_eq; try (by constructor). exact (ring_pop zero h v q Hring).
  - cbn. rewrite Ew. done.
Qed.

(** A sender leaves: the rest of the invariant. *)
Lemma chan_inv_unpark w w' c h h' q q' a v ss gp e ep :
  chan_inv w c h q ((a, v) :: ss) [] -> view (sudogs w) a = Some (gp, e) ->
  chans w' !! c = Some h' -> ring h' q' -> closed h' = closed h -> dataqsiz h' = dataqsiz h ->
  recvq h' = recvq h -> waitq_of (sudogs w') (sendq h') (map fst ss) ->
  (forall b, b ∈ map fst ss -> view (sudogs w') b = view (sudogs w) b) ->
  (forall g, g <> gp -> status w' g = status w g) ->
  (forall x, x <> ep -> mem w' !! x = mem w !! x) ->
  (forall b g x, b ∈ map fst ss -> view (sudogs w) b = Some (g, x) -> x <> ep) ->
  len q' = dataqsiz h' ->
  chan_inv w' c h' q' ss [].
Proof.
  intros [Hc0 Hget _ Hrq _ Hss _ Hnd _ _ [Hcl Hcl']] Hva Hget' Hring' Hc' Hd' Hr' Hsq' Hview Hst Hmem Hep Hfull.
  apply Forall_cons_iff in Hss as [_ Hss]. cbn [map fst app] in Hnd. rewrite app_nil_r in Hnd.
  apply list.NoDup_cons in Hnd as [Hna Hnd].
  constructor; try done.
  - by rewrite Hr'.
  - apply Forall_forall. intros x Hx. rewrite Forall_forall in Hss. destruct (Hss x Hx) as (g & ex & Hv & He0 & Hm & Hw).
    assert (x.1 ∈ map fst ss) as Hin by (apply list_elem_of_In; by apply in_map).
    exists g, ex. rewrite Hview by done. rewrite Hmem by (by apply (Hep x.1 g)). rewrite Hst; [done|].
    intros ->. apply Hna. apply list_elem_of_In, in_map_iff. exists x.1. split; [|by apply list_elem_of_In].
    unfold parked. by rewrite Hv, Hva.
  - rewrite app_nil_r. erewrite map_ext_in; [exact Hnd|]. intros b Hb. unfold parked. f_equal. apply Hview.
    by apply list_elem_of_In.
  - rewrite Hc'. split; [done|]. intros Hne. by destruct (Hcl' Hne).
Qed.

(** The two cases of [recv]: through a full buffer, or straight from the
    sender. *)
Lemma recv_swap c h w ep e v v1 q :
  chans w !! c = Some h -> ring h (v1 :: q) -> len (v1 :: q) = dataqsiz h -> mem w !! e = Some v ->
  (ep = 0 \/ is_Some (mem w !! ep)) -> e <> ep ->
  exists h' m, (let* v := chanbuf_load h (recvx h) in
     copy_out ep v ;;;
     let* v := memload e in
     chanbuf_store c (recvx h) v ;;;
     upd_c c (fun h => let x := advance h (recvx h) in set_sendx x (set_recvx x h))) w
    = (Ok tt, set_chans (<[c := h']> (chans w)) (set_mem m w)) /\
    ring h' (q ++ [v]) /\ closed h' = closed h /\ dataqsiz h' = dataqsiz h /\ recvq h' = recvq h /\
    sendq h' = sendq h /\ (ep <> 0 -> m !! ep = Some v1) /\ (forall y, y <> ep -> m !! y = mem w !! y).
Proof.
  intros Hget Hring Hfull Hev Hep Hne. destruct (ring_head h v1 q Hring) as (_ & Hrx & Hv1).
  pose proof Hring as [_ Hb _ _ _ _].
  step_with (chanbuf_load_ok h (recvx h) v1 w (proj1 Hrx) Hv1).
  destruct (copy_out_ok ep v1 w Hep) as (w1 & Eo & Ew & Hm & Hm1 & _). step_with Eo.
  assert (mem w1 !! e = Some v) as Hev1 by (by rewrite Hm1). step_with (memload_ok e v w1 Hev1).
  set (m := mem w1) in *. clearbody m. subst w1. set (w1 := set_mem m w) in *.
  assert (chans w1 !! c = Some h) as Hget1 by done.
  step_with (chanbuf_store_ok c h w1 (recvx h) v Hget1 ltac:(lia)).
  set (h1 := set_buf _ h). set (w2 := set_chans _ w1). assert (chans w2 !! c = Some h1) as Hget2 by apply lookup_insert_eq.
  rewrite (upd_c_ok c _ h1 w2 Hget2). exists (set_sendx (advance h1 (recvx h1)) (set_recvx (advance h1 (recvx h1)) h1)), m.
  split_and!; try done.
  - cbn. by rewrite insert_insert_eq.
  - exact (ring_swap h v1 q v Hring Hfull).
Qed.

Lemma recv_direct w ep e v :
  mem w !! e = Some v -> (ep = 0 \/ is_Some (mem w !! ep)) ->
  exists m, (if negb (ep =? 0) then let* v := memload e in memstore ep v else st_ret tt) w = (Ok tt, set_mem m w) /\
    (ep <> 0 -> m !! ep = Some v) /\ (forall y, y <> ep -> m !! y = mem w !! y).
Proof.
  intros Hev Hep. destruct (Z.eqb_spec ep 0) as [->|Hep0].
  { exists (mem w). split; [by destruct w|]. done. }
  destruct Hep as [Hep|[y Hy]]; [by destruct (Hep0 Hep)|]. cbn [negb]. step_with (memload_ok e v w Hev).
  rewrite (memstore_ok ep v y w Hy). eexists. split; [reflexivity|]. split.
  - intros _. apply lookup_insert_eq.
  - intros z Hz. by rewrite lookup_insert_ne.
Qed.

(** What [recv] does up to [goready]. *)
Lemma recv_ok c h w q a v ss gp e ep x :
  chans w !! c = Some h -> ring h q -> len q = dataqsiz h ->
  sudogs w !! a = Some x -> sg_g x = gp -> elem x = e -> mem w !! e = Some v ->
  (ep = 0 \/ is_Some (mem w !! ep)) -> e <> ep ->
  exists w1 h' q' v0, recv c a ep w = goready gp w1 /\
    chans w1 !! c = Some h' /\ ring h' q' /\ len q' = dataqsiz h' /\
    closed h' = closed h /\ dataqsiz h' = dataqsiz h /\ recvq h' = recvq h /\ sendq h' = sendq h /\
    contents q ((a, v) :: ss) = v0 :: contents q' ss /\
    sudogs w1 = <[a := set_success true (set_elem 0 x)]> (sudogs w) /\
    (ep <> 0 -> mem w1 !! ep = Some v0) /\ (forall y, y <> ep -> mem w1 !! y = mem w !! y) /\
    gs w1 = gs w /\ curg w1 = curg w /\ pp w1 = pp w /\ stolen_next w1 = stolen_next w /\ sched w1 = sched w.
Proof.
  intros Hget Hring Hfull Hx Hgp He Hev Hep Hne. unfold recv. step_with (get_c_ok c h w Hget).
  step_with (get_sg_ok a x w Hx). rewrite He, Hgp.
  set (rest := upd_sg a (set_elem 0) ;;; unlock (hchan_lock c) ;;; upd_sg a (set_success true) ;;; goready gp).
  assert (forall w1, sudogs w1 = sudogs w -> exists w2, rest w1 = goready gp w2 /\
    chans w2 = chans w1 /\ sudogs w2 = <[a := set_success true (set_elem 0 x)]> (sudogs w) /\ mem w2 = mem w1 /\
    gs w2 = gs w1 /\ curg w2 = curg w1 /\ pp w2 = pp w1 /\ stolen_next w2 = stolen_next w1 /\ sched w2 = sched w1) as Hrest.
  { intros w1 Hs. unfold rest. rewrite <- Hs in Hx. step_with (upd_sg_ok a (set_elem 0) x w1 Hx). step.
    set (w2 := set_calls _ _). assert (sudogs w2 !! a = Some (set_elem 0 x)) as Hx2 by apply lookup_insert_eq.
    step_with (upd_sg_ok a (set_success true) (set_elem 0 x) w2 Hx2). eexists. split; [reflexivity|].
    cbn. rewrite insert_insert_eq, Hs. done. }
  destruct (Z.eqb_spec (dataqsiz h) 0) as [Hd|Hd].
  - assert (q = []) as -> by (apply len_0_nil; lia).
    destruct (recv_direct w ep e v Hev Hep) as (m & E & Hm & Hm'). step_with E. fold rest.
    destruct (Hrest (set_mem m w)) as (w2 & -> & Hc & Hs & Hmm & Hg & Hcu & Hpp & Hn & Hsd); [done|].
    exists w2, h, [], v. rewrite Hc, Hs, Hmm, Hg, Hcu, Hpp, Hn, Hsd. by split_and!.
  - destruct q as [|v1 q]; [by change (len []) with 0 in Hfull|].
    destruct (recv_swap c h w ep e v v1 q Hget Hring Hfull Hev Hep Hne)
      as (h' & m & E & Hr & H1 & H2 & H3 & H4 & Hm & Hm'). step_with E. fold rest.
    destruct (Hrest (set_chans (<[c:=h']> (chans w)) (set_mem m w)))
      as (w2 & -> & Hc & Hs & Hmm & Hg & Hcu & Hpp & Hn & Hsd); [done|].
    exists w2, h', (q ++ [v]), v1. rewrite Hc, Hs, Hmm, Hg, Hcu, Hpp, Hn, Hsd. cbn.
    split_and!; try done; [apply lookup_insert_eq| |unfold contents; cbn; by rewrite <- app_assoc].
    rewrite len_cons in Hfull. rewrite H2, len_app. change (len [v]) with 1. lia.
Qed.

(** Receiving when a sender waits: up to [goready], then in any state the
    scheduler may leave. *)
Lemma chanrecv_from_sender c ep block w h q a v ss :
  chan_inv w c h q ((a, v) :: ss) [] -> (ep = 0 \/ is_Some (mem w !! ep)) ->
  (forall b g x, b ∈ a :: map fst ss -> view (sudogs w) b = Some (g, x) -> x <> ep) ->
  exists w1 h' q' v0 gp, chanrecv zero c ep block w = st_bind (goready gp) (fun _ => st_ret (Ret (true, true))) w1 /\
    status w gp = Some Gwaiting /\ (forall g, status w1 g = status w g) /\ curg w1 = curg w /\
    pp w1 = pp w /\ stolen_next w1 = stolen_next w /\
    contents q ((a, v) :: ss) = v0 :: contents q' ss /\
    (ep <> 0 -> mem w1 !! ep = Some v0) /\ success <$> sudogs w1 !! a = Some true /\ parked w a = Some gp /\
    sched w1 = sched w /\ closed h' = closed h /\
    (forall b, b ∉ a :: map fst ss -> sudogs w1 !! b = sudogs w !! b) /\
    forall w', readied gp w1 w' -> chan_inv w' c h' q' ss [].
Proof.
  intros Hinv Hep Hal. pose proof Hinv as [Hc0 Hget Hring Hrq Hsq Hss _ Hnd Hfull _ [_ Hcl]].
  apply Forall_cons_iff in Hss as [(gp & e & Hva & He0 & Hev & Hst & Hgp0) _]. cbn [fst snd] in Hva, Hev.
  assert (closed h = 0) as Hcl0 by (destruct (Z.eq_dec (closed h) 0) as [|Hne]; [done|by destruct (Hcl Hne)]).
  specialize (Hfull ltac:(done)).
  assert (empty h = false) as He.
  { unfold empty. destruct (Z.eqb_spec (dataqsiz h) 0) as [|Hd].
    - apply Z.eqb_neq. intros E. by apply (waitq_nil _ _ _ Hsq) in E.
    - apply Z.eqb_neq. rewrite (r_count _ _ Hring). lia. }
  unfold chanrecv. rewrite (proj2 (Z.eqb_neq c 0) Hc0). step_with (get_c_ok c h w Hget).
  rewrite He, andb_false_r. cbn [andb]. step. set (w1 := set_calls _ w). rewrite Hcl0. cbn [Z.eqb negb andb].
  destruct (sendq_dequeue_cons c h w1 a (map fst ss) Hget Hsq) as (hs & q1 & Ed & Hq1 & Hre). step_with Ed.
  set (h2 := set_sendq q1 h) in *. set (w2 := set_chans _ _).
  assert (a <> 0) as Ha0 by (destruct Hsq as [(_ & ? & _) _]; done).
  rewrite (proj2 (Z.eqb_neq a 0) Ha0). cbn [negb].
  assert (view hs a = Some (gp, e)) as Hva2 by (by rewrite (view_rechained _ _ _ a Hre)).
  assert (exists x, hs !! a = Some x /\ sg_g x = gp /\ elem x = e) as (x & Hx & Hxg & Hxe).
  { unfold view in Hva2. destruct (hs !! a) as [x|]; [|done]. injection Hva2 as <- <-. by exists x. }
  assert (ring h2 q) as Hring2 by (destruct Hring; by constructor).
  assert (chans w2 !! c = Some h2) as Hget2 by apply lookup_insert_eq.
  destruct (recv_ok c h2 w2 q a v ss gp e ep x Hget2 Hring2 Hfull Hx Hxg Hxe Hev Hep)
    as (w3 & h' & q' & v0 & Erecv & Hg3 & Hr3 & Hl3 & Hc3 & Hd3 & Hrq3 & Hsq3 & Hco & Hsu & Hm & Hm' & Hgs & Hcu & Hpp & Hn & Hsd).
  { by apply (Hal a gp); [set_solver|]. }
  exists w3, h', q', v0, gp. split; [by apply bind_eq|]. split_and!; try done.
  - intros g. unfold status. by rewrite Hgs.
  - rewrite Hsu, lookup_insert_eq. done.
  - unfold parked. by rewrite Hva.
  - rewrite Hc3. done.
  - intros b Hb. rewrite Hsu, lookup_insert_ne by set_solver. by apply Hre.
  - intros w' [Rc Rs Rm Rcu _ _ Rst].
    assert (a ∉ map fst ss) as Hnin by (destruct Hsq as (_ & _ & Hnd'); by apply list.NoDup_cons in Hnd' as [? _]).
    eapply chan_inv_unpark with (gp := gp) (e := e) (ep := ep); try exact Hinv; try done.
    + by rewrite Rc.
    + rewrite Rs, Hsu, Hsq3. destruct Hq1 as (Hch & Ht & Hn1). split; [|done]. by apply chain_insert_ne.
    + intros b Hb. rewrite Rs, Hsu. unfold view. rewrite lookup_insert_ne by (intros ->; done).
      apply (view_rechained _ _ _ b Hre).
    + intros g Hgne. rewrite Rst, decide_False by done. unfold status. by rewrite Hgs.
    + intros y Hy. rewrite Rm. by apply Hm'.
    + intros b g y Hb Hv. apply (Hal b g); [set_solver|done].
Qed.

(** ** Parking *)

Lemma cache_ok_ext w w' busy :
  sudogcache (pp w') = sudogcache (pp w) -> sched_sudogcache (sched w') = sched_sudogcache (sched w) ->
  (forall b, b ∉ busy -> sudogs w' !! b = sudogs w !! b) -> cache_ok w busy -> cache_ok w' busy.
Proof.
  intros Hp Hs Hsu (central & Hch & Hnd & Hall). exists central. rewrite Hp, Hs.
  assert (forall b, b ∈ sudogcache (pp w) ++ central -> sudogs w' !! b = sudogs w !! b) as He.
  { intros b Hb. apply Hsu. rewrite Forall_forall in Hall. by apply Hall, list_elem_of_In. }
  split; [eapply chain_ext; [|exact Hch]; intros b Hb; apply He; set_solver|]. split; [done|].
  apply Forall_forall. intros b Hb. rewrite Forall_forall in Hall. rewrite He by (by apply list_elem_of_In). by apply Hall.
Qed.

Lemma status_upd_g w g f x gp : gs w !! g = Some x -> atomicstatus (f x) = atomicstatus x ->
  status (set_gs (<[g := f x]> (gs w)) w) gp = status w gp.
Proof.
  intros Hx Hf. rewrite (status_set_gs g x) by done. destruct (decide (gp = g)) as [->|]; [|done].
  unfold status. by rewrite Hx, Hf.
Qed.

Lemma new_waiter_ok ep cc w busy x :
  gs w !! curg w = Some x -> cache_ok w busy -> (forall b, b ∈ busy -> is_Some (sudogs w !! b)) ->
  exists a w', new_waiter ep cc w = (Ok a, w') /\ a <> 0 /\ a ∉ busy /\
    view (sudogs w') a = Some (curg w, ep) /\ (forall b, b ∈ busy -> sudogs w' !! b = sudogs w !! b) /\
    cache_ok w' (a :: busy) /\ chans w' = chans w /\ mem w' = mem w /\ curg w' = curg w /\
    (forall g, status w' g = status w g).
Proof.
  intros Hx Hc Hb. unfold new_waiter. step.
  destruct (acquireSudog_ok busy w Hc Hb) as (a & s & w1 & Ea & Ha0 & Hab & Hs & _ & Hc1 & [F1 F2 F3 F4 _ _ F7]).
  step_with Ea. set (f := fun s => set_isSelect false _).
  step_with (upd_sg_ok a f s w1 Hs). set (w2 := set_sudogs _ w1).
  assert (exists w3 s3, (if cc =? 0 then st_ret tt else upd_sg a (set_sg_c cc)) w2 = (Ok tt, w3) /\
    w3 = set_sudogs (<[a := s3]> (sudogs w1)) w1 /\ sg_g s3 = curg w /\ elem s3 = ep) as (w3 & s3 & E3 & Ew3 & Hg3 & He3).
  { destruct (cc =? 0); [by exists w2, (f s)|]. assert (sudogs w2 !! a = Some (f s)) as Hs2 by apply lookup_insert_eq.
    exists (set_sudogs (<[a := set_sg_c cc (f s)]> (sudogs w1)) w1), (set_sg_c cc (f s)). split; [|done].
    rewrite (upd_sg_ok a _ _ w2 Hs2). cbn. by rewrite insert_insert_eq. }
  step_with E3. subst w3. assert (gs w1 !! curg w = Some x) as Hx1 by (by rewrite F2).
  erewrite bind_ok by (by apply (upd_g_ok (curg w) _ x)). cbn beta iota zeta.
  eexists a, _. split; [reflexivity|]. split; [done|]. split; [done|]. split_and!; cbn.
  - unfold view. rewrite lookup_insert_eq. cbn. by rewrite Hg3, He3.
  - intros b Hb'. rewrite lookup_insert_ne by congruence. by apply F7.
  - eapply cache_ok_ext; [| | |exact Hc1]; try done. intros b Hb'. cbn. rewrite lookup_insert_ne; [done|]. set_solver.
  - done.
  - done.
  - done.
  - intros g. unfold status. cbn. rewrite F2. destruct (decide (g = curg w)) as [->|]; [by rewrite lookup_insert_eq, Hx|].
    by rewrite lookup_insert_ne.
Qed.

Lemma park_on_ok c reason w x :
  gs w !! curg w = Some x -> atomicstatus x = Grunning ->
  exists w', park_on c reason w = (Ok true, w') /\ chans w' = chans w /\ sudogs w' = sudogs w /\ mem w' = mem w /\
    pp w' = pp w /\ sched w' = sched w /\ curg w' = 0 /\
    (forall g, status w' g = if decide (g = curg w) then Some Gwaiting else status w g).
Proof.
  intros Hx Hst. set (me := curg w) in *. unfold park_on. step. fold me.
  step_with (upd_g_ok me (set_parkingOnChan true) x w Hx). set (x1 := set_parkingOnChan true x). set (w1 := set_gs _ w).
  assert (gs w1 !! me = Some x1) as Hx1 by apply lookup_insert_eq.
  unfold gopark. step. change (curg w1) with me. step_with (get_g_ok me x1 w1 Hx1).
  change (atomicstatus x1) with (atomicstatus x). rewrite Hst. cbn [Z.eqb Pos.eqb Grunning negb andb].
  step_with (upd_g_ok me (set_waitreason reason) x1 w1 Hx1). set (x2 := set_waitreason reason x1). set (w2 := set_gs _ w1).
  assert (gs w2 !! me = Some x2) as Hx2 by apply lookup_insert_eq.
  unfold park_m. step_with (casgstatus_ok me Grunning Gwaiting w2 x2 eq_refl eq_refl ltac:(done) Hx2 Hst).
  set (x3 := set_atomicstatus Gwaiting x2). set (w3 := set_gs _ w2).
  assert (gs w3 !! me = Some x3) as Hx3 by apply lookup_insert_eq.
  erewrite bind_ok. 2: { unfold dropg. step. change (curg w3) with me. step_with (upd_g_ok me (set_g_m 0) x3 w3 Hx3). reflexivity. }
  cbn beta iota zeta. set (w4 := set_curg 0 _).
  assert (gs w4 !! me = Some (set_g_m 0 x3)) as Hx4 by apply lookup_insert_eq.
  erewrite bind_ok.
  2: { unfold chanparkcommit. step_with (upd_g_ok me (set_activeStackChans true) _ w4 Hx4).
       erewrite bind_ok by (apply upd_g_ok; apply lookup_insert_eq). cbn beta iota zeta. step. reflexivity. }
  cbn beta iota zeta. eexists. split; [reflexivity|]. cbn. split_and!; try done.
  intros g. unfold status. cbn. destruct (decide (g = me)) as [->|]; [by rewrite lookup_insert_eq|].
  by rewrite !lookup_insert_ne.
Qed.

(** The running goroutine joins the waiting ones. *)
Record joined (l : list ptr) (a me ep : ptr) w w' : Prop := {
  j_view : view (sudogs w') a = Some (me, ep);
  j_others : forall b, b ∈ l -> view (sudogs w') b = view (sudogs w) b;
  j_mem : mem w' = mem w;
  j_running : status w me = Some Grunning /\ me <> 0;
  j_status : forall g, status w' g = if decide (g = me) then Some Gwaiting else status w g }.

Lemma joined_sender l a me ep w w' b v : joined l a me ep w w' -> b ∈ l -> sender w b v -> sender w' b v.
Proof.
  intros [Jv Jo Jm Jr Js] Hb (g & e & Hv & ? & ? & Hst & ?). exists g, e. rewrite Jo, Jm, Js by done. split_and!; try done.
  destruct (decide (g = me)) as [->|]; done.
Qed.

Lemma joined_receiver l a me ep w w' b : joined l a me ep w w' -> b ∈ l -> receiver w b -> receiver w' b.
Proof.
  intros [Jv Jo Jm Jr Js] Hb (g & e & Hv & ? & Hst & ?). exists g, e. rewrite Jo, Jm, Js by done. split_and!; try done.
  destruct (decide (g = me)) as [->|]; done.
Qed.

Lemma joined_nodup l a me ep w w' :
  joined l a me ep w w' -> (forall b, b ∈ l -> exists g, parked w b = Some g /\ status w g = Some Gwaiting /\ g <> 0) ->
  NoDup (map (parked w) l) -> NoDup (map (parked w') (l ++ [a])).
Proof.
  intros [Jv Jo _ [Jr _] _] Hw Hnd. rewrite map_app. cbn [map]. apply list.NoDup_app. split_and!.
  - erewrite map_ext_in; [exact Hnd|]. intros b Hb. unfold parked. f_equal. apply Jo. by apply list_elem_of_In.
  - intros o Ho Ho'. apply list_elem_of_singleton in Ho' as ->.
    apply list_elem_of_In, in_map_iff in Ho as (b & Hb & Hin). apply list_elem_of_In in Hin.
    destruct (Hw b Hin) as (g & Hg & Hst & _). unfold parked in *. rewrite Jo, Hg, Jv in Hb by done. injection Hb as ->.
    by rewrite Jr in Hst.
  - apply NoDup_singleton.
Qed.

Lemma waiting_goroutines w ss rs b :
  Forall (fun x => sender w x.1 x.2) ss -> Forall (receiver w) rs -> b ∈ map fst ss ++ rs ->
  exists g, parked w b = Some g /\ status w g = Some Gwaiting /\ g <> 0.
Proof.
  intros Hs Hr Hb. rewrite Forall_forall in Hs, Hr. apply elem_of_app in Hb as [Hb|Hb].
  - apply list_elem_of_In, in_map_iff in Hb as (x & <- & Hin). destruct (Hs x Hin) as (g & e & Hv & _ & _ & ?).
    exists g. unfold parked. by rewrite Hv.
  - apply list_elem_of_In in Hb. destruct (Hr b Hb) as (g & e & Hv & _ & ?). exists g. unfold parked. by rewrite Hv.
Qed.

Lemma sudogs_of_waiting w ss rs b :
  Forall (fun x => sender w x.1 x.2) ss -> Forall (receiver w) rs -> b ∈ map fst ss ++ rs -> is_Some (sudogs w !! b).
Proof.
  intros Hs Hr Hb. destruct (waiting_goroutines w ss rs b Hs Hr Hb) as (g & Hp & _). unfold parked, view in Hp.
  by destruct (sudogs w !! b).
Qed.

Lemma ring_recvq h h' (q : list V) :
  ring h q -> qcount h' = qcount h -> dataqsiz h' = dataqsiz h -> buf h' = buf h -> sendx h' = sendx h ->
  recvx h' = recvx h -> ring h' q.
Proof.
  intros [] E1 E2 E3 E4 E5. constructor; rewrite ?E1, ?E2, ?E3, ?E4, ?E5; try done.
  intros Hn. destruct (r_some Hn) as (? & ? & Hq). split; [done|]. split; [done|]. intros i Hi. unfold slot.
  rewrite E2, E5. by apply Hq.
Qed.

(** A fresh sudog for [ep] joins one of the queues and the goroutine parks. *)
Lemma wait_ok {A} (qof : hchan V -> waitq) (setq : waitq -> hchan V -> hchan V) (k : A) ep cc c reason w h l :
  chans w !! c = Some h -> waitq_of (sudogs w) (qof h) l -> (forall b, b ∈ l -> is_Some (sudogs w !! b)) ->
  status w (curg w) = Some Grunning -> curg w <> 0 -> cache_ok w l ->
  exists a q1 w', (let* mysg := new_waiter ep cc in
     (let* h := get_c c in let* q := enqueue (qof h) mysg in upd_c c (setq q)) ;;;
     park_on c reason ;;; st_ret k) w = (Ok k, w') /\
    chans w' = <[c := setq q1 h]> (chans w) /\ waitq_of (sudogs w') q1 (l ++ [a]) /\
    joined l a (curg w) ep w w' /\ cache_ok w' (l ++ [a]) /\ curg w' = 0.
Proof.
  intros Hget Hq Hex Hrun Hme0 Hca. pose proof Hrun as Hrun'. unfold status in Hrun.
  destruct (gs w !! curg w) as [x|] eqn:Hx; [|done]. injection Hrun as Hrun.
  destruct (new_waiter_ok ep cc w l x Hx Hca Hex) as (a & w2 & Ea & Ha0 & Hab & Hva & Hso & Hca2 & Hch & Hme & Hcu & Hst).
  step_with Ea. assert (chans w2 !! c = Some h) as Hget2 by (by rewrite Hch).
  assert (waitq_of (sudogs w2) (qof h) l) as Hq2 by (destruct Hq as (H1 & H2); split; [by eapply chain_ext|done]).
  assert (exists s, sudogs w2 !! a = Some s) as [s Hs] by (unfold view in Hva; destruct (sudogs w2 !! a); [eauto|done]).
  destruct (enqueue_ok (qof h) a l s w2 Hq2 Hab Ha0 Hs) as (hs & q1 & Eq & Hq1 & Hre).
  erewrite bind_ok by (step_with (get_c_ok c h w2 Hget2); step_with Eq; by apply (upd_c_ok c _ h)).
  cbn beta iota zeta. set (w3 := set_chans _ _).
  assert (exists x3, gs w3 !! curg w3 = Some x3 /\ atomicstatus x3 = Grunning) as (x3 & Hx3 & Hst3).
  { specialize (Hst (curg w)). rewrite Hrun' in Hst. unfold status in Hst. cbn. rewrite Hcu.
    destruct (gs w2 !! curg w) as [x3|]; [|done]. exists x3. split; [done|]. by injection Hst. }
  destruct (park_on_ok c reason w3 x3 Hx3 Hst3) as (w4 & Ep & P1 & P2 & P3 & P4 & P5 & P6 & P7).
  step_with Ep. exists a, q1, w4. split; [reflexivity|]. cbn in P1, P2, P3.
  rewrite P1, P2, Hch. split; [done|]. split; [done|]. split; [|split; [|done]].
  - constructor; [..|by intros g; rewrite P7; change (curg w3) with (curg w2); rewrite Hcu, <- Hst].
    + by rewrite P2, (view_rechained _ _ _ a Hre).
    + intros b Hb. rewrite P2, (view_rechained _ _ _ b Hre). unfold view. by rewrite Hso.
    + by rewrite P3, Hme.
    + done.
  - assert (cache_ok w4 (a :: l)) as (ce & H1 & H2 & H3).
    { eapply cache_ok_ext; [| | |exact Hca2]; [by rewrite P4|by rewrite P5|]. intros b Hb. rewrite P2. by apply Hre. }
    exists ce. split; [done|]. split; [done|]. eapply List.Forall_impl; [|exact H3].
    cbn. intros b (? & Hb & ?). split; [done|]. split; [set_solver|done].
Qed.

(** Sending when the buffer is full: the value waits behind the others. *)
Lemma chansend_parks c ep w h q ss v :
  chan_inv w c h q ss [] -> closed h = 0 -> len q = dataqsiz h -> mem w !! ep = Some v -> ep <> 0 ->
  status w (curg w) = Some Grunning -> curg w <> 0 -> cache_ok w (map fst ss) ->
  exists a h' w', chansend c ep true w = (Ok (Park (st_ret true)), w') /\
    chan_inv w' c h' q (ss ++ [(a, v)]) [] /\ cache_ok w' (map fst (ss ++ [(a, v)])) /\ curg w' = 0 /\ closed h' = closed h /\
    joined (map fst ss) a (curg w) ep w w'.
Proof.
  intros Hinv Hcl Hlen Hv Hep Hrun Hme Hca. pose proof Hinv as [Hc0 Hget Hring Hrq Hsq Hss Hrs Hnd _ _ Hcd].
  unfold chansend. rewrite (proj2 (Z.eqb_neq c 0) Hc0). step_with (get_c_ok c h w Hget). cbn [negb andb]. step.
  set (w1 := set_calls _ w). rewrite Hcl. cbn [Z.eqb negb]. step_with (recvq_dequeue_nil c h w1 Hget Hrq).
  rewrite (proj2 (Z.ltb_ge _ _)) by (rewrite (r_count _ _ Hring); lia). rewrite app_nil_r in Hnd.
  destruct (wait_ok sendq set_sendq (Park (V:=V) (st_ret true)) ep c c waitReasonChanSend w1 h (map fst ss))
    as (a & q1 & w4 & Ew & Hch & Hq1 & Hj & Hca4 & Hcu); try done.
  { intros b Hb. apply (sudogs_of_waiting w ss [] b Hss Hrs). by rewrite app_nil_r. }
  exists a, (set_sendq q1 h), w4. split; [exact Ew|]. change (curg w1) with (curg w) in Hj.
  assert (joined (map fst ss) a (curg w) ep w w4) as Hj' by (by destruct Hj). clear Hj.
  rewrite map_app. split; [|done]. constructor; try done.
  - rewrite Hch. apply lookup_insert_eq.
  - by apply (ring_recvq h).
  - by rewrite map_app.
  - apply List.Forall_app. split.
    + apply Forall_forall. intros y Hy. rewrite Forall_forall in Hss. eapply joined_sender; [exact Hj'| |by apply Hss].
      apply list_elem_of_In. by apply in_map.
    + constructor; [|constructor]. exists (curg w), ep. destruct Hj' as [Jv _ Jm _ Js]. cbn [fst snd].
      rewrite Jv, Jm, Js, decide_True by done. done.
  - rewrite app_nil_r, map_app. eapply joined_nodup; [exact Hj'| |done].
    intros b Hb. apply (waiting_goroutines w ss [] b Hss Hrs). by rewrite app_nil_r.
  - split; [by left|]. intros Hne. by destruct Hne.
Qed.

(** Receiving when there is nothing: the goroutine waits. *)
Lemma chanrecv_parks c ep w h rs :
  chan_inv w c h [] [] rs -> closed h = 0 -> (ep = 0 \/ is_Some (mem w !! ep)) ->
  status w (curg w) = Some Grunning -> curg w <> 0 -> cache_ok w rs ->
  exists a h' w', chanrecv zero c ep true w = (Ok (Park (st_ret (true, true))), w') /\
    chan_inv w' c h' [] [] (rs ++ [a]) /\ cache_ok w' (rs ++ [a]) /\ curg w' = 0 /\ closed h' = closed h /\
    joined rs a (curg w) ep w w'.
Proof.
  intros Hinv Hcl Hep Hrun Hme Hca. pose proof Hinv as [Hc0 Hget Hring Hrq Hsq Hss Hrs Hnd _ _ Hcd].
  unfold chanrecv. rewrite (proj2 (Z.eqb_neq c 0) Hc0). step_with (get_c_ok c h w Hget). cbn [negb andb]. step.
  set (w1 := set_calls _ w). rewrite Hcl. cbn [Z.eqb negb andb]. step_with (sendq_dequeue_nil c h w1 Hget Hsq).
  rewrite (r_count _ _ Hring). cbn [Z.ltb len length Z.of_nat Z.compare].
  destruct (wait_ok recvq set_recvq (Park (V:=V) (st_ret (true, true))) ep 0 c waitReasonChanReceive w1 h rs)
    as (a & q1 & w4 & Ew & Hch & Hq1 & Hj & Hca4 & Hcu); try done.
  { intros b Hb. by apply (sudogs_of_waiting w [] rs b Hss Hrs). }
  exists a, (set_recvq q1 h), w4. split; [exact Ew|]. change (curg w1) with (curg w) in Hj.
  assert (joined rs a (curg w) ep w w4) as Hj' by (by destruct Hj). clear Hj.
  split; [|done]. constructor; try done.
  - rewrite Hch. apply lookup_insert_eq.
  - by apply (ring_recvq h).
  - apply List.Forall_app. split.
    + apply Forall_forall. intros b Hb. rewrite Forall_forall in Hrs. eapply joined_receiver; [exact Hj'| |by apply Hrs].
      by apply list_elem_of_In.
    + constructor; [|constructor]. exists (curg w), ep. destruct Hj' as [Jv _ Jm _ Js].
      rewrite Jv, Jm, Js, decide_True by done. done.
  - cbn [map app]. eapply joined_nodup; [exact Hj'| |done].
    intros b Hb. by apply (waiting_goroutines w [] rs b Hss Hrs).
  - split; [by left|]. intros Hne. by destruct Hne.
Qed.

End Inv.

(** ** Making a channel *)

(** [MulUintptr] decides whether the product fits a word, and gives it if so. *)
Lemma MulUintptr_spec a b : 0 <= a < 2 ^ 64 -> 0 <= b < 2 ^ 64 ->
  MulUintptr a b = if a * b <? 2 ^ 64 then (a * b, false) else (u64 (a * b), true).
Proof.
  intros Ha Hb. unfold MulUintptr. change (Z.shiftl 1 (4 * 8)) with (2 ^ 32).
  destruct (Z.ltb_spec (Z.lor a b) (2 ^ 32)) as [Hl|_]; cbn [orb].
  - assert (a < 2 ^ 32 /\ b < 2 ^ 32) as [H1 H2].
    { assert (forall x, 0 <= x -> Z.lor a b / 2 ^ 32 = 0) as Hd by (intros; apply Z.div_small; split; [apply Z.lor_nonneg; lia|done]).
      specialize (Hd 0 ltac:(lia)). rewrite <- Z.shiftr_div_pow2, Z.shiftr_lor in Hd by lia. apply Z.lor_eq_0_iff in Hd as [H1 H2].
      rewrite Z.shiftr_div_pow2 in H1, H2 by lia. apply Z.div_small_iff in H1; [|lia]. apply Z.div_small_iff in H2; [|lia]. lia. }
    rewrite (proj2 (Z.ltb_lt _ _)) by nia. rewrite u64_small by nia. done.
  - destruct (Z.eqb_spec a 0) as [->|Hne]; [done|].
    assert ((2 ^ 64 - 1) / a <? b = negb (a * b <? 2 ^ 64)) as ->.
    { destruct (Z.ltb_spec (a * b) (2 ^ 64)); cbn [negb].
      - apply Z.ltb_ge. apply Z.div_le_lower_bound; lia.
      - apply Z.ltb_lt. apply Z.div_lt_upper_bound; lia. }
    destruct (Z.ltb_spec (a * b) (2 ^ 64)); cbn [negb]; [|done]. rewrite u64_small by nia. done.
Qed.

Section Make.
Context {V : Type} (zero : V).
Implicit Types w : world V.

(** What [makechan] accepts. *)
Definition makeable (elem : elemtype) (size : Z) : bool :=
  (el_size elem <? 2 ^ 16) && (el_align elem <=? maxAlign) && (0 <=? size) &&
  (hchanSize + el_size elem * size <=? maxAlloc).

Lemma ring_new size : 0 <= size < 2 ^ 63 ->
  ring (mkHchan 0 (u64 size) (repeat zero (Z.to_nat size)) 0 0 0 (mkWaitq 0 0) (mkWaitq 0 0)) [].
Proof.
  intros Hs. rewrite u64_small by lia. constructor; cbn; try done; [unfold len; rewrite repeat_length; lia|change (len []) with 0; lia|].
  intros Hp. split; [lia|]. split; [done|]. intros i Hi. change (len []) with 0 in Hi. lia.
Qed.

(** [makechan] succeeds exactly when the element type is small and aligned
    enough and the size is not negative and the channel with its buffer fits
    the address space, never misled by a product that wraps around; the new
    channel is open, empty and has the size asked for.  Otherwise it panics and
    allocates nothing. *)
Theorem makechan_fits elem size w :
  0 <= el_size elem < 2 ^ 64 -> - 2 ^ 63 <= size < 2 ^ 63 ->
  if makeable elem size then
    exists c h w', makechan zero elem size w = (Ok c, w') /\ chan_inv w' c h [] [] [] /\ closed h = 0 /\
      dataqsiz h = size /\ chans w !! c = None /\ chans w' = <[c := h]> (chans w)
  else exists s, makechan zero elem size w = (Panic s, w).
Proof.
  intros Hel Hsz. unfold makeable, makechan, maxAlign, hchanSize, maxAlloc.
  change (112 mod 8) with 0. cbn [Z.eqb negb orb].
  destruct (Z.leb_spec (2 ^ 16) (el_size elem)) as [|Hs]; [rewrite (proj2 (Z.ltb_ge _ _)) by lia; by eexists|].
  rewrite (proj2 (Z.ltb_lt _ _)) by lia. cbn [andb].
  destruct (Z.ltb_spec 8 (el_align elem)) as [|Ha]; [rewrite (proj2 (Z.leb_gt _ _)) by lia; by eexists|].
  rewrite (proj2 (Z.leb_le _ _)) by lia. cbn [andb].
  assert (0 <= u64 size < 2 ^ 64) as Hu by (apply Z.mod_pos_bound; lia).
  rewrite MulUintptr_spec by lia.
  destruct (Z.leb_spec 0 size) as [H0|H0]; cbn [andb].
  - rewrite u64_small in * by lia. destruct (Z.ltb_spec (el_size elem * size) (2 ^ 64)) as [Hp|Hp]; cbn [orb].
    + rewrite (proj2 (Z.ltb_ge size 0)), orb_false_r by lia.
      destruct (Z.ltb_spec (2 ^ 48 - 112) (el_size elem * size)) as [Hm|Hm].
      { rewrite (proj2 (Z.leb_gt _ _)) by lia. by eexists. }
      rewrite (proj2 (Z.leb_le _ _)) by lia. set (c := fresh _).
      pose proof (fresh_not_in (0 :: elements (dom (chans w)))) as Hf. fold c in Hf.
      apply not_elem_of_cons in Hf as [Hc0 Hf]. rewrite elem_of_elements, not_elem_of_dom in Hf.
      eexists c, (mkHchan 0 size (repeat zero (Z.to_nat size)) 0 0 0 (mkWaitq 0 0) (mkWaitq 0 0)), _. split; [reflexivity|]. split; [|split; [done|]; split; [done|]; split; [exact Hf|reflexivity]].
      assert (waitq_of (sudogs w) (mkWaitq 0 0) []) as Hq by (split; [done|]; split; [done|constructor]).
      constructor; try done; [apply lookup_insert_eq| |constructor..|by split; [left|]].
      pose proof (ring_new size ltac:(lia)) as Hr. by rewrite u64_small in Hr by lia.
    + rewrite (proj2 (Z.leb_gt _ _)) by lia. by eexists.
  - destruct (Z.ltb_spec (el_size elem * u64 size) (2 ^ 64)) as [Hp|Hp]; cbn [orb]; [|by eexists].
    rewrite (proj2 (Z.ltb_lt size 0)), orb_true_r by lia. by eexists.
Qed.

End Make.

Definition example_empty : world Z :=
  mkWorld ∅ ∅ ∅ ∅ (mkP 0 0 0 [] 0 [] 0) (mkSched 0 (mkGQueue 0 0) 0) 0 [] [] [].

Lemma makechan_fits_witness :
  exists c h w', makechan 0 (mkElem 8 8 0) 3 example_empty = (Ok c, w') /\ chan_inv w' c h [] [] [] /\ closed h = 0 /\
      dataqsiz h = 3 /\ chans example_empty !! c = None /\ chans w' = <[c := h]> (chans example_empty).
Proof. apply (makechan_fits 0 (mkElem 8 8 0) 3 example_empty); by vm_compute. Defined.
