(* ===== verification/ChanFifo.v ===== *)
(** * A channel delivers what was sent, in order

    A run of a channel is a sequence of calls by any goroutines, with anything
    in between that leaves the channel and those who wait on it alone.  As long
    as no receiver parks, what was received is a prefix of what was sent, and
    the rest is in the channel.  A send that meets a parked receiver loses its
    value. *)
From S2P Require Import Prelude Goroutine Sched SchedProps Chan ChanLists ChanProps.

Local Open Scope Z_scope.
Local Open Scope go_scope.

Section Fifo.
Context {V : Type} (zero : V) (c : ptr).
Implicit Types w : world V.

(** ** Runs *)

(** The sudogs of the senders waiting on [c]. *)
Definition queued w (l : list ptr) : Prop := exists h, chans w !! c = Some h /\ waitq_of (sudogs w) (sendq h) l.

(** What others may do between two calls: anything that keeps the channel, the
    sudogs, goroutines and elements waiting on it, and the sudog caches. *)
Record elsewhere w w' : Prop := {
  el_chan : chans w' !! c = chans w !! c;
  el_waiting : forall l a, queued w l -> a ∈ l -> sudogs w' !! a = sudogs w !! a /\
    forall gp e, view (sudogs w) a = Some (gp, e) ->
      mem w' !! e = mem w !! e /\ (status w gp = Some Gwaiting -> status w' gp = Some Gwaiting);
  el_cache : forall l, queued w l -> cache_ok w l -> cache_ok w' l }.

(** No waiting sender sends from [ep]. *)
Definition own w (ep : ptr) : Prop :=
  forall l a gp e, queued w l -> a ∈ l -> view (sudogs w) a = Some (gp, e) -> e <> ep.

Definition accepted (r : call (V:=V) bool) : Prop := match r with Ret b => b = true | Park _ => True end.

(** [run sent received w w']: the calls between [w] and [w'] sent and received
    these values. *)
Inductive run : list V -> list V -> world V -> world V -> Prop :=
  | run_none w : run [] [] w w
  | run_elsewhere s r w w1 w2 : run s r w w1 -> elsewhere w1 w2 -> run s r w w2
  | run_send s r w w1 w2 ep block v res :
      run s r w w1 -> ep <> 0 -> mem w1 !! ep = Some v -> status w1 (curg w1) = Some Grunning -> curg w1 <> 0 ->
      chansend c ep block w1 = (Ok res, w2) -> accepted res -> run (s ++ [v]) r w w2
  | run_recv s r w w1 w2 ep block v :
      run s r w w1 -> ep <> 0 -> is_Some (mem w1 !! ep) -> own w1 ep ->
      chanrecv zero c ep block w1 = (Ok (Ret (true, true)), w2) -> mem w2 !! ep = Some v -> run s (r ++ [v]) w w2.

(** ** Calls that cannot succeed *)

Lemma full_ring h (q : list V) ss :
  ring h q -> waitq_of ss (recvq h) [] -> len q = dataqsiz h -> full h = true.
Proof.
  intros Hr Hq Hl. unfold full. destruct (dataqsiz h =? 0); apply Z.eqb_eq; [by apply (waitq_nil _ _ _ Hq)|].
  by rewrite (r_count _ _ Hr).
Qed.

Lemma empty_ring h ss : ring h ([] : list V) -> waitq_of ss (sendq h) [] -> empty h = true.
Proof.
  intros Hr Hq. unfold empty. destruct (dataqsiz h =? 0); apply Z.eqb_eq; [by apply (waitq_nil _ _ _ Hq)|].
  by rewrite (r_count _ _ Hr).
Qed.

(** A computation that does not return a result of the call. *)
Definition no_result {A} (m : stateful (world V) Empty_set (call (V:=V) A)) : Prop :=
  forall w a w', m w <> (Ok (Ret a), w').

Lemma no_result_bind {A B} (m : stateful (world V) Empty_set B) (k : B -> stateful (world V) Empty_set (call (V:=V) A)) :
  (forall b, no_result (k b)) -> no_result (st_bind m k).
Proof. intros H w a w' E. unfold st_bind in E. destruct (m w) as [[b|?|?|] w1]; try done. by apply H in E. Qed.

Lemma no_result_park {A} (m : stateful (world V) Empty_set A) : no_result (st_ret (Park m)).
Proof. by intros w a w' E. Qed.

Lemma chansend_refused ep w h q ss :
  chan_inv w c h q ss [] -> closed h = 0 -> len q = dataqsiz h -> chansend c ep false w = (Ok (Ret false), w).
Proof.
  intros Hinv Hcl Hl. destruct Hinv as [Hc0 Hget Hring Hrq _ _ _ _ _ _ _]. unfold chansend.
  rewrite (proj2 (Z.eqb_neq c 0) Hc0). step_with (get_c_ok c h w Hget). by rewrite Hcl, (full_ring h q (sudogs w)).
Qed.

Lemma chanrecv_nothing ep block w w' h :
  chan_inv w c h [] [] [] -> closed h = 0 -> chanrecv zero c ep block w <> (Ok (Ret (true, true)), w').
Proof.
  intros Hinv Hcl. destruct Hinv as [Hc0 Hget Hring _ Hsq _ _ _ _ _ _]. unfold chanrecv.
  rewrite (proj2 (Z.eqb_neq c 0) Hc0). step_with (get_c_ok c h w Hget).
  rewrite Hcl, (empty_ring h (sudogs w)) by done. destruct block; cbn [negb andb Z.eqb]; [|done]. step.
  set (w1 := set_calls _ w). step_with (sendq_dequeue_nil c h w1 Hget Hsq).
  rewrite (r_count _ _ Hring). cbn [Z.ltb len length Z.of_nat Z.compare].
  apply no_result_bind; intros a. apply no_result_bind; intros []. apply no_result_bind; intros b.
  apply no_result_park.
Qed.

(** ** The invariant of a run *)

(** No receiver waits, [l] is in the channel, and no cached sudog is queued. *)
Definition holds w (l : list V) : Prop :=
  exists h q ss, chan_inv w c h q ss [] /\ closed h = 0 /\ cache_ok w (map fst ss) /\ l = contents q ss.

Lemma cache_ok_fewer w l l' : (forall a, a ∈ l' -> a ∈ l) -> cache_ok w l -> cache_ok w l'.
Proof.
  intros Hl (ce & H1 & H2 & H3). exists ce. split; [done|]. split; [done|]. eapply List.Forall_impl; [|exact H3].
  cbn. naive_solver.
Qed.

Lemma queued_inv w h q ss : chan_inv w c h q ss [] -> queued w (map fst ss).
Proof. intros H. exists h. split; apply H. Qed.

Lemma holds_elsewhere w w' l : elsewhere w w' -> holds w l -> holds w' l.
Proof.
  intros [Hc Hw Hca] (h & q & ss & Hinv & Hcl & Hcache & ->). pose proof (queued_inv _ _ _ _ Hinv) as Hqu.
  exists h, q, ss. split; [|split; [done|split; [by apply Hca|done]]].
  destruct Hinv as [Hc0 Hget Hring Hrq Hsq Hss Hrs Hnd Hf He Hcd]. constructor; try done.
  - by rewrite Hc.
  - destruct Hsq as [H1 H2]. split; [|done]. eapply chain_ext; [|exact H1]. intros a Ha. by apply (Hw _ _ Hqu).
  - apply Forall_forall. intros x Hx. rewrite Forall_forall in Hss. destruct (Hss x Hx) as (gp & e & Hv & He0 & Hm & Hst & Hg).
    destruct (Hw _ x.1 Hqu) as [Hs Hr]; [apply list_elem_of_In; by apply in_map|]. destruct (Hr gp e Hv) as [Em Est].
    exists gp, e. unfold view. rewrite Hs, Em. split_and!; try done. by apply Est.
  - rewrite app_nil_r in *. erewrite map_ext_in; [exact Hnd|]. intros b Hb. unfold parked, view.
    by rewrite (proj1 (Hw _ b Hqu ltac:(by apply list_elem_of_In))).
Qed.

Lemma holds_send w w' l ep block v res :
  ep <> 0 -> mem w !! ep = Some v -> status w (curg w) = Some Grunning -> curg w <> 0 ->
  chansend c ep block w = (Ok res, w') -> accepted res -> holds w l -> holds w' (l ++ [v]).
Proof.
  intros Hep Hv Hrun Hme E Hacc (h & q & ss & Hinv & Hcl & Hcache & ->). pose proof Hinv as [_ _ [_ _ _ Hle _ _] _ _ _ _ _ Hf _ _].
  destruct (Z.eq_dec (len q) (dataqsiz h)) as [Hfull|Hroom].
  - destruct block; [|by rewrite (chansend_refused ep w h q ss Hinv Hcl Hfull) in E; injection E as <- _].
    destruct (chansend_parks c ep w h q ss v) as (a & h' & w2 & E' & Hinv' & Hca & _ & Hcl' & _); try done.
    rewrite E' in E. injection E as _ <-. exists h', q, (ss ++ [(a, v)]).
    split; [done|]. split; [congruence|]. split; [done|]. unfold contents. by rewrite map_app, app_assoc.
  - assert (ss = []) as -> by (destruct ss; [done|by rewrite Hf in Hroom]).
    destruct (chansend_buffers c ep block w h q [] v) as (h' & w2 & E' & Hinv' & [] & Hcl'); [done|done|lia|done|].
    rewrite E' in E. injection E as _ <-. exists h', (q ++ [v]), []. split; [done|]. split; [congruence|].
    unfold contents. rewrite !app_nil_r. split; [|done].
    by apply (cache_ok_ext w); rewrite ?co_pp, ?co_sched, ?co_sudogs.
Qed.

Lemma holds_recv w w' l ep block v :
  ep <> 0 -> is_Some (mem w !! ep) -> own w ep ->
  chanrecv zero c ep block w = (Ok (Ret (true, true)), w') -> mem w' !! ep = Some v -> holds w l ->
  exists l', l = v :: l' /\ holds w' l'.
Proof.
  intros Hep Hm Hown E Hv (h & q & ss & Hinv & Hcl & Hcache & ->). pose proof (queued_inv _ _ _ _ Hinv) as Hqu.
  destruct ss as [|[a va] ss].
  - destruct q as [|v0 q]; [by apply (chanrecv_nothing ep block w w' h Hinv Hcl) in E|].
    destruct (chanrecv_buffered zero c ep block w h q v0)
      as (h' & w2 & E' & Hinv' & Hm2 & _ & Hsu & _ & Hcl' & Hpp & Hsd); [done|by right|].
    rewrite E' in E. injection E as <-. exists q. rewrite (Hm2 Hep) in Hv. injection Hv as ->. split; [apply app_nil_r|].
    exists h', q, []. split; [done|]. split; [congruence|]. split; [|symmetry; apply app_nil_r].
    by apply (cache_ok_ext w); rewrite ?Hpp, ?Hsd, ?Hsu.
  - destruct (chanrecv_from_sender zero c ep block w h q a va ss)
      as (w1 & h' & q' & v0 & gp & E' & _ & _ & _ & Hpp & _ & Hco & Hm1 & _ & _ & Hsd & Hcl' & Hsu & Hinv'); [done|by right| |].
    { intros b g x Hb Hx. by apply (Hown _ b g x Hqu). }
    rewrite E' in E. unfold st_bind in E. destruct (goready gp w1) as [[[]|?|?|] w2] eqn:Eg; try done. injection E as <-.
    pose proof (goready_readied _ _ _ Eg) as Hr. pose proof Hr as [_ Rs Rm _ Rca Rce _].
    rewrite Rm, (Hm1 Hep) in Hv. injection Hv as ->. exists (contents q' ss). split; [done|].
    exists h', q', ss. split; [by apply Hinv'|]. split; [congruence|]. split; [|done].
    apply (cache_ok_fewer _ (map fst ((a, va) :: ss))); [cbn; set_solver|].
    apply (cache_ok_ext w); [by rewrite Rca, Hpp|by rewrite Rce, Hsd| |done]. intros b Hb. rewrite Rs. by apply Hsu.
Qed.

(** C25: a channel is first in, first out: when, from an open empty channel, any
    goroutines send and receive (through the buffer, from parked senders, or
    directly), without a receiver parking, then what was sent is what was
    received followed by what is in the buffer and what the parked senders
    hold. *)
Theorem channel_fifo w w' h s r :
  chan_inv w c h [] [] [] -> closed h = 0 -> cache_ok w [] -> run s r w w' ->
  exists h' q ss, chan_inv w' c h' q ss [] /\ closed h' = 0 /\ s = r ++ contents q ss.
Proof.
  intros Hinv Hcl Hca Hrun. assert (exists l, holds w' l /\ s = r ++ l) as (l & (h' & q & ss & Hi & Hc' & _ & El) & Es).
  2:{ exists h', q, ss. by rewrite <- El. }
  assert (holds w []) as H0 by (by exists h, [], []). clear Hinv Hcl Hca. induction Hrun.
  - by exists [].
  - destruct (IHHrun H0) as (l & Hl & ->). exists l. split; [by apply (holds_elsewhere w1)|done].
  - destruct (IHHrun H0) as (l & Hl & ->). exists (l ++ [v]). split; [by apply (holds_send w1 w2 l ep block v res)|by rewrite app_assoc].
  - destruct (IHHrun H0) as (l & Hl & ->). destruct (holds_recv w1 w2 l ep block v) as (l' & -> & Hl'); try done.
    exists l'. split; [done|]. by rewrite <- app_assoc.
Qed.

(** ** A receiver is waiting *)

(** A send that meets a parked receiver takes it off the queue and reports
    success, but neither hands it the value nor makes it runnable, and keeps
    the channel locked: the value is lost and the receiver sleeps for ever. *)
Theorem chansend_loses_value ep block w h rs a :
  chan_inv w c h [] [] (a :: rs) -> closed h = 0 ->
  exists h' w', chansend c ep block w = (Ok (Ret true), w') /\ chan_inv w' c h' [] [] rs /\
    calls w' = calls w ++ [Lock (hchan_lock c)] /\ mem w' = mem w /\ gs w' = gs w /\ pp w' = pp w /\
    exists gp, parked w a = Some gp /\ status w' gp = Some Gwaiting /\ forall b, b ∈ rs -> parked w' b <> Some gp.
Proof.
  intros Hinv Hcl. pose proof Hinv as [Hc0 Hget Hring Hrq Hsq _ Hrs Hnd _ _ Hcd].
  assert (a <> 0) as Ha0 by (destruct Hrq as [(_ & ? & _) _]; done).
  assert (full h = false \/ block = true \/ dataqsiz h <> 0) as Hfull.
  { destruct (Z.eq_dec (dataqsiz h) 0) as [E|]; [left|auto]. unfold full. rewrite E. cbn. apply Z.eqb_neq.
    by rewrite (waitq_first _ _ _ Hrq). }
  assert (negb block && (closed h =? 0) && full h = false) as Hfast.
  { rewrite Hcl. destruct Hfull as [->|[->|Hd]]; [by rewrite andb_false_r|done|]. unfold full.
    rewrite (proj2 (Z.eqb_neq _ _) Hd), (r_count _ _ Hring). change (len []) with 0.
    rewrite (proj2 (Z.eqb_neq 0 (dataqsiz h))) by lia. by rewrite andb_false_r. }
  unfold chansend. rewrite (proj2 (Z.eqb_neq c 0) Hc0). step_with (get_c_ok c h w Hget). rewrite Hfast. step.
  set (w1 := set_calls _ w). rewrite Hcl. cbn [Z.eqb negb].
  destruct (recvq_dequeue_cons c h w1 a rs Hget Hrq) as (hs & q1 & Ed & Hq1 & Hre). step_with Ed.
  rewrite (proj2 (Z.eqb_neq a 0) Ha0). cbn [negb].
  exists (set_recvq q1 h), (set_chans (<[c := set_recvq q1 h]> (chans w1)) (set_sudogs hs w1)).
  assert (forall b, view hs b = view (sudogs w) b) as Hv by (intros b; apply (view_rechained _ _ _ b Hre)).
  apply Forall_cons_iff in Hrs as [(gp & e & Hva & _ & Hst & Hgp) Hrs]. cbn [map app] in Hnd.
  apply list.NoDup_cons in Hnd as [Hna Hnd].
  assert (forall b, parked (set_chans (<[c := set_recvq q1 h]> (chans w1)) (set_sudogs hs w1)) b = parked w b) as Hp.
  { intros b. unfold parked. cbn. by rewrite Hv. }
  split; [done|]. split; [|split_and!; try done].
  - constructor; try done; [apply lookup_insert_eq|by apply (ring_recvq h)| | |].
    + eapply List.Forall_impl; [|exact Hrs]. intros b (g & x & Hb & ?). exists g, x. cbn. by rewrite Hv.
    + cbn [map app]. erewrite map_ext; [exact Hnd|done].
    + split; [by left|]. intros Hne. by destruct Hne.
  - exists gp. unfold parked at 1. rewrite Hva. split; [done|]. split; [done|]. intros b Hb. rewrite Hp. intros E.
    apply Hna. unfold parked at 1. rewrite Hva. cbn. apply list_elem_of_In, in_map_iff. exists b. split; [done|].
    by apply list_elem_of_In.
Qed.

End Fifo.

(** ** An example *)

(** Goroutines 1 (running) and 2, and a channel with room for one value. *)
Definition example_g (s : Z) : g := mkG s 1 0 0 0 0 false false false 0.
Definition example_chan : hchan Z := mkHchan 0 1 [0] 0 0 0 (mkWaitq 0 0) (mkWaitq 0 0).
Definition example_world : world Z :=
  mkWorld {[1 := example_chan]} ∅ {[1 := example_g Grunning; 2 := example_g Grunning]}
    {[10 := 7; 11 := 8; 12 := 0; 13 := 0]} (mkP 0 0 0 (repeat 0 256) 0 [] 8) (mkSched 0 (mkGQueue 0 0) 0) 1 [] [] [].

Lemma example_inv : chan_inv example_world 1 example_chan [] [] [].
Proof.
  assert (waitq_of (sudogs example_world) (mkWaitq 0 0) []) as Hq by (split; [done|]; split; [done|constructor]).
  constructor; try done; [|constructor..|by split; [left|]].
  constructor; try done. intros _. split; [done|]. split; [done|]. intros i Hi. change (0 <= i < 0) in Hi. lia.
Qed.

Lemma example_cache : cache_ok example_world [].
Proof. exists []. split; [done|]. split; [constructor|]. constructor. Qed.

Lemma result_eq {A} (m : stateful (world Z) Empty_set A) w r : fst (m w) = r -> m w = (r, snd (m w)).
Proof. intros <-. by destruct (m w). Qed.

Lemma own_dec (w : world Z) c ep : map_Forall (fun _ s => elem s <> ep) (sudogs w) -> own c w ep.
Proof.
  intros H l a gp e _ _ Hv. unfold view in Hv. destruct (sudogs w !! a) as [s|] eqn:E; [|done].
  injection Hv as _ <-. by apply (H a).
Qed.

Lemma elsewhere_curg c (w : world Z) a : elsewhere c w (set_curg a w).
Proof. by constructor. Qed.

(** A value through the buffer, one from a parked sender. *)
Lemma channel_fifo_witness :
  exists w h' q ss, run (V:=Z) 0 1 [7; 8] [7; 8] example_world w /\
    chan_inv w 1 h' q ss [] /\ closed h' = 0 /\ [7; 8] = [7; 8] ++ contents q ss.
Proof.
  pose (w1 := snd (chansend 1 10 true example_world)).
  pose (w2 := snd (chansend 1 11 true w1)).
  pose (w3 := set_curg 2 w2).
  pose (w4 := snd (chanrecv 0 1 12 true w3)).
  pose (w5 := snd (chanrecv 0 1 13 true w4)).
  assert (run (V:=Z) 0 1 [7] [] example_world w1) as H1.
  { apply (run_send 0 1 [] [] example_world example_world w1 10 true 7 (Ret true)); [constructor|done..|by vm_compute|done]. }
  assert (run (V:=Z) 0 1 [7; 8] [] example_world w3) as H3.
  { apply run_elsewhere with w2; [|apply elsewhere_curg].
    apply (run_send 0 1 [7] [] example_world w1 w2 11 true 8 (Park (st_ret true))); [exact H1|done|by vm_compute..|done]. }
  assert (run (V:=Z) 0 1 [7; 8] [7] example_world w4) as H4.
  { apply (run_recv 0 1 [7; 8] [] example_world w3 w4 12 true 7); [exact H3|done|by exists 0|apply own_dec, (bool_decide_unpack _); by vm_compute|by vm_compute..]. }
  assert (run (V:=Z) 0 1 [7; 8] [7; 8] example_world w5) as Hrun.
  { apply (run_recv 0 1 [7; 8] [7] example_world w4 w5 13 true 8); [exact H4|done|by exists 0|apply own_dec, (bool_decide_unpack _); by vm_compute|by vm_compute..]. }
  destruct (channel_fifo 0 1 example_world w5 example_chan [7; 8] [7; 8] example_inv eq_refl example_cache Hrun)
    as (h' & q & ss & Hi & Hc & E).
  exists w5, h', q, ss. by split.
Defined.

(** A receiver parks, then goroutine 2 sends. *)
Lemma chansend_loses_value_witness :
  exists w h h' w' a, chan_inv w 1 h [] [] [a] /\ chansend 1 10 true w = (Ok (Ret true), w') /\
    chan_inv w' 1 h' [] [] [] /\ mem w' = mem example_world /\ status w' 1 = Some Gwaiting.
Proof.
  destruct (chanrecv_parks 0 1 12 example_world example_chan [] example_inv)
    as (a & h & w1 & E & Hinv & _ & _ & Hcl & [J1 _ J3 _ J5]); [done|right; by exists 0|done|done|apply example_cache|].
  set (w := set_curg 2 w1).
  assert (chan_inv w 1 h [] [] [a]) as Hinv' by (apply (chan_inv_ext w1); try done; apply Hinv).
  destruct (chansend_loses_value 1 10 true w h [] a Hinv')
    as (h' & w' & Es & Hi & _ & Hm & Hg & _ & gp & Hp & Hst & _); [done|].
  exists w, h, h', w', a. split; [done|]. split; [done|]. split; [done|]. split; [by rewrite Hm|].
  unfold parked in Hp. change (view (sudogs w) a) with (view (sudogs w1) a) in Hp. rewrite J1 in Hp. by injection Hp as <-.
Defined.
