(* ===== verification/ChanClose.v ===== *)
(** * Closing a channel

    [closechan] takes every waiting goroutine off the channel, clears what the
    receivers would have received, and readies them all.  One waiting goroutine
    is woken; with two [runqput] throws. *)
From S2P Require Import Prelude Goroutine Sched SchedProps Chan ChanLists ChanProps ChanFifo.

Local Open Scope Z_scope.
Local Open Scope go_scope.

Section Release.
Context {V : Type} (zero : V).
Implicit Types w : world V.

(** From [w] to [w'] goroutines keep their status, and memory is only
    cleared. *)
Record releasing w w' : Prop := {
  re_status : forall g, status w' g = status w g;
  re_mem : forall y, mem w' !! y = mem w !! y \/ (mem w' !! y = Some zero /\ is_Some (mem w !! y));
  re_pp : pp w' = pp w;
  re_next : stolen_next w' = stolen_next w;
  re_stolen : stolen w' = stolen w;
  re_curg : curg w' = curg w }.

#[export] Instance releasing_preorder : PreOrder releasing.
Proof.
  split; [constructor; auto|]. intros a b d [S1 M1 P1 N1 T1 C1] [S2 M2 P2 N2 T2 C2].
  constructor; [by intros g; rewrite S2|..]; try congruence.
  intros y. destruct (M2 y) as [E2|[E2 [v Hv]]], (M1 y) as [E1|[E1 Hs]].
  - left. congruence.
  - right. split; [congruence|done].
  - right. split; [done|]. exists v. congruence.
  - by right.
Qed.

Lemma releasing_mem w w' e : releasing w w' -> is_Some (mem w !! e) -> is_Some (mem w' !! e).
Proof. intros H He. destruct (re_mem _ _ H e) as [->|[-> _]]; eauto. Qed.

Lemma g_list_ext h h' a l :
  (forall x, schedlink <$> h' !! x = schedlink <$> h !! x) -> g_list h a l -> g_list h' a l.
Proof.
  intros He [Hc Hnd]. split; [|done]. revert Hc. generalize 0 at 1 2. revert a. clear Hnd.
  induction l as [|y l IH]; intros a pv H; [done|]. destruct H as (-> & Hy & n & Hn & _ & H).
  split; [done|]. split; [done|]. specialize (He y) as Hey. rewrite Hn in Hey. destruct (h' !! y) as [n'|]; [|done].
  exists n'. split; [done|]. split; [done|]. injection Hey as ->. by apply IH.
Qed.

(** A sudog that waits, with its goroutine. *)
Definition waiter w (x gp : ptr) : Prop :=
  exists e, view (sudogs w) x = Some (gp, e) /\ (e = 0 \/ is_Some (mem w !! e)) /\ gp <> 0 /\ is_Some (gs w !! gp).

(** What a round does to the sudog, before its goroutine is pushed;
    [clears]: it also clears the element. *)
Definition round_ok (clears : Prop) (body : ptr -> stateful (world V) Empty_set ptr) : Prop :=
  forall w x gp, waiter w x gp -> exists w' s s', body x w = (Ok gp, w') /\ chans w' = chans w /\
    sudogs w !! x = Some s /\ sudogs w' = <[x := s']> (sudogs w) /\ success s' = false /\
    (forall g, schedlink <$> gs w' !! g = schedlink <$> gs w !! g) /\ releasing w w' /\
    (clears -> forall e, view (sudogs w) x = Some (gp, e) -> e <> 0 -> mem w' !! e = Some zero).

Lemma waiter_sudog w x gp : waiter w x gp -> exists s, sudogs w !! x = Some s /\ sg_g s = gp.
Proof.
  intros (e & Hv & _). unfold view in Hv. destruct (sudogs w !! x) as [s|]; [|done]. injection Hv as <- <-. by exists s.
Qed.

Lemma is_some_status w g : is_Some (status w g) -> is_Some (gs w !! g).
Proof. apply fmap_is_Some. Qed.

Lemma releasing_gs w w' g : releasing w w' -> is_Some (gs w !! g) -> is_Some (gs w' !! g).
Proof.
  intros H Hg. assert (is_Some (status w' g)) as Hs by (rewrite (re_status _ _ H); by apply fmap_is_Some).
  by apply fmap_is_Some in Hs.
Qed.

Lemma waiter_ext w w' x gp :
  view (sudogs w') x = view (sudogs w) x -> releasing w w' -> waiter w x gp -> waiter w' x gp.
Proof.
  intros Hv Hr (e & Hve & He & Hg0 & Hg). exists e. rewrite Hv. split_and!; try done; [|by apply (releasing_gs w)].
  destruct He as [?|?]; [by left|right; by apply (releasing_mem w)].
Qed.

Lemma gList_push_ok w a gl gp :
  g_list (gs w) a gl -> gp ∉ gl -> gp <> 0 -> is_Some (gs w !! gp) ->
  exists w', gList_push a gp w = (Ok gp, w') /\ g_list (gs w') gp (gp :: gl) /\ chans w' = chans w /\
    sudogs w' = sudogs w /\ mem w' = mem w /\ releasing w w'.
Proof.
  intros [Hc Hnd] Hn H0 [x Hx]. unfold gList_push. step_with (upd_g_ok gp (set_schedlink a) x w Hx).
  eexists. split; [reflexivity|]. split_and!; try done.
  - split; [|by apply list.NoDup_cons]. split; [done|]. split; [done|]. exists (set_schedlink a x).
    cbn. rewrite lookup_insert_eq. split_and!; [done|done|]. apply chain_insert_ne; [done|]. by apply chain_any with 0.
  - constructor; try done; [|by left]. intros g. by apply status_upd_g.
Qed.

Section Loop.
Context (c : ptr) (qof : hchan V -> waitq) (setq : waitq -> hchan V -> hchan V).
Context (deq : stateful (world V) Empty_set ptr) (clears : Prop) (body : ptr -> stateful (world V) Empty_set ptr).
Hypothesis setq_id : forall h, setq (qof h) h = h.
Hypothesis qof_setq : forall q h, qof (setq q h) = q.
Hypothesis setq_setq : forall q q' h, setq q (setq q' h) = setq q h.
Hypothesis deq_nil : forall h w, chans w !! c = Some h -> waitq_of (sudogs w) (qof h) [] -> deq w = (Ok 0, w).
Hypothesis deq_cons : forall h w x l, chans w !! c = Some h -> waitq_of (sudogs w) (qof h) (x :: l) ->
  exists hs q', deq w = (Ok x, set_chans (<[c := setq q' h]> (chans w)) (set_sudogs hs w)) /\
    waitq_of hs q' l /\ rechained (sudogs w) hs (x :: l).
Hypothesis body_ok : round_ok clears body.

Lemma release_ok l : forall ids gl fuel w h a,
  chans w !! c = Some h -> waitq_of (sudogs w) (qof h) l -> Forall2 (waiter w) l ids -> NoDup (ids ++ gl) ->
  g_list (gs w) a gl -> (length l <= fuel)%nat ->
  exists w' a' q', release deq body fuel a w = (Ok a', w') /\ chans w' = <[c := setq q' h]> (chans w) /\
    waitq_of (sudogs w') q' [] /\ g_list (gs w') a' (rev ids ++ gl) /\ releasing w w' /\
    (forall b, b ∈ l -> success <$> sudogs w' !! b = Some false) /\
    (forall b, b ∉ l -> success <$> sudogs w' !! b = success <$> sudogs w !! b) /\
    (clears -> forall b gp e, b ∈ l -> view (sudogs w) b = Some (gp, e) -> e <> 0 -> mem w' !! e = Some zero).
Proof.
  induction l as [|x l IH]; intros ids gl fuel w h a Hget Hq Hw Hnd Hgl Hfuel.
  { inversion Hw; subst. exists w, a, (qof h). destruct fuel; cbn [release];
      step_with (deq_nil h w Hget Hq); rewrite setq_id, insert_id by done;
      (split; [done|]; split; [done|]; split; [done|]; split; [done|]; split; [done|]; split_and!; [|done|]).
    all: intros b; intros; exfalso; by eapply not_elem_of_nil. }
  inversion Hw as [|? gp ? ids' Hx Hw']; subst. destruct fuel as [|fuel]; [cbn in Hfuel; lia|].
  cbn [app] in Hnd. apply list.NoDup_cons in Hnd as [Hgp Hnd].
  pose proof Hq as (Hch & _ & Hndl). apply list.NoDup_cons in Hndl as [Hxl _].
  assert (x <> 0) as Hx0 by (by destruct Hch as (_ & ? & _)).
  destruct (deq_cons h w x l Hget Hq) as (hs & q1 & Ed & Hq1 & Hre).
  cbn [release]. step_with Ed. rewrite (proj2 (Z.eqb_neq x 0) Hx0). set (w1 := set_chans _ _).
  assert (releasing w w1) as Hr1 by (constructor; auto).
  assert (forall y, view (sudogs w1) y = view (sudogs w) y) as Hv1 by (intros y; apply (view_rechained _ _ _ y Hre)).
  destruct (body_ok w1 x gp) as (w2 & s & s' & Eb & Hc2 & Hs & Hsu2 & Hsuc & Hlink & Hr2 & Hcl); [by apply (waiter_ext w)|].
  step_with Eb. destruct (waiter_ext w w1 x gp (Hv1 x) Hr1 Hx) as (e & _ & _ & Hg0 & Hgi).
  destruct (gList_push_ok w2 a gl gp) as (w3 & Ep & Hgl3 & Hc3 & Hsu3 & Hm3 & Hr3); [|set_solver|done|by apply (releasing_gs w1)|].
  { by apply (g_list_ext (gs w)). }
  step_with Ep. assert (releasing w w3) as Hr13 by (etrans; [exact Hr1|]; by etrans).
  assert (sudogs w3 = <[x := s']> hs) as Hsu by (by rewrite Hsu3, Hsu2).
  destruct (IH ids' (gp :: gl) fuel w3 (setq q1 h) gp) as (w' & a' & q' & E & Hc & Hq' & Hg' & Hr & Hs1 & Hs2 & Hmc).
  - rewrite Hc3, Hc2. apply lookup_insert_eq.
  - rewrite qof_setq, Hsu. destruct Hq1 as (H1 & H2). split; [|done]. by apply chain_insert_ne.
  - clear -Hw' Hr13 Hsu Hxl Hv1. cbn in Hv1. induction Hw' as [|y gy l ids' Hy Hw IH]; constructor.
    + apply (waiter_ext w); [|done|done]. rewrite Hsu, <- Hv1. unfold view. by rewrite lookup_insert_ne by set_solver.
    + apply IH. by apply not_elem_of_cons in Hxl as [_ ?].
  - clear -Hgp Hnd. revert Hgp Hnd. rewrite !list.NoDup_app, list.NoDup_cons. set_solver.
  - done.
  - cbn in Hfuel. lia.
  - exists w', a', q'. split; [done|]. split; [by rewrite Hc, Hc3, Hc2; cbn; rewrite insert_insert_eq, setq_setq|].
    split; [done|]. split; [cbn [rev]; by rewrite <- app_assoc|]. split; [by etrans|].
    assert (forall b, b <> x -> success <$> sudogs w3 !! b = success <$> sudogs w !! b) as Hsb.
    { intros b Hb. rewrite Hsu, lookup_insert_ne by done. destruct (proj2 (Hre b)) as (n & pv & ->). by destruct (sudogs w !! b). }
    split_and!.
    + intros b Hb. apply elem_of_cons in Hb as [->|Hb]; [|by apply Hs1]. rewrite Hs2 by done.
      rewrite Hsu, lookup_insert_eq. cbn. by rewrite Hsuc.
    + intros b Hb. apply not_elem_of_cons in Hb as [Hbx Hb]. rewrite Hs2 by done. by apply Hsb.
    + intros Hcls b gb eb Hb Hvb Heb. apply elem_of_cons in Hb as [->|Hb].
      * assert (gb = gp) as -> by (destruct Hx as (e0 & Hv0 & _); congruence).
        rewrite <- Hv1 in Hvb. specialize (Hcl Hcls eb Hvb Heb). destruct (re_mem _ _ Hr eb) as [->|[-> _]]; [|done].
        by rewrite Hm3.
      * apply (Hmc Hcls b gb); [done| |done]. rewrite Hsu, <- Hvb, <- Hv1. unfold view. by rewrite lookup_insert_ne by set_solver.
Qed.

End Loop.

(** ** The two loops *)

Lemma sudog_of_waiter w x gp : waiter w x gp ->
  exists s, sudogs w !! x = Some s /\ sg_g s = gp /\ view (sudogs w) x = Some (gp, elem s) /\
    (elem s = 0 \/ is_Some (mem w !! elem s)) /\ is_Some (gs w !! gp).
Proof.
  intros (e & Hv & He & _ & Hg). unfold view in Hv. destruct (sudogs w !! x) as [s|] eqn:E; [|done].
  injection Hv as <- <-. exists s. unfold view. by rewrite E.
Qed.

Lemma releasing_calls w w' : gs w' = gs w -> mem w' = mem w -> pp w' = pp w -> stolen_next w' = stolen_next w ->
  stolen w' = stolen w -> curg w' = curg w -> releasing w w'.
Proof.
  intros Hg Hm ? ? ? ?. constructor; try done; [intros g; unfold status; by rewrite Hg|]. intros y. left. by rewrite Hm.
Qed.

Lemma release_writer_ok : round_ok False release_writer.
Proof.
  intros w x gp Hw. destruct (sudog_of_waiter w x gp Hw) as (s & Hs & Hg & _).
  unfold release_writer. step_with (get_sg_ok x s w Hs). step_with (upd_sg_ok x (set_elem 0) s w Hs).
  erewrite bind_ok by (apply upd_sg_ok; apply lookup_insert_eq). cbn beta iota zeta. rewrite Hg.
  eexists _, s, (set_success false (set_elem 0 s)). split; [reflexivity|]. split_and!; try done.
  - cbn. by rewrite insert_insert_eq.
  - by apply releasing_calls.
Qed.

Lemma release_reader_ok : round_ok True (release_reader zero).
Proof.
  intros w x gp Hw. destruct (sudog_of_waiter w x gp Hw) as (s & Hs & Hg & Hv & He & [y Hy]).
  unfold release_reader. step_with (get_sg_ok x s w Hs).
  assert (exists w1 s1, (if negb (elem s =? 0) then memstore (elem s) zero ;;; upd_sg x (set_elem 0) else st_ret tt) w
      = (Ok tt, w1) /\ chans w1 = chans w /\ sudogs w1 = <[x := s1]> (sudogs w) /\ gs w1 = gs w /\
      releasing w w1 /\ (elem s <> 0 -> mem w1 !! elem s = Some zero)) as (w1 & s1 & E1 & Hc1 & Hs1 & Hg1 & Hr1 & Hz).
  { destruct (Z.eqb_spec (elem s) 0) as [E0|E0]; cbn [negb].
    - exists w, s. split; [done|]. rewrite insert_id by done. done.
    - destruct He as [?|[v Hv0]]; [done|]. step_with (memstore_ok (elem s) zero v w Hv0). set (w0 := set_mem _ w).
      rewrite (upd_sg_ok x (set_elem 0) s w0 Hs). eexists _, (set_elem 0 s). split; [reflexivity|].
      split_and!; try done; [|intros _; apply lookup_insert_eq]. constructor; try done. intros z. cbn.
      destruct (decide (elem s = z)) as [<-|]; [right; rewrite lookup_insert_eq; eauto|left; by rewrite lookup_insert_ne]. }
  step_with E1. rewrite Hg. assert (gs w1 !! gp = Some y) as Hy1 by (by rewrite Hg1).
  step_with (upd_g_ok gp (set_param x) y w1 Hy1). set (w2 := set_gs _ w1).
  assert (sudogs w2 !! x = Some s1) as Hs2 by (cbn; rewrite Hs1; apply lookup_insert_eq).
  step_with (upd_sg_ok x (set_success false) s1 w2 Hs2). eexists _, s, (set_success false s1). split; [reflexivity|].
  split_and!; try done.
  - cbn. by rewrite Hs1, insert_insert_eq.
  - intros g. cbn. rewrite Hg1. destruct (decide (gp = g)) as [<-|]; [by rewrite lookup_insert_eq, Hy|by rewrite lookup_insert_ne].
  - etrans; [exact Hr1|]. constructor; try done; [|by left]. intros g. change (status (set_gs (<[gp := set_param x y]> (gs w1)) w1) g = status w1 g).
    by apply status_upd_g.
  - intros _ e Hve He0. assert (e = elem s) as -> by congruence. by apply Hz.
Qed.

End Release.

Section Close.
Context {V : Type} (zero : V).
Implicit Types w : world V.

(** Popping a goroutine off a list. *)
Lemma ready_all_step fuel gp l w a :
  g_list (gs w) a (gp :: l) -> exists w1 a', ready_all (S fuel) a w = st_bind (goready gp) (fun _ => ready_all fuel a') w1 /\
    g_list (gs w1) a' l /\ (forall g, status w1 g = status w g) /\ gp <> 0 /\
    chans w1 = chans w /\ sudogs w1 = sudogs w /\ mem w1 = mem w /\ curg w1 = curg w /\ pp w1 = pp w /\ stolen_next w1 = stolen_next w.
Proof.
  intros [(-> & H0 & x & Hx & _ & Hc) Hnd]. apply list.NoDup_cons in Hnd as [Hgl Hnd].
  cbn [ready_all]. unfold gList_empty. rewrite (proj2 (Z.eqb_neq gp 0) H0).
  erewrite bind_ok by (unfold gList_pop; rewrite (proj2 (Z.eqb_neq gp 0) H0); cbn [negb];
    by step_with (get_g_ok gp x w Hx)).
  cbn beta iota zeta delta [fst snd]. step_with (upd_g_ok gp (set_schedlink 0) x w Hx).
  eexists _, (schedlink x). split; [reflexivity|]. split_and!; try done.
  - split; [|done]. cbn. apply chain_insert_ne; [done|]. by apply chain_any with gp.
  - intros g. by apply status_upd_g.
Qed.

Lemma ready_all_nil fuel w a : g_list (gs w) a [] -> ready_all fuel a w = (Ok tt, w).
Proof. intros [Hc _]. cbn in Hc. subst a. by destruct fuel. Qed.

(** At most one goroutine is readied. *)
Lemma ready_all_ok l fuel w a :
  g_list (gs w) a l -> (forall g, g ∈ l -> status w g = Some Gwaiting) -> (length l <= fuel)%nat ->
  stolen_next w = [] -> (length l = 0%nat \/ length l = 1%nat /\ runnext (pp w) = 0) ->
  exists w', ready_all fuel a w = (Ok tt, w') /\ chans w' = chans w /\ sudogs w' = sudogs w /\ mem w' = mem w /\
    curg w' = curg w /\ (forall g, status w' g = if decide (g ∈ l) then Some Grunnable else status w g).
Proof.
  intros Hl Hst Hf Ho Hcap. destruct l as [|gp [|]]; cbn in Hcap; [| |lia].
  { exists w. rewrite ready_all_nil by done. by split_and!. }
  destruct fuel as [|fuel]; [cbn in Hf; lia|].
  destruct (ready_all_step fuel gp [] w a Hl) as (w1 & a' & -> & Hl1 & Hs1 & _ & E1 & E2 & E3 & E4 & E5 & E6).
  destruct Hcap as [|[_ Hn]]; [done|].
  destruct (goready_works gp w1) as (w2 & E & _ & _ & Hlk); [congruence..|rewrite Hs1; apply Hst; set_solver|].
  step_with E. destruct (goready_readied _ _ _ E) as [R1 R2 R3 R4 _ _ R7]. rewrite ready_all_nil.
  - exists w2. split; [done|]. split_and!; try congruence. intros g. rewrite R7, Hs1.
    destruct (decide (g = gp)) as [->|]; [by rewrite decide_True by set_solver|by rewrite decide_False by set_solver].
  - by apply (g_list_ext (gs w1)).
Qed.

(** More than that: the second one, or the first when [runnext] is taken, has
    no place. *)
Lemma ready_all_throws l fuel w a :
  g_list (gs w) a l -> (forall g, g ∈ l -> status w g = Some Gwaiting) -> (length l <= fuel)%nat ->
  stolen_next w = [] -> runq_size (pp w) < runq_len -> l <> [] -> (2 <= length l)%nat \/ runnext (pp w) <> 0 ->
  exists w', ready_all fuel a w = (Panic "runqputslow: queue is not full", w').
Proof.
  intros Hl Hst Hf Ho Hsz Hne Hcap. destruct l as [|gp l]; [done|]. destruct fuel as [|fuel]; [cbn in Hf; lia|].
  destruct (ready_all_step fuel gp l w a Hl) as (w1 & a' & -> & Hl1 & Hs1 & H0 & _ & _ & _ & _ & E5 & E6).
  assert (status w1 gp = Some Gwaiting) as Hw by (rewrite Hs1; apply Hst; set_solver).
  destruct (Z.eq_dec (runnext (pp w)) 0) as [Hn|Hn].
  2:{ destruct (goready_throws gp w1) as [w' E]; [congruence..|done|]. unfold st_bind. rewrite E. by eexists. }
  destruct (goready_works gp w1) as (w2 & E & Hp & Ho2 & Hlk); [congruence..|done|].
  step_with E. destruct (goready_readied _ _ _ E) as [_ _ _ _ _ _ R7].
  destruct l as [|g2 l]; [cbn in Hcap; lia|]. destruct fuel as [|fuel]; [cbn in Hf; lia|].
  destruct (ready_all_step fuel g2 l w2 a') as (w3 & a3 & -> & _ & Hs3 & _ & _ & _ & _ & _ & F5 & F6).
  { by apply (g_list_ext (gs w1)). }
  destruct Hl as [_ Hnd]. apply list.NoDup_cons in Hnd as [Hg2 _].
  destruct (goready_throws g2 w3) as [w' E'].
  - rewrite F5, Hp. exact H0.
  - congruence.
  - rewrite F5, Hp, E5. exact Hsz.
  - rewrite Hs3, R7, decide_False by set_solver. rewrite Hs1. apply Hst. set_solver.
  - unfold st_bind. rewrite E'. by eexists.
Qed.

Lemma length_le_dom {T} (m : gmap ptr T) (l : list ptr) :
  NoDup l -> (forall x, x ∈ l -> is_Some (m !! x)) -> (length l <= size m)%nat.
Proof.
  intros Hnd Hin. rewrite <- (size_dom m). rewrite <- (size_list_to_set (C := gset ptr) l) by done.
  apply subseteq_size. intros x Hx. apply elem_of_list_to_set in Hx. by apply elem_of_dom, Hin.
Qed.

Lemma waiters_of w l :
  (forall b, b ∈ l -> exists gp, waiter w b gp) -> exists ids, Forall2 (waiter w) l ids /\ map (parked w) l = map Some ids.
Proof.
  induction l as [|b l IH]; intros H; [by exists []|]. destruct (H b) as [gp Hgp]; [set_solver|].
  destruct IH as (ids & H1 & H2); [intros x Hx; apply H; set_solver|]. exists (gp :: ids). split; [by constructor|].
  cbn. rewrite H2. f_equal. destruct Hgp as (e & Hv & _). unfold parked. by rewrite Hv.
Qed.

Lemma sender_waiter w a v : sender w a v -> exists gp, waiter w a gp.
Proof.
  intros (gp & e & Hv & _ & Hm & Hs & H0). exists gp, e. split; [done|]. split; [right; by eexists|]. split; [done|].
  unfold status in Hs. by destruct (gs w !! gp).
Qed.

Lemma receiver_waiter w a : receiver w a -> exists gp, waiter w a gp.
Proof.
  intros (gp & e & Hv & He & Hs & H0). exists gp, e. split; [done|]. split; [done|]. split; [done|].
  unfold status in Hs. by destruct (gs w !! gp).
Qed.

(** Both loops together: at most one of them has something to do. *)
Lemma release_both c w h q ss rs n :
  chans w !! c = Some h -> ring h q -> waitq_of (sudogs w) (recvq h) rs -> waitq_of (sudogs w) (sendq h) (map fst ss) ->
  Forall (fun x => sender w x.1 x.2) ss -> Forall (receiver w) rs -> NoDup (map (parked w) (map fst ss ++ rs)) ->
  (rs <> [] -> ss = []) -> (length ss + length rs <= n)%nat ->
  exists w' a l h', (let* glist := release (recvq_dequeue c) (release_reader zero) n 0 in
      release (sendq_dequeue c) release_writer n glist) w = (Ok a, w') /\
    chans w' = <[c := h']> (chans w) /\ ring h' q /\ closed h' = closed h /\
    waitq_of (sudogs w') (recvq h') [] /\ waitq_of (sudogs w') (sendq h') [] /\
    releasing zero w w' /\ g_list (gs w') a l /\ length l = (length ss + length rs)%nat /\
    (forall g, g ∈ l <-> exists b, b ∈ map fst ss ++ rs /\ parked w b = Some g) /\
    (forall b, b ∈ map fst ss ++ rs -> success <$> sudogs w' !! b = Some false) /\
    (forall b gp e, b ∈ rs -> view (sudogs w) b = Some (gp, e) -> e <> 0 -> mem w' !! e = Some zero).
Proof.
  intros Hget Hring Hrq Hsq Hss Hrs Hnd Hem Hn.
  assert (forall ids, map (parked w) (map fst ss ++ rs) = map Some ids ->
    length ids = (length ss + length rs)%nat /\ NoDup ids /\
    forall g, g ∈ rev ids <-> exists b, b ∈ map fst ss ++ rs /\ parked w b = Some g) as Hids.
  { intros ids E. split_and!.
    - rewrite <- (length_map Some ids), <- E, length_map, length_app, length_map. done.
    - rewrite E in Hnd. by apply NoDup_fmap in Hnd; [|apply _].
    - intros g. rewrite list_elem_of_In, <- in_rev.
      assert (In g ids <-> In (Some g) (map (parked w) (map fst ss ++ rs))) as ->.
      { rewrite E. split; [apply in_map|]. intros (x & Ex & Hx)%in_map_iff. by injection Ex as ->. }
      rewrite in_map_iff. split; intros (b & Hb & Hin); exists b; rewrite ?list_elem_of_In in *; done. }
  destruct rs as [|r rs].
  - destruct (waiters_of w (map fst ss)) as (ids & Hw & Em).
    { intros b (x & <- & Hx)%list_elem_of_In%in_map_iff. rewrite Forall_forall in Hss. apply (sender_waiter w _ x.2).
      by apply Hss. }
    rewrite app_nil_r in *. destruct (Hids ids Em) as (Hlen & Hni & Hin). rewrite Nat.add_0_r in *.
    assert (release (recvq_dequeue c) (release_reader zero) n 0 w = (Ok 0, w)) as E0.
    { destruct n; cbn [release]; by step_with (recvq_dequeue_nil c h w Hget Hrq). }
    step_with E0.
    destruct (release_ok zero c sendq set_sendq (sendq_dequeue c) False release_writer) with
      (l := map fst ss) (ids := ids) (gl := @nil ptr) (fuel := n) (w := w) (h := h) (a := 0)
      as (w' & a' & q' & E & Hc & Hq' & Hgl & Hr & Hsu & _ & _); try done.
    { by intros []. }
    { intros h0 w0. apply sendq_dequeue_nil. }
    { intros h0 w0 x l. apply sendq_dequeue_cons. }
    { apply release_writer_ok. }
    { by rewrite app_nil_r. }
    { split; [done|constructor]. }
    { by rewrite length_map. }
    exists w', a', (rev ids), (set_sendq q' h). rewrite app_nil_r in Hgl. rewrite length_rev, Hlen.
    split; [exact E|]. split; [done|]. split; [by apply (ring_recvq h)|]. split_and!; try done. set_solver.
  - rewrite (Hem ltac:(done)) in *. cbn [map app length] in *.
    destruct (waiters_of w (r :: rs)) as (ids & Hw & Em).
    { intros b Hb. rewrite Forall_forall in Hrs. apply receiver_waiter. apply Hrs. by apply list_elem_of_In. }
    destruct (Hids ids Em) as (Hlen & Hni & Hin).
    destruct (release_ok zero c recvq set_recvq (recvq_dequeue c) True (release_reader zero)) with
      (l := r :: rs) (ids := ids) (gl := @nil ptr) (fuel := n) (w := w) (h := h) (a := 0)
      as (w' & a' & q' & E & Hc & Hq' & Hgl & Hr & Hsu & _ & Hz); try done.
    { by intros []. }
    { intros h0 w0. apply recvq_dequeue_nil. }
    { intros h0 w0 x l. apply recvq_dequeue_cons. }
    { apply release_reader_ok. }
    { by rewrite app_nil_r. }
    { split; [done|constructor]. }
    step_with E. assert (chans w' !! c = Some (set_recvq q' h)) as Hget' by (rewrite Hc; apply lookup_insert_eq).
    assert (release (sendq_dequeue c) release_writer n a' w' = (Ok a', w')) as E0.
    { destruct n; cbn [release]; by step_with (sendq_dequeue_nil c (set_recvq q' h) w' Hget' Hsq). }
    exists w', a', (rev ids), (set_recvq q' h). rewrite app_nil_r in Hgl. rewrite length_rev, Hlen.
    split; [exact E0|]. split; [done|]. split; [by apply (ring_recvq h)|]. split_and!; try done. by apply Hz.
Qed.

(** Up to the loop that readies them: all waiting goroutines are on a list,
    their operations marked failed. *)
Lemma closechan_releases c w h q ss rs :
  chan_inv w c h q ss rs -> closed h = 0 ->
  exists h' w1 a l fuel, closechan zero c w = ready_all fuel a w1 /\
    chans w1 = <[c := h']> (chans w) /\ ring h' q /\ closed h' = 1 /\
    waitq_of (sudogs w1) (recvq h') [] /\ waitq_of (sudogs w1) (sendq h') [] /\
    (forall g, status w1 g = status w g) /\ pp w1 = pp w /\ stolen_next w1 = stolen_next w /\
    g_list (gs w1) a l /\ length l = (length ss + length rs)%nat /\ (length l <= fuel)%nat /\
    (forall g, g ∈ l <-> exists b, b ∈ map fst ss ++ rs /\ parked w b = Some g) /\
    (forall g, g ∈ l -> status w g = Some Gwaiting) /\
    (forall b, b ∈ map fst ss ++ rs -> success <$> sudogs w1 !! b = Some false) /\
    (forall b gp e, b ∈ rs -> view (sudogs w) b = Some (gp, e) -> e <> 0 -> mem w1 !! e = Some zero).
Proof.
  intros Hinv Hcl. pose proof Hinv as [Hc0 Hget Hring Hrq Hsq Hss Hrs Hnd Hfu Hem Hcd].
  unfold closechan. rewrite (proj2 (Z.eqb_neq c 0) Hc0). step. set (w1 := set_calls _ w).
  assert (chans w1 !! c = Some h) as Hget1 by done. step_with (get_c_ok c h w1 Hget1). rewrite Hcl. cbn [Z.eqb negb].
  step_with (upd_c_ok c (set_closed 1) h w1 Hget1). set (w2 := set_chans _ w1). step.
  assert (length ss + length rs <= size (sudogs w2))%nat as Hn.
  { replace (length ss + length rs)%nat with (length (map fst ss ++ rs)) by (by rewrite length_app, length_map).
    apply length_le_dom; [exact (NoDup_fmap_1 _ _ Hnd)|]. intros b Hb. by apply (sudogs_of_waiting w ss rs). }
  destruct (release_both c w2 (set_closed 1 h) q ss rs (size (sudogs w2)))
    as (w3 & a & l & h3 & E & Hc3 & Hr3 & Hcl3 & Hq3 & Hs3 & Hrel & Hl & Hlen & Hin & Hsu & Hz); try done.
  { apply lookup_insert_eq. }
  { by apply (ring_recvq h). }
  { intros Hne. by destruct (Hem Hne). }
  rewrite bind_bind. step_with E. step. set (w4 := set_calls _ w3).
  assert (forall g, g ∈ l -> status w g = Some Gwaiting) as Hwait.
  { intros g Hg. apply Hin in Hg as (b & Hb & Hp). destruct (waiting_goroutines w ss rs b Hss Hrs Hb) as (g' & Hp' & Hs' & _).
    change (parked w b = Some g) in Hp. congruence. }
  exists h3, w4, a, l, (size (gs w2)). split; [reflexivity|]. split_and!; try done.
  - rewrite <- (insert_insert_eq (chans w) c h3 (set_closed 1 h)). exact Hc3.
  - intros g. apply (re_status _ _ _ Hrel).
  - exact (re_pp _ _ _ Hrel).
  - exact (re_next _ _ _ Hrel).
  - apply length_le_dom; [apply Hl|]. intros g Hg. apply (is_some_status w). by rewrite Hwait.
Qed.

(** C26: what closing a channel does, when no other P takes from [runnext]
    meanwhile.  With nobody waiting, or one goroutine and [runnext] free for it,
    it becomes runnable and finds its operation failed, what a receiver waits for
    is cleared, nobody waits any more, and what is buffered can still be
    received.  With more waiting goroutines (or [runnext] taken) and room in the
    local run queue [closechan] throws, because [runqput] goes on to the overflow
    path after it has stored a goroutine. *)
Theorem closechan_wakes c w h q ss rs :
  chan_inv w c h q ss rs -> closed h = 0 -> stolen_next w = [] ->
  let waiting := (length ss + length rs)%nat in
  (waiting = 0%nat \/ waiting = 1%nat /\ runnext (pp w) = 0 ->
   exists h' w', closechan zero c w = (Ok tt, w') /\ chan_inv w' c h' q [] [] /\ closed h' = 1 /\
    (forall b gp, b ∈ map fst ss ++ rs -> parked w b = Some gp ->
       status w' gp = Some Grunnable /\ success <$> sudogs w' !! b = Some false) /\
    (forall b gp e, b ∈ rs -> view (sudogs w) b = Some (gp, e) -> e <> 0 -> mem w' !! e = Some zero) /\
    (forall g, (forall b, b ∈ map fst ss ++ rs -> parked w b <> Some g) -> status w' g = status w g)) /\
  ((2 <= waiting)%nat \/ waiting = 1%nat /\ runnext (pp w) <> 0 -> runq_size (pp w) < runq_len ->
   exists w', closechan zero c w = (Panic "runqputslow: queue is not full", w')).
Proof.
  intros Hinv Hcl Ho. pose proof Hinv as [Hc0 Hget Hring Hrq Hsq Hss Hrs Hnd Hfu Hem Hcd].
  destruct (closechan_releases c w h q ss rs Hinv Hcl) as (h' & w1 & a & l & fuel & -> & E1 & Hr & Hc1 & Hq1 & Hq2 &
    Hst & Hp & Hsn & Hl & Hlen & Hf & Hin & Hwait & Hsu & Hz). cbn zeta. rewrite <- Hlen. split.
  - intros Hcap. destruct (ready_all_ok l fuel w1 a) as (w' & E' & C1 & C2 & C3 & C4 & C5); try done.
    { intros g Hg. rewrite Hst. by apply Hwait. }
    { congruence. }
    { by rewrite Hp. }
    exists h', w'. split; [exact E'|]. split; [|split; [done|]].
    + constructor; try done; try (by constructor); [|by rewrite C2..|].
      * rewrite C1, E1. apply lookup_insert_eq.
      * split; [by right|done].
    + split; [|split].
      * intros b gp Hb Hpk. rewrite C5, C2, decide_True by (apply Hin; by exists b). split; [done|]. by apply Hsu.
      * intros b gp e Hb Hv He. rewrite C3. by apply (Hz b gp).
      * intros g Hg. rewrite C5, decide_False; [apply Hst|]. intros (b & Hb & Hpk)%Hin. by apply (Hg b).
  - intros Hcap Hsz. apply (ready_all_throws l); try done.
    + intros g Hg. rewrite Hst. by apply Hwait.
    + congruence.
    + by rewrite Hp.
    + intros ->. cbn in Hcap. lia.
    + rewrite Hp. destruct Hcap as [?|[_ ?]]; [by left|by right].
Qed.

End Close.

(** ** Examples *)

(** A goroutine waits to receive; another closes the channel. *)
Lemma closechan_wakes_witness :
  exists w h h' w' a, chan_inv w 1 h [] [] [a] /\ closechan 0 1 w = (Ok tt, w') /\ chan_inv w' 1 h' [] [] [] /\
    closed h' = 1 /\ status w' 1 = Some Grunnable /\ success <$> sudogs w' !! a = Some false.
Proof.
  destruct (chanrecv_parks 0 1 12 example_world example_chan [] example_inv)
    as (a & h & w1 & E & Hinv & _ & _ & Hcl & [J1 _ _ _ _]); [done|right; by exists 0|done|done|apply example_cache|].
  assert (w1 = snd (chanrecv 0 1 12 true example_world)) as Ew by (by rewrite E).
  set (w := set_curg 2 w1).
  assert (chan_inv w 1 h [] [] [a]) as Hinv' by (apply (chan_inv_ext w1); try done; apply Hinv).
  assert (runnext (pp w1) = 0 /\ stolen_next w1 = []) as Hfree by (rewrite Ew; by vm_compute).
  clear Ew.
  destruct Hfree as [Hn Ho].
  pose proof (closechan_wakes 0 1 w h [] [] [a] Hinv' Hcl Ho) as [Hclose _].
  destruct (Hclose (or_intror (conj eq_refl Hn))) as (h' & w' & Ec & Hi & Hc' & Hp & _ & _).
  destruct (Hp a 1) as [Hs Hf]; [set_solver|by unfold parked; change (view (sudogs w) a) with (view (sudogs w1) a); rewrite J1|].
  exists w, h, h', w', a. by split.
Defined.

(** Two goroutines wait: readying the second one throws (see [closechan_wakes]). *)
Example closechan_two_waiters :
  let w1 := snd (chanrecv 0 1 12 true example_world) in
  let w2 := snd (chanrecv 0 1 13 true (set_curg 2 w1)) in
  map fst (map_to_list (sudogs w2)) <> [] /\
  fst (closechan 0 1 w2) = Panic "runqputslow: queue is not full".
Proof. by vm_compute. Qed.
