(* ===== verification/Select.v ===== *)
(** * Select

    [src/channels_and_select/select.go]: the order in which [selectgo] polls
    its cases, and how [reflect_rselect] lays out the cases it passes down.
    Both functions are unfinished in the repository: [selectgo] stops after the
    poll order and returns [(0, true)], [reflect_rselect] before its call of
    [selectgo].  Arrays are lists and an index out of range panics;
    [fastrandn], a stub that returns 0, is an argument. *)
From S2P Require Import Prelude Slice Goroutine Sched Chan.

Local Open Scope Z_scope.
Local Open Scope go_scope.

(** ** [selectgo] *)

Record scase : Type := mkScase { sc_c : ptr; sc_elem : ptr }.

Definition fastrandn (n : Z) : Z := 0.

(** The loop over [scases] from index [i]; [rand i n] is the result of the call
    of [fastrandn] in round [i]. *)
Fixpoint poll_loop (rand : nat -> Z -> Z) (scases : list scase) (i : nat) (pollorder : list Z) (norder : Z) :
    res Empty_set (list scase * list Z * Z) :=
  match scases with
  | [] => Ok ([], pollorder, norder)
  | cas :: scases =>
      if sc_c cas =? 0 then
        let? r := poll_loop rand scases (S i) pollorder norder in
        Ok (mkScase 0 0 :: fst (fst r), snd (fst r), snd r)
      else
        let j := rand i (u32 (u32 norder + 1)) in
        let? v := slice_get pollorder j in
        let? pollorder := slice_set pollorder norder v in
        let? pollorder := slice_set pollorder j (u16 (Z.of_nat i)) in
        let? r := poll_loop rand scases (S i) pollorder (norder + 1) in
        Ok (cas :: fst (fst r), snd (fst r), snd r)
  end.

(** The cases after the call, [pollorder] and [lockorder], and the results. *)
Definition selectgo (rand : nat -> Z -> Z) (cas0 : list scase) (order0 : list Z) (nsends nrecvs : Z) :
    res Empty_set (list scase * list Z * list Z * (Z * bool)) :=
  let ncases := nsends + nrecvs in
  if (ncases <? 0) || (2 ^ 16 <? ncases) then Panic "slice bounds out of range"
  else
    let n := Z.to_nat ncases in
    let scases := take n cas0 in
    let pollorder := take n order0 in
    let lockorder := take n (drop n order0) in
    let? r := poll_loop rand scases 0 pollorder 0 in
    let norder := Z.to_nat (snd r) in
    Ok (fst (fst r), take norder (snd (fst r)), take norder lockorder, (0, true)).

(** ** [reflect_rselect] *)

Definition selectSend : Z := 1.
Definition selectRecv : Z := 2.
Definition selectDefault : Z := 3.

Record runtimeSelect : Type := mkRuntimeSelect { dir : Z; ch : ptr; val : ptr }.

Record rselect : Type := mkRselect { sel : list scase; orig : list Z; nsends : Z; nrecvs : Z; dflt : Z }.

Fixpoint rselect_loop (n : Z) (cases : list runtimeSelect) (i : Z) (s : rselect) : res Empty_set rselect :=
  match cases with
  | [] => Ok s
  | rc :: cases =>
      if dir rc =? selectDefault then
        rselect_loop n cases (i + 1) (mkRselect (sel s) (orig s) (nsends s) (nrecvs s) i)
      else
        let '(j, ns, nr) :=
          if dir rc =? selectSend then (nsends s, nsends s + 1, nrecvs s)
          else if dir rc =? selectRecv then (n - (nrecvs s + 1), nsends s, nrecvs s + 1)
          else (0, nsends s, nrecvs s) in
        let? sel' := slice_set (sel s) j (mkScase (ch rc) (val rc)) in
        let? orig' := slice_set (orig s) j i in
        rselect_loop n cases (i + 1) (mkRselect sel' orig' ns nr (dflt s))
  end.

Definition block {V} : stateful (world V) Empty_set bool := gopark None waitReasonSelectNoCases.

(** The cases prepared for [selectgo], or the result when there is only a
    default case. *)
Definition reflect_rselect (cases : list runtimeSelect) : res Empty_set (rselect + Z * bool) :=
  let n := len cases in
  let? s := rselect_loop n cases 0 (mkRselect (repeat (mkScase 0 0) (length cases)) (repeat 0 (length cases)) 0 0 (-1)) in
  if nsends s + nrecvs s =? 0 then Ok (inr (dflt s, false))
  else
    Ok (inl (if nsends s + nrecvs s <? n then
      mkRselect (copy_down (sel s) (Z.to_nat (nsends s)) (Z.to_nat (n - nrecvs s)))
        (copy_down (orig s) (Z.to_nat (nsends s)) (Z.to_nat (n - nrecvs s))) (nsends s) (nrecvs s) (dflt s)
    else s)).

(** ** The poll order *)

(** One round of the loop puts [x] at a place of the first [n] and moves what
    was there to the end: still a permutation. *)
Lemma poll_round (seen rest : list Z) j g x v :
  (j <= length seen)%nat -> (seen ++ g :: rest) !! j = Some v ->
  exists seen', <[j := x]> (<[length seen := v]> (seen ++ g :: rest)) = seen' ++ rest /\
    length seen' = S (length seen) /\ Permutation seen' (x :: seen).
Proof.
  intros Hj Hv. assert (<[length seen := v]> (seen ++ g :: rest) = (seen ++ [v]) ++ rest) as ->.
  { rewrite <- (Nat.add_0_r (length seen)), insert_app_r. cbn. by rewrite <- app_assoc. }
  rewrite insert_app_l by (rewrite length_app; cbn; lia). exists (<[j := x]> (seen ++ [v])). split; [done|].
  split; [rewrite length_insert, length_app; cbn; lia|].
  destruct (decide (j = length seen)) as [->|Hne].
  - rewrite <- (Nat.add_0_r (length seen)), insert_app_r. cbn. by rewrite Permutation_app_comm.
  - rewrite lookup_app_l in Hv by lia. rewrite insert_app_l by lia.
    pose proof (take_drop_middle seen j v Hv) as E. assert (Permutation (x :: seen) (x :: take j seen ++ v :: drop (S j) seen)) as -> by (by rewrite E).
    rewrite insert_take_drop by lia. solve_Permutation.
Qed.

(** Indices from [i] on of the cases with a channel. *)
Fixpoint open_cases (scases : list scase) (i : nat) : list Z :=
  match scases with
  | [] => []
  | cas :: scases => if sc_c cas =? 0 then open_cases scases (S i) else Z.of_nat i :: open_cases scases (S i)
  end.
Definition clear_closed (cas : scase) : scase := if sc_c cas =? 0 then mkScase 0 0 else cas.

Lemma poll_loop_ok rand scases : forall i seen rest,
  (forall k n, 0 < n -> 0 <= rand k n < n) -> Z.of_nat i + len scases <= 2 ^ 16 ->
  (length seen <= i)%nat -> (length scases <= length rest)%nat ->
  exists seen' rest', poll_loop rand scases i (seen ++ rest) (len seen) =
      Ok (map clear_closed scases, seen' ++ rest', len seen') /\
    Permutation seen' (seen ++ open_cases scases i).
Proof.
  induction scases as [|cas scases IH]; intros i seen rest Hr Hi Hs Hl.
  { exists seen, rest. by rewrite app_nil_r. }
  rewrite len_cons in Hi. cbn [length] in Hl. pose proof (len_nonneg scases).
  cbn [poll_loop map open_cases]. unfold clear_closed at 1. destruct (Z.eqb_spec (sc_c cas) 0) as [E|E].
  - destruct (IH (S i) seen rest) as (seen' & rest' & -> & Hp); [done|lia..|]. cbn. by exists seen', rest'.
  - destruct rest as [|g rest]; [cbn in Hl; lia|]. set (n := u32 (u32 (len seen) + 1)).
    assert (n = len seen + 1) as En by (unfold n, u32, len; rewrite !Z.mod_small; rewrite ?Z.mod_small; lia).
    pose proof (len_nonneg seen). destruct (Hr i n ltac:(lia)) as [Hj1 Hj2]. set (j := rand i n) in *.
    assert (len (seen ++ g :: rest) = len seen + 1 + len rest) as Hlen by (rewrite len_app, len_cons; lia).
    pose proof (len_nonneg rest). destruct (slice_get_lt (seen ++ g :: rest) j) as (v & Hv & ->); [lia|]. cbn [res_bind].
    rewrite slice_set_ok by lia. cbn [res_bind]. rewrite slice_set_ok by (unfold len in *; rewrite length_insert; lia).
    cbn [res_bind]. change (Z.to_nat (len seen)) with (Z.to_nat (Z.of_nat (length seen))). rewrite Nat2Z.id.
    assert (u16 (Z.of_nat i) = Z.of_nat i) as -> by (unfold u16; rewrite Z.mod_small; lia).
    destruct (poll_round seen rest (Z.to_nat j) g (Z.of_nat i) v) as (seen1 & -> & Hl1 & Hp1); [unfold len in *; lia|done|].
    assert (len seen + 1 = len seen1) as -> by (unfold len; lia).
    destruct (IH (S i) seen1 rest) as (seen' & rest' & -> & Hp); [done|cbn in Hl; lia..|].
    exists seen', rest'. split; [done|]. rewrite Hp, Hp1. cbn. apply Permutation_middle.
Qed.

(** Whatever the random numbers, [selectgo] polls every case that has a
    channel exactly once: the poll order is a permutation of their indices, the
    other cases are cleared, and no index is out of range. *)
Theorem selectgo_polls_all rand cas0 order0 nsends nrecvs :
  (forall k n, 0 < n -> 0 <= rand k n < n) ->
  nsends + nrecvs = len cas0 -> len cas0 <= 2 ^ 16 -> 2 * len cas0 <= len order0 ->
  exists pollorder lockorder,
    selectgo rand cas0 order0 nsends nrecvs = Ok (map clear_closed cas0, pollorder, lockorder, (0, true)) /\
    Permutation pollorder (open_cases cas0 0) /\ length lockorder = length pollorder.
Proof.
  intros Hr Hn Hmax Ho. unfold selectgo. rewrite Hn. pose proof (len_nonneg cas0).
  rewrite (proj2 (Z.ltb_ge _ _)), (proj2 (Z.ltb_ge _ _)) by lia. cbn [orb].
  assert (Z.to_nat (len cas0) = length cas0) as -> by (unfold len; lia). rewrite take_ge by lia.
  destruct (poll_loop_ok rand cas0 0 [] (take (length cas0) order0)) as (p & rest & E & Hp); [done|..].
  { exact Hmax. }
  { done. }
  { rewrite length_take. unfold len in *. lia. }
  cbn [app] in *. change (len []) with 0 in E. rewrite E. cbn [res_bind fst snd].
  assert (Z.to_nat (len p) = length p) as -> by (unfold len; lia). rewrite take_app_length.
  do 2 eexists. split; [reflexivity|]. split; [done|].
  assert (length p <= length cas0)%nat as Hle.
  { rewrite (Permutation_length Hp). generalize 0%nat. clear. induction cas0 as [|x l IH]; intros k; [done|]. cbn.
    destruct (sc_c x =? 0); cbn; specialize (IH (S k)); lia. }
  rewrite !length_take, length_drop. unfold len in *. lia.
Qed.

Lemma selectgo_polls_all_witness :
  exists pollorder lockorder,
    selectgo (fun _ n => n - 1) [mkScase 5 1; mkScase 0 2; mkScase 7 3] (repeat 9 6) 1 2
      = Ok ([mkScase 5 1; mkScase 0 0; mkScase 7 3], pollorder, lockorder, (0, true)) /\
    Permutation pollorder [0; 2] /\ length lockorder = length pollorder.
Proof.
  apply (selectgo_polls_all (fun _ n => n - 1) [mkScase 5 1; mkScase 0 2; mkScase 7 3] (repeat 9 6) 1 2);
    [intros k n Hn; lia|done|by vm_compute|by vm_compute].
Defined.

(** ** The layout of the cases *)

Definition case_of (rc : runtimeSelect) (i : Z) : scase * Z := (mkScase (ch rc) (val rc), i).

(** The cases with direction [d], with their indices; the index of the last
    default case. *)
Fixpoint with_dir (d : Z) (cases : list runtimeSelect) (i : Z) : list (scase * Z) :=
  match cases with
  | [] => []
  | rc :: cases => (if dir rc =? d then [case_of rc i] else []) ++ with_dir d cases (i + 1)
  end.
Fixpoint last_default (cases : list runtimeSelect) (i d : Z) : Z :=
  match cases with
  | [] => d
  | rc :: cases => last_default cases (i + 1) (if dir rc =? selectDefault then i else d)
  end.

Definition valid_dir (rc : runtimeSelect) : Prop := dir rc = selectSend \/ dir rc = selectRecv \/ dir rc = selectDefault.
#[export] Instance valid_dir_dec rc : Decision (valid_dir rc).
Proof. unfold valid_dir. apply _. Defined.

Definition laid_out (ss m rs : list (scase * Z)) (d : Z) : rselect :=
  mkRselect (map fst (ss ++ m ++ rev rs)) (map snd (ss ++ m ++ rev rs)) (len ss) (len rs) d.

Lemma rselect_loop_ok cases : forall i n ss m rs d,
  Forall valid_dir cases -> len cases <= len m -> n = len ss + len m + len rs ->
  exists m', rselect_loop n cases i (laid_out ss m rs d) =
      Ok (laid_out (ss ++ with_dir selectSend cases i) m' (rs ++ with_dir selectRecv cases i) (last_default cases i d)) /\
    len m' = len m - len (with_dir selectSend cases i) - len (with_dir selectRecv cases i).
Proof.
  induction cases as [|rc cases IH]; intros i n ss m rs d Hv Hm Hn.
  { exists m. cbn. rewrite !app_nil_r. change (len []) with 0. split; [done|lia]. }
  apply Forall_cons_iff in Hv as [Hd Hv]. rewrite len_cons in Hm. pose proof (len_nonneg cases).
  cbn [rselect_loop with_dir last_default].
  destruct Hd as [Hd|[Hd|Hd]]; rewrite Hd; cbn [selectSend selectRecv selectDefault Z.eqb Pos.eqb app].
  - destruct m as [|x m]; [change (len []) with 0 in Hm; lia|]. rewrite len_cons in *. unfold laid_out. cbn [sel orig nsends nrecvs dflt].
    rewrite !map_app. cbn [map app]. rewrite slice_set_middle by (by rewrite len_map). cbn [res_bind].
    rewrite slice_set_middle by (by rewrite len_map). cbn [res_bind].
    destruct (IH (i + 1) n (ss ++ [case_of rc i]) m rs d) as (m' & E & Hl); [done|lia|rewrite len_app; change (len [_]) with 1; lia|].
    exists m'. unfold laid_out in E. rewrite !map_app, len_app in E. change (len [case_of rc i]) with 1 in E.
    cbn in E. rewrite <- !app_assoc in E. cbn in E. rewrite E. rewrite len_cons. unfold laid_out.
    rewrite !map_app, <- !app_assoc. split; [|lia]. done.
  - destruct (exists_last (l := m)) as (m0 & x & ->); [by intros ->; change (len []) with 0 in Hm; lia|].
    rewrite len_app in *. change (len [x]) with 1 in *. unfold laid_out. cbn [sel orig nsends nrecvs dflt].
    assert (n - (len rs + 1) = len (ss ++ m0)) as Ej by (rewrite len_app; lia).
    replace (ss ++ (m0 ++ [x]) ++ rev rs) with ((ss ++ m0) ++ x :: rev rs) by (by rewrite <- !app_assoc).
    rewrite !map_app. cbn [map app]. rewrite Ej. rewrite <- !map_app.
    rewrite slice_set_middle by (by rewrite len_map). cbn [res_bind].
    rewrite slice_set_middle by (by rewrite len_map). cbn [res_bind].
    destruct (IH (i + 1) n ss m0 (rs ++ [case_of rc i]) d) as (m' & E & Hl); [done|lia|rewrite len_app; change (len [_]) with 1; lia|].
    exists m'. unfold laid_out in E. rewrite rev_app_distr, !map_app, len_app in E.
    change (len [case_of rc i]) with 1 in E. cbn in E. rewrite <- !app_assoc in E. rewrite !map_app, <- !app_assoc, E.
    rewrite len_cons. split; [done|lia].
  - destruct (IH (i + 1) n ss m rs i) as (m' & E & Hl); [done|lia..|]. by exists m'.
Qed.

(** [reflect_rselect] puts the send cases first, in order, then the
    receive cases in reverse order, each with its original index; with neither,
    it chooses the default case. *)
Theorem reflect_rselect_layout cases :
  Forall valid_dir cases ->
  let sends := with_dir selectSend cases 0 in
  let recvs := with_dir selectRecv cases 0 in
  if len sends + len recvs =? 0 then reflect_rselect cases = Ok (inr (last_default cases 0 (-1), false))
  else exists s, reflect_rselect cases = Ok (inl s) /\ nsends s = len sends /\ nrecvs s = len recvs /\
    take (length sends + length recvs) (sel s) = map fst (sends ++ rev recvs) /\
    take (length sends + length recvs) (orig s) = map snd (sends ++ rev recvs) /\
    dflt s = last_default cases 0 (-1).
Proof.
  intros Hv sends recvs. unfold reflect_rselect. set (m0 := repeat (mkScase 0 0, 0) (length cases)).
  assert (mkRselect (repeat (mkScase 0 0) (length cases)) (repeat 0 (length cases)) 0 0 (-1) = laid_out [] m0 [] (-1)) as ->.
  { unfold laid_out, m0. cbn. rewrite !app_nil_r, !map_repeat. done. }
  assert (len m0 = len cases) as Hm0 by (unfold len, m0; by rewrite repeat_length).
  destruct (rselect_loop_ok cases 0 (len cases) [] m0 [] (-1)) as (m & E & Hm); [done|lia|change (len []) with 0; lia|].
  rewrite E. cbn [res_bind app]. fold sends recvs in E, Hm |- *. unfold laid_out. cbn [nsends nrecvs dflt sel orig].
  destruct (Z.eqb_spec (len sends + len recvs) 0) as [_|Hne]; [done|]. eexists. split; [reflexivity|].
  pose proof (len_nonneg m). destruct (Z.ltb_spec (len sends + len recvs) (len cases)) as [Hlt|Hge]; cbn [nsends nrecvs dflt sel orig].
  - split; [done|]. split; [done|]. rewrite !map_app.
    assert (Z.to_nat (len sends) = length sends) as -> by (unfold len; lia).
    assert (forall B (f : scase * Z -> B), Z.to_nat (len cases - len recvs) = length (map f sends ++ map f m)) as Hfrom.
    { intros B f. rewrite length_app, !length_map. unfold len in *. lia. }
    rewrite (Hfrom _ fst) at 1. rewrite (Hfrom _ snd). rewrite <- (length_rev recvs).
    split; [|split; [|done]].
    + rewrite <- (length_map fst sends), <- (length_map fst (rev recvs)). apply copy_down_ok.
    + rewrite <- (length_map snd sends), <- (length_map snd (rev recvs)). apply copy_down_ok.
  - assert (m = []) as -> by (apply len_0_nil; lia). cbn [app]. split; [done|]. split; [done|].
    split; [|split; [|done]]; apply take_ge; rewrite length_map, length_app, length_rev; lia.
Qed.

Lemma reflect_rselect_layout_witness :
  let cases := [mkRuntimeSelect 2 50 1; mkRuntimeSelect 1 60 2; mkRuntimeSelect 3 0 0; mkRuntimeSelect 2 70 3] in
  exists s, reflect_rselect cases = Ok (inl s) /\ nsends s = 1 /\ nrecvs s = 2 /\
    take 3 (sel s) = [mkScase 60 2; mkScase 70 3; mkScase 50 1] /\ take 3 (orig s) = [1; 3; 0] /\ dflt s = 2.
Proof.
  apply (reflect_rselect_layout
    [mkRuntimeSelect 2 50 1; mkRuntimeSelect 1 60 2; mkRuntimeSelect 3 0 0; mkRuntimeSelect 2 70 3]).
  apply (bool_decide_unpack _). by vm_compute.
Defined.
